(* ===== verification/_CoqProject ===== *)
-Q . S2P
Prelude.v
System.v
RingBuffer.v
RingBufferTx.v
RingWorld.v
Nop.v
RingbufferOps.v
RingbufferQueues.v
StreamOps.v
UvConnection.v
UvWorld.v
UvTheorems.v
ShmConnection.v
ShmWorld.v
ShmPair.v
ShmErrors.v
IbvReactor.v
IbvConnection.v
IbvRings.v
IbvFlow.v
IbvPair.v
IbvErrors.v
DeferredExecutor.v
BusyPolling.v
ShmReactor.v
EpollLoop.v
Callback.v
Enrollment.v
TransportListener.v
TransportContext.v
Allocator.v
OpsStateMachine.v
LocalOps.v
Messages.v
Select.v
Context.v
ChannelBase.v
ChannelSides.v
BasicChannel.v
CopyChannel.v
CudaXthChannel.v
Chunks.v
CudaBasicChannel.v
CudaBasicSteps.v
CudaBasicSafe.v
CudaBasicTensors.v
MptChannel.v
Registrations.v
MptContext.v
ChannelTheorems.v
CudaBasicTheorems.v
CopyContext.v
Listener.v
ContextListener.v
PipeBase.v
OpsInvariants.v
PipeRead.v
PipeReadInv.v
PipeReadRows.v
PipeReadSide.v
PipeWrite.v
PipeWriteInv.v
PipeWriteRows.v
PipeWriteSide.v
PipeKinds.v
Pipe.v
PipeInv.v
PipeSteps.v
PipeHandshake.v
PipeServer.v
PipeClient.v
PipeWorld.v
PipeTheorems.v
PipePair.v
PipeDemo.v
