(* ===== verification/Prelude.v ===== *)
(** * A verification library for TensorPipe

    TensorPipe moves messages (payloads and tensors) between processes.  A
    [Context] owns transports and channels; a [Listener] accepts pipes; a [Pipe]
    runs a handshake, then sends and receives messages over one transport
    connection (descriptors, payloads), a second one (descriptor replies) and one
    channel per pair of devices (tensors).  A transport connection gives ordered
    bytes and objects; the shared-memory one is made of two ring buffers.

    ** How the code is modelled

    Every class is a [Record] with the fields of the C++ class that matter, every
    method a function from the state (and its arguments) to an [outcome]: a new
    state and the list of calls made to other objects, or an exception.  A failed
    [TP_DCHECK] or [TP_THROW_ASSERT] is [Throw ExAssert], the use of a dangling
    iterator, null pointer or empty [std::function] is [Throw ExDangling]; the
    safety theorems show neither is reached.  Unsigned integers wrap ([u32],
    [u64]).  Code runs on the event loop of its context, one task at a time, so a
    component is a transition system whose steps are the tasks: user calls and
    callbacks, in any order.  The environment (kernel, other threads, the peer,
    channels and transports seen from a pipe) is a world around it, whose steps
    are guarded only by what the environment documents.  A history of calls is
    kept in the world to state what happened.

    ** The files

    - [Prelude]: exceptions and [outcome], machine integers, [Error], record
      update, tactics.
    - [System] ([common/system.h]): powers of two.
    - [RingBuffer], [RingBufferTx], [RingWorld] ([common/ringbuffer.h],
      [common/ringbuffer_role.h]): headers and roles with transactions; the
      operations of a role; any number of producers and consumers stepping
      concurrently, one memory access at a time.
    - [Nop] ([common/nop.h]): serialized objects over a split area.
    - [RingbufferOps] ([common/ringbuffer_read_write_ops.h]): the read and write
      operations of a connection over its rings.
    - [ShmConnection], [ShmWorld], [ShmPair], [ShmErrors]
      ([transport/shm/connection_impl.cc], [transport/connection_impl_boilerplate.h],
      [transport/shm/reactor.cc] as far as a connection sees it): the connection;
      two connected ends; one connection against an arbitrary environment.
    - [DeferredExecutor] ([common/deferred_executor.h]), [Callback]
      ([common/callback.h]), [Allocator] ([common/allocator.cc]).
    - [OpsStateMachine], [OpsInvariants] ([common/state_machine.h]): queues of
      operations driven by a table of transitions.  A subject is an instance of
      the classes [Operation] and [OpsMachine]; [machine_ok] is what a client has
      to show of its table, and [advanceOperation_ok], [advanceAllOperations_ok]
      give: the advance functions terminate with the fuel they are given (one
      round per operation, and one more), keep the invariant, and leave no
      operation that could advance.
    - [Messages] ([core/message.h], [core/nop_types.h] and the conversions of
      [core/pipe_impl.cc]), [Select] (the choice of transport and channels).
    - [PipeBase], [PipeRead], [PipeWrite], [Pipe] ([core/pipe_impl.cc]): the calls
      and callbacks of a pipe; the tables of its read and write operations with
      their actions; handshake, errors and dispatch.
    - [PipeReadInv], [PipeReadRows], [PipeReadSide] and [PipeWriteInv],
      [PipeWriteRows], [PipeWriteSide]: the invariants of the two sides, kept by
      every row of their tables and by every entry point and callback.
    - [PipeKinds], [PipeInv], [PipeSteps], [PipeHandshake], [PipeServer],
      [PipeClient], [PipeWorld]: the two sides do not disturb each other; the
      invariant of the pipe; every event keeps it.
    - [PipeTheorems], [PipePair], [PipeDemo]: what a pipe and two pipes
      guarantee; concrete runs.
    - [StreamOps] ([common/stream_read_write_ops.h]): framed messages over a stream
      that arrives in pieces.  [UvConnection] ([transport/uv/connection_impl.cc], the
      handle of [transport/uv/uv.h], [transport/connection_impl_boilerplate.h]), [UvWorld],
      [UvTheorems]: the connections of the libuv transport; one connection between its
      user and libuv, whose return codes are a parameter; what it guarantees.
    - [RingbufferQueues]: queues of reads and writes over a ring, which the next two
      transports share.  [IbvReactor] ([transport/ibv/reactor.cc]): the reactor between
      its connections and the completion queue.  [IbvConnection]
      ([transport/ibv/connection_impl.cc], [transport/connection_impl_boilerplate.h]):
      the connections of the InfiniBand transport; the library is a parameter.
      [IbvRings]: the rings of a connection with three roles, seen as those with two.
      [IbvFlow]: one direction between two connections, its messages, remote writes and
      acknowledgements, and the invariant of it.  [IbvPair]: two connections with any
      interleaving.  [IbvErrors]: one connection in any environment.
    - [BusyPolling] ([common/busy_polling_loop.h]): the loop that polls, over
      [DeferredExecutor] and any subclass.  [ShmReactor] ([transport/shm/reactor.cc]):
      its tokens and its ring of triggers.  [EpollLoop] ([common/epoll_loop.cc]): the
      thread of the loop, the loop that registers descriptors, and the kernel.
    - [TransportListener] ([transport/listener_impl_boilerplate.h] and the
      [listener_impl.cc] of shm, ibv and uv): listeners as machines that match requests
      with connections; the class [TransportListenerLaws] is the promise of an
      implementation.  [TransportContext] ([transport/context_impl_boilerplate.h] and the
      [context_impl.cc] of shm, ibv and uv): contexts with their listeners and connections.
    - [Enrollment] (what the contexts share), [Context] ([core/context_impl.cc]),
      [Listener] ([core/listener_impl.cc], [common/address.cc]): contexts with the
      objects that enroll themselves, seen through the class [Enrollee]; listeners
      between their user, their transports and the pipes that ask them for
      connections.  [ContextListener]: listeners keep the interface of [Enrollee].
    - [LocalOps]: the same queues, for operations whose transitions touch nothing
      but themselves and may finish out of order; what the function on a single
      operation promises ([local_ok]) gives what the queue keeps.
    - [ChannelBase] ([channel/channel_impl_boilerplate.h], [common/callback.h]): the
      base of every channel over the class [ChannelImpl] of its virtual methods;
      the world of a channel; [ChannelSafe] and [ChannelLive], the promises of an
      implementation, from which the theorems about worlds follow.
    - [ChannelSides]: channels made of a queue of sends and one of receives, which
      keep those promises if single operations do.
    - [BasicChannel] ([channel/basic/channel_impl.cc]), [CopyChannel]
      ([channel/xth/channel_impl.cc] and [channel/cma/channel_impl.cc], which
      differ only in the process identifier of descriptors), [CudaXthChannel]
      ([channel/cuda_xth/channel_impl.cc]; CUDA is a parameter), [MptChannel]
      ([channel/mpt/channel_impl.cc]), [CudaBasicChannel]
      ([channel/cuda_basic/channel_impl.cc]): five instances.
    - [CudaBasicSteps], [CudaBasicSafe], [CudaBasicTensors]: single chunks of the last
      one, its two queues, and the loops that cut tensors into chunks.
      [CudaBasicTheorems]: its chunks and those of its peer.
    - [ChannelTheorems]: what these channels guarantee; concrete runs.
    - [CopyContext] ([channel/cma/context_impl.cc], [channel/xth/context_impl.cc],
      [channel/context_impl_boilerplate.h], [common/queue.h]): the contexts whose
      thread copies memory for their channels.
    - [Registrations] (the table of requests that listeners and mpt contexts keep),
      [MptContext] ([channel/mpt/context_impl.cc]): the context of mpt channels, which
      accepts the connections of every lane and gives them to the channels that asked
      for them; its channels are objects of the class [Enrollee].

    ** What the theorems show

    Ring buffer: first in, first out under any interleaving, mutual exclusion of
    transactions, no failed check.  Shared-memory connection: each end receives
    exactly the bytes the other wrote, no wake-up is lost, every callback is
    called once and in order, also after errors, and no handler throws.  Nop: an
    object written in two pieces is read back whatever the splits.  Executors: one
    task at a time, in order, also across the hand-over of a stopped event loop.
    Pipe: no check fails and nothing dangling is used in any reachable world; the
    callbacks are called in order and at most once; when nothing is outstanding
    nothing is left uncalled; the wire format; both ends agree on transport,
    channels and framing.
    libuv connection: however the stream is cut, reads get the messages written at the
    other end; every callback is called once, also after errors; no handler throws.
    InfiniBand: over two connections each direction delivers the messages written to
    it, in order, without a wake-up lost; remote writes stay inside the two rings; in
    any environment callbacks are called once, and the queue pair is destroyed once,
    when nothing is in flight.  The reactor never has more requests in progress than
    its queues hold; but requests that fail do not give back their place.
    Loops: a polling loop starts every deferred function, in order; the reactor runs
    the function registered under each token triggered; an event of epoll never
    reaches a handler that was not registered for it, and the thread ends.
    Transports: their listeners match requests with connections in order, and their
    contexts enroll each object once and leave nothing behind.
    Listener and context: pipes are accepted in order; requests and connections
    are neither lost nor given twice; a context enrolls each object once, and closing
    it leaves nothing behind.
    Contexts that copy: requests are answered in order, also when the context is
    closed, and the loop that copies a region ends and copies exactly it.
    Context of mpt channels: requests and connections are neither lost nor given twice.
    Channels: every callback is called exactly once, nothing dangling is used, and
    both ends of a channel put the same pieces on each connection in the same
    order; the chunks of an mpt or cuda_basic channel cover the tensor.  One theorem shows where
    this fails: [advanceAllOperations] may stop early, and an mpt channel that is
    closed before it has its lanes then loses a callback.

    ** Bounds

    Sequence numbers are assumed to stay below [2^63] (a user makes fewer calls)
    and sizes of vectors below [2^64].  [advance_loop] and [advance_all_loop] have
    as fuel the number of operations plus one; [advanceOperation_ok] shows that
    this is enough.

    ** Not modelled

    Logging and identifiers; the texts of errors; libnop's encoding (a parameter
    of [Nop], with its round trip as hypothesis); the kernel (sockets,
    shared memory segments, process_vm_readv; of epoll, what its documentation says is
    the environment of [EpollLoop]), libuv and its loop, CUDA, NVML and InfiniBand
    verbs, and the parts that only wrap them; the cuda_ipc and cuda_gdr channels; bindings, benchmarks and tests.
*)

From stdpp Require Export base tactics list gmap strings numbers fin_maps relations.
From Stdlib Require Export ZArith Lia.

#[global] Set Default Goal Selector "!".

(** ** Scopes and notations *)

Declare Scope tp_scope.
Delimit Scope tp_scope with tp.
#[global] Open Scope Z_scope.

(** ** Machine integers

    A [w]-bit unsigned integer of the C++ code is a [Z] in [0, 2^w); every
    arithmetic operation that may leave that range is wrapped explicitly. *)

Definition wrap (w z : Z) : Z := z mod 2 ^ w.
Definition u32 (z : Z) : Z := wrap 32 z.
Definition u64 (z : Z) : Z := wrap 64 z.

Definition is_u64 (z : Z) : Prop := 0 <= z < 2 ^ 64.
Definition is_u32 (z : Z) : Prop := 0 <= z < 2 ^ 32.

(** Conversion of a [uint64_t] to [int64_t]. *)
Definition s64 (z : Z) : Z := wrap 64 (z + 2 ^ 63) - 2 ^ 63.

(** [INT_MAX] of a 32-bit [int]. *)
Definition int_max : Z := 2 ^ 31 - 1.

Lemma wrap_small w z : 0 <= z < 2 ^ w -> wrap w z = z.
Proof. apply Z.mod_small. Qed.

Lemma wrap_range w z : 0 <= w -> 0 <= wrap w z < 2 ^ w.
Proof. intros. apply Z.mod_pos_bound. lia. Qed.

Lemma u64_small z : is_u64 z -> u64 z = z.
Proof. apply wrap_small. Qed.

Lemma u32_small z : is_u32 z -> u32 z = z.
Proof. apply wrap_small. Qed.

Lemma u64_range z : is_u64 (u64 z).
Proof. apply wrap_range. lia. Qed.

Lemma u32_range z : is_u32 (u32 z).
Proof. apply wrap_range. lia. Qed.

Lemma s64_u64 z : - 2 ^ 63 <= z < 2 ^ 63 -> s64 (u64 z) = z.
Proof.
  intros Hz. unfold s64, u64, wrap. rewrite Zplus_mod_idemp_l, Z.mod_small by lia. lia.
Qed.

Lemma s64_small z : - 2 ^ 63 <= z < 2 ^ 63 -> s64 z = z.
Proof. intros Hz. unfold s64. rewrite wrap_small by lia. lia. Qed.

Lemma u64_add_l a b : u64 (u64 a + b) = u64 (a + b).
Proof. unfold u64, wrap. apply Zplus_mod_idemp_l. Qed.

Lemma u64_add_r a b : u64 (a + u64 b) = u64 (a + b).
Proof. unfold u64, wrap. apply Zplus_mod_idemp_r. Qed.

Lemma u64_sub_l a b : u64 (u64 a - b) = u64 (a - b).
Proof. unfold u64, wrap. apply Zminus_mod_idemp_l. Qed.

Lemma u64_sub_r a b : u64 (a - u64 b) = u64 (a - b).
Proof. unfold u64, wrap. apply Zminus_mod_idemp_r. Qed.

#[global] Arguments Z.pow : simpl never.
#[global] Arguments Z.mul : simpl never.
#[global] Arguments Z.modulo : simpl never.
#[global] Arguments Z.div : simpl never.
#[global] Arguments wrap : simpl never.
#[global] Arguments u32 : simpl never.
#[global] Arguments u64 : simpl never.

(** ** Exceptions

    [TP_THROW_ASSERT] (and a failing [TP_DCHECK] of a debug build),
    [TP_THROW_SYSTEM] and [TP_THROW_EINVAL] leave the normal control flow
    ([ExAssertMsg] is a [TP_THROW_ASSERT] whose message matters).  A function that may throw returns an [outcome].  [ExDangling] marks the
    dereference of a pointer to an object that no longer exists: C++ has
    undefined behaviour there, and the safety theorems show it is never
    reached. *)

Inductive exn :=
| ExAssert
| ExAssertMsg (msg : string)
| ExSystem (errno : Z)
| ExInvalidArgument
| ExOutOfRange
| ExDangling.

#[export] Instance exn_eq_dec : EqDecision exn.
Proof. solve_decision. Defined.

Inductive outcome (A : Type) :=
| Done (a : A)
| Throw (e : exn).
Arguments Done {A} a.
Arguments Throw {A} e.

#[export] Instance outcome_eq_dec {A} `{!EqDecision A} : EqDecision (outcome A).
Proof. solve_decision. Defined.

#[export] Instance outcome_ret : MRet outcome := fun A a => Done a.
#[export] Instance outcome_bind : MBind outcome :=
  fun A B f m => match m with Done a => f a | Throw e => Throw e end.

(** [TP_DCHECK] / [TP_THROW_ASSERT_IF]. *)
Definition tp_check (b : bool) : outcome unit :=
  if b then Done tt else Throw ExAssert.

Lemma bind_done {A B} (f : A -> outcome B) a : (Done a ≫= f) = f a.
Proof. reflexivity. Qed.

Lemma done_inj {A} (a b : A) : Done a = Done b -> a = b.
Proof. by intros [=]. Qed.

Lemma bind_done_inv {A B} (m : outcome A) (f : A -> outcome B) b :
  (m ≫= f) = Done b -> exists a, m = Done a /\ f a = Done b.
Proof. destruct m as [a|e]; simpl; [eauto | discriminate]. Qed.

Lemma tp_check_bind {B} b (f : unit -> outcome B) :
  b = true -> (tp_check b ≫= f) = f tt.
Proof. by intros ->. Qed.

Lemma tp_check_done b u : tp_check b = Done u -> b = true.
Proof. destruct b; simpl; congruence. Qed.

(** [wp m Q P]: running [m] gives a value with [P] or throws with [Q]. *)
Definition wp {A} (m : outcome A) (Q : exn -> Prop) (P : A -> Prop) : Prop :=
  match m with Done a => P a | Throw e => Q e end.

Lemma wp_done {A} (a : A) Q (P : A -> Prop) : P a -> wp (Done a) Q P.
Proof. done. Qed.

Lemma wp_bind {A B} (m : outcome A) (f : A -> outcome B) Q P :
  wp m Q (fun a => wp (f a) Q P) -> wp (m ≫= f) Q P.
Proof. by destruct m. Qed.

Lemma wp_mono {A} (m : outcome A) (Q : exn -> Prop) (P P' : A -> Prop) :
  wp m Q P -> (forall a, P a -> P' a) -> wp m Q P'.
Proof. destruct m; simpl; auto. Qed.

Lemma wp_check {B} b (f : unit -> outcome B) Q P :
  b = true -> wp (f tt) Q P -> wp (tp_check b ≫= f) Q P.
Proof. by intros ->. Qed.

Lemma wp_total {A} (m : outcome A) (P : A -> Prop) :
  wp m (fun _ => False) P -> exists a, m = Done a /\ P a.
Proof. destruct m as [a|]; simpl; [eauto | done]. Qed.

(** [TP_THROW_SYSTEM_IF(ret < 0, -ret)]. *)
Definition throw_system_if_neg (ret : Z) : outcome unit :=
  if ret <? 0 then Throw (ExSystem (- ret)) else Done tt.

(** ** Errors passed to callbacks

    [Error] of [common/error.h] wraps one of the error classes of the library,
    or none at all ([Error::kSuccess]). *)

Inductive Error :=
| kSuccess
| SystemError (errno : Z)
| ShortReadError (expected actual : Z)
| ShortWriteError (expected actual : Z)
| EOFError
| ContextClosedError
| ListenerClosedError
| ConnectionClosedError
| ChannelClosedError
| PipeClosedError
| ContextNotViableError
| AllocatorClosedError
| LogicError
| OtherError (code : nat).

#[export] Instance Error_eq_dec : EqDecision Error.
Proof. solve_decision. Defined.

(** [Error::operator bool]. *)
Definition is_error (e : Error) : bool :=
  match e with kSuccess => false | _ => true end.

(** Runs an action on each element of a list, in order, threading a state. *)
Fixpoint fold_outcome {A S} (f : A -> S -> outcome S) (l : list A) (s : S)
  : outcome S :=
  match l with
  | [] => Done s
  | a :: l' => s' ← f a s; fold_outcome f l' s'
  end.

(** Inverts one monadic bind of a hypothesis of the form [m ≫= f = Done b]. *)
Ltac inv_bind H :=
  let a := fresh "a" in
  let Ha := fresh "H" a in
  apply bind_done_inv in H as (a & Ha & H).

(** Splits a boolean conjunction/disjunction/negation hypothesis. *)
Ltac bool_hyps :=
  repeat match goal with
  | H : (_ && _)%bool = true |- _ => apply andb_true_iff in H as [? ?]
  | H : (_ || _)%bool = false |- _ => apply orb_false_iff in H as [? ?]
  | H : negb _ = true |- _ => apply negb_true_iff in H
  | H : negb _ = false |- _ => apply negb_false_iff in H
  | H : bool_decide _ = true |- _ => apply bool_decide_eq_true in H
  | H : bool_decide _ = false |- _ => apply bool_decide_eq_false in H
  | H : (_ =? _)%Z = true |- _ => apply Z.eqb_eq in H
  | H : (_ =? _)%Z = false |- _ => apply Z.eqb_neq in H
  | H : (_ <? _)%Z = true |- _ => apply Z.ltb_lt in H
  | H : (_ <? _)%Z = false |- _ => apply Z.ltb_ge in H
  | H : (_ <=? _)%Z = true |- _ => apply Z.leb_le in H
  | H : (_ <=? _)%Z = false |- _ => apply Z.leb_gt in H
  end.

(** Case analysis on the outermost [if] or [match] of the goal. *)
Ltac split_if :=
  match goal with
  | |- context [if ?b then _ else _] => destruct b eqn:?
  end.

(** ** Record update

    [r <| f := v |>] is [r] with field [f] replaced, for every record with an
    [Eta] instance (which rebuilds a value from its projections). *)

Class Eta (R : Type) := eta_expand : R -> R.
Class FieldUpdate {R E : Type} (proj : R -> E) := field_update : (E -> E) -> R -> R.

Ltac solve_field_update :=
  lazymatch goal with
  | |- @FieldUpdate ?R ?E ?proj =>
      let body := eval hnf in (@eta_expand R _) in
      lazymatch eval pattern proj in body with
      | ?ctx _ =>
          let t := eval cbv beta in
            (fun (upd : E -> E) => ctx (fun r => upd (proj r))) in
          exact t
      end
  end.

#[export] Hint Extern 0 (FieldUpdate _) => solve_field_update : typeclass_instances.

Notation "r <| f := v |>" := (field_update (proj := f) (fun _ => v) r)
  (at level 12, f at level 9, left associativity, format "r  <| f  :=  v |>") : tp_scope.
Notation "r <| f ::= g |>" := (field_update (proj := f) g r)
  (at level 12, f at level 9, left associativity, format "r  <| f  ::=  g |>") : tp_scope.
#[global] Open Scope tp_scope.

(** ** Lists of calls

    Calls of one kind, seen by a function that selects calls. *)
Lemma calls_none {C X Y} (f : C -> option X) (h : Y -> C) (ys : list Y) :
  (forall y, f (h y) = None) -> omap f (h <$> ys) = [].
Proof. intros Hf. induction ys as [|y ys IH]; [done|]. simpl. by rewrite Hf. Qed.

Lemma calls_some {C X Y} (f : C -> option X) (h : Y -> C) (g : Y -> X) (ys : list Y) :
  (forall y, f (h y) = Some (g y)) -> omap f (h <$> ys) = g <$> ys.
Proof. intros Hf. induction ys as [|y ys IH]; [done|]. simpl. rewrite Hf. exact (f_equal (cons _) IH). Qed.

(** ** Permutations of concatenations

    [solve_perm] proves [l ≡ₚ l'] when both are concatenations of the same
    lists in some order; singletons count as lists. *)

Lemma app_nil_end_perm {A} (l l' : list A) : l ++ [] ≡ₚ l' ++ [] -> l ≡ₚ l'.
Proof. by rewrite !app_nil_r. Qed.

Lemma app_swap {A} (a h b : list A) : a ++ h ++ b ≡ₚ h ++ a ++ b.
Proof. by rewrite !app_assoc, (Permutation_app_comm a h). Qed.

Ltac bring_front h :=
  match goal with
  | |- _ ≡ₚ ?h' ++ _ => unify h h'
  | |- _ ≡ₚ ?r =>
      let rec go r :=
        match r with
        | ?a ++ ?h' ++ ?b => let _ := match goal with _ => unify h h' end in constr:(app_swap a h' b)
        | ?a ++ ?r' => let p := go r' in constr:(Permutation_app_head a p)
        end in
      let p := go r in
      refine (Permutation_trans _ (Permutation_sym p));
      bring_front h
  end.

Ltac split_conses :=
  repeat match goal with
  | |- context [?x :: ?l] =>
      lazymatch l with [] => fail | _ => change (x :: l) with ([x] ++ l) end
  end.

Ltac solve_perm :=
  split_conses; rewrite ?app_nil_l, <- ?app_assoc; cbn [app]; split_conses;
  apply app_nil_end_perm; rewrite <- ?app_assoc;
  repeat lazymatch goal with
  | |- [] ++ _ ≡ₚ _ => rewrite app_nil_l
  | |- _ ≡ₚ [] ++ _ => rewrite app_nil_l
  | |- ?h ++ _ ≡ₚ _ => bring_front h; apply Permutation_app_head
  end; reflexivity.

(** ** Lists of elements

    Replacing one element in the middle of a list, and what lists contain. *)
Lemma split_at {A} (l : list A) i o :
  l !! i = Some o -> exists l1 l2, l = l1 ++ o :: l2 /\ length l1 = i /\
    forall o', <[i := o']> l = l1 ++ o' :: l2.
Proof.
  intros Hi. exists (take i l), (drop (S i) l). pose proof (lookup_lt_Some _ _ _ Hi).
  split_and!; [by rewrite take_drop_middle | rewrite length_take; lia|].
  intros o'. by rewrite insert_take_drop.
Qed.

Lemma bind_nil {A X} (f : A -> list X) l : Forall (fun o => f o = []) l -> l ≫= f = [].
Proof. induction 1 as [|o l Ho _ IH]; [done|]. by rewrite bind_cons, Ho, IH. Qed.

(** ** Histories

    Every entry of a history is justified by what came before it. *)
Definition each_justified {E} (J : list E -> E -> Prop) (log : list E) : Prop :=
  forall before e after, log = before ++ e :: after -> J before e.

Lemma each_justified_nil {E} (J : list E -> E -> Prop) : each_justified J [].
Proof. by intros [|]. Qed.

Lemma each_justified_snoc {E} (J : list E -> E -> Prop) log e :
  each_justified J log -> J log e -> each_justified J (log ++ [e]).
Proof.
  intros Hs He before e' after Eq. destruct after as [|x after _] using rev_ind.
  - by apply app_inj_tail in Eq as [<- <-].
  - rewrite app_comm_cons, app_assoc in Eq. apply app_inj_tail in Eq as [-> _]. by eapply Hs.
Qed.

(** Entries that need no justification. *)
Lemma each_justified_app {E} (J : list E -> E -> Prop) log es :
  each_justified J log -> Forall (fun e => forall before, J before e) es -> each_justified J (log ++ es).
Proof.
  revert log. induction es as [|e es IH]; intros log Hs He; [by rewrite app_nil_r|].
  apply Forall_cons in He as [He Hes]. change (e :: es) with ([e] ++ es). rewrite app_assoc. apply IH; [|done]. by apply each_justified_snoc.
Qed.
