(* ===== verification/System.v ===== *)
(** * Power-of-two arithmetic of [common/system.h]

    The ring buffers replace a modulo by a bit mask, so their size is rounded
    up with [nextPow2].  Both widths of the C++ overload set are modelled, with
    the wrap-around of the unsigned subtraction and addition written out. *)

From S2P Require Import Prelude.

(** [n |= n >> k] *)
Definition smear (k n : Z) : Z := Z.lor n (Z.shiftr n k).

Definition isPow2 (n : Z) : bool :=
  (0 <? n) && negb (bool_decide (Z.land (u64 (n - 1)) n <> 0)).

Definition nextPow2_u32 (n : Z) : Z :=
  let n := u32 (n - 1) in
  let n := smear 1 n in
  let n := smear 2 n in
  let n := smear 4 n in
  let n := smear 8 n in
  let n := smear 16 n in
  u32 (n + 1).

Definition nextPow2 (n : Z) : Z :=
  let n := u64 (n - 1) in
  let n := smear 1 n in
  let n := smear 2 n in
  let n := smear 4 n in
  let n := smear 8 n in
  let n := smear 16 n in
  let n := smear 32 n in
  u64 (n + 1).

Definition maxPow2LessEqualThan (n : Z) : Z :=
  if isPow2 n then n else Z.shiftr (nextPow2 n) 1.

(** ** Smearing the highest set bit downwards *)

(** [a] holds the bits of [m] smeared over a window of [s] positions. *)
Definition smeared (m s a : Z) : Prop :=
  0 <= a /\
  forall i, 0 <= i -> Z.testbit a i = true <-> exists d, 0 <= d < s /\ Z.testbit m (i + d) = true.

Lemma smeared_init m : 0 <= m -> smeared m 1 m.
Proof.
  intros Hm. split; [done|]. intros i Hi. split.
  - intros Hb. exists 0. rewrite Z.add_0_r. split; [lia | done].
  - intros (d & Hd & Hb). replace d with 0 in Hb by lia. by rewrite Z.add_0_r in Hb.
Qed.

Lemma smeared_step m s a : 0 < s -> smeared m s a -> smeared m (2 * s) (smear s a).
Proof.
  intros Hs [Ha Hbits]. unfold smear. split.
  { apply Z.lor_nonneg. split; [done|]. by apply Z.shiftr_nonneg. }
  intros i Hi. rewrite Z.lor_spec, Z.shiftr_spec, orb_true_iff by done.
  rewrite Hbits, Hbits by lia. split.
  - intros [(d & Hd & Hb) | (d & Hd & Hb)].
    + exists d. split; [lia | done].
    + exists (s + d). split; [lia|]. by rewrite Z.add_assoc.
  - intros (d & Hd & Hb). destruct (Z.lt_ge_cases d s).
    + left. exists d. split; [lia | done].
    + right. exists (d - s). split; [lia|].
      by replace (i + s + (d - s)) with (i + d) by lia.
Qed.

Lemma smeared_ones m s a :
  0 < m -> Z.log2 m < s -> smeared m s a -> a = Z.ones (Z.log2 m + 1).
Proof.
  intros Hm Hs [Ha Hbits]. pose proof (Z.log2_nonneg m) as Hk.
  apply Z.bits_inj'. intros i Hi.
  rewrite Z.testbit_ones_nonneg by lia.
  apply eq_bool_prop_intro. rewrite !Is_true_true, Z.ltb_lt, Hbits by done. split.
  - intros (d & Hd & Hb). destruct (Z.lt_ge_cases i (Z.log2 m + 1)); [done|].
    rewrite Z.bits_above_log2 in Hb by lia. discriminate.
  - intros Hlt. exists (Z.log2 m - i). split; [lia|].
    replace (i + (Z.log2 m - i)) with (Z.log2 m) by lia.
    by apply Z.bit_log2.
Qed.

Lemma smeared_zero s a : smeared 0 s a -> a = 0.
Proof.
  intros [Ha Hbits]. apply Z.bits_inj'. intros i Hi. rewrite Z.bits_0.
  destruct (Z.testbit a i) eqn:E; [|done].
  apply Hbits in E as (d & _ & Hb); [|done]. by rewrite Z.bits_0 in Hb.
Qed.

Lemma ones_succ k : 0 <= k -> Z.ones k + 1 = 2 ^ k.
Proof. intros. rewrite Z.ones_equiv. lia. Qed.

Lemma smear64 m :
  0 <= m -> smeared m 64 (smear 32 (smear 16 (smear 8 (smear 4 (smear 2 (smear 1 m)))))).
Proof.
  intros Hm. apply smeared_init in Hm.
  do 6 (apply smeared_step in Hm; [|lia]). exact Hm.
Qed.

Lemma smear32 m :
  0 <= m -> smeared m 32 (smear 16 (smear 8 (smear 4 (smear 2 (smear 1 m))))).
Proof.
  intros Hm. apply smeared_init in Hm.
  do 5 (apply smeared_step in Hm; [|lia]). exact Hm.
Qed.

Lemma log2_lt_width m w : 0 < m < 2 ^ w -> Z.log2 m < w.
Proof. intros [? ?]. by apply Z.log2_lt_pow2. Qed.

(** Closed form of the 64-bit overload, for every argument but 0. *)
Lemma nextPow2_closed n :
  1 <= n < 2 ^ 64 -> nextPow2 n = u64 (if n =? 1 then 1 else 2 ^ (Z.log2 (n - 1) + 1)).
Proof.
  intros Hn. unfold nextPow2. rewrite (u64_small (n - 1)) by (unfold is_u64; lia).
  pose proof (smear64 (n - 1) ltac:(lia)) as Hs.
  destruct (Z.eqb_spec n 1) as [->|Hne].
  { apply smeared_zero in Hs. by rewrite Hs. }
  apply smeared_ones in Hs; [|lia | apply log2_lt_width; lia].
  rewrite Hs, ones_succ by (pose proof (Z.log2_nonneg (n - 1)); lia). done.
Qed.

Lemma nextPow2_u32_closed n :
  1 <= n < 2 ^ 32 -> nextPow2_u32 n = u32 (if n =? 1 then 1 else 2 ^ (Z.log2 (n - 1) + 1)).
Proof.
  intros Hn. unfold nextPow2_u32. rewrite (u32_small (n - 1)) by (unfold is_u32; lia).
  pose proof (smear32 (n - 1) ltac:(lia)) as Hs.
  destruct (Z.eqb_spec n 1) as [->|Hne].
  { apply smeared_zero in Hs. by rewrite Hs. }
  apply smeared_ones in Hs; [|lia | apply log2_lt_width; lia].
  rewrite Hs, ones_succ by (pose proof (Z.log2_nonneg (n - 1)); lia). done.
Qed.

(** What "smallest power of two that is at least [n]" means. *)
Definition least_pow2_ge (n p : Z) : Prop :=
  (exists k, 0 <= k /\ p = 2 ^ k) /\ n <= p /\ forall k, 0 <= k -> n <= 2 ^ k -> p <= 2 ^ k.

Lemma least_pow2_ge_log2 n :
  1 <= n -> least_pow2_ge n (if n =? 1 then 1 else 2 ^ (Z.log2 (n - 1) + 1)).
Proof.
  intros Hn. destruct (Z.eqb_spec n 1) as [->|Hne].
  - split; [exists 0; done|]. split; [lia|]. intros k Hk _.
    pose proof (Z.pow_pos_nonneg 2 k). lia.
  - pose proof (Z.log2_nonneg (n - 1)). pose proof (Z.log2_spec (n - 1) ltac:(lia)) as [Hlo Hhi].
    replace (Z.succ (Z.log2 (n - 1))) with (Z.log2 (n - 1) + 1) in Hhi by lia.
    split; [exists (Z.log2 (n - 1) + 1); split; [lia | done]|]. split; [lia|].
    intros k Hk Hge. apply Z.pow_le_mono_r; [lia|].
    assert (Z.log2 (n - 1) < k); [|lia]. apply Z.log2_lt_pow2; lia.
Qed.

Lemma pow2_log2_bound n : 2 <= n <= 2 ^ 63 -> 2 ^ (Z.log2 (n - 1) + 1) <= 2 ^ 63.
Proof.
  intros Hn. apply Z.pow_le_mono_r; [lia|].
  assert (Z.log2 (n - 1) < 63); [|lia]. apply Z.log2_lt_pow2; lia.
Qed.

(** The rounded size is a power of two and fits, whenever the request does. *)
Lemma nextPow2_spec n :
  1 <= n <= 2 ^ 63 -> least_pow2_ge n (nextPow2 n) /\ 1 <= nextPow2 n <= 2 ^ 63.
Proof.
  intros Hn. rewrite nextPow2_closed by lia.
  pose proof (least_pow2_ge_log2 n ltac:(lia)) as Hl.
  assert (1 <= (if n =? 1 then 1 else 2 ^ (Z.log2 (n - 1) + 1)) <= 2 ^ 63) as Hb.
  { destruct (Z.eqb_spec n 1) as [->|Hne]; [lia|].
    pose proof (pow2_log2_bound n ltac:(lia)).
    pose proof (Z.pow_pos_nonneg 2 (Z.log2 (n - 1) + 1)).
    pose proof (Z.log2_nonneg (n - 1)). lia. }
  rewrite u64_small by (unfold is_u64; lia). done.
Qed.

Lemma land_pow2_pred k : 0 <= k -> Z.land (2 ^ k - 1) (2 ^ k) = 0.
Proof.
  intros Hk. rewrite Z.land_comm, Z.sub_1_r, <- Z.ones_equiv, Z.land_ones by done.
  by apply Z_mod_same_full.
Qed.

(** A positive number with [land (n-1) n = 0] has a single bit. *)
Lemma land_pred_zero n : 0 < n -> Z.land (n - 1) n = 0 -> n = 2 ^ Z.log2 n.
Proof.
  intros Hn Hl. pose proof (Z.log2_spec n Hn) as [Hlo Hhi].
  destruct (Z.eq_dec n (2 ^ Z.log2 n)) as [|Hne]; [done|exfalso].
  assert (Z.log2 (n - 1) = Z.log2 n) as Hlog.
  { apply Z.log2_unique; [apply Z.log2_nonneg|lia]. }
  assert (Z.testbit (Z.land (n - 1) n) (Z.log2 n) = true) as Hb.
  { rewrite Z.land_spec, Z.bit_log2, andb_true_r, <- Hlog by done.
    apply Z.bit_log2. pose proof (Z.pow_pos_nonneg 2 (Z.log2 n) ltac:(lia) (Z.log2_nonneg n)). lia. }
  by rewrite Hl, Z.bits_0 in Hb.
Qed.

Lemma isPow2_iff n : is_u64 n -> isPow2 n = true <-> exists k, 0 <= k /\ n = 2 ^ k.
Proof.
  intros Hn. unfold isPow2. split.
  - intros Hb. bool_hyps. apply dec_stable in H0.
    rewrite u64_small in H0 by (unfold is_u64 in *; lia).
    exists (Z.log2 n). split; [apply Z.log2_nonneg | by apply land_pred_zero].
  - intros (k & Hk & ->). pose proof (Z.pow_pos_nonneg 2 k ltac:(lia) Hk).
    rewrite u64_small by (unfold is_u64 in *; lia).
    rewrite land_pow2_pred by done.
    apply andb_true_iff. split; [by apply Z.ltb_lt|].
    apply negb_true_iff, bool_decide_eq_false. intros Hc; by apply Hc.
Qed.

(** ** Claims *)

(** [nextPow2] of [common/system.h] returns the smallest power of two that
    is at least its argument, for every argument that has one in 64 bits. *)
Theorem nextPow2_least n :
  1 <= n <= 2 ^ 63 -> least_pow2_ge n (nextPow2 n) /\ isPow2 (nextPow2 n) = true.
Proof.
  intros Hn. destruct (nextPow2_spec n Hn) as [Hl Hb]. split; [done|].
  apply isPow2_iff; [unfold is_u64; lia|]. by destruct Hl as [? _].
Qed.

Lemma nextPow2_least_witness :
  (1 <= 2097153 <= 2 ^ 63) /\
  least_pow2_ge 2097153 (nextPow2 2097153) /\ isPow2 (nextPow2 2097153) = true.
Proof. split; [lia|]. apply (nextPow2_least 2097153). lia. Defined.

(** [maxPow2LessEqualThan] is the largest power of two below its argument
    only up to 2^63: for every larger 64-bit argument [nextPow2] wraps to 0 and
    the function returns 0. *)
Theorem maxPow2LessEqualThan_cases n :
  (1 <= n <= 2 ^ 63 -> maxPow2LessEqualThan n = 2 ^ Z.log2 n) /\
  (2 ^ 63 < n < 2 ^ 64 -> maxPow2LessEqualThan n = 0).
Proof.
  split; intros Hn; unfold maxPow2LessEqualThan; destruct (isPow2 n) eqn:Hp.
  - apply isPow2_iff in Hp as (k & Hk & ->); [|unfold is_u64; lia].
    by rewrite Z.log2_pow2.
  - assert (2 <= n) as H2.
    { destruct (Z.eq_dec n 1) as [->|]; [discriminate Hp | lia]. }
    assert (Z.log2 (n - 1) = Z.log2 n) as Hlog.
    { apply Z.log2_unique; [apply Z.log2_nonneg|].
      pose proof (Z.log2_spec n ltac:(lia)) as [Hlo Hhi].
      destruct (Z.eq_dec n (2 ^ Z.log2 n)) as [He|]; [|lia].
      exfalso. apply (eq_true_false_abs _ (proj2 (isPow2_iff n ltac:(unfold is_u64; lia))
        (ex_intro _ (Z.log2 n) (conj (Z.log2_nonneg n) He))) Hp). }
    rewrite nextPow2_closed by lia. destruct (Z.eqb_spec n 1); [lia|].
    pose proof (pow2_log2_bound n ltac:(lia)). pose proof (Z.log2_nonneg n).
    pose proof (Z.pow_pos_nonneg 2 (Z.log2 n + 1)). rewrite Hlog in *.
    rewrite u64_small by (unfold is_u64; lia).
    rewrite Z.shiftr_div_pow2, Z.pow_add_r by lia. apply Z.div_mul. lia.
  - exfalso. apply isPow2_iff in Hp as (k & Hk & ->); [|unfold is_u64; lia].
    destruct Hn as [Hlo Hhi]. apply Z.pow_lt_mono_r_iff in Hlo, Hhi; lia.
  - rewrite nextPow2_closed by lia. destruct (Z.eqb_spec n 1); [lia|].
    replace (Z.log2 (n - 1)) with 63; [done|]. symmetry. apply Z.log2_unique; lia.
Qed.
