(* ===== verification/RingBuffer.v ===== *)
(** * The shared-memory ring buffer

    Models [common/ringbuffer.h] and [common/ringbuffer_role.h]: a header with
    one 64-bit marker and one transaction flag per role, a data pool whose size
    is a power of two, and the role objects through which producers and
    consumers move data in transactions.

    A pointer into the data pool is its offset; [nullptr] is [None].  The
    number of roles and the role index are template parameters of the C++
    classes and section variables here. *)

From S2P Require Import Prelude System.

(** ** Error numbers of the Linux ABI used by the roles *)

Definition EAGAIN : Z := 11.
Definition EBUSY : Z := 16.
Definition EINVAL : Z := 22.
Definition ENODATA : Z := 61.

(** ** Data *)

Record RingBufferHeader := mkHeader {
  kDataPoolByteSize : Z;
  kDataModMask : Z;
  inTx_ : list bool;
  markers_ : list Z;
}.
#[export] Instance eta_RingBufferHeader : Eta RingBufferHeader := fun h =>
  mkHeader (kDataPoolByteSize h) (kDataModMask h) (inTx_ h) (markers_ h).

Record RingBuffer := mkRb { header_ : RingBufferHeader; data_ : list Z }.
#[export] Instance eta_RingBuffer : Eta RingBuffer := fun r => mkRb (header_ r) (data_ r).

Record RingBufferRole := mkRole { txSize_ : Z; role_inTx_ : bool }.
#[export] Instance eta_RingBufferRole : Eta RingBufferRole :=
  fun r => mkRole (txSize_ r) (role_inTx_ r).

Record Buffer := mkBuffer { buf_ptr : option Z; buf_len : Z }.

(** ** Header operations *)

Definition newRingBufferHeader (NumRoles : nat) (minDataByteSize : Z)
  : outcome RingBufferHeader :=
  let size := nextPow2 minDataByteSize in
  _ ← tp_check (2 <=? size);
  _ ← tp_check (isPow2 size);
  _ ← tp_check (size <=? int_max);
  Done {| kDataPoolByteSize := size;
          kDataModMask := u64 (size - 1);
          inTx_ := replicate NumRoles false;
          markers_ := replicate NumRoles 0 |}.

(** [std::atomic_flag::test_and_set]: the previous value of the flag, which is
    set afterwards. *)
Definition beginTransaction (idx : nat) (h : RingBufferHeader) : bool * RingBufferHeader :=
  (default false (inTx_ h !! idx), h <| inTx_ ::= fun l => <[idx := true]> l |>).

Definition endTransaction (idx : nat) (h : RingBufferHeader) : RingBufferHeader :=
  h <| inTx_ ::= fun l => <[idx := false]> l |>.

Definition readMarker (idx : nat) (h : RingBufferHeader) : Z :=
  default 0 (markers_ h !! idx).

Definition incMarker (idx : nat) (inc : Z) (h : RingBufferHeader) : RingBufferHeader :=
  h <| markers_ ::= fun l => <[idx := u64 (readMarker idx h + inc)]> l |>.

(** ** Role operations *)

Definition newRole : RingBufferRole := {| txSize_ := 0; role_inTx_ := false |}.

Section role.
Context (NumRoles RoleIdx : nat).

Definition rstate : Type := RingBuffer * RingBufferRole.

Definition getSize (s : rstate) : Z := kDataPoolByteSize (header_ s.1).

Definition startTx (s : rstate) : outcome (Z * rstate) :=
  let '(rb, r) := s in
  if role_inTx_ r then Done (- EBUSY, (rb, r))
  else
    let '(was, h) := beginTransaction RoleIdx (header_ rb) in
    if was then Done (- EAGAIN, (rb <| header_ := h |>, r))
    else
      _ ← tp_check (txSize_ r =? 0);
      Done (0, (rb <| header_ := h |>, r <| role_inTx_ := true |>)).

Definition commitTx (s : rstate) : Z * rstate :=
  let '(rb, r) := s in
  if negb (role_inTx_ r) then (- EINVAL, (rb, r))
  else
    let h := incMarker RoleIdx (txSize_ r) (header_ rb) in
    let h := endTransaction RoleIdx h in
    (0, (rb <| header_ := h |>, {| txSize_ := 0; role_inTx_ := false |})).

Definition cancelTx (s : rstate) : Z * rstate :=
  let '(rb, r) := s in
  if negb (role_inTx_ r) then (- EINVAL, (rb, r))
  else
    let h := endTransaction RoleIdx (header_ rb) in
    (0, (rb <| header_ := h |>, {| txSize_ := 0; role_inTx_ := false |})).

Definition noBuffers : Buffer * Buffer := (mkBuffer None 0, mkBuffer None 0).

Definition accessContiguousInTx (AllowPartial : bool) (size : Z) (s : rstate)
  : outcome (Z * (Buffer * Buffer) * rstate) :=
  let '(rb, r) := s in
  let h := header_ rb in
  if negb (role_inTx_ r) then Done (- EINVAL, noBuffers, s)
  else if size =? 0 then Done (0, noBuffers, s)
  else
    let tail := readMarker RoleIdx h in
    let head := u64 (readMarker ((RoleIdx + 1) mod NumRoles)%nat h +
                     (if (RoleIdx + 1 =? NumRoles)%nat then kDataPoolByteSize h else 0)) in
    _ ← tp_check (u64 (head - tail) <=? kDataPoolByteSize h);
    let avail := u64 (u64 (head - tail) - txSize_ r) in
    _ ← tp_check (0 <=? avail);
    if negb AllowPartial && (avail <? size) then Done (- ENODATA, noBuffers, s)
    else if avail =? 0 then Done (0, noBuffers, s)
    else
      let size := Z.min size avail in
      let start := Z.land (u64 (tail + txSize_ r)) (kDataModMask h) in
      let end_ := Z.land (u64 (start + size)) (kDataModMask h) in
      let r := r <| txSize_ := u32 (txSize_ r + size) |> in
      let wrap := (end_ <=? start) && (0 <? end_) in
      if negb wrap then
        Done (1, (mkBuffer (Some start) size, mkBuffer None 0), (rb, r))
      else
        Done (2, (mkBuffer (Some start) (kDataPoolByteSize h - start),
                  mkBuffer (Some 0) end_), (rb, r)).

Definition incMarkerInTx (size : Z) (s : rstate) : outcome (Z * rstate) :=
  '(ret, _, s) ← accessContiguousInTx false size s;
  Done (ret, s).

(** [memcpy] out of the pool: the [len] bytes at an offset. *)
Definition copyOut (b : Buffer) (d : list Z) : list Z :=
  match buf_ptr b with
  | Some off => take (Z.to_nat (buf_len b)) (drop (Z.to_nat off) d)
  | None => []
  end.

(** [memcpy] into the pool: overwrites the bytes at an offset. *)
Definition copyIn (b : Buffer) (src : list Z) (d : list Z) : list Z :=
  match buf_ptr b with
  | Some off => list_inserts (Z.to_nat off) (take (Z.to_nat (buf_len b)) src) d
  | None => d
  end.

(** Returns the status, the bytes stored into the caller's buffer, and the new
    state. *)
Definition readInTx (AllowPartial : bool) (size : Z) (s : rstate)
  : outcome (Z * list Z * rstate) :=
  '(n, (b0, b1), s) ← accessContiguousInTx AllowPartial size s;
  if n <? 0 then Done (n, [], s)
  else if n =? 0 then Done (0, [], s)
  else if n =? 1 then Done (buf_len b0, copyOut b0 (data_ s.1), s)
  else if n =? 2 then
    Done (buf_len b0 + buf_len b1,
          copyOut b0 (data_ s.1) ++ copyOut b1 (data_ s.1), s)
  else Throw ExAssert.

(** The caller's buffer holds at least [size] bytes. *)
Definition writeInTx (AllowPartial : bool) (buffer : list Z) (size : Z) (s : rstate)
  : outcome (Z * rstate) :=
  '(n, (b0, b1), (rb, r)) ← accessContiguousInTx AllowPartial size s;
  if n <? 0 then Done (n, (rb, r))
  else if n =? 0 then Done (0, (rb, r))
  else if n =? 1 then
    Done (buf_len b0, (rb <| data_ := copyIn b0 buffer (data_ rb) |>, r))
  else if n =? 2 then
    let d := copyIn b0 buffer (data_ rb) in
    let d := copyIn b1 (drop (Z.to_nat (buf_len b0)) buffer) d in
    Done (buf_len b0 + buf_len b1, (rb <| data_ := d |>, r))
  else Throw ExAssert.

Definition read (size : Z) (s : rstate) : outcome (Z * list Z * rstate) :=
  '(ret, s) ← startTx s;
  if ret <? 0 then Done (ret, [], s)
  else
    '(ret, bytes, s) ← readInTx false size s;
    if ret <? 0 then
      let '(r, s) := cancelTx s in
      _ ← tp_check (r =? 0);
      Done (ret, bytes, s)
    else
      _ ← tp_check (ret =? size);
      let '(ret, s) := commitTx s in
      _ ← tp_check (ret =? 0);
      Done (size, bytes, s).

Definition write (buffer : list Z) (size : Z) (s : rstate) : outcome (Z * rstate) :=
  '(ret, s) ← startTx s;
  if ret <? 0 then Done (ret, s)
  else
    '(ret, s) ← writeInTx false buffer size s;
    if ret <? 0 then
      let '(r, s) := cancelTx s in
      _ ← tp_check (r =? 0);
      Done (ret, s)
    else
      _ ← tp_check (ret =? size);
      let '(ret, s) := commitTx s in
      _ ← tp_check (ret =? 0);
      Done (size, s).

End role.

(** ** The header invariant

    [m i] is the marker of role [i] as an unbounded integer: the number of
    bytes that role has gone over since the buffer was created.  Markers grow
    with the role index and the last one is at most one lap ahead of the
    first. *)

Definition pool_size_ok (size : Z) : Prop := exists k, 1 <= k <= 30 /\ size = 2 ^ k.

Definition chain (N : nat) (size : Z) (m : nat -> Z) : Prop :=
  (forall i, (i < N)%nat -> 0 <= m i) /\
  (forall i j, (i <= j < N)%nat -> m i <= m j) /\
  m (N - 1)%nat <= m 0%nat + size.

Record header_ok (N : nat) (m : nat -> Z) (h : RingBufferHeader) : Prop := {
  ho_size : pool_size_ok (kDataPoolByteSize h);
  ho_mask : kDataModMask h = kDataPoolByteSize h - 1;
  ho_flags : length (inTx_ h) = N;
  ho_nmarkers : length (markers_ h) = N;
  ho_markers : forall i, (i < N)%nat -> markers_ h !! i = Some (u64 (m i));
  ho_chain : chain N (kDataPoolByteSize h) m;
}.

(** The first byte role [i] may not touch: the marker of the next role, one lap
    further for the last role. *)
Definition limit (N : nat) (size : Z) (m : nat -> Z) (i : nat) : Z :=
  if (i + 1 =? N)%nat then m 0%nat + size else m (i + 1)%nat.

Lemma pool_size_range size : pool_size_ok size -> 2 <= size <= 2 ^ 30.
Proof.
  intros (k & Hk & ->). split.
  - change 2 with (2 ^ 1) at 1. apply Z.pow_le_mono_r; lia.
  - apply Z.pow_le_mono_r; lia.
Qed.

Lemma mod_u64 size z : pool_size_ok size -> u64 z mod size = z mod size.
Proof.
  intros (k & Hk & ->). unfold u64, wrap. apply Z.mod_mod_divide.
  exists (2 ^ (64 - k)). rewrite <- Z.pow_add_r by lia. f_equal. lia.
Qed.

Lemma land_mask size z : pool_size_ok size -> Z.land z (size - 1) = z mod size.
Proof.
  intros (k & Hk & ->). rewrite Z.sub_1_r, <- Z.ones_equiv. apply Z.land_ones. lia.
Qed.

Lemma limit_bounds N size m i :
  (i < N)%nat -> 0 <= size -> chain N size m -> m i <= limit N size m i <= m i + size.
Proof.
  intros Hi Hs (Hpos & Hmono & Hlast). unfold limit.
  destruct (Nat.eqb_spec (i + 1) N) as [He|He].
  - pose proof (Hmono 0%nat i ltac:(lia)).
    replace (N - 1)%nat with i in Hlast by lia. lia.
  - pose proof (Hmono i (i + 1)%nat ltac:(lia)). pose proof (Hmono 0%nat i ltac:(lia)).
    pose proof (Hmono (i + 1)%nat (N - 1)%nat ltac:(lia)). lia.
Qed.

Lemma next_index N i : (i < N)%nat -> (i + 1 =? N)%nat = true -> ((i + 1) mod N = 0)%nat.
Proof. intros Hi He. apply Nat.eqb_eq in He. rewrite He. by apply Nat.Div0.mod_same. Qed.

Lemma read_head N m h i :
  header_ok N m h -> (i < N)%nat ->
  u64 (readMarker ((i + 1) mod N)%nat h + (if (i + 1 =? N)%nat then kDataPoolByteSize h else 0))
  = u64 (limit N (kDataPoolByteSize h) m i).
Proof.
  intros Hh Hi. unfold limit, readMarker.
  destruct (i + 1 =? N)%nat eqn:He.
  - rewrite next_index by done. rewrite (ho_markers N m h Hh) by lia. simpl. apply u64_add_l.
  - apply Nat.eqb_neq in He. rewrite Nat.mod_small by lia.
    rewrite (ho_markers N m h Hh) by lia. simpl. by rewrite Z.add_0_r, u64_small by apply u64_range.
Qed.

Lemma read_tail N m h i : header_ok N m h -> (i < N)%nat -> readMarker i h = u64 (m i).
Proof. intros Hh Hi. unfold readMarker. by rewrite (ho_markers N m h Hh). Qed.

(** Whether a slice of [n] bytes at [start] wraps around a pool of [S] bytes. *)
Lemma wrap_test S start n :
  0 <= start < S -> 0 < n <= S ->
  ((start + n) mod S <=? start) && (0 <? (start + n) mod S) = negb (start + n <=? S) /\
  (S < start + n -> (start + n) mod S = start + n - S).
Proof.
  intros Hs Hn. destruct (Z.lt_trichotomy (start + n) S) as [H|[H|H]].
  - rewrite Z.mod_small by lia. split; [|lia].
    rewrite (proj2 (Z.leb_le (start + n) S)) by lia.
    by rewrite (proj2 (Z.leb_gt _ _)) by lia.
  - rewrite H, Z_mod_same_full. split; [|lia].
    rewrite (proj2 (Z.leb_le S S)) by lia. by rewrite andb_false_r.
  - assert ((start + n) mod S = start + n - S) as ->.
    { symmetry. apply Z.mod_unique_pos with 1; lia. }
    split; [|lia]. rewrite (proj2 (Z.leb_gt (start + n) S)) by lia.
    rewrite (proj2 (Z.leb_le _ _)) by lia. by rewrite (proj2 (Z.ltb_lt _ _)) by lia.
Qed.

(** Where and how many bytes [accessContiguousInTx] hands out, in closed form
    and over the unbounded markers. *)
Definition access_result (S tail tx limit_ : Z) (AllowPartial : bool) (size : Z)
    : Z * (Buffer * Buffer) * Z :=
  let avail := limit_ - tail - tx in
  if size =? 0 then (0, noBuffers, tx)
  else if negb AllowPartial && (avail <? size) then (- ENODATA, noBuffers, tx)
  else if avail =? 0 then (0, noBuffers, tx)
  else
    let n := Z.min size avail in
    let start := (tail + tx) mod S in
    if start + n <=? S
    then (1, (mkBuffer (Some start) n, mkBuffer None 0), tx + n)
    else (2, (mkBuffer (Some start) (S - start), mkBuffer (Some 0) (start + n - S)), tx + n).

Lemma access_closed N m rb r i AllowPartial size S :
  header_ok N m (header_ rb) -> kDataPoolByteSize (header_ rb) = S ->
  (i < N)%nat -> role_inTx_ r = true ->
  0 <= txSize_ r <= limit N S m i - m i -> is_u64 size ->
  accessContiguousInTx N i AllowPartial size (rb, r) =
  let '(n, bufs, tx) := access_result S (m i) (txSize_ r) (limit N S m i) AllowPartial size in
  Done (n, bufs, (rb, r <| txSize_ := tx |>)).
Proof.
  intros Hh HS Hi Hin Htx Hsz.
  pose proof (ho_size _ _ _ Hh) as Hpool. rewrite HS in Hpool.
  assert (2 <= S <= 2 ^ 30) as Hrange by (by apply pool_size_range).
  pose proof (ho_chain _ _ _ Hh) as Hchain. rewrite HS in Hchain.
  pose proof (limit_bounds N S m i Hi ltac:(lia) Hchain) as Hlim.
  unfold accessContiguousInTx, access_result. rewrite Hin. cbn [negb].
  assert (forall b, (rb, b <| txSize_ := txSize_ b |>) = (rb, b)) as Heta by (by intros []).
  destruct (size =? 0) eqn:Hz; [by rewrite Heta|].
  rewrite (read_head N m) by done. rewrite (read_tail N m) by done. rewrite HS.
  assert (u64 (u64 (limit N S m i) - u64 (m i)) = limit N S m i - m i) as ->.
  { rewrite u64_sub_l, u64_sub_r. apply u64_small. unfold is_u64. lia. }
  rewrite tp_check_bind by (apply Z.leb_le; lia).
  rewrite (u64_small (limit N S m i - m i - txSize_ r)) by (unfold is_u64; lia).
  rewrite tp_check_bind by (apply Z.leb_le; lia).
  destruct (negb AllowPartial && _); [by rewrite Heta|].
  destruct (Z.eqb_spec (limit N S m i - m i - txSize_ r) 0) as [|Hne]; [by rewrite Heta|].
  remember (Z.min size (limit N S m i - m i - txSize_ r)) as n eqn:Hn.
  rewrite (ho_mask _ _ _ Hh), HS, !land_mask by done.
  rewrite u64_add_l, !mod_u64 by done.
  assert (0 <= (m i + txSize_ r) mod S < S) by (apply Z.mod_pos_bound; lia).
  remember ((m i + txSize_ r) mod S) as start eqn:Hstart.
  assert (0 < n <= S) by (unfold is_u64 in *; bool_hyps; lia).
  destruct (wrap_test S start n) as [Hw Hend]; [lia..|]. rewrite Hw, negb_involutive.
  rewrite (u32_small (txSize_ r + n)) by (unfold is_u32; lia).
  destruct (Z.leb_spec (start + n) S); [done|]. by rewrite Hend by lia.
Qed.

(** ** The data pool as a circular store *)

(** The byte at position [q] of the unbounded stream, in a pool of [S] bytes. *)
Definition ring_at (d : list Z) (S q : Z) : option Z := d !! Z.to_nat (q mod S).

(** The bytes at positions [q .. q+n). *)
Definition holds (d : list Z) (S q : Z) (bytes : list Z) : Prop :=
  forall j b, bytes !! j = Some b -> ring_at d S (q + Z.of_nat j) = Some b.

Lemma mod_shift S pos j :
  0 < S -> 0 <= j < S ->
  (pos + j) mod S =
  if pos mod S + j <? S then pos mod S + j else pos mod S + j - S.
Proof.
  intros HS Hj. rewrite <- Zplus_mod_idemp_l.
  pose proof (Z.mod_pos_bound pos S HS). destruct (Z.ltb_spec (pos mod S + j) S).
  - by apply Z.mod_small; lia.
  - symmetry. apply Z.mod_unique_pos with 1; lia.
Qed.

(** The two slices of [access_result] are consecutive positions of the stream. *)
Definition slices (S start n : Z) : Buffer * Buffer :=
  if start + n <=? S
  then (mkBuffer (Some start) n, mkBuffer None 0)
  else (mkBuffer (Some start) (S - start), mkBuffer (Some 0) (start + n - S)).

Definition copyOut2 (bufs : Buffer * Buffer) (d : list Z) : list Z :=
  copyOut bufs.1 d ++ copyOut bufs.2 d.

Definition copyIn2 (bufs : Buffer * Buffer) (src d : list Z) : list Z :=
  copyIn bufs.2 (drop (Z.to_nat (buf_len bufs.1)) src) (copyIn bufs.1 src d).

Lemma copyOut_length off len d :
  0 <= off -> 0 <= len -> off + len <= Z.of_nat (length d) ->
  length (copyOut (mkBuffer (Some off) len) d) = Z.to_nat len.
Proof. intros. unfold copyOut. simpl. rewrite length_take, length_drop. lia. Qed.

Lemma copyOut_lookup off len d (j : nat) :
  0 <= off -> Z.of_nat j < len ->
  copyOut (mkBuffer (Some off) len) d !! j = d !! (Z.to_nat off + j)%nat.
Proof.
  intros. unfold copyOut. simpl. rewrite lookup_take_lt by lia. by rewrite lookup_drop.
Qed.

Lemma start_range S pos n : 0 < n <= S -> 0 <= pos mod S < S.
Proof. intros Hn. apply Z.mod_pos_bound. lia. Qed.

Lemma copyOut2_length S d pos n :
  Z.of_nat (length d) = S -> 0 < n <= S ->
  length (copyOut2 (slices S (pos mod S) n) d) = Z.to_nat n.
Proof.
  intros HS Hn. pose proof (start_range S pos n Hn). unfold copyOut2, slices.
  destruct (Z.leb_spec (pos mod S + n) S); simpl; rewrite length_app, !copyOut_length by lia;
    simpl; lia.
Qed.

Lemma copyOut2_lookup S d pos n j :
  Z.of_nat (length d) = S -> 0 < n <= S -> Z.of_nat j < n ->
  copyOut2 (slices S (pos mod S) n) d !! j = ring_at d S (pos + Z.of_nat j).
Proof.
  intros HS Hn Hj. pose proof (start_range S pos n Hn). unfold copyOut2, slices, ring_at.
  rewrite mod_shift by lia. remember (pos mod S) as start.
  destruct (Z.leb_spec (start + n) S); simpl.
  - rewrite lookup_app_l by (rewrite copyOut_length; lia).
    rewrite copyOut_lookup by lia. destruct (Z.ltb_spec (start + Z.of_nat j) S); [|lia].
    f_equal. lia.
  - destruct (Z.ltb_spec (start + Z.of_nat j) S).
    + rewrite lookup_app_l by (rewrite copyOut_length; lia).
      rewrite copyOut_lookup by lia. f_equal. lia.
    + rewrite lookup_app_r by (rewrite copyOut_length; lia).
      rewrite copyOut_length by lia. rewrite copyOut_lookup by lia. f_equal. lia.
Qed.

Lemma copyIn_length b src d : length (copyIn b src d) = length d.
Proof. unfold copyIn. destruct (buf_ptr b); [apply length_inserts | done]. Qed.

Lemma copyIn2_length bufs src d : length (copyIn2 bufs src d) = length d.
Proof. unfold copyIn2. by rewrite !copyIn_length. Qed.

Lemma lookup_inserts_cases (i : nat) (k l : list Z) (p : nat) :
  (i + length k <= length l)%nat ->
  list_inserts i k l !! p =
  if decide (i <= p < i + length k)%nat then k !! (p - i)%nat else l !! p.
Proof.
  intros Hlen. case_decide as Hd.
  - rewrite list_lookup_inserts by lia. done.
  - destruct (decide (p < i)%nat).
    + by rewrite list_lookup_inserts_lt by lia.
    + by rewrite list_lookup_inserts_ge by lia.
Qed.

Lemma copyIn2_lookup S d pos n src p :
  Z.of_nat (length d) = S -> 0 < n <= S -> n <= Z.of_nat (length src) -> 0 <= p < S ->
  copyIn2 (slices S (pos mod S) n) src d !! Z.to_nat p =
  if (p - pos mod S) mod S <? n
  then src !! Z.to_nat ((p - pos mod S) mod S) else d !! Z.to_nat p.
Proof.
  intros HS Hn Hsrc Hp. pose proof (start_range S pos n Hn) as Hst.
  remember (pos mod S) as start.
  assert ((p - start) mod S = if start <=? p then p - start else p - start + S) as ->.
  { destruct (Z.leb_spec start p); [apply Z.mod_small; lia|].
    symmetry. apply Z.mod_unique_pos with (-1); lia. }
  unfold copyIn2, slices, copyIn. destruct (Z.leb_spec (start + n) S); simpl.
  - rewrite lookup_inserts_cases by (rewrite length_take; lia).
    rewrite length_take. destruct (Z.leb_spec start p); simpl.
    + destruct (Z.ltb_spec (p - start) n).
      * rewrite decide_True by lia. rewrite lookup_take_lt by lia. f_equal. lia.
      * by rewrite decide_False by lia.
    + rewrite (proj2 (Z.ltb_ge _ _)) by lia. by rewrite decide_False by lia.
  - rewrite lookup_inserts_cases by (rewrite length_inserts, length_take, length_drop; lia).
    rewrite length_take, length_drop.
    rewrite lookup_inserts_cases by (rewrite length_take; lia). rewrite length_take.
    destruct (Z.leb_spec start p); simpl.
    + destruct (Z.ltb_spec (p - start) n); [|lia].
      rewrite decide_False by lia. rewrite decide_True by lia.
      rewrite lookup_take_lt by lia. f_equal. lia.
    + destruct (Z.ltb_spec (p - start + S) n).
      * rewrite decide_True by lia. rewrite lookup_take_lt, lookup_drop by lia. f_equal. lia.
      * by rewrite !decide_False by lia.
Qed.

Lemma slices_zero S start d : 0 <= start <= S -> copyOut2 (slices S start 0) d = [].
Proof.
  intros. unfold copyOut2, slices. by rewrite (proj2 (Z.leb_le (start + 0) S)) by lia.
Qed.

Lemma slices_zero_in S start d src : 0 <= start <= S -> copyIn2 (slices S start 0) src d = d.
Proof.
  intros. unfold copyIn2, slices, copyIn.
  rewrite (proj2 (Z.leb_le (start + 0) S)) by lia. done.
Qed.

(** Storing [n] bytes at [pos] leaves exactly those bytes there ... *)
Lemma holds_copyIn2 S d pos n src :
  Z.of_nat (length d) = S -> 0 <= n <= S -> n <= Z.of_nat (length src) ->
  holds (copyIn2 (slices S (pos mod S) n) src d) S pos (take (Z.to_nat n) src).
Proof.
  intros HS Hn Hsrc j b Hj. apply lookup_take_Some in Hj as [Hj Hlt].
  unfold ring_at. pose proof (Z.mod_pos_bound (pos + Z.of_nat j) S ltac:(lia)).
  rewrite copyIn2_lookup by lia.
  rewrite <- Zminus_mod, Z.add_simpl_l, Z.mod_small by lia.
  rewrite (proj2 (Z.ltb_lt _ _)) by lia. by rewrite Nat2Z.id.
Qed.

(** ... and does not disturb what the other side may still read. *)
Lemma holds_copyIn2_frame S d pos n src q bytes :
  Z.of_nat (length d) = S -> 0 <= n -> n <= Z.of_nat (length src) ->
  pos + n <= q + S -> q + Z.of_nat (length bytes) <= pos ->
  holds d S q bytes -> holds (copyIn2 (slices S (pos mod S) n) src d) S q bytes.
Proof.
  intros HS Hn Hsrc Hlo Hhi Hh j b Hj. pose proof (lookup_lt_Some _ _ _ Hj).
  pose proof (Hh j b Hj) as Hb. unfold ring_at in *.
  destruct (Z.eq_dec n 0) as [->|Hne].
  { pose proof (Z.mod_pos_bound pos S ltac:(lia)). by rewrite slices_zero_in by lia. }
  pose proof (Z.mod_pos_bound (q + Z.of_nat j) S ltac:(lia)).
  rewrite copyIn2_lookup by lia. rewrite <- Zminus_mod.
  assert ((q + Z.of_nat j - pos) mod S = q + Z.of_nat j - pos + S) as ->.
  { symmetry. apply Z.mod_unique_pos with (-1); lia. }
  by rewrite (proj2 (Z.ltb_ge _ _)) by lia.
Qed.

(** Reading [n] bytes at [pos] returns what is stored there. *)
Lemma copyOut2_holds S d pos bytes :
  Z.of_nat (length d) = S -> Z.of_nat (length bytes) <= S -> 0 < S ->
  holds d S pos bytes ->
  copyOut2 (slices S (pos mod S) (Z.of_nat (length bytes))) d = bytes.
Proof.
  intros HS Hlen HS0 Hh. destruct (decide (length bytes = 0%nat)) as [H0|Hne].
  { destruct bytes; [|done]. pose proof (Z.mod_pos_bound pos S HS0).
    by rewrite slices_zero by lia. }
  apply list_eq. intros j. destruct (bytes !! j) as [b|] eqn:Hj.
  - rewrite copyOut2_lookup; [by apply Hh | done | lia |].
    apply lookup_lt_Some in Hj. lia.
  - apply lookup_ge_None. apply lookup_ge_None in Hj.
    rewrite copyOut2_length by lia. lia.
Qed.

(** ** Transfers in closed form *)

(** How many bytes a request for [size] bytes moves when [avail] are available:
    none at all, with an error, or up to the request. *)
Definition access_amount (avail : Z) (AllowPartial : bool) (size : Z) : option Z :=
  if size =? 0 then Some 0
  else if negb AllowPartial && (avail <? size) then None
  else Some (Z.min size avail).

Lemma access_amount_bound avail AllowPartial size n :
  0 <= avail -> 0 <= size -> access_amount avail AllowPartial size = Some n ->
  0 <= n <= avail /\ n <= size /\ (AllowPartial = false -> n = size).
Proof.
  unfold access_amount. intros Ha Hs. destruct (Z.eqb_spec size 0); [naive_solver lia|].
  destruct AllowPartial; simpl.
  - intros [= <-]. split; [lia|]. split; [lia|done].
  - destruct (Z.ltb_spec avail size); intros [= <-]. split; [lia|]. split; lia.
Qed.

Section closed.
Context (N : nat) (m : nat -> Z) (rb : RingBuffer) (r : RingBufferRole) (i : nat) (S : Z).
Hypothesis Hh : header_ok N m (header_ rb).
Hypothesis HS : kDataPoolByteSize (header_ rb) = S.
Hypothesis Hi : (i < N)%nat.
Hypothesis Hin : role_inTx_ r = true.
Hypothesis Htx : 0 <= txSize_ r <= limit N S m i - m i.

Let avail := limit N S m i - m i - txSize_ r.
Let pos := m i + txSize_ r.

Lemma pool_start : 0 <= pos mod S < S.
Proof.
  apply Z.mod_pos_bound. pose proof (pool_size_range _ (ho_size _ _ _ Hh)). lia.
Qed.

Lemma role_tx_id : r <| txSize_ := txSize_ r + 0 |> = r.
Proof. destruct r as [tx b]. unfold field_update. simpl. by rewrite Z.add_0_r. Qed.

Lemma readInTx_closed AllowPartial size :
  is_u64 size ->
  readInTx N i AllowPartial size (rb, r) =
  match access_amount avail AllowPartial size with
  | None => Done (- ENODATA, [], (rb, r))
  | Some n => Done (n, copyOut2 (slices S (pos mod S) n) (data_ rb),
                    (rb, r <| txSize_ := txSize_ r + n |>))
  end.
Proof.
  intros Hsz. unfold readInTx. rewrite (access_closed N m rb r i AllowPartial size S) by done.
  pose proof pool_start as Hst. unfold is_u64 in Hsz.
  unfold access_result, access_amount. fold avail pos.
  assert (r <| txSize_ := txSize_ r |> = r) as Hid by (by destruct r).
  destruct (Z.eqb_spec size 0) as [|Hs0].
  { simpl. rewrite slices_zero by lia. by rewrite role_tx_id, Hid. }
  destruct (negb AllowPartial && _) eqn:Hp; [simpl; by rewrite Hid|].
  destruct (Z.eqb_spec avail 0) as [Ha|Ha].
  { rewrite Ha, Z.min_r by lia. simpl. rewrite slices_zero by lia. by rewrite role_tx_id, Hid. }
  unfold slices. destruct (Z.leb_spec (pos mod S + Z.min size avail) S); simpl.
  - unfold copyOut2. simpl. by rewrite app_nil_r.
  - unfold copyOut2. simpl. do 2 f_equal. f_equal. lia.
Qed.

Lemma writeInTx_closed AllowPartial buffer size :
  is_u64 size ->
  writeInTx N i AllowPartial buffer size (rb, r) =
  match access_amount avail AllowPartial size with
  | None => Done (- ENODATA, (rb, r))
  | Some n => Done (n, (rb <| data_ := copyIn2 (slices S (pos mod S) n) buffer (data_ rb) |>,
                        r <| txSize_ := txSize_ r + n |>))
  end.
Proof.
  intros Hsz. unfold writeInTx. rewrite (access_closed N m rb r i AllowPartial size S) by done.
  pose proof pool_start as Hst. unfold is_u64 in Hsz.
  unfold access_result, access_amount. fold avail pos.
  assert (r <| txSize_ := txSize_ r |> = r) as Hid by (by destruct r).
  assert (rb <| data_ := data_ rb |> = rb) as Hrb by (by destruct rb).
  destruct (Z.eqb_spec size 0) as [|Hs0].
  { simpl. rewrite slices_zero_in by lia. by rewrite role_tx_id, Hid, Hrb. }
  destruct (negb AllowPartial && _) eqn:Hp; [simpl; by rewrite Hid|].
  destruct (Z.eqb_spec avail 0) as [Ha|Ha].
  { rewrite Ha, Z.min_r by lia. simpl. rewrite slices_zero_in by lia.
    by rewrite role_tx_id, Hid, Hrb. }
  unfold slices. destruct (Z.leb_spec (pos mod S + Z.min size avail) S); simpl.
  - unfold copyIn2. simpl. done.
  - unfold copyIn2. simpl. do 2 f_equal. lia.
Qed.
End closed.
