(* ===== verification/RingBufferTx.v ===== *)
(** * Two-role rings: transactions of a producer and a consumer

    Every data path of the program uses a two-role ring ([Consumer] is role 0
    and [Producer] is role 1 in the shared-memory connection and reactor).
    This file relates the ring to the stream of bytes that went through it and
    lifts each role operation of [RingBuffer] to that stream. *)

From S2P Require Import Prelude System RingBuffer.

Definition kConsumer : nat := 0.
Definition kProducer : nat := 1.
Definition kNumRingbufferRoles : nat := 2.

(** The unbounded markers: [t] bytes consumed, [h] bytes produced. *)
Definition marks (t h : Z) (i : nat) : Z := match i with O => t | _ => h end.

(** [W] is everything the producers committed so far and [t] how much of it the
    consumers committed to have read; the rest is in the pool. *)
Record ring_inv (rb : RingBuffer) (t : nat) (W : list Z) : Prop := {
  ri_header : header_ok 2 (marks (Z.of_nat t) (Z.of_nat (length W))) (header_ rb);
  ri_data : Z.of_nat (length (data_ rb)) = kDataPoolByteSize (header_ rb);
  ri_le : (t <= length W)%nat;
  ri_holds : holds (data_ rb) (kDataPoolByteSize (header_ rb)) (Z.of_nat t) (drop t W);
}.

Definition flag (rb : RingBuffer) (i : nat) : bool := default false (inTx_ (header_ rb) !! i).

Definition ring_size (rb : RingBuffer) : Z := kDataPoolByteSize (header_ rb).

(** The producer [r] has an open transaction with the bytes [acc] written. *)
Record prod_tx (rb : RingBuffer) (t : nat) (W : list Z) (r : RingBufferRole) (acc : list Z)
  : Prop := {
  pt_in : role_inTx_ r = true;
  pt_flag : flag rb kProducer = true;
  pt_size : txSize_ r = Z.of_nat (length acc);
  pt_room : Z.of_nat (length W + length acc) <= Z.of_nat t + ring_size rb;
  pt_holds : holds (data_ rb) (ring_size rb) (Z.of_nat (length W)) acc;
}.

(** The consumer [r] has an open transaction and has read the bytes [acc]. *)
Record cons_tx (rb : RingBuffer) (t : nat) (W : list Z) (r : RingBufferRole) (acc : list Z)
  : Prop := {
  ct_in : role_inTx_ r = true;
  ct_flag : flag rb kConsumer = true;
  ct_size : txSize_ r = Z.of_nat (length acc);
  ct_prefix : acc `prefix_of` drop t W;
}.

Definition idle (r : RingBufferRole) : Prop := r = newRole.

(** ** Facts about the invariant *)

Lemma ring_inv_bounds rb t W :
  ring_inv rb t W ->
  2 <= ring_size rb <= 2 ^ 30 /\ Z.of_nat (length W) <= Z.of_nat t + ring_size rb.
Proof.
  intros [Hh _ _ _]. split; [apply pool_size_range, (ho_size _ _ _ Hh)|].
  destruct (ho_chain _ _ _ Hh) as (_ & _ & Hl). exact Hl.
Qed.

Lemma limit_consumer t h S : limit 2 S (marks t h) kConsumer = h.
Proof. done. Qed.

Lemma limit_producer t h S : limit 2 S (marks t h) kProducer = t + S.
Proof. done. Qed.

Lemma flags_length rb t W : ring_inv rb t W -> length (inTx_ (header_ rb)) = 2%nat.
Proof. intros [Hh _ _ _]. exact (ho_flags _ _ _ Hh). Qed.

(** Changing only the transaction flags keeps the invariant. *)
Lemma ring_inv_set_flag rb t W i b :
  ring_inv rb t W ->
  ring_inv (rb <| header_ := header_ rb <| inTx_ ::= fun l => <[i := b]> l |> |>) t W.
Proof.
  intros [[Hs Hm Hf Hn Hk Hc] Hd Hle Hh]. split; [split|..]; simpl; auto.
  by rewrite length_insert.
Qed.

Lemma flag_set rb i j b :
  length (inTx_ (header_ rb)) = 2%nat -> (i < 2)%nat ->
  flag (rb <| header_ := header_ rb <| inTx_ ::= fun l => <[i := b]> l |> |>) j =
  if decide (i = j) then b else flag rb j.
Proof.
  intros Hl Hi. unfold flag. simpl. case_decide as Hd.
  - subst. by rewrite list_lookup_insert_eq by lia.
  - by rewrite list_lookup_insert_ne by done.
Qed.

(** The effect on the ring of moving marker [i] by [inc]. *)
Lemma marks_insert rb t h t' h' i inc :
  header_ok 2 (marks t h) (header_ rb) ->
  (forall j, (j < 2)%nat -> marks t' h' j = if decide (i = j) then marks t h j + inc else marks t h j) ->
  forall j, (j < 2)%nat ->
  markers_ (incMarker i inc (header_ rb)) !! j = Some (u64 (marks t' h' j)).
Proof.
  intros Hh Hm j Hj. unfold incMarker. simpl. rewrite Hm by done.
  destruct (decide (i = j)) as [->|Hne].
  - rewrite list_lookup_insert_eq by (rewrite (ho_nmarkers _ _ _ Hh); lia).
    rewrite (read_tail 2 (marks t h)) by done. by rewrite u64_add_l.
  - rewrite list_lookup_insert_ne by done. by apply (ho_markers _ _ _ Hh).
Qed.

Lemma holds_nil d S q : holds d S q [].
Proof. by intros []. Qed.

Lemma holds_app d S q a b :
  holds d S q a -> holds d S (q + Z.of_nat (length a)) b -> holds d S q (a ++ b).
Proof.
  intros Ha Hb j x Hj. apply lookup_app_Some in Hj as [Hj|[Hge Hj]]; [by apply Ha|].
  apply Hb in Hj. unfold ring_at in *. rewrite <- Hj. do 3 f_equal. lia.
Qed.

Lemma holds_drop d S q a n :
  (n <= length a)%nat -> holds d S q a -> holds d S (q + Z.of_nat n) (drop n a).
Proof.
  intros Hn Ha j x Hj. rewrite lookup_drop in Hj. apply Ha in Hj.
  unfold ring_at in *. rewrite <- Hj. do 3 f_equal. lia.
Qed.

Lemma holds_prefix d S q a b : a `prefix_of` b -> holds d S q b -> holds d S q a.
Proof. intros Hp Hb j x Hj. apply Hb. by eapply prefix_lookup_Some. Qed.

Lemma holds_take d S q a n : holds d S q a -> holds d S q (take n a).
Proof. apply holds_prefix, prefix_take. Qed.

(** ** Opening a transaction *)

Lemma startTx_free i rb r t W :
  ring_inv rb t W -> idle r -> (i < 2)%nat -> flag rb i = false ->
  exists rb', startTx i (rb, r) = Done (0, (rb', mkRole 0 true)) /\
    ring_inv rb' t W /\ data_ rb' = data_ rb /\ ring_size rb' = ring_size rb /\
    (forall j, flag rb' j = if decide (i = j) then true else flag rb j).
Proof.
  intros Hinv -> Hi Hf. eexists. split.
  { unfold startTx, beginTransaction, newRole. simpl. unfold flag in Hf. by rewrite Hf. }
  split; [by apply (ring_inv_set_flag rb t W i true)|]. split; [done|]. split; [done|].
  intros j. apply flag_set; [by eapply flags_length | done].
Qed.

(** A transaction is refused while another object holds the flag of the role. *)
Lemma startTx_busy i rb r t W :
  ring_inv rb t W -> role_inTx_ r = false -> (i < 2)%nat -> flag rb i = true ->
  startTx i (rb, r) = Done (- EAGAIN, (rb, r)).
Proof.
  intros Hinv Hr Hi Hf. unfold startTx. rewrite Hr. unfold beginTransaction.
  unfold flag in Hf. rewrite Hf. do 3 f_equal.
  destruct rb as [h d]. unfold field_update. simpl in *. f_equal.
  destruct h as [a b l c]. simpl in *. f_equal.
  destruct (l !! i) eqn:Hl; [|discriminate]. simpl in Hf. subst. by apply list_insert_id.
Qed.

Lemma startTx_reentrant i rb r :
  role_inTx_ r = true -> startTx i (rb, r) = Done (- EBUSY, (rb, r)).
Proof. intros Hr. unfold startTx. by rewrite Hr. Qed.

(** ** The producer *)

Lemma prod_writeInTx rb r t W acc AllowPartial buffer :
  ring_inv rb t W -> prod_tx rb t W r acc -> is_u64 (Z.of_nat (length buffer)) ->
  match access_amount (Z.of_nat t + ring_size rb - Z.of_nat (length W) - Z.of_nat (length acc))
          AllowPartial (Z.of_nat (length buffer)) with
  | None => writeInTx 2 1 AllowPartial buffer (Z.of_nat (length buffer)) (rb, r)
            = Done (- ENODATA, (rb, r))
  | Some n => exists rb' r',
      writeInTx 2 1 AllowPartial buffer (Z.of_nat (length buffer)) (rb, r) = Done (n, (rb', r')) /\
      ring_inv rb' t W /\ prod_tx rb' t W r' (acc ++ take (Z.to_nat n) buffer) /\
      header_ rb' = header_ rb
  end.
Proof.
  intros Hinv Hp Hlen. pose proof (ring_inv_bounds _ _ _ Hinv) as [Hsz Hcap].
  destruct Hp as [Hin Hfl Hts Hroom Hho]. pose proof Hinv as [Hh Hd Hle Hold].
  rewrite (writeInTx_closed 2 (marks (Z.of_nat t) (Z.of_nat (length W))) rb r 1 (ring_size rb))
    by (try done; rewrite ?limit_producer, ?Hts; simpl; unfold ring_size in *; lia).
  rewrite limit_producer, Hts. simpl.
  destruct (access_amount _ AllowPartial _) as [n|] eqn:Hn; [|done].
  apply access_amount_bound in Hn as (Hn & Hn2 & _); [|lia..]. unfold ring_size in *.
  eexists _, _. split; [done|]. split.
  { split; simpl; try done.
    - by rewrite copyIn2_length.
    - apply holds_copyIn2_frame; try done; try lia. rewrite length_drop. lia. }
  split; [|done]. split; simpl; try done.
  - rewrite length_app, length_take. lia.
  - unfold ring_size. simpl. rewrite length_app, length_take. lia.
  - unfold ring_size. simpl. apply holds_app.
    + apply holds_copyIn2_frame; try done; lia.
    + apply holds_copyIn2; [done | lia | lia].
Qed.

Lemma prod_commitTx rb r t W acc :
  ring_inv rb t W -> prod_tx rb t W r acc ->
  exists rb', commitTx 1 (rb, r) = (0, (rb', newRole)) /\ ring_inv rb' t (W ++ acc) /\
    data_ rb' = data_ rb /\ ring_size rb' = ring_size rb /\
    flag rb' kProducer = false /\ flag rb' kConsumer = flag rb kConsumer.
Proof.
  intros Hinv [Hin Hfl Hts Hroom Hho]. pose proof (flags_length _ _ _ Hinv) as Hlen.
  pose proof (ring_inv_bounds _ _ _ Hinv) as [Hsz Hcap]. destruct Hinv as [Hh Hd Hle Hold].
  eexists. split; [unfold commitTx; by rewrite Hin|].
  split; [|split; [done|]; split; [done|]; split].
  - destruct Hh as [Hs Hm Hf Hn Hk Hc]. split; simpl.
    + split; simpl; try done.
      * by rewrite length_insert.
      * by rewrite length_insert.
      * intros j Hj. rewrite Hts.
        apply (marks_insert rb (Z.of_nat t) (Z.of_nat (length W)) _ _ 1); [by split | | done].
        intros [|[|]] ?; [done| |lia]. simpl. rewrite length_app. lia.
      * rewrite length_app. unfold ring_size in *. unfold chain, marks. simpl.
        split; [intros [|] ?; lia|]. split; [intros [|] [|] ?; lia | lia].
    + done.
    + rewrite length_app. lia.
    + rewrite drop_app_le by done. apply holds_app; [done|].
      rewrite length_drop. by replace (Z.of_nat t + Z.of_nat (length W - t)%nat)
        with (Z.of_nat (length W)) by lia.
  - unfold flag. simpl. rewrite list_lookup_insert_eq by lia. done.
  - unfold flag. simpl. rewrite list_lookup_insert_ne by done. done.
Qed.

(** ** The consumer *)

Lemma prefix_extend (acc rest : list Z) (l : list Z) n :
  l = acc ++ rest -> acc ++ take n rest `prefix_of` l.
Proof. intros ->. apply prefix_app, prefix_take. Qed.

Lemma cons_readInTx rb r t W acc AllowPartial size :
  ring_inv rb t W -> cons_tx rb t W r acc -> is_u64 size ->
  match access_amount (Z.of_nat (length W) - Z.of_nat t - Z.of_nat (length acc))
          AllowPartial size with
  | None => readInTx 2 0 AllowPartial size (rb, r) = Done (- ENODATA, [], (rb, r))
  | Some n => exists r',
      readInTx 2 0 AllowPartial size (rb, r) =
        Done (n, take (Z.to_nat n) (drop (t + length acc) W), (rb, r')) /\
      cons_tx rb t W r' (acc ++ take (Z.to_nat n) (drop (t + length acc) W))
  end.
Proof.
  intros Hinv [Hin Hfl Hts [rest Hrest]] Hlen.
  pose proof (ring_inv_bounds _ _ _ Hinv) as [Hsz Hcap]. destruct Hinv as [Hh Hd Hle Hold].
  assert (length (drop t W) = length acc + length rest)%nat as Hl
    by (by rewrite Hrest, length_app).
  rewrite length_drop in Hl.
  assert (drop (t + length acc) W = rest) as Hdrop.
  { rewrite <- drop_drop, Hrest. apply drop_app_length. }
  rewrite (readInTx_closed 2 (marks (Z.of_nat t) (Z.of_nat (length W))) rb r 0 (ring_size rb))
    by (try done; rewrite ?limit_consumer, ?Hts; simpl; lia).
  rewrite limit_consumer, Hts, Hdrop. simpl.
  destruct (access_amount _ AllowPartial _) as [n|] eqn:Hn; [|done].
  apply access_amount_bound in Hn as (Hn & Hn2 & _); [|unfold is_u64 in *; lia..].
  assert (holds (data_ rb) (ring_size rb) (Z.of_nat t + Z.of_nat (length acc)) rest) as Hr.
  { rewrite <- Hdrop, <- drop_drop. apply holds_drop; [rewrite length_drop; lia | done]. }
  assert (copyOut2 (slices (ring_size rb)
            ((Z.of_nat t + Z.of_nat (length acc)) mod ring_size rb) n) (data_ rb)
          = take (Z.to_nat n) rest) as Hcopy.
  { replace n with (Z.of_nat (length (take (Z.to_nat n) rest))) at 1
      by (rewrite length_take; lia).
    apply copyOut2_holds; [done | rewrite length_take; lia | lia | by apply holds_take]. }
  eexists. rewrite Hcopy. split; [done|]. split; simpl; try done.
  - rewrite length_app, length_take. lia.
  - by apply prefix_extend.
Qed.

Lemma cons_commitTx rb r t W acc :
  ring_inv rb t W -> cons_tx rb t W r acc ->
  exists rb', commitTx 0 (rb, r) = (0, (rb', newRole)) /\ ring_inv rb' (t + length acc) W /\
    data_ rb' = data_ rb /\ ring_size rb' = ring_size rb /\
    flag rb' kConsumer = false /\ flag rb' kProducer = flag rb kProducer.
Proof.
  intros Hinv [Hin Hfl Hts [rest Hrest]]. pose proof (flags_length _ _ _ Hinv) as Hlen.
  pose proof (ring_inv_bounds _ _ _ Hinv) as [Hsz Hcap]. destruct Hinv as [Hh Hd Hle Hold].
  assert (length (drop t W) = length acc + length rest)%nat as Hl
    by (by rewrite Hrest, length_app).
  rewrite length_drop in Hl.
  eexists. split; [unfold commitTx; by rewrite Hin|].
  split; [|split; [done|]; split; [done|]; split].
  - destruct Hh as [Hs Hm Hf Hn Hk Hc]. split; simpl.
    + split; simpl; try done.
      * by rewrite length_insert.
      * by rewrite length_insert.
      * intros j Hj. rewrite Hts.
        apply (marks_insert rb (Z.of_nat t) (Z.of_nat (length W)) _ _ 0); [by split | | done].
        intros [|[|]] ?; [simpl; lia | done | lia].
      * unfold ring_size in *. unfold chain, marks. simpl.
        split; [intros [|] ?; lia|]. split; [intros [|] [|] ?; lia | lia].
    + done.
    + lia.
    + rewrite Nat2Z.inj_add, <- drop_drop. apply holds_drop; [rewrite length_drop; lia | done].
  - unfold flag. simpl. rewrite list_lookup_insert_eq by lia. done.
  - unfold flag. simpl. rewrite list_lookup_insert_ne by done. done.
Qed.

(** ** Giving a transaction up *)

Lemma cancelTx_inTx i rb r t W :
  ring_inv rb t W -> role_inTx_ r = true -> (i < 2)%nat ->
  exists rb', cancelTx i (rb, r) = (0, (rb', newRole)) /\ ring_inv rb' t W /\
    data_ rb' = data_ rb /\ ring_size rb' = ring_size rb /\
    (forall j, flag rb' j = if decide (i = j) then false else flag rb j).
Proof.
  intros Hinv Hin Hi. eexists. split; [unfold cancelTx; by rewrite Hin|].
  split; [by apply (ring_inv_set_flag rb t W i false)|]. split; [done|]. split; [done|].
  intros j. apply flag_set; [by eapply flags_length | done].
Qed.

Lemma commitTx_idle i rb r : role_inTx_ r = false -> commitTx i (rb, r) = (- EINVAL, (rb, r)).
Proof. intros Hr. unfold commitTx. by rewrite Hr. Qed.

Lemma cancelTx_idle i rb r : role_inTx_ r = false -> cancelTx i (rb, r) = (- EINVAL, (rb, r)).
Proof. intros Hr. unfold cancelTx. by rewrite Hr. Qed.

Lemma readInTx_idle N i p size rb r :
  role_inTx_ r = false -> readInTx N i p size (rb, r) = Done (- EINVAL, [], (rb, r)).
Proof. intros Hr. unfold readInTx, accessContiguousInTx. by rewrite Hr. Qed.

Lemma writeInTx_idle N i p buf size rb r :
  role_inTx_ r = false -> writeInTx N i p buf size (rb, r) = Done (- EINVAL, (rb, r)).
Proof. intros Hr. unfold writeInTx, accessContiguousInTx. by rewrite Hr. Qed.

(** ** The freshly created ring *)

Definition newRingBuffer (NumRoles : nat) (minDataByteSize : Z) : outcome RingBuffer :=
  h ← newRingBufferHeader NumRoles minDataByteSize;
  Done {| header_ := h; data_ := replicate (Z.to_nat (kDataPoolByteSize h)) 0 |}.

Lemma newRingBuffer_inv minSize :
  2 <= minSize <= 2 ^ 30 ->
  exists rb, newRingBuffer 2 minSize = Done rb /\ ring_inv rb 0 [] /\
    minSize <= ring_size rb /\ flag rb kConsumer = false /\ flag rb kProducer = false.
Proof.
  intros Hm. destruct (nextPow2_spec minSize ltac:(lia)) as [((k & Hk & He) & Hle & Hleast) _].
  assert (1 <= k <= 30) as Hk2.
  { split.
    - destruct (Z.eq_dec k 0) as [->|]; [|lia]. change (2 ^ 0) with 1 in He. lia.
    - specialize (Hleast 30 ltac:(lia) ltac:(lia)). rewrite He in Hleast.
      apply Z.pow_le_mono_r_iff in Hleast; lia. }
  assert (pool_size_ok (nextPow2 minSize)) as Hpool by (exists k; split; [lia | done]).
  pose proof (pool_size_range _ Hpool) as Hr.
  unfold newRingBuffer, newRingBufferHeader.
  rewrite tp_check_bind by (apply Z.leb_le; lia).
  rewrite tp_check_bind by (apply isPow2_iff; [unfold is_u64; lia | exists k; split; [lia | done]]).
  rewrite tp_check_bind by (apply Z.leb_le; unfold int_max; lia).
  rewrite bind_done. eexists. split; [done|]. split; [|done]. split; simpl.
  - split; simpl; try done.
    + apply u64_small. unfold is_u64. lia.
    + intros [|[|]] ?; [done..|lia].
    + unfold chain, marks. simpl. split; [by intros [|]|]. split; [by intros [|] [|]|lia].
  - rewrite length_replicate. lia.
  - lia.
  - apply holds_nil.
Qed.
#[global] Arguments newRingBuffer : simpl never.
