(* ===== verification/RingWorld.v ===== *)
(** * Concurrent users of one ring

    "Multiple producers (or consumers) can reference the same ringbuffer": any
    number of role objects, in any number of threads or processes, interleave
    their operations on one header and one pool.  The world below holds them
    all; a step runs one operation of one of them.  The ghost logs record the
    bytes of committed transactions, which is what the theorems are about. *)

From S2P Require Import Prelude System RingBuffer RingBufferTx.

Record member := mkMember {
  mb_idx : nat;               (* [RoleIdx] *)
  mb_role : RingBufferRole;
  mb_acc : list Z;            (* ghost: bytes moved by the open transaction *)
}.

Record world := mkWorld {
  w_rb : RingBuffer;
  w_members : list member;
  w_written : list Z;         (* ghost: bytes of committed write transactions *)
  w_taken : list Z;           (* ghost: bytes of committed read transactions *)
}.

Inductive action :=
| AStart
| ACommit
| ACancel
| ARead (AllowPartial : bool) (size : Z)
| AWrite (AllowPartial : bool) (buffer : list Z).

(** Consumers read and producers write, with sizes that fit a [size_t]. *)
Definition allowed (a : action) (mb : member) : Prop :=
  match a with
  | ARead _ size => mb_idx mb = kConsumer /\ is_u64 size
  | AWrite _ buffer => mb_idx mb = kProducer /\ is_u64 (Z.of_nat (length buffer))
  | _ => True
  end.

(** One operation of one role object: the new ring, the new object, and what it
    adds to the two logs. *)
Definition exec (a : action) (mb : member) (rb : RingBuffer)
  : outcome (RingBuffer * member * list Z * list Z) :=
  let '(mkMember i r acc) := mb in
  match a with
  | AStart =>
      '(_, (rb', r')) ← startTx i (rb, r); Done (rb', mkMember i r' acc, [], [])
  | ACommit =>
      let '(_, (rb', r')) := commitTx i (rb, r) in
      Done (rb', mkMember i r' [],
            if (i =? kProducer)%nat then acc else [], if (i =? kConsumer)%nat then acc else [])
  | ACancel =>
      let '(_, (rb', r')) := cancelTx i (rb, r) in Done (rb', mkMember i r' [], [], [])
  | ARead p size =>
      '(_, bytes, (rb', r')) ← readInTx 2 i p size (rb, r);
      Done (rb', mkMember i r' (acc ++ bytes), [], [])
  | AWrite p buffer =>
      '(n, (rb', r')) ← writeInTx 2 i p buffer (Z.of_nat (length buffer)) (rb, r);
      Done (rb', mkMember i r' (acc ++ take (Z.to_nat n) buffer), [], [])
  end.

Definition exec_at (k : nat) (a : action) (w : world) : outcome world :=
  match w_members w !! k with
  | None => Throw ExDangling
  | Some mb =>
      '(rb, mb, dw, dt) ← exec a mb (w_rb w);
      Done {| w_rb := rb; w_members := <[k := mb]> (w_members w);
              w_written := w_written w ++ dw; w_taken := w_taken w ++ dt |}
  end.

Inductive wstep : world -> world -> Prop :=
| ws_join w i :
    (i < 2)%nat ->
    wstep w {| w_rb := w_rb w; w_members := w_members w ++ [mkMember i newRole []];
               w_written := w_written w; w_taken := w_taken w |}
| ws_exec w w' k a mb :
    w_members w !! k = Some mb -> allowed a mb ->
    exec_at k a w = Done w' -> wstep w w'.

Definition initial_world (rb : RingBuffer) : world := mkWorld rb [] [] [].

(** Worlds reachable from a ring created with a given minimum size. *)
Definition reachable (minSize : Z) (w : world) : Prop :=
  exists rb, newRingBuffer 2 minSize = Done rb /\ rtc wstep (initial_world rb) w.

(** ** The invariant *)

Definition member_ok (rb : RingBuffer) (t : nat) (W : list Z) (mb : member) : Prop :=
  (mb_idx mb < 2)%nat /\
  if role_inTx_ (mb_role mb)
  then (mb_idx mb = kProducer -> prod_tx rb t W (mb_role mb) (mb_acc mb)) /\
       (mb_idx mb = kConsumer -> cons_tx rb t W (mb_role mb) (mb_acc mb))
  else mb_role mb = newRole /\ mb_acc mb = [].

(** [mb] is the one object inside a transaction of role [i]. *)
Definition active (i : nat) (mb : member) : Prop :=
  mb_idx mb = i /\ role_inTx_ (mb_role mb) = true.

Record winv (w : world) : Prop := {
  wi_ring : ring_inv (w_rb w) (length (w_taken w)) (w_written w);
  wi_taken : w_taken w `prefix_of` w_written w;
  wi_members : forall k mb, w_members w !! k = Some mb ->
    member_ok (w_rb w) (length (w_taken w)) (w_written w) mb;
  wi_flags : forall i, (i < 2)%nat -> flag (w_rb w) i = true <->
    exists k mb, w_members w !! k = Some mb /\ active i mb;
  wi_unique : forall i k1 k2 mb1 mb2,
    w_members w !! k1 = Some mb1 -> w_members w !! k2 = Some mb2 ->
    active i mb1 -> active i mb2 -> k1 = k2;
}.

(** What an operation of role [i] may change for the users of the other role. *)
Record effect (i : nat) (rb : RingBuffer) (t : nat) (W : list Z)
    (rb' : RingBuffer) (t' : nat) (W' : list Z) : Prop := {
  ef_size : ring_size rb' = ring_size rb;
  ef_flags : forall j, j <> i -> flag rb' j = flag rb j;
  ef_cons : i = kConsumer -> data_ rb' = data_ rb /\ W' = W /\ (t <= t')%nat;
  ef_prod : i = kProducer -> t' = t /\ W `prefix_of` W' /\ (length W <= length W')%nat;
}.

Lemma effect_refl i rb t W : effect i rb t W rb t W.
Proof. by split. Qed.

Lemma member_ok_idle rb t W rb' t' W' mb :
  role_inTx_ (mb_role mb) = false -> member_ok rb t W mb -> member_ok rb' t' W' mb.
Proof. intros Hr [Hi H]. split; [done|]. by rewrite Hr in *. Qed.

(** Operations of one role do not disturb an open transaction of the other. *)
Lemma member_ok_stable i rb t W rb' t' W' mb :
  (i < 2)%nat -> (t <= length W)%nat -> effect i rb t W rb' t' W' -> mb_idx mb <> i ->
  member_ok rb t W mb -> member_ok rb' t' W' mb.
Proof.
  unfold member_ok, kProducer, kConsumer. intros Hi2 Hle [Hsz Hfl Hc Hp] Hne [Hi Hm].
  split; [done|]. destruct (role_inTx_ (mb_role mb)) eqn:Hr; [|done].
  destruct Hm as [HP HC]. split; intros He.
  - destruct (HP He) as [H1 H2 H3 H4 H5]. assert (i = 0%nat) as -> by lia.
    destruct (Hc eq_refl) as (Hd & -> & Hlt).
    split; rewrite ?Hsz, ?Hd, ?Hfl by (unfold kProducer; lia); try done. lia.
  - destruct (HC He) as [H1 H2 H3 H4]. assert (i = 1%nat) as -> by lia.
    destruct (Hp eq_refl) as (-> & [ext ->] & _).
    split; rewrite ?Hfl by (unfold kConsumer; lia); try done.
    rewrite drop_app_le by done. by apply prefix_app_r.
Qed.

(** What one operation of a role object guarantees. *)
Record exec_post (mb : member) (rb : RingBuffer) (t : nat) (W : list Z)
    (rb' : RingBuffer) (mb' : member) (dw dt : list Z) : Prop := {
  ep_idx : mb_idx mb' = mb_idx mb;
  ep_ring : ring_inv rb' (t + length dt) (W ++ dw);
  ep_taken : dt `prefix_of` drop t W;
  ep_member : member_ok rb' (t + length dt) (W ++ dw) mb';
  ep_effect : effect (mb_idx mb) rb t W rb' (t + length dt) (W ++ dw);
  ep_flag : flag rb' (mb_idx mb) =
    if role_inTx_ (mb_role mb) then role_inTx_ (mb_role mb')
    else flag rb (mb_idx mb) || role_inTx_ (mb_role mb');
  ep_refused : role_inTx_ (mb_role mb) = false -> flag rb (mb_idx mb) = true ->
    rb' = rb /\ dw = [] /\ dt = [] /\ mb' = mb;
}.

(** An operation that is refused changes nothing. *)
Lemma exec_post_same mb rb t W :
  ring_inv rb t W -> member_ok rb t W mb ->
  (role_inTx_ (mb_role mb) = true -> flag rb (mb_idx mb) = true) ->
  exec_post mb rb t W rb mb [] [].
Proof.
  intros Hinv Hm Hf.
  split; rewrite ?Nat.add_0_r, ?app_nil_r; try done; [by apply prefix_nil|].
  destruct (role_inTx_ (mb_role mb)); [by rewrite Hf | by rewrite orb_false_r].
Qed.

Lemma member_inTx_flag rb t W mb :
  member_ok rb t W mb -> role_inTx_ (mb_role mb) = true -> flag rb (mb_idx mb) = true.
Proof.
  intros [Hi Hm] Hr. rewrite Hr in Hm. destruct Hm as [HP HC].
  destruct (mb_idx mb) as [|[|]] eqn:He; [apply HC | apply HP | lia]; done.
Qed.

Lemma exec_start mb rb t W :
  ring_inv rb t W -> member_ok rb t W mb ->
  exists rb' mb' dw dt, exec AStart mb rb = Done (rb', mb', dw, dt) /\
    exec_post mb rb t W rb' mb' dw dt.
Proof.
  intros Hinv Hm. pose proof (member_inTx_flag _ _ _ _ Hm) as Hfl.
  destruct mb as [i r acc]. cbn [exec mb_idx mb_role mb_acc] in *.
  destruct (role_inTx_ r) eqn:Hr.
  { rewrite startTx_reentrant by done. eexists _, _, _, _. split; [done|].
    apply exec_post_same; auto. }
  destruct Hm as [Hi Hm]. cbn [mb_idx mb_role mb_acc] in *. rewrite Hr in Hm. destruct Hm as [Hid ->].
  destruct (flag rb i) eqn:Hf.
  { rewrite (startTx_busy i rb r t W) by done. eexists _, _, _, _. split; [done|].
    apply exec_post_same; [done| |simpl; by rewrite Hr]. split; [done|]. simpl. by rewrite Hr. }
  destruct (startTx_free i rb r t W) as (rb' & He & Hinv' & Hd & Hs & Hflags); [done..|].
  rewrite He. eexists _, _, _, _. split; [done|].
  split; simpl; rewrite ?Nat.add_0_r, ?app_nil_r; try done.
  - by apply prefix_nil.
  - split; [done|]. simpl. split; intros ->; unfold kProducer, kConsumer in *.
    + split; simpl; try done; try by rewrite Hflags.
      pose proof (ring_inv_bounds _ _ _ Hinv'). lia.
    + split; simpl; try done; try by rewrite Hflags. by apply prefix_nil.
  - split; try done. intros j Hj. rewrite Hflags. by rewrite decide_False by done.
  - rewrite Hflags, Hr. rewrite decide_True by done. by rewrite orb_true_r.
  - congruence.
Qed.

Lemma exec_commit mb rb t W :
  ring_inv rb t W -> member_ok rb t W mb ->
  exists rb' mb' dw dt, exec ACommit mb rb = Done (rb', mb', dw, dt) /\
    exec_post mb rb t W rb' mb' dw dt.
Proof.
  intros Hinv Hm. pose proof (member_inTx_flag _ _ _ _ Hm) as Hfl.
  destruct mb as [i r acc]. cbn [exec mb_idx mb_role mb_acc] in *. pose proof Hm as [Hi Hm'].
  cbn [mb_idx mb_role mb_acc] in *. destruct (role_inTx_ r) eqn:Hr.
  2:{ destruct Hm' as [Hid ->]. rewrite commitTx_idle by done. exists rb, (mkMember i r []), [], [].
      split; [by destruct i as [|[|]]|]. apply exec_post_same; [done..|simpl; congruence]. }
  destruct Hm' as [HP HC]. destruct i as [|[|]]; [| |lia].
  - destruct (cons_commitTx rb r t W acc Hinv (HC eq_refl))
      as (rb' & He & Hinv' & Hd & Hs & Hf0 & Hf1).
    rewrite He. eexists _, _, _, _. split; [done|].
    split; simpl; rewrite ?app_nil_r, ?Hr; try done.
    + by destruct (HC eq_refl).
    + split; try done; [|intros _; split; [done|]; split; [done | lia]].
      intros [|[|j]] Hj; [done | done|]. unfold flag.
      rewrite (lookup_ge_None_2 (inTx_ (header_ rb'))), (lookup_ge_None_2 (inTx_ (header_ rb)));
        [done | rewrite (flags_length _ _ _ Hinv); lia | rewrite (flags_length _ _ _ Hinv'); lia].
  - destruct (prod_commitTx rb r t W acc Hinv (HP eq_refl))
      as (rb' & He & Hinv' & Hd & Hs & Hf1 & Hf0).
    rewrite He. eexists _, _, _, _. split; [done|].
    split; simpl; rewrite ?Nat.add_0_r, ?Hr; try done.
    + by apply prefix_nil.
    + split; try done.
      * intros [|[|j]] Hj; [done | done|]. unfold flag.
        rewrite (lookup_ge_None_2 (inTx_ (header_ rb'))), (lookup_ge_None_2 (inTx_ (header_ rb)));
          [done | rewrite (flags_length _ _ _ Hinv); lia | rewrite (flags_length _ _ _ Hinv'); lia].
      * intros _. split; [done|]. split; [by apply prefix_app_r | rewrite length_app; lia].
Qed.

Lemma exec_cancel mb rb t W :
  ring_inv rb t W -> member_ok rb t W mb ->
  exists rb' mb' dw dt, exec ACancel mb rb = Done (rb', mb', dw, dt) /\
    exec_post mb rb t W rb' mb' dw dt.
Proof.
  intros Hinv Hm. pose proof (member_inTx_flag _ _ _ _ Hm) as Hfl.
  destruct mb as [i r acc]. cbn [exec mb_idx mb_role mb_acc] in *. pose proof Hm as [Hi Hm'].
  cbn [mb_idx mb_role mb_acc] in *. destruct (role_inTx_ r) eqn:Hr.
  2:{ destruct Hm' as [Hid ->]. rewrite cancelTx_idle by done. exists rb, (mkMember i r []), [], [].
      split; [done|]. apply exec_post_same; [done..|simpl; congruence]. }
  destruct (cancelTx_inTx i rb r t W) as (rb' & He & Hinv' & Hd & Hs & Hflags); [done..|].
  rewrite He. eexists _, _, _, _. split; [done|].
  split; simpl; rewrite ?Nat.add_0_r, ?app_nil_r, ?Hr; try done.
  - by apply prefix_nil.
  - split; try done. intros j Hj. rewrite Hflags. by rewrite decide_False by done.
  - rewrite Hflags. by rewrite decide_True by done.
Qed.

Lemma exec_read mb rb t W p size :
  ring_inv rb t W -> member_ok rb t W mb -> allowed (ARead p size) mb ->
  exists rb' mb' dw dt, exec (ARead p size) mb rb = Done (rb', mb', dw, dt) /\
    exec_post mb rb t W rb' mb' dw dt.
Proof.
  intros Hinv Hm [Hidx Hsz]. pose proof (member_inTx_flag _ _ _ _ Hm) as Hfl.
  destruct mb as [i r acc]. cbn [exec mb_idx mb_role mb_acc] in *. subst i.
  destruct (role_inTx_ r) eqn:Hr.
  2:{ rewrite readInTx_idle by done. rewrite bind_done. rewrite app_nil_r.
      eexists _, _, _, _. split; [done|]. apply exec_post_same; [done..|simpl; congruence]. }
  pose proof Hm as [Hi Hm']. cbn [mb_idx mb_role mb_acc] in Hm'. rewrite Hr in Hm'.
  destruct Hm' as [_ HC]. specialize (HC eq_refl).
  pose proof (cons_readInTx rb r t W acc p size Hinv HC Hsz) as Hread.
  unfold kConsumer in *. destruct (access_amount _ p size) as [n|].
  - destruct Hread as (r' & He & Hc). rewrite He, bind_done. eexists _, _, _, _. split; [done|].
    pose proof (ct_in _ _ _ _ _ Hc) as Hin.
    split; simpl; rewrite ?Nat.add_0_r, ?app_nil_r, ?Hr, ?Hin; try done.
    + by apply prefix_nil.
    + split; [done|]. simpl. rewrite Hin. by split.
    + by apply Hfl.
  - rewrite Hread, bind_done, app_nil_r. eexists _, _, _, _. split; [done|].
    apply exec_post_same; [done..|simpl; auto].
Qed.

Lemma exec_write mb rb t W p buffer :
  ring_inv rb t W -> member_ok rb t W mb -> allowed (AWrite p buffer) mb ->
  exists rb' mb' dw dt, exec (AWrite p buffer) mb rb = Done (rb', mb', dw, dt) /\
    exec_post mb rb t W rb' mb' dw dt.
Proof.
  intros Hinv Hm [Hidx Hsz]. pose proof (member_inTx_flag _ _ _ _ Hm) as Hfl.
  destruct mb as [i r acc]. cbn [exec mb_idx mb_role mb_acc] in *. subst i.
  destruct (role_inTx_ r) eqn:Hr.
  2:{ rewrite writeInTx_idle by done. rewrite bind_done.
      eexists _, _, _, _. split; [done|]. change (Z.to_nat (- EINVAL)) with 0%nat.
      rewrite take_0, app_nil_r. apply exec_post_same; [done..|simpl; congruence]. }
  pose proof Hm as [Hi Hm']. cbn [mb_idx mb_role mb_acc] in Hm'. rewrite Hr in Hm'.
  destruct Hm' as [HP _]. specialize (HP eq_refl).
  pose proof (prod_writeInTx rb r t W acc p buffer Hinv HP Hsz) as Hwrite.
  unfold kProducer in *. destruct (access_amount _ p _) as [n|].
  - destruct Hwrite as (rb' & r' & He & Hinv' & Hp & Hhd). rewrite He, bind_done.
    eexists _, _, _, _. split; [done|]. pose proof (pt_in _ _ _ _ _ Hp) as Hin.
    split; simpl; rewrite ?Nat.add_0_r, ?app_nil_r, ?Hr, ?Hin; try done.
    + by apply prefix_nil.
    + split; [done|]. simpl. rewrite Hin. by split.
    + split; unfold ring_size, flag; rewrite ?Hhd; try done.
    + unfold flag. rewrite Hhd. by apply Hfl.
  - rewrite Hwrite, bind_done. eexists _, _, _, _. split; [done|].
    change (Z.to_nat (- ENODATA)) with 0%nat. rewrite take_0, app_nil_r.
    apply exec_post_same; [done..|simpl; auto].
Qed.

(** No operation of a role object throws, and each keeps its contract. *)
Lemma exec_ok a mb rb t W :
  ring_inv rb t W -> member_ok rb t W mb -> allowed a mb ->
  exists rb' mb' dw dt, exec a mb rb = Done (rb', mb', dw, dt) /\
    exec_post mb rb t W rb' mb' dw dt.
Proof.
  destruct a.
  - intros. by apply exec_start.
  - intros. by apply exec_commit.
  - intros. by apply exec_cancel.
  - apply exec_read.
  - apply exec_write.
Qed.

Lemma lookup_insert_cases {A} (l : list A) k j x y :
  (k < length l)%nat -> <[k := x]> l !! j = Some y ->
  (j = k /\ y = x) \/ (j <> k /\ l !! j = Some y).
Proof.
  intros Hk Hj. destruct (decide (j = k)) as [->|Hne].
  - rewrite list_lookup_insert_eq in Hj by done. left. by simplify_eq.
  - rewrite list_lookup_insert_ne in Hj by done. by right.
Qed.

Section step.
Context (w : world) (k : nat) (mb mb' : member) (rb' : RingBuffer) (dw dt : list Z).
Hypothesis Hw : winv w.
Hypothesis Hk : w_members w !! k = Some mb.
Hypothesis Hpost : exec_post mb (w_rb w) (length (w_taken w)) (w_written w) rb' mb' dw dt.

Let w' := {| w_rb := rb'; w_members := <[k := mb']> (w_members w);
           w_written := w_written w ++ dw; w_taken := w_taken w ++ dt |}.

Lemma step_klt : (k < length (w_members w))%nat.
Proof. by eapply lookup_lt_Some. Qed.

(** Another object inside a transaction of the same role makes ours a no-op. *)
Lemma step_same_role j mb2 :
  j <> k -> w_members w !! j = Some mb2 -> active (mb_idx mb) mb2 ->
  rb' = w_rb w /\ dw = [] /\ dt = [] /\ mb' = mb.
Proof.
  intros Hne Hj Ha. destruct (wi_members _ Hw k mb Hk) as [Hi _].
  apply (ep_refused _ _ _ _ _ _ _ _ Hpost).
  - destruct (role_inTx_ (mb_role mb)) eqn:Hr; [|done].
    destruct Hne. by apply (wi_unique _ Hw (mb_idx mb) j k mb2 mb).
  - apply (wi_flags _ Hw); [done|]. eauto.
Qed.

Lemma step_members j mb2 :
  w_members w' !! j = Some mb2 ->
  member_ok rb' (length (w_taken w')) (w_written w') mb2.
Proof.
  simpl. intros Hj. rewrite length_app.
  apply lookup_insert_cases in Hj as [[-> ->]|[Hne Hj]]; [|..|apply step_klt].
  - apply (ep_member _ _ _ _ _ _ _ _ Hpost).
  - pose proof (wi_members _ Hw j mb2 Hj) as Hm2.
    destruct (wi_members _ Hw k mb Hk) as [Hi _].
    destruct (decide (mb_idx mb2 = mb_idx mb)) as [Hsame|Hdiff].
    + destruct (role_inTx_ (mb_role mb2)) eqn:Hr2.
      * destruct (step_same_role j mb2 Hne Hj) as (-> & -> & -> & _); [by split|].
        simpl. by rewrite app_nil_r, Nat.add_0_r.
      * by eapply member_ok_idle.
    + eapply member_ok_stable;
        [exact Hi | apply (ri_le _ _ _ (wi_ring _ Hw)) |
         apply (ep_effect _ _ _ _ _ _ _ _ Hpost) | done | done].
Qed.

Lemma step_flags i :
  (i < 2)%nat -> flag rb' i = true <->
  exists j mb2, w_members w' !! j = Some mb2 /\ active i mb2.
Proof.
  intros Hi. pose proof step_klt as Hlt.
  pose proof (ep_idx _ _ _ _ _ _ _ _ Hpost) as Hidx.
  pose proof (ep_flag _ _ _ _ _ _ _ _ Hpost) as Hfl. simpl.
  destruct (decide (i = mb_idx mb)) as [->|Hne].
  - rewrite Hfl. split.
    + intros Hb. destruct (role_inTx_ (mb_role mb')) eqn:Hr'.
      { exists k, mb'. rewrite list_lookup_insert_eq by done. split; [done|]. by split. }
      destruct (role_inTx_ (mb_role mb)) eqn:Hr; [done|]. rewrite orb_false_r in Hb.
      apply (wi_flags _ Hw) in Hb as (j & mb2 & Hj & Ha); [|done].
      exists j, mb2. split; [|done]. rewrite list_lookup_insert_ne; [done|].
      intros ->. destruct Ha as [_ Ha]. congruence.
    + intros (j & mb2 & Hj & Ha). apply lookup_insert_cases in Hj as [[-> ->]|[Hj1 Hj]]; [| |done].
      * destruct Ha as [_ Ha]. rewrite Ha, orb_true_r. by destruct (role_inTx_ (mb_role mb)).
      * destruct (role_inTx_ (mb_role mb)) eqn:Hr.
        { destruct Hj1. by apply (wi_unique _ Hw (mb_idx mb) j k mb2 mb). }
        apply orb_true_iff. left. apply (wi_flags _ Hw); [done|]. eauto.
  - rewrite (ef_flags _ _ _ _ _ _ _ (ep_effect _ _ _ _ _ _ _ _ Hpost)) by done.
    rewrite (wi_flags _ Hw) by done. split; intros (j & mb2 & Hj & Ha); exists j, mb2.
    + split; [|done]. rewrite list_lookup_insert_ne; [done|]. intros ->.
      destruct Ha as [He _]. congruence.
    + apply lookup_insert_cases in Hj as [[-> ->]|[Hj1 Hj]]; [|done|done].
      destruct Ha as [He _]. congruence.
Qed.

Lemma step_winv : winv w'.
Proof.
  split.
  - simpl. rewrite length_app. apply (ep_ring _ _ _ _ _ _ _ _ Hpost).
  - simpl. destruct (wi_taken _ Hw) as [rest Hrest].
    pose proof (ep_taken _ _ _ _ _ _ _ _ Hpost) as Hdt.
    rewrite Hrest, drop_app_length in Hdt. rewrite Hrest, <- app_assoc.
    apply prefix_app. by apply prefix_app_r.
  - apply step_members.
  - apply step_flags.
  - simpl. intros i k1 k2 mb1 mb2 H1 H2 A1 A2. pose proof step_klt as Hlt.
    apply lookup_insert_cases in H1 as [[-> ->]|[N1 H1]];
    apply lookup_insert_cases in H2 as [[-> ->]|[N2 H2]]; try done.
    + destruct A1 as [E1 A1]. rewrite (ep_idx _ _ _ _ _ _ _ _ Hpost) in E1. subst i.
      destruct (step_same_role k2 mb2 N2 H2 A2) as (_ & _ & _ & ->).
      destruct N2. by apply (wi_unique _ Hw (mb_idx mb) k2 k mb2 mb).
    + destruct A2 as [E2 A2]. rewrite (ep_idx _ _ _ _ _ _ _ _ Hpost) in E2. subst i.
      destruct (step_same_role k1 mb1 N1 H1 A1) as (_ & _ & _ & ->).
      destruct N1. by apply (wi_unique _ Hw (mb_idx mb) k1 k mb1 mb).
    + by apply (wi_unique _ Hw i k1 k2 mb1 mb2).
Qed.
End step.

(** ** Reachable worlds *)

Lemma join_winv w i :
  (i < 2)%nat -> winv w ->
  winv {| w_rb := w_rb w; w_members := w_members w ++ [mkMember i newRole []];
          w_written := w_written w; w_taken := w_taken w |}.
Proof.
  intros Hi Hw.
  assert (forall k mb, (w_members w ++ [mkMember i newRole []]) !! k = Some mb ->
    w_members w !! k = Some mb \/ mb = mkMember i newRole []) as Hl.
  { intros k mb Hk. apply lookup_app_Some in Hk as [Hk|[Hge Hk]]; [by left|right].
    by apply list_lookup_singleton_Some in Hk as [_ <-]. }
  assert (forall j, ~ active j (mkMember i newRole [])) as Hn by (by intros j [_ ?]).
  split; simpl; try apply Hw.
  - intros k mb Hk. destruct (Hl _ _ Hk) as [?| ->]; [by eapply wi_members|]. by split.
  - intros j Hj. rewrite (wi_flags _ Hw) by done. split; intros (k & mb & Hk & Ha).
    + exists k, mb. split; [by apply lookup_app_l_Some | done].
    + destruct (Hl _ _ Hk) as [?| ->]; [by eauto | by destruct (Hn _ Ha)].
  - intros j k1 k2 mb1 mb2 H1 H2 A1 A2.
    destruct (Hl _ _ H1) as [?| ->]; [|by destruct (Hn _ A1)].
    destruct (Hl _ _ H2) as [?| ->]; [|by destruct (Hn _ A2)].
    by eapply wi_unique.
Qed.

Lemma initial_winv rb :
  ring_inv rb 0 [] -> flag rb kConsumer = false -> flag rb kProducer = false ->
  winv (initial_world rb).
Proof.
  intros Hinv Hc Hp. split; simpl; try done.
  intros [|[|]] Hi; [| |lia]; unfold kConsumer, kProducer in *; rewrite ?Hc, ?Hp;
    split; [done | intros (? & ? & ? & _); done | done | intros (? & ? & ? & _); done].
Qed.

Lemma exec_at_ok w k a mb :
  winv w -> w_members w !! k = Some mb -> allowed a mb ->
  exists w', exec_at k a w = Done w' /\ winv w'.
Proof.
  intros Hw Hk Ha. unfold exec_at. rewrite Hk.
  destruct (exec_ok a mb (w_rb w) _ _ (wi_ring _ Hw) (wi_members _ Hw _ _ Hk) Ha)
    as (rb' & mb' & dw & dt & He & Hpost).
  rewrite He, bind_done. eexists. split; [done|]. by apply (step_winv w k mb).
Qed.

Lemma exec_at_size w k a w' mb :
  winv w -> w_members w !! k = Some mb -> allowed a mb -> exec_at k a w = Done w' ->
  ring_size (w_rb w') = ring_size (w_rb w).
Proof.
  intros Hw Hk Ha He. unfold exec_at in He. rewrite Hk in He.
  destruct (exec_ok a mb (w_rb w) _ _ (wi_ring _ Hw) (wi_members _ Hw _ _ Hk) Ha)
    as (rb' & mb' & dw & dt & He' & Hpost).
  rewrite He', bind_done in He. simplify_eq. simpl.
  apply (ef_size _ _ _ _ _ _ _ (ep_effect _ _ _ _ _ _ _ _ Hpost)).
Qed.

Lemma reachable_winv minSize w :
  2 <= minSize <= 2 ^ 30 -> reachable minSize w ->
  winv w /\ minSize <= ring_size (w_rb w).
Proof.
  intros Hm (rb & Hrb & Hsteps).
  destruct (newRingBuffer_inv minSize Hm) as (rb0 & Hrb0 & Hinv & Hsz & Hc & Hp).
  rewrite Hrb0 in Hrb. injection Hrb as <-.
  remember (initial_world rb0) as w0 eqn:E.
  assert (winv w0) as Hw0 by (subst; by apply initial_winv).
  assert (minSize <= ring_size (w_rb w0)) as Hs0 by (by subst).
  clear E Hrb0 Hinv Hsz Hc Hp. induction Hsteps as [|w0 w1 w2 Hstep _ IH]; [done|].
  destruct Hstep as [w i Hi|w w' k a mb Hk Ha He].
  - apply IH; [by apply join_winv | done].
  - destruct (exec_at_ok w k a mb Hw0 Hk Ha) as (w'' & He' & Hw').
    rewrite He in He'. injection He' as <-. apply IH; [done|].
    by rewrite (exec_at_size w k a w' mb).
Qed.

(** ** Runs given as scripts *)

Definition allowed_b (a : action) (mb : member) : bool :=
  match a with
  | ARead _ size => (mb_idx mb =? kConsumer)%nat && (0 <=? size) && (size <? 2 ^ 64)
  | AWrite _ buffer =>
      (mb_idx mb =? kProducer)%nat && (Z.of_nat (length buffer) <? 2 ^ 64)
  | _ => true
  end.

Fixpoint run_script (l : list (nat * action)) (w : world) : option world :=
  match l with
  | [] => Some w
  | (k, a) :: l' =>
      match w_members w !! k with
      | None => None
      | Some mb =>
          if allowed_b a mb then
            match exec_at k a w with Done w' => run_script l' w' | Throw _ => None end
          else None
      end
  end.

Fixpoint join_all (l : list nat) (w : world) : world :=
  match l with
  | [] => w
  | i :: l' => join_all l' {| w_rb := w_rb w; w_members := w_members w ++ [mkMember i newRole []];
                              w_written := w_written w; w_taken := w_taken w |}
  end.

Lemma allowed_b_sound a mb : allowed_b a mb = true -> allowed a mb.
Proof.
  unfold is_u64. destruct a; simpl; [done..| |]; intros H; bool_hyps;
    (split; [by apply Nat.eqb_eq | unfold is_u64; lia]).
Qed.

Lemma run_script_steps l w w' : run_script l w = Some w' -> rtc wstep w w'.
Proof.
  revert w. induction l as [|[k a] l IH]; simpl; intros w H; [by simplify_eq|].
  destruct (w_members w !! k) as [mb|] eqn:Hk; [|done].
  destruct (allowed_b a mb) eqn:Ha; [|done].
  destruct (exec_at k a w) as [w1|] eqn:He; [|done].
  eapply rtc_l; [|by apply IH]. by eapply ws_exec; [|apply allowed_b_sound|].
Qed.

Lemma join_all_steps l w : Forall (fun i => (i < 2)%nat) l -> rtc wstep w (join_all l w).
Proof.
  intros Hl. revert w. induction Hl as [|i l Hi Hl IH]; simpl; intros w; [done|].
  eapply rtc_l; [by apply ws_join | apply IH].
Qed.

(** A producer commits two bytes, a consumer takes one of them, and then two
    producers start a transaction: the second one is refused. *)
Definition demo_script : list (nat * action) :=
  [(0, AStart); (0, AWrite false [7; 8]%Z); (0, ACommit); (1, AStart); (1, ARead false 1%Z);
   (1, ACommit); (0, AStart); (2, AStart)]%nat.

Definition demo_start : world :=
  match newRingBuffer 2 4 with
  | Done rb => join_all [kProducer; kConsumer; kProducer] (initial_world rb)
  | Throw _ => initial_world (mkRb (mkHeader 0 0 [] []) [])
  end.

Definition demo : world := default demo_start (run_script demo_script demo_start).

Lemma demo_reachable : reachable 4 demo.
Proof.
  eexists. split; [vm_compute; reflexivity|].
  transitivity demo_start.
  - apply join_all_steps. repeat constructor.
  - apply (run_script_steps demo_script). by vm_compute.
Qed.

(** ** The theorems *)



(** At every reachable world, at most one object of each role is inside a
    transaction, and the shared flag of that role says exactly whether one is. *)
Lemma ring_mutual_exclusion minSize w i k1 k2 mb1 mb2 :
  2 <= minSize <= 2 ^ 30 -> reachable minSize w -> (i < 2)%nat ->
  w_members w !! k1 = Some mb1 -> w_members w !! k2 = Some mb2 ->
  active i mb1 -> active i mb2 -> k1 = k2 /\ flag (w_rb w) i = true.
Proof.
  intros Hm Hr Hi H1 H2 A1 A2. destruct (reachable_winv minSize w Hm Hr) as [Hw _].
  split; [by eapply wi_unique|]. apply (wi_flags _ Hw); [done | eauto].
Qed.

Lemma ring_mutual_exclusion_witness :
  0%nat = 0%nat /\ flag (w_rb demo) 1 = true.
Proof.
  eapply (ring_mutual_exclusion 4 demo 1 0 0);
    [lia | apply demo_reachable | lia | vm_compute; reflexivity | vm_compute; reflexivity
    | by split | by split].
Defined.

(** No operation of a role object ever fails one of the checks of the ring
    buffer code, whatever the others are doing, at any reachable world. *)
Lemma ring_no_throw minSize w k a mb :
  2 <= minSize <= 2 ^ 30 -> reachable minSize w ->
  w_members w !! k = Some mb -> allowed a mb ->
  exists w', exec_at k a w = Done w' /\ reachable minSize w'.
Proof.
  intros Hm Hr Hk Ha. destruct (reachable_winv minSize w Hm Hr) as [Hw _].
  destruct (exec_at_ok w k a mb Hw Hk Ha) as (w' & He & _). exists w'. split; [done|].
  destruct Hr as (rb & Hrb & Hsteps). exists rb. split; [done|].
  eapply rtc_r; [done|]. by eapply ws_exec.
Qed.

Lemma ring_no_throw_witness :
  exists w', exec_at 1 AStart demo = Done w' /\ reachable 4 w'.
Proof.
  eapply (ring_no_throw 4 demo 1 AStart);
    [lia | apply demo_reachable | vm_compute; reflexivity | done].
Defined.
