(* ===== verification/Nop.v ===== *)
(** * Readers and writers over a wrapped buffer

    Models [common/nop.h]: the [NopReader] and [NopWriter] that libnop uses to
    (de)serialize an object straight from or into a memory area made of one or
    two pieces (the two pieces arise at the wrap-around point of a ring buffer).

    libnop itself is third-party code.  What it does with a reader is any
    program over the reader's interface ([rprog]); what it does with a writer
    is a list of calls ([wcmd]) that depends on the object.  The interface
    [NopEncoding] states what the code relies on: the size announced for an
    object is the number of bytes written, and reading them back gives the
    object. *)

From S2P Require Import Prelude RingBuffer.

Inductive nop_status :=
| NopOk
| NopReadLimitReached
| NopWriteLimitReached
| NopOtherError (code : Z).

#[export] Instance nop_status_eq_dec : EqDecision nop_status.
Proof. solve_decision. Defined.

(** ** Raw memory accesses *)

Definition load (p : option Z) (n : Z) (mem : list Z) : outcome (list Z) :=
  if n =? 0 then Done []
  else match p with
  | Some off =>
      if (0 <=? off) && (off + n <=? Z.of_nat (length mem))
      then Done (take (Z.to_nat n) (drop (Z.to_nat off) mem)) else Throw ExDangling
  | None => Throw ExDangling
  end.

Definition store (p : option Z) (bytes mem : list Z) : outcome (list Z) :=
  match bytes with
  | [] => Done mem
  | _ =>
    match p with
    | Some off =>
        if (0 <=? off) && (off + Z.of_nat (length bytes) <=? Z.of_nat (length mem))
        then Done (list_inserts (Z.to_nat off) bytes mem) else Throw ExDangling
    | None => Throw ExDangling
    end
  end.

Definition ptr_add (p : option Z) (n : Z) : option Z := (fun off => off + n) <$> p.

(** ** The reader *)

Record NopReader := mkReader {
  rd_ptr1_ : option Z; rd_len1_ : Z; rd_ptr2_ : option Z; rd_len2_ : Z }.

Definition newNopReader (b0 b1 : Buffer) : NopReader :=
  mkReader (buf_ptr b0) (buf_len b0) (buf_ptr b1) (buf_len b1).

Definition rd_spill (r : NopReader) : NopReader :=
  mkReader (rd_ptr2_ r) (rd_len2_ r) None 0.

Definition rd_advance (n : Z) (r : NopReader) : NopReader :=
  mkReader (ptr_add (rd_ptr1_ r) n) (u64 (rd_len1_ r - n)) (rd_ptr2_ r) (rd_len2_ r).

Definition Ensure (size : Z) (r : NopReader) : nop_status :=
  if size <=? u64 (rd_len1_ r + rd_len2_ r) then NopOk else NopReadLimitReached.

Definition ReadByte (mem : list Z) (r : NopReader) : outcome (Z * NopReader) :=
  let r := if rd_len1_ r =? 0 then rd_spill r else r in
  bytes ← load (rd_ptr1_ r) 1 mem;
  Done (default 0 (head bytes), rd_advance 1 r).

Definition ReadRange (size : Z) (mem : list Z) (r : NopReader) : outcome (list Z * NopReader) :=
  if rd_len1_ r <? size then
    first ← load (rd_ptr1_ r) (rd_len1_ r) mem;
    let size := size - rd_len1_ r in
    let r := rd_spill r in
    rest ← load (rd_ptr1_ r) size mem;
    Done (first ++ rest, rd_advance size r)
  else
    bytes ← load (rd_ptr1_ r) size mem;
    Done (bytes, rd_advance size r).

Definition ReadSkip (paddingBytes : Z) (r : NopReader) : NopReader :=
  if rd_len1_ r <? paddingBytes
  then rd_advance (paddingBytes - rd_len1_ r) (rd_spill r)
  else rd_advance paddingBytes r.

(** ** The writer *)

Record NopWriter := mkWriter {
  wr_ptr1_ : option Z; wr_len1_ : Z; wr_ptr2_ : option Z; wr_len2_ : Z }.

Definition newNopWriter (b0 b1 : Buffer) : NopWriter :=
  mkWriter (buf_ptr b0) (buf_len b0) (buf_ptr b1) (buf_len b1).

Definition wr_spill (w : NopWriter) : NopWriter :=
  mkWriter (wr_ptr2_ w) (wr_len2_ w) None 0.

Definition wr_advance (n : Z) (w : NopWriter) : NopWriter :=
  mkWriter (ptr_add (wr_ptr1_ w) n) (u64 (wr_len1_ w - n)) (wr_ptr2_ w) (wr_len2_ w).

Definition Prepare (size : Z) (w : NopWriter) : nop_status :=
  if size <=? u64 (wr_len1_ w + wr_len2_ w) then NopOk else NopWriteLimitReached.

Definition WriteByte (byte : Z) (mem : list Z) (w : NopWriter) : outcome (list Z * NopWriter) :=
  let w := if wr_len1_ w =? 0 then wr_spill w else w in
  mem ← store (wr_ptr1_ w) [byte] mem;
  Done (mem, wr_advance 1 w).

Definition WriteRange (bytes : list Z) (mem : list Z) (w : NopWriter)
  : outcome (list Z * NopWriter) :=
  let size := Z.of_nat (length bytes) in
  if wr_len1_ w <? size then
    mem ← store (wr_ptr1_ w) (take (Z.to_nat (wr_len1_ w)) bytes) mem;
    let bytes := drop (Z.to_nat (wr_len1_ w)) bytes in
    let size := size - wr_len1_ w in
    let w := wr_spill w in
    mem ← store (wr_ptr1_ w) bytes mem;
    Done (mem, wr_advance size w)
  else
    mem ← store (wr_ptr1_ w) bytes mem;
    Done (mem, wr_advance size w).

(** The first [memset] fills [paddingBytes] bytes, not the [len1_] that are left
    in the first piece. *)
Definition WriteSkip (paddingBytes paddingValue : Z) (mem : list Z) (w : NopWriter)
  : outcome (list Z * NopWriter) :=
  if wr_len1_ w <? paddingBytes then
    mem ← store (wr_ptr1_ w) (replicate (Z.to_nat paddingBytes) paddingValue) mem;
    let paddingBytes := paddingBytes - wr_len1_ w in
    let w := wr_spill w in
    mem ← store (wr_ptr1_ w) (replicate (Z.to_nat paddingBytes) paddingValue) mem;
    Done (mem, wr_advance paddingBytes w)
  else
    mem ← store (wr_ptr1_ w) (replicate (Z.to_nat paddingBytes) paddingValue) mem;
    Done (mem, wr_advance paddingBytes w).

(** ** What libnop does with them *)

Inductive rprog (A : Type) :=
| RRet (a : A)
| RFail (e : nop_status)
| REnsure (size : Z) (k : nop_status -> rprog A)
| RByte (k : Z -> rprog A)
| RBytes (size : Z) (k : list Z -> rprog A)
| RSkip (size : Z) (k : rprog A).
Arguments RRet {A} a.
Arguments RFail {A} e.
Arguments REnsure {A} size k.
Arguments RByte {A} k.
Arguments RBytes {A} size k.
Arguments RSkip {A} size k.

Fixpoint run_read {A} (p : rprog A) (mem : list Z) (r : NopReader)
  : outcome ((A + nop_status) * NopReader) :=
  match p with
  | RRet a => Done (inl a, r)
  | RFail e => Done (inr e, r)
  | REnsure size k => run_read (k (Ensure size r)) mem r
  | RByte k => '(b, r) ← ReadByte mem r; run_read (k b) mem r
  | RBytes size k => '(bs, r) ← ReadRange size mem r; run_read (k bs) mem r
  | RSkip size k => run_read k mem (ReadSkip size r)
  end.

Inductive wcmd :=
| WPrepare (size : Z)
| WByte (byte : Z)
| WBytes (bytes : list Z).

(** A failing [Prepare] ends the serialization with its status. *)
Fixpoint run_write (l : list wcmd) (mem : list Z) (w : NopWriter)
  : outcome (nop_status * list Z * NopWriter) :=
  match l with
  | [] => Done (NopOk, mem, w)
  | WPrepare size :: l' =>
      match Prepare size w with
      | NopOk => run_write l' mem w
      | e => Done (e, mem, w)
      end
  | WByte b :: l' => '(mem, w) ← WriteByte b mem w; run_write l' mem w
  | WBytes bs :: l' => '(mem, w) ← WriteRange bs mem w; run_write l' mem w
  end.

(** ** The same programs over one flat sequence of bytes *)

(** [None]: the program asks for more bytes than there are without having checked. *)
Fixpoint flat_read {A} (p : rprog A) (bytes : list Z) : option ((A + nop_status) * list Z) :=
  match p with
  | RRet a => Some (inl a, bytes)
  | RFail e => Some (inr e, bytes)
  | REnsure size k =>
      flat_read (k (if size <=? Z.of_nat (length bytes) then NopOk else NopReadLimitReached)) bytes
  | RByte k => match bytes with b :: bs => flat_read (k b) bs | [] => None end
  | RBytes size k =>
      if (0 <=? size) && (size <=? Z.of_nat (length bytes))
      then flat_read (k (take (Z.to_nat size) bytes)) (drop (Z.to_nat size) bytes) else None
  | RSkip size k =>
      if (0 <=? size) && (size <=? Z.of_nat (length bytes))
      then flat_read k (drop (Z.to_nat size) bytes) else None
  end.

Definition wcmd_bytes (c : wcmd) : list Z :=
  match c with WPrepare _ => [] | WByte b => [b] | WBytes bs => bs end.

Definition script_bytes (l : list wcmd) : list Z := l ≫= wcmd_bytes.

(** A [Prepare] asks for no more than what follows it. *)
Fixpoint script_ok (l : list wcmd) : Prop :=
  match l with
  | [] => True
  | WPrepare size :: l' => size <= Z.of_nat (length (script_bytes l')) /\ script_ok l'
  | _ :: l' => script_ok l'
  end.

(** ** The interface to libnop *)

Class NopEncoding (T : Type) := {
  enc_Size : T -> Z;
  enc_Write : T -> list wcmd;
  enc_Read : rprog T;
}.

Definition enc_bytes {T} `{NopEncoding T} (v : T) : list Z := script_bytes (enc_Write v).

Class NopEncodingLaws (T : Type) `{NopEncoding T} := {
  enc_size_spec : forall v, enc_Size v = Z.of_nat (length (enc_bytes v));
  enc_write_ok : forall v, script_ok (enc_Write v);
  enc_roundtrip : forall v, flat_read enc_Read (enc_bytes v) = Some (inl v, []);
}.

(** ** Lemmas on memory accesses *)

Lemma load_length p n mem bytes :
  0 <= n -> load p n mem = Done bytes -> n = Z.of_nat (length bytes).
Proof.
  unfold load. intros Hn. destruct (Z.eqb_spec n 0) as [->|]; [by intros [= <-]|].
  destruct p as [off|]; [|done]. destruct (_ && _) eqn:Hb; [|done]. intros [= <-].
  bool_hyps. rewrite length_take, length_drop. lia.
Qed.

Lemma load_split p n k mem bytes :
  0 <= k <= n -> load p n mem = Done bytes ->
  load p k mem = Done (take (Z.to_nat k) bytes) /\
  load (ptr_add p k) (n - k) mem = Done (drop (Z.to_nat k) bytes).
Proof.
  unfold load. intros Hk H. destruct (Z.eqb_spec n 0) as [->|Hn].
  { injection H as <-. assert (k = 0) as -> by lia. done. }
  destruct p as [off|]; [|done]. simpl.
  destruct (_ && _) eqn:Hb in H; [|done]. injection H as <-. bool_hyps. split.
  - destruct (Z.eqb_spec k 0) as [->|]; [done|].
    rewrite (proj2 (Z.leb_le 0 off)), (proj2 (Z.leb_le (off + k) _)) by lia.
    simpl. f_equal. rewrite take_take. f_equal. lia.
  - destruct (Z.eqb_spec (n - k) 0) as [Hz|].
    { rewrite drop_ge; [done|]. rewrite length_take. lia. }
    rewrite (proj2 (Z.leb_le 0 (off + k))), (proj2 (Z.leb_le (off + k + (n - k)) _)) by lia.
    simpl. f_equal. rewrite skipn_firstn_comm, drop_drop. f_equal; [lia|]. f_equal. lia.
Qed.

(** ** The reader sees the concatenation of its two pieces *)

Definition rd_view (mem : list Z) (r : NopReader) (bytes : list Z) : Prop :=
  exists b1 b2, bytes = b1 ++ b2 /\
    load (rd_ptr1_ r) (rd_len1_ r) mem = Done b1 /\
    load (rd_ptr2_ r) (rd_len2_ r) mem = Done b2 /\
    rd_len1_ r = Z.of_nat (length b1) /\ rd_len2_ r = Z.of_nat (length b2) /\
    Z.of_nat (length (b1 ++ b2)) < 2 ^ 64.

Lemma rd_view_advance mem r bytes n :
  rd_view mem r bytes -> 0 <= n <= rd_len1_ r ->
  load (rd_ptr1_ r) n mem = Done (take (Z.to_nat n) bytes) /\
  rd_view mem (rd_advance n r) (drop (Z.to_nat n) bytes).
Proof.
  intros (b1 & b2 & -> & H1 & H2 & L1 & L2 & Hlt) Hn. rewrite length_app in Hlt.
  destruct (load_split _ _ n _ _ ltac:(done) H1) as [Ha Hb].
  split; [rewrite take_app_le by lia; done|].
  exists (drop (Z.to_nat n) b1), b2. unfold rd_advance. simpl.
  rewrite u64_small by (unfold is_u64; lia).
  rewrite drop_app_le by lia. rewrite length_app, length_drop.
  repeat split; [done | done | lia | done | lia].
Qed.

Lemma rd_view_spill mem r bytes :
  rd_view mem r bytes ->
  load (rd_ptr1_ r) (rd_len1_ r) mem = Done (take (Z.to_nat (rd_len1_ r)) bytes) /\
  rd_view mem (rd_spill r) (drop (Z.to_nat (rd_len1_ r)) bytes) /\
  rd_len1_ (rd_spill r) = Z.of_nat (length bytes) - rd_len1_ r.
Proof.
  intros (b1 & b2 & -> & H1 & H2 & L1 & L2 & Hlt). rewrite L1, Nat2Z.id, take_app_length, drop_app_length.
  rewrite <- L1. split; [done|]. rewrite length_app in *. split; [|simpl; lia].
  exists b2, []. unfold rd_spill. simpl. rewrite app_nil_r. repeat split; [done | done | lia].
Qed.

Lemma rd_view_len mem r bytes :
  rd_view mem r bytes ->
  rd_len1_ r + rd_len2_ r = Z.of_nat (length bytes) /\ 0 <= rd_len1_ r /\
  Z.of_nat (length bytes) < 2 ^ 64.
Proof. intros (b1 & b2 & -> & _ & _ & L1 & L2 & Hlt). rewrite length_app in *. lia. Qed.

Lemma ReadRange_view mem r bytes n :
  rd_view mem r bytes -> 0 <= n <= Z.of_nat (length bytes) ->
  exists r', ReadRange n mem r = Done (take (Z.to_nat n) bytes, r') /\
    rd_view mem r' (drop (Z.to_nat n) bytes) /\ ReadSkip n r = r'.
Proof.
  intros Hv Hn. destruct (rd_view_len _ _ _ Hv) as (Hl & Hl1 & _). unfold ReadRange, ReadSkip.
  destruct (Z.ltb_spec (rd_len1_ r) n).
  - destruct (rd_view_spill _ _ _ Hv) as (-> & Hv' & Hls). rewrite bind_done.
    destruct (rd_view_advance _ _ _ (n - rd_len1_ r) Hv') as [-> Hv'']; [lia|].
    rewrite bind_done. eexists. split; [|split; [|done]].
    + do 2 f_equal. rewrite take_take_drop. f_equal. lia.
    + rewrite drop_drop in Hv''.
      by replace (Z.to_nat (rd_len1_ r) + Z.to_nat (n - rd_len1_ r))%nat
        with (Z.to_nat n) in Hv'' by lia.
  - destruct (rd_view_advance _ _ _ n Hv) as [-> Hv']; [lia|]. by eexists.
Qed.

Lemma ReadByte_view mem r b bytes :
  rd_view mem r (b :: bytes) ->
  exists r', ReadByte mem r = Done (b, r') /\ rd_view mem r' bytes.
Proof.
  intros Hv. destruct (rd_view_len _ _ _ Hv) as (Hl & Hl1 & _). unfold ReadByte.
  set (r1 := if rd_len1_ r =? 0 then rd_spill r else r).
  assert (rd_view mem r1 (b :: bytes) /\ 1 <= rd_len1_ r1) as [Hv1 Hlt].
  { subst r1. destruct (Z.eqb_spec (rd_len1_ r) 0) as [Hz|]; [|split; [done|lia]].
    destruct (rd_view_spill _ _ _ Hv) as (_ & Hv' & Hls). rewrite Hz in *. simpl in *.
    split; [done|]. lia. }
  destruct (rd_view_advance _ _ _ 1 Hv1) as [-> Hv2]; [lia|]. rewrite bind_done. simpl. eauto.
Qed.

Lemma run_read_flat {A} (p : rprog A) mem r bytes res rest :
  rd_view mem r bytes -> flat_read p bytes = Some (res, rest) ->
  exists r', run_read p mem r = Done (res, r') /\ rd_view mem r' rest.
Proof.
  revert r bytes. induction p as [a|e|n k IH|k IH|n k IH|n k IH]; simpl; intros r bytes Hv Hf.
  - simplify_eq. eauto.
  - simplify_eq. eauto.
  - destruct (rd_view_len _ _ _ Hv) as (Hl & Hl1 & Hlt). unfold Ensure.
    rewrite u64_small by (unfold is_u64; lia). rewrite Hl. by eapply IH.
  - destruct bytes as [|b bs]; [done|]. destruct (ReadByte_view _ _ _ _ Hv) as (r' & -> & Hv').
    rewrite bind_done. by eapply IH.
  - destruct (_ && _) eqn:Hb; [|done]. bool_hyps.
    destruct (ReadRange_view mem r bytes n Hv) as (r' & -> & Hv' & _); [lia|].
    rewrite bind_done. by eapply IH.
  - destruct (_ && _) eqn:Hb; [|done]. bool_hyps.
    destruct (ReadRange_view mem r bytes n Hv) as (r' & _ & Hv' & ->); [lia|]. by eapply IH.
Qed.

(** ** The writer fills the concatenation of its two pieces *)

(** The pieces lie in the memory and do not overlap. *)
Definition buffers_ok (mem : list Z) (b0 b1 : Buffer) : Prop :=
  0 <= buf_len b0 /\ 0 <= buf_len b1 /\ buf_len b0 + buf_len b1 < 2 ^ 64 /\
  (0 < buf_len b0 -> exists o, buf_ptr b0 = Some o /\ 0 <= o /\ o + buf_len b0 <= Z.of_nat (length mem)) /\
  (0 < buf_len b1 -> exists o, buf_ptr b1 = Some o /\ 0 <= o /\ o + buf_len b1 <= Z.of_nat (length mem)).

(** The writer after [k] bytes: still in the first piece, or spilled over. *)
Definition wr_at (b0 b1 : Buffer) (k : Z) (w : NopWriter) : Prop :=
  (0 <= k <= buf_len b0 /\
   w = mkWriter (ptr_add (buf_ptr b0) k) (buf_len b0 - k) (buf_ptr b1) (buf_len b1)) \/
  (buf_len b0 <= k <= buf_len b0 + buf_len b1 /\
   w = mkWriter (ptr_add (buf_ptr b1) (k - buf_len b0)) (buf_len b0 + buf_len b1 - k) None 0).

Lemma ptr_add_0 p : ptr_add p 0 = p.
Proof. destruct p; simpl; [by rewrite Z.add_0_r | done]. Qed.

Lemma ptr_add_add p a b : ptr_add (ptr_add p a) b = ptr_add p (a + b).
Proof. destruct p; simpl; [by rewrite Z.add_assoc | done]. Qed.

Lemma copyIn_nil b mem : copyIn b [] mem = mem.
Proof. unfold copyIn. destruct (buf_ptr b); [by rewrite take_nil | done]. Qed.

(** Appending within one piece. *)
Lemma store_copyIn b acc bytes mem :
  (0 < buf_len b -> exists o, buf_ptr b = Some o /\ 0 <= o /\ o + buf_len b <= Z.of_nat (length mem)) ->
  Z.of_nat (length acc + length bytes) <= buf_len b ->
  store (ptr_add (buf_ptr b) (Z.of_nat (length acc))) bytes (copyIn b acc mem)
  = Done (copyIn b (acc ++ bytes) mem).
Proof.
  intros Hb Hlen. destruct bytes as [|x bytes]; [by rewrite app_nil_r|].
  destruct Hb as (o & Ho & Hpos & Hfit); [simpl in Hlen; lia|].
  unfold store, copyIn. rewrite Ho. simpl in *.
  rewrite length_inserts.
  rewrite (proj2 (Z.leb_le 0 _)), (proj2 (Z.leb_le (o + _ + _) _)) by lia. simpl.
  rewrite !take_ge by (rewrite ?length_app; simpl; lia).
  rewrite list_inserts_app_l.
  by replace (length acc + Z.to_nat o)%nat with (Z.to_nat (o + Z.of_nat (length acc))) by lia.
Qed.

Lemma copyIn_full b acc rest mem :
  Z.of_nat (length acc) = buf_len b -> copyIn b (acc ++ rest) mem = copyIn b acc mem.
Proof.
  intros Hl. unfold copyIn. destruct (buf_ptr b); [|done].
  rewrite take_app_le by lia. done.
Qed.

Section writer.
Context (mem : list Z) (b0 b1 : Buffer).
Hypothesis Hbuf : buffers_ok mem b0 b1.

Lemma wr_at_spill k w :
  wr_at b0 b1 k w -> wr_len1_ w = 0 -> buf_len b0 = k -> wr_at b0 b1 k (wr_spill w) \/
  wr_len1_ (wr_spill w) = 0.
Proof.
  intros [[Hk ->]|[Hk ->]] Hz Hb; simpl in *; [left|by right].
  right. destruct Hbuf as (? & ? & _). split; [lia|]. unfold wr_spill. simpl.
  rewrite Hb, Z.sub_diag, ptr_add_0. f_equal. lia.
Qed.

Lemma wr_at_len k w :
  wr_at b0 b1 k w -> wr_len1_ w + wr_len2_ w = buf_len b0 + buf_len b1 - k /\
    0 <= wr_len1_ w /\ 0 <= wr_len2_ w.
Proof. destruct Hbuf as (? & ? & _). intros [[Hk ->]|[Hk ->]]; simpl; lia. Qed.

(** One [memcpy] that fits in the current piece. *)
Lemma wr_store acc bytes w :
  wr_at b0 b1 (Z.of_nat (length acc)) w -> Z.of_nat (length bytes) <= wr_len1_ w ->
  store (wr_ptr1_ w) bytes (copyIn2 (b0, b1) acc mem) = Done (copyIn2 (b0, b1) (acc ++ bytes) mem) /\
  wr_at b0 b1 (Z.of_nat (length (acc ++ bytes))) (wr_advance (Z.of_nat (length bytes)) w).
Proof.
  destruct Hbuf as (H0 & H1 & Hlt & F0 & F1). intros Hw Hlen.
  unfold wr_advance. rewrite (u64_small (_ - _)).
  2:{ destruct (wr_at_len _ _ Hw). unfold is_u64. lia. }
  rewrite length_app. destruct Hw as [[Hk ->]|[Hk ->]]; simpl in *.
  - unfold copyIn2. simpl. rewrite !drop_ge by (rewrite ?length_app; lia). rewrite !copyIn_nil.
    split; [by apply store_copyIn; [|lia]|]. left. split; [lia|].
    rewrite ptr_add_add. f_equal; [f_equal; lia | lia].
  - unfold copyIn2. simpl. rewrite <- (take_drop (Z.to_nat (buf_len b0)) acc).
    rewrite <- app_assoc. set (a0 := take _ acc). set (a1 := drop _ acc).
    assert (length a0 = Z.to_nat (buf_len b0)) as Ha0 by (subst a0; rewrite length_take; lia).
    assert (Z.of_nat (length a1) = Z.of_nat (length acc) - buf_len b0) as Ha1
      by (subst a1; rewrite length_drop; lia).
    rewrite !copyIn_full by lia.
    rewrite <- Ha0, !drop_app_length. split.
    + replace (Z.of_nat (length (a0 ++ a1)) - buf_len b0) with (Z.of_nat (length a1))
        by (rewrite length_app; lia).
      apply store_copyIn; [by rewrite copyIn_length | lia].
    + rewrite length_app. right. split; [lia|]. rewrite ptr_add_add. f_equal; [f_equal; lia | lia].
Qed.

Lemma WriteRange_at acc bytes w :
  wr_at b0 b1 (Z.of_nat (length acc)) w ->
  Z.of_nat (length acc + length bytes) <= buf_len b0 + buf_len b1 ->
  exists w', WriteRange bytes (copyIn2 (b0, b1) acc mem) w
             = Done (copyIn2 (b0, b1) (acc ++ bytes) mem, w') /\
    wr_at b0 b1 (Z.of_nat (length (acc ++ bytes))) w'.
Proof.
  intros Hw Hlen. unfold WriteRange. destruct (wr_at_len _ _ Hw) as (Hl & Hl1 & Hl2).
  destruct (Z.ltb_spec (wr_len1_ w) (Z.of_nat (length bytes))) as [Hlt|Hge].
  2:{ destruct (wr_store acc bytes w Hw Hge) as [-> Hw']. rewrite bind_done. eauto. }
  set (n1 := Z.to_nat (wr_len1_ w)). set (x := take n1 bytes). set (y := drop n1 bytes).
  assert (length x = n1) as Hx by (subst x n1; rewrite length_take; lia).
  assert (length y = (length bytes - n1)%nat) as Hy by (subst y; by rewrite length_drop).
  destruct (wr_store acc x w Hw) as [-> Hw1]; [lia|]. rewrite bind_done.
  assert (wr_at b0 b1 (Z.of_nat (length (acc ++ x))) (wr_spill w)) as Hw2.
  { rewrite length_app. destruct Hw as [[Hk ->]|[Hk ->]]; simpl in *.
    - right. split; [subst n1; lia|]. unfold wr_spill. simpl.
      replace (Z.of_nat (length acc + length x)) with (buf_len b0) by (subst n1; lia).
      rewrite Z.sub_diag, ptr_add_0. f_equal. lia.
    - lia. }
  destruct (wr_store (acc ++ x) y (wr_spill w) Hw2) as [-> Hw3].
  { destruct (wr_at_len _ _ Hw2) as (Hl' & _). simpl in *. rewrite length_app in Hl'. subst n1. lia. }
  rewrite bind_done. rewrite <- app_assoc in *. subst x y. rewrite take_drop in *.
  replace (Z.of_nat (length bytes) - wr_len1_ w)
    with (Z.of_nat (length (drop n1 bytes))) by (subst n1; lia). eauto.
Qed.

Lemma WriteByte_range byte m w :
  wr_len1_ w <> 0 \/ wr_len1_ (wr_spill w) >= 1 -> 0 <= wr_len1_ w ->
  WriteByte byte m w = WriteRange [byte] m w.
Proof.
  intros Hne Hpos. unfold WriteByte, WriteRange. simpl.
  destruct (Z.eqb_spec (wr_len1_ w) 0) as [Hz|Hz].
  - rewrite (proj2 (Z.ltb_lt _ _)) by lia. rewrite Hz. done.
  - by rewrite (proj2 (Z.ltb_ge _ _)) by lia.
Qed.

Lemma run_write_at l acc w :
  wr_at b0 b1 (Z.of_nat (length acc)) w -> script_ok l ->
  Z.of_nat (length acc + length (script_bytes l)) <= buf_len b0 + buf_len b1 ->
  exists w', run_write l (copyIn2 (b0, b1) acc mem) w
    = Done (NopOk, copyIn2 (b0, b1) (acc ++ script_bytes l) mem, w').
Proof.
  revert acc w. induction l as [|c l IH]; intros acc w Hw Hok Hlen.
  { simpl. rewrite app_nil_r. eauto. }
  destruct (wr_at_len _ _ Hw) as (Hl & Hl1 & Hl2). destruct Hbuf as (_ & _ & Hlt & _).
  assert (script_bytes (c :: l) = wcmd_bytes c ++ script_bytes l) as He by done.
  rewrite He in *. rewrite length_app in Hlen. destruct c as [n|b|bs]; simpl in *.
  - destruct Hok as [Hn Hok]. unfold Prepare. rewrite u64_small by (unfold is_u64; lia).
    rewrite (proj2 (Z.leb_le _ _)) by lia. by apply IH.
  - rewrite WriteByte_range by (simpl; lia).
    destruct (WriteRange_at acc [b] w Hw) as (w' & -> & Hw'); [simpl; lia|].
    rewrite bind_done. destruct (IH (acc ++ [b]) w' Hw' Hok) as (w'' & ->).
    { rewrite length_app. simpl. lia. }
    rewrite <- app_assoc. eauto.
  - destruct (WriteRange_at acc bs w Hw) as (w' & -> & Hw'); [lia|].
    rewrite bind_done. destruct (IH (acc ++ bs) w' Hw' Hok) as (w'' & ->).
    { rewrite length_app. lia. }
    rewrite <- app_assoc. eauto.
Qed.

(** A whole serialization stores its bytes in the two pieces, in order. *)
Lemma run_write_flat l :
  script_ok l -> Z.of_nat (length (script_bytes l)) <= buf_len b0 + buf_len b1 ->
  exists w', run_write l mem (newNopWriter b0 b1)
    = Done (NopOk, copyIn2 (b0, b1) (script_bytes l) mem, w').
Proof.
  intros Hok Hlen. destruct Hbuf as (H0 & H1 & _).
  pose proof (run_write_at l [] (newNopWriter b0 b1)) as H. simpl in H.
  unfold copyIn2 in H at 1. simpl in H. rewrite drop_nil, !copyIn_nil in H. apply H; [|done|lia].
  left. split; [lia|]. unfold newNopWriter. by rewrite ptr_add_0, Z.sub_0_r.
Qed.
End writer.

(** ** Round trip *)

Definition buffers_disjoint (b0 b1 : Buffer) : Prop :=
  match buf_ptr b0, buf_ptr b1 with
  | Some o0, Some o1 => o0 + buf_len b0 <= o1 \/ o1 + buf_len b1 <= o0
  | _, _ => True
  end.

Lemma load_copyIn b src mem :
  0 <= buf_len b -> Z.of_nat (length src) = buf_len b ->
  (0 < buf_len b -> exists o, buf_ptr b = Some o /\ 0 <= o /\ o + buf_len b <= Z.of_nat (length mem)) ->
  load (buf_ptr b) (buf_len b) (copyIn b src mem) = Done src.
Proof.
  intros Hb Hlen Hp. unfold load, copyIn. destruct (Z.eqb_spec (buf_len b) 0) as [Hz|Hz].
  { destruct src; [done | simpl in Hlen; lia]. }
  destruct Hp as (o & -> & Ho & Hfit); [lia|]. rewrite length_inserts.
  rewrite (proj2 (Z.leb_le 0 o)), (proj2 (Z.leb_le (o + _) _)) by lia. simpl. f_equal.
  rewrite (take_ge src) by lia. apply list_eq. intros j.
  destruct (decide (j < length src)%nat) as [Hj|Hj].
  - rewrite lookup_take_lt by lia. rewrite lookup_drop, lookup_inserts_cases by lia.
    rewrite decide_True by lia. f_equal. lia.
  - rewrite !lookup_ge_None_2; [done | lia | rewrite length_take; lia].
Qed.

Lemma load_copyIn_other b b' src mem :
  buffers_disjoint b b' -> 0 <= buf_len b -> 0 <= buf_len b' ->
  Z.of_nat (length src) <= buf_len b' ->
  (0 < buf_len b' -> exists o, buf_ptr b' = Some o /\ 0 <= o /\ o + buf_len b' <= Z.of_nat (length mem)) ->
  load (buf_ptr b) (buf_len b) (copyIn b' src mem) = load (buf_ptr b) (buf_len b) mem.
Proof.
  intros Hd Hb Hb' Hsrc Hp. unfold load. destruct (Z.eqb_spec (buf_len b) 0); [done|].
  destruct src as [|x src]; [by rewrite copyIn_nil|].
  destruct Hp as (o' & Ho' & Hpos & Hfit); [simpl in Hsrc; lia|].
  unfold buffers_disjoint in Hd. rewrite Ho' in Hd. destruct (buf_ptr b) as [o|]; [|done].
  rewrite copyIn_length. destruct (_ && _) eqn:Hb2; [|done]. bool_hyps. f_equal.
  apply list_eq. intros j. destruct (decide (j < Z.to_nat (buf_len b))%nat) as [Hj|Hj].
  - rewrite !lookup_take_lt, !lookup_drop by lia. unfold copyIn. rewrite Ho'.
    rewrite take_ge by lia. rewrite lookup_inserts_cases by lia. by rewrite decide_False by lia.
  - by rewrite !lookup_take_ge by lia.
Qed.

Lemma rd_view_copyIn2 b0 b1 src mem :
  buffers_ok mem b0 b1 -> buffers_disjoint b0 b1 ->
  Z.of_nat (length src) = buf_len b0 + buf_len b1 ->
  rd_view (copyIn2 (b0, b1) src mem) (newNopReader b0 b1) src.
Proof.
  intros (H0 & H1 & Hlt & F0 & F1) Hd Hlen.
  exists (take (Z.to_nat (buf_len b0)) src), (drop (Z.to_nat (buf_len b0)) src).
  assert (length (take (Z.to_nat (buf_len b0)) src) = Z.to_nat (buf_len b0)) as L0
    by (rewrite length_take; lia).
  assert (length (drop (Z.to_nat (buf_len b0)) src) = Z.to_nat (buf_len b1)) as L1
    by (rewrite length_drop; lia).
  rewrite take_drop. unfold copyIn2. simpl. split; [done|].
  split; [|split; [|lia]].
  - rewrite load_copyIn_other by (try done; rewrite ?copyIn_length; lia || done).
    rewrite <- (take_drop (Z.to_nat (buf_len b0)) src) at 1.
    rewrite copyIn_full by lia. apply load_copyIn; [done | lia | done].
  - apply load_copyIn; [lia | lia | by rewrite copyIn_length].
Qed.

(** An encoding of triples of bytes, for the witnesses. *)
#[export] Instance triple_encoding : NopEncoding (Z * Z * Z) := {|
  enc_Size v := 3;
  enc_Write v := [WPrepare 3; WByte v.1.1; WBytes [v.1.2; v.2]];
  enc_Read := REnsure 3 (fun s => match s with
    | NopOk => RByte (fun a => RBytes 2 (fun l => match l with
        | [b; c] => RRet (a, b, c)
        | _ => RFail (NopOtherError 0)
        end))
    | e => RFail e
    end);
|}.

#[export] Instance triple_encoding_laws : NopEncodingLaws (Z * Z * Z).
Proof. split; [done | done | by intros [[a b] c]]. Qed.

(** An object serialized into an area made of two pieces, whatever the split
    point, is stored as its flat encoding, and deserializing it from that area
    gives the object back: the wrap-around is invisible to libnop. *)
Lemma nop_wrapped_roundtrip {T} `{NopEncodingLaws T} (v : T) mem b0 b1 :
  buffers_ok mem b0 b1 -> buffers_disjoint b0 b1 -> enc_Size v = buf_len b0 + buf_len b1 ->
  exists mem' w r,
    run_write (enc_Write v) mem (newNopWriter b0 b1) = Done (NopOk, mem', w) /\
    mem' = copyIn2 (b0, b1) (enc_bytes v) mem /\
    run_read enc_Read mem' (newNopReader b0 b1) = Done (inl v, r).
Proof.
  intros Hok Hd Hsize. rewrite enc_size_spec in Hsize.
  destruct (run_write_flat mem b0 b1 Hok (enc_Write v) (enc_write_ok v)) as (w & Hw);
    [unfold enc_bytes in Hsize; lia|].
  destruct (run_read_flat enc_Read _ _ _ _ _
    (rd_view_copyIn2 b0 b1 (enc_bytes v) mem Hok Hd Hsize) (enc_roundtrip v)) as (r & Hr & _).
  eauto 10.
Qed.

Lemma nop_wrapped_roundtrip_witness :
  exists mem' w r,
    run_write (enc_Write (1, 2, 3)) [0; 0; 0; 0] (newNopWriter (mkBuffer (Some 2) 2) (mkBuffer (Some 0) 1))
      = Done (NopOk, mem', w) /\
    mem' = copyIn2 (mkBuffer (Some 2) 2, mkBuffer (Some 0) 1) (enc_bytes (1, 2, 3)) [0; 0; 0; 0] /\
    run_read enc_Read mem' (newNopReader (mkBuffer (Some 2) 2) (mkBuffer (Some 0) 1))
      = Done (inl (1, 2, 3), r).
Proof.
  apply (nop_wrapped_roundtrip (1, 2, 3) [0; 0; 0; 0] (mkBuffer (Some 2) 2) (mkBuffer (Some 0) 1));
    [|unfold buffers_disjoint; simpl; lia | done].
  repeat split; simpl; try lia; intros _; eexists; (split; [done | lia]).
Defined.

(** The writer's [Skip] does not have that property: when the padding spills
    over to the second piece, its first [memset] runs past the end of the first
    piece and overwrites a byte that belongs to neither. *)
Theorem nop_skip_overruns :
  exists mem b0 b1 mem' w,
    buffers_ok mem b0 b1 /\ buffers_disjoint b0 b1 /\
    WriteSkip 2 0 mem (newNopWriter b0 b1) = Done (mem', w) /\
    mem' <> copyIn2 (b0, b1) [0; 0] mem /\
    exists p, (forall o, buf_ptr b0 = Some o -> ~ o <= Z.of_nat p < o + buf_len b0) /\
      (forall o, buf_ptr b1 = Some o -> ~ o <= Z.of_nat p < o + buf_len b1) /\
      mem' !! p <> mem !! p.
Proof.
  exists [9; 9; 9; 9], (mkBuffer (Some 2) 1), (mkBuffer (Some 0) 1), [0; 9; 0; 0].
  eexists. split; [|split; [|split; [|split]]].
  - repeat split; simpl; try lia; intros _; eexists; (split; [done | lia]).
  - unfold buffers_disjoint. simpl. lia.
  - reflexivity.
  - done.
  - exists 3%nat. repeat split; [..|done]; simpl; intros o [= <-]; lia.
Qed.
