(* ===== verification/RingbufferOps.v ===== *)
(** * Framed messages over a ring buffer

    Models [common/ringbuffer_read_write_ops.h]: a message goes through the ring
    as a 32-bit length (in host byte order, little-endian here) followed by its
    payload, which is either raw memory, moved in as many pieces as it takes, or
    a libnop object, moved all at once.  The shared-memory and InfiniBand
    transports drive these operations. *)

From S2P Require Import Prelude System RingBuffer RingBufferTx Nop.

(** ** [uint32_t] in memory *)

Definition le32 (z : Z) : list Z :=
  [z mod 256; z / 256 mod 256; z / 65536 mod 256; z / 16777216 mod 256].

Definition of_le32 (l : list Z) : Z :=
  match l with
  | [a; b; c; d] => a + 256 * (b + 256 * (c + 256 * d))
  | _ => 0
  end.

Lemma of_le32_le32 z : is_u32 z -> of_le32 (le32 z) = z.
Proof.
  intros Hz. unfold of_le32, le32, is_u32 in *.
  assert (z / 65536 = z / 256 / 256) as -> by (rewrite Z.div_div by lia; done).
  assert (z / 16777216 = z / 256 / 256 / 256) as -> by (rewrite !Z.div_div by lia; done).
  assert (z / 256 / 256 / 256 mod 256 = z / 256 / 256 / 256) as ->.
  { apply Z.mod_small. rewrite !Z.div_div by lia. split; [apply Z.div_pos; lia|].
    apply Z.div_lt_upper_bound; lia. }
  pose proof (Z.div_mod z 256 ltac:(lia)). pose proof (Z.div_mod (z / 256) 256 ltac:(lia)).
  pose proof (Z.div_mod (z / 256 / 256) 256 ltac:(lia)). lia.
Qed.

(** ** Data *)

Inductive ReadMode := READ_LENGTH | READ_PAYLOAD.
Inductive WriteMode := WRITE_LENGTH | WRITE_PAYLOAD.

Section ops.
Context {T : Type} `{NopEncoding T}.

(** [ro_ptr_] is the memory at [ptr_]; [ro_nopObject_] is [None] for a null
    pointer and otherwise holds what the object was last set to.  A callback is
    identified by a number. *)
Record RingbufferReadOperation := mkReadOp {
  ro_mode_ : ReadMode;
  ro_ptr_ : list Z;
  ro_nopObject_ : option (option T);
  ro_len_ : Z;
  ro_bytesRead_ : Z;
  ro_fn_ : nat;
  ro_ptrProvided_ : bool;
  }.
#[export] Instance eta_RingbufferReadOperation : Eta RingbufferReadOperation := fun o =>
  mkReadOp (ro_mode_ o) (ro_ptr_ o) (ro_nopObject_ o) (ro_len_ o) (ro_bytesRead_ o)
    (ro_fn_ o) (ro_ptrProvided_ o).

Record RingbufferWriteOperation := mkWriteOp {
  wo_mode_ : WriteMode;
  wo_ptr_ : list Z;
  wo_nopObject_ : option T;
  wo_len_ : Z;
  wo_bytesWritten_ : Z;
  wo_fn_ : nat;
  }.
#[export] Instance eta_RingbufferWriteOperation : Eta RingbufferWriteOperation := fun o =>
  mkWriteOp (wo_mode_ o) (wo_ptr_ o) (wo_nopObject_ o) (wo_len_ o) (wo_bytesWritten_ o) (wo_fn_ o).

(** A call of a read callback: which one, the error, the [len] bytes at [ptr]
    and the object that was read. *)
Record read_call := mkReadCall {
  rc_fn : nat; rc_error : Error; rc_data : list Z; rc_object : option T }.
Record write_call := mkWriteCall { wc_fn : nat; wc_error : Error }.

(** ** Constructors *)

Definition newReadOpBuffer (mem : list Z) (len : Z) (fn : nat) : RingbufferReadOperation :=
  mkReadOp READ_LENGTH mem None len 0 fn true.
Definition newReadOpAuto (fn : nat) : RingbufferReadOperation :=
  mkReadOp READ_LENGTH [] None 0 0 fn false.
Definition newReadOpNop (fn : nat) : RingbufferReadOperation :=
  mkReadOp READ_LENGTH [] (Some None) 0 0 fn false.

Definition newWriteOpBuffer (mem : list Z) (len : Z) (fn : nat) : RingbufferWriteOperation :=
  mkWriteOp WRITE_LENGTH mem None len 0 fn.
Definition newWriteOpNop (v : T) (fn : nat) : RingbufferWriteOperation :=
  mkWriteOp WRITE_LENGTH [] (Some v) (enc_Size v) 0 fn.

Definition read_completed (o : RingbufferReadOperation) : bool :=
  match ro_mode_ o with READ_PAYLOAD => ro_bytesRead_ o =? ro_len_ o | READ_LENGTH => false end.
Definition write_completed (o : RingbufferWriteOperation) : bool :=
  match wo_mode_ o with WRITE_PAYLOAD => wo_bytesWritten_ o =? wo_len_ o | WRITE_LENGTH => false end.

Definition read_handleError (e : Error) (o : RingbufferReadOperation) : read_call :=
  mkReadCall (ro_fn_ o) e [] (mjoin (ro_nopObject_ o)).
Definition write_handleError (e : Error) (o : RingbufferWriteOperation) : write_call :=
  mkWriteCall (wo_fn_ o) e.

(** ** Handlers *)

Section handlers.
Context (NumRoles RoleIdx : nat).

Definition readNopObject (o : RingbufferReadOperation) (s : rstate)
  : outcome (Z * RingbufferReadOperation * rstate) :=
  _ ← tp_check (negb (getSize s <? ro_len_ o));
  '(numBuffers, (b0, b1), s) ← accessContiguousInTx NumRoles RoleIdx false (ro_len_ o) s;
  if numBuffers <? 0 then Done (numBuffers, o, s)
  else
  '(status, _) ← run_read enc_Read (data_ s.1) (newNopReader b0 b1);
  match status with
  | inr NopReadLimitReached => Done (- ENODATA, o, s)
  | inr NopOk => Done (ro_len_ o, o, s)
  | inr _ => Done (- EINVAL, o, s)
  | inl v => Done (ro_len_ o, o <| ro_nopObject_ := Some (Some v) |>, s)
  end.

(** The [READ_LENGTH] part of [handleRead]. *)
Definition handleReadLength (o : RingbufferReadOperation) (s : rstate)
  : outcome (Z * RingbufferReadOperation * rstate) :=
  match ro_mode_ o with
  | READ_PAYLOAD => Done (0, o, s)
  | READ_LENGTH =>
    '(ret, bytes, s) ← readInTx NumRoles RoleIdx false 4 s;
    if 0 <=? ret then
      let length := of_le32 bytes in
      let o := o <| ro_mode_ := READ_PAYLOAD |> in
      match ro_nopObject_ o with
      | Some _ => Done (ret, o <| ro_len_ := length |>, s)
      | None =>
          if ro_ptrProvided_ o then
            _ ← tp_check (length =? ro_len_ o);
            Done (ret, o, s)
          else
            Done (ret, o <| ro_len_ := length |>
                         <| ro_ptr_ := replicate (Z.to_nat length) 0 |>, s)
      end
    else if ret =? - ENODATA then Done (0, o, s)
    else Throw (ExSystem (- ret))
  end.

(** The [READ_PAYLOAD] part of [handleRead]. *)
Definition handleReadPayload (o : RingbufferReadOperation) (s : rstate)
  : outcome (Z * RingbufferReadOperation * rstate) :=
  match ro_mode_ o with
  | READ_LENGTH => Done (0, o, s)
  | READ_PAYLOAD =>
    '(ret, o, s) ←
      match ro_nopObject_ o with
      | Some _ => readNopObject o s
      | None =>
          '(ret, bytes, s) ←
            readInTx NumRoles RoleIdx true (u64 (ro_len_ o - ro_bytesRead_ o)) s;
          Done (ret, o <| ro_ptr_ ::= list_inserts (Z.to_nat (ro_bytesRead_ o)) bytes |>, s)
      end;
    if 0 <=? ret then Done (ret, o <| ro_bytesRead_ := u64 (ro_bytesRead_ o + ret) |>, s)
    else if ret =? - ENODATA then Done (0, o, s)
    else Throw (ExSystem (- ret))
  end.

Definition handleRead (o : RingbufferReadOperation) (s : rstate)
  : outcome (Z * RingbufferReadOperation * list read_call * rstate) :=
  '(ret, s) ← startTx RoleIdx s;
  _ ← throw_system_if_neg ret;
  '(n1, o, s) ← handleReadLength o s;
  '(n2, o, s) ← handleReadPayload o s;
  let '(ret, s) := commitTx RoleIdx s in
  _ ← throw_system_if_neg ret;
  let calls :=
  if read_completed o
  then [mkReadCall (ro_fn_ o) kSuccess (take (Z.to_nat (ro_len_ o)) (ro_ptr_ o))
          (mjoin (ro_nopObject_ o))]
  else [] in
  Done (n1 + n2, o, calls, s).

Definition writeNopObject (v : T) (o : RingbufferWriteOperation) (s : rstate)
  : outcome (Z * rstate) :=
  _ ← tp_check (negb (getSize s <? wo_len_ o));
  '(numBuffers, (b0, b1), (rb, r)) ← accessContiguousInTx NumRoles RoleIdx false (wo_len_ o) s;
  if numBuffers <? 0 then Done (numBuffers, (rb, r))
  else
  '(status, mem, _) ← run_write (enc_Write v) (data_ rb) (newNopWriter b0 b1);
  let s := (rb <| data_ := mem |>, r) in
  match status with
  | NopWriteLimitReached => Done (- ENODATA, s)
  | NopOk => Done (wo_len_ o, s)
  | _ => Done (- EINVAL, s)
  end.

(** The [WRITE_LENGTH] part of [handleWrite]. *)
Definition handleWriteLength (o : RingbufferWriteOperation) (s : rstate)
  : outcome (Z * RingbufferWriteOperation * rstate) :=
  match wo_mode_ o with
  | WRITE_PAYLOAD => Done (0, o, s)
  | WRITE_LENGTH =>
    let length := u32 (wo_len_ o) in
    '(ret, s) ← writeInTx NumRoles RoleIdx false (le32 length) 4 s;
    if 0 <=? ret then Done (ret, o <| wo_mode_ := WRITE_PAYLOAD |>, s)
    else if ret =? - ENODATA then Done (0, o, s)
    else Throw (ExSystem (- ret))
  end.

(** The [WRITE_PAYLOAD] part of [handleWrite]. *)
Definition handleWritePayload (o : RingbufferWriteOperation) (s : rstate)
  : outcome (Z * RingbufferWriteOperation * rstate) :=
  match wo_mode_ o with
  | WRITE_LENGTH => Done (0, o, s)
  | WRITE_PAYLOAD =>
    '(ret, s) ←
      match wo_nopObject_ o with
      | Some v => writeNopObject v o s
      | None => writeInTx NumRoles RoleIdx true
                  (drop (Z.to_nat (wo_bytesWritten_ o)) (wo_ptr_ o))
                  (u64 (wo_len_ o - wo_bytesWritten_ o)) s
      end;
    if 0 <=? ret then Done (ret, o <| wo_bytesWritten_ := u64 (wo_bytesWritten_ o + ret) |>, s)
    else if ret =? - ENODATA then Done (0, o, s)
    else Throw (ExSystem (- ret))
  end.

Definition handleWrite (o : RingbufferWriteOperation) (s : rstate)
  : outcome (Z * RingbufferWriteOperation * list write_call * rstate) :=
  '(ret, s) ← startTx RoleIdx s;
  _ ← throw_system_if_neg ret;
  '(n1, o, s) ← handleWriteLength o s;
  '(n2, o, s) ← handleWritePayload o s;
  let '(ret, s) := commitTx RoleIdx s in
  _ ← throw_system_if_neg ret;
  let calls := if write_completed o then [mkWriteCall (wo_fn_ o) kSuccess] else [] in
  Done (n1 + n2, o, calls, s).
End handlers.
End ops.

Arguments RingbufferReadOperation T : clear implicits.
Arguments RingbufferWriteOperation T : clear implicits.
Arguments read_call T : clear implicits.

(** ** What [accessContiguousInTx] hands out *)

Lemma access_shape N i p size s n b0 b1 s' :
  accessContiguousInTx N i p size s = Done (n, (b0, b1), s') -> 0 <= n ->
  s'.1 = s.1 /\
  ((n = 0 /\ (b0, b1) = noBuffers) \/ (n = 1 /\ b1 = mkBuffer None 0) \/ n = 2).
Proof.
  destruct s as [rb r]. unfold accessContiguousInTx, noBuffers. intros Ha Hn.
  repeat match type of Ha with
  | (if ?b then _ else _) = _ => destruct b
  | (tp_check _ ≫= _) = _ => inv_bind Ha
  end; simplify_eq; try (unfold EINVAL, ENODATA in Hn; lia);
    (split; [done|]; first [by left | by right; left | by right; right]).
Qed.

(** The byte-moving operations are [accessContiguousInTx] and a copy. *)
Lemma readInTx_via_access N i p size s n b0 b1 s' :
  accessContiguousInTx N i p size s = Done (n, (b0, b1), s') -> 0 <= n ->
  readInTx N i p size s
  = Done (buf_len b0 + buf_len b1, copyOut2 (b0, b1) (data_ s.1), s').
Proof.
  intros Ha Hn. destruct (access_shape _ _ _ _ _ _ _ _ _ Ha Hn) as [Hs Hsh].
  unfold readInTx. rewrite Ha, bind_done, Hs. unfold copyOut2. simpl.
  destruct Hsh as [[-> [= -> ->]]|[[-> ->]| ->]]; simpl; [done | | done].
  by rewrite app_nil_r, Z.add_0_r.
Qed.

Lemma writeInTx_via_access N i p buf size rb r n b0 b1 s' :
  accessContiguousInTx N i p size (rb, r) = Done (n, (b0, b1), s') -> 0 <= n ->
  writeInTx N i p buf size (rb, r)
  = Done (buf_len b0 + buf_len b1,
          (rb <| data_ := copyIn2 (b0, b1) buf (data_ rb) |>, s'.2)).
Proof.
  intros Ha Hn. destruct (access_shape _ _ _ _ _ _ _ _ _ Ha Hn) as [Hs Hsh].
  unfold writeInTx. rewrite Ha, bind_done. destruct s' as [rb' r']. simpl in *. subst rb'.
  unfold copyIn2. simpl.
  destruct Hsh as [[-> [= -> ->]]|[[-> ->]| ->]]; simpl; [|by rewrite Z.add_0_r | done].
  by destruct rb.
Qed.

Lemma access_result_cases S tail tx lim p size n b0 b1 tx' :
  access_result S tail tx lim p size = (n, (b0, b1), tx') ->
  (access_amount (lim - tail - tx) p size = None /\ n = - ENODATA /\
     (b0, b1) = noBuffers /\ tx' = tx) \/
  (0 <= n /\ exists k, access_amount (lim - tail - tx) p size = Some k).
Proof.
  unfold access_result, access_amount, noBuffers. intros H.
  destruct (size =? 0); [simplify_eq; right; split; [lia | eauto]|].
  destruct (negb p && _); [simplify_eq; by left|]. right.
  destruct (_ =? 0); [simplify_eq; split; [lia | eauto]|].
  destruct (_ <=? S); simplify_eq; (split; [lia | eauto]).
Qed.

Lemma access_result_buffers mem S tail tx lim p size n b0 b1 tx' :
  access_result S tail tx lim p size = (n, (b0, b1), tx') ->
  Z.of_nat (length mem) = S -> 0 < S < 2 ^ 63 -> 0 <= lim - tail - tx <= S -> 0 <= size ->
  buffers_ok mem b0 b1.
Proof.
  unfold access_result, noBuffers. intros Hr Hm HS Hav Hsz.
  assert (buffers_ok mem (mkBuffer None 0) (mkBuffer None 0)) as Hno
    by (repeat split; simpl; lia).
  destruct (Z.eqb_spec size 0); [by simplify_eq|].
  destruct (negb p && _); [by simplify_eq|].
  destruct (Z.eqb_spec (lim - tail - tx) 0); [by simplify_eq|].
  pose proof (Z.mod_pos_bound (tail + tx) S ltac:(lia)).
  destruct (Z.leb_spec ((tail + tx) mod S + Z.min size (lim - tail - tx)) S); simplify_eq;
    (repeat split; simpl; try lia; intros _; eexists; (split; [done | lia])).
Qed.

Lemma rd_view_buffers mem b0 b1 :
  buffers_ok mem b0 b1 -> rd_view mem (newNopReader b0 b1) (copyOut2 (b0, b1) mem).
Proof.
  intros (H0 & H1 & Hlt & F0 & F1).
  assert (forall b, 0 <= buf_len b ->
    (0 < buf_len b -> exists o, buf_ptr b = Some o /\ 0 <= o /\ o + buf_len b <= Z.of_nat (length mem)) ->
    load (buf_ptr b) (buf_len b) mem = Done (copyOut b mem) /\
    buf_len b = Z.of_nat (length (copyOut b mem))) as Hload.
  { intros b Hb Hp. unfold load, copyOut. destruct (Z.eqb_spec (buf_len b) 0) as [->|Hz].
    { by destruct (buf_ptr b). }
    destruct Hp as (o & -> & Ho & Hfit); [lia|].
    rewrite (proj2 (Z.leb_le 0 o)), (proj2 (Z.leb_le (o + _) _)) by lia.
    split; [done|]. rewrite length_take, length_drop. lia. }
  destruct (Hload b0 H0 F0) as [L0 E0]. destruct (Hload b1 H1 F1) as [L1 E1].
  exists (copyOut b0 mem), (copyOut b1 mem). unfold copyOut2. simpl. rewrite length_app.
  repeat split; try done. lia.
Qed.

(** ** Messages and what they look like on the wire *)

Inductive payload (T : Type) := PBytes (l : list Z) | PObject (v : T).
Arguments PBytes {T} l.
Arguments PObject {T} v.

Section spec.
Context {T : Type} `{NopEncodingLaws T}.

Definition payload_bytes (p : payload T) : list Z :=
  match p with PBytes l => l | PObject v => enc_bytes v end.

Definition payload_len (p : payload T) : Z := Z.of_nat (length (payload_bytes p)).

Definition frame (p : payload T) : list Z := le32 (payload_len p) ++ payload_bytes p.

(** The length fits its header, and an object fits the ring. *)
Definition payload_ok (S : Z) (p : payload T) : Prop :=
  payload_len p < 2 ^ 32 /\ match p with PObject _ => payload_len p <= S | PBytes _ => True end.

(** The callback of a read that received [p]. *)
Definition expected_call (fn : nat) (p : payload T) : read_call T :=
  match p with
  | PBytes l => mkReadCall fn kSuccess l None
  | PObject v => mkReadCall fn kSuccess [] (Some v)
  end.

Lemma frame_length p : length (frame p) = (4 + length (payload_bytes p))%nat.
Proof. done. Qed.

(** A read that was just created and is of the right kind for [p]: an object is
    read as an object, memory as memory, and a buffer has the right size. *)
Record rd_fresh (o : RingbufferReadOperation T) (p : payload T) : Prop := {
  rf_mode : ro_mode_ o = READ_LENGTH;
  rf_read : ro_bytesRead_ o = 0;
  rf_kind : match p with
    | PBytes l => ro_nopObject_ o = None /\
        (ro_ptrProvided_ o = true ->
           ro_len_ o = payload_len p /\ length (ro_ptr_ o) = length l)
    | PObject v => ro_ptr_ o = [] /\ exists x, ro_nopObject_ o = Some x
    end;
  }.

(** A read of [p] that knows the length and has received [k] bytes. *)
Record rd_going (o : RingbufferReadOperation T) (p : payload T) (k : nat) : Prop := {
  rg_mode : ro_mode_ o = READ_PAYLOAD;
  rg_len : ro_len_ o = payload_len p;
  rg_read : ro_bytesRead_ o = Z.of_nat k;
  rg_le : (k <= length (payload_bytes p))%nat;
  rg_kind : match p with
    | PBytes l => ro_nopObject_ o = None /\ length (ro_ptr_ o) = length l /\
        take k (ro_ptr_ o) = take k l
    | PObject v => k = 0%nat /\ ro_ptr_ o = [] /\ exists x, ro_nopObject_ o = Some x
    end;
  }.

(** A read of [p] that has everything. *)
Record rd_full (o : RingbufferReadOperation T) (p : payload T) : Prop := {
  ru_done : read_completed o = true;
  ru_call : mkReadCall (ro_fn_ o) kSuccess (take (Z.to_nat (ro_len_ o)) (ro_ptr_ o))
              (mjoin (ro_nopObject_ o)) = expected_call (ro_fn_ o) p;
  }.

(** ** A transaction of the consumer *)

Section consumer.
Context (rb : RingBuffer) (t : nat) (W : list Z).
Hypothesis Hinv : ring_inv rb t W.

(** All-or-nothing access, as [readNopObject] makes it. *)
Lemma cons_access r acc size :
  cons_tx rb t W r acc -> 0 <= size < 2 ^ 64 ->
  let avail := drop (t + length acc) W in
  if size <=? Z.of_nat (length avail) then
  exists n b0 b1 r',
    accessContiguousInTx 2 kConsumer false size (rb, r) = Done (n, (b0, b1), (rb, r')) /\
    0 <= n /\ rd_view (data_ rb) (newNopReader b0 b1) (take (Z.to_nat size) avail) /\
    cons_tx rb t W r' (acc ++ take (Z.to_nat size) avail)
  else accessContiguousInTx 2 kConsumer false size (rb, r) = Done (- ENODATA, noBuffers, (rb, r)).
Proof.
  unfold kConsumer. intros Hc Hsz.
  pose proof (cons_readInTx rb r t W acc false size Hinv Hc Hsz) as Hread.
  destruct Hc as [Hin Hfl Hts [rest Hrest]].
  pose proof (ring_inv_bounds _ _ _ Hinv) as [HS Hcap]. pose proof Hinv as [Hh Hd Hle _].
  assert (length acc + length rest = length W - t)%nat as Hlen
  by (rewrite <- length_drop, Hrest, length_app; done).
  pose proof (access_closed 2 (marks (Z.of_nat t) (Z.of_nat (length W))) rb r 0 false size
  (ring_size rb) Hh eq_refl ltac:(lia) Hin) as Hcl.
  rewrite limit_consumer in Hcl. cbn [marks] in Hcl. specialize (Hcl ltac:(lia) Hsz).
  destruct (access_result _ _ _ _ _ _) as [[n [b0 b1]] tx] eqn:Hres.
  pose proof (access_result_buffers (data_ rb) _ _ _ _ _ _ _ _ _ _ Hres Hd) as Hbuf.
  apply access_result_cases in Hres. rewrite Hts in *. cbv zeta. rewrite length_drop.
  assert (Z.of_nat (length W) - Z.of_nat t - Z.of_nat (length acc) =
  Z.of_nat (length W - (t + length acc))) as Hav by lia. rewrite Hav in *.
  destruct Hres as [(Ha & -> & Hb & ->)|(Hn & k & Ha)]; rewrite Ha in Hread.
  - destruct (Z.leb_spec size (Z.of_nat (length W - (t + length acc)))) as [Hfit|].
  { unfold access_amount in Ha. destruct (size =? 0); [done|]. simpl in Ha.
    by rewrite (proj2 (Z.ltb_ge _ _)) in Ha. }
  rewrite Hcl, Hb, <- Hts. by destruct r.
  - apply access_amount_bound in Ha as (Hk & _ & Hkeq); [|lia..].
  specialize (Hkeq eq_refl). subst k. rewrite (proj2 (Z.leb_le _ _)) by lia.
  destruct Hread as (r' & Hr & Hc').
  rewrite (readInTx_via_access _ _ _ _ _ _ _ _ _ Hcl Hn) in Hr. simplify_eq.
  eexists _, _, _, _. split; [exact Hcl|]. split; [done|]. split; [|done].
  match goal with H : copyOut2 _ _ = _ |- _ => rewrite <- H end.
  apply rd_view_buffers, Hbuf; lia.
Qed.

(** What follows in the pool agrees with what is left of the stream. *)
Definition agrees (avail rest : list Z) : Prop := exists future, avail ++ future = rest.

Lemma agrees_take avail rest tail n :
  agrees avail (rest ++ tail) -> (n <= length avail)%nat -> (n <= length rest)%nat ->
  take n avail = take n rest.
Proof.
  intros [fut Hf] Ha Hr. rewrite <- (take_app_le avail fut n) by done. rewrite Hf.
  by rewrite take_app_le.
Qed.

Lemma agrees_drop avail rest n :
  agrees avail rest -> (n <= length avail)%nat -> agrees (drop n avail) (drop n rest).
Proof. intros [fut <-] Hn. exists fut. by rewrite drop_app_le. Qed.

Lemma handleReadLength_short (o : RingbufferReadOperation T) r :
  cons_tx rb t W r [] -> ro_mode_ o = READ_LENGTH -> (length (drop t W) < 4)%nat ->
  handleReadLength 2 kConsumer o (rb, r) = Done (0, o, (rb, r)).
Proof.
  intros Hc Hm Hlen. rewrite length_drop in Hlen. unfold handleReadLength. rewrite Hm.
  pose proof (cons_readInTx rb r t W [] false 4 Hinv Hc ltac:(unfold is_u64; lia)) as Hread.
  unfold access_amount in Hread. simpl in Hread.
  rewrite (proj2 (Z.ltb_lt _ _)) in Hread by lia. unfold kConsumer. by rewrite Hread.
Qed.

Lemma handleReadLength_ok o r p tail :
  cons_tx rb t W r [] -> rd_fresh o p -> payload_len p < 2 ^ 32 ->
  (4 <= length (drop t W))%nat -> agrees (drop t W) (frame p ++ tail) ->
  exists o' r', handleReadLength 2 kConsumer o (rb, r) = Done (4, o', (rb, r')) /\
  rd_going o' p 0 /\ ro_fn_ o' = ro_fn_ o /\
  cons_tx rb t W r' (take 4 (drop t W)).
Proof.
  intros Hc [Hm Hread0 Hkind] Hok Hlen Hag.
  assert (take 4 (drop t W) = le32 (payload_len p)) as Hhdr.
  { by rewrite (agrees_take _ _ _ 4 Hag) by (rewrite ?frame_length; lia). }
  pose proof (cons_readInTx rb r t W [] false 4 Hinv Hc ltac:(unfold is_u64; lia)) as Hread.
  rewrite length_drop in Hlen. unfold access_amount in Hread. simpl in Hread.
  rewrite (proj2 (Z.ltb_ge _ _)) in Hread by lia. rewrite Z.min_l in Hread by lia.
  destruct Hread as (r' & Hr & Hc'). rewrite Nat.add_0_r in *. simpl in Hr, Hc'.
  change (Z.to_nat 4) with 4%nat in *.
  unfold handleReadLength. rewrite Hm. unfold kConsumer. rewrite Hr, bind_done.
  rewrite Hhdr, of_le32_le32 by (unfold is_u32, payload_len; unfold payload_len in Hok; lia).
  simpl. rewrite <- Hhdr.
  destruct p as [l|v]; simpl in *.
  - destruct Hkind as [Hno Hpp]. rewrite Hno. destruct (ro_ptrProvided_ o) eqn:He.
  + destruct (Hpp eq_refl) as [Hl Hptr]. rewrite tp_check_bind by (rewrite Hl; apply Z.eqb_refl).
    eexists _, _. split; [done|]. split; [split; simpl; done || lia | done].
  + eexists _, _. split; [done|]. split; [|done]. split; simpl; try done; [lia|].
    split; [done|]. split; [|done]. rewrite length_replicate. unfold payload_len. simpl. lia.
  - destruct Hkind as [Hp [x Hx]]. rewrite Hx. eexists _, _. split; [done|].
  split; [|done]. split; simpl; try done; [lia|]. eauto.
Qed.

(** Why a read of [p] stops before the end, with [avail] in the pool. *)
Definition short (p : payload T) (avail : list Z) (n : nat) : Prop :=
  match p with
  | PBytes _ => n = length avail
  | PObject _ => n = 0%nat /\ (length avail < length (payload_bytes p))%nat
  end.

Lemma inserts_next (m l : list Z) k n :
  take k m = take k l -> length m = length l -> (k + n <= length l)%nat ->
  take (k + n) (list_inserts k (take n (drop k l)) m) = take (k + n) l.
Proof.
  intros Hp Hl Hn. apply list_eq. intros j.
  assert (length (take n (drop k l)) = n) as Hln by (rewrite length_take, length_drop; lia).
  destruct (decide (j < k + n)%nat) as [Hj|Hj]; [|by rewrite !lookup_take_ge by lia].
  rewrite !lookup_take_lt, lookup_inserts_cases by lia. rewrite Hln. case_decide.
  - rewrite lookup_take_lt, lookup_drop by lia. f_equal. lia.
  - apply (f_equal (fun x => x !! j)) in Hp. by rewrite !lookup_take_lt in Hp by lia.
Qed.

Lemma readRaw_ok o r acc l k :
  cons_tx rb t W r acc -> rd_going o (PBytes l) k -> Z.of_nat (length l) < 2 ^ 32 ->
  let avail := drop (t + length acc) W in
  let n := ((length l - k) `min` length avail)%nat in
  take n avail = take n (drop k l) ->
  exists r', handleReadPayload 2 kConsumer o (rb, r)
    = Done (Z.of_nat n, o <| ro_ptr_ ::= list_inserts k (take n avail) |>
                          <| ro_bytesRead_ := Z.of_nat (k + n) |>, (rb, r')) /\
  cons_tx rb t W r' (acc ++ take n avail).
Proof.
  intros Hc [Hm Hl Hrd Hk Hkind] Hok avail n Htake. simpl in *. destruct Hkind as (Hno & Hlen & Hpre).
  pose proof (ring_inv_bounds _ _ _ Hinv) as [HS Hcap]. pose proof (ri_le _ _ _ Hinv) as Hle.
  pose proof (ct_prefix _ _ _ _ _ Hc) as Hpref. apply prefix_length in Hpref.
  rewrite length_drop in Hpref.
  unfold payload_len in Hl. simpl in Hl.
  assert (u64 (ro_len_ o - ro_bytesRead_ o) = Z.of_nat (length l - k)) as Hsz
  by (rewrite u64_small; [lia | unfold is_u64; lia]).
  pose proof (cons_readInTx rb r t W acc true (Z.of_nat (length l - k)) Hinv Hc
  ltac:(unfold is_u64; lia)) as Hread.
  assert (length avail = length W - (t + length acc))%nat as Hav by (subst avail; by rewrite length_drop).
  assert (access_amount (Z.of_nat (length W) - Z.of_nat t - Z.of_nat (length acc)) true
  (Z.of_nat (length l - k)) = Some (Z.of_nat n)) as Ha.
  { unfold access_amount. simpl. destruct (Z.eqb_spec (Z.of_nat (length l - k)) 0);
    f_equal; subst n; lia. }
  rewrite Ha in Hread. destruct Hread as (r' & Hr & Hc'). fold avail in Hr, Hc'.
  rewrite Nat2Z.id in *. exists r'. split; [|done].
  unfold handleReadPayload. rewrite Hm, Hno, Hsz. unfold kConsumer. rewrite Hr, !bind_done.
  rewrite (proj2 (Z.leb_le 0 _)) by lia. cbn [ro_bytesRead_ field_update]. do 2 f_equal.
  unfold field_update, eta_expand, eta_RingbufferReadOperation. simpl.
  rewrite Hrd, Nat2Z.id. rewrite u64_small by (unfold is_u64; lia).
  by rewrite Nat2Z.inj_add.
Qed.

Lemma readNop_ok o r acc v :
  cons_tx rb t W r acc -> rd_going o (PObject v) 0 -> payload_ok (ring_size rb) (PObject v) ->
  let avail := drop (t + length acc) W in
  let n := length (enc_bytes v) in
  (n <= length avail)%nat -> take n avail = enc_bytes v ->
  exists r', handleReadPayload 2 kConsumer o (rb, r)
    = Done (Z.of_nat n, o <| ro_nopObject_ := Some (Some v) |>
                          <| ro_bytesRead_ := Z.of_nat n |>, (rb, r')) /\
  cons_tx rb t W r' (acc ++ take n avail).
Proof.
  intros Hc [Hm Hl Hrd Hk Hkind] [Hok Hfit] avail n Hn Htake. simpl in *.
  destruct Hkind as (_ & Hp & x & Hx). unfold payload_len in *. simpl in *. fold n in Hl, Hok, Hfit.
  pose proof (cons_access r acc (Z.of_nat n) Hc ltac:(lia)) as Hacc. cbv zeta in Hacc.
  fold avail in Hacc. rewrite (proj2 (Z.leb_le _ _)) in Hacc by lia.
  destruct Hacc as (m & b0 & b1 & r' & Ha & Hm0 & Hv & Hc'). rewrite Nat2Z.id in *.
  rewrite Htake in Hv. destruct (run_read_flat enc_Read _ _ _ _ _ Hv (enc_roundtrip v)) as (rd & Hrun & _).
  exists r'. split; [|done]. unfold handleReadPayload, readNopObject. rewrite Hm, Hx.
  rewrite Hl. rewrite tp_check_bind.
  2:{ apply negb_true_iff, Z.ltb_ge. unfold getSize, ring_size in *. simpl. lia. }
  rewrite Ha, bind_done. rewrite (proj2 (Z.ltb_ge _ _)) by done. cbn [fst].
  rewrite Hrun, !bind_done. rewrite (proj2 (Z.leb_le 0 _)) by lia. do 2 f_equal.
  unfold field_update, eta_expand, eta_RingbufferReadOperation. simpl.
  rewrite Hrd. by rewrite u64_small by (unfold is_u64; lia).
Qed.

Lemma handleReadPayload_ok o r acc p k tail :
  cons_tx rb t W r acc -> rd_going o p k -> payload_ok (ring_size rb) p ->
  agrees (drop (t + length acc) W) (drop k (payload_bytes p) ++ tail) ->
  exists n o' r', handleReadPayload 2 kConsumer o (rb, r) = Done (Z.of_nat n, o', (rb, r')) /\
  ro_fn_ o' = ro_fn_ o /\ (n <= length (drop (t + length acc) W))%nat /\
  cons_tx rb t W r' (acc ++ take n (drop (t + length acc) W)) /\
  ((rd_full o' p /\ (k + n = length (payload_bytes p))%nat) \/
   (read_completed o' = false /\ rd_going o' p (k + n) /\
    (k + n < length (payload_bytes p))%nat /\ short p (drop (t + length acc) W) n)).
Proof.
  intros Hc Hg [Hok Hfit] Hag. pose proof Hg as [Hm Hl Hrd Hk Hkind].
  set (avail := drop (t + length acc) W) in *. destruct p as [l|v]; simpl in *.
  - destruct Hkind as (Hno & Hlen & Hpre). set (n := ((length l - k) `min` length avail)%nat).
  assert (take n avail = take n (drop k l)) as Htake
    by (apply (agrees_take _ _ _ n Hag); rewrite ?length_drop; lia).
  destruct (readRaw_ok o r acc l k Hc Hg Hok Htake) as (r' & Hr & Hc').
  fold avail in Hr, Hc'. fold n in Hr, Hc'.
  assert (length (take n (drop k l)) = n) as Hln by (rewrite length_take, length_drop; lia).
  assert (take (k + n) (list_inserts k (take n avail) (ro_ptr_ o)) = take (k + n) l) as Hmem.
  { rewrite Htake. by apply inserts_next; [done..|lia]. }
  eexists n, _, r'. split; [exact Hr|]. split; [done|]. split; [lia|]. split; [done|].
  unfold payload_len in Hl. simpl in Hl.
  destruct (decide (k + n = length l)%nat) as [He|Hne].
  + left. split; [|done]. split.
    * unfold read_completed. simpl. rewrite Hm. apply Z.eqb_eq. lia.
    * simpl. rewrite Hno. simpl. f_equal. rewrite Hl, Nat2Z.id, <- He, Hmem, He.
      by rewrite take_ge.
  + right. split; [|split; [|split; [lia | simpl; lia]]].
    * unfold read_completed. simpl. rewrite Hm. apply Z.eqb_neq. lia.
    * split; simpl; try done; [lia|]. split; [done|]. split; [|done].
      by rewrite length_inserts.
  - destruct Hkind as (-> & Hp & x & Hx). rewrite drop_0 in Hag.
  destruct (decide (length (enc_bytes v) <= length avail)%nat) as [Hge|Hlt].
  + destruct (readNop_ok o r acc v Hc Hg (conj Hok Hfit)) as (r' & Hr & Hc'); [done| |].
    { rewrite (agrees_take _ _ _ _ Hag) by done. by rewrite take_ge. }
    eexists _, _, r'. split; [exact Hr|]. split; [done|]. split; [done|]. split; [done|].
    left. split; [|done]. split; [|simpl; by rewrite Hp, take_nil].
    unfold read_completed. simpl. rewrite Hm. apply Z.eqb_eq. by rewrite Hl.
  + exists 0%nat, o, r. unfold payload_len in *. simpl in *.
    pose proof (cons_access r acc (ro_len_ o) Hc ltac:(lia)) as Hacc. cbv zeta in Hacc.
    fold avail in Hacc. rewrite (proj2 (Z.leb_gt _ _)) in Hacc by lia.
    split; [|split; [done|]; split; [lia|]; split; [by rewrite app_nil_r|]].
    * unfold handleReadPayload, readNopObject. rewrite Hm, Hx. rewrite tp_check_bind.
      2:{ apply negb_true_iff, Z.ltb_ge. unfold getSize, ring_size in *. simpl. lia. }
      rewrite Hacc. done.
    * right. split; [|split; [done|]; split; [lia|]; split; [done|lia]].
      unfold read_completed. rewrite Hm. apply Z.eqb_neq. lia.
Qed.

End consumer.

(** ** A whole [handleRead] *)

(** The operation [o] has consumed [c] bytes of the frame of [p]. *)
Definition rd_rel (o : RingbufferReadOperation T) (p : payload T) (c : nat) : Prop :=
  (rd_fresh o p /\ c = 0%nat) \/ (exists k, rd_going o p k /\ c = (4 + k)%nat).

(** With [avail] in the pool, the operation cannot go on. *)
Definition rd_stuck (p : payload T) (c : nat) (avail : list Z) : Prop :=
  if decide (c = 0%nat) then (length avail < 4)%nat else short p avail 0.

Lemma short_after p avail c k n :
  short p avail n -> c = 4%nat -> rd_stuck p (c + (k + n)) (drop n avail).
Proof.
  intros Hs ->. unfold rd_stuck. rewrite decide_False by lia. destruct p as [l|v]; simpl in *.
  - subst n. by rewrite drop_ge by lia.
  - destruct Hs as [-> Hs]. done.
Qed.

Record same_ring (i : nat) (rb rb' : RingBuffer) : Prop := {
  sr_size : ring_size rb' = ring_size rb;
  sr_free : flag rb' i = false;
  sr_other : forall j, (j < 2)%nat -> j <> i -> flag rb' j = flag rb j;
  }.

Lemma startTx_cons rb t W :
  ring_inv rb t W -> flag rb kConsumer = false ->
  exists rb1, startTx kConsumer (rb, newRole) = Done (0, (rb1, mkRole 0 true)) /\
    ring_inv rb1 t W /\ ring_size rb1 = ring_size rb /\
    flag rb1 kProducer = flag rb kProducer /\ cons_tx rb1 t W (mkRole 0 true) [].
Proof.
  intros Hinv Hf.
  destruct (startTx_free kConsumer rb newRole t W Hinv eq_refl ltac:(unfold kConsumer; lia) Hf)
    as (rb1 & He & Hinv1 & Hd & Hs & Hfl).
  exists rb1. split; [done|]. split; [done|]. split; [done|].
  rewrite (Hfl kProducer). split; [done|].
  split; [done | by rewrite Hfl | done | by apply prefix_nil].
Qed.

Lemma commitTx_cons rb r t W acc :
  ring_inv rb t W -> cons_tx rb t W r acc ->
  exists rb', commitTx kConsumer (rb, r) = (0, (rb', newRole)) /\
    ring_inv rb' (t + length acc) W /\ ring_size rb' = ring_size rb /\
    flag rb' kConsumer = false /\ flag rb' kProducer = flag rb kProducer.
Proof.
  intros Hinv Hc.
  destruct (cons_commitTx rb r t W acc Hinv Hc) as (rb' & He & Hi & Hd & Hs & Hf0 & Hf1). eauto 10.
Qed.

Lemma handleRead_finish rb1 t W r acc n1 n2 o1 o2 s1 (o : RingbufferReadOperation T) rb r1 :
  startTx kConsumer (rb, newRole) = Done (0, (rb1, r1)) ->
  handleReadLength 2 kConsumer o (rb1, r1) = Done (n1, o1, s1) ->
  handleReadPayload 2 kConsumer o1 s1 = Done (n2, o2, (rb1, r)) ->
  ring_inv rb1 t W -> cons_tx rb1 t W r acc ->
  ring_size rb1 = ring_size rb -> flag rb1 kProducer = flag rb kProducer ->
  exists rb', handleRead 2 kConsumer o (rb, newRole) =
      Done (n1 + n2, o2,
        if read_completed o2
        then [mkReadCall (ro_fn_ o2) kSuccess (take (Z.to_nat (ro_len_ o2)) (ro_ptr_ o2))
                (mjoin (ro_nopObject_ o2))] else [], (rb', newRole)) /\
    ring_inv rb' (t + length acc) W /\ same_ring kConsumer rb rb'.
Proof.
  intros Hs H1 H2 Hinv Hc Hsz Hpf.
  destruct (commitTx_cons rb1 r t W acc Hinv Hc) as (rb' & He & Hi & Hz & Hf0 & Hf1).
  exists rb'. split.
  - unfold handleRead. rewrite Hs, bind_done. simpl. rewrite H1, bind_done, H2, bind_done, He.
    done.
  - split; [done|]. split; [by rewrite Hz | done|]. intros [|[|]] ??; [done | exact (eq_trans Hf1 Hpf) | lia].
Qed.

Lemma handleRead_idle rb t W (o : RingbufferReadOperation T) :
  ring_inv rb t W -> flag rb kConsumer = false -> ro_mode_ o = READ_LENGTH ->
  (length (drop t W) < 4)%nat ->
  exists rb', handleRead 2 kConsumer o (rb, newRole) = Done (0, o, [], (rb', newRole)) /\
    ring_inv rb' t W /\ same_ring kConsumer rb rb'.
Proof.
  intros Hinv Hf Hm Hlen.
  destruct (startTx_cons rb t W Hinv Hf) as (rb1 & Hs & Hinv1 & Hsz & Hpf & Hc).
  pose proof (handleReadLength_short rb1 t W Hinv1 o _ Hc Hm Hlen) as H1.
  assert (handleReadPayload 2 kConsumer o (rb1, mkRole 0 true) = Done (0, o, (rb1, mkRole 0 true)))
    as H2 by (unfold handleReadPayload; by rewrite Hm).
  destruct (handleRead_finish _ _ _ _ _ _ _ _ _ _ _ _ _ Hs H1 H2 Hinv1 Hc Hsz Hpf)
    as (rb' & He & Hi & Hsame).
  exists rb'. rewrite He. unfold read_completed. rewrite Hm. simpl in Hi.
  rewrite Nat.add_0_r in Hi. done.
Qed.

Lemma handleRead_ok rb t W o p c tail :
  ring_inv rb t W -> flag rb kConsumer = false -> rd_rel o p c ->
  payload_ok (ring_size rb) p -> agrees (drop t W) (drop c (frame p) ++ tail) ->
  exists n o' calls rb',
    handleRead 2 kConsumer o (rb, newRole) = Done (Z.of_nat n, o', calls, (rb', newRole)) /\
    ro_fn_ o' = ro_fn_ o /\ (n <= length (drop t W))%nat /\
    ring_inv rb' (t + n) W /\ same_ring kConsumer rb rb' /\
    ((read_completed o' = true /\ calls = [expected_call (ro_fn_ o) p] /\
      (c + n = length (frame p))%nat) \/
     (read_completed o' = false /\ calls = [] /\ rd_rel o' p (c + n) /\
      (c + n < length (frame p))%nat /\ rd_stuck p (c + n) (drop (t + n) W))).
Proof.
  intros Hinv Hf Hrel Hok Hag.
  destruct (startTx_cons rb t W Hinv Hf) as (rb1 & Hs & Hinv1 & Hsz & Hpf & Hc).
  rewrite <- Hsz in Hok.
  destruct Hrel as [[Hfr ->]|(k & Hg & ->)].
  - destruct (decide (length (drop t W) < 4)%nat) as [Hlt|Hge].
    { destruct (handleRead_idle rb t W o Hinv Hf (rf_mode _ _ Hfr) Hlt) as (rb' & He & Hi & Hsame).
      exists 0%nat, o, [], rb'. rewrite Nat.add_0_r. split; [done|]. split; [done|]. split; [lia|].
      split; [done|]. split; [done|]. right. unfold read_completed.
      rewrite (rf_mode _ _ Hfr). split; [done|]. split; [done|].
      split; [by left|]. split; [rewrite frame_length; lia|].
      unfold rd_stuck. by rewrite Nat.add_0_r, decide_True. }
    destruct (handleReadLength_ok rb1 t W Hinv1 o _ p tail Hc Hfr (proj1 Hok))
      as (o1 & r1 & H1 & Hg1 & Hfn1 & Hc1); [lia | done|].
    assert (length (take 4 (drop t W)) = 4%nat) as H4 by (rewrite length_take; lia).
    destruct (handleReadPayload_ok rb1 t W Hinv1 o1 r1 _ p 0 tail Hc1 Hg1 Hok)
      as (n & o2 & r2 & H2 & Hfn2 & Hn & Hc2 & Hcase).
    { rewrite H4, <- drop_drop. by apply (agrees_drop _ _ 4) in Hag; [|lia]. }
    rewrite H4, <- drop_drop, length_drop in Hn.
    destruct (handleRead_finish _ _ _ _ _ _ _ _ _ _ _ _ _ Hs H1 H2 Hinv1 Hc2 Hsz Hpf)
      as (rb' & He & Hi & Hsame).
    exists (4 + n)%nat, o2, (if read_completed o2 then [expected_call (ro_fn_ o) p] else []), rb'.
    rewrite He. rewrite length_app, (length_take _ n), H4, <- drop_drop, length_drop in Hi.
    rewrite Nat.min_l in Hi by lia.
    split; [|split; [congruence|]; split; [lia|]; split; [done|]; split; [done|]].
    + replace (4 + Z.of_nat n) with (Z.of_nat (4 + n)) by lia. destruct Hcase as [[[Hd Hcall] _]|[Hd _]]; rewrite Hd; [|done].
      by rewrite Hcall, Hfn2, Hfn1.
    + rewrite frame_length. destruct Hcase as [[[Hd Hcall] Hl]|(Hd & Hg2 & Hl & Hsh)]; rewrite Hd.
      * left. split; [done|]. split; [done|]. lia.
      * right. split; [done|]. split; [done|]. split; [right; by exists n|]. split; [lia|].
        rewrite H4 in Hsh. apply (short_after _ _ 4 0 n) in Hsh; [|done]. rewrite drop_drop in Hsh.
        by replace (t + (4 + n))%nat with (t + 4 + n)%nat by lia.
  - assert (handleReadLength 2 kConsumer o (rb1, mkRole 0 true) = Done (0, o, (rb1, mkRole 0 true)))
      as H1 by (unfold handleReadLength; by rewrite (rg_mode _ _ _ Hg)).
    destruct (handleReadPayload_ok rb1 t W Hinv1 o _ _ p k tail Hc Hg Hok)
      as (n & o2 & r2 & H2 & Hfn2 & Hn & Hc2 & Hcase).
    { simpl. by rewrite Nat.add_0_r. }
    simpl in Hn, Hc2, Hcase. rewrite Nat.add_0_r in Hn, Hc2, Hcase.
    destruct (handleRead_finish _ _ _ _ _ _ _ _ _ _ _ _ _ Hs H1 H2 Hinv1 Hc2 Hsz Hpf)
      as (rb' & He & Hi & Hsame).
    exists n, o2, (if read_completed o2 then [expected_call (ro_fn_ o) p] else []), rb'.
    rewrite He. rewrite length_take, Nat.min_l in Hi by done.
    split; [|split; [done|]; split; [done|]; split; [done|]; split; [done|]].
    + rewrite Z.add_0_l. destruct Hcase as [[[Hd Hcall] _]|[Hd _]]; rewrite Hd; [|done].
      by rewrite Hcall, Hfn2.
    + rewrite frame_length. destruct Hcase as [[[Hd Hcall] Hl]|(Hd & Hg2 & Hl & Hsh)]; rewrite Hd.
      * left. split; [done|]. split; [done|]. lia.
      * right. split; [done|]. split; [done|]. split; [right; exists (k + n)%nat; split; [done|lia]|].
        split; [lia|]. apply (short_after _ _ 4 k n) in Hsh; [|done]. rewrite drop_drop in Hsh.
        by replace (4 + k + n)%nat with (4 + (k + n))%nat by lia.
Qed.

(** ** Writes *)

Record wr_fresh (o : RingbufferWriteOperation T) (p : payload T) : Prop := {
  wf_mode : wo_mode_ o = WRITE_LENGTH;
  wf_written : wo_bytesWritten_ o = 0;
  wf_len : wo_len_ o = payload_len p;
  wf_kind : match p with
    | PBytes l => wo_nopObject_ o = None /\ wo_ptr_ o = l
    | PObject v => wo_nopObject_ o = Some v
    end;
  }.

Record wr_going (o : RingbufferWriteOperation T) (p : payload T) (k : nat) : Prop := {
  wg_mode : wo_mode_ o = WRITE_PAYLOAD;
  wg_written : wo_bytesWritten_ o = Z.of_nat k;
  wg_len : wo_len_ o = payload_len p;
  wg_le : (k <= length (payload_bytes p))%nat;
  wg_kind : match p with
    | PBytes l => wo_nopObject_ o = None /\ wo_ptr_ o = l
    | PObject v => wo_nopObject_ o = Some v /\ k = 0%nat
    end;
  }.

(** The operation [o] has written [c] bytes of the frame of [p]. *)
Definition wr_rel (o : RingbufferWriteOperation T) (p : payload T) (c : nat) : Prop :=
  (wr_fresh o p /\ c = 0%nat) \/ (exists k, wr_going o p k /\ c = (4 + k)%nat).

Definition wr_short (p : payload T) (room n : Z) : Prop :=
  match p with
  | PBytes _ => n = room
  | PObject _ => n = 0 /\ room < payload_len p
  end.

(** With [room] bytes free, the operation cannot go on. *)
Definition wr_stuck (p : payload T) (c : nat) (room : Z) : Prop :=
  if decide (c = 0%nat) then room < 4 else wr_short p room 0.

Lemma wr_short_after p r c k n :
  wr_short p r (Z.of_nat n) -> c = 4%nat -> wr_stuck p (c + (k + n)) (r - Z.of_nat n).
Proof.
  intros Hs ->. unfold wr_stuck. rewrite decide_False by lia. unfold wr_short in *.
  destruct p; lia.
Qed.

Section producer.
Context (rb : RingBuffer) (t : nat) (W : list Z).
Hypothesis Hinv : ring_inv rb t W.

Definition room (acc : list Z) : Z :=
  Z.of_nat t + ring_size rb - Z.of_nat (length W) - Z.of_nat (length acc).

Lemma room_pos r acc : prod_tx rb t W r acc -> 0 <= room acc <= ring_size rb.
Proof.
  intros Hp. pose proof (pt_room _ _ _ _ _ Hp). pose proof (ri_le _ _ _ Hinv).
  unfold room. lia.
Qed.

(** All-or-nothing access, as [writeNopObject] makes it. *)
Lemma prod_access r acc bytes :
  prod_tx rb t W r acc -> Z.of_nat (length bytes) < 2 ^ 64 ->
  let size := Z.of_nat (length bytes) in
  if size <=? room acc then
  exists n b0 b1 rb' r',
    accessContiguousInTx 2 kProducer false size (rb, r) = Done (n, (b0, b1), (rb, r')) /\
    0 <= n /\ buffers_ok (data_ rb) b0 b1 /\ size = buf_len b0 + buf_len b1 /\
    rb' = rb <| data_ := copyIn2 (b0, b1) bytes (data_ rb) |> /\
    ring_inv rb' t W /\ prod_tx rb' t W r' (acc ++ bytes) /\ header_ rb' = header_ rb
  else accessContiguousInTx 2 kProducer false size (rb, r) = Done (- ENODATA, noBuffers, (rb, r)).
Proof.
  unfold kProducer, room. intros Hp Hsz.
  pose proof (prod_writeInTx rb r t W acc false bytes Hinv Hp ltac:(unfold is_u64; lia)) as Hwrite.
  destruct Hp as [Hin Hfl Hts Hroom Hho].
  pose proof (ring_inv_bounds _ _ _ Hinv) as [HS Hcap]. pose proof Hinv as [Hh Hd Hle _].
  pose proof (access_closed 2 (marks (Z.of_nat t) (Z.of_nat (length W))) rb r 1 false
  (Z.of_nat (length bytes)) (ring_size rb) Hh eq_refl ltac:(lia) Hin) as Hcl.
  rewrite limit_producer in Hcl. cbn [marks] in Hcl.
  specialize (Hcl ltac:(lia) ltac:(unfold is_u64; lia)).
  destruct (access_result _ _ _ _ _ _) as [[n [b0 b1]] tx] eqn:Hres.
  pose proof (access_result_buffers (data_ rb) _ _ _ _ _ _ _ _ _ _ Hres Hd) as Hbuf.
  apply access_result_cases in Hres. rewrite Hts in *. cbv zeta.
  destruct Hres as [(Ha & -> & Hb & ->)|(Hn & k & Ha)]; rewrite Ha in Hwrite.
  - destruct (Z.leb_spec (Z.of_nat (length bytes))
    (Z.of_nat t + ring_size rb - Z.of_nat (length W) - Z.of_nat (length acc))) as [Hfit|].
  { unfold access_amount in Ha. destruct (_ =? 0); [done|]. simpl in Ha.
    by rewrite (proj2 (Z.ltb_ge _ _)) in Ha. }
  rewrite Hcl, Hb, <- Hts. by destruct r.
  - apply access_amount_bound in Ha as (Hk & _ & Hkeq); [|lia..].
  specialize (Hkeq eq_refl). subst k. rewrite (proj2 (Z.leb_le _ _)) by lia.
  destruct Hwrite as (rb' & r' & Hr & Hi & Hp' & Hhd).
  rewrite (writeInTx_via_access _ _ _ _ _ _ _ _ _ _ _ Hcl Hn) in Hr.
  rewrite Nat2Z.id, firstn_all in Hp'. simplify_eq.
  eexists _, _, _, _, _. split; [exact Hcl|]. split; [done|]. split; [apply Hbuf; lia|].
  split; [done|]. split; [done|]. done.
Qed.

Lemma handleWriteLength_short (o : RingbufferWriteOperation T) r :
  prod_tx rb t W r [] -> wo_mode_ o = WRITE_LENGTH -> room [] < 4 ->
  handleWriteLength 2 kProducer o (rb, r) = Done (0, o, (rb, r)).
Proof.
  intros Hp Hm Hlt. unfold handleWriteLength. rewrite Hm.
  pose proof (prod_writeInTx rb r t W [] false (le32 (u32 (wo_len_ o))) Hinv Hp
  ltac:(unfold is_u64; simpl; lia)) as Hw.
  change (Z.of_nat (length (le32 (u32 (wo_len_ o))))) with 4 in Hw.
  fold (room []) in Hw. unfold access_amount in Hw. simpl in Hw.
  rewrite (proj2 (Z.ltb_lt _ _)) in Hw by done. unfold kProducer. by rewrite Hw.
Qed.

Lemma handleWriteLength_ok o r p :
  prod_tx rb t W r [] -> wr_fresh o p -> payload_len p < 2 ^ 32 -> 4 <= room [] ->
  exists o' rb' r', handleWriteLength 2 kProducer o (rb, r) = Done (4, o', (rb', r')) /\
  wr_going o' p 0 /\ wo_fn_ o' = wo_fn_ o /\ header_ rb' = header_ rb /\
  ring_inv rb' t W /\ prod_tx rb' t W r' (le32 (payload_len p)).
Proof.
  intros Hp [Hm Hw0 Hl Hk] Hok Hge. unfold handleWriteLength. rewrite Hm, Hl.
  rewrite u32_small by (unfold is_u32; unfold payload_len in *; lia).
  pose proof (prod_writeInTx rb r t W [] false (le32 (payload_len p)) Hinv Hp
  ltac:(unfold is_u64; simpl; lia)) as Hw.
  fold (room []) in Hw. unfold access_amount in Hw.
  change (Z.of_nat (length (le32 (payload_len p)))) with 4 in Hw. simpl in Hw.
  rewrite (proj2 (Z.ltb_ge _ _)), Z.min_l in Hw by lia.
  destruct Hw as (rb' & r' & Hr & Hi & Hp' & Hh). unfold kProducer. rewrite Hr, bind_done. simpl.
  eexists _, _, _. split; [done|]. split; [|done].
  split; simpl; try done; [lia|]. by destruct p.
Qed.

Lemma writeRaw_ok o r acc l k :
  prod_tx rb t W r acc -> wr_going o (PBytes l) k -> Z.of_nat (length l) < 2 ^ 32 ->
  exists n rb' r', n = ((length l - k) `min` Z.to_nat (room acc))%nat /\
  handleWritePayload 2 kProducer o (rb, r)
    = Done (Z.of_nat n, o <| wo_bytesWritten_ := Z.of_nat (k + n) |>, (rb', r')) /\
  header_ rb' = header_ rb /\ ring_inv rb' t W /\
  prod_tx rb' t W r' (acc ++ take n (drop k l)).
Proof.
  intros Hp [Hm Hw0 Hl Hk [Hno Hptr]] Hok. pose proof (room_pos _ _ Hp) as Hroom.
  unfold payload_len in *. simpl in *.
  pose proof (prod_writeInTx rb r t W acc true (drop k l) Hinv Hp
  ltac:(unfold is_u64; rewrite length_drop; lia)) as Hw.
  fold (room acc) in Hw. rewrite length_drop in Hw.
  remember ((length l - k) `min` Z.to_nat (room acc))%nat as n eqn:Hn.
  assert (access_amount (room acc) true (Z.of_nat (length l - k)) = Some (Z.of_nat n)) as Ha.
  { unfold access_amount. simpl. destruct (Z.eqb_spec (Z.of_nat (length l - k)) 0); f_equal; lia. }
  rewrite Ha in Hw. destruct Hw as (rb' & r' & Hr & Hi & Hp' & Hh). rewrite Nat2Z.id in Hp'.
  exists n, rb', r'. split; [done|]. split; [|done].
  unfold handleWritePayload. rewrite Hm, Hno, Hptr, Hw0, Nat2Z.id.
  rewrite (u64_small (wo_len_ o - _)) by (unfold is_u64; lia).
  replace (wo_len_ o - Z.of_nat k) with (Z.of_nat (length l - k)) by lia.
  unfold kProducer. rewrite Hr, bind_done, (proj2 (Z.leb_le 0 _)) by lia.
  rewrite u64_small by (unfold is_u64; lia). by rewrite Nat2Z.inj_add.
Qed.

Lemma writeNop_ok o r acc v :
  prod_tx rb t W r acc -> wr_going o (PObject v) 0 -> payload_ok (ring_size rb) (PObject v) ->
  Z.of_nat (length (enc_bytes v)) <= room acc ->
  exists rb' r', handleWritePayload 2 kProducer o (rb, r)
    = Done (Z.of_nat (length (enc_bytes v)),
            o <| wo_bytesWritten_ := Z.of_nat (length (enc_bytes v)) |>, (rb', r')) /\
  header_ rb' = header_ rb /\ ring_inv rb' t W /\ prod_tx rb' t W r' (acc ++ enc_bytes v).
Proof.
  intros Hp [Hm Hw0 Hl Hk [Hno _]] [Hok Hfit] Hroom. unfold payload_len in *. simpl in *.
  assert (Z.of_nat (length (enc_bytes v)) < 2 ^ 64) as H64 by lia.
  pose proof (prod_access r acc (enc_bytes v) Hp H64) as Hacc. cbv zeta in Hacc.
  rewrite (proj2 (Z.leb_le _ _)) in Hacc by done.
  destruct Hacc as (n & b0 & b1 & rb' & r' & Ha & Hn & Hbuf & Hsum & -> & Hi & Hp' & Hh).
  destruct (run_write_flat (data_ rb) b0 b1 Hbuf (enc_Write v) (enc_write_ok v)) as (w & Hrun);
  [unfold enc_bytes in Hsum; lia|].
  eexists _, r'. split; [|done]. unfold handleWritePayload, writeNopObject. rewrite Hm, Hno, Hl.
  rewrite tp_check_bind by (apply negb_true_iff, Z.ltb_ge; unfold getSize, ring_size in *; simpl; lia).
  rewrite Ha, bind_done, (proj2 (Z.ltb_ge n 0)) by done.
  rewrite Hrun, !bind_done. rewrite (proj2 (Z.leb_le 0 _)) by lia.
  rewrite Hw0, Z.add_0_l, u64_small by (unfold is_u64; lia). done.
Qed.

Lemma handleWritePayload_ok o r acc p k :
  prod_tx rb t W r acc -> wr_going o p k -> payload_ok (ring_size rb) p ->
  exists n o' rb' r', handleWritePayload 2 kProducer o (rb, r) = Done (Z.of_nat n, o', (rb', r')) /\
  wo_fn_ o' = wo_fn_ o /\ header_ rb' = header_ rb /\ ring_inv rb' t W /\
  prod_tx rb' t W r' (acc ++ take n (drop k (payload_bytes p))) /\
  ((write_completed o' = true /\ (k + n = length (payload_bytes p))%nat) \/
   (write_completed o' = false /\ wr_going o' p (k + n) /\
    (k + n < length (payload_bytes p))%nat /\ wr_short p (room acc) (Z.of_nat n))).
Proof.
  intros Hp Hg [Hok Hfit]. pose proof Hg as [Hm Hw0 Hl Hk Hkind].
  pose proof (room_pos _ _ Hp) as Hroom. destruct p as [l|v]; simpl in *.
  - destruct (writeRaw_ok o r acc l k Hp Hg Hok) as (n & rb' & r' & Hn & Hr & Hh & Hi & Hp').
  destruct Hkind as [Hno Hptr]. unfold payload_len in *. simpl in *.
  eexists n, _, rb', r'. split; [exact Hr|]. split; [done|]. split; [done|]. split; [done|].
  split; [done|]. destruct (decide (k + n = length l)%nat) as [He|Hne].
  + left. split; [|done]. unfold write_completed. simpl. rewrite Hm. apply Z.eqb_eq. lia.
  + right. split; [|split; [|split; [lia | unfold wr_short; lia]]].
    * unfold write_completed. simpl. rewrite Hm. apply Z.eqb_neq. lia.
    * split; simpl; try done. lia.
  - destruct Hkind as [Hno ->]. unfold payload_len in *. simpl in *. rewrite drop_0.
  destruct (Z.le_gt_cases (Z.of_nat (length (enc_bytes v))) (room acc)) as [Hge|Hlt].
  + destruct (writeNop_ok o r acc v Hp Hg (conj Hok Hfit) Hge) as (rb' & r' & Hr & Hh & Hi & Hp').
    eexists _, _, rb', r'. split; [exact Hr|]. rewrite firstn_all.
    split; [done|]. split; [done|]. split; [done|]. split; [done|]. left. split; [|done].
    unfold write_completed. simpl. rewrite Hm. by apply Z.eqb_eq.
  + exists 0%nat, o, rb, r. rewrite take_0, app_nil_r.
    assert (Z.of_nat (length (enc_bytes v)) < 2 ^ 64) as H64 by lia.
    pose proof (prod_access r acc (enc_bytes v) Hp H64) as Hacc. cbv zeta in Hacc.
    rewrite (proj2 (Z.leb_gt _ _)) in Hacc by lia.
    split; [|split; [done|]; split; [done|]; split; [done|]; split; [done|]].
    * unfold handleWritePayload, writeNopObject. rewrite Hm, Hno, Hl. rewrite tp_check_bind
        by (apply negb_true_iff, Z.ltb_ge; unfold getSize, ring_size in *; simpl; lia).
      by rewrite Hacc.
    * right. split; [|split; [done|]; split; [lia | unfold wr_short, payload_len; simpl; lia]].
      unfold write_completed. rewrite Hm. apply Z.eqb_neq. lia.
Qed.
End producer.

(** ** A whole [handleWrite] *)

Definition free_room (rb : RingBuffer) (t : nat) (W : list Z) : Z :=
  Z.of_nat t + ring_size rb - Z.of_nat (length W).

Lemma startTx_prod rb t W :
  ring_inv rb t W -> flag rb kProducer = false ->
  exists rb1, startTx kProducer (rb, newRole) = Done (0, (rb1, mkRole 0 true)) /\
    ring_inv rb1 t W /\ ring_size rb1 = ring_size rb /\
    flag rb1 kConsumer = flag rb kConsumer /\ prod_tx rb1 t W (mkRole 0 true) [].
Proof.
  intros Hinv Hf.
  destruct (startTx_free kProducer rb newRole t W Hinv eq_refl ltac:(unfold kProducer; lia) Hf)
    as (rb1 & He & Hinv1 & Hd & Hs & Hfl).
  exists rb1. split; [done|]. split; [done|]. split; [done|].
  rewrite (Hfl kConsumer). split; [done|].
  pose proof (ring_inv_bounds _ _ _ Hinv1) as [_ Hcap].
  split; [done | by rewrite Hfl | done | simpl; lia | apply holds_nil].
Qed.

Lemma commitTx_prod rb r t W acc :
  ring_inv rb t W -> prod_tx rb t W r acc ->
  exists rb', commitTx kProducer (rb, r) = (0, (rb', newRole)) /\
    ring_inv rb' t (W ++ acc) /\ ring_size rb' = ring_size rb /\
    flag rb' kProducer = false /\ flag rb' kConsumer = flag rb kConsumer.
Proof.
  intros Hinv Hc.
  destruct (prod_commitTx rb r t W acc Hinv Hc) as (rb' & He & Hi & Hd & Hs & Hf0 & Hf1).
  eauto 10.
Qed.

Lemma handleWrite_finish rb1 rb2 t W r acc n1 n2 o1 o2 s1 (o : RingbufferWriteOperation T) rb r1 :
  startTx kProducer (rb, newRole) = Done (0, (rb1, r1)) ->
  handleWriteLength 2 kProducer o (rb1, r1) = Done (n1, o1, s1) ->
  handleWritePayload 2 kProducer o1 s1 = Done (n2, o2, (rb2, r)) ->
  ring_inv rb2 t W -> prod_tx rb2 t W r acc ->
  ring_size rb1 = ring_size rb -> flag rb1 kConsumer = flag rb kConsumer ->
  header_ rb2 = header_ rb1 ->
  exists rb', handleWrite 2 kProducer o (rb, newRole) =
      Done (n1 + n2, o2, if write_completed o2 then [mkWriteCall (wo_fn_ o2) kSuccess] else [],
            (rb', newRole)) /\
    ring_inv rb' t (W ++ acc) /\ same_ring kProducer rb rb'.
Proof.
  intros Hs H1 H2 Hinv Hc Hsz Hpf Hh.
  destruct (commitTx_prod rb2 r t W acc Hinv Hc) as (rb' & He & Hi & Hz & Hf0 & Hf1).
  assert (ring_size rb2 = ring_size rb1) as Hz2 by (unfold ring_size; by rewrite Hh).
  assert (flag rb2 kConsumer = flag rb1 kConsumer) as Hf2 by (unfold flag; by rewrite Hh).
  exists rb'. split.
  - unfold handleWrite. rewrite Hs, bind_done. simpl. rewrite H1, bind_done, H2, bind_done, He.
    done.
  - split; [done|]. split; [congruence | done|].
    intros [|[|]] ??; [|done | lia]. exact (eq_trans Hf1 (eq_trans Hf2 Hpf)).
Qed.

Lemma handleWrite_ok rb t W o p c :
  ring_inv rb t W -> flag rb kProducer = false -> wr_rel o p c -> payload_ok (ring_size rb) p ->
  exists n o' calls rb',
    handleWrite 2 kProducer o (rb, newRole) = Done (Z.of_nat n, o', calls, (rb', newRole)) /\
    wo_fn_ o' = wo_fn_ o /\ ring_inv rb' t (W ++ take n (drop c (frame p))) /\
    (c + n <= length (frame p))%nat /\ same_ring kProducer rb rb' /\
    ((write_completed o' = true /\ calls = [mkWriteCall (wo_fn_ o) kSuccess] /\
      (c + n = length (frame p))%nat) \/
     (write_completed o' = false /\ calls = [] /\ wr_rel o' p (c + n) /\
      (c + n < length (frame p))%nat /\ wr_stuck p (c + n) (free_room rb t W - Z.of_nat n))).
Proof.
  intros Hinv Hf Hrel Hok.
  destruct (startTx_prod rb t W Hinv Hf) as (rb1 & Hs & Hinv1 & Hsz & Hpf & Hp).
  rewrite <- Hsz in Hok.
  assert (room rb1 t W [] = free_room rb t W) as Hroom
    by (unfold room, free_room; rewrite Hsz; simpl; lia).
  destruct Hrel as [[Hfr ->]|(k & Hg & ->)].
  - destruct (Z.lt_ge_cases (room rb1 t W []) 4) as [Hlt|Hge].
    { pose proof (handleWriteLength_short rb1 t W Hinv1 o _ Hp (wf_mode _ _ Hfr) Hlt) as H1.
      assert (handleWritePayload 2 kProducer o (rb1, mkRole 0 true)
        = Done (0, o, (rb1, mkRole 0 true))) as H2
        by (unfold handleWritePayload; by rewrite (wf_mode _ _ Hfr)).
      destruct (handleWrite_finish _ _ _ _ _ _ _ _ _ _ _ _ _ _ Hs H1 H2 Hinv1 Hp Hsz Hpf eq_refl)
        as (rb' & He & Hi & Hsame).
      exists 0%nat, o, [], rb'. rewrite take_0. rewrite He. unfold write_completed.
      rewrite (wf_mode _ _ Hfr). split; [done|]. split; [done|]. split; [done|].
      split; [lia|]. split; [done|]. right. split; [done|]. split; [done|].
      split; [by left|]. split; [rewrite frame_length; lia|].
      unfold wr_stuck. rewrite decide_True by done. lia. }
    destruct (handleWriteLength_ok rb1 t W Hinv1 o _ p Hp Hfr (proj1 Hok) Hge)
      as (o1 & rb2 & r1 & H1 & Hg1 & Hfn1 & Hh1 & Hinv2 & Hp1).
    assert (ring_size rb2 = ring_size rb1) as Hz2 by (unfold ring_size; by rewrite Hh1).
    rewrite <- Hz2 in Hok.
    destruct (handleWritePayload_ok rb2 t W Hinv2 o1 r1 _ p 0 Hp1 Hg1 Hok)
      as (n & o2 & rb3 & r2 & H2 & Hfn2 & Hh2 & Hinv3 & Hp2 & Hcase).
    destruct (handleWrite_finish _ _ _ _ _ _ _ _ _ _ _ _ _ _ Hs H1 H2 Hinv3 Hp2 Hsz Hpf
      (eq_trans Hh2 Hh1)) as (rb' & He & Hi & Hsame).
    exists (4 + n)%nat, o2, (if write_completed o2 then [mkWriteCall (wo_fn_ o) kSuccess] else []), rb'.
    rewrite He, Hfn2, Hfn1. rewrite drop_0 in Hi. rewrite drop_0, frame_length.
    replace (4 + Z.of_nat n) with (Z.of_nat (4 + n)) by lia.
    split; [done|]. split; [done|]. split; [exact Hi|]. split; [lia|]. split; [done|].
    destruct Hcase as [[Hd Hl]|(Hd & Hg2 & Hl & Hsh)]; rewrite Hd.
    + left. split; [done|]. split; [done|]. lia.
    + right. split; [done|]. split; [done|]. split; [right; by exists n|]. split; [lia|].
      apply (wr_short_after _ _ 4 0 n) in Hsh; [|done].
      replace (free_room rb t W - Z.of_nat (4 + n)) with (room rb2 t W (le32 (payload_len p)) - Z.of_nat n);
        [done|]. rewrite <- Hroom. unfold room. rewrite Hz2. simpl. lia.
  - assert (handleWriteLength 2 kProducer o (rb1, mkRole 0 true)
      = Done (0, o, (rb1, mkRole 0 true))) as H1
      by (unfold handleWriteLength; by rewrite (wg_mode _ _ _ Hg)).
    destruct (handleWritePayload_ok rb1 t W Hinv1 o _ _ p k Hp Hg Hok)
      as (n & o2 & rb3 & r2 & H2 & Hfn2 & Hh2 & Hinv3 & Hp2 & Hcase).
    destruct (handleWrite_finish _ _ _ _ _ _ _ _ _ _ _ _ _ _ Hs H1 H2 Hinv3 Hp2 Hsz Hpf Hh2)
      as (rb' & He & Hi & Hsame).
    exists n, o2, (if write_completed o2 then [mkWriteCall (wo_fn_ o) kSuccess] else []), rb'.
    rewrite He, Hfn2, Z.add_0_l, frame_length.
    split; [done|]. split; [done|]. split; [exact Hi|]. split; [lia|]. split; [done|].
    destruct Hcase as [[Hd Hl]|(Hd & Hg2 & Hl & Hsh)]; rewrite Hd.
    + left. split; [done|]. split; [done|]. lia.
    + right. split; [done|]. split; [done|].
      split; [right; exists (k + n)%nat; split; [done|lia]|]. split; [lia|].
      apply (wr_short_after _ _ 4 k n) in Hsh; [|done]. rewrite <- Hroom.
      by replace (4 + k + n)%nat with (4 + (k + n))%nat by lia.
Qed.
End spec.
#[global] Arguments frame : simpl never.
