(* ===== verification/RingbufferQueues.v ===== *)
(** * Queues of read and write operations

    What the connections that go through ring buffers ([ShmConnection],
    [IbvConnection]) share: the requests of their users, and how the queues of
    operations of [RingbufferOps] relate to the messages that they carry. *)

From S2P Require Import Prelude System RingBuffer RingBufferTx Nop RingbufferOps.

Section requests.
Context {T : Type} `{NopEncoding T}.

(** The three overloads of [read]. *)
Inductive read_request :=
| RqAuto
| RqNop
| RqBuffer (mem : list Z) (length : Z).

Definition new_read (rq : read_request) (fn : nat) : RingbufferReadOperation T :=
  match rq with
  | RqAuto => newReadOpAuto fn
  | RqNop => newReadOpNop fn
  | RqBuffer mem len => newReadOpBuffer mem len fn
  end.

Definition new_write (p : payload T) (fn : nat) : RingbufferWriteOperation T :=
  match p with
  | PBytes l => newWriteOpBuffer l (Z.of_nat (length l)) fn
  | PObject v => newWriteOpNop v fn
  end.

(** ** What a single operation calls back *)

Lemma handleReadLength_fn N i (o : RingbufferReadOperation T) s n o' s' :
  handleReadLength N i o s = Done (n, o', s') -> ro_fn_ o' = ro_fn_ o.
Proof.
  unfold handleReadLength. intros Hh. destruct (ro_mode_ o); [|by simplify_eq].
  inv_bind Hh. destruct a as [[ret bytes] s1]. destruct (0 <=? ret).
  - destruct (ro_nopObject_ _); [by simplify_eq|]. destruct (ro_ptrProvided_ _); [|by simplify_eq].
    inv_bind Hh. by simplify_eq.
  - destruct (_ =? _); by simplify_eq.
Qed.

Lemma readNopObject_fn N i (o : RingbufferReadOperation T) s n o' s' :
  readNopObject N i o s = Done (n, o', s') -> ro_fn_ o' = ro_fn_ o.
Proof.
  unfold readNopObject. intros Hh. inv_bind Hh. inv_bind Hh. destruct a0 as [[nb [b0 b1]] s1].
  destruct (nb <? 0); [by simplify_eq|]. inv_bind Hh. destruct a0 as [[v|[]] rd]; by simplify_eq.
Qed.

Lemma handleReadPayload_fn N i (o : RingbufferReadOperation T) s n o' s' :
  handleReadPayload N i o s = Done (n, o', s') -> ro_fn_ o' = ro_fn_ o.
Proof.
  unfold handleReadPayload. intros Hh. destruct (ro_mode_ o); [by simplify_eq|].
  inv_bind Hh. destruct a as [[ret o1] s1].
  assert (ro_fn_ o1 = ro_fn_ o) as Hfn.
  { destruct (ro_nopObject_ o).
    - by eapply readNopObject_fn.
    - inv_bind Ha. destruct a as [[r2 bytes] s2]. by simplify_eq. }
  destruct (0 <=? ret); [by simplify_eq|]. destruct (_ =? _); by simplify_eq.
Qed.

(** An operation is called back exactly when it completes. *)
Lemma handleRead_calls N i (o : RingbufferReadOperation T) s n o' calls s' :
  handleRead N i o s = Done (n, o', calls, s') ->
  ro_fn_ o' = ro_fn_ o /\ rc_fn <$> calls = (if read_completed o' then [ro_fn_ o] else []).
Proof.
  unfold handleRead. intros Hh. inv_bind Hh. destruct a as [ret s1]. inv_bind Hh. inv_bind Hh.
  destruct a0 as [[n1 o1] s2]. inv_bind Hh. destruct a0 as [[n2 o2] s3].
  destruct (commitTx i s3) as [ret2 s4]. inv_bind Hh. simplify_eq.
  apply handleReadLength_fn in Ha1. apply handleReadPayload_fn in Ha2.
  split; [congruence|]. destruct (read_completed o'); simpl; [|done]. congruence.
Qed.

Lemma handleWriteLength_fn N i (o : RingbufferWriteOperation T) s n o' s' :
  handleWriteLength N i o s = Done (n, o', s') -> wo_fn_ o' = wo_fn_ o.
Proof.
  unfold handleWriteLength. intros Hh. destruct (wo_mode_ o); [|by simplify_eq].
  inv_bind Hh. destruct a as [ret s1].
  destruct (0 <=? ret); [by simplify_eq|]. destruct (_ =? _); by simplify_eq.
Qed.

Lemma handleWritePayload_fn N i (o : RingbufferWriteOperation T) s n o' s' :
  handleWritePayload N i o s = Done (n, o', s') -> wo_fn_ o' = wo_fn_ o.
Proof.
  unfold handleWritePayload. intros Hh. destruct (wo_mode_ o); [by simplify_eq|].
  inv_bind Hh. destruct a as [ret s1].
  destruct (0 <=? ret); [by simplify_eq|]. destruct (_ =? _); by simplify_eq.
Qed.

Lemma handleWrite_calls N i (o : RingbufferWriteOperation T) s n o' calls s' :
  handleWrite N i o s = Done (n, o', calls, s') ->
  wo_fn_ o' = wo_fn_ o /\ wc_fn <$> calls = (if write_completed o' then [wo_fn_ o] else []).
Proof.
  unfold handleWrite. intros Hh. inv_bind Hh. destruct a as [ret s1]. inv_bind Hh. inv_bind Hh.
  destruct a0 as [[n1 o1] s2]. inv_bind Hh. destruct a0 as [[n2 o2] s3].
  destruct (commitTx i s3) as [ret2 s4]. inv_bind Hh. simplify_eq.
  apply handleWriteLength_fn in Ha1. apply handleWritePayload_fn in Ha2.
  split; [congruence|]. destruct (write_completed o'); simpl; [|done]. congruence.
Qed.
End requests.

(** ** Queues against the messages they carry *)

Section queues.
Context {T : Type} `{NopEncodingLaws T}.

Definition frames (ps : list (payload T)) : list Z := ps ≫= frame.

(** The first [c] bytes of the frame in progress. *)
Definition part (ps : list (payload T)) (c : nat) : list Z :=
  match ps with [] => [] | p :: _ => take c (frame p) end.

Lemma frames_cons p ps : frames (p :: ps) = frame p ++ frames ps.
Proof. done. Qed.

Definition wq_rel (wq : list (RingbufferWriteOperation T)) (ps : list (payload T)) (c : nat) : Prop :=
  match wq, ps with
  | [], [] => c = 0%nat
  | o :: wq, p :: ps => wr_rel o p c /\ (c < length (frame p))%nat /\ Forall2 wr_fresh wq ps
  | _, _ => False
  end.

Definition rq_rel (rq : list (RingbufferReadOperation T)) (ps : list (payload T)) (c : nat) : Prop :=
  match rq, ps with
  | [], [] => c = 0%nat
  | o :: rq, p :: ps => rd_rel o p c /\ (c < length (frame p))%nat /\ Forall2 rd_fresh rq ps
  | _, _ => False
  end.

Lemma wq_rel_length wq ps c : wq_rel wq ps c -> length wq = length ps.
Proof.
  destruct wq, ps; simpl; try done. intros (_ & _ & Hf). f_equal. by eapply Forall2_length.
Qed.

Lemma rq_rel_length rq ps c : rq_rel rq ps c -> length rq = length ps.
Proof.
  destruct rq, ps; simpl; try done. intros (_ & _ & Hf). f_equal. by eapply Forall2_length.
Qed.

Lemma wq_rel_fresh wq ps : Forall2 wr_fresh wq ps -> wq_rel wq ps 0.
Proof.
  intros [|o p wq' ps' Ho Hf]; [done|]. split; [by left|]. split; [|done].
  rewrite frame_length. lia.
Qed.

Lemma rq_rel_fresh rq ps : Forall2 rd_fresh rq ps -> rq_rel rq ps 0.
Proof.
  intros [|o p rq' ps' Ho Hf]; [done|]. split; [by left|]. split; [|done].
  rewrite frame_length. lia.
Qed.

Definition w_head_stuck (ps : list (payload T)) (c : nat) (room : Z) : Prop :=
  match ps with [] => True | p :: _ => wr_stuck p c room end.

Definition r_head_stuck (ps : list (payload T)) (c : nat) (avail : list Z) : Prop :=
  match ps with [] => True | p :: _ => rd_stuck p c avail end.

Definition write_done (o : RingbufferWriteOperation T) : write_call :=
  mkWriteCall (wo_fn_ o) kSuccess.

Lemma same_ring_refl i rb : flag rb i = false -> same_ring i rb rb.
Proof. by split. Qed.

(** The callbacks of reads, in order, given the messages they received. *)
Definition read_calls (fns : list nat) (ps : list (payload T)) : list (read_call T) :=
  zip_with expected_call fns ps.

Lemma read_calls_app f1 f2 p1 p2 :
  length f1 = length p1 -> read_calls (f1 ++ f2) (p1 ++ p2) = read_calls f1 p1 ++ read_calls f2 p2.
Proof. intros Hl. unfold read_calls. by rewrite zip_with_app. Qed.

Lemma agrees_part avail rest c n :
  agrees avail (drop c rest) -> (n <= length avail)%nat -> (c + n <= length rest)%nat ->
  take c rest ++ take n avail = take (c + n) rest.
Proof.
  intros Ha Hn Hc. rewrite <- take_take_drop. f_equal.
  rewrite <- (app_nil_r (drop c rest)) in Ha.
  apply (agrees_take _ _ _ n Ha); [done | rewrite length_drop; lia].
Qed.

Lemma payload_ok_mono S S' (ps : list (payload T)) :
  S <= S' -> Forall (payload_ok S) ps -> Forall (payload_ok S') ps.
Proof.
  intros HS Hf. eapply Forall_impl; [exact Hf|]. intros [l|v] [H1 H2]; (split; [done|]); simpl in *; [done | lia].
Qed.

Lemma frames_app a b : frames (a ++ b) = frames a ++ frames b.
Proof. apply bind_app. Qed.

Lemma part_agrees ps c : agrees (part ps c) (frames ps).
Proof.
  destruct ps as [|p ps]; [by exists []|]. exists (drop c (frame p) ++ frames ps). cbn [part].
  by rewrite app_assoc, take_drop.
Qed.

Lemma stream_agrees wd wp wf c : agrees (frames wd ++ part wp c) (frames (wd ++ wp ++ wf)).
Proof.
  destruct (part_agrees wp c) as [f Hf]. exists (f ++ frames wf).
  rewrite !frames_app, <- Hf, <- !app_assoc. done.
Qed.

Lemma seq_split (a n k : nat) :
  (k <= n)%nat -> seq a n = seq a k ++ seq (a + k) (n - k).
Proof. intros. rewrite <- seq_app. f_equal. lia. Qed.

Lemma write_done_seq (wq : list (RingbufferWriteOperation T)) a k n :
  wo_fn_ <$> wq = seq a n -> (k <= n)%nat ->
  write_done <$> take k wq = (fun i => mkWriteCall i kSuccess) <$> seq a k /\
  wo_fn_ <$> drop k wq = seq (a + k) (n - k).
Proof.
  intros Hs Hk. split.
  - assert (wo_fn_ <$> take k wq = seq a k) as <-; [|by rewrite <- list_fmap_compose].
    rewrite fmap_take, Hs, (seq_split a n k) by done.
    rewrite take_app_le, take_ge by (rewrite length_seq; lia). done.
  - rewrite fmap_drop, Hs, (seq_split a n k) by done.
    rewrite drop_app_le, drop_ge by (rewrite length_seq; lia). done.
Qed.

Lemma read_fns_seq (rq : list (RingbufferReadOperation T)) a k n :
  ro_fn_ <$> rq = seq a n -> (k <= n)%nat ->
  ro_fn_ <$> take k rq = seq a k /\ ro_fn_ <$> drop k rq = seq (a + k) (n - k).
Proof.
  intros Hs Hk. rewrite fmap_take, fmap_drop, Hs, (seq_split a n k) by done. split.
  - rewrite take_app_le, take_ge by (rewrite length_seq; lia). done.
  - rewrite drop_app_le, drop_ge by (rewrite length_seq; lia). done.
Qed.

Lemma new_write_fresh p fn : wr_fresh (new_write p fn) p.
Proof.
  destruct p as [l|v]; split; try done.
  simpl. rewrite enc_size_spec. done.
Qed.

Lemma new_write_fn (p : payload T) fn : wo_fn_ (new_write p fn) = fn.
Proof. by destruct p. Qed.

Lemma new_read_fn rq fn : ro_fn_ (T := T) (new_read rq fn) = fn.
Proof. by destruct rq. Qed.

Lemma wq_rel_snoc wq ps c o p :
  wq_rel wq ps c -> wr_fresh o p -> wq_rel (wq ++ [o]) (ps ++ [p]) c.
Proof.
  intros Hq Ho. destruct wq as [|o1 wq], ps as [|p1 ps]; try done; simpl in *.
  - subst c. split; [by left|]. split; [lia | done].
  - destruct Hq as (Hr & Hc & Hf). split; [done|]. split; [done|]. by apply Forall2_app; [|constructor].
Qed.

Lemma rq_rel_snoc rq ps c o p :
  rq_rel rq ps c -> rd_fresh o p -> rq_rel (rq ++ [o]) (ps ++ [p]) c.
Proof.
  intros Hq Ho. destruct rq as [|o1 rq], ps as [|p1 ps]; try done; simpl in *.
  - subst c. split; [by left|]. split; [lia | done].
  - destruct Hq as (Hr & Hc & Hf). split; [done|]. split; [done|]. by apply Forall2_app; [|constructor].
Qed.

Lemma part_snoc (ps : list (payload T)) p c :
  (ps = [] -> c = 0%nat) -> part (ps ++ [p]) c = part ps c.
Proof. destruct ps; simpl; [intros ->; done | done]. Qed.

Lemma queue_next (P a b r : list (payload T)) p (n : nat) :
  P = a ++ b ++ r -> n = (length a + length b)%nat -> P !! n = Some p ->
  exists r', r = p :: r' /\ P = a ++ (b ++ [p]) ++ r'.
Proof.
  intros HPe -> Hp. rewrite HPe, app_assoc, lookup_app_r in Hp by (rewrite length_app; lia).
  rewrite length_app, Nat.sub_diag in Hp. destruct r as [|p' r]; [done|]. simpl in Hp. simplify_eq.
  exists r. split; [done|]. by rewrite <- app_assoc.
Qed.

Lemma part_lt wq wp wf c p rest :
  wq_rel wq wp c -> wp ++ wf = p :: rest -> (length (part wp c) < length (frame p))%nat.
Proof.
  intros Hq He. destruct wp as [|p' wp]; cbn [part wq_rel app] in *.
  - rewrite frame_length. simpl. lia.
  - destruct wq; [done|]. destruct Hq as (_ & Hc & _). injection He as -> _.
    rewrite length_take. lia.
Qed.

Lemma prefix_shorter {A} (a b l : list A) :
  a `prefix_of` l -> b `prefix_of` l -> (length a <= length b)%nat -> a `prefix_of` b.
Proof.
  intros Ha Hb Hl. destruct (prefix_weak_total a b l Ha Hb) as [|[k ->]]; [done|].
  rewrite length_app in Hl. destruct k; [by rewrite app_nil_r | simpl in Hl; lia].
Qed.

Lemma rd_rel_pos o p c : rd_rel o p c ->
  c = 0%nat \/ (4 <= c)%nat /\ match p with PObject _ => c = 4%nat | PBytes _ => True end.
Proof.
  intros [[_ ->]|(k & Hg & ->)]; [by left|right]. split; [lia|].
  destruct p; [done|]. destruct (rg_kind _ _ _ Hg) as [-> _]. done.
Qed.

Lemma wr_rel_pos o p c : wr_rel o p c ->
  c = 0%nat \/ (4 <= c)%nat /\ match p with PObject _ => c = 4%nat | PBytes _ => True end.
Proof.
  intros [[_ ->]|(k & Hg & ->)]; [by left|right]. split; [lia|].
  destruct p; [done|]. destruct (wg_kind _ _ _ Hg) as [_ ->]. done.
Qed.

(** A stuck read lacks some of its frame. *)
Lemma rd_stuck_lt o p c avail :
  rd_rel o p c -> (c < length (frame p))%nat -> rd_stuck p c avail ->
  (length avail < length (frame p) - c)%nat.
Proof.
  intros Hr Hc. rewrite frame_length in *. unfold rd_stuck.
  destruct (rd_rel_pos _ _ _ Hr) as [->|[H4 Hp]]; [rewrite decide_True by done; lia|].
  rewrite decide_False by lia. destruct p; simpl in *; [lia|]. subst. lia.
Qed.

(** Both ends cannot be stuck on the same message. *)
Lemma not_both_stuck o1 o2 p c c' avail room S :
  wr_rel o1 p c -> rd_rel o2 p c' -> payload_ok S p -> 4 <= S ->
  Z.of_nat c = Z.of_nat c' + Z.of_nat (length avail) -> room = S - Z.of_nat (length avail) ->
  wr_stuck p c room -> rd_stuck p c' avail -> False.
Proof.
  intros Hw Hr [_ Hok] HS Hav Hroom. unfold wr_stuck, rd_stuck.
  destruct (wr_rel_pos _ _ _ Hw) as [->|[H4 Hp]], (rd_rel_pos _ _ _ Hr) as [->|[H4' Hp']];
    repeat case_decide; try lia; destruct p; simpl in *; lia.
Qed.

Lemma quiescent_cases B wq rq W t wd wp wf rd rp rf c c' room S :
  wd ++ wp ++ wf = rd ++ rp ++ rf -> (length rd <= length wd)%nat ->
  wq_rel wq wp c -> rq_rel rq rp c' ->
  W = frames wd ++ part wp c -> take t W = frames rd ++ part rp c' -> (t <= length W)%nat ->
  Forall (payload_ok B) rp -> 4 <= B <= S ->
  room = Z.of_nat t + S - Z.of_nat (length W) ->
  w_head_stuck wp c room -> r_head_stuck rp c' (drop t W) ->
  rp = [] \/ (length rd = length wd /\ wp = []).
Proof.
  intros HP2 Hlen Hwq Hrq HW Ht Htle Hok HS Hroom Hws Hrs.
  destruct rp as [|p rp]; [by left|]. destruct rq as [|o rq]; [done|].
  destruct Hrq as (Hr & Hc' & _). cbn [r_head_stuck part] in *.
  pose proof (f_equal length Ht) as Hl. rewrite length_take, length_app, length_take in Hl.
  assert (length (drop t W) = length W - t)%nat as Hav by apply length_drop.
  pose proof (rd_stuck_lt _ _ _ _ Hr Hc' Hrs) as Hlt.
  assert (rd `prefix_of` wd) as [ext Hext].
  { apply (prefix_shorter _ _ (wd ++ wp ++ wf)); [rewrite HP2; by eexists | by eexists | done]. }
  rewrite Hext, <- app_assoc in HP2. apply app_inv_head in HP2.
  assert (length W = (length (frames wd) + length (part wp c))%nat) as HlW by (by rewrite HW, length_app).
  destruct ext as [|p' ext].
  - rewrite app_nil_r in Hext. subst wd. destruct wp as [|p' wp]; [by right|]. exfalso.
    simpl in HP2. injection HP2 as -> _. destruct wq as [|o' wq]; [done|].
    destruct Hwq as (Hw & Hc & _). cbn [w_head_stuck part] in *. rewrite length_take in HlW.
    apply Forall_inv in Hok.
    apply (not_both_stuck o' o p c c' (drop t W) room S Hw Hr); [| | lia | lia | done | done].
    + destruct Hok as [H1 H2]. split; [done|]. destruct p; [done | lia].
    + lia.
  - exfalso. simpl in HP2. injection HP2 as -> _.
    rewrite Hext, frames_app, frames_cons, !length_app in HlW. lia.
Qed.

(** A read is of the right kind for the message it will get. *)
Definition read_fits (rq : read_request) (p : payload T) : bool :=
  match rq, p with
  | RqAuto, PBytes _ => true
  | RqBuffer mem len, PBytes l => (len =? payload_len p) && (length mem =? length l)%nat
  | RqNop, PObject _ => true
  | _, _ => false
  end.

Lemma read_fits_fresh rq p fn : read_fits rq p = true -> rd_fresh (new_read rq fn) p.
Proof.
  destruct rq, p; simpl; intros Hfit; try done; bool_hyps; split; simpl; try done; eauto.
  split; [done|]. intros _. split; [done|]. by apply Nat.eqb_eq.
Qed.
End queues.
