(* ===== verification/StreamOps.v ===== *)
(** * Framed messages over a stream of bytes

    Models [common/stream_read_write_ops.h]: a message goes through a stream as
    its length, a [size_t] (little-endian here), followed by its bytes.  The
    stream hands over what has arrived in pieces of any size; a read operation
    says where the next piece has to go and counts what came.

    The libuv transport drives these operations. *)

From S2P Require Import Prelude Nop.

(** ** [size_t] in memory *)

Fixpoint le_bytes (n : nat) (z : Z) : list Z :=
  match n with 0%nat => [] | S n => z mod 256 :: le_bytes n (z / 256) end.
Fixpoint of_le_bytes (l : list Z) : Z :=
  match l with [] => 0 | b :: l => b + 256 * of_le_bytes l end.

Definition sizeof_size_t : Z := 8.
Definition le64 (z : Z) : list Z := le_bytes 8 z.

Lemma le_bytes_length n z : length (le_bytes n z) = n.
Proof. revert z. induction n as [|n IH]; intros z; simpl; [done | by rewrite IH]. Qed.

Lemma of_le_bytes_le_bytes n z : 0 <= z < 256 ^ Z.of_nat n -> of_le_bytes (le_bytes n z) = z.
Proof.
  revert z. induction n as [|n IH]; intros z Hz; [change (256 ^ Z.of_nat 0) with 1 in Hz; simpl; lia|].
  rewrite Nat2Z.inj_succ, Z.pow_succ_r in Hz by lia. cbn [le_bytes of_le_bytes]. rewrite IH.
  - pose proof (Z.div_mod z 256). lia.
  - split; [apply Z.div_pos; lia | apply Z.div_lt_upper_bound; lia].
Qed.

Definition is_byte (b : Z) : Prop := 0 <= b < 256.

Lemma le_bytes_range n z : Forall is_byte (le_bytes n z).
Proof. revert z. induction n as [|n IH]; intros z; constructor; [apply Z.mod_pos_bound; lia | done]. Qed.

Lemma le_bytes_of_le_bytes l : Forall is_byte l -> le_bytes (length l) (of_le_bytes l) = l.
Proof.
  induction 1 as [|b l Hb _ IH]; [done|]. unfold is_byte in Hb. simpl. f_equal.
  - rewrite (Z.mul_comm 256), Z.mod_add by lia. apply Z.mod_small. lia.
  - rewrite (Z.mul_comm 256), Z.div_add, (Z.div_small b) by lia. by rewrite Z.add_0_l.
Qed.

(** ** Reads *)

Inductive Mode := READ_LENGTH | READ_PAYLOAD | COMPLETE.
#[export] Instance Mode_eq_dec : EqDecision Mode.
Proof. solve_decision. Defined.

(** Where a piece has to go: to some offset of [readLength_] or of [ptr_], and
    how much room there is. *)
Inductive area_base := InReadLength | InPtr.
Record area := mkArea { ar_base : area_base; ar_offset : Z; ar_len : Z }.

Section read.
Context {Fn : Type}.

(** [sr_ptr_] is the memory at [ptr_], [None] for a null pointer; it also stands
    for [buffer_], which is where [ptr_] points if no memory was given. *)
Record StreamReadOperation := mkStreamRead {
  sr_mode_ : Mode;
  sr_ptr_ : option (list Z);
  sr_givenLength_ : option Z;
  sr_readLength_ : Z;
  sr_bytesRead_ : Z;
  sr_fn_ : Fn;
}.
#[export] Instance eta_StreamReadOperation : Eta StreamReadOperation := fun o =>
  mkStreamRead (sr_mode_ o) (sr_ptr_ o) (sr_givenLength_ o) (sr_readLength_ o) (sr_bytesRead_ o) (sr_fn_ o).

Definition newStreamRead (fn : Fn) : StreamReadOperation := mkStreamRead READ_LENGTH None None 0 0 fn.
Definition newStreamReadBuffer (ptr : option (list Z)) (length : Z) (fn : Fn) : StreamReadOperation :=
  mkStreamRead READ_LENGTH ptr (Some length) 0 0 fn.

Definition has_ptr (o : StreamReadOperation) : bool := bool_decide (is_Some (sr_ptr_ o)).

Definition allocFromLoop (o : StreamReadOperation) : outcome area :=
  match sr_mode_ o with
  | READ_LENGTH =>
      _ ← tp_check (sr_bytesRead_ o <? sizeof_size_t);
      Done (mkArea InReadLength (sr_bytesRead_ o) (sizeof_size_t - sr_bytesRead_ o))
  | READ_PAYLOAD =>
      _ ← tp_check (sr_bytesRead_ o <? sr_readLength_ o);
      _ ← tp_check (has_ptr o);
      Done (mkArea InPtr (sr_bytesRead_ o) (sr_readLength_ o - sr_bytesRead_ o))
  | COMPLETE => Throw ExAssert
  end.

(** What the stream does with an area it was given: it stores bytes there. *)
Definition fill (a : area) (bytes : list Z) (o : StreamReadOperation) : outcome StreamReadOperation :=
  match ar_base a with
  | InReadLength =>
      mem ← store (Some (ar_offset a)) bytes (le64 (sr_readLength_ o));
      Done (o <| sr_readLength_ := of_le_bytes mem |>)
  | InPtr =>
      match sr_ptr_ o with
      | Some mem => mem ← store (Some (ar_offset a)) bytes mem; Done (o <| sr_ptr_ := Some mem |>)
      | None => Throw ExDangling
      end
  end.

(** The end of the [READ_LENGTH] part of [readFromLoop]. *)
Definition length_read (o : StreamReadOperation) : outcome StreamReadOperation :=
  o ← (match sr_givenLength_ o with
       | Some n =>
           _ ← tp_check (has_ptr o || (n =? 0));
           _ ← tp_check (sr_readLength_ o =? n);
           Done o
       | None =>
           _ ← tp_check (negb (has_ptr o));
           Done (o <| sr_ptr_ := Some (replicate (Z.to_nat (sr_readLength_ o)) 0) |>)
       end);
  Done (o <| sr_mode_ := if sr_readLength_ o =? 0 then COMPLETE else READ_PAYLOAD |> <| sr_bytesRead_ := 0 |>).

Definition readFromLoop (nread : Z) (o : StreamReadOperation) : outcome StreamReadOperation :=
  let o := o <| sr_bytesRead_ := u64 (sr_bytesRead_ o + nread) |> in
  match sr_mode_ o with
  | READ_LENGTH =>
      _ ← tp_check (sr_bytesRead_ o <=? sizeof_size_t);
      if sr_bytesRead_ o =? sizeof_size_t then length_read o else Done o
  | READ_PAYLOAD =>
      _ ← tp_check (sr_bytesRead_ o <=? sr_readLength_ o);
      Done (if sr_bytesRead_ o =? sr_readLength_ o then o <| sr_mode_ := COMPLETE |> else o)
  | COMPLETE => Throw ExAssert
  end.

Definition completeFromLoop (o : StreamReadOperation) : bool :=
  match sr_mode_ o with COMPLETE => true | _ => false end.
End read.
Arguments StreamReadOperation : clear implicits.

(** ** Writes *)

Section write.
Context {Fn : Type}.

(** [sw_ptr_] is the memory at [ptr_]. *)
Record StreamWriteOperation := mkStreamWrite { sw_ptr_ : list Z; sw_length_ : Z; sw_fn_ : Fn }.

(** The bytes of the buffers, the first of which is the field [length_] itself. *)
Definition getBufs (o : StreamWriteOperation) : list (list Z) :=
  let bufs := [le64 (sw_length_ o); take (Z.to_nat (sw_length_ o)) (sw_ptr_ o)] in
  take (if sw_length_ o =? 0 then 1 else 2) bufs.
End write.
Arguments StreamWriteOperation : clear implicits.

(** ** What goes through the stream *)

Definition stream_frame (l : list Z) : list Z := le64 (Z.of_nat (length l)) ++ l.

#[global] Arguments stream_frame : simpl never.

Lemma stream_frame_length l : length (stream_frame l) = (8 + length l)%nat.
Proof. done. Qed.

Lemma getBufs_frame {Fn} (l : list Z) (fn : Fn) :
  concat (getBufs (mkStreamWrite l (Z.of_nat (length l)) fn)) = stream_frame l.
Proof.
  unfold getBufs, stream_frame. simpl. rewrite Nat2Z.id, firstn_all.
  destruct l as [|b l]; [done|]. rewrite (proj2 (Z.eqb_neq _ 0)) by (simpl; lia). simpl. by rewrite app_nil_r.
Qed.

Section spec.
Context {Fn : Type}.

(** The read is of the right kind for [l]: memory of the right length, or none. *)
Definition stream_fits (ptr : option (list Z)) (given : option Z) (l : list Z) : Prop :=
  match given with
  | Some n => n = Z.of_nat (length l) /\
      match ptr with Some mem => length mem = length l | None => n = 0 end
  | None => ptr = None
  end.

(** [o] has taken the first [c] bytes of the frame of [l]. *)
Definition stream_at (o : StreamReadOperation Fn) (l : list Z) (c : nat) : Prop :=
  match sr_mode_ o with
  | READ_LENGTH =>
      (c < 8)%nat /\ sr_bytesRead_ o = Z.of_nat c /\ stream_fits (sr_ptr_ o) (sr_givenLength_ o) l /\
      take c (le64 (sr_readLength_ o)) = take c (le64 (Z.of_nat (length l)))
  | READ_PAYLOAD =>
      (8 <= c < 8 + length l)%nat /\ sr_bytesRead_ o = Z.of_nat (c - 8) /\
      sr_readLength_ o = Z.of_nat (length l) /\
      exists mem, sr_ptr_ o = Some mem /\ length mem = length l /\ take (c - 8) mem = take (c - 8) l
  | COMPLETE =>
      c = (8 + length l)%nat /\ sr_readLength_ o = Z.of_nat (length l) /\ default [] (sr_ptr_ o) = l
  end.

Lemma stream_at_fresh ptr given (fn : Fn) l :
  stream_fits ptr given l -> stream_at (mkStreamRead READ_LENGTH ptr given 0 0 fn) l 0.
Proof. intros Hf. split; [lia|]. by split_and!. Qed.

Lemma stream_at_le o l c : stream_at o l c -> (c <= 8 + length l)%nat.
Proof. unfold stream_at. destruct (sr_mode_ o); intros H; destruct_and! H; lia. Qed.

(** The room an operation offers ends with the length or with the message. *)
Definition stream_room (l : list Z) (c : nat) : nat := if decide (c < 8)%nat then 8 - c else 8 + length l - c.

Lemma alloc_ok o l c :
  stream_at o l c -> (c < 8 + length l)%nat ->
  exists a, allocFromLoop o = Done a /\ ar_len a = Z.of_nat (stream_room l c).
Proof.
  unfold stream_at, allocFromLoop, stream_room, sizeof_size_t. intros Ho Hc. destruct (sr_mode_ o).
  - destruct Ho as (H8 & Hb & _). rewrite Hb, tp_check_bind by (apply Z.ltb_lt; lia).
    eexists. split; [done|]. rewrite decide_True by done. simpl. lia.
  - destruct Ho as (H8 & Hb & Hl & mem & Hm & _). rewrite Hb, Hl, tp_check_bind by (apply Z.ltb_lt; lia).
    unfold has_ptr. rewrite tp_check_bind by (apply bool_decide_eq_true; by rewrite Hm).
    eexists. split; [done|]. rewrite decide_False by lia. simpl. lia.
  - destruct Ho. lia.
Qed.

Lemma store_at off bytes mem :
  (off + length bytes <= length mem)%nat ->
  store (Some (Z.of_nat off)) bytes mem = Done (take off mem ++ bytes ++ drop (off + length bytes) mem).
Proof.
  intros Hl. destruct bytes as [|b bytes]; [simpl; by rewrite Nat.add_0_r, take_drop|]. unfold store.
  rewrite (proj2 (Z.leb_le 0 _)), (proj2 (Z.leb_le _ _)) by lia. cbn [andb]. f_equal. rewrite Nat2Z.id.
  apply list_eq. intros j. destruct (decide (off <= j < off + length (b :: bytes))%nat) as [Hj|Hj].
  - rewrite list_lookup_inserts by lia. rewrite lookup_app_r by (rewrite length_take; lia).
    rewrite length_take_le by lia. by rewrite lookup_app_l by lia.
  - destruct (decide (j < off)%nat).
    + rewrite list_lookup_inserts_lt by lia.
      by rewrite lookup_app_l, lookup_take_lt by (rewrite ?length_take; lia).
    + rewrite list_lookup_inserts_ge by lia. rewrite !lookup_app_r by (rewrite length_take; lia).
      rewrite length_take_le, lookup_drop by lia. f_equal. lia.
Qed.

Lemma take_stored off bytes (mem l : list Z) :
  (off <= length mem)%nat -> take off mem = take off l -> bytes `prefix_of` drop off l ->
  take (off + length bytes) (take off mem ++ bytes ++ drop (off + length bytes) mem) = take (off + length bytes) l.
Proof.
  intros Hl Ht [rest Hr]. rewrite app_assoc, take_app_le by (rewrite length_app, length_take; lia).
  rewrite take_ge by (rewrite length_app, length_take; lia).
  rewrite <- take_take_drop, Hr, take_app_length. by rewrite Ht.
Qed.

#[local] Ltac steps := repeat first [progress simpl | rewrite bind_done].

(** What the stream and the connection do with a piece that arrived. *)
Definition take_piece (bytes : list Z) (o : StreamReadOperation Fn) : outcome (StreamReadOperation Fn) :=
  a ← allocFromLoop o; o ← fill a bytes o; readFromLoop (Z.of_nat (length bytes)) o.

Lemma header_piece o l c bytes :
  stream_at o l c -> (c < 8)%nat -> bytes `prefix_of` drop c (le64 (Z.of_nat (length l))) ->
  Z.of_nat (length l) < 2 ^ 63 ->
  exists o', take_piece bytes o = Done o' /\ stream_at o' l (c + length bytes) /\ sr_fn_ o' = sr_fn_ o.
Proof.
  intros Ho Hc Hp Hl. destruct o as [md ptr given rl br fn]. unfold stream_at in Ho. simpl in Ho.
  destruct md; [|lia|lia]. destruct Ho as (_ & -> & Hf & Ht).
  assert (length (le64 rl) = 8%nat) as H8 by apply le_bytes_length.
  assert (length (le64 (Z.of_nat (length l))) = 8%nat) as H8' by apply le_bytes_length.
  assert (c + length bytes <= 8)%nat as Hcb.
  { destruct Hp as [r Hr]. apply (f_equal length) in Hr. rewrite length_drop, length_app in Hr. lia. }
  set (mem := take c (le64 rl) ++ bytes ++ drop (c + length bytes) (le64 rl)).
  assert (take (c + length bytes) mem = take (c + length bytes) (le64 (Z.of_nat (length l)))) as Hmem
    by (apply take_stored; [lia | done | done]).
  assert (length mem = 8%nat) as Hm8.
  { unfold mem. rewrite !length_app, length_take, length_drop. lia. }
  assert (le64 (of_le_bytes mem) = mem) as Hid.
  { unfold le64. rewrite <- Hm8 at 1. apply le_bytes_of_le_bytes. unfold mem. rewrite !Forall_app. split_and!.
    - apply Forall_take, le_bytes_range.
    - destruct Hp as [r Hr]. assert (Forall is_byte (bytes ++ r)) as Hb by (rewrite <- Hr; apply Forall_drop, le_bytes_range).
      by apply Forall_app in Hb as [? _].
    - apply Forall_drop, le_bytes_range. }
  unfold take_piece, allocFromLoop, fill, readFromLoop, sizeof_size_t. simpl.
  rewrite (proj2 (Z.ltb_lt _ _)) by lia. steps. rewrite store_at by lia. fold mem. steps.
  rewrite u64_small by (unfold is_u64; lia). rewrite <- Nat2Z.inj_add, (proj2 (Z.leb_le _ _)) by lia. steps.
  destruct (Z.eqb_spec (Z.of_nat (c + length bytes)) 8) as [He|He].
  - assert (c + length bytes = 8)%nat as E by lia. rewrite E in *.
    rewrite !take_ge in Hmem by lia.
    assert (of_le_bytes mem = Z.of_nat (length l)) as ->.
    { rewrite Hmem. apply of_le_bytes_le_bytes. change (256 ^ Z.of_nat 8) with (2 ^ 64). lia. }
    unfold length_read, has_ptr. simpl. unfold stream_fits in Hf.
    destruct given as [n|].
    + destruct Hf as [-> Hptr]. rewrite Z.eqb_refl. destruct ptr as [m|].
      * rewrite bool_decide_eq_true_2 by done. steps.
        eexists. split; [done|]. split; [|done]. unfold stream_at. simpl.
        destruct (Z.eqb_spec (Z.of_nat (length l)) 0) as [Hz|Hz].
        -- split_and!; [lia | done|]. destruct l; [|simpl in Hz; lia]. by destruct m.
        -- split_and!; [lia | lia | done | done|]. exists m. by split_and!.
      * rewrite Hptr. steps.
        eexists. split; [done|]. split; [|done]. unfold stream_at. simpl. destruct l; [done | simpl in Hptr; lia].
    + subst ptr. steps. eexists. split; [done|]. split; [|done]. unfold stream_at. simpl.
      rewrite Nat2Z.id. destruct (Z.eqb_spec (Z.of_nat (length l)) 0) as [Hz|Hz].
      * split_and!; [lia | done|]. by destruct l; [|simpl in Hz; lia].
      * split_and!; [lia | lia | done | done|]. eexists. split; [done|]. by rewrite length_replicate.
  - eexists. split; [done|]. split; [|done]. unfold stream_at. simpl. split_and!; [lia | lia | done|].
    by rewrite Hid.
Qed.

Lemma payload_piece o l c bytes :
  stream_at o l c -> (8 <= c < 8 + length l)%nat -> bytes `prefix_of` drop (c - 8) l ->
  Z.of_nat (length l) < 2 ^ 63 ->
  exists o', take_piece bytes o = Done o' /\ stream_at o' l (c + length bytes) /\ sr_fn_ o' = sr_fn_ o.
Proof.
  intros Ho Hc Hp Hl. destruct o as [md ptr given rl br fn]. unfold stream_at in Ho. simpl in Ho.
  destruct md; [lia| |lia]. destruct Ho as (_ & -> & -> & m & -> & Hm & Ht).
  assert (c - 8 + length bytes <= length l)%nat as Hcb.
  { destruct Hp as [r Hr]. apply (f_equal length) in Hr. rewrite length_drop, length_app in Hr. lia. }
  set (mem := take (c - 8) m ++ bytes ++ drop (c - 8 + length bytes) m).
  assert (take (c - 8 + length bytes) mem = take (c - 8 + length bytes) l) as Hmem
    by (apply take_stored; [lia | done | done]).
  assert (length mem = length l) as Hm8.
  { unfold mem. rewrite !length_app, length_take, length_drop. lia. }
  unfold take_piece, allocFromLoop, fill, readFromLoop, has_ptr. simpl.
  rewrite (proj2 (Z.ltb_lt _ _)) by lia. steps. rewrite store_at by lia. fold mem. steps.
  rewrite u64_small by (unfold is_u64; lia). rewrite <- Nat2Z.inj_add, (proj2 (Z.leb_le _ _)) by lia. steps.
  eexists. split; [done|]. unfold stream_at.
  destruct (Z.eqb_spec (Z.of_nat (c - 8 + length bytes)) (Z.of_nat (length l))) as [He|He]; simpl; (split; [|done]).
  - split_and!; [lia | done|]. rewrite !take_ge in Hmem by lia. done.
  - split_and!; [lia | lia | lia | done|]. exists mem. split_and!; [done | done|].
    by replace (c + length bytes - 8)%nat with (c - 8 + length bytes)%nat by lia.
Qed.

(** A piece of the frame, of any size up to the room offered, is taken in. *)
Lemma piece_ok o l c bytes :
  stream_at o l c -> (c < 8 + length l)%nat -> bytes `prefix_of` drop c (stream_frame l) ->
  (length bytes <= stream_room l c)%nat -> Z.of_nat (length l) < 2 ^ 63 ->
  exists o', take_piece bytes o = Done o' /\ stream_at o' l (c + length bytes) /\ sr_fn_ o' = sr_fn_ o.
Proof.
  intros Ho Hc Hp Hb Hl. unfold stream_room in Hb. unfold stream_frame in Hp.
  assert (length (le64 (Z.of_nat (length l))) = 8%nat) as H8 by apply le_bytes_length.
  case_decide as Hd.
  - apply header_piece; try done. rewrite drop_app_le in Hp by lia.
    destruct Hp as [r Hr]. exists (take (8 - c - length bytes) r).
    apply (f_equal (take (8 - c))) in Hr. rewrite take_app_le in Hr by (rewrite length_drop; lia).
    rewrite take_ge in Hr by (rewrite length_drop; lia). rewrite Hr, take_app_ge by lia. done.
  - apply payload_piece; try done; [lia|]. rewrite drop_app_ge in Hp by lia. by rewrite H8 in Hp.
Qed.
End spec.
