(* ===== verification/UvConnection.v ===== *)
(** * Connections of the libuv transport

    Models [transport/uv/connection_impl.cc], the handle of [transport/uv/uv.h]
    it drives and the operations of [transport/connection_impl_boilerplate.h].
    libuv is a parameter: the return codes of its functions ([Libuv]), which
    depend on whether the handle is reading or closing, and the calls of its
    callbacks, which are the steps of [UvWorld]. *)

From S2P Require Import Prelude RingBuffer Nop RingbufferOps StreamOps.

(** What is asked of libuv. *)
Inductive uv_request :=
| RqTcpInit
| RqTcpNodelay
| RqTcpConnect (addr : string)
| RqReadStart
| RqReadStop
| RqWrite (bufs : list (list Z)).

(** The return code for a request on a handle that is reading and closing or not. *)
Class Libuv := uv_rv : bool -> bool -> uv_request -> Z.

(** libuv documents that [uv_read_start] fails with [UV_EALREADY] or [UV_EINVAL]
    if the handle is reading or closing, and that [uv_read_stop] always succeeds. *)
Definition uv_allowed (reading closing : bool) (r : uv_request) : bool :=
  match r with
  | RqReadStart => negb reading && negb closing
  | RqReadStop => true
  | RqWrite _ => negb closing
  | _ => false
  end.
Class LibuvLaws `{!Libuv} : Prop :=
  uv_succeeds : forall reading closing r, uv_allowed reading closing r = true -> 0 <= uv_rv reading closing r.

(** [UVError]. *)
Definition uv_error (status : Z) : Error := OtherError (Z.to_nat (- status)).

(** ** The handle *)

(** Which callbacks are armed, and what libuv was asked to do. *)
Record TCPHandle := mkHandle {
  closeCallback_ : bool;
  allocCallback_ : bool;
  readCallback_ : bool;
  uv_reading : bool;
  uv_closing : bool;
}.
#[export] Instance eta_TCPHandle : Eta TCPHandle := fun h =>
  mkHandle (closeCallback_ h) (allocCallback_ h) (readCallback_ h) (uv_reading h) (uv_closing h).
Definition newTCPHandle : TCPHandle := mkHandle false false false false false.

(** [EvRead] and [EvReadNop] are calls of the user's read callbacks, with the
    memory at the pointer they are given and a length, or with the object read. *)
Section connection.
Context {T : Type} `{!NopEncoding T, !Libuv}.

Inductive event :=
| EvRead (fn : nat) (e : Error) (ptr : option (list Z)) (len : Z)
| EvReadNop (fn : nat) (e : Error) (object : option T)
| EvWrite (fn : nat) (e : Error)
| EvUv (r : uv_request)
| EvUvClose
| EvEnroll
| EvUnenroll.
Local Abbreviation handled := (outcome (TCPHandle * list event)).

(** The return code of a request; a negative one throws. *)
Definition uv (r : uv_request) (h : TCPHandle) : outcome (list event) :=
  _ ← throw_system_if_neg (uv_rv (uv_reading h) (uv_closing h) r);
  Done [EvUv r].

Definition armCloseCallbackFromLoop (h : TCPHandle) : outcome TCPHandle :=
  _ ← tp_check (negb (closeCallback_ h)); Done (h <| closeCallback_ := true |>).
Definition armAllocCallbackFromLoop (h : TCPHandle) : outcome TCPHandle :=
  _ ← tp_check (negb (allocCallback_ h)); Done (h <| allocCallback_ := true |>).
Definition armReadCallbackFromLoop (h : TCPHandle) : outcome TCPHandle :=
  _ ← tp_check (negb (readCallback_ h)); Done (h <| readCallback_ := true |>).

Definition handle_closeFromLoop (h : TCPHandle) : handled :=
  _ ← tp_check (negb (uv_closing h));
  Done (h <| uv_closing := true |>, [EvUvClose]).

Definition handle_initFromLoop (h : TCPHandle) : outcome (list event) :=
  evs1 ← uv RqTcpInit h; evs2 ← uv RqTcpNodelay h; Done (evs1 ++ evs2).

Definition connectFromLoop (addr : string) (h : TCPHandle) : outcome (list event) := uv (RqTcpConnect addr) h.

Definition readStartFromLoop (h : TCPHandle) : handled :=
  _ ← tp_check (allocCallback_ h);
  _ ← tp_check (readCallback_ h);
  evs ← uv RqReadStart h; Done (h <| uv_reading := true |>, evs).

Definition readStopFromLoop (h : TCPHandle) : handled :=
  evs ← uv RqReadStop h; Done (h <| uv_reading := false |>, evs).

Definition handle_writeFromLoop (bufs : list (list Z)) (h : TCPHandle) : outcome (list event) :=
  uv (RqWrite bufs) h.

(** ** The connection *)

(** A read callback is the user's, or the one that the boilerplate wraps around
    the user's to read an object. *)
Inductive read_fn := FnUser (fn : nat) | FnNop (fn : nat).
Definition fn_of (f : read_fn) : nat := match f with FnUser n | FnNop n => n end.

Record ConnectionImpl := mkConn {
  error_ : Error;
  handle_ : TCPHandle;
  sockaddr_ : option string;
  readOperations_ : list (StreamReadOperation read_fn);
  writeOperations_ : list (StreamWriteOperation nat);
}.
#[export] Instance eta_ConnectionImpl : Eta ConnectionImpl := fun c =>
  mkConn (error_ c) (handle_ c) (sockaddr_ c) (readOperations_ c) (writeOperations_ c).
Definition newConnection (addr : option string) : ConnectionImpl := mkConn kSuccess newTCPHandle addr [] [].
Local Abbreviation result := (outcome (ConnectionImpl * list event)).

(** [StreamReadOperation::callbackFromLoop], and the callback it calls. *)
Definition call_read (f : read_fn) (e : Error) (ptr : option (list Z)) (len : Z) : outcome (list event) :=
  match f with
  | FnUser n => Done [EvRead n e ptr len]
  | FnNop n =>
      if is_error e then Done [EvReadNop n e None]
      else
        '(status, _) ← run_read enc_Read (default [] ptr)
                         (newNopReader (mkBuffer ((fun _ => 0) <$> ptr) len) (mkBuffer None 0));
        match status with
        | inl v => Done [EvReadNop n e (Some v)]
        | inr NopOk => Done [EvReadNop n e None]
        | inr _ => Throw ExAssert
        end
  end.
Definition read_callback (e : Error) (o : StreamReadOperation read_fn) : outcome (list event) :=
  call_read (sr_fn_ o) e (sr_ptr_ o) (sr_readLength_ o).
Definition write_callback (e : Error) (o : StreamWriteOperation nat) : event := EvWrite (sw_fn_ o) e.

(** The loop of [handleErrorImpl]. *)
Fixpoint fail_reads (e : Error) (ops : list (StreamReadOperation read_fn)) : outcome (list event) :=
  match ops with
  | [] => Done []
  | o :: ops => evs1 ← read_callback e o; evs2 ← fail_reads e ops; Done (evs1 ++ evs2)
  end.

Definition handleErrorImpl (c : ConnectionImpl) : result :=
  evs1 ← fail_reads (error_ c) (readOperations_ c);
  '(h, evs2) ← handle_closeFromLoop (handle_ c);
  Done (c <| readOperations_ := [] |> <| handle_ := h |>, evs1 ++ evs2).

Definition setError (e : Error) (c : ConnectionImpl) : result :=
  if is_error (error_ c) || negb (is_error e) then Done (c, [])
  else handleErrorImpl (c <| error_ := e |>).

Definition closeFromLoop (c : ConnectionImpl) : result := setError ConnectionClosedError c.

Definition initImplFromLoop (contextClosed : bool) (c : ConnectionImpl) : result :=
  evs ← (match sockaddr_ c with
         | Some addr =>
             _ ← tp_check (negb contextClosed);
             evs1 ← handle_initFromLoop (handle_ c);
             evs2 ← connectFromLoop addr (handle_ c);
             Done (evs1 ++ evs2)
         | None => Done []
         end);
  h ← armCloseCallbackFromLoop (handle_ c);
  h ← armAllocCallbackFromLoop h;
  h ← armReadCallbackFromLoop h;
  Done (c <| handle_ := h |>, EvEnroll :: evs).

Definition initFromLoop (contextClosed : bool) (c : ConnectionImpl) : result :=
  if contextClosed then Done (c <| error_ := ConnectionClosedError |>, [])
  else initImplFromLoop contextClosed c.

(** *** Requests of the user *)

(** The three overloads of [read]. *)
Inductive read_request :=
| RqAuto
| RqNop
| RqBuffer (ptr : option (list Z)) (length : Z).

Definition new_read (rq : read_request) (fn : nat) : StreamReadOperation read_fn :=
  match rq with
  | RqAuto => newStreamRead (FnUser fn)
  | RqNop => newStreamRead (FnNop fn)
  | RqBuffer ptr length => newStreamReadBuffer ptr length (FnUser fn)
  end.

Definition readImplFromLoop (o : StreamReadOperation read_fn) (c : ConnectionImpl) : result :=
  let c := c <| readOperations_ ::= fun ops => ops ++ [o] |> in
  if (length (readOperations_ c) =? 1)%nat then
    '(h, evs) ← readStartFromLoop (handle_ c); Done (c <| handle_ := h |>, evs)
  else Done (c, []).

Definition readFromLoop (rq : read_request) (fn : nat) (c : ConnectionImpl) : result :=
  if is_error (error_ c) then
    Done (c, match rq with
             | RqAuto => [EvRead fn (error_ c) None 0]
             | RqNop => [EvReadNop fn (error_ c) None]
             | RqBuffer ptr length => [EvRead fn (error_ c) ptr length]
             end)
  else readImplFromLoop (new_read rq fn) c.

Definition writeImplFromLoop (ptr : list Z) (length : Z) (fn : nat) (c : ConnectionImpl) : result :=
  let o := mkStreamWrite ptr length fn in
  let c := c <| writeOperations_ ::= fun ops => ops ++ [o] |> in
  evs ← handle_writeFromLoop (getBufs o) (handle_ c);
  Done (c, evs).

(** The overload for objects serializes into a buffer that is as large as the
    object says; its first contents do not matter, they are taken to be zeros. *)
Definition writeObjectFromLoop (v : T) (fn : nat) (c : ConnectionImpl) : result :=
  let len := enc_Size v in
  '(status, mem, _) ← run_write (enc_Write v) (replicate (Z.to_nat len) 0)
                        (newNopWriter (mkBuffer (Some 0) len) (mkBuffer None 0));
  _ ← tp_check (bool_decide (status = NopOk));
  writeImplFromLoop mem len fn c.

Definition writeFromLoop (p : payload T) (fn : nat) (c : ConnectionImpl) : result :=
  if is_error (error_ c) then Done (c, [EvWrite fn (error_ c)])
  else match p with
       | PBytes l => writeImplFromLoop l (Z.of_nat (length l)) fn c
       | PObject v => writeObjectFromLoop v fn c
       end.

(** *** Callbacks of libuv *)

Definition connectCallback (status : Z) (c : ConnectionImpl) : result :=
  if status <? 0 then setError (uv_error status) c else Done (c, []).

Definition allocCallbackFromLoop (c : ConnectionImpl) : outcome area :=
  match readOperations_ c with
  | [] => Throw ExAssert
  | o :: _ => allocFromLoop o
  end.

Definition readCallbackFromLoop (nread : Z) (c : ConnectionImpl) : result :=
  if nread <? 0 then setError (uv_error nread) c
  else match readOperations_ c with
  | [] => Throw ExAssert
  | o :: ops =>
      o ← StreamOps.readFromLoop nread o;
      if completeFromLoop o then
        evs ← read_callback kSuccess o;
        let c := c <| readOperations_ := ops |> in
        match ops with
        | [] => '(h, evs') ← readStopFromLoop (handle_ c); Done (c <| handle_ := h |>, evs ++ evs')
        | _ => Done (c, evs)
        end
      else Done (c <| readOperations_ := o :: ops |>, [])
  end.

Definition writeCallbackFromLoop (status : Z) (c : ConnectionImpl) : result :=
  '(c, evs) ← (if status <? 0 then setError (uv_error status) c else Done (c, []));
  match writeOperations_ c with
  | [] => Throw ExAssert
  | o :: ops => Done (c <| writeOperations_ := ops |>, evs ++ [write_callback (error_ c) o])
  end.

Definition closeCallbackFromLoop (c : ConnectionImpl) : result :=
  _ ← tp_check (bool_decide (writeOperations_ c = []));
  Done (c, [EvUnenroll]).

(** [uvAllocCb] and [uvReadCb], with the bytes that libuv stores in between. *)
Definition uv_read (bytes : list Z) (c : ConnectionImpl) : result :=
  _ ← tp_check (allocCallback_ (handle_ c));
  a ← allocCallbackFromLoop c;
  match readOperations_ c with
  | [] => Throw ExAssert
  | o :: ops =>
      o ← fill a bytes o;
      _ ← tp_check (readCallback_ (handle_ c));
      readCallbackFromLoop (Z.of_nat (length bytes)) (c <| readOperations_ := o :: ops |>)
  end.
Definition uv_read_error (status : Z) (c : ConnectionImpl) : result :=
  _ ← tp_check (readCallback_ (handle_ c));
  readCallbackFromLoop status c.
(** [uvCloseCb]. *)
Definition uv_closed (c : ConnectionImpl) : result :=
  if closeCallback_ (handle_ c) then closeCallbackFromLoop c else Done (c, []).
End connection.
Arguments event T : clear implicits.
