(* ===== verification/UvWorld.v ===== *)
(** * A connection of the libuv transport and what surrounds it

    The world of one connection: a user who reads, writes and closes, and libuv,
    which calls the callbacks of the handle as it documents.  The bytes that
    arrive are those of a list of messages, cut into pieces in any way. *)

From S2P Require Import Prelude RingBuffer Nop RingbufferOps StreamOps UvConnection.

(** ** What happened *)

(** Calls of the user's callbacks; the data of a read that failed is of no use. *)
Definition seen_read {T} (ev : event T) : option (read_call T) :=
  match ev with
  | EvRead fn e ptr len =>
      Some (mkReadCall fn e (if is_error e then [] else take (Z.to_nat len) (default [] ptr)) None)
  | EvReadNop fn e object => Some (mkReadCall fn e [] object)
  | _ => None
  end.
Definition seen_write {T} (ev : event T) : option write_call :=
  match ev with EvWrite fn e => Some (mkWriteCall fn e) | _ => None end.
Definition seen_request {T} (ev : event T) : option (list (list Z)) :=
  match ev with EvUv (RqWrite bufs) => Some bufs | _ => None end.
Definition is_unenroll {T} (ev : event T) : option unit :=
  match ev with EvUnenroll => Some tt | _ => None end.

Definition uv_reads {T} (evs : list (event T)) : list (read_call T) := omap seen_read evs.
Definition uv_writes {T} (evs : list (event T)) : list write_call := omap seen_write evs.
Definition uv_requests {T} (evs : list (event T)) : list (list (list Z)) := omap seen_request evs.
(** The bytes given to libuv. *)
Definition uv_out {T} (evs : list (event T)) : list Z := uv_requests evs ≫= (@concat Z).

Section world.
Context {T : Type} `{!NopEncoding T, !Libuv}.

(** [uw_writes] write requests are outstanding; [uw_in] is what has arrived;
    [uw_reads] reads were asked for, and the messages [uw_sent] written. *)
Record UvWorld := mkUvWorld {
  uw_conn : ConnectionImpl;
  uw_connecting : bool;
  uw_writes : nat;
  uw_closed : bool;
  uw_in : list Z;
  uw_log : list (event T);
  uw_reads : nat;
  uw_sent : list (payload T);
}.
#[export] Instance eta_UvWorld : Eta UvWorld := fun w =>
  mkUvWorld (uw_conn w) (uw_connecting w) (uw_writes w) (uw_closed w) (uw_in w) (uw_log w) (uw_reads w) (uw_sent w).

Inductive uv_step_event :=
| UwRead (rq : read_request)
| UwWrite (p : payload T)
| UwClose
| UwConnected (status : Z)
| UwData (bytes : list Z)
| UwReadError (status : Z)
| UwWritten (status : Z)
| UwClosed.

Definition advance (w : UvWorld) (c : ConnectionImpl) (evs : list (event T)) : UvWorld :=
  w <| uw_conn := c |> <| uw_log ::= fun log => log ++ evs |>
    <| uw_writes ::= fun n => (n + length (uv_requests evs))%nat |>.
Definition uw_after (w : UvWorld) (m : outcome (ConnectionImpl * list (event T))) : outcome UvWorld :=
  '(c, evs) ← m; Done (advance w c evs).

Definition uv_step (w : UvWorld) (ev : uv_step_event) : outcome UvWorld :=
  let c := uw_conn w in
  match ev with
  | UwRead rq => uw_after (w <| uw_reads ::= S |>) (readFromLoop rq (uw_reads w) c)
  | UwWrite p => uw_after (w <| uw_sent ::= fun l => l ++ [p] |>) (writeFromLoop p (length (uw_sent w)) c)
  | UwClose => uw_after w (closeFromLoop c)
  | UwConnected status => uw_after (w <| uw_connecting := false |>) (connectCallback status c)
  | UwData bytes => uw_after (w <| uw_in ::= fun l => l ++ bytes |>) (uv_read bytes c)
  | UwReadError status => uw_after w (uv_read_error status c)
  | UwWritten status => uw_after (w <| uw_writes ::= pred |>) (writeCallbackFromLoop status c)
  | UwClosed => uw_after (w <| uw_closed := true |>) (uv_closed c)
  end.

(** The connection was given a handle by a listener, or connects to an address. *)
Definition uv_start (contextClosed : bool) (addr : option string) : outcome UvWorld :=
  uw_after (mkUvWorld (newConnection addr) (negb contextClosed && bool_decide (is_Some addr)) 0 false [] [] 0 [])
    (initFromLoop contextClosed (newConnection addr)).

(** ** What the peer sends *)

Definition sframes (ps : list (payload T)) : list Z := ps ≫= fun p => stream_frame (payload_bytes p).

(** The read is of the right kind for the message: an object is read as an
    object, memory as memory, and a buffer has the right size. *)
Definition uv_fits (rq : read_request) (p : payload T) : Prop :=
  match rq, p with
  | RqAuto, PBytes _ | RqNop, PObject _ => True
  | RqBuffer ptr len, PBytes l => stream_fits ptr (Some len) l
  | _, _ => False
  end.

(** What libuv may do.  It reads only while it was asked to, into no more than
    the area it was given; every write request is called back once, in order,
    with [UV_ECANCELED] when the handle is closed; and the close callback comes
    after all of them. *)
Definition uv_event_ok (P : list (payload T)) (w : UvWorld) (ev : uv_step_event) : Prop :=
  let h := handle_ (uw_conn w) in
  match ev with
  | UwRead rq => forall p, P !! uw_reads w = Some p -> uv_fits rq p
  | UwWrite p => payload_len p < 2 ^ 63
  | UwClose => True
  | UwConnected _ => uw_connecting w = true
  | UwData bytes =>
      uv_reading h = true /\ uv_closing h = false /\ uw_in w ++ bytes `prefix_of` sframes P /\
      forall a, allocCallbackFromLoop (uw_conn w) = Done a -> Z.of_nat (length bytes) <= ar_len a
  | UwReadError status => uv_reading h = true /\ uv_closing h = false /\ status < 0
  | UwWritten _ => (0 < uw_writes w)%nat
  | UwClosed => uv_closing h = true /\ uw_writes w = 0%nat /\ uw_connecting w = false /\ uw_closed w = false
  end.

Inductive uv_reach (P : list (payload T)) : UvWorld -> Prop :=
| uv_reach_start contextClosed addr w : uv_start contextClosed addr = Done w -> uv_reach P w
| uv_reach_step w ev w' : uv_reach P w -> uv_event_ok P w ev -> uv_step w ev = Done w' -> uv_reach P w'.
End world.
Arguments UvWorld T : clear implicits.
Arguments uv_step_event T : clear implicits.

(** ** The invariant *)

Section invariant.
Context {T : Type} `{!NopEncoding T, !NopEncodingLaws T, !Libuv, !LibuvLaws}.
Variable P : list (payload T).

Definition op_kind (o : StreamReadOperation read_fn) (p : payload T) : Prop :=
  match sr_fn_ o, p with FnUser _, PBytes _ | FnNop _, PObject _ => True | _, _ => False end.
Definition op_fresh (o : StreamReadOperation read_fn) : Prop :=
  sr_mode_ o = READ_LENGTH /\ sr_readLength_ o = 0 /\ sr_bytesRead_ o = 0.
Definition op_waits (o : StreamReadOperation read_fn) (mp : option (payload T)) : Prop :=
  op_fresh o /\ forall p, mp = Some p -> op_kind o p /\ stream_fits (sr_ptr_ o) (sr_givenLength_ o) (payload_bytes p).
(** The operation at the front has taken [c] bytes of its message. *)
Definition op_front (o : StreamReadOperation read_fn) (mp : option (payload T)) (c : nat) : Prop :=
  match mp with
  | Some p => op_kind o p /\ stream_at o (payload_bytes p) c /\ (c < 8 + length (payload_bytes p))%nat
  | None => op_fresh o /\ c = 0%nat
  end.

(** [k] messages have been received. *)
Definition queue_ok (k c : nat) (ops : list (StreamReadOperation read_fn)) : Prop :=
  match ops with
  | [] => c = 0%nat
  | o :: ops => op_front o (P !! k) c /\ forall i o', ops !! i = Some o' -> op_waits o' (P !! (k + S i)%nat)
  end.
Definition arrived (k c : nat) : list Z :=
  sframes (take k P) ++ take c (default [] ((fun p => stream_frame (payload_bytes p)) <$> P !! k)).

Record handle_side (w : UvWorld T) : Prop := {
  hs_live : is_error (error_ (uw_conn w)) = false ->
    handle_ (uw_conn w) = mkHandle true true true (bool_decide (readOperations_ (uw_conn w) <> [])) false;
  hs_dead : is_error (error_ (uw_conn w)) = true -> readOperations_ (uw_conn w) = [] /\
    (handle_ (uw_conn w) = newTCPHandle \/
     closeCallback_ (handle_ (uw_conn w)) = true /\ uv_closing (handle_ (uw_conn w)) = true);
  hs_closed : length (omap is_unenroll (uw_log w)) = if uw_closed w then 1%nat else 0%nat;
}.

Definition answers (k : nat) : list (read_call T) := zip_with expected_call (seq 0 k) (take k P).

Record read_side (w : UvWorld T) : Prop := {
  rs_live : is_error (error_ (uw_conn w)) = false -> exists k c,
    (k <= length P)%nat /\ uv_reads (uw_log w) = answers k /\ uw_in w = arrived k c /\
    queue_ok k c (readOperations_ (uw_conn w)) /\ (k + length (readOperations_ (uw_conn w)) = uw_reads w)%nat /\
    (fn_of ∘ sr_fn_) <$> readOperations_ (uw_conn w) = seq k (length (readOperations_ (uw_conn w)));
  rs_dead : is_error (error_ (uw_conn w)) = true -> exists k failed,
    (k <= length P)%nat /\ (k <= uw_reads w)%nat /\ uv_reads (uw_log w) = answers k ++ failed /\
    rc_fn <$> failed = seq k (uw_reads w - k) /\ Forall (fun r => is_error (rc_error r) = true) failed;
}.

Definition write_done (i : nat) : write_call := mkWriteCall i kSuccess.

Record write_side (w : UvWorld T) : Prop := {
  ws_count : uw_writes w = length (writeOperations_ (uw_conn w));
  ws_live : is_error (error_ (uw_conn w)) = false -> exists m,
    uv_writes (uw_log w) = write_done <$> seq 0 m /\
    (m + length (writeOperations_ (uw_conn w)) = length (uw_sent w))%nat /\
    sw_fn_ <$> writeOperations_ (uw_conn w) = seq m (length (writeOperations_ (uw_conn w)));
  ws_once : (wc_fn <$> uv_writes (uw_log w)) ++ (sw_fn_ <$> writeOperations_ (uw_conn w)) ≡ₚ
            seq 0 (length (uw_sent w));
  ws_out : exists j, (j <= length (uw_sent w))%nat /\ uv_out (uw_log w) = sframes (take j (uw_sent w)) /\
    (is_error (error_ (uw_conn w)) = false -> j = length (uw_sent w));
}.

Record uv_inv (w : UvWorld T) : Prop := {
  ui_handle : handle_side w;
  ui_read : read_side w;
  ui_write : write_side w;
}.

(** ** Events that concern one side *)

Definition no_write_events (evs : list (event T)) : Prop :=
  uv_writes evs = [] /\ uv_requests evs = [] /\ omap is_unenroll evs = [].

Lemma advance_nil (w : UvWorld T) : advance w (uw_conn w) [] = w.
Proof. destruct w. unfold advance, field_update. simpl. by rewrite app_nil_r, Nat.add_0_r. Qed.

Lemma uv_out_app (l1 l2 : list (event T)) : uv_out (l1 ++ l2) = uv_out l1 ++ uv_out l2.
Proof. unfold uv_out, uv_requests. by rewrite omap_app, bind_app. Qed.

Lemma uv_reads_app (l1 l2 : list (event T)) : uv_reads (l1 ++ l2) = uv_reads l1 ++ uv_reads l2.
Proof. apply omap_app. Qed.
Lemma uv_writes_app (l1 l2 : list (event T)) : uv_writes (l1 ++ l2) = uv_writes l1 ++ uv_writes l2.
Proof. apply omap_app. Qed.

(** [w'] comes after [w] and [evs]. *)
Record follows (w w' : UvWorld T) (evs : list (event T)) : Prop := {
  fo_log : uw_log w' = uw_log w ++ evs;
  fo_writes : uw_writes w' = (uw_writes w + length (uv_requests evs))%nat;
}.

(** A step that leaves the writes alone. *)
Lemma write_side_kept (w w' : UvWorld T) evs :
  write_side w -> follows w w' evs -> no_write_events evs -> uw_sent w' = uw_sent w ->
  writeOperations_ (uw_conn w') = writeOperations_ (uw_conn w) ->
  (is_error (error_ (uw_conn w')) = false -> is_error (error_ (uw_conn w)) = false) -> write_side w'.
Proof.
  intros [Hc Hl Ho (j & Hj & Hout & Hje)] [Hlog Hwr] (Hw & Hr & _) Hs Hops He.
  split; rewrite ?Hlog, ?Hwr, ?Hs, ?Hops, ?uv_writes_app, ?Hw, ?Hr, ?app_nil_r, ?Nat.add_0_r; auto.
  exists j. rewrite uv_out_app. unfold uv_out at 2. rewrite Hr, app_nil_r. auto.
Qed.

(** A step that leaves the reads alone. *)
Lemma read_side_kept (w w' : UvWorld T) evs :
  read_side w -> follows w w' evs -> uv_reads evs = [] -> uw_in w' = uw_in w -> uw_reads w' = uw_reads w ->
  readOperations_ (uw_conn w') = readOperations_ (uw_conn w) ->
  is_error (error_ (uw_conn w')) = is_error (error_ (uw_conn w)) -> read_side w'.
Proof.
  intros [Hl Hd] [Hlog _] Hr Hi Hrd Hops He.
  split; rewrite He, Hlog, Hrd, ?Hi, uv_reads_app, Hr, app_nil_r, ?Hops; auto.
Qed.

Lemma handle_side_kept (w w' : UvWorld T) evs :
  handle_side w -> follows w w' evs -> omap is_unenroll evs = [] -> uw_closed w' = uw_closed w ->
  readOperations_ (uw_conn w') = readOperations_ (uw_conn w) ->
  handle_ (uw_conn w') = handle_ (uw_conn w) ->
  is_error (error_ (uw_conn w')) = is_error (error_ (uw_conn w)) -> handle_side w'.
Proof.
  intros [Hl Hd Hc] [Hlog _] Hr Hcl Hops Hh He. split; rewrite ?He, ?Hh, ?Hops, ?Hlog, ?Hcl; try done.
  by rewrite omap_app, Hr, app_nil_r.
Qed.

(** ** Errors *)

Lemma call_read_error f e ptr len : is_error e = true ->
  exists ev r, call_read (T := T) f e ptr len = Done [ev] /\ seen_read ev = Some r /\
    rc_fn r = fn_of f /\ rc_error r = e /\ no_write_events [ev].
Proof. intros He. destruct f as [n|n]; simpl; rewrite ?He; eexists _, _; by split_and!. Qed.

Lemma fail_reads_ok e ops : is_error e = true ->
  exists evs, fail_reads (T := T) e ops = Done evs /\ rc_fn <$> uv_reads evs = (fn_of ∘ sr_fn_) <$> ops /\
    Forall (fun r => is_error (rc_error r) = true) (uv_reads evs) /\ no_write_events evs.
Proof.
  intros He. induction ops as [|o ops (evs & Hf & Hfn & Hall & Hq1 & Hq2 & Hq3)]; [by eexists|].
  destruct (call_read_error (sr_fn_ o) e (sr_ptr_ o) (sr_readLength_ o) He)
    as (ev & r & Hr & Hs & Hrf & Hre & Hw & Hq & Hu).
  exists (ev :: evs). cbn [fail_reads]. unfold read_callback. rewrite Hr, bind_done, Hf, bind_done.
  split; [done|]. unfold uv_reads, no_write_events, uv_writes, uv_requests in *.
  change (ev :: evs) with ([ev] ++ evs). rewrite !omap_app, Hw, Hq, Hu. cbn [omap list_omap]. rewrite Hs.
  split_and!; [| |done..].
  - cbn [app fmap list_fmap]. by rewrite Hrf, Hfn.
  - constructor; [by rewrite Hre | done].
Qed.

Lemma uv_setError_ok (w : UvWorld T) e : uv_inv w -> is_error e = true ->
  exists c evs, setError e (uw_conn w) = Done (c, evs) /\ uv_inv (advance w c evs) /\
    is_error (error_ c) = true /\ writeOperations_ c = writeOperations_ (uw_conn w) /\ uv_requests evs = [].
Proof.
  intros Hi He. pose proof Hi as [[Hhl Hhd Hhc] [Hrl Hrd] Hw]. unfold setError.
  destruct (is_error (error_ (uw_conn w))) eqn:Hc; simpl.
  { exists (uw_conn w), []. by rewrite advance_nil. }
  rewrite He. simpl. unfold handleErrorImpl. simpl.
  destruct (fail_reads_ok e (readOperations_ (uw_conn w)) He) as (evs & Hf & Hfn & Hall & Hq).
  rewrite Hf, bind_done, (Hhl eq_refl). unfold handle_closeFromLoop. simpl.
  destruct (Hrl eq_refl) as (k & n & Hk & Hr & _ & _ & Hn & Hfns).
  assert (no_write_events (evs ++ [EvUvClose])) as Hq'.
  { destruct Hq as (H1 & H2 & H3). unfold no_write_events, uv_writes, uv_requests in *.
    by rewrite !omap_app, H1, H2, H3. }
  assert (uv_reads (evs ++ [EvUvClose]) = uv_reads evs) as Hre by (rewrite uv_reads_app; apply app_nil_r).
  eexists _, _. split; [done|]. split_and!; [|done | done | apply Hq'].
  split.
  - split; simpl; [by rewrite He | intros _; split; [done | by right]|].
    destruct Hq' as (_ & _ & H3). by rewrite omap_app, H3, app_nil_r.
  - split; simpl; [by rewrite He|]. intros _. exists k, (uv_reads evs).
    rewrite uv_reads_app, Hre, Hr, Hfn, Hfns. split_and!; [done | lia | done | f_equal; lia | done].
  - by eapply (write_side_kept w).
Qed.

(** ** The queue of reads *)

Lemma waits_front o mp : op_waits o mp -> op_front o mp 0.
Proof.
  intros [Hf Hp]. destruct mp as [p|]; [|done]. destruct (Hp p eq_refl) as [Hk Hs]. destruct Hf as (Hm & _ & Hb).
  split; [done|]. split; [|lia]. unfold stream_at. rewrite Hm, Hb. split_and!; [lia | done | done | done].
Qed.

Lemma queue_push k c ops o :
  queue_ok k c ops -> op_waits o (P !! (k + length ops)%nat) -> queue_ok k c (ops ++ [o]).
Proof.
  destruct ops as [|o0 ops]; simpl.
  - intros -> Hw. rewrite Nat.add_0_r in Hw. split; [by apply waits_front | by intros ? ? ?].
  - intros [Hf Hq] Hw. split; [done|]. intros i o' [Ho|[Hi Ho]]%lookup_app_Some; [by apply Hq|].
    apply list_lookup_singleton_Some in Ho as [Hi' <-]. by replace i with (length ops) by lia.
Qed.

Lemma queue_pop k c o ops : queue_ok k c (o :: ops) -> queue_ok (S k) 0 ops.
Proof.
  intros [_ Hq]. destruct ops as [|o' ops]; [done|]. split.
  - apply waits_front. specialize (Hq 0%nat o' eq_refl). by rewrite Nat.add_1_r in Hq.
  - intros i o'' Ho. replace (S k + S i)%nat with (k + S (S i))%nat by lia. by apply Hq.
Qed.

Lemma new_read_waits rq fn mp : (forall p, mp = Some p -> uv_fits rq p) -> op_waits (new_read rq fn) mp.
Proof.
  intros Hf. split; [by destruct rq|]. intros p Hp. specialize (Hf p Hp).
  by destruct rq as [| |ptr len], p as [l|v].
Qed.

Lemma uv_new_read_fn rq fn : fn_of (sr_fn_ (new_read rq fn)) = fn.
Proof. by destruct rq. Qed.

(** ** What arrives *)

Lemma sframes_app ps qs : sframes (T := T) (ps ++ qs) = sframes ps ++ sframes qs.
Proof. apply bind_app. Qed.

Lemma sframes_cons p ps : sframes (T := T) (p :: ps) = stream_frame (payload_bytes p) ++ sframes ps.
Proof. done. Qed.

Lemma sframes_take_S (ps : list (payload T)) k p :
  ps !! k = Some p -> length (sframes (take (S k) ps)) = (length (sframes (take k ps)) + (8 + length (payload_bytes p)))%nat.
Proof.
  intros Hp. by rewrite (take_S_r _ _ _ Hp), sframes_app, length_app, sframes_cons, app_nil_r, stream_frame_length.
Qed.

Lemma arrived_more k c p bytes :
  P !! k = Some p -> bytes `prefix_of` drop c (stream_frame (payload_bytes p)) ->
  (c <= 8 + length (payload_bytes p))%nat ->
  arrived k c ++ bytes = arrived k (c + length bytes).
Proof.
  intros Hp [r Hr] Hc. unfold arrived. rewrite Hp. simpl. rewrite <- app_assoc. f_equal.
  by rewrite <- take_take_drop, Hr, take_app_length.
Qed.

Lemma arrived_next k p : P !! k = Some p -> arrived k (8 + length (payload_bytes p)) = arrived (S k) 0.
Proof.
  intros Hp. unfold arrived. rewrite Hp, (take_S_r _ _ _ Hp), sframes_app. cbn [fmap option_fmap option_map default].
  unfold id at 1. rewrite (take_ge (stream_frame _)) by (by rewrite stream_frame_length). rewrite take_0, app_nil_r.
  unfold sframes at 3. simpl. by rewrite app_nil_r.
Qed.

(** Bytes that arrive belong to the message at the front. *)
Lemma arrived_front k c bytes :
  arrived k c ++ bytes `prefix_of` sframes P -> (c <= 8 + length (default [] (payload_bytes <$> P !! k)))%nat ->
  match P !! k with
  | Some p => (length bytes <= 8 + length (payload_bytes p) - c)%nat ->
      bytes `prefix_of` drop c (stream_frame (payload_bytes p))
  | None => (k <= length P)%nat -> bytes = []
  end.
Proof.
  intros [r Hr] Hc. unfold arrived in Hr. destruct (P !! k) as [p|] eqn:Hp.
  - intros Hb.
    assert (sframes P = sframes (take k P) ++ stream_frame (payload_bytes p) ++ sframes (drop (S k) P)) as HP
      by (rewrite <- (take_drop_middle P k p Hp) at 1; by rewrite sframes_app).
    rewrite HP in Hr. rewrite <- !app_assoc in Hr. apply app_inv_head in Hr.
    cbn [fmap option_fmap option_map] in Hr. cbv beta delta [default from_option id] in Hr.
    rewrite <- (take_drop c (stream_frame (payload_bytes p))) in Hr at 1. rewrite <- app_assoc in Hr.
    apply app_inv_head in Hr. exists (take (8 + length (payload_bytes p) - c - length bytes) r).
    apply (f_equal (take (8 + length (payload_bytes p) - c))) in Hr.
    assert (length (drop c (stream_frame (payload_bytes p))) = 8 + length (payload_bytes p) - c)%nat as Hl
      by (by rewrite length_drop, stream_frame_length).
    rewrite take_app_le, take_ge in Hr by lia. rewrite Hr, take_app_ge by lia. done.
  - intros Hk. apply lookup_ge_None in Hp. rewrite take_ge in Hr by done.
    apply (f_equal length) in Hr. rewrite !length_app in Hr. destruct bytes; [done | simpl in *; lia].
Qed.

(** ** A piece of data *)

Lemma fresh_piece o : op_fresh o -> take_piece [] o = Done o.
Proof.
  destruct o as [md ptr given rl br fn]. intros (Hm & Hr & Hb). simpl in *. subst. by vm_compute.
Qed.

Hypothesis small : Forall (fun p => payload_len p < 2 ^ 63) P.

Lemma data_ok k c o ops bytes a :
  queue_ok k c (o :: ops) -> (k <= length P)%nat -> arrived k c ++ bytes `prefix_of` sframes P ->
  allocFromLoop o = Done a -> Z.of_nat (length bytes) <= ar_len a ->
  exists o', take_piece bytes o = Done o' /\ sr_fn_ o' = sr_fn_ o /\
    if completeFromLoop o' then
      exists p, P !! k = Some p /\ op_kind o' p /\ stream_at o' (payload_bytes p) (8 + length (payload_bytes p)) /\
        arrived k c ++ bytes = arrived (S k) 0
    else arrived k c ++ bytes = arrived k (c + length bytes) /\ queue_ok k (c + length bytes) (o' :: ops).
Proof.
  intros [Hf Hq] Hk Hpre Ha Hlen. destruct (P !! k) as [p|] eqn:Hp; simpl in Hf.
  - destruct Hf as (Hkind & Hat & Hc).
    destruct (alloc_ok _ _ _ Hat Hc) as (a' & Ha' & Hl). rewrite Ha in Ha'. apply done_inj in Ha' as <-.
    rewrite Hl in Hlen. apply Nat2Z.inj_le in Hlen.
    pose proof (arrived_front k c bytes Hpre) as Hb. rewrite Hp in Hb. simpl in Hb.
    assert (stream_room (payload_bytes p) c <= 8 + length (payload_bytes p) - c)%nat as Hroom
      by (unfold stream_room; case_decide; lia).
    specialize (Hb ltac:(lia) ltac:(lia)).
    assert (payload_len p < 2 ^ 63) as Hsm by (by eapply (proj1 (Forall_lookup _ _) small k)).
    destruct (piece_ok o (payload_bytes p) c bytes Hat Hc Hb Hlen Hsm) as (o' & Ht & Hat' & Hfn).
    exists o'. split; [done|]. split; [done|]. pose proof (arrived_more k c p bytes Hp Hb ltac:(lia)) as Harr.
    assert (op_kind o' p) as Hkind' by (unfold op_kind in *; by rewrite Hfn).
    pose proof (stream_at_le _ _ _ Hat') as Hle.
    unfold completeFromLoop. destruct (sr_mode_ o') eqn:Hm'.
    + split; [done|]. split; [|done]. rewrite Hp. split_and!; [done | done|]. unfold stream_at in Hat'.
      rewrite Hm' in Hat'. lia.
    + split; [done|]. split; [|done]. rewrite Hp. split_and!; [done | done|]. unfold stream_at in Hat'.
      rewrite Hm' in Hat'. lia.
    + exists p. assert (c + length bytes = 8 + length (payload_bytes p))%nat as E
        by (unfold stream_at in Hat'; rewrite Hm' in Hat'; lia).
      rewrite E in *. split_and!; [done | done | done|]. by rewrite Harr, arrived_next.
  - destruct Hf as [Hf ->]. pose proof (arrived_front k 0 bytes Hpre) as Hb. rewrite Hp in Hb.
    specialize (Hb ltac:(lia) Hk). subst bytes. exists o. split; [by apply fresh_piece|]. split; [done|].
    pose proof Hf as (Hm & _). unfold completeFromLoop. rewrite Hm, app_nil_r. split; [done|].
    split; [|done]. by rewrite Hp.
Qed.

(** The callback of a complete read gets its message. *)
Lemma complete_call o p :
  op_kind o p -> completeFromLoop o = true -> stream_at o (payload_bytes p) (8 + length (payload_bytes p)) ->
  payload_len p < 2 ^ 63 ->
  exists ev, read_callback kSuccess o = Done [ev] /\ seen_read ev = Some (expected_call (fn_of (sr_fn_ o)) p) /\
    no_write_events [ev].
Proof.
  unfold op_kind, completeFromLoop, stream_at, read_callback. intros Hk Hm Hat Hs.
  destruct (sr_mode_ o); try done. destruct Hat as (_ & Hl & Hd). rewrite Hl.
  destruct (sr_fn_ o) as [n|n], p as [l|v]; try done; cbn [call_read is_error payload_bytes] in *.
  - eexists. split; [done|]. split; [|done]. unfold seen_read. cbn [is_error]. by rewrite Hd, Nat2Z.id, firstn_all.
  - assert (exists r, run_read enc_Read (default [] (sr_ptr_ o))
        (newNopReader (mkBuffer ((fun _ => 0) <$> sr_ptr_ o) (Z.of_nat (length (enc_bytes v)))) (mkBuffer None 0))
        = Done (inl v, r)) as (r & Hr).
    { destruct (run_read_flat enc_Read (default [] (sr_ptr_ o))
        (newNopReader (mkBuffer ((fun _ => 0) <$> sr_ptr_ o) (Z.of_nat (length (enc_bytes v)))) (mkBuffer None 0))
        (enc_bytes v) (inl v) []) as (r & Hr & _); [|apply enc_roundtrip | by exists r].
      exists (enc_bytes v), []. rewrite app_nil_r. split_and!; try done; [|unfold payload_len in Hs; simpl in Hs; lia].
      unfold load. simpl. rewrite Hd. destruct (Z.eqb_spec (Z.of_nat (length (enc_bytes v))) 0) as [Hz|Hz].
      - by destruct (enc_bytes v); [|simpl in Hz; lia].
      - destruct (sr_ptr_ o) as [m|]; simpl in *; [|rewrite <- Hd in Hz; simpl in Hz; lia].
        rewrite (proj2 (Z.leb_le _ _)) by lia. by rewrite Nat2Z.id, firstn_all. }
    rewrite Hr, bind_done. eexists. by split_and!.
Qed.
End invariant.
