(* ===== verification/UvTheorems.v ===== *)
(** * What a connection of the libuv transport guarantees

    Every event keeps the invariant of [UvWorld]; the theorems about every
    reachable world, and concrete worlds that they apply to. *)

From S2P Require Import Prelude RingBuffer Nop RingbufferOps StreamOps UvConnection UvWorld.

Section steps.
Context {T : Type} `{!NopEncoding T, !NopEncodingLaws T, !Libuv, !LibuvLaws}.
Variable P : list (payload T).
Hypothesis small : Forall (fun p => payload_len p < 2 ^ 63) P.

Lemma uv_allowed_done r (h : TCPHandle) :
  uv_allowed (uv_reading h) (uv_closing h) r = true -> uv (T := T) r h = Done [EvUv r].
Proof.
  intros Ha. apply uv_succeeds in Ha. unfold uv, throw_system_if_neg.
  by rewrite (proj2 (Z.ltb_ge _ _)) by done.
Qed.

Lemma uv_events r (h : TCPHandle) evs : uv (T := T) r h = Done evs -> evs = [EvUv r].
Proof. unfold uv. intros Hu. inv_bind Hu. by apply done_inj in Hu. Qed.

(** A step whose error comes from [setError]. *)
Lemma error_step (w : UvWorld T) e : uv_inv P w -> is_error e = true ->
  exists w', uw_after w (setError e (uw_conn w)) = Done w' /\ uv_inv P w'.
Proof.
  intros Hi He. destruct (uv_setError_ok P w e Hi He) as (c & evs & Hs & Hi' & _).
  exists (advance w c evs). unfold uw_after. by rewrite Hs.
Qed.

Lemma uv_error_is_error status : is_error (uv_error status) = true.
Proof. done. Qed.

(** ** Requests of the user *)

Lemma read_ok (w : UvWorld T) rq : uv_inv P w -> uv_event_ok P w (UwRead rq) ->
  exists w', uv_step w (UwRead rq) = Done w' /\ uv_inv P w'.
Proof.
  intros [[Hhl Hhd Hhc] [Hrl Hrd] Hw] Hok. cbn [uv_step]. unfold UvConnection.readFromLoop.
  destruct (is_error (error_ (uw_conn w))) eqn:He.
  - destruct (Hrd eq_refl) as (k & failed & Hk & Hkr & Hr & Hfn & Hall).
    assert (exists ev r, (match rq with
             | RqAuto => [EvRead (uw_reads w) (error_ (uw_conn w)) None 0]
             | RqNop => [EvReadNop (uw_reads w) (error_ (uw_conn w)) None]
             | RqBuffer ptr length => [EvRead (uw_reads w) (error_ (uw_conn w)) ptr length]
             end) = [ev] /\ seen_read (T := T) ev = Some r /\ rc_fn r = uw_reads w /\
             rc_error r = error_ (uw_conn w) /\ no_write_events [ev]) as (ev & r & Hev & Hs & Hrf & Hre & Hq).
    { destruct rq; eexists _, _; by split_and!. }
    rewrite Hev. eexists. split; [done|]. split.
    + split; simpl; rewrite ?He; try done. destruct Hq as (_ & _ & Hq). by rewrite omap_app, Hq, app_nil_r.
    + split; simpl; rewrite He; [done|]. intros _. exists k, (failed ++ [r]).
      rewrite uv_reads_app, Hr, app_assoc. split_and!; [done | lia | | |].
      * f_equal. unfold uv_reads. simpl. by rewrite Hs.
      * rewrite fmap_app, Hfn, Nat.sub_succ_l, seq_S by done. simpl. rewrite Hrf. do 2 f_equal. lia.
      * apply Forall_app. split; [done|]. constructor; [by rewrite Hre | done].
    + by eapply (write_side_kept w).
  - destruct (Hrl eq_refl) as (k & c & Hk & Hr & Hin & Hq & Hn & Hfns).
    unfold readImplFromLoop. simpl.
    assert (queue_ok P k c (readOperations_ (uw_conn w) ++ [new_read rq (uw_reads w)])) as Hq'.
    { apply queue_push; [done|]. rewrite Hn. by apply new_read_waits. }
    assert (forall h evs, uv_reads evs = [] -> no_write_events evs -> h = mkHandle true true true true false ->
      uv_inv P (advance (w <| uw_reads ::= S |>) (mkConn (error_ (uw_conn w)) h (sockaddr_ (uw_conn w))
        (readOperations_ (uw_conn w) ++ [new_read rq (uw_reads w)]) (writeOperations_ (uw_conn w))) evs)) as Hinv.
    { intros h evs Hre Hne ->. split.
      - split; simpl; rewrite ?He; [|done|].
        + intros _. rewrite bool_decide_eq_true_2; [done|]. by destruct (readOperations_ (uw_conn w)).
        + destruct Hne as (_ & _ & Hu). by rewrite omap_app, Hu, app_nil_r.
      - split; simpl; rewrite He; [|done]. intros _. exists k, c.
        rewrite uv_reads_app, Hre, app_nil_r, fmap_app, Hfns, length_app. simpl. rewrite Nat.add_1_r, seq_S.
        rewrite uv_new_read_fn. split_and!; try done; [lia|]. by rewrite Hn.
      - by eapply (write_side_kept w). }
    rewrite length_app. simpl. specialize (Hhl eq_refl).
    destruct (decide (readOperations_ (uw_conn w) = [])) as [Hops|Hops].
    + rewrite (proj2 (Nat.eqb_eq _ 1)) by (by rewrite Hops). rewrite bool_decide_eq_false_2 in Hhl by auto.
      unfold readStartFromLoop. rewrite Hhl. simpl. rewrite uv_allowed_done by done. rewrite bind_done. simpl.
      eexists. split; [done|]. by apply Hinv.
    + rewrite (proj2 (Nat.eqb_neq _ 1)) by (destruct (readOperations_ (uw_conn w)); [done | simpl; lia]).
      eexists. split; [done|]. apply (Hinv _ []); try done. rewrite Hhl. by rewrite bool_decide_eq_true_2.
Qed.

Lemma copyIn_whole (src mem : list Z) :
  length mem = length src ->
  copyIn2 (mkBuffer (Some 0) (Z.of_nat (length src)), mkBuffer None 0) src mem = src.
Proof.
  intros Hl. unfold copyIn2, copyIn. simpl. rewrite Nat2Z.id, firstn_all. simpl.
  apply list_eq. intros j. destruct (decide (j < length src)%nat).
  - rewrite list_lookup_inserts by lia. f_equal. lia.
  - by rewrite !lookup_ge_None_2 by (rewrite ?length_inserts; lia).
Qed.

(** A message that is written becomes one request, of its frame. *)
Lemma writeFromLoop_live p fn c :
  is_error (error_ c) = false -> uv_closing (handle_ c) = false -> payload_len p < 2 ^ 63 ->
  exists ptr bufs, writeFromLoop p fn c = Done (c <| writeOperations_ ::= fun ops => ops ++ [mkStreamWrite ptr (payload_len p) fn] |>,
      [EvUv (RqWrite bufs)]) /\ concat bufs = stream_frame (payload_bytes p).
Proof.
  intros He Hc Hp. unfold writeFromLoop. rewrite He.
  assert (forall ptr, ptr = payload_bytes p ->
    writeImplFromLoop (T := T) ptr (payload_len p) fn c = Done (c <| writeOperations_ ::= fun ops => ops ++ [mkStreamWrite ptr (payload_len p) fn] |>,
      [EvUv (RqWrite (getBufs (mkStreamWrite ptr (payload_len p) fn)))])) as Hw.
  { intros ptr ->. unfold writeImplFromLoop, handle_writeFromLoop. by rewrite uv_allowed_done by (simpl; by rewrite Hc). }
  exists (payload_bytes p), (getBufs (mkStreamWrite (payload_bytes p) (payload_len p) fn)).
  split; [|apply getBufs_frame]. destruct p as [l|v]; [by apply Hw|].
  unfold writeObjectFromLoop. rewrite enc_size_spec, Nat2Z.id.
  destruct (run_write_flat (replicate (length (enc_bytes v)) 0) (mkBuffer (Some 0) (Z.of_nat (length (enc_bytes v)))) (mkBuffer None 0))
    with (l := enc_Write v) as (wr & Hrun).
  - split_and!; simpl; try lia; [unfold payload_len in Hp; simpl in Hp; lia|].
    intros _. exists 0. rewrite length_replicate. by split_and!.
  - apply enc_write_ok.
  - simpl. fold (enc_bytes v). lia.
  - rewrite Hrun, bind_done. fold (enc_bytes v). rewrite copyIn_whole by apply length_replicate.
    rewrite bool_decide_eq_true_2 by done. by apply Hw.
Qed.

Lemma write_ok (w : UvWorld T) p : uv_inv P w -> uv_event_ok P w (UwWrite p) ->
  exists w', uv_step w (UwWrite p) = Done w' /\ uv_inv P w'.
Proof.
  intros [Hh Hr [Hc Hl Ho (j & Hj & Hout & Hje)]] Hok. cbn [uv_step uv_event_ok] in *.
  assert (seq 0 (length (uw_sent w ++ [p])) = seq 0 (length (uw_sent w)) ++ [length (uw_sent w)]) as Hseq
    by (rewrite length_app; simpl; by rewrite Nat.add_1_r, seq_S).
  destruct (is_error (error_ (uw_conn w))) eqn:He.
  - unfold writeFromLoop. rewrite He. eexists. split; [done|]. split.
    + by eapply (handle_side_kept w).
    + by eapply (read_side_kept P w).
    + split; simpl; [by rewrite Nat.add_0_r | by rewrite He | |].
      * rewrite uv_writes_app, fmap_app, Hseq, <- Ho. simpl. solve_perm.
      * exists j. rewrite uv_out_app, app_nil_r, length_app, take_app_le, He by done. split_and!; [lia | done | done].
  - destruct (writeFromLoop_live p (length (uw_sent w)) (uw_conn w)) as (ptr & bufs & Hw & Hb); [done| |done|].
    { by rewrite (hs_live w Hh He). }
    rewrite Hw. eexists. split; [done|]. destruct (Hl eq_refl) as (m & Hm1 & Hm2 & Hm3). split.
    + by eapply (handle_side_kept w).
    + by eapply (read_side_kept P w).
    + split; simpl.
      * rewrite length_app. simpl. lia.
      * intros _. exists m. rewrite uv_writes_app, app_nil_r, fmap_app, Hm3, !length_app. simpl.
        rewrite !Nat.add_1_r, seq_S. split_and!; [done | lia|]. do 2 f_equal. lia.
      * rewrite uv_writes_app, app_nil_r, fmap_app, Hseq, <- Ho. by rewrite app_assoc.
      * exists (length (uw_sent w ++ [p])). rewrite firstn_all, uv_out_app, sframes_app, Hout, (Hje eq_refl), firstn_all.
        split_and!; [lia | | done]. f_equal. unfold uv_out, sframes. simpl. by rewrite !app_nil_r, Hb.
Qed.

(** ** Callbacks of libuv *)

Lemma connected_ok (w : UvWorld T) status : uv_inv P w ->
  exists w', uv_step w (UwConnected status) = Done w' /\ uv_inv P w'.
Proof.
  intros [[] [] []]. cbn [uv_step]. unfold connectCallback.
  assert (uv_inv P (w <| uw_connecting := false |>)) as Hi by (by split; split).
  destruct (status <? 0); [exact (error_step (w <| uw_connecting := false |>) (uv_error status) Hi eq_refl)|].
  exists (w <| uw_connecting := false |>). split; [|done].
  exact (f_equal Done (advance_nil (w <| uw_connecting := false |>))).
Qed.

Lemma read_error_ok (w : UvWorld T) status : uv_inv P w -> uv_event_ok P w (UwReadError status) ->
  exists w', uv_step w (UwReadError status) = Done w' /\ uv_inv P w'.
Proof.
  intros Hi (Hr & Hc & Hs). cbn [uv_step]. unfold uv_read_error, readCallbackFromLoop.
  assert (readCallback_ (handle_ (uw_conn w)) = true) as ->.
  { destruct (is_error (error_ (uw_conn w))) eqn:He.
    - destruct (hs_dead w (ui_handle _ _ Hi) He) as (_ & [Hh|[_ Hh]]); [by rewrite Hh in Hr | congruence].
    - by rewrite (hs_live w (ui_handle _ _ Hi) He). }
  simpl. rewrite (proj2 (Z.ltb_lt _ _)) by done. by apply error_step.
Qed.

Lemma closed_ok (w : UvWorld T) : uv_inv P w -> uv_event_ok P w UwClosed ->
  exists w', uv_step w UwClosed = Done w' /\ uv_inv P w'.
Proof.
  intros [[Hhl Hhd Hhc] [Hrl Hrd] Hw] (Hc & Hn & _ & Hcl). cbn [uv_step]. unfold uv_closed, closeCallbackFromLoop.
  destruct (is_error (error_ (uw_conn w))) eqn:He; [|by rewrite Hhl in Hc].
  destruct (Hhd eq_refl) as (Hops & [Hh|[Hh _]]); [by rewrite Hh in Hc|]. rewrite Hh.
  rewrite (ws_count w Hw) in Hn. apply nil_length_inv in Hn. rewrite bool_decide_eq_true_2 by done. simpl.
  eexists. split; [done|]. split.
  - split; simpl; rewrite ?He; try done. rewrite omap_app, length_app, Hhc, Hcl. done.
  - split; simpl; rewrite He; [done|]. by rewrite uv_reads_app, app_nil_r.
  - destruct Hw as [H1 H2 H3 (j & Hj & Hout & Hje)].
    split; simpl; rewrite ?uv_writes_app, ?app_nil_r, ?Nat.add_0_r; try done. exists j. by rewrite uv_out_app, app_nil_r.
Qed.

Lemma written_ok (w : UvWorld T) status : uv_inv P w -> uv_event_ok P w (UwWritten status) ->
  exists w', uv_step w (UwWritten status) = Done w' /\ uv_inv P w'.
Proof.
  intros Hi Hn. cbn [uv_step uv_event_ok] in *. unfold writeCallbackFromLoop.
  assert (exists c evs, (if status <? 0 then setError (uv_error status) (uw_conn w) else Done (uw_conn w, [])) = Done (c, evs) /\
    uv_inv P (advance w c evs) /\ writeOperations_ c = writeOperations_ (uw_conn w) /\ uv_requests evs = []) as
    (c & evs & Hs & Hi1 & Hops & Hq).
  { destruct (status <? 0).
    - destruct (uv_setError_ok P w (uv_error status) Hi eq_refl) as (c & evs & ? & ? & _ & ? & ?). by exists c, evs.
    - exists (uw_conn w), []. by rewrite advance_nil. }
  unfold uw_after. rewrite Hs, bind_done. destruct Hi1 as [Hh Hr [Hc Hl Ho (j & Hj & Hout & Hje)]].
  simpl in Hc, Hl, Ho, Hout, Hje. rewrite Hq, Nat.add_0_r in Hc.
  destruct (writeOperations_ c) as [|o ops]; [rewrite Hc in Hn; simpl in Hn; lia|]. rewrite bind_done.
  eexists. split; [done|].
  assert (follows (advance w c evs) (advance (w <| uw_writes ::= pred |>) (c <| writeOperations_ := ops |>)
    (evs ++ [write_callback (error_ c) o]) <| uw_writes := uw_writes w |>) [write_callback (error_ c) o]) as Hf.
  { split; simpl; [by rewrite app_assoc|]. rewrite Hq. simpl. lia. }
  assert (uv_reads [write_callback (T := T) (error_ c) o] = []) as Hnr by done.
  destruct Hf as [Hlog _]. simpl in Hlog. split.
  - destruct Hh as [A1 A2 A3]. split; [exact A1 | exact A2|]. simpl in *. rewrite Hlog, omap_app, length_app, A3. simpl. lia.
  - destruct Hr as [A1 A2]. split; simpl; rewrite Hlog, uv_reads_app, Hnr, app_nil_r; done.
  - split; simpl in *; rewrite ?Hlog, ?(uv_writes_app (uw_log w ++ evs)).
    + unfold uv_requests in *. rewrite omap_app, Hq, Hc. simpl. lia.
    + intros He. destruct (Hl He) as (m & Hm1 & Hm2 & Hm3). injection Hm3 as Ho1 Ho2. exists (S m).
      rewrite Hm1, seq_S, fmap_app. simpl in *. split_and!; [|lia | done]. f_equal. unfold write_done. rewrite Ho1.
      by destruct (error_ c).
    + rewrite fmap_app. simpl. rewrite <- Ho. solve_perm.
    + exists j. rewrite uv_out_app, Hout, app_nil_r. done.
Qed.

(** [uv_read] gives the piece to the operation at the front. *)
Lemma uv_read_piece (c : ConnectionImpl) o ops bytes o' :
  readOperations_ c = o :: ops -> allocCallback_ (handle_ c) = true -> readCallback_ (handle_ c) = true ->
  take_piece bytes o = Done o' ->
  uv_read (T := T) bytes c =
    if completeFromLoop o' then
      evs ← read_callback kSuccess o';
      let c := c <| readOperations_ := ops |> in
      match ops with
      | [] => '(h, evs') ← readStopFromLoop (handle_ c); Done (c <| handle_ := h |>, evs ++ evs')
      | _ => Done (c, evs)
      end
    else Done (c <| readOperations_ := o' :: ops |>, []).
Proof.
  intros Hops Ha Hr Ht. unfold take_piece in Ht. inv_bind Ht. inv_bind Ht. unfold uv_read, allocCallbackFromLoop.
  rewrite Ha, Hops. simpl. rewrite Ha0, bind_done, Ha1, bind_done, Hr. simpl. unfold readCallbackFromLoop.
  rewrite (proj2 (Z.ltb_ge _ _)) by lia. simpl. rewrite Ht, bind_done. done.
Qed.

Lemma data_step_ok (w : UvWorld T) bytes : uv_inv P w -> uv_event_ok P w (UwData bytes) ->
  exists w', uv_step w (UwData bytes) = Done w' /\ uv_inv P w'.
Proof.
  intros [[Hhl Hhd Hhc] [Hrl Hrd] Hw] (Hrg & Hcl & Hpre & Hroom). cbn [uv_step].
  destruct (is_error (error_ (uw_conn w))) eqn:He.
  { destruct (Hhd eq_refl) as (_ & [Hh|[_ Hh]]); [by rewrite Hh in Hrg | congruence]. }
  specialize (Hhl eq_refl). destruct (Hrl eq_refl) as (k & c & Hk & Hr & Hin & Hq & Hn & Hfns).
  destruct (readOperations_ (uw_conn w)) as [|o ops] eqn:Hops.
  { by rewrite Hhl in Hrg. }
  rewrite bool_decide_eq_true_2 in Hhl by done. rewrite Hin in Hpre.
  assert (exists a, allocFromLoop o = Done a) as [a Ha].
  { destruct Hq as [Hf _]. destruct (P !! k) as [p|]; [destruct Hf as (_ & Hat & Hc); destruct (alloc_ok _ _ _ Hat Hc) as (a & ? & _); by exists a|].
    destruct Hf as [(Hm & _ & Hb) _]. unfold allocFromLoop. rewrite Hm, Hb. by eexists. }
  destruct (data_ok P small k c o ops bytes a Hq Hk Hpre Ha) as (o' & Ht & Hfn & Hcase).
  { apply Hroom. unfold allocCallbackFromLoop. by rewrite Hops. }
  rewrite (uv_read_piece _ o ops bytes o') by (by rewrite ?Hhl). destruct (completeFromLoop o') eqn:Hcomp.
  - destruct Hcase as (p & Hp & Hkind & Hat & Harr).
    assert (payload_len p < 2 ^ 63) as Hsm by (by eapply (proj1 (Forall_lookup _ _) small k)).
    destruct (complete_call o' p Hkind Hcomp Hat Hsm) as (ev & Hev & Hseen & Hne).
    rewrite Hev, bind_done. cbv zeta.
    assert (forall h evs, no_write_events (ev :: evs) -> uv_reads evs = [] -> h = mkHandle true true true (bool_decide (ops <> [])) false ->
      uv_inv P (advance (w <| uw_in ::= fun l => l ++ bytes |>) (mkConn (error_ (uw_conn w)) h (sockaddr_ (uw_conn w))
        ops (writeOperations_ (uw_conn w))) (ev :: evs))) as Hinv.
    { intros h evs Hne' Hre ->. split.
      - split; simpl; rewrite ?He; try done. destruct Hne' as (_ & _ & Hu). by rewrite omap_app, Hu, app_nil_r.
      - split; simpl; rewrite He; [|done]. intros _. exists (S k), 0%nat.
        simpl in Hfns, Hn. injection Hfns as Hf1 Hf2.
        assert (uv_reads (ev :: evs) = [expected_call k p]) as Hre'.
        { unfold uv_reads in *. change (ev :: evs) with ([ev] ++ evs). rewrite omap_app, Hre. simpl.
          rewrite Hseen, Hfn, <- Hf1. done. }
        rewrite uv_reads_app, Hre', Hr, Hin, Harr. split_and!.
        + by apply lookup_lt_Some in Hp.
        + unfold answers. rewrite seq_S, (take_S_r _ _ _ Hp), zip_with_app; [done|].
          rewrite length_seq, length_take. lia.
        + done.
        + by eapply queue_pop.
        + lia.
        + done.
      - by eapply (write_side_kept w). }
    destruct ops as [|o2 ops2]; simpl.
    + unfold readStopFromLoop. rewrite Hhl. simpl. rewrite uv_allowed_done by done. rewrite bind_done. simpl.
      eexists. split; [done|]. apply (Hinv _ [EvUv RqReadStop]); try done.
    + eexists. split; [done|]. by apply (Hinv _ []); [| |rewrite Hhl].
  - destruct Hcase as [Harr Hq']. eexists. split; [done|]. split.
    + by split; simpl; rewrite ?He, ?app_nil_r.
    + split; simpl; rewrite He; [|done]. intros _. exists k, (c + length bytes)%nat.
      rewrite app_nil_r, Hr, Hin, Harr. simpl in *. rewrite Hfn. by destruct Hq'; split_and!.
    + by eapply (write_side_kept w).
Qed.

(** ** Every reachable world *)

Lemma start_ok closed addr w : uv_start closed addr = Done w -> uv_inv P w.
Proof.
  unfold uv_start. intros Hs. inv_bind Hs. destruct a as [c evs]. apply done_inj in Hs as <-.
  assert (exists h, c = mkConn (if closed then ConnectionClosedError else kSuccess) h addr [] [] /\
    (if closed then h = newTCPHandle else h = mkHandle true true true false false) /\
    uv_reads evs = [] /\ no_write_events evs) as (h & -> & Hh & Hre & Hw & Hq & Hu).
  { unfold initFromLoop, initImplFromLoop in Ha. destruct closed.
    - apply done_inj in Ha as [= <- <-]. by eexists.
    - inv_bind Ha. simpl in Ha. apply done_inj in Ha as [= <- <-]. eexists. split; [done|]. split; [done|].
      destruct addr as [ad|]; [|by apply done_inj in Ha0 as <-]. simpl in Ha0.
      unfold handle_initFromLoop, connectFromLoop in Ha0. repeat inv_bind Ha0. repeat inv_bind Ha1.
      apply done_inj in Ha0, Ha1. subst. by rewrite (uv_events _ _ _ Ha2), (uv_events _ _ _ Ha3), (uv_events _ _ _ Ha4). }
  split.
  - split; simpl; [by destruct closed; subst | destruct closed; [by split; [|left] | done]|]. by rewrite Hu.
  - split; simpl; rewrite Hre.
    + intros _. exists 0%nat, 0%nat. split_and!; try done. lia.
    + intros _. exists 0%nat, []. split_and!; try done. lia.
  - split; simpl; rewrite ?Hw, ?Hq; try done.
    + intros _. by exists 0%nat.
    + exists 0%nat. split_and!; try done. unfold uv_out. by rewrite Hq.
Qed.

Lemma uv_step_ok (w : UvWorld T) ev : uv_inv P w -> uv_event_ok P w ev ->
  exists w', uv_step w ev = Done w' /\ uv_inv P w'.
Proof.
  destruct ev; intros Hi Hok; [by apply read_ok | by apply write_ok | by apply error_step | by apply connected_ok |
    by apply data_step_ok | by apply read_error_ok | by apply written_ok | by apply closed_ok].
Qed.

Lemma uv_reach_ok w : uv_reach P w -> uv_inv P w.
Proof.
  induction 1 as [closed addr w Hs|w ev w' _ IH Hok Hs]; [by eapply start_ok|].
  destruct (uv_step_ok w ev IH Hok) as (w2 & Hs2 & Hi2). congruence.
Qed.
End steps.

(** ** The theorems *)

Section theorems.
Context {T : Type} `{!NopEncoding T, !NopEncodingLaws T, !Libuv, !LibuvLaws}.

(** No handler of a connection of the libuv transport throws: in every
    reachable world, whatever the user does and whatever libuv is documented to do
    next is handled, be it an error, a part of a message of any size, or the end
    of a request after the connection was closed. *)
Lemma uv_no_throw (P : list (payload T)) (w : UvWorld T) ev :
  Forall (fun p => payload_len p < 2 ^ 63) P -> uv_reach P w -> uv_event_ok P w ev ->
  exists w', uv_step w ev = Done w' /\ uv_reach P w'.
Proof.
  intros HP Hw Hok. destruct (uv_step_ok P HP w ev (uv_reach_ok P HP w Hw) Hok) as (w' & Hs & _).
  exists w'. split; [done|]. by eapply uv_reach_step.
Qed.

(** C18: a connection of the libuv transport delivers what its peer wrote: however
    the stream is cut into pieces, the reads that succeed get the first messages
    of the peer, in order and intact, and none of them is called back late: without
    an error, a message that has arrived whole and was asked for was delivered. *)
Theorem uv_delivery (P : list (payload T)) (w : UvWorld T) :
  Forall (fun p => payload_len p < 2 ^ 63) P -> uv_reach P w ->
  exists k failed, (k <= length P)%nat /\ (k <= uw_reads w)%nat /\
    uv_reads (uw_log w) = answers P k ++ failed /\ Forall (fun r => is_error (rc_error r) = true) failed /\
    (is_error (error_ (uw_conn w)) = false -> failed = [] /\
     sframes (take k P) `prefix_of` uw_in w /\
     ((k < uw_reads w)%nat -> (k < length P)%nat -> (length (uw_in w) < length (sframes (take (S k) P)))%nat)).
Proof.
  intros HP Hw. destruct (uv_reach_ok P HP w Hw) as [_ [Hl Hd] _].
  destruct (is_error (error_ (uw_conn w))) eqn:He.
  - destruct (Hd eq_refl) as (k & failed & ? & ? & ? & _ & ?). by exists k, failed.
  - destruct (Hl eq_refl) as (k & c & Hk & Hr & Hin & Hq & Hn & _). exists k, []. rewrite app_nil_r.
    split_and!; [done | lia | done | constructor|]. intros _. split_and!; [done | rewrite Hin; by eexists|].
    intros Hlt Hkl. destruct (readOperations_ (uw_conn w)) as [|o ops]; [simpl in Hn; lia|].
    destruct (lookup_lt_is_Some_2 P k Hkl) as [p Hp]. destruct Hq as [Hf _]. rewrite Hp in Hf.
    destruct Hf as (_ & _ & Hc). rewrite (sframes_take_S _ _ _ Hp), Hin. unfold arrived. rewrite length_app, length_take. lia.
Qed.

(** C20: every callback of a connection of the libuv transport is called once.
    Those of reads are called in the order of the requests, and all of them once
    there is an error; those of writes when libuv is done with them, in order as
    long as there is no error; when the handle is closed none is left, and the
    connection leaves its context then, once. *)
Theorem uv_callbacks_once (P : list (payload T)) (w : UvWorld T) :
  Forall (fun p => payload_len p < 2 ^ 63) P -> uv_reach P w ->
  (exists n, (n <= uw_reads w)%nat /\ rc_fn <$> uv_reads (uw_log w) = seq 0 n /\
     (is_error (error_ (uw_conn w)) = true -> n = uw_reads w)) /\
  (exists pending, (wc_fn <$> uv_writes (uw_log w)) ++ pending ≡ₚ seq 0 (length (uw_sent w)) /\
     length pending = uw_writes w) /\
  (is_error (error_ (uw_conn w)) = false -> exists m, uv_writes (uw_log w) = write_done <$> seq 0 m) /\
  length (omap is_unenroll (uw_log w)) = (if uw_closed w then 1%nat else 0%nat).
Proof.
  intros HP Hw. destruct (uv_reach_ok P HP w Hw) as [Hh [Hl Hd] Hws].
  assert (forall k, (k <= length P)%nat -> rc_fn <$> answers P k = seq 0 k) as Hans.
  { intros k Hk. unfold answers. apply list_eq. intros i. rewrite list_lookup_fmap, lookup_zip_with.
    destruct (decide (i < k)%nat) as [Hi|Hi].
    - rewrite lookup_seq_lt by done. simpl. rewrite lookup_take_lt by done.
      destruct (lookup_lt_is_Some_2 P i ltac:(lia)) as [p ->]. by destruct p.
    - by rewrite !lookup_seq_ge by lia. }
  split_and!; [| |intros He; destruct (ws_live w Hws He) as (m & ? & _); by exists m | apply Hh].
  - destruct (is_error (error_ (uw_conn w))) eqn:He.
    + destruct (Hd eq_refl) as (k & failed & Hk & Hkr & Hr & Hf & _). exists (uw_reads w).
      rewrite Hr, fmap_app, Hans, Hf by done. split_and!; [done| |done]. rewrite <- seq_app. f_equal. lia.
    + destruct (Hl eq_refl) as (k & c & Hk & Hr & _ & _ & Hn & _). exists k. rewrite Hr, Hans by done.
      split_and!; [lia | done | done].
  - exists (sw_fn_ <$> writeOperations_ (uw_conn w)). split; [apply Hws|]. by rewrite length_fmap, (ws_count w Hws).
Qed.

(** C19: the messages that are written to a connection of the libuv transport go
    out in order, each as its length and its bytes, until there is an error; and
    an end without an error that has received a part of what the other end put out
    has read the first messages written there. *)
Theorem uv_end_to_end (Pa Pb : list (payload T)) (wa wb : UvWorld T) :
  Forall (fun p => payload_len p < 2 ^ 63) Pa -> Forall (fun p => payload_len p < 2 ^ 63) Pb ->
  uv_reach Pa wa -> uv_reach Pb wb -> uw_sent wa `prefix_of` Pb -> uw_in wb `prefix_of` uv_out (uw_log wa) ->
  is_error (error_ (uw_conn wb)) = false ->
  exists j k, (k <= j <= length (uw_sent wa))%nat /\ uv_out (uw_log wa) = sframes (take j (uw_sent wa)) /\
    (is_error (error_ (uw_conn wa)) = false -> j = length (uw_sent wa)) /\
    uv_reads (uw_log wb) = answers (uw_sent wa) k.
Proof.
  intros HPa HPb Ha Hb [rest Hs] Hin He. destruct (ws_out wa (ui_write _ _ (uv_reach_ok Pa HPa wa Ha))) as (j & Hj & Hout & Hje).
  destruct (rs_live Pb wb (ui_read _ _ (uv_reach_ok Pb HPb wb Hb)) He) as (k & c & Hk & Hr & Hinb & _).
  assert (k <= j)%nat as Hkj.
  { destruct (decide (k <= j)%nat) as [|Hn]; [done|exfalso]. rewrite Hinb, Hout in Hin.
    apply prefix_length in Hin. unfold arrived in Hin. rewrite length_app in Hin.
    assert (take k Pb = take j (uw_sent wa) ++ take (k - j) (drop j Pb)) as Htk.
    { rewrite Hs, drop_app_le by done. rewrite <- (take_app_le (uw_sent wa) rest j) by done. rewrite <- Hs.
      rewrite <- (drop_app_le (uw_sent wa) rest j) by done. rewrite <- Hs, take_take_drop. f_equal. lia. }
    rewrite Htk, sframes_app, length_app in Hin.
    destruct (drop j Pb) as [|p ps] eqn:Hd.
    { apply (f_equal length) in Hd. rewrite length_drop in Hd. simpl in Hd. lia. }
    replace (k - j)%nat with (S (k - j - 1)) in Hin by lia. rewrite firstn_cons, sframes_cons, length_app, stream_frame_length in Hin. lia. }
  exists j, k. split_and!; [lia | lia | done | done|]. rewrite Hr. unfold answers. f_equal. rewrite Hs.
  by rewrite take_app_le by lia.
Qed.
End theorems.

(** ** Concrete worlds *)

(** A libuv that accepts what it documents, and opens sockets. *)
#[local] Instance demo_libuv : Libuv := fun reading closing r =>
  match r with
  | RqTcpInit | RqTcpNodelay | RqTcpConnect _ => 0
  | _ => if uv_allowed reading closing r then 0 else -22
  end.
#[local] Instance demo_libuv_laws : LibuvLaws.
Proof. intros reading closing r Hr. unfold uv_rv, demo_libuv. destruct r; [done..| | |]; by rewrite Hr. Qed.

Abbreviation DemoWorld := (UvWorld (Z * Z * Z)).

Definition uv_fitsb (rq : read_request) (p : payload (Z * Z * Z)) : bool :=
  match rq, p with
  | RqAuto, PBytes _ | RqNop, PObject _ => true
  | RqBuffer (Some mem) len, PBytes l => (len =? Z.of_nat (length l)) && (length mem =? length l)%nat
  | RqBuffer None len, PBytes l => (len =? Z.of_nat (length l)) && (len =? 0)
  | _, _ => false
  end.
Lemma uv_fitsb_ok rq p : uv_fitsb rq p = true -> uv_fits rq p.
Proof.
  destruct rq as [| |[mem|] len], p as [l|v]; simpl; try done; intros Hb; bool_hyps; split; try done.
  by apply Nat.eqb_eq.
Qed.

Definition uv_event_okb (P : list (payload (Z * Z * Z))) (w : DemoWorld) (ev : uv_step_event (Z * Z * Z)) : bool :=
  let h := handle_ (uw_conn w) in
  match ev with
  | UwRead rq => match P !! uw_reads w with Some p => uv_fitsb rq p | None => true end
  | UwWrite p => payload_len p <? 2 ^ 63
  | UwClose => true
  | UwConnected _ => uw_connecting w
  | UwData bytes =>
      uv_reading h && negb (uv_closing h) && bool_decide (uw_in w ++ bytes `prefix_of` sframes P) &&
      match allocCallbackFromLoop (uw_conn w) with Done a => Z.of_nat (length bytes) <=? ar_len a | Throw _ => true end
  | UwReadError status => uv_reading h && negb (uv_closing h) && (status <? 0)
  | UwWritten _ => (0 <? uw_writes w)%nat
  | UwClosed => uv_closing h && (uw_writes w =? 0)%nat && negb (uw_connecting w) && negb (uw_closed w)
  end.
Lemma uv_event_okb_ok P w ev : uv_event_okb P w ev = true -> uv_event_ok P w ev.
Proof.
  destruct ev as [rq|p| |st|bytes|st|st|]; simpl; intros Hb; bool_hyps; try done.
  - intros p Hp. rewrite Hp in Hb. by apply uv_fitsb_ok.
  - split_and!; try done. intros a Ha. rewrite Ha in *. by bool_hyps.
  - by apply Nat.ltb_lt.
  - split_and!; try done. by apply Nat.eqb_eq.
Qed.

Fixpoint uv_run (P : list (payload (Z * Z * Z))) (w : DemoWorld) (evs : list (uv_step_event (Z * Z * Z))) : option DemoWorld :=
  match evs with
  | [] => Some w
  | ev :: evs =>
      if uv_event_okb P w ev then match uv_step w ev with Done w => uv_run P w evs | Throw _ => None end else None
  end.
Lemma uv_run_reach P w evs w' : uv_reach P w -> uv_run P w evs = Some w' -> uv_reach P w'.
Proof.
  revert w. induction evs as [|ev evs IH]; intros w Hw; simpl; [by intros [= <-]|].
  destruct (uv_event_okb P w ev) eqn:Hok; [|done]. destruct (uv_step w ev) as [w1|] eqn:Hs; [|done].
  apply IH. eapply uv_reach_step; [exact Hw | by apply uv_event_okb_ok | exact Hs].
Qed.

Definition uv_demo (P : list (payload (Z * Z * Z))) (addr : option string) (evs : list (uv_step_event (Z * Z * Z))) : option DemoWorld :=
  match uv_start false addr with Done w => uv_run P w evs | Throw _ => None end.
Lemma uv_demo_reach P addr evs w : uv_demo P addr evs = Some w -> uv_reach P w.
Proof.
  unfold uv_demo. destruct (uv_start false addr) as [w0|] eqn:Hs; [|done]. apply uv_run_reach. by eapply uv_reach_start.
Qed.

Definition uv_messages : list (payload (Z * Z * Z)) := [PBytes [1; 2; 3]; PObject (4, 5, 6); PBytes []].
Lemma uv_messages_small : Forall (fun p => payload_len p < 2 ^ 63) uv_messages.
Proof. by repeat constructor. Qed.

(** An end that writes the messages, and an end that gets the first of them and a
    part of the second, in four pieces. *)
Definition uv_writer_events : list (uv_step_event (Z * Z * Z)) :=
  [UwWrite (PBytes [1; 2; 3]); UwWrite (PObject (4, 5, 6)); UwConnected 0; UwWritten 0].
Definition uv_reader_events : list (uv_step_event (Z * Z * Z)) :=
  [UwRead RqAuto; UwRead RqNop; UwData [3; 0; 0]; UwData [0; 0; 0; 0; 0]; UwData [1; 2]; UwData [3]; UwData [3; 0]].
(** The second of these ends, closed while its second read is pending. *)
Definition uv_closing_events : list (uv_step_event (Z * Z * Z)) :=
  uv_reader_events ++ [UwWrite (PBytes [7]); UwClose; UwRead RqAuto; UwWritten (-125); UwClosed].

Definition uv_world (m : option DemoWorld) : DemoWorld :=
  default (mkUvWorld (newConnection None) false 0 false [] [] 0 []) m.
Definition uv_writer : DemoWorld := uv_world (uv_demo [] (Some "127.0.0.1"%string) uv_writer_events).
Definition uv_reader : DemoWorld := uv_world (uv_demo uv_messages None uv_reader_events).
Definition uv_closer : DemoWorld := uv_world (uv_demo uv_messages None uv_closing_events).

Lemma uv_writer_reach : uv_reach [] uv_writer.
Proof. apply (uv_demo_reach _ (Some "127.0.0.1"%string) uv_writer_events). vm_compute. reflexivity. Qed.
Lemma uv_reader_reach : uv_reach uv_messages uv_reader.
Proof. apply (uv_demo_reach _ None uv_reader_events). vm_compute. reflexivity. Qed.
Lemma uv_closer_reach : uv_reach uv_messages uv_closer.
Proof. apply (uv_demo_reach _ None uv_closing_events). vm_compute. reflexivity. Qed.

Lemma uv_no_throw_witness :
  exists w', uv_step uv_reader (UwReadError (-104)) = Done w' /\ uv_reach uv_messages w'.
Proof.
  apply (uv_no_throw uv_messages uv_reader (UwReadError (-104)) uv_messages_small uv_reader_reach).
  apply uv_event_okb_ok. vm_compute. reflexivity.
Defined.

Lemma uv_delivery_witness :
  uv_reads (uw_log uv_reader) = [expected_call 0 (PBytes [1; 2; 3])] /\
  exists k failed, (k <= length uv_messages)%nat /\ (k <= uw_reads uv_reader)%nat /\
    uv_reads (uw_log uv_reader) = answers uv_messages k ++ failed /\
    Forall (fun r => is_error (rc_error r) = true) failed /\
    (is_error (error_ (uw_conn uv_reader)) = false -> failed = [] /\
     sframes (take k uv_messages) `prefix_of` uw_in uv_reader /\
     ((k < uw_reads uv_reader)%nat -> (k < length uv_messages)%nat ->
      (length (uw_in uv_reader) < length (sframes (take (S k) uv_messages)))%nat)).
Proof.
  split; [vm_compute; reflexivity | exact (uv_delivery uv_messages uv_reader uv_messages_small uv_reader_reach)].
Defined.

Lemma uv_callbacks_once_witness :
  uw_closed uv_closer = true /\ length (uv_reads (uw_log uv_closer)) = 3%nat /\
  exists n, (n <= uw_reads uv_closer)%nat /\ rc_fn <$> uv_reads (uw_log uv_closer) = seq 0 n /\
    (is_error (error_ (uw_conn uv_closer)) = true -> n = uw_reads uv_closer).
Proof.
  split; [vm_compute; reflexivity|]. split; [vm_compute; reflexivity|].
  exact (proj1 (uv_callbacks_once uv_messages uv_closer uv_messages_small uv_closer_reach)).
Defined.

Lemma uv_end_to_end_witness :
  exists j k, (k <= j <= length (uw_sent uv_writer))%nat /\
    uv_out (uw_log uv_writer) = sframes (take j (uw_sent uv_writer)) /\
    (is_error (error_ (uw_conn uv_writer)) = false -> j = length (uw_sent uv_writer)) /\
    uv_reads (uw_log uv_reader) = answers (uw_sent uv_writer) k.
Proof.
  apply (uv_end_to_end [] uv_messages uv_writer uv_reader (Forall_nil_2 _) uv_messages_small uv_writer_reach uv_reader_reach).
  - exists [PBytes []]. vm_compute. reflexivity.
  - exists [0; 0; 0; 0; 0; 0; 4; 5; 6]. vm_compute. reflexivity.
  - vm_compute. reflexivity.
Defined.
