(* ===== verification/ShmConnection.v ===== *)
(** * Connections of the shared-memory transport

    Models [transport/shm/connection_impl.cc] together with the part of
    [transport/connection_impl_boilerplate.h] that sequences its operations.
    Every function here runs in the loop of the context, so it is atomic.  A
    connection reads from its inbox and writes to its outbox; the outbox of one
    end is the inbox of the other.

    The two rings are passed in and out, the callbacks, triggers and
    registrations a handler makes are returned as a list of events, and what
    the socket answers is an argument. *)

From S2P Require Import Prelude System RingBuffer RingBufferTx Nop RingbufferOps RingbufferQueues.

Definition kBufferSize : Z := 2 * 1024 * 1024.

Inductive ShmState := INITIALIZING | SEND_FDS | RECV_FDS | ESTABLISHED.

#[export] Instance ShmState_eq_dec : EqDecision ShmState.
Proof. solve_decision. Defined.

Section connection.
Context {T : Type} `{NopEncoding T}.

Record ConnectionImpl := mkConn {
  cn_error_ : Error;
  cn_state_ : ShmState;
  cn_socket_ : bool;                            (* [socket_.hasValue()] *)
  cn_inboxReactorToken_ : option Z;
  cn_outboxReactorToken_ : option Z;
  cn_peerInboxReactorToken_ : option Z;
  cn_peerOutboxReactorToken_ : option Z;
  cn_readOperations_ : list (RingbufferReadOperation T);
  cn_writeOperations_ : list (RingbufferWriteOperation T);
  }.
#[export] Instance eta_ConnectionImpl : Eta ConnectionImpl := fun c =>
  mkConn (cn_error_ c) (cn_state_ c) (cn_socket_ c) (cn_inboxReactorToken_ c)
    (cn_outboxReactorToken_ c) (cn_peerInboxReactorToken_ c) (cn_peerOutboxReactorToken_ c)
    (cn_readOperations_ c) (cn_writeOperations_ c).

Inductive event :=
| EvRead (call : read_call T)
| EvWrite (call : write_call)
| EvTrigger (token : Z)             (* [peerReactorTrigger_->run(token)] *)
| EvRemoveReaction (token : Z)
| EvRegister (epollin : bool)
| EvUnregister
| EvEnroll
| EvUnenroll
| EvSendFds (inboxToken outboxToken : Z).

(** A connection with its two rings. *)
Record endpoint := mkEndpoint { ep_conn : ConnectionImpl; ep_inbox : RingBuffer; ep_outbox : RingBuffer }.
#[export] Instance eta_endpoint : Eta endpoint := fun e =>
  mkEndpoint (ep_conn e) (ep_inbox e) (ep_outbox e).

Definition newConnection (hasSocket : bool) : ConnectionImpl :=
  mkConn kSuccess INITIALIZING hasSocket None None None None [] [].

(** ** Serving the queues *)

(** The [while] loop of [processReadOperationsFromLoop]; [token] is the peer's
    outbox token. *)
Fixpoint serve_reads (token : Z) (ops : list (RingbufferReadOperation T)) (s : rstate)
  : outcome (list (RingbufferReadOperation T) * list event * rstate) :=
  match ops with
  | [] => Done ([], [], s)
  | op :: rest =>
      '(n, op, calls, s) ← handleRead kNumRingbufferRoles kConsumer op s;
      let evs := (EvRead <$> calls) ++ (if 0 <? n then [EvTrigger token] else []) in
      if read_completed op then
        '(ops, evs', s) ← serve_reads token rest s;
        Done (ops, evs ++ evs', s)
      else Done (op :: rest, evs, s)
  end.

Fixpoint serve_writes (token : Z) (ops : list (RingbufferWriteOperation T)) (s : rstate)
  : outcome (list (RingbufferWriteOperation T) * list event * rstate) :=
  match ops with
  | [] => Done ([], [], s)
  | op :: rest =>
      '(n, op, calls, s) ← handleWrite kNumRingbufferRoles kProducer op s;
      let evs := (EvWrite <$> calls) ++ (if 0 <? n then [EvTrigger token] else []) in
      if write_completed op then
        '(ops, evs', s) ← serve_writes token rest s;
        Done (ops, evs ++ evs', s)
      else Done (op :: rest, evs, s)
  end.

(** [optional::value()] of an empty optional throws. *)
Definition opt_value {A} (o : option A) : outcome A :=
  match o with Some a => Done a | None => Throw ExAssert end.

Definition processReadOperationsFromLoop (e : endpoint) : outcome (endpoint * list event) :=
  let c := ep_conn e in
  if negb (bool_decide (cn_state_ c = ESTABLISHED)) then Done (e, [])
  else match cn_readOperations_ c with
  | [] => Done (e, [])
  | ops =>
      token ← opt_value (cn_peerOutboxReactorToken_ c);
      '(ops, evs, (rb, _)) ← serve_reads token ops (ep_inbox e, newRole);
      Done (e <| ep_conn := c <| cn_readOperations_ := ops |> |> <| ep_inbox := rb |>, evs)
  end.

Definition processWriteOperationsFromLoop (e : endpoint) : outcome (endpoint * list event) :=
  let c := ep_conn e in
  if negb (bool_decide (cn_state_ c = ESTABLISHED)) then Done (e, [])
  else match cn_writeOperations_ c with
  | [] => Done (e, [])
  | ops =>
      token ← opt_value (cn_peerInboxReactorToken_ c);
      '(ops, evs, (rb, _)) ← serve_writes token ops (ep_outbox e, newRole);
      Done (e <| ep_conn := c <| cn_writeOperations_ := ops |> |> <| ep_outbox := rb |>, evs)
  end.

(** ** Errors *)

(** The loops of [handleErrorImpl] over the pending operations, and the release
    of the reactor tokens and of the socket. *)
Definition handleErrorImpl (c : ConnectionImpl) : ConnectionImpl * list event :=
  let evs :=
    (EvRead ∘ read_handleError (cn_error_ c) <$> cn_readOperations_ c) ++
    (EvWrite ∘ write_handleError (cn_error_ c) <$> cn_writeOperations_ c) ++
    (EvRemoveReaction <$> option_list (cn_inboxReactorToken_ c)) ++
    (EvRemoveReaction <$> option_list (cn_outboxReactorToken_ c)) ++
    (if cn_socket_ c && negb (bool_decide (cn_state_ c = INITIALIZING)) then [EvUnregister] else []) ++
    [EvUnenroll] in
  (c <| cn_readOperations_ := [] |> <| cn_writeOperations_ := [] |>
     <| cn_inboxReactorToken_ := None |> <| cn_outboxReactorToken_ := None |>
     <| cn_socket_ := false |>, evs).

Definition setError (error : Error) (c : ConnectionImpl) : ConnectionImpl * list event :=
  if is_error (cn_error_ c) || negb (is_error error) then (c, [])
  else handleErrorImpl (c <| cn_error_ := error |>).

Definition closeFromLoop (c : ConnectionImpl) : ConnectionImpl * list event :=
  setError ConnectionClosedError c.

Definition ep_setError (error : Error) (e : endpoint) : endpoint * list event :=
  let '(c, evs) := setError error (ep_conn e) in (e <| ep_conn := c |>, evs).

(** ** Requests of the user *)

Definition readFromLoop (rq : read_request) (fn : nat) (e : endpoint)
  : outcome (endpoint * list event) :=
  let c := ep_conn e in
  if is_error (cn_error_ c) then
    let mem := match rq with RqBuffer mem _ => mem | _ => [] end in
    Done (e, [EvRead (mkReadCall fn (cn_error_ c) mem None)])
  else
    processReadOperationsFromLoop
      (e <| ep_conn := c <| cn_readOperations_ ::= fun ops => ops ++ [new_read rq fn] |> |>).

Definition writeFromLoop (p : payload T) (fn : nat) (e : endpoint)
  : outcome (endpoint * list event) :=
  let c := ep_conn e in
  if is_error (cn_error_ c) then
    Done (e, [EvWrite (mkWriteCall fn (cn_error_ c))])
  else
    processWriteOperationsFromLoop
      (e <| ep_conn := c <| cn_writeOperations_ ::= fun ops => ops ++ [new_write p fn] |> |>).

(** ** Initialization and handshake *)

(** Answers of the socket and of the reactor, in the order they are asked for. *)
Record init_env := mkInitEnv {
  ie_contextClosed : bool;
  ie_create : Error;
  ie_connect : Error;
  ie_block : Error;
  ie_inboxToken : Z;
  ie_outboxToken : Z;
  }.

Definition initImplFromLoop (env : init_env) (e : endpoint) : outcome (endpoint * list event) :=
  let fail error e :=
    let '(e, evs) := ep_setError error e in Done (e, EvEnroll :: evs) in
  let c := ep_conn e in
  let e := if cn_socket_ c || is_error (ie_create env) then e
           else e <| ep_conn := c <| cn_socket_ := true |> |> in
  if negb (cn_socket_ c) && is_error (ie_create env) then fail (ie_create env) e
  else if negb (cn_socket_ c) && is_error (ie_connect env) then fail (ie_connect env) e
  else if is_error (ie_block env) then fail (ie_block env) e
  else
    rb ← newRingBuffer kNumRingbufferRoles kBufferSize;
    Done (e <| ep_inbox := rb |>
            <| ep_conn := ep_conn e <| cn_inboxReactorToken_ := Some (ie_inboxToken env) |>
                                    <| cn_outboxReactorToken_ := Some (ie_outboxToken env) |>
                                    <| cn_state_ := SEND_FDS |> |>,
          [EvEnroll; EvRegister false]).

Definition initFromLoop (env : init_env) (e : endpoint) : outcome (endpoint * list event) :=
  if ie_contextClosed env then
    Done (e <| ep_conn := ep_conn e <| cn_error_ := ConnectionClosedError |> |>, [])
  else initImplFromLoop env e.

Definition handleEventOutFromLoop (send : Error) (e : endpoint) : outcome (endpoint * list event) :=
  let c := ep_conn e in
  if bool_decide (cn_state_ c = SEND_FDS) then
    tin ← opt_value (cn_inboxReactorToken_ c);
    tout ← opt_value (cn_outboxReactorToken_ c);
    if is_error send then Done (ep_setError send e)
    else Done (e <| ep_conn := c <| cn_state_ := RECV_FDS |> |>,
               [EvSendFds tin tout; EvRegister true])
  else Throw ExAssert.

(** What [recvPayloadAndFds] delivers: an error, or the peer's tokens and its
    inbox, which is our outbox. *)
Definition recv_result : Type := Error + (Z * Z * RingBuffer).

Definition handleEventInFromLoop (recv : recv_result) (e : endpoint)
  : outcome (endpoint * list event) :=
  let c := ep_conn e in
  match cn_state_ c with
  | RECV_FDS =>
      match recv with
      | inl err => Done (ep_setError err e)
      | inr (peerInbox, peerOutbox, rb) =>
          let e := e <| ep_outbox := rb |>
                     <| ep_conn := c <| cn_peerInboxReactorToken_ := Some peerInbox |>
                                     <| cn_peerOutboxReactorToken_ := Some peerOutbox |>
                                     <| cn_state_ := ESTABLISHED |> |> in
          '(e, evs1) ← processWriteOperationsFromLoop e;
          '(e, evs2) ← processReadOperationsFromLoop e;
          Done (e, evs1 ++ evs2)
      end
  | ESTABLISHED => Done (ep_setError EOFError e)
  | _ => Throw ExAssert
  end.

(** Only one of the events of the mask is handled, errors first. *)
Definition handleEventsFromLoop (epollerr epollin epollout epollhup : bool)
    (soerror send : Error) (recv : recv_result) (e : endpoint)
  : outcome (endpoint * list event) :=
  if epollerr then Done (ep_setError soerror e)
  else if epollin then handleEventInFromLoop recv e
  else if epollout then handleEventOutFromLoop send e
  else if epollhup then Done (ep_setError EOFError e)
  else Done (e, []).

End connection.

Arguments ConnectionImpl T : clear implicits.
Arguments endpoint T : clear implicits.
Arguments event T : clear implicits.
