(* ===== verification/ShmWorld.v ===== *)
(** * Two connected ends of the shared-memory transport

    First the two queues and the ring of one direction ([dir]): writes at the
    sending end, reads at the receiving end, and the two reactor triggers that
    tell each end about the progress of the other.  Then a world with both
    connections, whose steps are the handlers of [ShmConnection], and whose two
    directions it is shown to implement. *)

From S2P Require Import Prelude System RingBuffer RingBufferTx Nop RingbufferOps RingbufferQueues ShmConnection.

(** ** Events *)

Definition reads_of {T} (evs : list (event T)) : list (read_call T) :=
  omap (fun e => match e with EvRead c => Some c | _ => None end) evs.
Definition writes_of {T} (evs : list (event T)) : list write_call :=
  omap (fun e => match e with EvWrite c => Some c | _ => None end) evs.
Definition triggers_of {T} (evs : list (event T)) : list Z :=
  omap (fun e => match e with EvTrigger t => Some t | _ => None end) evs.

Lemma omap_EvRead {T} (l : list (read_call T)) :
  reads_of (EvRead <$> l) = l /\ writes_of (T := T) (EvRead <$> l) = [] /\
  triggers_of (T := T) (EvRead <$> l) = [].
Proof. induction l as [|x l (IH1 & IH2 & IH3)]; [done|]. split_and!; [exact (f_equal (cons x) IH1) | done..]. Qed.

Lemma omap_EvWrite {T} (l : list write_call) :
  reads_of (T := T) (EvWrite <$> l) = [] /\ writes_of (T := T) (EvWrite <$> l) = l /\
  triggers_of (T := T) (EvWrite <$> l) = [].
Proof. induction l as [|x l (IH1 & IH2 & IH3)]; [done|]. split_and!; [done | exact (f_equal (cons x) IH2) | done]. Qed.

Lemma reads_of_app {T} (a b : list (event T)) : reads_of (a ++ b) = reads_of a ++ reads_of b.
Proof. apply omap_app. Qed.
Lemma writes_of_app {T} (a b : list (event T)) : writes_of (a ++ b) = writes_of a ++ writes_of b.
Proof. apply omap_app. Qed.
Lemma triggers_of_app {T} (a b : list (event T)) :
  triggers_of (a ++ b) = triggers_of a ++ triggers_of b.
Proof. apply omap_app. Qed.

Create Rewrite HintDb events.
#[export] Hint Rewrite @reads_of_app @writes_of_app @triggers_of_app : events.

(** ** Queues against the messages they carry *)

Section queues.
Context {T : Type} `{NopEncodingLaws T}.

Lemma trigger_event (n : nat) token :
  reads_of (T := T) (if 0 <? Z.of_nat n then [EvTrigger token] else []) = [] /\
  writes_of (T := T) (if 0 <? Z.of_nat n then [EvTrigger token] else []) = [] /\
  triggers_of (T := T) (if 0 <? Z.of_nat n then [EvTrigger token] else []) =
    if decide (n = 0%nat) then [] else [token].
Proof.
  case_decide as Hd; [subst; done|]. by rewrite (proj2 (Z.ltb_lt _ _)) by lia.
Qed.

(** The events of a round: callbacks, and a trigger whenever bytes moved. *)
Record served (token : Z) (evs : list (event T)) (moved : bool)
    (rds : list (read_call T)) (wrs : list write_call) : Prop := {
  sv_reads : reads_of evs = rds;
  sv_writes : writes_of evs = wrs;
  sv_token : Forall (eq token) (triggers_of evs);
  sv_moved : moved = true -> triggers_of evs <> [];
  }.

Lemma served_app token evs1 evs2 m1 m2 m r1 r2 w1 w2 :
  served token evs1 m1 r1 w1 -> served token evs2 m2 r2 w2 -> (m = true -> m1 || m2 = true) ->
  served token (evs1 ++ evs2) m (r1 ++ r2) (w1 ++ w2).
Proof.
  intros [R1 W1 T1 M1] [R2 W2 T2 M2] Hm.
  split; autorewrite with events; rewrite ?R1, ?W1, ?R2, ?W2; try done.
  - by apply Forall_app.
  - intros Ht He. apply app_eq_nil in He. apply Hm in Ht.
    apply orb_true_iff in Ht. destruct He as [He1 He2].
    destruct Ht as [Ht|Ht]; [by apply M1 in Ht | by apply M2 in Ht].
Qed.

Lemma served_nil token : served token [] false [] [].
Proof. by split. Qed.

Lemma served_one_w token (n : nat) calls :
  served token ((EvWrite <$> calls) ++ (if 0 <? Z.of_nat n then [EvTrigger token] else []))
    (negb (n =? 0)%nat) [] calls.
Proof.
  destruct (trigger_event n token) as (H1 & H2 & H3). destruct (omap_EvWrite (T := T) calls) as (H4 & H5 & H6).
  split; autorewrite with events; rewrite ?H1, ?H2, ?H3, ?H4, ?H5, ?H6, ?app_nil_r; simpl; try done.
  - case_decide; [done|]. by constructor.
  - intros Hn. case_decide; [by subst | done].
Qed.

Lemma served_one_r token (n : nat) calls :
  served token ((EvRead <$> calls) ++ (if 0 <? Z.of_nat n then [EvTrigger token] else []))
    (negb (n =? 0)%nat) calls [].
Proof.
  destruct (trigger_event n token) as (H1 & H2 & H3). destruct (omap_EvRead (T := T) calls) as (H4 & H5 & H6).
  split; autorewrite with events; rewrite ?H1, ?H2, ?H3, ?H4, ?H5, ?H6, ?app_nil_r; simpl; try done.
  - case_decide; [done|]. by constructor.
  - intros Hn. case_decide; [by subst | done].
Qed.

(** ** One round of writes *)

Lemma serve_writes_ok token wq : forall ps c B rb t,
  let W := B ++ part ps c in
  ring_inv rb t W -> flag rb kProducer = false -> Forall (payload_ok (ring_size rb)) ps ->
  wq_rel wq ps c ->
  exists k wq' c' evs rb',
    let W' := B ++ frames (take k ps) ++ part (drop k ps) c' in
    serve_writes token wq (rb, newRole) = Done (wq', evs, (rb', newRole)) /\
    (k <= length ps)%nat /\ (W `prefix_of` W') /\
    ring_inv rb' t W' /\ same_ring kProducer rb rb' /\ wq_rel wq' (drop k ps) c' /\
    (wo_fn_ <$> wq') = (wo_fn_ <$> drop k wq) /\
    served token evs (negb (length W' =? length W)%nat) [] (write_done <$> take k wq) /\
    w_head_stuck (drop k ps) c' (free_room rb' t W').
Proof.
  induction wq as [|o wq IH]; intros ps c B rb t W Hinv Hf Hok Hrel.
  - destruct ps; [|done]. simpl in *. subst c W.
    exists 0%nat, [], 0%nat, [], rb. simpl. rewrite app_nil_r, Nat.eqb_refl in *.
    split_and!; [done | lia | done | done | by apply same_ring_refl | done | done | apply served_nil | done].
  - destruct ps as [|p ps]; [done|]. destruct Hrel as (Hr & Hc & Hfr). subst W. simpl in Hinv.
    inversion_clear Hok as [|? ? Hokp Hokps].
    destruct (handleWrite_ok rb t _ o p c Hinv Hf Hr Hokp)
      as (n & o1 & calls & rb1 & He & Hfn & Hinv1 & Hle & Hsame & Hcase).
    rewrite <- app_assoc, take_take_drop in Hinv1. simpl. unfold kNumRingbufferRoles.
    rewrite He, bind_done.
    assert (length (take (c + n) (frame p)) = (c + n)%nat) as Hlen by (rewrite length_take; lia).
    destruct Hcase as [(Hd & -> & Hn)|(Hd & -> & Hr1 & Hlt & Hst)]; rewrite Hd.
    + rewrite Hn, firstn_all in Hinv1.
      assert (ring_inv rb1 t ((B ++ frame p) ++ part ps 0)) as Hinv1'.
      { destruct ps; simpl; by rewrite app_nil_r. }
      assert (Forall (payload_ok (ring_size rb1)) ps) as Hok1 by (by rewrite (sr_size _ _ _ Hsame)).
      destruct (IH ps 0%nat (B ++ frame p) rb1 t Hinv1' (sr_free _ _ _ Hsame) Hok1 (wq_rel_fresh _ _ Hfr))
        as (k & wq' & c' & evs & rb2 & He2 & Hk & Hpre & Hi2 & Hs2 & Hq2 & Hfn2 & Hsv & Hst).
      rewrite He2, bind_done.
      exists (S k), wq', c', (((EvWrite <$> [write_done o]) ++
        (if 0 <? Z.of_nat n then [EvTrigger token] else [])) ++ evs), rb2.
      cbn [take drop length]. rewrite frames_cons, fmap_cons. rewrite <- !(app_assoc B) in *.
      rewrite <- !(app_assoc (frame p)) in *. split; [done|]. split; [lia|].
      split; [apply prefix_app, prefix_app_r, prefix_take|]. split; [done|]. split.
      { split; [by rewrite (sr_size _ _ _ Hs2), (sr_size _ _ _ Hsame) | apply Hs2|].
        intros j ??. rewrite (sr_other _ _ _ Hs2), (sr_other _ _ _ Hsame) by done. done. }
      split; [done|]. split; [done|]. split; [|done].
      eapply (served_app _ _ _ _ _ _ [] [] [write_done o]); [apply served_one_w | exact Hsv|].
      rewrite !length_app, length_take. intros Hm. apply negb_true_iff, Nat.eqb_neq in Hm.
      apply orb_true_iff. rewrite !negb_true_iff, !Nat.eqb_neq.
      destruct (decide (n = 0%nat)) as [->|]; [right|by left].
      destruct ps; simpl in *; rewrite ?length_nil; lia.
    + exists 0%nat, (o1 :: wq), (c + n)%nat. eexists _, rb1. simpl.
      split; [done|]. split; [lia|]. split.
      { apply prefix_app. rewrite <- take_take_drop. by apply prefix_app_r. }
      split; [done|]. split; [done|].
      split; [done|]. split; [by rewrite Hfn|]. split.
      { rewrite !length_app, !length_take. pose proof (served_one_w token n []) as [H1 H2 H3 H4].
        split; try done. intros Hm. apply H4. apply negb_true_iff, Nat.eqb_neq in Hm.
        apply negb_true_iff, Nat.eqb_neq. lia. }
      replace (free_room rb1 t (B ++ take (c + n) (frame p)))
        with (free_room rb t (B ++ take c (frame p)) - Z.of_nat n); [done|].
      unfold free_room. rewrite (sr_size _ _ _ Hsame), !length_app, !length_take. lia.
Qed.

(** ** One round of reads *)

(** [B] ends the frames read so far; what is in the pool comes from the stream
    of frames that starts with the messages [ps] still to be read. *)
Lemma serve_reads_ok token rq : forall ps rest c rb t W B,
  ring_inv rb t W -> flag rb kConsumer = false -> Forall (payload_ok (ring_size rb)) ps ->
  rq_rel rq ps c -> take t W = B ++ part ps c ->
  agrees W (B ++ frames ps ++ rest) ->
  exists k rq' c' evs rb' t',
    serve_reads token rq (rb, newRole) = Done (rq', evs, (rb', newRole)) /\
    (k <= length ps)%nat /\ (t <= t')%nat /\
    ring_inv rb' t' W /\ same_ring kConsumer rb rb' /\ rq_rel rq' (drop k ps) c' /\
    take t' W = B ++ frames (take k ps) ++ part (drop k ps) c' /\
    (ro_fn_ <$> rq') = (ro_fn_ <$> drop k rq) /\
    served token evs (negb (t' =? t)%nat) (read_calls (ro_fn_ <$> take k rq) (take k ps)) [] /\
    r_head_stuck (drop k ps) c' (drop t' W).
Proof.
  induction rq as [|o rq IH]; intros ps rest c rb t W B Hinv Hf Hok Hrel Ht Hag.
  - destruct ps; [|done]. simpl in Hrel. subst c.
    exists 0%nat, [], 0%nat, [], rb, t. simpl in *. rewrite Nat.eqb_refl.
    split_and!; [done | lia | lia | done | by apply same_ring_refl | done | done | done
      | apply served_nil | done].
  - destruct ps as [|p ps]; [done|]. destruct Hrel as (Hr & Hc & Hfr).
    inversion_clear Hok as [|? ? Hokp Hokps]. pose proof (ri_le _ _ _ Hinv) as Hle.
    rewrite frames_cons in Hag. cbn [part] in Ht.
    assert (length (take t W) = t) as Htl by (rewrite length_take; lia).
    assert (agrees (drop t W) (drop c (frame p) ++ frames ps ++ rest)) as Hag1.
    { apply (agrees_drop _ _ t) in Hag; [|done]. rewrite Ht, length_app, length_take in Htl.
      replace t with (length B + c)%nat in Hag at 2 by lia.
      rewrite <- drop_drop, drop_app_length, <- app_assoc, drop_app_le in Hag by lia. done. }
    destruct (handleRead_ok rb t W o p c (frames ps ++ rest) Hinv Hf Hr Hokp Hag1)
      as (n & o1 & calls & rb1 & He & Hfn & Hn & Hinv1 & Hsame & Hcase).
    assert (c + n <= length (frame p) -> take (t + n) W = B ++ take (c + n) (frame p))%nat as Htn.
    { intros Hcn. rewrite <- take_take_drop, Ht, <- app_assoc. f_equal.
      rewrite <- take_take_drop. f_equal.
      apply (agrees_take _ _ _ n Hag1); [done | rewrite length_drop; lia]. }
    cbn [serve_reads]. unfold kNumRingbufferRoles. rewrite He, bind_done.
    destruct Hcase as [(Hd & -> & Hcn)|(Hd & -> & Hr1 & Hlt & Hst)]; rewrite Hd.
    + rewrite Hcn, firstn_all in Htn. specialize (Htn ltac:(lia)).
      assert (Forall (payload_ok (ring_size rb1)) ps) as Hok1 by (by rewrite (sr_size _ _ _ Hsame)).
      destruct (IH ps rest 0%nat rb1 (t + n)%nat W (B ++ frame p) Hinv1 (sr_free _ _ _ Hsame) Hok1
        (rq_rel_fresh _ _ Hfr))
        as (k & rq' & c' & evs & rb2 & t2 & He2 & Hk & Ht2 & Hi2 & Hs2 & Hq2 & Htk & Hfn2 & Hsv & Hst).
      { rewrite Htn. destruct ps; simpl; by rewrite app_nil_r. }
      { by rewrite <- !app_assoc in *. }
      rewrite He2, bind_done.
      exists (S k), rq', c', (((EvRead <$> [expected_call (ro_fn_ o) p]) ++
        (if 0 <? Z.of_nat n then [EvTrigger token] else [])) ++ evs), rb2, t2.
      cbn [take drop length]. rewrite frames_cons, (fmap_cons ro_fn_). rewrite <- !(app_assoc B) in *.
      rewrite <- !(app_assoc (frame p)) in *.
      split; [done|]. split; [lia|]. split; [lia|]. split; [done|]. split.
      { split; [by rewrite (sr_size _ _ _ Hs2), (sr_size _ _ _ Hsame) | apply Hs2|].
        intros j ??. rewrite (sr_other _ _ _ Hs2), (sr_other _ _ _ Hsame) by done. done. }
      split; [done|]. split; [done|]. split; [done|]. split; [|done].
      eapply (served_app _ _ _ _ _ _ [expected_call (ro_fn_ o) p] _ [] []);
        [apply served_one_r | exact Hsv|].
      intros Hm. apply negb_true_iff, Nat.eqb_neq in Hm.
      apply orb_true_iff. rewrite !negb_true_iff, !Nat.eqb_neq. lia.
    + exists 0%nat, (o1 :: rq), (c + n)%nat. eexists _, rb1, (t + n)%nat.
      split; [done|]. split; [lia|]. split; [lia|]. split; [done|]. split; [done|].
      split; [done|]. split; [by apply Htn; lia|]. split; [cbn [drop]; by rewrite !fmap_cons, Hfn|].
      split; [|done]. pose proof (served_one_r token n []) as [H1 H2 H3 H4].
      split; try done. intros Hm. apply H4. apply negb_true_iff, Nat.eqb_neq in Hm.
      apply negb_true_iff, Nat.eqb_neq. lia.
Qed.
End queues.

(** ** One direction *)

(** [d_initR]: the receiver has created the ring; [d_estS], [d_estR]: the
    sender and the receiver are established; [d_wtrig], [d_rtrig]: the sender
    and the receiver have a pending trigger.  [d_nsent] writes and [d_nread]
    reads were requested so far, and [d_wlog], [d_rlog] are the callbacks. *)
Record dir {T : Type} := mkDir {
  d_initR : bool;
  d_estS : bool;
  d_estR : bool;
  d_ring : RingBuffer;
  d_wq : list (RingbufferWriteOperation T);
  d_rq : list (RingbufferReadOperation T);
  d_wtrig : bool;
  d_rtrig : bool;
  d_nsent : nat;
  d_nread : nat;
  d_wlog : list write_call;
  d_rlog : list (read_call T);
}.
Arguments dir T : clear implicits.
#[export] Instance eta_dir {T} : Eta (dir T) := fun d =>
  mkDir T (d_initR d) (d_estS d) (d_estR d) (d_ring d) (d_wq d) (d_rq d) (d_wtrig d) (d_rtrig d)
    (d_nsent d) (d_nread d) (d_wlog d) (d_rlog d).

Definition triggered {T} (evs : list (event T)) : bool :=
  match triggers_of evs with [] => false | _ => true end.

Section direction.
Context {T : Type} `{NopEncodingLaws T}.

Definition dir_serve_w (token : Z) (d : dir T) : outcome (dir T) :=
  if d_estS d then
    '(wq, evs, (rb, _)) ← serve_writes token (d_wq d) (d_ring d, newRole);
    Done (d <| d_wq := wq |> <| d_ring := rb |> <| d_wlog ::= fun l => l ++ writes_of evs |>
            <| d_rtrig ::= orb (triggered evs) |>)
  else Done d.

Definition dir_serve_r (token : Z) (d : dir T) : outcome (dir T) :=
  if d_estR d then
    '(rq, evs, (rb, _)) ← serve_reads token (d_rq d) (d_ring d, newRole);
    Done (d <| d_rq := rq |> <| d_ring := rb |> <| d_rlog ::= fun l => l ++ reads_of evs |>
            <| d_wtrig ::= orb (triggered evs) |>)
  else Done d.

(** The messages [P] that will be sent in this direction, in order. *)
Context (P : list (payload T)).

(** What can happen to a direction.  A write sends the next message; a read is
    of the right kind for the message it will receive. *)
Inductive dstep : dir T -> dir T -> Prop :=
| ds_init d rb :
  d_initR d = false -> newRingBuffer kNumRingbufferRoles kBufferSize = Done rb ->
  dstep d (d <| d_initR := true |> <| d_ring := rb |>)
| ds_estS token d d' :
  d_initR d = true -> d_estS d = false ->
  dir_serve_w token (d <| d_estS := true |>) = Done d' -> dstep d d'
| ds_estR token d d' :
  d_initR d = true -> d_estR d = false ->
  dir_serve_r token (d <| d_estR := true |>) = Done d' -> dstep d d'
| ds_write token p d d' :
  P !! d_nsent d = Some p ->
  dir_serve_w token (d <| d_wq ::= fun q => q ++ [new_write p (d_nsent d)] |>
                       <| d_nsent ::= S |>) = Done d' -> dstep d d'
| ds_read token p rq d d' :
  P !! d_nread d = Some p -> rd_fresh (new_read rq (d_nread d)) p ->
  dir_serve_r token (d <| d_rq ::= fun q => q ++ [new_read rq (d_nread d)] |>
                       <| d_nread ::= S |>) = Done d' -> dstep d d'
| ds_wreact token b d d' :
  dir_serve_w token (d <| d_wtrig := b |>) = Done d' -> dstep d d'
| ds_rreact token b d d' :
  dir_serve_r token (d <| d_rtrig := b |>) = Done d' -> dstep d d'.

(** *** The invariant *)

(** [wd] is written and [wp] requested but not written out; likewise [rd] and
    [rp] for reads.  [c] and [c'] are the positions in the frames in progress. *)
Record dcore (d : dir T) (W : list Z) (t : nat) (wd wp wf rd rp rf : list (payload T))
    (c c' : nat) : Prop := {
  dc_w : P = wd ++ wp ++ wf;
  dc_nsent : d_nsent d = (length wd + length wp)%nat;
  dc_r : P = rd ++ rp ++ rf;
  dc_nread : d_nread d = (length rd + length rp)%nat;
  dc_wq : wq_rel (d_wq d) wp c;
  dc_wfn : wo_fn_ <$> d_wq d = seq (length wd) (length wp);
  dc_rq : rq_rel (d_rq d) rp c';
  dc_rfn : ro_fn_ <$> d_rq d = seq (length rd) (length rp);
  dc_W : W = frames wd ++ part wp c;
  dc_t : take t W = frames rd ++ part rp c';
  dc_tle : (t <= length W)%nat;
  dc_wlog : d_wlog d = (fun i => mkWriteCall i kSuccess) <$> seq 0 (length wd);
  dc_rlog : d_rlog d = read_calls (seq 0 (length rd)) rd;
  dc_ring : d_initR d = true ->
    ring_inv (d_ring d) t W /\ flag (d_ring d) kProducer = false /\
    flag (d_ring d) kConsumer = false /\ kBufferSize <= ring_size (d_ring d);
  dc_uninit : d_initR d = false -> d_estS d = false /\ d_estR d = false;
  dc_estS : d_estS d = false -> wd = [] /\ c = 0%nat;
  dc_estR : d_estR d = false -> rd = [] /\ c' = 0%nat;
  }.

Definition wake_w (d : dir T) W t wp c : Prop :=
  d_estS d = true -> d_wtrig d = true \/ w_head_stuck wp c (free_room (d_ring d) t W).
Definition wake_r (d : dir T) W t rp c' : Prop :=
  d_estR d = true -> d_rtrig d = true \/ r_head_stuck rp c' (drop t W).

Definition dinv (d : dir T) : Prop :=
  exists W t wd wp wf rd rp rf c c',
    dcore d W t wd wp wf rd rp rf c c' /\ wake_w d W t wp c /\ wake_r d W t rp c'.

Hypothesis HP : Forall (payload_ok kBufferSize) P.

Lemma served_triggered token evs m rds wrs :
  served (T := T) token evs m rds wrs -> m = true -> triggered evs = true.
Proof. intros [_ _ _ Hm] Ht. unfold triggered. specialize (Hm Ht). by destruct (triggers_of evs). Qed.

Lemma dir_serve_w_ok token d W t wd wp wf rd rp rf c c' :
  dcore d W t wd wp wf rd rp rf c c' -> wake_r d W t rp c' ->
  exists d', dir_serve_w token d = Done d' /\ dinv d'.
Proof.
  intros Hc Hr. unfold dir_serve_w. destruct (d_estS d) eqn:Hest.
  2:{ exists d. split; [done|]. exists W, t, wd, wp, wf, rd, rp, rf, c, c'.
      split; [done|]. split; [by unfold wake_w; rewrite Hest | done]. }
  pose proof Hc as [].
  assert (d_initR d = true) as Hi.
  { apply not_false_iff_true. intros E. destruct (dc_uninit0 E). congruence. }
  destruct (dc_ring0 Hi) as (Hinv & Hfp & Hfc & Hsz). subst W.
  assert (Forall (payload_ok (ring_size (d_ring d))) wp) as Hok.
  { apply (payload_ok_mono kBufferSize); [done|]. rewrite dc_w0, !Forall_app in HP. apply HP. }
  destruct (serve_writes_ok token (d_wq d) wp c (frames wd) (d_ring d) t Hinv Hfp Hok dc_wq0)
    as (k & wq' & c2 & evs & rb' & He & Hk & [ext Hext] & Hinv' & Hsame & Hq' & Hfn' & Hsv & Hst).
  rewrite He, bind_done. eexists. split; [done|].
  destruct (write_done_seq (d_wq d) (length wd) k (length wp) dc_wfn0 Hk) as [Hwl Hwf].
  assert (length (wd ++ take k wp) = length wd + k)%nat as Hlk
    by (rewrite length_app, length_take; lia).
  rewrite app_assoc, <- frames_app in Hinv', Hst, Hext, Hsv.
  exists (frames (wd ++ take k wp) ++ part (drop k wp) c2), t, (wd ++ take k wp), (drop k wp), wf,
    rd, rp, rf, c2, c'.
  split; [|split].
  - split; simpl; try done.
    + by rewrite <- app_assoc, (app_assoc (take k wp)), take_drop.
    + rewrite Hlk, length_drop. lia.
    + by rewrite Hlk, length_drop, Hfn', Hwf.
    + by rewrite Hext, take_app_le.
    + apply Hinv'.
    + rewrite Hlk, dc_wlog0, (sv_writes _ _ _ _ _ Hsv), Hwl, <- fmap_app, <- seq_app. done.
    + intros _. split; [done|]. split; [apply Hsame|]. split.
      * rewrite (sr_other _ _ _ Hsame) by (unfold kConsumer, kProducer; lia). done.
      * by rewrite (sr_size _ _ _ Hsame).
    + congruence.
  - intros _. by right.
  - intros He'. simpl. destruct (triggered evs) eqn:Ht; [by left|].
    destruct (Hr He') as [Hrt|Hrs]; [left; by rewrite Hrt, orb_true_r|]. right.
    destruct ext as [|x ext]; [by rewrite Hext, app_nil_r|].
    rewrite (served_triggered _ _ _ _ _ Hsv) in Ht; [done|].
    apply negb_true_iff, Nat.eqb_neq. rewrite Hext, length_app. simpl. lia.
Qed.

Lemma dir_serve_r_ok token d W t wd wp wf rd rp rf c c' :
  dcore d W t wd wp wf rd rp rf c c' -> wake_w d W t wp c ->
  exists d', dir_serve_r token d = Done d' /\ dinv d'.
Proof.
  intros Hc Hw. unfold dir_serve_r. destruct (d_estR d) eqn:Hest.
  2:{ exists d. split; [done|]. exists W, t, wd, wp, wf, rd, rp, rf, c, c'.
      split; [done|]. split; [done | by unfold wake_r; rewrite Hest]. }
  pose proof Hc as [].
  assert (d_initR d = true) as Hi.
  { apply not_false_iff_true. intros E. destruct (dc_uninit0 E). congruence. }
  destruct (dc_ring0 Hi) as (Hinv & Hfp & Hfc & Hsz).
  assert (Forall (payload_ok (ring_size (d_ring d))) rp) as Hok.
  { apply (payload_ok_mono kBufferSize); [done|]. rewrite dc_r0, !Forall_app in HP. apply HP. }
  assert (agrees W (frames rd ++ frames rp ++ frames rf)) as Hag.
  { pose proof (stream_agrees wd wp wf c) as Ha. rewrite <- dc_W0, <- dc_w0, dc_r0 in Ha.
    by rewrite !frames_app in Ha. }
  destruct (serve_reads_ok token (d_rq d) rp (frames rf) c' (d_ring d) t W (frames rd)
    Hinv Hfc Hok dc_rq0 dc_t0 Hag)
    as (k & rq' & c2 & evs & rb' & t' & He & Hk & Ht' & Hinv' & Hsame & Hq' & Htk & Hfn' & Hsv & Hst).
  rewrite He, bind_done. eexists. split; [done|].
  destruct (read_fns_seq (d_rq d) (length rd) k (length rp) dc_rfn0 Hk) as [Hrl Hrf].
  assert (length (rd ++ take k rp) = length rd + k)%nat as Hlk
    by (rewrite length_app, length_take; lia).
  rewrite app_assoc, <- frames_app in Htk.
  exists W, t', wd, wp, wf, (rd ++ take k rp), (drop k rp), rf, c, c2.
  split; [|split].
  - split; simpl; try done.
    + by rewrite <- app_assoc, (app_assoc (take k rp)), take_drop.
    + rewrite Hlk, length_drop. lia.
    + by rewrite Hlk, length_drop, Hfn', Hrf.
    + apply Hinv'.
    + rewrite Hlk, dc_rlog0, (sv_reads _ _ _ _ _ Hsv), Hrl, seq_app.
      symmetry. apply read_calls_app. apply length_seq.
    + intros _. split; [done|]. split.
      * rewrite (sr_other _ _ _ Hsame) by (unfold kConsumer, kProducer; lia). done.
      * split; [apply Hsame|]. by rewrite (sr_size _ _ _ Hsame).
    + congruence.
  - intros He'. simpl. destruct (triggered evs) eqn:Ht; [by left|].
    destruct (Hw He') as [Hrt|Hrs]; [left; by rewrite Hrt, orb_true_r|]. right.
    destruct (decide (t' = t)) as [->|Hne].
    + unfold free_room in *. by rewrite (sr_size _ _ _ Hsame).
    + rewrite (served_triggered _ _ _ _ _ Hsv) in Ht; [done|].
      by apply negb_true_iff, Nat.eqb_neq.
  - intros _. by right.
Qed.

(** *** New requests *)

Lemma dinv_write d W t wd wp wf rd rp rf c c' p :
  dcore d W t wd wp wf rd rp rf c c' -> P !! d_nsent d = Some p ->
  exists wf', dcore (d <| d_wq ::= fun q => q ++ [new_write p (d_nsent d)] |> <| d_nsent ::= S |>)
    W t wd (wp ++ [p]) wf' rd rp rf c c'.
Proof.
  intros [] Hp. destruct (queue_next P wd wp wf p _ dc_w0 dc_nsent0 Hp) as (wf' & -> & HPe).
  assert (wp = [] -> c = 0%nat) as Hc0.
  { intros ->. by destruct (d_wq d). }
  exists wf'. split; simpl; try done.
  - rewrite length_app, dc_nsent0. simpl. lia.
  - apply wq_rel_snoc; [done | apply new_write_fresh].
  - rewrite fmap_app, dc_wfn0, length_app, seq_app. simpl. by rewrite new_write_fn, dc_nsent0.
  - by rewrite part_snoc.
Qed.

Lemma dinv_read d W t wd wp wf rd rp rf c c' p rq :
  dcore d W t wd wp wf rd rp rf c c' -> P !! d_nread d = Some p ->
  rd_fresh (new_read rq (d_nread d)) p ->
  exists rf', dcore (d <| d_rq ::= fun q => q ++ [new_read rq (d_nread d)] |> <| d_nread ::= S |>)
    W t wd wp wf rd (rp ++ [p]) rf' c c'.
Proof.
  intros [] Hp Hfr. destruct (queue_next P rd rp rf p _ dc_r0 dc_nread0 Hp) as (rf' & -> & HPe).
  assert (rp = [] -> c' = 0%nat) as Hc0.
  { intros ->. by destruct (d_rq d). }
  exists rf'. split; simpl; try done.
  - rewrite length_app, dc_nread0. simpl. lia.
  - by apply rq_rel_snoc.
  - rewrite fmap_app, dc_rfn0, length_app, seq_app. simpl. by rewrite new_read_fn, dc_nread0.
  - by rewrite part_snoc.
Qed.

(** *** Every step can be taken and keeps the invariant *)

Lemma dinv_estS token d :
  dinv d -> d_initR d = true ->
  exists d', dir_serve_w token (d <| d_estS := true |>) = Done d' /\ dinv d'.
Proof.
  intros (W & t & wd & wp & wf & rd & rp & rf & c & c' & Hc & Hw & Hr) Hi.
  apply (dir_serve_w_ok token _ W t wd wp wf rd rp rf c c'); [|done].
  destruct Hc. split; simpl; try done. congruence.
Qed.

Lemma dinv_estR token d :
  dinv d -> d_initR d = true ->
  exists d', dir_serve_r token (d <| d_estR := true |>) = Done d' /\ dinv d'.
Proof.
  intros (W & t & wd & wp & wf & rd & rp & rf & c & c' & Hc & Hw & Hr) Hi.
  apply (dir_serve_r_ok token _ W t wd wp wf rd rp rf c c'); [|done].
  destruct Hc. split; simpl; try done. congruence.
Qed.

Lemma dinv_new_write token d p :
  dinv d -> P !! d_nsent d = Some p ->
  exists d', dir_serve_w token (d <| d_wq ::= fun q => q ++ [new_write p (d_nsent d)] |>
                                 <| d_nsent ::= S |>) = Done d' /\ dinv d'.
Proof.
  intros (W & t & wd & wp & wf & rd & rp & rf & c & c' & Hc & Hw & Hr) Hp.
  destruct (dinv_write _ _ _ _ _ _ _ _ _ _ _ _ Hc Hp) as [wf' Hc2].
  by apply (dir_serve_w_ok token _ _ _ _ _ _ _ _ _ _ _ Hc2).
Qed.

Lemma dinv_new_read token d p rq :
  dinv d -> P !! d_nread d = Some p -> rd_fresh (new_read rq (d_nread d)) p ->
  exists d', dir_serve_r token (d <| d_rq ::= fun q => q ++ [new_read rq (d_nread d)] |>
                                 <| d_nread ::= S |>) = Done d' /\ dinv d'.
Proof.
  intros (W & t & wd & wp & wf & rd & rp & rf & c & c' & Hc & Hw & Hr) Hp Hfr.
  destruct (dinv_read _ _ _ _ _ _ _ _ _ _ _ _ _ Hc Hp Hfr) as [rf' Hc2].
  by apply (dir_serve_r_ok token _ _ _ _ _ _ _ _ _ _ _ Hc2).
Qed.

Lemma dinv_wreact token b d :
  dinv d -> exists d', dir_serve_w token (d <| d_wtrig := b |>) = Done d' /\ dinv d'.
Proof.
  intros (W & t & wd & wp & wf & rd & rp & rf & c & c' & Hc & Hw & Hr).
  apply (dir_serve_w_ok token _ W t wd wp wf rd rp rf c c'); [|done]. by destruct Hc.
Qed.

Lemma dinv_rreact token b d :
  dinv d -> exists d', dir_serve_r token (d <| d_rtrig := b |>) = Done d' /\ dinv d'.
Proof.
  intros (W & t & wd & wp & wf & rd & rp & rf & c & c' & Hc & Hw & Hr).
  apply (dir_serve_r_ok token _ W t wd wp wf rd rp rf c c'); [|done]. by destruct Hc.
Qed.

Lemma new_inbox rb :
  newRingBuffer kNumRingbufferRoles kBufferSize = Done rb ->
  ring_inv rb 0 [] /\ flag rb kProducer = false /\ flag rb kConsumer = false /\
  kBufferSize <= ring_size rb.
Proof.
  intros Hrb. destruct (newRingBuffer_inv kBufferSize) as (rb' & Hrb' & Hinv & Hsz & H1 & H2);
    [unfold kBufferSize; lia|].
  pose proof (done_inj _ _ (eq_trans (eq_sym Hrb) Hrb')) as ->.
  clear Hrb Hrb'. auto.
Qed.

Lemma dinv_init d rb :
  dinv d -> d_initR d = false -> newRingBuffer kNumRingbufferRoles kBufferSize = Done rb ->
  dinv (d <| d_initR := true |> <| d_ring := rb |>).
Proof.
  intros (W & t & wd & wp & wf & rd & rp & rf & c & c' & Hc & Hw & Hr) Hi Hrb.
  apply new_inbox in Hrb. destruct (dc_uninit _ _ _ _ _ _ _ _ _ _ _ Hc Hi) as [HS HR].
  exists W, t, wd, wp, wf, rd, rp, rf, c, c'. split.
  - destruct Hc. destruct (dc_estS0 HS) as [-> ->].
    assert (part wp 0 = []) as Hp0 by (by destruct wp). rewrite Hp0 in dc_W0. simpl in dc_W0.
    subst W. assert (t = 0%nat) as -> by (simpl in *; lia).
    split; try done.
  - split; [intros He | intros He]; simpl in He; congruence.
Qed.

Lemma dinv_dstep d d' : dinv d -> dstep d d' -> dinv d'.
Proof.
  intros Hd Hstep. destruct Hstep as [d0 rb Hi Hrb|tk d0 d1 Hi Hs He|tk d0 d1 Hi Hs He|tk p d0 d1 Hp He|tk p rq d0 d1 Hp Hf He
    |tk b d0 d1 He|tk b d0 d1 He].
  - exact (dinv_init _ _ Hd Hi Hrb).
  - destruct (dinv_estS tk d0 Hd Hi) as (d2 & He2 & ?). congruence.
  - destruct (dinv_estR tk d0 Hd Hi) as (d2 & He2 & ?). congruence.
  - destruct (dinv_new_write tk d0 p Hd Hp) as (d2 & He2 & ?). congruence.
  - destruct (dinv_new_read tk d0 p rq Hd Hp Hf) as (d2 & He2 & ?). congruence.
  - destruct (dinv_wreact tk b d0 Hd) as (d2 & He2 & ?). congruence.
  - destruct (dinv_rreact tk b d0 Hd) as (d2 & He2 & ?). congruence.
Qed.

(** *** What the invariant says *)

(** Nothing is read before it was written. *)
Lemma dcore_causal d W t wd wp wf rd rp rf c c' :
  dcore d W t wd wp wf rd rp rf c c' -> (length rd <= length wd)%nat.
Proof.
  intros []. destruct (decide (length rd <= length wd)%nat) as [|Hgt]; [done|exfalso].
  assert (wd `prefix_of` rd) as [ext Hext].
  { apply (prefix_shorter _ _ P); [by eexists | by eexists | lia]. }
  destruct ext as [|p ext]; [rewrite Hext, app_nil_r in Hgt; lia|].
  assert (exists rest, wp ++ wf = p :: rest) as [rest Hrest].
  { rewrite dc_w0, Hext, <- app_assoc in dc_r0. apply app_inv_head in dc_r0.
    rewrite dc_r0. by eexists. }
  pose proof (part_lt _ _ _ _ _ _ dc_wq0 Hrest) as Hlt.
  apply (f_equal length) in dc_t0. rewrite length_take, Hext, frames_app, frames_cons in dc_t0.
  rewrite dc_W0 in dc_t0, dc_tle0. rewrite !length_app in *. lia.
Qed.

(** Callbacks are called in order, once each, and reads get what was written. *)
Lemma dinv_delivery d :
  dinv d -> exists m m',
    (m' <= m <= d_nsent d)%nat /\ (m' <= d_nread d)%nat /\
    d_wlog d = (fun i => mkWriteCall i kSuccess) <$> seq 0 m /\
    d_rlog d = read_calls (seq 0 m') (take m' P).
Proof.
  intros (W & t & wd & wp & wf & rd & rp & rf & c & c' & Hc & _ & _).
  pose proof (dcore_causal _ _ _ _ _ _ _ _ _ _ _ Hc). destruct Hc.
  exists (length wd), (length rd). split; [lia|]. split; [lia|].
  split; [done|]. by rewrite dc_r0, take_app_length.
Qed.

(** With both ends established and no trigger pending, everything that was both
    sent and asked for has been delivered, and what is delivered is acknowledged. *)
Lemma dinv_quiescent d :
  dinv d -> d_estS d = true -> d_estR d = true -> d_wtrig d = false -> d_rtrig d = false ->
  length (d_rlog d) = (d_nsent d `min` d_nread d)%nat /\
  ((d_nread d <= d_nsent d)%nat -> (d_nread d <= length (d_wlog d))%nat) /\
  ((d_nsent d <= d_nread d)%nat -> length (d_wlog d) = d_nsent d).
Proof.
  intros (W & t & wd & wp & wf & rd & rp & rf & c & c' & Hc & Hw & Hr) HS HR Hwt Hrt.
  pose proof (dcore_causal _ _ _ _ _ _ _ _ _ _ _ Hc) as Hcaus.
  destruct (Hw HS) as [|Hws]; [congruence|]. destruct (Hr HR) as [|Hrs]; [congruence|].
  destruct Hc. assert (d_initR d = true) as Hi.
  { apply not_false_iff_true. intros E. destruct (dc_uninit0 E). congruence. }
  destruct (dc_ring0 Hi) as (Hinv & _ & _ & Hsz).
  assert (rp = [] \/ (length rd = length wd /\ wp = [])) as Hcase.
  { apply (quiescent_cases kBufferSize (d_wq d) (d_rq d) W t wd wp wf rd rp rf c c'
      (free_room (d_ring d) t W) (ring_size (d_ring d))); try done.
    - by rewrite <- dc_w0.
    - rewrite dc_r0, !Forall_app in HP. apply HP. }
  rewrite dc_rlog0, dc_wlog0. unfold read_calls. rewrite length_zip_with, length_fmap, !length_seq.
  destruct Hcase as [->|[He ->]]; simpl in *; lia.
Qed.
End direction.
