(* ===== verification/ShmPair.v ===== *)
(** * The shared-memory transport end to end

    Two connections of [ShmConnection], each with its own reactor, joined by a
    socket (over which they exchange their reactor tokens and rings) and by the
    two rings.  Users write and read, sockets become ready and reactors deliver
    triggers in any order.  The handlers are those of the code; what is proved
    is that each direction behaves as the abstract direction of [ShmWorld], so
    that messages arrive once, in order and intact, and no wake-up is lost. *)

From S2P Require Import Prelude System RingBuffer RingBufferTx Nop RingbufferOps RingbufferQueues ShmConnection.
From S2P Require Import ShmWorld.

Record pair {T : Type} := mkPair {
  pr_a : ConnectionImpl T;
  pr_b : ConnectionImpl T;
  pr_ab : RingBuffer;                 (* the inbox of b *)
  pr_ba : RingBuffer;                 (* the inbox of a *)
  pr_trig_a : list Z;                 (* pending in the reactor of a *)
  pr_trig_b : list Z;
  pr_fds_a : option (Z * Z);          (* the tokens a has sent over the socket *)
  pr_fds_b : option (Z * Z);
  pr_log_a : list (event T);
  pr_log_b : list (event T);
  pr_sent_a : nat;                    (* requests made so far *)
  pr_asked_a : nat;
  pr_sent_b : nat;
  pr_asked_b : nat;
}.
Arguments pair T : clear implicits.
#[export] Instance eta_pair {T} : Eta (pair T) := fun w =>
  mkPair T (pr_a w) (pr_b w) (pr_ab w) (pr_ba w) (pr_trig_a w) (pr_trig_b w) (pr_fds_a w)
    (pr_fds_b w) (pr_log_a w) (pr_log_b w) (pr_sent_a w) (pr_asked_a w) (pr_sent_b w) (pr_asked_b w).

(** The same pair seen from the other end. *)
Definition flip_pair {T} (w : pair T) : pair T :=
  mkPair T (pr_b w) (pr_a w) (pr_ba w) (pr_ab w) (pr_trig_b w) (pr_trig_a w) (pr_fds_b w)
    (pr_fds_a w) (pr_log_b w) (pr_log_a w) (pr_sent_b w) (pr_asked_b w) (pr_sent_a w) (pr_asked_a w).

Definition fds_of {T} (evs : list (event T)) : list (Z * Z) :=
  omap (fun e => match e with EvSendFds i o => Some (i, o) | _ => None end) evs.

Section pair.
Context {T : Type} `{NopEncodingLaws T}.

Definition ep_a (w : pair T) : endpoint T := mkEndpoint (pr_a w) (pr_ba w) (pr_ab w).

(** The pair after a handler of end [a]: its triggers go to the reactor of [b]. *)
Definition commit (w : pair T) (e : endpoint T) (evs : list (event T)) : pair T :=
  mkPair T (ep_conn e) (pr_b w) (ep_outbox e) (ep_inbox e)
    (pr_trig_a w) (pr_trig_b w ++ triggers_of evs)
    (match last (fds_of evs) with Some f => Some f | None => pr_fds_a w end) (pr_fds_b w)
    (pr_log_a w ++ evs) (pr_log_b w)
    (pr_sent_a w) (pr_asked_a w) (pr_sent_b w) (pr_asked_b w).

Definition run_a (r : outcome (endpoint T * list (event T))) (w : pair T) : outcome (pair T) :=
  '(e, evs) ← r; Done (commit w e evs).

Inductive act :=
| ActInit (inboxToken outboxToken : Z)   (* [initFromLoop] *)
| ActOut                                 (* the socket is writable *)
| ActIn                                  (* the peer's tokens and ring arrived *)
| ActWrite                               (* the user writes the next message *)
| ActRead (rq : read_request)            (* the user asks for the next message *)
| ActReact.                              (* the reactor delivers a trigger *)

Definition all_well (inboxToken outboxToken : Z) : init_env :=
  mkInitEnv false kSuccess kSuccess kSuccess inboxToken outboxToken.

Definition react (tok : Z) (e : endpoint T) : outcome (endpoint T * list (event T)) :=
  if decide (cn_inboxReactorToken_ (ep_conn e) = Some tok) then processReadOperationsFromLoop e
  else if decide (cn_outboxReactorToken_ (ep_conn e) = Some tok) then processWriteOperationsFromLoop e
  else Done (e, []).

(** [None] when the action is not possible.  [Pab] and [Pba] are the messages
    to send in each direction. *)
Definition act_a (Pab Pba : list (payload T)) (x : act) (w : pair T) : option (outcome (pair T)) :=
  match x with
  | ActInit i o =>
      if decide (cn_state_ (pr_a w) = INITIALIZING /\ i <> o)
      then Some (run_a (initFromLoop (all_well i o) (ep_a w)) w) else None
  | ActOut =>
      if decide (cn_state_ (pr_a w) = SEND_FDS)
      then Some (run_a (handleEventOutFromLoop kSuccess (ep_a w)) w) else None
  | ActIn =>
      match cn_state_ (pr_a w), pr_fds_b w with
      | RECV_FDS, Some (i, o) =>
          Some (run_a (handleEventInFromLoop (inr (i, o, pr_ab w)) (ep_a w)) w)
      | _, _ => None
      end
  | ActWrite =>
      match Pab !! pr_sent_a w with
      | Some p => Some (run_a (writeFromLoop p (pr_sent_a w) (ep_a w)) (w <| pr_sent_a ::= S |>))
      | None => None
      end
  | ActRead rq =>
      match Pba !! pr_asked_a w with
      | Some p =>
          if read_fits rq p
          then Some (run_a (readFromLoop rq (pr_asked_a w) (ep_a w)) (w <| pr_asked_a ::= S |>))
          else None
      | None => None
      end
  | ActReact =>
      match pr_trig_a w with
      | tok :: rest => Some (run_a (react tok (ep_a w)) (w <| pr_trig_a := rest |>))
      | [] => None
      end
  end.

Inductive pair_step (Pab Pba : list (payload T)) : pair T -> pair T -> Prop :=
| ps_a x w w' : act_a Pab Pba x w = Some (Done w') -> pair_step Pab Pba w w'
| ps_b x w w' : act_a Pba Pab x (flip_pair w) = Some (Done w') -> pair_step Pab Pba w (flip_pair w').

(** One end was given a socket by its listener, the other one connects. *)
Definition empty_ring : RingBuffer := mkRb (mkHeader 0 0 [] []) [].
Definition initial_pair : pair T :=
  mkPair T (newConnection true) (newConnection false) empty_ring empty_ring [] [] None None [] []
    0 0 0 0.

Definition pair_reachable (Pab Pba : list (payload T)) (w : pair T) : Prop :=
  rtc (pair_step Pab Pba) initial_pair w.

(** ** The abstraction: the direction from a to b *)

Definition pending (o : option Z) (l : list Z) : bool :=
  match o with Some t => bool_decide (t ∈ l) | None => false end.

Definition dir_ab (w : pair T) : dir T :=
  mkDir T (negb (bool_decide (cn_state_ (pr_b w) = INITIALIZING)))
    (bool_decide (cn_state_ (pr_a w) = ESTABLISHED))
    (bool_decide (cn_state_ (pr_b w) = ESTABLISHED))
    (pr_ab w) (cn_writeOperations_ (pr_a w)) (cn_readOperations_ (pr_b w))
    (pending (cn_outboxReactorToken_ (pr_a w)) (pr_trig_a w))
    (pending (cn_inboxReactorToken_ (pr_b w)) (pr_trig_b w))
    (pr_sent_a w) (pr_asked_b w) (writes_of (pr_log_a w)) (reads_of (pr_log_b w)).

(** The state of the handshake at end [a]. *)
Definition sent_fds (s : ShmState) : bool :=
  match s with RECV_FDS | ESTABLISHED => true | _ => false end.

Record hs (w : pair T) : Prop := {
  hs_error : cn_error_ (pr_a w) = kSuccess;
  hs_tokens : cn_state_ (pr_a w) <> INITIALIZING -> exists i o,
    cn_inboxReactorToken_ (pr_a w) = Some i /\ cn_outboxReactorToken_ (pr_a w) = Some o /\ i <> o;
  hs_init : cn_state_ (pr_a w) = INITIALIZING ->
    cn_inboxReactorToken_ (pr_a w) = None /\ cn_outboxReactorToken_ (pr_a w) = None;
  hs_fds : if sent_fds (cn_state_ (pr_a w)) then
      exists i o, pr_fds_a w = Some (i, o) /\ cn_inboxReactorToken_ (pr_a w) = Some i /\
        cn_outboxReactorToken_ (pr_a w) = Some o
    else pr_fds_a w = None;
  hs_peer : cn_state_ (pr_a w) = ESTABLISHED -> exists i o, pr_fds_b w = Some (i, o) /\
    cn_peerInboxReactorToken_ (pr_a w) = Some i /\ cn_peerOutboxReactorToken_ (pr_a w) = Some o;
  }.

Definition pinv (Pab Pba : list (payload T)) (w : pair T) : Prop :=
  hs w /\ hs (flip_pair w) /\ dinv Pab (dir_ab w) /\ dinv Pba (dir_ab (flip_pair w)).

Lemma flip_flip (w : pair T) : flip_pair (flip_pair w) = w.
Proof. by destruct w. Qed.

Lemma pinv_flip Pab Pba w : pinv Pab Pba w -> pinv Pba Pab (flip_pair w).
Proof. intros (H1 & H2 & H3 & H4). unfold pinv. rewrite flip_flip. done. Qed.

(** ** The events of a round *)

Lemma served_events_nil token (n : Z) :
  Forall (eq token) (triggers_of (T := T) (if 0 <? n then [EvTrigger token] else [])) /\
  reads_of (T := T) (if 0 <? n then [EvTrigger token] else []) = [] /\
  writes_of (T := T) (if 0 <? n then [EvTrigger token] else []) = [] /\
  fds_of (T := T) (if 0 <? n then [EvTrigger token] else []) = [].
Proof. destruct (0 <? n); split_and!; try done. by constructor. Qed.

Lemma fds_of_app (a b : list (event T)) : fds_of (a ++ b) = fds_of a ++ fds_of b.
Proof. apply omap_app. Qed.

Lemma fds_of_calls_w (l : list write_call) : fds_of (T := T) (EvWrite <$> l) = [].
Proof. by induction l. Qed.
Lemma fds_of_calls_r (l : list (read_call T)) : fds_of (EvRead <$> l) = [].
Proof. by induction l. Qed.

Lemma serve_writes_events token wq : forall s wq' evs s',
  serve_writes (T := T) token wq s = Done (wq', evs, s') ->
  Forall (eq token) (triggers_of evs) /\ reads_of evs = [] /\ fds_of evs = [].
Proof.
  induction wq as [|o wq IH]; cbn [serve_writes]; intros s wq' evs s' He; [by simplify_eq|].
  inv_bind He. destruct a as [[[n o1] calls] s1].
  destruct (served_events_nil token n) as (N1 & N2 & N3 & N4).
  destruct (omap_EvWrite (T := T) calls) as (E1 & E2 & E3).
  destruct (write_completed o1).
  - inv_bind He. destruct a as [[ops evs'] s2]. simplify_eq.
    destruct (IH _ _ _ _ Ha0) as (I1 & I2 & I3). autorewrite with events. rewrite !fds_of_app.
    rewrite E1, E3, N2, N4, I2, I3, fds_of_calls_w. split; [|done].
    by apply Forall_app.
  - simplify_eq. autorewrite with events. rewrite fds_of_app, E1, E3, N2, N4, fds_of_calls_w.
    by split_and!.
Qed.

Lemma serve_reads_events token rq : forall s rq' evs s',
  serve_reads (T := T) token rq s = Done (rq', evs, s') ->
  Forall (eq token) (triggers_of evs) /\ writes_of evs = [] /\ fds_of evs = [].
Proof.
  induction rq as [|o rq IH]; cbn [serve_reads]; intros s rq' evs s' He; [by simplify_eq|].
  inv_bind He. destruct a as [[[n o1] calls] s1].
  destruct (served_events_nil token n) as (N1 & N2 & N3 & N4).
  destruct (omap_EvRead calls) as (E1 & E2 & E3).
  destruct (read_completed o1).
  - inv_bind He. destruct a as [[ops evs'] s2]. simplify_eq.
    destruct (IH _ _ _ _ Ha0) as (I1 & I2 & I3). autorewrite with events. rewrite !fds_of_app.
    rewrite E2, E3, N3, N4, I2, I3, fds_of_calls_r. split; [|done].
    by apply Forall_app.
  - simplify_eq. autorewrite with events. rewrite fds_of_app, E2, E3, N3, N4, fds_of_calls_r.
    by split_and!.
Qed.

Lemma pending_app o l toks token :
  Forall (eq token) toks ->
  pending o (l ++ toks) = pending o l || (bool_decide (o = Some token) && bool_decide (toks <> [])).
Proof.
  intros Hf. destruct o as [t|]; simpl; [|done].
  assert (bool_decide (t ∈ l ++ toks) = bool_decide (t ∈ l) || bool_decide (t ∈ toks)) as ->.
  { rewrite <- bool_decide_or. apply bool_decide_ext. apply elem_of_app. }
  f_equal. rewrite <- bool_decide_and. apply bool_decide_ext.
  rewrite Forall_forall in Hf. split.
  - intros Ht. split; [by rewrite (Hf t Ht) | intros ->; set_solver].
  - intros [[= ->] Hne]. destruct toks as [|x toks]; [done|].
    assert (x ∈ x :: toks) as Hx by set_solver. by rewrite (Hf x Hx).
Qed.

(** ** One round of a handler, committed *)

Lemma run_a_done e evs w : run_a (Done (e, evs)) w = Done (commit w e evs).
Proof. done. Qed.

Lemma commit_nil w : commit w (ep_a w) [] = w.
Proof. destruct w. unfold commit. simpl. by rewrite !app_nil_r. Qed.

Lemma ep_a_commit w e evs : ep_a (commit w e evs) = e.
Proof. by destruct e. Qed.

Lemma commit_commit w e1 evs1 e2 evs2 :
  commit (commit w e1 evs1) e2 evs2 = commit w e2 (evs1 ++ evs2).
Proof.
  unfold commit. simpl. autorewrite with events. rewrite fds_of_app, <- !app_assoc.
  f_equal. destruct (fds_of evs2) as [|x l] eqn:E using rev_ind; [by rewrite app_nil_r|].
  by rewrite (app_assoc (fds_of evs1)), !last_snoc.
Qed.

Lemma triggered_decide (evs : list (event T)) :
  triggered evs = bool_decide (triggers_of evs <> []).
Proof. unfold triggered. by destruct (triggers_of evs). Qed.

(** The peer's tokens, as the handshake has set them. *)
Lemma peer_tokens w :
  hs w -> hs (flip_pair w) -> cn_state_ (pr_a w) = ESTABLISHED ->
  exists i o, cn_peerInboxReactorToken_ (pr_a w) = Some i /\
    cn_peerOutboxReactorToken_ (pr_a w) = Some o /\
    cn_inboxReactorToken_ (pr_b w) = Some i /\ cn_outboxReactorToken_ (pr_b w) = Some o /\ i <> o.
Proof.
  intros Ha Hb He. destruct (hs_peer _ Ha He) as (i & o & Hf & Hi & Ho).
  pose proof (hs_fds _ Hb) as Hfb. simpl in Hfb. rewrite Hf in Hfb.
  destruct (sent_fds (cn_state_ (pr_b w))) eqn:Hs; [|done].
  destruct Hfb as (i' & o' & [= <- <-] & Hi' & Ho').
  destruct (hs_tokens _ Hb) as (i2 & o2 & Hi2 & Ho2 & Hne).
  { simpl. intros E. by rewrite E in Hs. }
  simpl in *. simplify_eq. eauto 10.
Qed.

Section rounds.
Context (Pab Pba : list (payload T)) (w : pair T).
Hypothesis Ha : hs w.
Hypothesis Hb : hs (flip_pair w).

Lemma write_round :
  (forall token, exists d, dir_serve_w token (dir_ab w) = Done d /\ dinv Pab d) ->
  exists e evs, processWriteOperationsFromLoop (ep_a w) = Done (e, evs) /\
  hs (commit w e evs) /\ hs (flip_pair (commit w e evs)) /\
  dinv Pab (dir_ab (commit w e evs)) /\
  dir_ab (flip_pair (commit w e evs)) = dir_ab (flip_pair w).
Proof.
  intros Hd1. unfold processWriteOperationsFromLoop.
  change (ep_conn (ep_a w)) with (pr_a w). change (ep_outbox (ep_a w)) with (pr_ab w).
  unfold dir_serve_w in Hd1. cbn [dir_ab d_estS d_wq d_ring] in Hd1.
  destruct (bool_decide_reflect (cn_state_ (pr_a w) = ESTABLISHED)) as [He|He].
  2:{ eexists _, []. split; [done|]. rewrite commit_nil.
    destruct (Hd1 0) as (d & [= <-] & Hd). by split_and!. }
  cbn [negb]. destruct (cn_writeOperations_ (pr_a w)) as [|o wq] eqn:Hwq.
  { eexists _, []. split; [done|]. rewrite commit_nil. destruct (Hd1 0) as (d & [= <-] & Hd).
  split_and!; try done. replace (dir_ab w) with (dir_ab w <| d_wq := [] |> <| d_ring := pr_ab w |>
    <| d_wlog ::= fun l => l ++ [] |> <| d_rtrig ::= orb false |>); [done|].
  unfold dir_ab, field_update. simpl. by rewrite Hwq, app_nil_r. }
  destruct (peer_tokens w Ha Hb He) as (i & oo & Hpi & Hpo & Hi & Ho & Hne). rewrite Hpi.
  cbn [opt_value]. rewrite bind_done. destruct (Hd1 i) as (d & Hs & Hd).
  destruct (serve_writes i (o :: wq) (pr_ab w, newRole)) as [[[ops evs] [rb r]]|] eqn:Hsv; [|done].
  rewrite bind_done in Hs. injection Hs as <-. rewrite bind_done.
  eexists _, evs. split; [done|]. destruct (serve_writes_events _ _ _ _ _ _ Hsv) as (Ht & Hr & Hfd).
  assert (forall x, pending x (pr_trig_b w ++ triggers_of evs) =
  pending x (pr_trig_b w) || (bool_decide (x = Some i) && triggered evs)) as Hpend.
  { intros x. by rewrite (pending_app x _ _ i), triggered_decide. }
  split_and!.
  - destruct Ha. split; simpl; try done. by rewrite Hfd.
  - destruct Hb. split; simpl; try done. by rewrite Hfd.
  - match goal with |- dinv _ ?x => match type of Hd with dinv _ ?y => replace x with y; [done|] end end.
  unfold dir_ab, field_update. simpl. rewrite Hpend, Hi, writes_of_app.
  rewrite (bool_decide_eq_true_2 (Some i = Some i)) by done. simpl. by rewrite orb_comm.
  - unfold dir_ab, flip_pair. simpl. rewrite Hpend, Ho, reads_of_app, Hr, app_nil_r.
  rewrite (bool_decide_eq_false_2 (Some oo = Some i)) by congruence. by rewrite orb_false_r.
Qed.

Lemma read_round :
  (forall token, exists d, dir_serve_r token (dir_ab (flip_pair w)) = Done d /\ dinv Pba d) ->
  exists e evs, processReadOperationsFromLoop (ep_a w) = Done (e, evs) /\
  hs (commit w e evs) /\ hs (flip_pair (commit w e evs)) /\
  dinv Pba (dir_ab (flip_pair (commit w e evs))) /\ dir_ab (commit w e evs) = dir_ab w.
Proof.
  intros Hd1. unfold processReadOperationsFromLoop.
  change (ep_conn (ep_a w)) with (pr_a w). change (ep_inbox (ep_a w)) with (pr_ba w).
  unfold dir_serve_r in Hd1. cbn [dir_ab flip_pair pr_a pr_b pr_ab d_estR d_rq d_ring] in Hd1.
  destruct (bool_decide_reflect (cn_state_ (pr_a w) = ESTABLISHED)) as [He|He].
  2:{ eexists _, []. split; [done|]. rewrite commit_nil.
    destruct (Hd1 0) as (d & [= <-] & Hd). by split_and!. }
  cbn [negb]. destruct (cn_readOperations_ (pr_a w)) as [|o rq] eqn:Hrq.
  { eexists _, []. split; [done|]. rewrite commit_nil. destruct (Hd1 0) as (d & [= <-] & Hd).
  split_and!; try done. replace (dir_ab (flip_pair w)) with (dir_ab (flip_pair w) <| d_rq := [] |>
    <| d_ring := pr_ba w |> <| d_rlog ::= fun l => l ++ [] |> <| d_wtrig ::= orb false |>); [done|].
  unfold dir_ab, field_update. simpl. by rewrite Hrq, app_nil_r. }
  destruct (peer_tokens w Ha Hb He) as (i & oo & Hpi & Hpo & Hi & Ho & Hne). rewrite Hpo.
  cbn [opt_value]. rewrite bind_done. destruct (Hd1 oo) as (d & Hs & Hd).
  destruct (serve_reads oo (o :: rq) (pr_ba w, newRole)) as [[[ops evs] [rb r]]|] eqn:Hsv; [|done].
  rewrite bind_done in Hs. injection Hs as <-. rewrite bind_done.
  eexists _, evs. split; [done|]. destruct (serve_reads_events _ _ _ _ _ _ Hsv) as (Ht & Hr & Hfd).
  assert (forall x, pending x (pr_trig_b w ++ triggers_of evs) =
  pending x (pr_trig_b w) || (bool_decide (x = Some oo) && triggered evs)) as Hpend.
  { intros x. by rewrite (pending_app x _ _ oo), triggered_decide. }
  split_and!.
  - destruct Ha. split; simpl; try done. by rewrite Hfd.
  - destruct Hb. split; simpl; try done. by rewrite Hfd.
  - match goal with |- dinv _ ?x => match type of Hd with dinv _ ?y => replace x with y; [done|] end end.
  unfold dir_ab, field_update. simpl. rewrite Hpend, Ho, reads_of_app.
  rewrite (bool_decide_eq_true_2 (Some oo = Some oo)) by done. simpl. by rewrite orb_comm.
  - unfold dir_ab. simpl. rewrite Hpend, Hi, writes_of_app, Hr, app_nil_r.
  rewrite (bool_decide_eq_false_2 (Some i = Some oo)) by congruence. by rewrite orb_false_r.
Qed.
End rounds.

(** ** Every action can be carried out and keeps the invariant *)

(** Events that concern neither log add nothing to it. *)
Ltac drop_nil := autorewrite with events; simpl; rewrite ?app_nil_r.

Section actions.
Context (Pab Pba : list (payload T)).
Hypothesis HPab : Forall (payload_ok kBufferSize) Pab.
Hypothesis HPba : Forall (payload_ok kBufferSize) Pba.
Context (w : pair T).
Hypothesis Hw : pinv Pab Pba w.

Lemma dinv_wtrig_any P d b :
  Forall (payload_ok kBufferSize) P -> dinv P d -> d_estS d = false -> dinv P (d <| d_wtrig := b |>).
Proof.
  intros HP Hd He. destruct (dinv_wreact P HP 0 b d Hd) as (d' & Hs & Hd').
  unfold dir_serve_w in Hs. cbn in Hs. rewrite He in Hs. by apply done_inj in Hs as ->.
Qed.

Lemma dinv_rtrig_any P d b :
  Forall (payload_ok kBufferSize) P -> dinv P d -> d_estR d = false -> dinv P (d <| d_rtrig := b |>).
Proof.
  intros HP Hd He. destruct (dinv_rreact P HP 0 b d Hd) as (d' & Hs & Hd').
  unfold dir_serve_r in Hs. cbn in Hs. rewrite He in Hs. by apply done_inj in Hs as ->.
Qed.

Lemma act_init_ok i o :
  cn_state_ (pr_a w) = INITIALIZING -> i <> o ->
  exists w', run_a (initFromLoop (all_well i o) (ep_a w)) w = Done w' /\ pinv Pab Pba w'.
Proof.
  destruct Hw as (Ha & Hb & Hd1 & Hd2). intros Hst Hne.
  destruct (newRingBuffer_inv kBufferSize ltac:(unfold kBufferSize; lia)) as (rb & Hrb & _).
  pose proof (dinv_init Pba _ rb Hd2) as Hd3. simpl in Hd3. rewrite Hst in Hd3.
  specialize (Hd3 eq_refl Hrb).
  assert (exists s, initFromLoop (all_well i o) (ep_a w) = Done (ep_a w <| ep_inbox := rb |>
    <| ep_conn := pr_a w <| cn_socket_ := s |> <| cn_inboxReactorToken_ := Some i |>
         <| cn_outboxReactorToken_ := Some o |> <| cn_state_ := SEND_FDS |> |>,
    [EvEnroll; EvRegister false])) as [s Hinit].
  { unfold initFromLoop, initImplFromLoop.
  cbn [all_well ie_contextClosed ie_create ie_connect ie_block ie_inboxToken ie_outboxToken
    is_error ep_conn ep_a]. rewrite orb_false_r, andb_false_r.
  unfold kNumRingbufferRoles. rewrite Hrb, bind_done.
  destruct (cn_socket_ (pr_a w)) eqn:Hs; exists true; [|reflexivity].
  unfold ep_a, field_update. simpl. rewrite <- Hs. reflexivity. }
  rewrite Hinit. clear Hrb Hinit. eexists. split; [done|].
  pose proof (hs_init _ Ha Hst) as [Hi Ho]. split_and!.
  - destruct Ha. rewrite Hst in *. split; simpl; try done. eauto 10.
  - destruct Hb. by split.
  - apply (dinv_wtrig_any _ _ (bool_decide (o ∈ pr_trig_a w)) HPab) in Hd1;
    [|simpl; by rewrite Hst].
  unfold dir_ab in *. simpl in *. rewrite Hst in Hd1. by drop_nil.
  - apply (dinv_rtrig_any _ _ (bool_decide (i ∈ pr_trig_a w)) HPba) in Hd3;
    [|simpl; by rewrite Hst].
  unfold dir_ab in *. simpl in *. rewrite Hst in Hd3. by drop_nil.
Qed.

Lemma act_out_ok :
  cn_state_ (pr_a w) = SEND_FDS ->
  exists w', run_a (handleEventOutFromLoop kSuccess (ep_a w)) w = Done w' /\ pinv Pab Pba w'.
Proof.
  destruct Hw as (Ha & Hb & Hd1 & Hd2). intros Hst.
  destruct (hs_tokens _ Ha) as (i & o & Hi & Ho & Hne); [by rewrite Hst|].
  unfold handleEventOutFromLoop. simpl. rewrite bool_decide_eq_true_2 by done.
  rewrite Hi, Ho. simpl. eexists. split; [done|]. split_and!.
  - destruct Ha. rewrite Hst in *. split; simpl; try done; eauto 10.
  - pose proof (hs_peer _ Hb) as Hp. pose proof (hs_fds _ Ha) as Hf. rewrite Hst in Hf. simpl in *.
  destruct Hb. split; simpl; try done. intros He. destruct (Hp He) as (? & ? & ? & _). congruence.
  - unfold dir_ab in *. simpl in *. rewrite Hst in Hd1. by drop_nil.
  - unfold dir_ab in *. simpl in *. rewrite Hst in Hd2. by drop_nil.
Qed.

Lemma act_in_ok i o :
  cn_state_ (pr_a w) = RECV_FDS -> pr_fds_b w = Some (i, o) ->
  exists w', run_a (handleEventInFromLoop (inr (i, o, pr_ab w)) (ep_a w)) w = Done w' /\
  pinv Pab Pba w'.
Proof.
  destruct Hw as (Ha & Hb & Hd1 & Hd2). intros Hst Hfds.
  unfold handleEventInFromLoop. change (ep_conn (ep_a w)) with (pr_a w). rewrite Hst.
  match goal with |- context [processWriteOperationsFromLoop ?e] => set (e1 := e) end.
  set (w1 := commit w e1 []).
  assert (cn_state_ (pr_b w) <> INITIALIZING) as Hinitb.
  { intros E. pose proof (hs_fds _ Hb) as Hf. simpl in Hf. rewrite E in Hf. simpl in Hf. congruence. }
  assert (hs w1) as Ha1.
  { destruct Ha. rewrite Hst in *. split; simpl; try done; eauto 10. }
  assert (hs (flip_pair w1)) as Hb1 by (destruct Hb; by split).
  assert (dir_ab w1 = dir_ab w <| d_estS := true |>) as Hdw1.
  { unfold w1, dir_ab, commit, e1, field_update. simpl. by rewrite !app_nil_r. }
  assert (dir_ab (flip_pair w1) = dir_ab (flip_pair w) <| d_estR := true |>) as Hdw2.
  { unfold w1, dir_ab, flip_pair, commit, e1, field_update. simpl. by rewrite Hst, !app_nil_r. }
  assert (e1 = ep_a w1) as He1 by done.
  destruct (write_round Pab w1 Ha1 Hb1) as (e2 & evs1 & Hp1 & Ha2 & Hb2 & Hd1' & Hd2').
  { intros token. rewrite Hdw1. apply dinv_estS; [done..|]. simpl.
  by rewrite bool_decide_eq_false_2. }
  rewrite He1, Hp1, bind_done. set (w2 := commit w1 e2 evs1) in *.
  replace e2 with (ep_a w2) by apply ep_a_commit.
  destruct (read_round Pba w2 Ha2 Hb2) as (e3 & evs2 & Hp2 & Ha3 & Hb3 & Hd3 & Hd3').
  { intros token. rewrite Hd2', Hdw2. apply dinv_estR; [done..|]. simpl. by rewrite Hst. }
  rewrite Hp2, bind_done, run_a_done. eexists. split; [done|].
  assert (commit w e3 (evs1 ++ evs2) = commit w2 e3 evs2) as ->.
  { unfold w2. rewrite commit_commit. unfold w1. by rewrite commit_commit. }
  split_and!; try done. by rewrite Hd3'.
Qed.

Lemma act_write_ok p :
  Pab !! pr_sent_a w = Some p ->
  exists w', run_a (writeFromLoop p (pr_sent_a w) (ep_a w)) (w <| pr_sent_a ::= S |>) = Done w' /\
  pinv Pab Pba w'.
Proof.
  destruct Hw as (Ha & Hb & Hd1 & Hd2). intros Hp. unfold writeFromLoop.
  change (ep_conn (ep_a w)) with (pr_a w). rewrite (hs_error _ Ha). cbn [is_error].
  set (w1 := w <| pr_a := pr_a w <| cn_writeOperations_ ::= fun q => q ++ [new_write p (pr_sent_a w)] |> |>
             <| pr_sent_a ::= S |>).
  destruct (write_round Pab w1) as (e & evs & He & Ha2 & Hb2 & Hd1' & Hd2').
  - destruct Ha. by split.
  - destruct Hb. by split.
  - intros token. apply (dinv_new_write Pab HPab token (dir_ab w) p Hd1 Hp).
  - change (ep_a w <| ep_conn := _ |>) with (ep_a w1). rewrite He, run_a_done.
  exists (commit w1 e evs). split; [done|]. split_and!; try done. by rewrite Hd2'.
Qed.

Lemma act_read_ok rq p :
  Pba !! pr_asked_a w = Some p -> read_fits rq p = true ->
  exists w', run_a (readFromLoop rq (pr_asked_a w) (ep_a w)) (w <| pr_asked_a ::= S |>) = Done w' /\
  pinv Pab Pba w'.
Proof.
  destruct Hw as (Ha & Hb & Hd1 & Hd2). intros Hp Hfit. unfold readFromLoop.
  change (ep_conn (ep_a w)) with (pr_a w). rewrite (hs_error _ Ha). cbn [is_error].
  set (w1 := w <| pr_a := pr_a w <| cn_readOperations_ ::= fun q => q ++ [new_read rq (pr_asked_a w)] |> |>
             <| pr_asked_a ::= S |>).
  destruct (read_round Pba w1) as (e & evs & He & Ha2 & Hb2 & Hd1' & Hd2').
  - destruct Ha. by split.
  - destruct Hb. by split.
  - intros token.
  apply (dinv_new_read Pba HPba token (dir_ab (flip_pair w)) p rq Hd2 Hp).
  by apply read_fits_fresh.
  - change (ep_a w <| ep_conn := _ |>) with (ep_a w1). rewrite He, run_a_done.
  exists (commit w1 e evs). split; [done|]. split_and!; try done. by rewrite Hd2'.
Qed.

Lemma pending_cons o tok rest :
  o <> Some tok -> pending o (tok :: rest) = pending o rest.
Proof.
  destruct o as [t|]; [|done]. simpl. intros Hne. apply bool_decide_ext. set_solver.
Qed.

Lemma act_react_ok tok rest :
  pr_trig_a w = tok :: rest ->
  exists w', run_a (react tok (ep_a w)) (w <| pr_trig_a := rest |>) = Done w' /\ pinv Pab Pba w'.
Proof.
  destruct Hw as (Ha & Hb & Hd1 & Hd2). intros Htr. unfold react.
  set (w1 := w <| pr_trig_a := rest |>). change (ep_a w) with (ep_a w1).
  change (ep_conn (ep_a w1)) with (pr_a w).
  assert (hs w1) as Ha1 by (destruct Ha; by split).
  assert (hs (flip_pair w1)) as Hb1 by (destruct Hb; by split).
  assert (cn_outboxReactorToken_ (pr_a w) <> Some tok -> dir_ab w1 = dir_ab w) as Hout.
  { intros Hne. unfold dir_ab, w1. simpl. by rewrite Htr, pending_cons. }
  assert (cn_inboxReactorToken_ (pr_a w) <> Some tok ->
  dir_ab (flip_pair w1) = dir_ab (flip_pair w)) as Hin.
  { intros Hne. unfold dir_ab, w1. simpl. by rewrite Htr, pending_cons. }
  case_decide as Hi; [|case_decide as Ho].
  - assert (cn_outboxReactorToken_ (pr_a w) <> Some tok) as Hno.
  { intros Ho. destruct (hs_tokens _ Ha) as (i & o & ? & ? & ?); [|congruence].
    intros E. destruct (hs_init _ Ha E). congruence. }
  destruct (read_round Pba w1 Ha1 Hb1) as (e & evs & He & Ha2 & Hb2 & Hd1' & Hd2').
  { intros token. apply (dinv_rreact Pba HPba token
      (pending (cn_inboxReactorToken_ (pr_a w)) rest) _ Hd2). }
  rewrite He, run_a_done. eexists. split; [done|]. split_and!; try done.
  by rewrite Hd2', Hout.
  - destruct (write_round Pab w1 Ha1 Hb1) as (e & evs & He & Ha2 & Hb2 & Hd1' & Hd2').
  { intros token. apply (dinv_wreact Pab HPab token
      (pending (cn_outboxReactorToken_ (pr_a w)) rest) _ Hd1). }
  rewrite He, run_a_done. eexists. split; [done|]. split_and!; try done.
  by rewrite Hd2', Hin.
  - rewrite run_a_done, commit_nil. eexists. split; [done|].
  split_and!; [done | done | by rewrite Hout | by rewrite Hin].
Qed.

Lemma act_a_ok x r :
  act_a Pab Pba x w = Some r -> exists w', r = Done w' /\ pinv Pab Pba w'.
Proof.
  destruct x as [i o| | | |rq|]; cbn [act_a]; intros Hr.
  - case_decide as Hd; [|done]. destruct Hd. simplify_eq. by apply act_init_ok.
  - case_decide; [|done]. simplify_eq. by apply act_out_ok.
  - destruct (cn_state_ (pr_a w)) eqn:Hst; try done.
  destruct (pr_fds_b w) as [[i o]|] eqn:Hf; [|done]. simplify_eq. by apply act_in_ok.
  - destruct (Pab !! _) as [p|] eqn:Hp; [|done]. simplify_eq. by apply act_write_ok.
  - destruct (Pba !! _) as [p|] eqn:Hp; [|done]. destruct (read_fits rq p) eqn:Hf; [|done].
  simplify_eq. by apply (act_read_ok rq p).
  - destruct (pr_trig_a w) as [|tok rest] eqn:Htr; [done|]. simplify_eq. by apply act_react_ok.
Qed.
End actions.

(** ** Reachable pairs *)

Lemma hs_initial : hs initial_pair /\ hs (flip_pair initial_pair).
Proof. by split; split. Qed.

Lemma dinv_initial P b1 b2 w :
  dir_ab w = mkDir T false false false empty_ring [] [] b1 b2 0 0 [] [] -> dinv P (dir_ab w).
Proof.
  intros ->. exists [], 0%nat, [], [], P, [], [], P, 0%nat, 0%nat. by split_and!.
Qed.

Lemma pair_step_pinv Pab Pba w w' :
  Forall (payload_ok kBufferSize) Pab -> Forall (payload_ok kBufferSize) Pba ->
  pinv Pab Pba w -> pair_step Pab Pba w w' -> pinv Pab Pba w'.
Proof.
  intros HPab HPba Hw Hstep. destruct Hstep as [x w w' Hx|x w w' Hx].
  - destruct (act_a_ok Pab Pba HPab HPba w Hw x _ Hx) as (w2 & He & Hw2).
    by apply done_inj in He as ->.
  - apply pinv_flip in Hw.
    destruct (act_a_ok Pba Pab HPba HPab (flip_pair w) Hw x _ Hx) as (w2 & He & Hw2).
    apply done_inj in He as ->. by apply pinv_flip.
Qed.

Lemma pair_reachable_pinv Pab Pba w :
  Forall (payload_ok kBufferSize) Pab -> Forall (payload_ok kBufferSize) Pba ->
  pair_reachable Pab Pba w -> pinv Pab Pba w.
Proof.
  intros HPab HPba Hr.
  assert (pinv Pab Pba initial_pair) as Hi.
  { destruct hs_initial. split_and!; [done..| |]; by eapply dinv_initial. }
  unfold pair_reachable in Hr. remember initial_pair as w0 eqn:E. clear E.
  induction Hr as [|w0 w1 w2 Hstep _ IH]; [done|].
  apply IH. by eapply pair_step_pinv.
Qed.

(** ** A handshake *)

Definition hs_conn (st : ShmState) (i o : Z) (peer : option (Z * Z)) : ConnectionImpl T :=
  mkConn kSuccess st true (Some i) (Some o) (fst <$> peer) (snd <$> peer) [] [].

(** The pair in the course of the handshake, with tokens 1, 2 and 3, 4. *)
Definition hs_pair (rb1 rb2 : RingBuffer) (sa sb : ShmState) : pair T :=
  let peer s p := if decide (s = ESTABLISHED) then Some p else None in
  let fds s p := if sent_fds s then Some p else None in
  let log s p := [EvEnroll; EvRegister false] ++
    (if sent_fds s then [EvSendFds p.1 p.2; EvRegister true] else []) in
  mkPair T (hs_conn sa 1 2 (peer sa (3, 4))) (hs_conn sb 3 4 (peer sb (1, 2))) rb2 rb1 [] []
    (fds sa (1, 2)) (fds sb (3, 4)) (log sa (1, 2)) (log sb (3, 4)) 0 0 0 0.

Lemma step_init Pab Pba w rb i o :
  cn_state_ (pr_a w) = INITIALIZING -> i <> o ->
  newRingBuffer kNumRingbufferRoles kBufferSize = Done rb ->
  pair_step Pab Pba w (commit w (mkEndpoint (pr_a w <| cn_socket_ := true |>
    <| cn_inboxReactorToken_ := Some i |> <| cn_outboxReactorToken_ := Some o |>
    <| cn_state_ := SEND_FDS |>) rb (pr_ab w)) [EvEnroll; EvRegister false]).
Proof.
  intros Hst Hne Hrb. apply (ps_a _ _ (ActInit i o)). cbn [act_a].
  rewrite (decide_True _ _ (conj Hst Hne)).
  f_equal. unfold initFromLoop, initImplFromLoop.
  cbn [all_well ie_contextClosed ie_create ie_connect ie_block ie_inboxToken ie_outboxToken
    is_error ep_conn ep_a]. rewrite orb_false_r, andb_false_r, Hrb, bind_done, run_a_done.
  clear Hrb. destruct (cn_socket_ (pr_a w)) eqn:Hs; [|reflexivity].
  unfold ep_a, field_update. simpl. rewrite Hs. reflexivity.
Qed.

Lemma pair_step_flip Pab Pba w w' :
  pair_step Pba Pab (flip_pair w) w' -> pair_step Pab Pba w (flip_pair w').
Proof.
  intros Hs. remember (flip_pair w) as v eqn:E. destruct Hs as [x v w' Hx|x v w' Hx].
  - apply (ps_b _ _ x). by rewrite <- E.
  - rewrite flip_flip. apply (ps_a _ _ x). by rewrite E, flip_flip in Hx.
Qed.

Lemma opened_reachable Pab Pba :
  exists rb, pair_reachable Pab Pba (hs_pair rb rb SEND_FDS SEND_FDS).
Proof.
  destruct (newRingBuffer_inv kBufferSize ltac:(unfold kBufferSize; lia)) as (rb & Hrb & _).
  exists rb. unfold pair_reachable.
  pose proof (step_init Pab Pba initial_pair rb 1 2 eq_refl ltac:(lia) Hrb) as H1.
  eapply rtc_l; [exact H1|]. apply rtc_once.
  match type of H1 with pair_step _ _ _ ?w =>
    pose proof (step_init Pba Pab (flip_pair w) rb 3 4 eq_refl ltac:(lia) Hrb) as H2 end.
  clear H1 Hrb. apply pair_step_flip in H2. exact H2.
Qed.

Lemma handshake_reachable Pab Pba :
  exists rb, pair_reachable Pab Pba (hs_pair rb rb ESTABLISHED ESTABLISHED).
Proof.
  destruct (opened_reachable Pab Pba) as (rb & Hr). exists rb. unfold pair_reachable in *.
  assert (pair_step Pab Pba (hs_pair rb rb SEND_FDS SEND_FDS) (hs_pair rb rb RECV_FDS SEND_FDS)) as H1
    by (apply (ps_a _ _ ActOut); reflexivity).
  assert (pair_step Pab Pba (hs_pair rb rb RECV_FDS SEND_FDS) (hs_pair rb rb RECV_FDS RECV_FDS)) as H2
    by (apply (ps_b _ _ ActOut _ (flip_pair (hs_pair rb rb RECV_FDS RECV_FDS))); reflexivity).
  assert (pair_step Pab Pba (hs_pair rb rb RECV_FDS RECV_FDS) (hs_pair rb rb ESTABLISHED RECV_FDS)) as H3
    by (apply (ps_a _ _ ActIn); reflexivity).
  assert (pair_step Pab Pba (hs_pair rb rb ESTABLISHED RECV_FDS)
    (hs_pair rb rb ESTABLISHED ESTABLISHED)) as H4
    by (apply (ps_b _ _ ActIn _ (flip_pair (hs_pair rb rb ESTABLISHED ESTABLISHED))); reflexivity).
  eapply rtc_r; [|exact H4]. eapply rtc_r; [|exact H3]. eapply rtc_r; [|exact H2].
  eapply rtc_r; [exact Hr | exact H1].
Qed.
End pair.

(** ** The theorems *)

Section theorems.
Context {T : Type} `{NopEncodingLaws T}.

(** The callbacks of one direction: the writes of the sender and the reads of
    the receiver were called back in order and without error, the [k]-th read
    with the [k]-th message of [P]. *)
Definition delivered (P : list (payload T)) (sender receiver : list (event T))
    (nsent nread : nat) : Prop :=
  exists m m', (m' <= m <= nsent)%nat /\ (m' <= nread)%nat /\
    writes_of sender = (fun i => mkWriteCall i kSuccess) <$> seq 0 m /\
    reads_of receiver = read_calls (seq 0 m') (take m' P).

(** C7: over two connected ends, in any interleaving of requests, socket events
    and triggers, each direction delivers the messages written to it once, in
    order and intact, whatever their sizes and kinds, and no later than their
    writes are called back. *)
Theorem shm_delivery Pab Pba w :
  Forall (payload_ok kBufferSize) Pab -> Forall (payload_ok kBufferSize) Pba ->
  pair_reachable Pab Pba w ->
  delivered Pab (pr_log_a w) (pr_log_b w) (pr_sent_a w) (pr_asked_b w) /\
  delivered Pba (pr_log_b w) (pr_log_a w) (pr_sent_b w) (pr_asked_a w).
Proof.
  intros HPab HPba Hr. destruct (pair_reachable_pinv Pab Pba w HPab HPba Hr) as (_ & _ & H1 & H2).
  split; [apply (dinv_delivery Pab _ H1) | apply (dinv_delivery Pba _ H2)].
Qed.


End theorems.

(** Messages for the witnesses: two buffers and an object. *)
Definition demo_messages : list (payload (Z * Z * Z)) :=
  [PBytes [1; 2; 3]; PObject (4, 5, 6); PBytes []].

Lemma demo_messages_ok : Forall (payload_ok kBufferSize) demo_messages.
Proof. repeat constructor; unfold payload_len, kBufferSize; simpl; lia. Qed.

Lemma shm_delivery_witness :
  exists w : pair (Z * Z * Z), cn_state_ (pr_a w) = ESTABLISHED /\
    delivered demo_messages (pr_log_a w) (pr_log_b w) (pr_sent_a w) (pr_asked_b w) /\
    delivered demo_messages (pr_log_b w) (pr_log_a w) (pr_sent_b w) (pr_asked_a w).
Proof.
  destruct (handshake_reachable demo_messages demo_messages) as (rb & Hr).
  eexists. split; [|exact (shm_delivery _ _ _ demo_messages_ok demo_messages_ok Hr)]. reflexivity.
Defined.


