(* ===== verification/ShmErrors.v ===== *)
(** * Every callback is called once, errors included

    One connection on its own, with a peer, a socket and rings that do anything
    at all: whatever the handlers are given, the callbacks of reads (and of
    writes) are called in the order of the requests, each at most once, and all
    of them have been called once the connection is in error. *)

From S2P Require Import Prelude System RingBuffer RingBufferTx Nop RingbufferOps RingbufferQueues ShmConnection.
From S2P Require Import ShmWorld.

Section errors.
Context {T : Type} `{NopEncoding T}.

(** ** The handlers of one operation *)

(** ** The requests that have not been called back yet *)

Definition pending_reads (e : endpoint T) : list nat := ro_fn_ <$> cn_readOperations_ (ep_conn e).
Definition pending_writes (e : endpoint T) : list nat := wo_fn_ <$> cn_writeOperations_ (ep_conn e).
Definition called_reads (evs : list (event T)) : list nat := rc_fn <$> reads_of evs.
Definition called_writes (evs : list (event T)) : list nat := wc_fn <$> writes_of evs.

(** What a handler that adds the requests [rds] and [wrs] does to the queues. *)
Definition accounts (rds wrs : list nat) (e e' : endpoint T) (evs : list (event T)) : Prop :=
  called_reads evs ++ pending_reads e' = pending_reads e ++ rds /\
  called_writes evs ++ pending_writes e' = pending_writes e ++ wrs.

Definition error_drained (e : endpoint T) : Prop :=
  is_error (cn_error_ (ep_conn e)) = true -> pending_reads e = [] /\ pending_writes e = [].

Lemma called_reads_app a b : called_reads (a ++ b) = called_reads a ++ called_reads b.
Proof. unfold called_reads. by rewrite reads_of_app, fmap_app. Qed.
Lemma called_writes_app a b : called_writes (a ++ b) = called_writes a ++ called_writes b.
Proof. unfold called_writes. by rewrite writes_of_app, fmap_app. Qed.

Lemma accounts_nil e : accounts [] [] e e [].
Proof. unfold accounts. by rewrite !app_nil_r. Qed.

Lemma accounts_trans r1 w1 r2 w2 e1 e2 e3 evs1 evs2 :
  accounts r1 w1 e1 e2 evs1 -> accounts r2 w2 e2 e3 evs2 ->
  accounts (r1 ++ r2) (w1 ++ w2) e1 e3 (evs1 ++ evs2).
Proof.
  intros [R1 W1] [R2 W2]. unfold accounts. rewrite called_reads_app, called_writes_app.
  rewrite <- !app_assoc, R2, W2, !app_assoc, R1, W1. done.
Qed.

(** Triggers call nothing back. *)
Lemma called_trigger_r (n token : Z) (calls : list (read_call T)) :
  called_reads ((EvRead <$> calls) ++ (if 0 <? n then [EvTrigger token] else [])) = rc_fn <$> calls /\
  called_writes ((EvRead <$> calls) ++ (if 0 <? n then [EvTrigger token] else [])) = [].
Proof.
  rewrite called_reads_app, called_writes_app. unfold called_reads, called_writes.
  destruct (omap_EvRead calls) as (-> & -> & _). destruct (0 <? n); simpl; by rewrite app_nil_r.
Qed.

Lemma called_trigger_w (n token : Z) (calls : list write_call) :
  called_writes ((EvWrite <$> calls) ++ (if 0 <? n then [EvTrigger token] else [])) = wc_fn <$> calls /\
  called_reads ((EvWrite <$> calls) ++ (if 0 <? n then [EvTrigger token] else [])) = [].
Proof.
  rewrite called_reads_app, called_writes_app. unfold called_reads, called_writes.
  destruct (omap_EvWrite (T := T) calls) as (-> & -> & _). destruct (0 <? n); simpl; by rewrite app_nil_r.
Qed.

Lemma serve_reads_calls token ops : forall s ops' evs s',
  serve_reads (T := T) token ops s = Done (ops', evs, s') ->
  called_reads evs ++ (ro_fn_ <$> ops') = ro_fn_ <$> ops /\ called_writes evs = [].
Proof.
  induction ops as [|o ops IH]; cbn [serve_reads]; intros s ops' evs s' Hs; [by simplify_eq|].
  inv_bind Hs. destruct a as [[[n o1] calls] s1]. apply handleRead_calls in Ha as [Hfn Hc].
  destruct (called_trigger_r n token calls) as [C1 C2]. destruct (read_completed o1) eqn:Hd.
  - inv_bind Hs. destruct a as [[ops1 evs1] s2]. simplify_eq.
    destruct (IH _ _ _ _ Ha) as [I1 I2].
    rewrite called_reads_app, called_writes_app, C1, C2, I2, Hc. simpl.
    by rewrite I1.
  - simplify_eq. rewrite C1, C2, Hc. simpl. by rewrite Hfn.
Qed.

Lemma serve_writes_calls token ops : forall s ops' evs s',
  serve_writes (T := T) token ops s = Done (ops', evs, s') ->
  called_writes evs ++ (wo_fn_ <$> ops') = wo_fn_ <$> ops /\ called_reads evs = [].
Proof.
  induction ops as [|o ops IH]; cbn [serve_writes]; intros s ops' evs s' Hs; [by simplify_eq|].
  inv_bind Hs. destruct a as [[[n o1] calls] s1]. apply handleWrite_calls in Ha as [Hfn Hc].
  destruct (called_trigger_w n token calls) as [C1 C2]. destruct (write_completed o1) eqn:Hd.
  - inv_bind Hs. destruct a as [[ops1 evs1] s2]. simplify_eq.
    destruct (IH _ _ _ _ Ha) as [I1 I2].
    rewrite called_reads_app, called_writes_app, C1, C2, I2, Hc. simpl.
    by rewrite I1.
  - simplify_eq. rewrite C1, C2, Hc. simpl. by rewrite Hfn.
Qed.

(** ** The handlers *)

(** A handler accounts for its requests and leaves no request behind an error. *)
Definition good (rds wrs : list nat) (e : endpoint T) (r : outcome (endpoint T * list (event T))) : Prop :=
  forall e' evs, r = Done (e', evs) -> accounts rds wrs e e' evs /\ error_drained e'.

Lemma process_reads_good e :
  is_error (cn_error_ (ep_conn e)) = false -> good [] [] e (processReadOperationsFromLoop e).
Proof.
  intros Hok e' evs. unfold processReadOperationsFromLoop. destruct (negb _).
  { intros Hd. simplify_eq. split; [apply accounts_nil | unfold error_drained; congruence]. }
  destruct (cn_readOperations_ (ep_conn e)) as [|o ops] eqn:Hops.
  { intros Hd. simplify_eq. split; [apply accounts_nil | unfold error_drained; congruence]. }
  intros Hd. inv_bind Hd. inv_bind Hd. destruct a0 as [[ops' evs'] [rb r]]. simplify_eq.
  apply serve_reads_calls in Ha0 as [C1 C2]. split; [|unfold error_drained; simpl; congruence].
  unfold accounts, pending_reads, pending_writes. simpl. by rewrite C2, C1, Hops, !app_nil_r.
Qed.

Lemma process_writes_good e :
  is_error (cn_error_ (ep_conn e)) = false -> good [] [] e (processWriteOperationsFromLoop e).
Proof.
  intros Hok e' evs. unfold processWriteOperationsFromLoop. destruct (negb _).
  { intros Hd. simplify_eq. split; [apply accounts_nil | unfold error_drained; congruence]. }
  destruct (cn_writeOperations_ (ep_conn e)) as [|o ops] eqn:Hops.
  { intros Hd. simplify_eq. split; [apply accounts_nil | unfold error_drained; congruence]. }
  intros Hd. inv_bind Hd. inv_bind Hd. destruct a0 as [[ops' evs'] [rb r]]. simplify_eq.
  apply serve_writes_calls in Ha0 as [C1 C2]. split; [|unfold error_drained; simpl; congruence].
  unfold accounts, pending_reads, pending_writes. simpl. by rewrite C2, C1, Hops, !app_nil_r.
Qed.

Lemma called_errors (c : ConnectionImpl T) :
  called_reads (handleErrorImpl c).2 = ro_fn_ <$> cn_readOperations_ c /\
  called_writes (handleErrorImpl c).2 = wo_fn_ <$> cn_writeOperations_ c.
Proof.
  unfold handleErrorImpl. cbn [snd]. rewrite !called_reads_app, !called_writes_app.
  assert (forall o : option Z, called_reads (EvRemoveReaction <$> option_list o) = [] /\
    called_writes (EvRemoveReaction <$> option_list o) = []) as Hrm by (by intros []).
  destruct (Hrm (cn_inboxReactorToken_ c)) as [-> ->].
  destruct (Hrm (cn_outboxReactorToken_ c)) as [-> ->].
  rewrite !list_fmap_compose. unfold called_reads, called_writes.
  destruct (omap_EvRead (read_handleError (cn_error_ c) <$> cn_readOperations_ c)) as (-> & -> & _).
  destruct (omap_EvWrite (T := T) (write_handleError (cn_error_ c) <$> cn_writeOperations_ c)) as (-> & -> & _).
  rewrite <- !list_fmap_compose. destruct (_ && _); simpl; by rewrite ?app_nil_r.
Qed.

Lemma setError_good error e :
  error_drained e -> good [] [] e (Done (ep_setError error e)).
Proof.
  intros He e' evs Hd. injection Hd as Hd. unfold ep_setError, setError in Hd.
  destruct (is_error (cn_error_ (ep_conn e)) || negb (is_error error)) eqn:Hb.
  { simplify_eq. split; [|done]. unfold accounts, pending_reads, pending_writes. simpl.
    by rewrite !app_nil_r. }
  destruct (called_errors (ep_conn e <| cn_error_ := error |>)) as [C1 C2].
  destruct (handleErrorImpl _) as [c evs1] eqn:Hh. simplify_eq. simpl in C1, C2.
  unfold handleErrorImpl in Hh. simplify_eq.
  unfold accounts, error_drained, pending_reads, pending_writes. rewrite C1, C2. simpl.
  by rewrite !app_nil_r.
Qed.

Lemma read_good rq fn e : error_drained e -> good [fn] [] e (readFromLoop rq fn e).
Proof.
  intros He. unfold readFromLoop. destruct (is_error (cn_error_ (ep_conn e))) eqn:Hb.
  - intros e' evs Hd. simplify_eq. split; [|done]. destruct (He Hb) as [H1 H2].
    unfold accounts. by rewrite H1, H2.
  - intros e' evs Hd.
    match type of Hd with processReadOperationsFromLoop ?x = _ =>
      assert (is_error (cn_error_ (ep_conn x)) = false) as Hx by exact Hb;
      destruct (process_reads_good x Hx _ _ Hd) as [[R W] Hdr] end.
    split; [|done]. unfold accounts in *. rewrite !app_nil_r in *. rewrite R, W. split; [|done].
    unfold pending_reads. simpl. rewrite fmap_app. by destruct rq.
Qed.

Lemma write_good p fn e : error_drained e -> good [] [fn] e (writeFromLoop p fn e).
Proof.
  intros He. unfold writeFromLoop. destruct (is_error (cn_error_ (ep_conn e))) eqn:Hb.
  - intros e' evs Hd. simplify_eq. split; [|done]. destruct (He Hb) as [H1 H2].
    unfold accounts. by rewrite H1, H2.
  - intros e' evs Hd.
    match type of Hd with processWriteOperationsFromLoop ?x = _ =>
      assert (is_error (cn_error_ (ep_conn x)) = false) as Hx by exact Hb;
      destruct (process_writes_good x Hx _ _ Hd) as [[R W] Hdr] end.
    split; [|done]. unfold accounts in *. rewrite !app_nil_r in *. rewrite R, W. split; [done|].
    unfold pending_writes. simpl. rewrite fmap_app. by destruct p.
Qed.

Lemma event_in_good recv e : error_drained e ->
  is_error (cn_error_ (ep_conn e)) = false -> good [] [] e (handleEventInFromLoop recv e).
Proof.
  intros He Hok e' evs Hd. unfold handleEventInFromLoop in Hd.
  destruct (cn_state_ (ep_conn e)); try done.
  - destruct recv as [err|[[pin pout] rb]]; [by eapply setError_good|].
    inv_bind Hd. destruct a as [e1 evs1]. inv_bind Hd. destruct a as [e2 evs2]. simplify_eq.
    match type of Ha with processWriteOperationsFromLoop ?x = _ =>
      assert (is_error (cn_error_ (ep_conn x)) = false) as Hx by exact Hok;
      destruct (process_writes_good x Hx _ _ Ha) as [A1 D1] end.
    assert (is_error (cn_error_ (ep_conn e1)) = false) as Hok1.
    { unfold processWriteOperationsFromLoop in Ha. destruct (negb _); [by simplify_eq|].
      destruct (cn_writeOperations_ _); [by simplify_eq|]. inv_bind Ha. inv_bind Ha.
      destruct a0 as [[? ?] [? ?]]. by simplify_eq. }
    destruct (process_reads_good e1 Hok1 _ _ Ha0) as [A2 D2].
    split; [|done]. exact (accounts_trans [] [] [] [] _ _ _ _ _ A1 A2).
  - by eapply setError_good.
Qed.

Lemma event_out_good send e : error_drained e ->
  is_error (cn_error_ (ep_conn e)) = false -> good [] [] e (handleEventOutFromLoop send e).
Proof.
  intros He Hok e' evs Hd. unfold handleEventOutFromLoop in Hd. destruct (bool_decide _); [|done].
  inv_bind Hd. inv_bind Hd. destruct (is_error send); [by eapply setError_good|].
  simplify_eq. split; [|unfold error_drained; simpl; congruence].
  unfold accounts, pending_reads, pending_writes. simpl. by rewrite !app_nil_r.
Qed.

(** ** Runs of one connection *)

Inductive handler :=
| HRead (rq : read_request)
| HWrite (p : payload T)
| HInboxReaction
| HOutboxReaction
| HSocket (epollerr epollin epollout epollhup : bool) (soerror send : Error) (recv : recv_result)
| HClose
| HRings (inbox outbox : RingBuffer).        (* the peer changes the rings *)

(** A connection in error has no reactions and no socket left. *)
Definition enabled (h : handler) (e : endpoint T) : bool :=
  match h with
  | HInboxReaction | HOutboxReaction | HSocket _ _ _ _ _ _ _ =>
      negb (is_error (cn_error_ (ep_conn e)))
  | _ => true
  end.

Definition handle (h : handler) (nread nwrite : nat) (e : endpoint T)
  : outcome (endpoint T * list (event T)) :=
  match h with
  | HRead rq => readFromLoop rq nread e
  | HWrite p => writeFromLoop p nwrite e
  | HInboxReaction => processReadOperationsFromLoop e
  | HOutboxReaction => processWriteOperationsFromLoop e
  | HSocket err ein eout hup soerror send recv =>
      handleEventsFromLoop err ein eout hup soerror send recv e
  | HClose => let '(c, evs) := closeFromLoop (ep_conn e) in Done (e <| ep_conn := c |>, evs)
  | HRings i o => Done (mkEndpoint (ep_conn e) i o, [])
  end.

(** The state, the log, and how many reads and writes were requested; request
    number [k] has callback [k]. *)
Inductive conn_run : endpoint T -> list (event T) -> nat -> nat -> Prop :=
| cr_start env e e' evs :
  ep_conn e = newConnection (cn_socket_ (ep_conn e)) ->
  initFromLoop env e = Done (e', evs) -> conn_run e' evs 0 0
| cr_step h e e' log evs nr nw :
  conn_run e log nr nw -> enabled h e = true -> handle h nr nw e = Done (e', evs) ->
  conn_run e' (log ++ evs)
    (match h with HRead _ => S nr | _ => nr end) (match h with HWrite _ => S nw | _ => nw end).

Lemma handle_good h nr nw e :
  error_drained e -> enabled h e = true ->
  good (match h with HRead _ => [nr] | _ => [] end) (match h with HWrite _ => [nw] | _ => [] end)
    e (handle h nr nw e).
Proof.
  intros He Hen. destruct h; simpl in *; try apply negb_true_iff in Hen.
  - by apply read_good.
  - by apply write_good.
  - by apply process_reads_good.
  - by apply process_writes_good.
  - unfold handleEventsFromLoop. destruct epollerr; [by apply setError_good|].
    destruct epollin; [by apply event_in_good|]. destruct epollout; [by apply event_out_good|].
    destruct epollhup; [by apply setError_good|].
    intros e' evs Hd. simplify_eq. split; [apply accounts_nil | done].
  - pose proof (setError_good ConnectionClosedError e He) as Hs.
    unfold ep_setError in Hs. unfold closeFromLoop. by destruct (setError _ _).
  - intros e' evs Hd. simplify_eq. split; [|done]. unfold accounts. simpl. by rewrite !app_nil_r.
Qed.

Lemma init_good env e e' evs :
  ep_conn e = newConnection (cn_socket_ (ep_conn e)) -> initFromLoop env e = Done (e', evs) ->
  pending_reads e' = [] /\ pending_writes e' = [] /\ called_reads evs = [] /\ called_writes evs = [].
Proof.
  destruct e as [c i o]. cbn [ep_conn]. intros -> Hd. unfold initFromLoop, initImplFromLoop in Hd.
  destruct (ie_contextClosed env); [by simplify_eq|]. cbn [ep_conn newConnection cn_socket_] in Hd.
  assert (forall b er e2 ev2, is_error er = true ->
    ep_setError er (mkEndpoint (T := T) (newConnection b) i o) = (e2, ev2) ->
    pending_reads e2 = [] /\ pending_writes e2 = [] /\ called_reads (EvEnroll :: ev2) = [] /\
    called_writes (EvEnroll :: ev2) = []) as Hset.
  { intros b er e2 ev2 Her. unfold ep_setError, setError. cbn. rewrite Her. cbn.
    intros [= <- <-]. by destruct b. }
  destruct (is_error (ie_create env)) eqn:H1, (is_error (ie_connect env)) eqn:H2,
    (is_error (ie_block env)) eqn:H3, (cn_socket_ c) eqn:Hs;
    cbn [andb orb negb] in Hd;
    first [ match type of Hd with (let '(_, _) := ep_setError ?er ?x in _) = _ =>
              destruct (ep_setError er x) as [e2 ev2] eqn:E; injection Hd as <- <-;
              eapply Hset; [|exact E]; done end
          | inv_bind Hd; clear Ha; injection Hd as <- <-; done ].
Qed.

Lemma conn_run_accounts e log nr nw :
  conn_run e log nr nw ->
  error_drained e /\ called_reads log ++ pending_reads e = seq 0 nr /\
  called_writes log ++ pending_writes e = seq 0 nw.
Proof.
  induction 1 as [env e e' evs He Hi|h e e' log evs nr nw _ (Hdr & IR & IW) Hen Hh].
  - destruct (init_good env e e' evs He Hi) as (P1 & P2 & C1 & C2).
    unfold error_drained. by rewrite P1, P2, C1, C2.
  - destruct (handle_good h nr nw e Hdr Hen _ _ Hh) as [[R W] Hdr'].
    split; [done|]. rewrite called_reads_app, called_writes_app, <- !app_assoc, R, W, !app_assoc, IR, IW.
    destruct h; rewrite ?app_nil_r; try done; by rewrite <- seq_S.
Qed.
End errors.

(** C10: whatever the peer, the socket and the rings do, the callbacks of a
    connection's reads are called in the order of the requests, each at most
    once, and so are those of its writes; in error, all have been called. *)
Theorem conn_callbacks_exactly_once {T} `{NopEncoding T} (e : endpoint T) log nr nw :
  conn_run e log nr nw ->
  (exists m, (m <= nr)%nat /\ called_reads log = seq 0 m /\
     (is_error (cn_error_ (ep_conn e)) = true -> m = nr)) /\
  (exists m, (m <= nw)%nat /\ called_writes log = seq 0 m /\
     (is_error (cn_error_ (ep_conn e)) = true -> m = nw)).
Proof.
  intros Hr. destruct (conn_run_accounts e log nr nw Hr) as (Hdr & HR & HW).
  assert (forall (a b : list nat) n, a ++ b = seq 0 n ->
    (length a <= n)%nat /\ a = seq 0 (length a) /\ (b = [] -> length a = n)) as Hsplit.
  { intros a b n Hab. pose proof (f_equal length Hab) as Hl. rewrite length_app, length_seq in Hl.
    split; [lia|]. split; [|intros ->; simpl in Hl; lia].
    apply (f_equal (take (length a))) in Hab. rewrite take_app_length in Hab. rewrite Hab at 1.
    rewrite take_seq. f_equal. lia. }
  destruct (Hsplit _ _ _ HR) as (R1 & R2 & R3). destruct (Hsplit _ _ _ HW) as (W1 & W2 & W3).
  split; eexists; (split; [|split; [eassumption|]]); try done; intros He; destruct (Hdr He); auto.
Qed.

(** A connection whose socket fails while a read and a write are pending. *)
Definition failing_run : endpoint (Z * Z * Z) :=
  mkEndpoint (newConnection true) (mkRb (mkHeader 0 0 [] []) []) (mkRb (mkHeader 0 0 [] []) []).

Lemma conn_callbacks_exactly_once_witness :
  exists (e : endpoint (Z * Z * Z)) (log : list (event (Z * Z * Z))),
    is_error (cn_error_ (ep_conn e)) = true /\
    (exists m, (m <= 1)%nat /\ called_reads log = seq 0 m /\
       (is_error (cn_error_ (ep_conn e)) = true -> m = 1%nat)) /\
    (exists m, (m <= 1)%nat /\ called_writes log = seq 0 m /\
       (is_error (cn_error_ (ep_conn e)) = true -> m = 1%nat)).
Proof.
  destruct (newRingBuffer_inv kBufferSize ltac:(unfold kBufferSize; lia)) as (rb & Hrb & _).
  assert (exists e0 ev0, initFromLoop (mkInitEnv false kSuccess kSuccess kSuccess 1 2) failing_run
    = Done (e0, ev0) /\ cn_state_ (ep_conn e0) = SEND_FDS /\ cn_error_ (ep_conn e0) = kSuccess /\
    ep_conn e0 = ep_conn failing_run <| cn_inboxReactorToken_ := Some 1 |>
      <| cn_outboxReactorToken_ := Some 2 |> <| cn_state_ := SEND_FDS |>)
    as (e0 & ev0 & Hi & Hst & Hok & Hc).
  { unfold initFromLoop, initImplFromLoop. cbn [ie_contextClosed ie_create ie_connect ie_block
      is_error failing_run ep_conn newConnection cn_socket_ andb orb negb].
    unfold kNumRingbufferRoles. rewrite Hrb, bind_done. eexists _, _. split; reflexivity || (split; reflexivity || (split; reflexivity)). }
  clear Hrb. destruct e0 as [c0 i0 o0]. simpl in Hst, Hok, Hc. subst c0.
  pose proof (cr_start _ failing_run _ _ eq_refl Hi) as R0.
  pose proof (cr_step (HRead RqAuto) _ _ _ _ _ _ R0 eq_refl eq_refl) as R1.
  pose proof (cr_step (HWrite (PBytes [1])) _ _ _ _ _ _ R1 eq_refl eq_refl) as R2.
  pose proof (cr_step (HSocket true false false false (SystemError 104) kSuccess (inl kSuccess))
    _ _ _ _ _ _ R2 eq_refl eq_refl) as R3.
  eexists _, _. split; [|exact (conn_callbacks_exactly_once _ _ _ _ R3)]. reflexivity.
Defined.
