(* ===== verification/IbvReactor.v ===== *)
(** * The reactor of the InfiniBand transport

    Models [transport/ibv/reactor.{h,cc}]: the requests of all connections of a
    context go through one reactor, which limits how many of them are in progress,
    keeps the others in queues, and hands the completions that it polls to the
    handlers registered for queue pairs.

    What handlers do to the rest of the program is a parameter: a state and, for
    each completion, its next state and the requests that the handler posts.  The
    InfiniBand library is seen through the verbs posted to it and through the
    completions it returns. *)

From S2P Require Import Prelude.

Definition kNumPendingRecvReqs : Z := 1024.
Definition kNumPendingWriteReqs : Z := 1024.
Definition kNumPendingAckReqs : Z := 1024.
Definition kCompletionQueueSize : Z := kNumPendingRecvReqs + kNumPendingWriteReqs + kNumPendingAckReqs.
Definition kSendQueueSize : Z := kNumPendingWriteReqs + kNumPendingAckReqs.
Definition kNumPolledWorkCompletions : Z := 32.
Definition kWriteRequestId : Z := 1.
Definition kAckRequestId : Z := 2.

Record WriteInfo := mkWriteInfo { wi_addr : Z; wi_length : Z; wi_lkey : Z; wi_remoteAddr : Z; wi_rkey : Z }.
Record AckInfo := mkAckInfo { ai_length : Z }.

(** The work requests posted to a queue pair ([post_send]), and receive requests
    posted to the shared queue ([post_srq_recv]). *)
Inductive verb :=
| RdmaWriteWithImm (qpn wr_id addr length lkey imm_data remote_addr rkey : Z)
| SendWithImm (qpn wr_id imm_data : Z)
| PostSrqRecv (num : Z).

Inductive wc_opcode := WC_RECV_RDMA_WITH_IMM | WC_RECV | WC_RDMA_WRITE | WC_SEND | WC_OTHER.
Record wc := mkWc {
  wc_wr_id : Z;
  wc_status : Z;                (* 0 is WC_SUCCESS *)
  wc_opcode_ : wc_opcode;
  wc_imm_data : Z;
  wc_qp_num : Z;
  wc_with_imm : bool;
}.

(** The methods of [IbvEventHandler]. *)
Inductive completion :=
| RemoteProducedData (length : Z)
| RemoteConsumedData (length : Z)
| WriteCompleted
| AckCompleted
| CompletionError (status wrId : Z).

Record Reactor (H : Type) := mkReactor {
  queuePairEventHandler_ : gmap Z H;
  numAvailableWrites_ : Z;
  numAvailableAcks_ : Z;
  pendingQpWrites_ : list (Z * WriteInfo);
  pendingQpAcks_ : list (Z * AckInfo);
}.
Arguments mkReactor {H}.
Arguments queuePairEventHandler_ {H}.
Arguments numAvailableWrites_ {H}.
Arguments numAvailableAcks_ {H}.
Arguments pendingQpWrites_ {H}.
Arguments pendingQpAcks_ {H}.
#[export] Instance eta_Reactor {H} : Eta (Reactor H) := fun r =>
  mkReactor (queuePairEventHandler_ r) (numAvailableWrites_ r) (numAvailableAcks_ r) (pendingQpWrites_ r) (pendingQpAcks_ r).

(** What a handler asks of the reactor. *)
Inductive request :=
| ReqWrite (qpn : Z) (info : WriteInfo)
| ReqAck (qpn : Z) (info : AckInfo).

Section reactor.
Context {H St : Type}.
Variable on_completion : H -> completion -> St -> outcome (St * list request).
Implicit Types (r : Reactor H) (s : St).

(** The constructor posts all the receive requests; [postRecvRequestsOnSRQ] posts
    them in chunks of [kNumPolledWorkCompletions]; [fuel] bounds its rounds. *)
Fixpoint postRecvRequestsOnSRQ (fuel : nat) (num : Z) : list verb :=
  match fuel with
  | O => []
  | S fuel =>
      if 0 <? num then
        PostSrqRecv (Z.min num kNumPolledWorkCompletions) :: postRecvRequestsOnSRQ fuel (num - Z.min num kNumPolledWorkCompletions)
      else []
  end.

Definition newReactor : Reactor H * list verb :=
  (mkReactor ∅ kNumPendingWriteReqs kNumPendingAckReqs [] [],
   postRecvRequestsOnSRQ (Z.to_nat kNumPendingRecvReqs) kNumPendingRecvReqs).

Definition registerQp (qpn : Z) (h : H) r : Reactor H :=
  r <| queuePairEventHandler_ ::= fun m => match m !! qpn with Some _ => m | None => <[qpn := h]> m end |>.
Definition unregisterQp (qpn : Z) r : Reactor H := r <| queuePairEventHandler_ ::= delete qpn |>.
Definition readyToClose r : bool := bool_decide (queuePairEventHandler_ r = ∅).

Definition postWrite (qp : Z) (info : WriteInfo) r : Reactor H * list verb :=
  if 0 <? numAvailableWrites_ r then
    (r <| numAvailableWrites_ ::= fun n => u32 (n - 1) |>,
     [RdmaWriteWithImm qp kWriteRequestId (wi_addr info) (u32 (wi_length info)) (wi_lkey info) (u32 (wi_length info))
        (wi_remoteAddr info) (wi_rkey info)])
  else (r <| pendingQpWrites_ ::= fun l => l ++ [(qp, info)] |>, []).

Definition postAck (qp : Z) (info : AckInfo) r : Reactor H * list verb :=
  if 0 <? numAvailableAcks_ r then
    (r <| numAvailableAcks_ ::= fun n => u32 (n - 1) |>, [SendWithImm qp kAckRequestId (u32 (ai_length info))])
  else (r <| pendingQpAcks_ ::= fun l => l ++ [(qp, info)] |>, []).

Definition post (q : request) r : Reactor H * list verb :=
  match q with ReqWrite qp info => postWrite qp info r | ReqAck qp info => postAck qp info r end.

Fixpoint post_all (qs : list request) r : Reactor H * list verb :=
  match qs with
  | [] => (r, [])
  | q :: qs => let '(r, vs1) := post q r in let '(r, vs2) := post_all qs r in (r, vs1 ++ vs2)
  end.

(** What a work completion means to its handler, and which of the three counts
    ([numRecvs], [numWrites], [numAcks]) it adds to. *)
Inductive counted := CountRecv | CountWrite | CountAck | CountNone.

Definition completion_of (c : wc) : outcome (completion * counted) :=
  if negb (wc_status c =? 0) then Done (CompletionError (wc_status c) (wc_wr_id c), CountNone)
  else match wc_opcode_ c with
  | WC_RECV_RDMA_WITH_IMM =>
      _ ← tp_check (wc_with_imm c); Done (RemoteProducedData (wc_imm_data c), CountRecv)
  | WC_RECV => _ ← tp_check (wc_with_imm c); Done (RemoteConsumedData (wc_imm_data c), CountRecv)
  | WC_RDMA_WRITE => Done (WriteCompleted, CountWrite)
  | WC_SEND => Done (AckCompleted, CountAck)
  | WC_OTHER => Throw ExAssert
  end.

Definition is_count (k k' : counted) : Z :=
  match k, k' with
  | CountRecv, CountRecv | CountWrite, CountWrite | CountAck, CountAck => 1
  | _, _ => 0
  end.

(** The loop over the completions: the handlers' state, the reactor, the verbs, and
    the counts of receives, writes and acknowledgements. *)
Fixpoint handle_completions (wcs : list wc) s r : outcome (St * Reactor H * list verb * (Z * Z * Z)) :=
  match wcs with
  | [] => Done (s, r, [], (0, 0, 0))
  | c :: wcs =>
      match queuePairEventHandler_ r !! wc_qp_num c with
      | None => Throw ExAssert
      | Some h =>
          '(k, n) ← completion_of c;
          '(s, qs) ← on_completion h k s;
          let '(r, vs1) := post_all qs r in
          '(s, r, vs2, (recvs, writes, acks)) ← handle_completions wcs s r;
          Done (s, r, vs1 ++ vs2, (recvs + is_count CountRecv n, writes + is_count CountWrite n, acks + is_count CountAck n))
      end
  end.

(** The loops over the requests that had to wait. *)
Fixpoint drain_writes (fuel : nat) r : Reactor H * list verb :=
  match fuel, pendingQpWrites_ r with
  | S fuel, (qp, info) :: _ =>
      if 0 <? numAvailableWrites_ r then
        let '(r, vs1) := postWrite qp info r in
        let '(r, vs2) := drain_writes fuel (r <| pendingQpWrites_ ::= tail |>) in
        (r, vs1 ++ vs2)
      else (r, [])
  | _, _ => (r, [])
  end.

Fixpoint drain_acks (fuel : nat) r : Reactor H * list verb :=
  match fuel, pendingQpAcks_ r with
  | S fuel, (qp, info) :: _ =>
      if 0 <? numAvailableAcks_ r then
        let '(r, vs1) := postAck qp info r in
        let '(r, vs2) := drain_acks fuel (r <| pendingQpAcks_ ::= tail |>) in
        (r, vs1 ++ vs2)
      else (r, [])
  | _, _ => (r, [])
  end.

(** [wcs]: the completions that [poll_cq] returns. *)
Definition pollOnce (wcs : list wc) s r : outcome (bool * St * Reactor H * list verb) :=
  match wcs with
  | [] => Done (false, s, r, [])
  | _ =>
      '(s, r, vs1, (recvs, writes, acks)) ← handle_completions wcs s r;
      let vs2 := postRecvRequestsOnSRQ (Z.to_nat recvs) recvs in
      let r := r <| numAvailableWrites_ ::= fun n => u32 (n + writes) |> in
      let '(r, vs3) := drain_writes (length (pendingQpWrites_ r)) r in
      let r := r <| numAvailableAcks_ ::= fun n => u32 (n + acks) |> in
      let '(r, vs4) := drain_acks (length (pendingQpAcks_ r)) r in
      Done (true, s, r, vs1 ++ vs2 ++ vs3 ++ vs4)
  end.
End reactor.

(** ** Worlds of a reactor *)

Definition write_verb (x : Z * WriteInfo) : verb :=
  RdmaWriteWithImm x.1 kWriteRequestId (wi_addr x.2) (u32 (wi_length x.2)) (wi_lkey x.2) (u32 (wi_length x.2))
    (wi_remoteAddr x.2) (wi_rkey x.2).
Definition ack_verb (x : Z * AckInfo) : verb := SendWithImm x.1 kAckRequestId (u32 (ai_length x.2)).

Definition is_write (v : verb) : option verb := match v with RdmaWriteWithImm _ _ _ _ _ _ _ _ => Some v | _ => None end.
Definition is_ack (v : verb) : option verb := match v with SendWithImm _ _ _ => Some v | _ => None end.
Definition req_write (q : request) : option (Z * WriteInfo) := match q with ReqWrite qp i => Some (qp, i) | _ => None end.
Definition req_ack (q : request) : option (Z * AckInfo) := match q with ReqAck qp i => Some (qp, i) | _ => None end.

(** How many of some completions count for [k], and how many report that a request
    of the kind [id] failed. *)
Definition counts (k : counted) (c : wc) : Z := match completion_of c with Done (_, n) => is_count k n | Throw _ => 0 end.
Definition completed (k : counted) (wcs : list wc) : Z := foldr (fun c n => n + counts k c) 0 wcs.
Definition fails (id : Z) (c : wc) : Z := if negb (wc_status c =? 0) && (wc_wr_id c =? id) then 1 else 0.
Definition failed (id : Z) (wcs : list wc) : Z := foldr (fun c n => n + fails id c) 0 wcs.

(** The requests made and the verbs posted so far, and what has come of them. *)
Record RWorld (H St : Type) := mkRWorld {
  rw_reactor : Reactor H;
  rw_state : St;
  rw_asked : list request;
  rw_verbs : list verb;
  rw_doneWrites : Z;
  rw_doneAcks : Z;
  rw_failedWrites : Z;
  rw_failedAcks : Z;
}.
Arguments mkRWorld {H St}.
Arguments rw_reactor {H St}.
Arguments rw_state {H St}.
Arguments rw_asked {H St}.
Arguments rw_verbs {H St}.
Arguments rw_doneWrites {H St}.
Arguments rw_doneAcks {H St}.
Arguments rw_failedWrites {H St}.
Arguments rw_failedAcks {H St}.

Inductive revent (H : Type) :=
| RvRegister (qpn : Z) (h : H)
| RvUnregister (qpn : Z)
| RvPost (q : request)
| RvPoll (wcs : list wc).
Arguments RvRegister {H}.
Arguments RvUnregister {H}.
Arguments RvPost {H}.
Arguments RvPoll {H}.

Section world.
Context {H St : Type}.
Variable on_completion : H -> completion -> St -> outcome (St * list request).
Implicit Types (w : RWorld H St) (r : Reactor H).

(** The handlers, with a record of what they asked for. *)
Definition on_logged (h : H) (k : completion) (s : St * list request) : outcome (St * list request * list request) :=
  '(s', qs) ← on_completion h k s.1; Done ((s', s.2 ++ qs), qs).

Definition rstep w (ev : revent H) : outcome (RWorld H St) :=
  match ev with
  | RvRegister qpn h => Done (mkRWorld (registerQp qpn h (rw_reactor w)) (rw_state w) (rw_asked w) (rw_verbs w)
      (rw_doneWrites w) (rw_doneAcks w) (rw_failedWrites w) (rw_failedAcks w))
  | RvUnregister qpn => Done (mkRWorld (unregisterQp qpn (rw_reactor w)) (rw_state w) (rw_asked w) (rw_verbs w)
      (rw_doneWrites w) (rw_doneAcks w) (rw_failedWrites w) (rw_failedAcks w))
  | RvPost q =>
      let '(r, vs) := post q (rw_reactor w) in
      Done (mkRWorld r (rw_state w) (rw_asked w ++ [q]) (rw_verbs w ++ vs)
        (rw_doneWrites w) (rw_doneAcks w) (rw_failedWrites w) (rw_failedAcks w))
  | RvPoll wcs =>
      '(_, s, r, vs) ← pollOnce on_logged wcs (rw_state w, rw_asked w) (rw_reactor w);
      Done (mkRWorld r s.1 s.2 (rw_verbs w ++ vs)
        (rw_doneWrites w + completed CountWrite wcs) (rw_doneAcks w + completed CountAck wcs)
        (rw_failedWrites w + failed kWriteRequestId wcs) (rw_failedAcks w + failed kAckRequestId wcs))
  end.

(** Requests in progress: posted, and neither completed nor failed. *)
Definition writes_in_progress w : Z := Z.of_nat (length (omap is_write (rw_verbs w))) - rw_doneWrites w - rw_failedWrites w.
Definition acks_in_progress w : Z := Z.of_nat (length (omap is_ack (rw_verbs w))) - rw_doneAcks w - rw_failedAcks w.

(** Completions are only polled of requests in progress. *)
Definition revent_ok w (ev : revent H) : bool :=
  match ev with
  | RvPoll wcs =>
      (completed CountWrite wcs + failed kWriteRequestId wcs <=? writes_in_progress w) &&
      (completed CountAck wcs + failed kAckRequestId wcs <=? acks_in_progress w)
  | _ => true
  end.

Definition rstart (s : St) : RWorld H St :=
  let '(r, vs) := newReactor in mkRWorld r s [] vs 0 0 0 0.

Inductive rreach : RWorld H St -> Prop :=
| rr_start s : rreach (rstart s)
| rr_step w ev w' : rreach w -> revent_ok w ev = true -> rstep w ev = Done w' -> rreach w'.

(** ** The invariant *)

(** One kind of request: posted in order, and as many at a time as allowed. *)
Record half {X} (f : X -> verb) (K avail : Z) (pending asked : list X) (posted : list verb) (credited : Z) : Prop := {
  hf_order : f <$> asked = posted ++ (f <$> pending);
  hf_avail : avail = K - (Z.of_nat (length posted) - credited);
  hf_range : 0 <= avail <= K /\ K < 2 ^ 32;
}.
Definition eager {X} (avail : Z) (pending : list X) : Prop := pending = [] \/ avail = 0.

Lemma half_post {X} (f : X -> verb) K avail pending asked posted credited x :
  half f K avail pending asked posted credited -> eager avail pending ->
  if 0 <? avail then half f K (u32 (avail - 1)) pending (asked ++ [x]) (posted ++ [f x]) credited /\ eager (u32 (avail - 1)) pending
  else half f K avail (pending ++ [x]) (asked ++ [x]) posted credited /\ eager avail (pending ++ [x]).
Proof.
  intros [Ho Ha Hr] He. destruct (Z.ltb_spec 0 avail).
  - destruct He as [->|]; [|lia]. rewrite u32_small by (unfold is_u32; lia). split; [|by left]. split.
    + by rewrite fmap_app, Ho, !app_nil_r.
    + rewrite length_app. simpl. lia.
    + lia.
  - split; [|right; lia]. split; [by rewrite !fmap_app, Ho, app_assoc | done..].
Qed.

Record rinv r (asked : list request) (vs : list verb) (cw ca : Z) : Prop := {
  ri_writes : half write_verb kNumPendingWriteReqs (numAvailableWrites_ r) (pendingQpWrites_ r) (omap req_write asked) (omap is_write vs) cw;
  ri_acks : half ack_verb kNumPendingAckReqs (numAvailableAcks_ r) (pendingQpAcks_ r) (omap req_ack asked) (omap is_ack vs) ca;
  ri_eager : eager (numAvailableWrites_ r) (pendingQpWrites_ r) /\ eager (numAvailableAcks_ r) (pendingQpAcks_ r);
}.

Lemma post_ok q r asked vs cw ca r' vs' :
  rinv r asked vs cw ca -> post q r = (r', vs') -> rinv r' (asked ++ [q]) (vs ++ vs') cw ca.
Proof.
  intros [Hw Ha [Ew Ea]] Hp. destruct q as [qp i|qp i]; simpl in Hp; unfold postWrite, postAck in Hp.
  - pose proof (half_post write_verb _ _ _ _ _ _ (qp, i) Hw Ew) as Hh.
    destruct (0 <? numAvailableWrites_ r); injection Hp as <- <-; destruct Hh as [Hh He];
      split; rewrite ?omap_app; simpl; rewrite ?app_nil_r; done.
  - pose proof (half_post ack_verb _ _ _ _ _ _ (qp, i) Ha Ea) as Hh.
    destruct (0 <? numAvailableAcks_ r); injection Hp as <- <-; destruct Hh as [Hh He];
      split; rewrite ?omap_app; simpl; rewrite ?app_nil_r; done.
Qed.

Lemma post_all_ok qs : forall r asked vs cw ca r' vs',
  rinv r asked vs cw ca -> post_all qs r = (r', vs') -> rinv r' (asked ++ qs) (vs ++ vs') cw ca.
Proof.
  induction qs as [|q qs IH]; intros r asked vs cw ca r' vs' Hi Hp; simpl in Hp.
  - injection Hp as <- <-. by rewrite !app_nil_r.
  - destruct (post q r) as [r1 vs1] eqn:H1, (post_all qs r1) as [r2 vs2] eqn:H2. injection Hp as <- <-.
    rewrite (app_assoc vs). replace (asked ++ q :: qs) with ((asked ++ [q]) ++ qs) by (by rewrite <- app_assoc).
    eapply IH; [by eapply post_ok | done].
Qed.

Lemma handle_completions_ok wcs : forall s asked r vs cw ca s' asked' r' vs' n,
  rinv r asked vs cw ca -> handle_completions on_logged wcs (s, asked) r = Done ((s', asked'), r', vs', n) ->
  rinv r' asked' (vs ++ vs') cw ca /\ n = (completed CountRecv wcs, completed CountWrite wcs, completed CountAck wcs).
Proof.
  induction wcs as [|c wcs IH]; intros s asked r vs cw ca s' asked' r' vs' n Hi Hh; simpl in Hh.
  - apply done_inj in Hh as [= -> -> <- <- <-]. by rewrite app_nil_r.
  - destruct (queuePairEventHandler_ r !! wc_qp_num c) as [h|]; [|done].
    inv_bind Hh. destruct a as [k m]. inv_bind Hh. destruct a as [[s1 asked1] qs].
    unfold on_logged in Ha0. inv_bind Ha0. destruct a as [s2 qs2]. apply done_inj in Ha0 as [= -> <- ->].
    destruct (post_all qs r) as [r1 vs1] eqn:H1. inv_bind Hh. destruct a as [[[[s2 a2] r2] vs2] [[n1 n2] n3]].
    apply done_inj in Hh as [= <- <- <- <- <-].
    destruct (IH _ _ _ _ _ _ _ _ _ _ _ (post_all_ok _ _ _ _ _ _ _ _ Hi H1) Ha0) as [Hr [= -> -> ->]].
    rewrite app_assoc. split; [done|]. simpl. unfold counts. by rewrite Ha.
Qed.

(** The waiting requests are posted while there is room. *)
Lemma half_drain {X} (f : X -> verb) K avail x pending asked posted credited :
  half f K avail (x :: pending) asked posted credited -> 0 < avail ->
  half f K (u32 (avail - 1)) pending asked (posted ++ [f x]) credited.
Proof.
  intros [Ho Ha Hr] Hlt. rewrite u32_small by (unfold is_u32; lia). split.
  - by rewrite Ho, <- app_assoc.
  - rewrite length_app. simpl. lia.
  - lia.
Qed.

Lemma drain_writes_ok fuel : forall r asked vs cw r' vs',
  half write_verb kNumPendingWriteReqs (numAvailableWrites_ r) (pendingQpWrites_ r) asked (omap is_write vs) cw ->
  (length (pendingQpWrites_ r) <= fuel)%nat -> drain_writes fuel r = (r', vs') ->
  half write_verb kNumPendingWriteReqs (numAvailableWrites_ r') (pendingQpWrites_ r') asked (omap is_write (vs ++ vs')) cw /\
  eager (numAvailableWrites_ r') (pendingQpWrites_ r') /\ omap is_ack vs' = [] /\
  numAvailableAcks_ r' = numAvailableAcks_ r /\ pendingQpAcks_ r' = pendingQpAcks_ r.
Proof.
  induction fuel as [|fuel IH]; intros r asked vs cw r' vs' Hh Hf Hd; simpl in Hd.
  - injection Hd as <- <-. rewrite app_nil_r. destruct (pendingQpWrites_ r) eqn:Hp; [|simpl in Hf; lia]. by split_and!; [..|left| | |].
  - destruct (pendingQpWrites_ r) as [|[qp i] l] eqn:Hp.
    { injection Hd as <- <-. rewrite app_nil_r, Hp. by split_and!; [..|left| | |]. }
    unfold postWrite in Hd. destruct (Z.ltb_spec 0 (numAvailableWrites_ r)) as [Hlt|Hge].
    + destruct (drain_writes fuel _) as [r1 vs1] eqn:H1. injection Hd as <- <-.
      apply (half_drain _ _ _ _ _ _ _ _ Hh) in Hlt.
      set (r0 := r <| numAvailableWrites_ ::= fun n => u32 (n - 1) |> <| pendingQpWrites_ ::= tail |>) in *.
      assert (pendingQpWrites_ r0 = l) as Hl by (unfold r0; simpl; by rewrite Hp).
      destruct (IH r0 asked (vs ++ [write_verb (qp, i)]) cw r1 vs1) as (A1 & A2 & A3 & A4 & A5); [|rewrite Hl; simpl in Hf; lia|done|].
      { rewrite Hl, omap_app. exact Hlt. }
      rewrite <- app_assoc in A1. by split_and!.
    + injection Hd as <- <-. rewrite app_nil_r, Hp. split_and!; try done. right. destruct Hh as [_ _ ?]. lia.
Qed.

Lemma drain_acks_ok fuel : forall r asked vs ca r' vs',
  half ack_verb kNumPendingAckReqs (numAvailableAcks_ r) (pendingQpAcks_ r) asked (omap is_ack vs) ca ->
  (length (pendingQpAcks_ r) <= fuel)%nat -> drain_acks fuel r = (r', vs') ->
  half ack_verb kNumPendingAckReqs (numAvailableAcks_ r') (pendingQpAcks_ r') asked (omap is_ack (vs ++ vs')) ca /\
  eager (numAvailableAcks_ r') (pendingQpAcks_ r') /\ omap is_write vs' = [] /\
  numAvailableWrites_ r' = numAvailableWrites_ r /\ pendingQpWrites_ r' = pendingQpWrites_ r.
Proof.
  induction fuel as [|fuel IH]; intros r asked vs ca r' vs' Hh Hf Hd; simpl in Hd.
  - injection Hd as <- <-. rewrite app_nil_r. destruct (pendingQpAcks_ r) eqn:Hp; [|simpl in Hf; lia]. by split_and!; [..|left| | |].
  - destruct (pendingQpAcks_ r) as [|[qp i] l] eqn:Hp.
    { injection Hd as <- <-. rewrite app_nil_r, Hp. by split_and!; [..|left| | |]. }
    unfold postAck in Hd. destruct (Z.ltb_spec 0 (numAvailableAcks_ r)) as [Hlt|Hge].
    + destruct (drain_acks fuel _) as [r1 vs1] eqn:H1. injection Hd as <- <-.
      apply (half_drain _ _ _ _ _ _ _ _ Hh) in Hlt.
      set (r0 := r <| numAvailableAcks_ ::= fun n => u32 (n - 1) |> <| pendingQpAcks_ ::= tail |>) in *.
      assert (pendingQpAcks_ r0 = l) as Hl by (unfold r0; simpl; by rewrite Hp).
      destruct (IH r0 asked (vs ++ [ack_verb (qp, i)]) ca r1 vs1) as (A1 & A2 & A3 & A4 & A5); [|rewrite Hl; simpl in Hf; lia|done|].
      { rewrite Hl, omap_app. exact Hlt. }
      rewrite <- app_assoc in A1. by split_and!.
    + injection Hd as <- <-. rewrite app_nil_r, Hp. split_and!; try done. right. destruct Hh as [_ _ ?]. lia.
Qed.

Lemma half_credit {X} (f : X -> verb) K avail pending asked posted credited n :
  half f K avail pending asked posted credited -> 0 <= n <= Z.of_nat (length posted) - credited ->
  half f K (u32 (avail + n)) pending asked posted (credited + n).
Proof.
  intros [Ho Ha Hr] Hn. rewrite u32_small by (unfold is_u32; lia). split; [done | lia..].
Qed.

Lemma recv_verbs fuel : forall n, omap is_write (postRecvRequestsOnSRQ fuel n) = [] /\ omap is_ack (postRecvRequestsOnSRQ fuel n) = [].
Proof.
  induction fuel as [|fuel IH]; intros n; [done|]. simpl. destruct (0 <? n); [|done]. simpl. apply IH.
Qed.

Lemma completed_pos k wcs : 0 <= completed k wcs.
Proof.
  induction wcs as [|c wcs IH]; simpl; [lia|]. unfold counts. destruct (completion_of c) as [[? m]|]; [|lia]. destruct k, m; simpl; lia.
Qed.
Lemma failed_pos id wcs : 0 <= failed id wcs.
Proof. induction wcs as [|c wcs IH]; simpl; [lia|]. unfold fails. destruct (_ && _); lia. Qed.

Lemma poll_ok wcs s asked r vs cw ca b s' asked' r' vs' :
  rinv r asked vs cw ca ->
  completed CountWrite wcs <= Z.of_nat (length (omap is_write vs)) - cw ->
  completed CountAck wcs <= Z.of_nat (length (omap is_ack vs)) - ca ->
  pollOnce on_logged wcs (s, asked) r = Done (b, (s', asked'), r', vs') ->
  rinv r' asked' (vs ++ vs') (cw + completed CountWrite wcs) (ca + completed CountAck wcs).
Proof.
  intros Hi Hcw Hca Hp. unfold pollOnce in Hp. destruct wcs as [|c wcs0].
  { apply done_inj in Hp as [= <- -> -> <- <-]. simpl. by rewrite app_nil_r, !Z.add_0_r. }
  set (wcs := c :: wcs0) in *. inv_bind Hp. destruct a as [[[[s1 a1] r1] vs1] [[n1 n2] n3]].
  destruct (handle_completions_ok _ _ _ _ _ _ _ _ _ _ _ _ Hi Ha) as [[Hw Hk [Ew Ek]] [= -> -> ->]].
  assert (forall f : verb -> option verb, Z.of_nat (length (omap f vs)) <= Z.of_nat (length (omap f (vs ++ vs1)))) as Hlen
    by (intros f; rewrite omap_app, length_app; lia).
  set (vs2 := postRecvRequestsOnSRQ _ _) in Hp. destruct (recv_verbs (Z.to_nat (completed CountRecv wcs)) (completed CountRecv wcs)) as [R1 R2].
  change (postRecvRequestsOnSRQ _ _) with vs2 in R1, R2.
  destruct (drain_writes _ _) as [r3 vs3] eqn:H3 in Hp. destruct (drain_acks _ _) as [r4 vs4] eqn:H4 in Hp.
  apply done_inj in Hp as [= <- <- <- <- <-].
  pose proof (completed_pos CountWrite wcs) as P1. pose proof (completed_pos CountAck wcs) as P2.
  pose proof (Hlen is_write) as L1. pose proof (Hlen is_ack) as L2.
  apply (half_credit _ _ _ _ _ _ _ (completed CountWrite wcs)) in Hw; [|lia].
  pose proof (fun fuel => drain_writes_ok fuel (r1 <| numAvailableWrites_ ::= fun n => u32 (n + completed CountWrite wcs) |>)
    (omap req_write a1) (vs ++ vs1) (cw + completed CountWrite wcs) r3 vs3) as Hd. simpl in Hd.
  destruct (Hd _ Hw (Nat.le_refl _) H3) as (W1 & W2 & W3 & W4 & W5). clear Hd.
  apply (half_credit _ _ _ _ _ _ _ (completed CountAck wcs)) in Hk; [|lia]. rewrite <- W4, <- W5 in Hk.
  pose proof (fun fuel => drain_acks_ok fuel (r3 <| numAvailableAcks_ ::= fun n => u32 (n + completed CountAck wcs) |>)
    (omap req_ack a1) (vs ++ vs1) (ca + completed CountAck wcs) r4 vs4) as Hd. simpl in Hd.
  destruct (Hd _ Hk (Nat.le_refl _) H4) as (A1 & A2 & A3 & A4 & A5).
  split; [| |by rewrite A4, A5].
  - rewrite A4, A5. rewrite !omap_app in *. rewrite R1, A3, app_nil_r, app_nil_l, app_assoc. exact W1.
  - rewrite !omap_app in *. rewrite R2, W3, !app_nil_l, app_assoc. exact A1.
Qed.

Lemma newReactor_inv : rinv (newReactor (H := H)).1 [] (newReactor (H := H)).2 0 0 /\
  omap is_write (newReactor (H := H)).2 = [] /\ omap is_ack (newReactor (H := H)).2 = [].
Proof.
  destruct (recv_verbs (Z.to_nat kNumPendingRecvReqs) kNumPendingRecvReqs) as [R1 R2].
  unfold newReactor. cbn [fst snd]. remember (postRecvRequestsOnSRQ _ _) as vs eqn:Hvs. clear Hvs.
  split; [|done]. split; rewrite ?R1, ?R2; [| |by split; left];
    (split; [done | simpl; lia | unfold kNumPendingWriteReqs, kNumPendingAckReqs; simpl; lia]).
Qed.

Lemma rreach_inv w : rreach w ->
  rinv (rw_reactor w) (rw_asked w) (rw_verbs w) (rw_doneWrites w) (rw_doneAcks w) /\
  0 <= writes_in_progress w /\ 0 <= acks_in_progress w /\ 0 <= rw_failedWrites w /\ 0 <= rw_failedAcks w.
Proof.
  induction 1 as [s|w ev w' _ (Hi & Hw & Ha & Hfw & Hfa) Hok Hst].
  - unfold rstart, writes_in_progress, acks_in_progress. destruct newReactor_inv as (Hr & R1 & R2). destruct newReactor as [r vs].
    cbn [fst snd] in *. cbn [rw_reactor rw_asked rw_verbs rw_doneWrites rw_doneAcks rw_failedWrites rw_failedAcks]. rewrite R1, R2. split; [done | simpl; lia].
  - destruct ev as [qpn h|qpn|q|wcs]; simpl in Hst.
    + apply done_inj in Hst as <-. by destruct Hi.
    + apply done_inj in Hst as <-. by destruct Hi.
    + destruct (post q (rw_reactor w)) as [r vs] eqn:Hp. apply done_inj in Hst as <-. split; [by eapply post_ok|].
      unfold writes_in_progress, acks_in_progress in *. simpl. rewrite !omap_app, !length_app. lia.
    + inv_bind Hst. destruct a as [[[b [s' a']] r'] vs']. apply done_inj in Hst as <-. simpl in Hok. bool_hyps.
      pose proof (failed_pos kWriteRequestId wcs). pose proof (failed_pos kAckRequestId wcs).
      split; [eapply poll_ok; [exact Hi|..|exact Ha0]; unfold writes_in_progress, acks_in_progress in *; lia|].
      unfold writes_in_progress, acks_in_progress in *. simpl. rewrite !omap_app, !length_app. lia.
Qed.
End world.

(** C16: the reactor posts writes, and acknowledgements, in the order in which they are
    asked for, never more of them at a time than it has allowed itself (so neither
    the send queue of a queue pair nor the completion queue can overrun), and delays
    one only when all that it may use is taken by requests in progress or lost to
    requests that failed. *)
Theorem ibv_reactor_bounds {H St} (on_completion : H -> completion -> St -> outcome (St * list request)) (w : RWorld H St) :
  rreach on_completion w ->
  (0 <= writes_in_progress w /\ writes_in_progress w + rw_failedWrites w <= kNumPendingWriteReqs) /\
  (0 <= acks_in_progress w /\ acks_in_progress w + rw_failedAcks w <= kNumPendingAckReqs) /\
  write_verb <$> omap req_write (rw_asked w) = omap is_write (rw_verbs w) ++ (write_verb <$> pendingQpWrites_ (rw_reactor w)) /\
  ack_verb <$> omap req_ack (rw_asked w) = omap is_ack (rw_verbs w) ++ (ack_verb <$> pendingQpAcks_ (rw_reactor w)) /\
  (pendingQpWrites_ (rw_reactor w) <> [] -> writes_in_progress w + rw_failedWrites w = kNumPendingWriteReqs) /\
  (pendingQpAcks_ (rw_reactor w) <> [] -> acks_in_progress w + rw_failedAcks w = kNumPendingAckReqs).
Proof.
  intros Hw. destruct (rreach_inv on_completion w Hw) as ([[Ow Aw Rw] [Oa Aa Ra] [Ew Ea]] & Pw & Pa & Fw & Fa).
  unfold writes_in_progress, acks_in_progress in *. split_and!; try done; try lia.
  - intros Hp. destruct Ew as [|E]; [done|]. lia.
  - intros Hp. destruct Ea as [|E]; [done|]. lia.
Qed.

(** ** Requests that fail *)

(** No handler asks for anything. *)
Definition no_requests (h : unit) (k : completion) (s : unit) : outcome (unit * list request) := Done (s, []).

Fixpoint rrun (evs : list (revent unit)) (w : RWorld unit unit) : option (RWorld unit unit) :=
  match evs with
  | [] => Some w
  | ev :: evs =>
      if revent_ok w ev then match rstep no_requests w ev with Done w => rrun evs w | Throw _ => None end else None
  end.

Lemma rrun_reach evs : forall w w', rreach no_requests w -> rrun evs w = Some w' -> rreach no_requests w'.
Proof.
  induction evs as [|ev evs IH]; intros w w' Hw Hr; simpl in Hr; [by simplify_eq|].
  destruct (revent_ok w ev) eqn:Hok; [|done]. destruct (rstep no_requests w ev) as [w1|] eqn:Hs; [|done].
  eapply IH; [|done]. by eapply rr_step.
Qed.

(** A queue pair whose [n] writes all fail, and a write that is asked for later. *)
Definition some_write : request := ReqWrite 7 (mkWriteInfo 0 1 1 0 1).
Definition failed_wc : wc := mkWc kWriteRequestId 5 WC_OTHER 0 7 false.
Definition failing_events (n : nat) : list (revent unit) :=
  RvRegister 7 tt :: replicate n (RvPost some_write) ++ replicate n (RvPoll [failed_wc]) ++ [RvPost some_write].
Definition failing_world (n : nat) : RWorld unit unit := default (rstart tt) (rrun (failing_events n) (rstart tt)).

Lemma failing_reach : rreach no_requests (failing_world (Z.to_nat kNumPendingWriteReqs)).
Proof.
  assert (exists w, rrun (failing_events (Z.to_nat kNumPendingWriteReqs)) (rstart tt) = Some w) as [w Hw].
  { by eexists; vm_compute. }
  unfold failing_world. rewrite Hw. eapply rrun_reach; [apply rr_start | exact Hw].
Qed.

(** C17: but what failed requests used is not given back: after as many failures as
    there may be writes in progress, over all connections together, no write is
    ever in progress again, and those that are asked for stay in the queue. *)
Theorem ibv_reactor_leak :
  (forall H St (on_completion : H -> completion -> St -> outcome (St * list request)) (w : RWorld H St),
     rreach on_completion w -> kNumPendingWriteReqs <= rw_failedWrites w -> writes_in_progress w = 0) /\
  (exists w, rreach no_requests w /\ rw_failedWrites w = kNumPendingWriteReqs /\ writes_in_progress w = 0 /\
     length (pendingQpWrites_ (rw_reactor w)) = 1%nat).
Proof.
  split.
  - intros H St on_completion w Hw Hf.
    destruct (rreach_inv on_completion w Hw) as ([[Ow Aw Rw] _ _] & Pw & _).
    unfold writes_in_progress in *. lia.
  - exists (failing_world (Z.to_nat kNumPendingWriteReqs)). split; [exact failing_reach|].
    split; [by vm_compute|]. split; by vm_compute.
Qed.

Lemma failing_pending : pendingQpWrites_ (rw_reactor (failing_world (Z.to_nat kNumPendingWriteReqs))) <> [].
Proof. by vm_compute. Qed.

Lemma ibv_reactor_bounds_witness :
  writes_in_progress (failing_world (Z.to_nat kNumPendingWriteReqs)) + rw_failedWrites (failing_world (Z.to_nat kNumPendingWriteReqs)) =
    kNumPendingWriteReqs.
Proof.
  destruct (ibv_reactor_bounds no_requests _ failing_reach) as (_ & _ & _ & _ & Hb & _). exact (Hb failing_pending).
Defined.
