(* ===== verification/IbvConnection.v ===== *)
(** * Connections of the InfiniBand transport

    Models [transport/ibv/connection_impl.{h,cc}] together with the part of
    [transport/connection_impl_boilerplate.h] that sequences its operations.  Every
    function here runs in the loop of the context, so it is atomic.

    A connection writes into its outbox, a ring buffer with three roles: the
    producer appends, the writer hands what was appended to the reactor, as remote
    writes into the inbox of the peer, and the acker frees what the peer has read.
    Its inbox is a ring buffer with two roles: what the peer wrote is made available
    by the receiver and taken by the consumer, which is acknowledged.

    Callbacks, requests to the reactor and registrations are returned as a list of
    events; what the socket, the memory and the library answer is an argument.
    Buffers are named by the address of their first byte. *)

From S2P Require Import Prelude System RingBuffer RingBufferTx Nop RingbufferOps RingbufferQueues IbvReactor.

Definition kBufferSize : Z := 2 * 1024 * 1024.

Definition kNumOutboxRingbufferRoles : nat := 3.
Definition OutboxIbvAcker : nat := 0.
Definition OutboxIbvWriter : nat := 1.
Definition OutboxProducer : nat := 2.
Definition kNumInboxRingbufferRoles : nat := 2.
Definition InboxConsumer : nat := 0.
Definition InboxIbvRecver : nat := 1.

Inductive IbvState := INITIALIZING | SEND_ADDR | RECV_ADDR | ESTABLISHED.

#[export] Instance IbvState_eq_dec : EqDecision IbvState.
Proof. solve_decision. Defined.

(** [setupInfo] is what the library needs about the queue pair of the peer. *)
Record Exchange := mkExchange { setupInfo : Z; memoryRegionPtr : Z; memoryRegionKey : Z }.

Section connection.
Context {T : Type} `{NopEncoding T}.

(** [cn_qp_]: the number of the queue pair, once created.  The keys and addresses of
    the two memory regions are those of [inboxMr_], [inboxBuf_], [outboxMr_] and
    [outboxBuf_]. *)
Record ConnectionImpl := mkConn {
  cn_error_ : Error;
  cn_state_ : IbvState;
  cn_socket_ : bool;
  cn_qp_ : option Z;
  cn_inboxPtr : Z;
  cn_inboxRkey : Z;
  cn_outboxPtr : Z;
  cn_outboxLkey : Z;
  cn_peerInboxKey_ : Z;
  cn_peerInboxPtr_ : Z;
  cn_peerInboxHead_ : Z;
  cn_numWritesInFlight_ : Z;
  cn_numAcksInFlight_ : Z;
  cn_readOperations_ : list (RingbufferReadOperation T);
  cn_writeOperations_ : list (RingbufferWriteOperation T);
}.
#[export] Instance eta_ConnectionImpl : Eta ConnectionImpl := fun c =>
  mkConn (cn_error_ c) (cn_state_ c) (cn_socket_ c) (cn_qp_ c) (cn_inboxPtr c) (cn_inboxRkey c) (cn_outboxPtr c)
    (cn_outboxLkey c) (cn_peerInboxKey_ c) (cn_peerInboxPtr_ c) (cn_peerInboxHead_ c) (cn_numWritesInFlight_ c)
    (cn_numAcksInFlight_ c) (cn_readOperations_ c) (cn_writeOperations_ c).

Inductive event :=
| EvRead (call : read_call T)
| EvWrite (call : write_call)
| EvPostWrite (qpn : Z) (info : WriteInfo)
| EvPostAck (qpn : Z) (info : AckInfo)
| EvQpInit (qpn : Z)
| EvQpReady (qpn setupInfo : Z)           (* ready to receive, then to send *)
| EvQpError (qpn : Z)
| EvRegisterQp (qpn : Z)
| EvUnregisterQp (qpn : Z)
| EvRegister (epollin : bool)
| EvUnregister
| EvEnroll
| EvUnenroll
| EvSendAddr (ex : Exchange)
| EvDeferCleanup.

(** A connection with its two rings. *)
Record endpoint := mkEndpoint { ep_conn : ConnectionImpl; ep_inbox : RingBuffer; ep_outbox : RingBuffer }.
#[export] Instance eta_endpoint : Eta endpoint := fun e => mkEndpoint (ep_conn e) (ep_inbox e) (ep_outbox e).

Definition newConnection (hasSocket : bool) : ConnectionImpl :=
  mkConn kSuccess INITIALIZING hasSocket None 0 0 0 0 0 0 0 0 0 [] [].

(** A null pointer must not be followed. *)
Definition get_qp (c : ConnectionImpl) : outcome Z :=
  match cn_qp_ c with Some q => Done q | None => Throw ExDangling end.

(** ** Serving the queues *)

(** The [while] loop of [processReadOperationsFromLoop]; [acks] are in flight. *)
Fixpoint serve_reads (qp : Z) (ops : list (RingbufferReadOperation T)) (acks : Z) (s : rstate)
  : outcome (list (RingbufferReadOperation T) * list event * Z * rstate) :=
  match ops with
  | [] => Done ([], [], acks, s)
  | op :: rest =>
      '(n, op, calls, s) ← handleRead kNumInboxRingbufferRoles InboxConsumer op s;
      let evs := (EvRead <$> calls) ++ (if 0 <? n then [EvPostAck qp (mkAckInfo n)] else []) in
      let acks := if 0 <? n then u32 (acks + 1) else acks in
      if read_completed op then
        '(ops, evs', acks, s) ← serve_reads qp rest acks s;
        Done (ops, evs ++ evs', acks, s)
      else Done (op :: rest, evs, acks, s)
  end.

(** The loop over the buffers of one transaction of the writer, which are at offsets
    of the outbox. *)
Definition post_buffer (c : ConnectionImpl) (qp : Z) (b : Buffer) : ConnectionImpl * list event :=
  let peerInboxOffset := Z.land (cn_peerInboxHead_ c) (kBufferSize - 1) in
  (c <| cn_peerInboxHead_ ::= fun h => u64 (h + buf_len b) |> <| cn_numWritesInFlight_ ::= fun n => u32 (n + 1) |>,
   [EvPostWrite qp (mkWriteInfo (u64 (cn_outboxPtr c + default 0 (buf_ptr b))) (buf_len b) (cn_outboxLkey c)
      (u64 (cn_peerInboxPtr_ c + peerInboxOffset)) (cn_peerInboxKey_ c))]).

Fixpoint post_buffers (c : ConnectionImpl) (qp : Z) (bs : list Buffer) : ConnectionImpl * list event :=
  match bs with
  | [] => (c, [])
  | b :: bs =>
      let '(c, evs1) := post_buffer c qp b in
      let '(c, evs2) := post_buffers c qp bs in
      (c, evs1 ++ evs2)
  end.

(** What was appended to the outbox is handed to the reactor, in a transaction of
    the role [OutboxIbvWriter]. *)
Definition post_outbox (qp : Z) (len : Z) (rb : RingBuffer) (c : ConnectionImpl)
  : outcome (ConnectionImpl * list event * RingBuffer) :=
  '(ret, s) ← startTx OutboxIbvWriter (rb, newRole);
  _ ← throw_system_if_neg ret;
  '(numBuffers, (b0, b1), s) ← accessContiguousInTx kNumOutboxRingbufferRoles OutboxIbvWriter false len s;
  _ ← throw_system_if_neg numBuffers;
  let '(c, evs) := post_buffers c qp (take (Z.to_nat numBuffers) [b0; b1]) in
  let '(ret, s) := commitTx OutboxIbvWriter s in
  _ ← throw_system_if_neg ret;
  Done (c, evs, s.1).

(** The [while] loop of [processWriteOperationsFromLoop]; the role of the producer
    lives as long as the loop. *)
Fixpoint serve_writes (qp : Z) (ops : list (RingbufferWriteOperation T)) (s : rstate) (c : ConnectionImpl)
  : outcome (list (RingbufferWriteOperation T) * list event * ConnectionImpl * rstate) :=
  match ops with
  | [] => Done ([], [], c, s)
  | op :: rest =>
      '(len, op, calls, (rb, role)) ← handleWrite kNumOutboxRingbufferRoles OutboxProducer op s;
      '(c, evs, rb) ← if 0 <? len then post_outbox qp len rb c else Done (c, [], rb);
      let evs := (EvWrite <$> calls) ++ evs in
      if write_completed op then
        '(ops, evs', c, s) ← serve_writes qp rest (rb, role) c;
        Done (ops, evs ++ evs', c, s)
      else Done (op :: rest, evs, c, (rb, role))
  end.

Definition processReadOperationsFromLoop (e : endpoint) : outcome (endpoint * list event) :=
  let c := ep_conn e in
  if negb (bool_decide (cn_state_ c = ESTABLISHED)) then Done (e, [])
  else match cn_readOperations_ c with
  | [] => Done (e, [])
  | ops =>
      qp ← get_qp c;
      '(ops, evs, acks, (rb, _)) ← serve_reads qp ops (cn_numAcksInFlight_ c) (ep_inbox e, newRole);
      Done (e <| ep_conn := c <| cn_readOperations_ := ops |> <| cn_numAcksInFlight_ := acks |> |> <| ep_inbox := rb |>, evs)
  end.

Definition processWriteOperationsFromLoop (e : endpoint) : outcome (endpoint * list event) :=
  let c := ep_conn e in
  if negb (bool_decide (cn_state_ c = ESTABLISHED)) then Done (e, [])
  else match cn_writeOperations_ c with
  | [] => Done (e, [])
  | ops =>
      qp ← get_qp c;
      '(ops, evs, c, (rb, _)) ← serve_writes qp ops (ep_outbox e, newRole) c;
      Done (e <| ep_conn := c <| cn_writeOperations_ := ops |> |> <| ep_outbox := rb |>, evs)
  end.

(** ** Errors *)

Definition tryCleanup (c : ConnectionImpl) : list event :=
  if is_error (cn_error_ c) && (cn_numWritesInFlight_ c =? 0) && (cn_numAcksInFlight_ c =? 0) then [EvDeferCleanup] else [].

Definition cleanup (c : ConnectionImpl) : outcome (ConnectionImpl * list event) :=
  qp ← get_qp c; Done (c <| cn_qp_ := None |>, [EvUnregisterQp qp]).

Definition handleErrorImpl (c : ConnectionImpl) : outcome (ConnectionImpl * list event) :=
  let evs1 :=
    (EvRead ∘ read_handleError (cn_error_ c) <$> cn_readOperations_ c) ++
    (EvWrite ∘ write_handleError (cn_error_ c) <$> cn_writeOperations_ c) in
  let c := c <| cn_readOperations_ := [] |> <| cn_writeOperations_ := [] |> in
  qp ← get_qp c;
  let evs2 := EvQpError qp :: tryCleanup c ++
    (if cn_socket_ c && negb (bool_decide (cn_state_ c = INITIALIZING)) then [EvUnregister] else []) ++ [EvUnenroll] in
  Done (c <| cn_socket_ := false |>, evs1 ++ evs2).

Definition setError (error : Error) (c : ConnectionImpl) : outcome (ConnectionImpl * list event) :=
  if is_error (cn_error_ c) || negb (is_error error) then Done (c, [])
  else handleErrorImpl (c <| cn_error_ := error |>).

Definition closeFromLoop (c : ConnectionImpl) : outcome (ConnectionImpl * list event) :=
  setError ConnectionClosedError c.

Definition on_conn (f : ConnectionImpl -> outcome (ConnectionImpl * list event)) (e : endpoint)
  : outcome (endpoint * list event) :=
  '(c, evs) ← f (ep_conn e); Done (e <| ep_conn := c |>, evs).

(** ** Requests of the user *)

Definition readFromLoop (rq : read_request) (fn : nat) (e : endpoint) : outcome (endpoint * list event) :=
  let c := ep_conn e in
  if is_error (cn_error_ c) then
    let mem := match rq with RqBuffer mem _ => mem | _ => [] end in
    Done (e, [EvRead (mkReadCall fn (cn_error_ c) mem None)])
  else processReadOperationsFromLoop (e <| ep_conn := c <| cn_readOperations_ ::= fun ops => ops ++ [new_read rq fn] |> |>).

Definition writeFromLoop (p : payload T) (fn : nat) (e : endpoint) : outcome (endpoint * list event) :=
  let c := ep_conn e in
  if is_error (cn_error_ c) then Done (e, [EvWrite (mkWriteCall fn (cn_error_ c))])
  else processWriteOperationsFromLoop (e <| ep_conn := c <| cn_writeOperations_ ::= fun ops => ops ++ [new_write p fn] |> |>).

(** ** Initialization and handshake *)

(** Answers of the context, the socket and the library, in the order they are asked
    for. *)
Record init_env := mkInitEnv {
  ie_contextClosed : bool;
  ie_create : Error;
  ie_reuse : Error;
  ie_connect : Error;
  ie_block : Error;
  ie_inboxPtr : Z;
  ie_inboxRkey : Z;
  ie_outboxPtr : Z;
  ie_outboxLkey : Z;
  ie_qp : Z;
}.

Definition initImplFromLoop (env : init_env) (e : endpoint) : outcome (endpoint * list event) :=
  let fail error e := '(e, evs) ← on_conn (setError error) e; Done (e, EvEnroll :: evs) in
  let had := cn_socket_ (ep_conn e) in
  if negb had && is_error (ie_create env) then fail (ie_create env) e
  else
  let e := e <| ep_conn := ep_conn e <| cn_socket_ := true |> |> in
  if negb had && is_error (ie_reuse env) then fail (ie_reuse env) e
  else if negb had && is_error (ie_connect env) then fail (ie_connect env) e
  else if is_error (ie_block env) then fail (ie_block env) e
  else
    inbox ← newRingBuffer kNumInboxRingbufferRoles kBufferSize;
    outbox ← newRingBuffer kNumOutboxRingbufferRoles kBufferSize;
    Done (mkEndpoint
            (ep_conn e <| cn_inboxPtr := ie_inboxPtr env |> <| cn_inboxRkey := ie_inboxRkey env |>
                       <| cn_outboxPtr := ie_outboxPtr env |> <| cn_outboxLkey := ie_outboxLkey env |>
                       <| cn_qp_ := Some (ie_qp env) |> <| cn_state_ := SEND_ADDR |>) inbox outbox,
          [EvEnroll; EvQpInit (ie_qp env); EvRegisterQp (ie_qp env); EvRegister false]).

Definition initFromLoop (env : init_env) (e : endpoint) : outcome (endpoint * list event) :=
  if ie_contextClosed env then Done (e <| ep_conn := ep_conn e <| cn_error_ := ConnectionClosedError |> |>, [])
  else initImplFromLoop env e.

Definition kExchangeSize : Z := 56.   (* [sizeof(Exchange)] on x86-64 *)

(** [sent]: the bytes that the socket took, and [info] the description of the queue
    pair. *)
Definition handleEventOutFromLoop (info : Z) (sent : Z) (e : endpoint) : outcome (endpoint * list event) :=
  let c := ep_conn e in
  if bool_decide (cn_state_ c = SEND_ADDR) then
    _ ← get_qp c;
    if negb (sent =? kExchangeSize) then on_conn (setError (ShortWriteError kExchangeSize sent)) e
    else Done (e <| ep_conn := c <| cn_state_ := RECV_ADDR |> |>,
               [EvSendAddr (mkExchange info (cn_inboxPtr c) (cn_inboxRkey c)); EvRegister true])
  else Throw ExAssert.

(** [recv]: what is read from the socket, or how many bytes came instead. *)
Definition recv_result : Type := Z + Exchange.

Definition handleEventInFromLoop (recv : recv_result) (e : endpoint) : outcome (endpoint * list event) :=
  let c := ep_conn e in
  match cn_state_ c with
  | RECV_ADDR =>
      match recv with
      | inl n => on_conn (setError (ShortReadError kExchangeSize n)) e
      | inr ex =>
          qp ← get_qp c;
          let e := e <| ep_conn := c <| cn_peerInboxKey_ := memoryRegionKey ex |>
                                     <| cn_peerInboxPtr_ := memoryRegionPtr ex |> <| cn_state_ := ESTABLISHED |> |> in
          '(e, evs1) ← processWriteOperationsFromLoop e;
          '(e, evs2) ← processReadOperationsFromLoop e;
          Done (e, EvQpReady qp (setupInfo ex) :: evs1 ++ evs2)
      end
  | ESTABLISHED => on_conn (setError EOFError) e
  | _ => Throw ExAssert
  end.

(** Only one of the events of the mask is handled, errors first. *)
Definition handleEventsFromLoop (epollerr epollin epollout epollhup : bool)
    (soerror : Error) (info sent : Z) (recv : recv_result) (e : endpoint) : outcome (endpoint * list event) :=
  if epollerr then on_conn (setError soerror) e
  else if epollin then handleEventInFromLoop recv e
  else if epollout then handleEventOutFromLoop info sent e
  else if epollhup then on_conn (setError EOFError) e
  else Done (e, []).

(** ** Completions *)

(** A transaction that moves the marker of a role by [length]. *)
Definition advance_marker (NumRoles RoleIdx : nat) (length : Z) (rb : RingBuffer) : outcome RingBuffer :=
  '(ret, s) ← startTx RoleIdx (rb, newRole);
  _ ← throw_system_if_neg ret;
  '(ret, s) ← incMarkerInTx NumRoles RoleIdx length s;
  _ ← throw_system_if_neg ret;
  let '(ret, s) := commitTx RoleIdx s in
  _ ← throw_system_if_neg ret;
  Done s.1.

Definition onRemoteProducedData (length : Z) (e : endpoint) : outcome (endpoint * list event) :=
  rb ← advance_marker kNumInboxRingbufferRoles InboxIbvRecver length (ep_inbox e);
  processReadOperationsFromLoop (e <| ep_inbox := rb |>).

Definition onRemoteConsumedData (length : Z) (e : endpoint) : outcome (endpoint * list event) :=
  rb ← advance_marker kNumOutboxRingbufferRoles OutboxIbvAcker length (ep_outbox e);
  processWriteOperationsFromLoop (e <| ep_outbox := rb |>).

Definition onWriteCompleted (c : ConnectionImpl) : outcome (ConnectionImpl * list event) :=
  let c := c <| cn_numWritesInFlight_ ::= fun n => u32 (n - 1) |> in Done (c, tryCleanup c).

Definition onAckCompleted (c : ConnectionImpl) : outcome (ConnectionImpl * list event) :=
  let c := c <| cn_numAcksInFlight_ ::= fun n => u32 (n - 1) |> in Done (c, tryCleanup c).

Definition onError (error : Error) (wrId : Z) (c : ConnectionImpl) : outcome (ConnectionImpl * list event) :=
  '(c, evs1) ← setError error c;
  '(c, evs2) ← if wrId =? kWriteRequestId then onWriteCompleted c
               else if wrId =? kAckRequestId then onAckCompleted c else Done (c, []);
  Done (c, evs1 ++ evs2).

(** [IbvError], with the status instead of its text. *)
Definition IbvError (status : Z) : Error := OtherError (Z.to_nat status).

(** [IbvEventHandler], as the reactor calls it. *)
Definition on_completion (k : completion) (e : endpoint) : outcome (endpoint * list event) :=
  match k with
  | RemoteProducedData n => onRemoteProducedData n e
  | RemoteConsumedData n => onRemoteConsumedData n e
  | WriteCompleted => on_conn onWriteCompleted e
  | AckCompleted => on_conn onAckCompleted e
  | CompletionError status wrId => on_conn (onError (IbvError status) wrId) e
  end.
End connection.

Arguments ConnectionImpl T : clear implicits.
Arguments endpoint T : clear implicits.
Arguments event T : clear implicits.
