(* ===== verification/IbvRings.v ===== *)
(** * The rings of the InfiniBand connection

    The outbox has one role more than the rings of [RingBufferTx]: between what the
    peer has acknowledged and what was produced lies the marker of the role that
    hands bytes to the reactor.  The producer does not see it, so a ring with three
    roles behaves, for its first and last role, as the ring with two roles that one
    gets by forgetting the middle one; what [RingbufferOps] shows of writes carries
    over by simulation.  The other roles only move their markers. *)

From S2P Require Import Prelude System RingBuffer RingBufferTx Nop RingbufferOps RingbufferQueues IbvReactor.
From S2P Require Import IbvConnection.

(** ** Moving a marker *)

Lemma throw_ok n : 0 <= n -> throw_system_if_neg n = Done tt.
Proof. intros Hn. unfold throw_system_if_neg. by rewrite (proj2 (Z.ltb_ge n 0)) by done. Qed.

Definition bump (m : nat -> Z) (i : nat) (n : Z) (j : nat) : Z := if decide (i = j) then m j + n else m j.

Lemma chain_bump N S m i n :
  chain N S m -> (i < N)%nat -> 0 <= S -> 0 <= n <= limit N S m i - m i -> chain N S (bump m i n).
Proof.
  intros (Hp & Hm & Hl) Hi HS Hn. unfold limit in Hn.
  assert (forall j, (i < j < N)%nat -> m i + n <= m j) as Hup.
  { intros j Hj. destruct (Nat.eqb_spec (i + 1) N); [lia|]. pose proof (Hm (i + 1)%nat j ltac:(lia)). lia. }
  assert ((i = N - 1)%nat -> m i + n <= m 0%nat + S) as Hlast.
  { intros ->. destruct (Nat.eqb_spec (N - 1 + 1) N); lia. }
  unfold bump. split_and!.
  - intros j Hj. specialize (Hp j Hj). case_decide; lia.
  - intros a b Hab. pose proof (Hm a b Hab). repeat case_decide; subst; try lia.
    destruct (decide (a = b)); [lia|]. apply Hup. lia.
  - repeat case_decide; subst; try lia.
Qed.

Lemma header_ok_ext N m m' h :
  (0 < N)%nat -> (forall i, (i < N)%nat -> m' i = m i) -> header_ok N m h -> header_ok N m' h.
Proof.
  intros HN He [Hs Hm Hf Hl Hk (H1 & H2 & H3)]. split; try done.
  - intros i Hi. rewrite He by done. by apply Hk.
  - unfold chain. split_and!.
    + intros i Hi. rewrite He by done. by apply H1.
    + intros i j Hij. rewrite !He by lia. by apply H2.
    + rewrite !He by lia. done.
Qed.

Lemma incMarker_header N m i n h :
  header_ok N m h -> (i < N)%nat -> 0 <= n <= limit N (kDataPoolByteSize h) m i - m i ->
  header_ok N (bump m i n) (incMarker i n h).
Proof.
  intros Hh Hi Hn. pose proof (pool_size_range _ (ho_size _ _ _ Hh)). pose proof Hh as [Hs Hm Hf Hl Hk Hc].
  split; simpl; try done; try by rewrite length_insert.
  - intros j Hj. unfold bump. case_decide as Hij.
    + subst j. rewrite list_lookup_insert_eq by lia. rewrite (read_tail N m) by done. by rewrite u64_add_l.
    + rewrite list_lookup_insert_ne by done. by apply Hk.
  - apply chain_bump; [done..|lia|done].
Qed.

(** Handlers that tell how far the other end has got move a marker and no byte. *)
Definition advanced (i : nat) (n : Z) (rb : RingBuffer) : RingBuffer := rb <| header_ ::= incMarker i n |>.

Lemma flags_back (l : list bool) i : default false (l !! i) = false -> <[i := false]> (<[i := true]> l) = l.
Proof.
  intros Hf. rewrite list_insert_insert_eq. destruct (l !! i) as [b|] eqn:Hb.
  - simpl in Hf. subst b. by apply list_insert_id.
  - by apply list_insert_ge, lookup_ge_None.
Qed.

Lemma advance_ok N m i n rb :
  header_ok N m (header_ rb) -> (i < N)%nat -> flag rb i = false ->
  0 <= n <= limit N (ring_size rb) m i - m i -> advance_marker N i n rb = Done (advanced i n rb).
Proof.
  intros Hh Hi Hf Hn.
  pose proof (limit_bounds N (ring_size rb) m i Hi) as Hlim. pose proof (pool_size_range _ (ho_size _ _ _ Hh)) as Hr.
  specialize (Hlim ltac:(unfold ring_size; lia) (ho_chain _ _ _ Hh)). unfold ring_size in *.
  unfold advance_marker, startTx, beginTransaction, newRole. unfold flag in Hf. rewrite Hf. cbn [role_inTx_ txSize_ fst snd].
  rewrite tp_check_bind, !bind_done, throw_ok, bind_done by done. unfold incMarkerInTx.
  set (rb1 := rb <| header_ := _ |>). change (mkRole 0 false <| role_inTx_ := true |>) with (mkRole 0 true).
  assert (header_ok N m (header_ rb1)) as Hh1.
  { destruct Hh. split; simpl; try done. by rewrite length_insert. }
  rewrite (access_closed N m rb1 (mkRole 0 true) i false n (kDataPoolByteSize (header_ rb))) by
    (try done; simpl; unfold is_u64; lia).
  simpl txSize_. destruct (access_result _ _ _ _ _ _) as [[k [b0 b1]] tx] eqn:Hres.
  assert (0 <= k /\ tx = n) as [Hk ->].
  { unfold access_result in Hres. destruct (Z.eqb_spec n 0); [simplify_eq; lia|].
    rewrite (proj2 (Z.ltb_ge _ n)) in Hres by lia. simpl in Hres.
    destruct (Z.eqb_spec (limit N (kDataPoolByteSize (header_ rb)) m i - m i - 0) 0); [lia|].
    destruct (_ <=? _); simplify_eq; lia. }
  rewrite bind_done. cbv beta iota. rewrite bind_done, throw_ok, bind_done by done. unfold commitTx. cbn [role_inTx_ negb field_update].
  f_equal. unfold advanced, rb1. destruct rb as [[z mk fl ml] d]. unfold field_update, eta_expand. simpl in *.
  do 2 f_equal. unfold endTransaction, incMarker, field_update, eta_expand. simpl. f_equal. by apply flags_back.
Qed.

(** ** Forgetting the middle role *)

Definition insert_middle {A} (x : A) (l : list A) : list A :=
  match l with [a; b] => [a; x; b] | _ => l end.

(** The ring with three roles whose middle one has the marker [w] and is idle. *)
Definition widen (w : Z) (rb : RingBuffer) : RingBuffer :=
  rb <| header_ := header_ rb <| inTx_ ::= insert_middle false |> <| markers_ ::= insert_middle w |> |>.
Definition wide (w : Z) (s : rstate) : rstate := (widen w s.1, s.2).

Record two_roles (rb : RingBuffer) : Prop := {
  tr_flags : length (inTx_ (header_ rb)) = 2%nat;
  tr_markers : length (markers_ (header_ rb)) = 2%nat;
}.

(** What one does with two roles, the other does with three. *)
Definition sim {X} (w : Z) (m2 m3 : outcome (X * rstate)) : Prop :=
  match m2 with
  | Done (x, s) => two_roles s.1 /\ m3 = Done (x, wide w s)
  | Throw e => m3 = Throw e
  end.

Section sim.
Context (w : Z).

Lemma sim_done {X} (x : X) s : two_roles s.1 -> sim w (Done (x, s)) (Done (x, wide w s)).
Proof. done. Qed.

Lemma sim_bind {X Y} (m2 m3 : outcome (X * rstate)) (k2 k3 : X * rstate -> outcome (Y * rstate)) :
  sim w m2 m3 -> (forall x s, two_roles s.1 -> sim w (k2 (x, s)) (k3 (x, wide w s))) -> sim w (m2 ≫= k2) (m3 ≫= k3).
Proof.
  unfold sim at 1. intros Hm Hk. destruct m2 as [[x s]|e]; [|by subst m3].
  destruct Hm as [Ht ->]. rewrite !bind_done. by apply Hk.
Qed.

Lemma sim_check {Y} b (k2 k3 : unit -> outcome (Y * rstate)) :
  sim w (k2 tt) (k3 tt) -> sim w (tp_check b ≫= k2) (tp_check b ≫= k3).
Proof. by destruct b. Qed.

Lemma two_roles_cases rb : two_roles rb ->
  exists z k f0 f1 a b d, rb = mkRb (mkHeader z k [f0; f1] [a; b]) d.
Proof.
  intros [Hf Hm]. destruct rb as [[z k f m] d]. simpl in *.
  destruct f as [|f0 [|f1 [|]]]; try done. destruct m as [|a [|b [|]]]; try done. by repeat eexists.
Qed.

Lemma widen_data rb d : widen w (rb <| data_ := d |>) = widen w rb <| data_ := d |>.
Proof. done. Qed.

Lemma startTx_sim s : two_roles s.1 -> sim w (startTx 1 s) (startTx 2 (wide w s)).
Proof.
  destruct s as [rb [tx intx]]. cbn [fst]. intros (z & k & f0 & f1 & a & b & d & ->)%two_roles_cases.
  unfold startTx, wide, beginTransaction. cbn. destruct intx, f1; cbn; try done. by destruct (tx =? 0).
Qed.

Lemma commitTx_sim s : two_roles s.1 ->
  two_roles (commitTx 1 s).2.1 /\ commitTx 2 (wide w s) = ((commitTx 1 s).1, wide w (commitTx 1 s).2).
Proof.
  destruct s as [rb [tx intx]]. cbn [fst]. intros (z & k & f0 & f1 & a & b & d & ->)%two_roles_cases.
  unfold commitTx, wide. by destruct intx; cbn.
Qed.

Lemma access_sim p n s :
  two_roles s.1 -> sim w (accessContiguousInTx 2 1 p n s) (accessContiguousInTx 3 2 p n (wide w s)).
Proof.
  destruct s as [rb r]. cbn [fst]. intros Ht. pose proof Ht as (z & k & f0 & f1 & a & b & d & ->)%two_roles_cases.
  unfold accessContiguousInTx, wide, readMarker. cbn -[u64 u32 Z.land Z.min].
  repeat match goal with
  | |- sim _ (if ?b then _ else _) _ => destruct b
  | |- sim _ (tp_check _ ≫= _) _ => apply sim_check
  | |- sim _ (Done _) _ => by split
  end.
Qed.

Lemma writeInTx_sim p buf n s :
  two_roles s.1 -> sim w (writeInTx 2 1 p buf n s) (writeInTx 3 2 p buf n (wide w s)).
Proof.
  intros Ht. unfold writeInTx. apply sim_bind; [by apply access_sim|].
  intros [k [b0 b1]] [rb r] [Hf Hm]. cbn [wide fst snd].
  destruct (k <? 0); [by split|]. destruct (k =? 0); [by split|].
  destruct (k =? 1); [by split|]. by destruct (k =? 2).
Qed.
End sim.

Section sim_ops.
Context {T : Type} `{NopEncoding T} (w : Z).

Lemma writeNopObject_sim (v : T) (o : RingbufferWriteOperation T) s :
  two_roles s.1 -> sim w (writeNopObject 2 1 v o s) (writeNopObject 3 2 v o (wide w s)).
Proof.
  intros Ht. unfold writeNopObject. apply sim_check, sim_bind; [by apply access_sim|].
  intros [k [b0 b1]] [rb r] [Hf Hm]. cbn [wide fst snd].
  destruct (k <? 0); [by split|]. change (data_ (widen w rb)) with (data_ rb).
  destruct (run_write _ _ _) as [[[st mem] wr]|]; [|done]. rewrite !bind_done. by destruct st.
Qed.

Lemma handleWriteLength_sim (o : RingbufferWriteOperation T) s :
  two_roles s.1 -> sim w (handleWriteLength 2 1 o s) (handleWriteLength 3 2 o (wide w s)).
Proof.
  intros Ht. unfold handleWriteLength. destruct (wo_mode_ o); [|by split].
  apply sim_bind; [by apply writeInTx_sim|]. intros ret s1 Ht1.
  destruct (0 <=? ret); [by split|]. by destruct (_ =? _).
Qed.

Lemma handleWritePayload_sim (o : RingbufferWriteOperation T) s :
  two_roles s.1 -> sim w (handleWritePayload 2 1 o s) (handleWritePayload 3 2 o (wide w s)).
Proof.
  intros Ht. unfold handleWritePayload. destruct (wo_mode_ o); [by split|].
  apply sim_bind.
  - destruct (wo_nopObject_ o); [by apply writeNopObject_sim | by apply writeInTx_sim].
  - intros ret s1 Ht1. destruct (0 <=? ret); [by split|]. by destruct (_ =? _).
Qed.

(** A write that succeeds with two roles does the same with three. *)
Lemma handleWrite_sim (o : RingbufferWriteOperation T) s :
  two_roles s.1 -> sim w (handleWrite 2 1 o s) (handleWrite 3 2 o (wide w s)).
Proof.
  intros Ht. unfold handleWrite. apply sim_bind; [by apply startTx_sim|]. intros ret s1 Ht1.
  destruct (throw_system_if_neg ret); [|done]. rewrite !bind_done.
  apply sim_bind; [by apply handleWriteLength_sim|]. intros [n1 o1] s2 Ht2.
  apply sim_bind; [by apply handleWritePayload_sim|]. intros [n2 o2] s3 Ht3.
  destruct (commitTx_sim w s3 Ht3) as [Ht4 ->]. destruct (commitTx 1 s3) as [ret2 s4]. cbn [fst snd] in *.
  by destruct (throw_system_if_neg ret2).
Qed.
End sim_ops.

(** ** The outbox *)

Definition marks3 (a w p : Z) (i : nat) : Z := match i with O => a | S O => w | _ => p end.

(** Everything that was produced has been handed to the reactor: [W] was produced,
    and of that the peer has acknowledged [A] bytes. *)
Definition outbox_inv (rb : RingBuffer) (A : nat) (W : list Z) : Prop :=
  exists rb2, rb = widen (u64 (Z.of_nat (length W))) rb2 /\ ring_inv rb2 A W /\
    flag rb2 kProducer = false /\ flag rb2 kConsumer = false /\ ring_size rb2 = kBufferSize.

Lemma ring_two_roles rb t W : ring_inv rb t W -> two_roles rb.
Proof. intros [[] _ _ _]. by split. Qed.

Lemma kBufferSize_pool : pool_size_ok kBufferSize.
Proof. exists 21. split; [lia | done]. Qed.

Lemma widen_facts w rb : two_roles rb ->
  data_ (widen w rb) = data_ rb /\ ring_size (widen w rb) = ring_size rb /\
  flag (widen w rb) 0 = flag rb 0 /\ flag (widen w rb) 1 = false /\ flag (widen w rb) 2 = flag rb 1.
Proof. by intros (z & k & f0 & f1 & a & b & d & ->)%two_roles_cases. Qed.

Lemma widen_header w rb A W :
  ring_inv rb A W -> Z.of_nat A <= w <= Z.of_nat (length W) ->
  header_ok 3 (marks3 (Z.of_nat A) w (Z.of_nat (length W))) (header_ (widen (u64 w) rb)).
Proof.
  intros Hinv Hw. pose proof (ring_inv_bounds _ _ _ Hinv) as [_ Hcap].
  destruct (two_roles_cases _ (ring_two_roles _ _ _ Hinv)) as (z & k & f0 & f1 & a & b & d & ->).
  destruct Hinv as [[Hs Hm Hf Hn Hk Hc] _ _ _]. unfold ring_size in Hcap. simpl in *.
  pose proof (Hk 0%nat ltac:(lia)) as H0. pose proof (Hk 1%nat ltac:(lia)) as H1. simpl in H0, H1. simplify_eq.
  split; simpl; try done.
  - intros [|[|[|]]] ?; [done..|lia].
  - unfold chain, marks3. simpl. split; [intros [|[|]] ?; lia|]. split; [intros [|[|]] [|[|]] ?; lia | lia].
Qed.

(** ** Handing bytes to the reactor

    [rt_out] is where the outbox begins and [rt_in] where the inbox of the peer does. *)

Record route := mkRoute { rt_out : Z; rt_lkey : Z; rt_in : Z; rt_rkey : Z }.

(** The write of the [n] bytes at the position [q] of the stream ... *)
Definition write_at (r : route) (q n : Z) : WriteInfo :=
  mkWriteInfo (u64 (rt_out r + q mod kBufferSize)) n (rt_lkey r) (u64 (rt_in r + q mod kBufferSize)) (rt_rkey r).

(** ... and writes of all the bytes from [q] to [q'], none of which leaves a ring. *)
Fixpoint covers (r : route) (q : Z) (infos : list WriteInfo) (q' : Z) : Prop :=
  match infos with
  | [] => q = q'
  | i :: infos => exists n, i = write_at r q n /\ 0 < n /\ q mod kBufferSize + n <= kBufferSize /\ covers r (q + n) infos q'
  end.

Lemma covers_app r infos1 infos2 : forall q1 q2 q3,
  covers r q1 infos1 q2 -> covers r q2 infos2 q3 -> covers r q1 (infos1 ++ infos2) q3.
Proof.
  induction infos1 as [|i l IH]; simpl; intros q1 q2 q3 H1 H2; [by subst|].
  destruct H1 as (n & -> & Hn & Hf & Hc). exists n. split_and!; eauto.
Qed.

Lemma covers_le r infos : forall q q', covers r q infos q' -> q <= q'.
Proof.
  induction infos as [|i l IH]; simpl; intros q q' Hc; [lia|].
  destruct Hc as (n & _ & Hn & _ & Hc). apply IH in Hc. lia.
Qed.

Section posting.
Context {T : Type} `{NopEncoding T}.
Implicit Types c : ConnectionImpl T.

Definition route_of c : route := mkRoute (cn_outboxPtr c) (cn_outboxLkey c) (cn_peerInboxPtr_ c) (cn_peerInboxKey_ c).

(** The connection after [k] more writes, which reach the position [q]. *)
Definition posted c (q : Z) (k : nat) : ConnectionImpl T :=
  c <| cn_peerInboxHead_ := u64 q |> <| cn_numWritesInFlight_ ::= fun n => u32 (n + Z.of_nat k) |>.

Lemma u32_add_l a b : u32 (u32 a + b) = u32 (a + b).
Proof. unfold u32, wrap. apply Zplus_mod_idemp_l. Qed.

Lemma posted_posted c q1 q2 k1 k2 : posted (posted c q1 k1) q2 k2 = posted c q2 (k1 + k2).
Proof.
  destruct c. unfold posted, field_update, eta_expand, eta_ConnectionImpl. simpl. f_equal.
  rewrite u32_add_l. f_equal. lia.
Qed.

Lemma post_buffer_ok c qp q n :
  cn_peerInboxHead_ c = u64 q ->
  post_buffer c qp (mkBuffer (Some (q mod kBufferSize)) n) =
    (posted c (q + n) 1, [EvPostWrite qp (write_at (route_of c) q n)]).
Proof.
  intros Hh. unfold post_buffer, posted, write_at, route_of. rewrite Hh. cbn [buf_ptr buf_len default].
  rewrite (land_mask kBufferSize), mod_u64 by apply kBufferSize_pool.
  destruct c. unfold field_update, eta_expand, eta_ConnectionImpl. simpl in *. rewrite Hh, u64_add_l. done.
Qed.

(** One transaction of the writer: all of the [n] bytes that were just produced. *)
Definition lock_middle (rb : RingBuffer) : RingBuffer :=
  rb <| header_ ::= fun h => h <| inTx_ ::= <[1%nat := true]> |> |>.

Lemma writer_start w rb : two_roles rb ->
  startTx 1 (widen w rb, newRole) = Done (0, (lock_middle (widen w rb), mkRole 0 true)).
Proof. by intros (z & k & f0 & f1 & a & b & d & ->)%two_roles_cases. Qed.

Lemma writer_commit w rb n : two_roles rb ->
  commitTx 1 (lock_middle (widen w rb), mkRole n true) = (0, (widen (u64 (w + n)) rb, newRole)).
Proof. by intros (z & k & f0 & f1 & a & b & d & ->)%two_roles_cases. Qed.

Lemma writer_header w rb A W :
  ring_inv rb A W -> Z.of_nat A <= w <= Z.of_nat (length W) ->
  header_ok 3 (marks3 (Z.of_nat A) w (Z.of_nat (length W))) (header_ (lock_middle (widen (u64 w) rb))).
Proof.
  intros Hinv Hw. destruct (widen_header w rb A W Hinv Hw) as [Hs Hm Hf Hn Hk Hc].
  split; simpl in *; try done. by rewrite length_insert.
Qed.

Lemma post_buffers_ok c qp q n :
  cn_peerInboxHead_ c = u64 q -> 0 < n <= kBufferSize ->
  exists infos,
    post_buffers c qp (if q mod kBufferSize + n <=? kBufferSize
      then [mkBuffer (Some (q mod kBufferSize)) n]
      else [mkBuffer (Some (q mod kBufferSize)) (kBufferSize - q mod kBufferSize);
            mkBuffer (Some 0) (q mod kBufferSize + n - kBufferSize)]) =
    (posted c (q + n) (length infos), EvPostWrite qp <$> infos) /\
    covers (route_of c) q infos (q + n).
Proof.
  intros Hh Hn. pose proof (Z.mod_pos_bound q kBufferSize ltac:(done)) as Hq.
  destruct (Z.leb_spec (q mod kBufferSize + n) kBufferSize) as [Hfit|Hwrap].
  - exists [write_at (route_of c) q n]. cbn [post_buffers]. rewrite (post_buffer_ok c qp q n Hh). split; [done|].
    exists n. split; [done|]. split; [lia|]. by split.
  - set (n1 := kBufferSize - q mod kBufferSize) in *. set (n2 := q mod kBufferSize + n - kBufferSize) in *.
    assert ((q + n1) mod kBufferSize = 0) as H0.
    { unfold n1. replace (q + (kBufferSize - q mod kBufferSize)) with ((q / kBufferSize + 1) * kBufferSize)
        by (pose proof (Z.div_mod q kBufferSize ltac:(done)); lia). by apply Z_mod_mult. }
    exists [write_at (route_of c) q n1; write_at (route_of c) (q + n1) n2]. cbn [post_buffers].
    rewrite (post_buffer_ok c qp q n1 Hh).
    pose proof (post_buffer_ok (posted c (q + n1) 1) qp (q + n1) n2 eq_refl) as H2. rewrite H0 in H2. rewrite H2.
    rewrite posted_posted. replace (q + n1 + n2) with (q + n) by lia. split; [done|].
    exists n1. split; [done|]. split; [lia|]. split; [lia|]. exists n2. rewrite H0. split_and!; [done | lia | lia | cbn; lia].
Qed.

Lemma post_outbox_ok c qp rb A W (q n : nat) :
  ring_inv rb A W -> ring_size rb = kBufferSize -> (A <= q)%nat -> (0 < n)%nat -> length W = (q + n)%nat ->
  cn_peerInboxHead_ c = u64 (Z.of_nat q) ->
  exists infos, post_outbox qp (Z.of_nat n) (widen (u64 (Z.of_nat q)) rb) c =
    Done (posted c (Z.of_nat (length W)) (length infos), EvPostWrite qp <$> infos, widen (u64 (Z.of_nat (length W))) rb) /\
    covers (route_of c) (Z.of_nat q) infos (Z.of_nat (length W)).
Proof.
  intros Hinv Hsz HA Hn HW Hh. pose proof (writer_header (Z.of_nat q) rb A W Hinv ltac:(lia)) as Hok.
  pose proof (ring_inv_bounds _ _ _ Hinv) as [_ Hcap]. pose proof (ring_two_roles _ _ _ Hinv) as Ht.
  rewrite Hsz in Hcap.
  unfold post_outbox, OutboxIbvWriter, kNumOutboxRingbufferRoles.
  rewrite (writer_start _ _ Ht), bind_done, throw_ok, bind_done by done.
  rewrite (access_closed 3 _ _ (mkRole 0 true) 1 false (Z.of_nat n) kBufferSize Hok Hsz); 
    [|lia|done|cbn; lia|unfold is_u64; unfold kBufferSize in *; lia].
  change (limit 3 kBufferSize _ 1) with (Z.of_nat (length W)). cbn [txSize_ marks3].
  unfold access_result. rewrite (proj2 (Z.eqb_neq (Z.of_nat n) 0)) by lia.
  rewrite (proj2 (Z.ltb_ge (Z.of_nat (length W) - Z.of_nat q - 0) (Z.of_nat n))), (proj2 (Z.eqb_neq _ 0)) by lia.
  cbn [negb andb]. rewrite Z.add_0_r, Z.add_0_l.
  replace (Z.min (Z.of_nat n) (Z.of_nat (length W) - Z.of_nat q - 0)) with (Z.of_nat n) by lia.
  destruct (post_buffers_ok c qp (Z.of_nat q) (Z.of_nat n) Hh ltac:(lia)) as (infos & Hp & Hc).
  exists infos. replace (Z.of_nat q + Z.of_nat n) with (Z.of_nat (length W)) in * by lia. split; [|done].
  pose proof (writer_commit (u64 (Z.of_nat q)) rb (Z.of_nat n) Ht) as Hcm.
  rewrite u64_add_l in Hcm. replace (Z.of_nat q + Z.of_nat n) with (Z.of_nat (length W)) in Hcm by lia.
  assert (forall k bufs, 0 <= k -> take (Z.to_nat k) [bufs.1; bufs.2] = (if Z.of_nat q mod kBufferSize + Z.of_nat n <=? kBufferSize
      then [mkBuffer (Some (Z.of_nat q mod kBufferSize)) (Z.of_nat n)]
      else [mkBuffer (Some (Z.of_nat q mod kBufferSize)) (kBufferSize - Z.of_nat q mod kBufferSize);
            mkBuffer (Some 0) (Z.of_nat q mod kBufferSize + Z.of_nat n - kBufferSize)]) ->
    ('(numBuffers, (b0, b1), s) ← Done (k, bufs, (lock_middle (widen (u64 (Z.of_nat q)) rb), mkRole (Z.of_nat n) true));
     _ ← throw_system_if_neg numBuffers;
     let '(c, evs) := post_buffers c qp (take (Z.to_nat numBuffers) [b0; b1]) in
     let '(ret, s) := commitTx 1 s in
     _ ← throw_system_if_neg ret;
     Done (c, evs, s.1)) =
    Done (posted c (Z.of_nat (length W)) (length infos), EvPostWrite qp <$> infos, widen (u64 (Z.of_nat (length W))) rb)) as Hrun.
  { intros k [b0 b1] Hk Hb. cbn [fst snd] in Hb. rewrite bind_done, throw_ok, bind_done, Hb, Hp, Hcm by done. done. }
  destruct (_ <=? kBufferSize); apply Hrun; done.
Qed.
End posting.

(** ** What the handlers do to the two rings *)

Section rings.
Context {T : Type} `{NopEncodingLaws T}.

Lemma newRingBuffer_widen size rb :
  newRingBuffer 2 size = Done rb -> newRingBuffer 3 size = Done (widen 0 rb).
Proof.
  unfold newRingBuffer, newRingBufferHeader. generalize (nextPow2 size) as z. intros z.
  destruct (tp_check (2 <=? z)); [|done]. rewrite !bind_done.
  destruct (tp_check (isPow2 z)); [|done]. rewrite !bind_done.
  destruct (tp_check (z <=? int_max)); [|done]. rewrite !bind_done. cbn [kDataPoolByteSize].
  generalize (replicate (Z.to_nat z) 0) as d. intros d Hrb. apply done_inj in Hrb as <-. reflexivity.
Qed.

Lemma new_rings : exists rb, newRingBuffer kNumInboxRingbufferRoles kBufferSize = Done rb /\
  newRingBuffer kNumOutboxRingbufferRoles kBufferSize = Done (widen 0 rb) /\ ring_inv rb 0 [] /\
  ring_size rb = kBufferSize /\ flag rb kConsumer = false /\ flag rb kProducer = false.
Proof.
  destruct (newRingBuffer_inv kBufferSize ltac:(unfold kBufferSize; lia)) as (rb & Hrb & Hinv & _ & Hc & Hp).
  exists rb. split; [done|]. split; [by apply newRingBuffer_widen|]. split; [done|]. split; [|exact (conj Hc Hp)].
  unfold newRingBuffer in Hrb. inv_bind Hrb. apply done_inj in Hrb as <-.
  unfold newRingBufferHeader in Ha. inv_bind Ha. inv_bind Ha. inv_bind Ha. apply done_inj in Ha as <-.
  unfold ring_size. cbn [header_ kDataPoolByteSize]. by vm_compute.
Qed.

Lemma outbox_ack rb A W n :
  outbox_inv rb A W -> (A + n <= length W)%nat ->
  exists rb', advance_marker kNumOutboxRingbufferRoles OutboxIbvAcker (Z.of_nat n) rb = Done rb' /\
    outbox_inv rb' (A + n) W.
Proof.
  intros (rb2 & -> & Hinv & Hp & Hc & Hsz) Hn. pose proof (ring_two_roles _ _ _ Hinv) as Ht.
  destruct (widen_facts (u64 (Z.of_nat (length W))) rb2 Ht) as (_ & Hsz' & Hf0 & _).
  exists (advanced 0 (Z.of_nat n) (widen (u64 (Z.of_nat (length W))) rb2)). split.
  - apply (advance_ok 3 (marks3 (Z.of_nat A) (Z.of_nat (length W)) (Z.of_nat (length W))) 0).
    + apply widen_header; [done|]. lia.
    + lia.
    + by rewrite Hf0.
    + change (limit 3 _ _ 0) with (Z.of_nat (length W)). cbn [marks3]. lia.
  - exists (advanced 0 (Z.of_nat n) rb2). split_and!; try done.
    + by destruct (two_roles_cases _ Ht) as (z & k & f0 & f1 & a & b & d & ->).
    + pose proof (ring_inv_bounds _ _ _ Hinv) as [_ Hcap]. destruct Hinv as [Hh Hd Hle Hho]. split; simpl; try done; [|].
      * eapply (header_ok_ext 2 (bump (marks (Z.of_nat A) (Z.of_nat (length W))) 0 (Z.of_nat n))).
        -- lia.
        -- intros [|[|]] ?; unfold bump; simpl; lia.
        -- apply incMarker_header; [done | lia | cbn; lia].
      * rewrite Nat2Z.inj_add, <- drop_drop. apply holds_drop; [rewrite length_drop; lia | done].
Qed.

(** A write appends to the outbox; the writer has not seen it yet. *)
Lemma outbox_write rb A W (o : RingbufferWriteOperation T) p c :
  outbox_inv rb A W -> wr_rel o p c -> payload_ok kBufferSize p ->
  exists n o' calls rb2,
    handleWrite kNumOutboxRingbufferRoles OutboxProducer o (rb, newRole) =
      Done (Z.of_nat n, o', calls, (widen (u64 (Z.of_nat (length W))) rb2, newRole)) /\
    wo_fn_ o' = wo_fn_ o /\ ring_inv rb2 A (W ++ take n (drop c (frame p))) /\
    flag rb2 kProducer = false /\ flag rb2 kConsumer = false /\ ring_size rb2 = kBufferSize /\
    (c + n <= length (frame p))%nat /\
    ((write_completed o' = true /\ calls = [mkWriteCall (wo_fn_ o) kSuccess] /\ (c + n = length (frame p))%nat) \/
     (write_completed o' = false /\ calls = [] /\ wr_rel o' p (c + n) /\ (c + n < length (frame p))%nat /\
      wr_stuck p (c + n) (Z.of_nat A + kBufferSize - Z.of_nat (length W) - Z.of_nat n))).
Proof.
  intros (rb2 & -> & Hinv & Hp & Hc & Hsz) Hr Hok.
  destruct (handleWrite_ok rb2 A W o p c Hinv Hp Hr ltac:(by rewrite Hsz))
    as (n & o1 & calls & rb3 & He & Hfn & Hinv3 & Hle & Hsame & Hcase).
  pose proof (handleWrite_sim (u64 (Z.of_nat (length W))) o (rb2, newRole) (ring_two_roles _ _ _ Hinv)) as Hsim.
  unfold sim in Hsim. unfold kProducer in He. rewrite He in Hsim. destruct Hsim as [_ Hsim].
  exists n, o1, calls, rb3. split; [exact Hsim|]. split; [done|]. split; [done|]. split; [apply Hsame|].
  split; [by rewrite (sr_other _ _ _ Hsame) by (unfold kConsumer, kProducer; lia)|]. split; [by rewrite (sr_size _ _ _ Hsame)|]. split; [done|].
  unfold free_room in Hcase. by rewrite Hsz in Hcase.
Qed.

(** ** The inbox

    Of the stream [W] the first [X] bytes are in the memory of the inbox, the
    receiver was told about [N] of them, and [t] have been consumed. *)
Record inbox_inv (rb : RingBuffer) (t N X : nat) (W : list Z) : Prop := {
  ib_ring : ring_inv rb t (take N W);
  ib_le : (N <= X <= length W)%nat;
  ib_room : (X <= t + Z.to_nat kBufferSize)%nat;
  ib_holds : holds (data_ rb) kBufferSize (Z.of_nat t) (take (X - t) (drop t W));
  ib_prod : flag rb kProducer = false;
  ib_cons : flag rb kConsumer = false;
  ib_size : ring_size rb = kBufferSize;
}.

Lemma inbox_t rb t N X W : inbox_inv rb t N X W -> (t <= N)%nat.
Proof. intros [Hi Hl _ _ _ _ _]. pose proof (ri_le _ _ _ Hi). rewrite length_take in *. lia. Qed.

Lemma inbox_new rb : ring_inv rb 0 [] -> ring_size rb = kBufferSize -> flag rb kConsumer = false ->
  flag rb kProducer = false -> inbox_inv rb 0 0 0 [].
Proof. intros. split; try done; simpl; lia. Qed.

(** The receiver is told about [n] more bytes. *)
Lemma inbox_recv rb t N X W n :
  inbox_inv rb t N X W -> (N + n <= X)%nat ->
  exists rb', advance_marker kNumInboxRingbufferRoles InboxIbvRecver (Z.of_nat n) rb = Done rb' /\
    inbox_inv rb' t (N + n) X W.
Proof.
  intros Hi Hn. pose proof (inbox_t _ _ _ _ _ Hi) as Ht. destruct Hi as [Hinv Hl Hroom Hh Hp Hc Hsz].
  assert (length (take N W) = N) as HlN by (rewrite length_take; lia).
  assert (length (take (N + n) W) = (N + n)%nat) as HlN2 by (rewrite length_take; lia).
  exists (advanced 1 (Z.of_nat n) rb). destruct Hinv as [Hhd Hd Hle Hho]. rewrite HlN in Hhd.
  assert (0 < kBufferSize) as Hk by done. split.
  - apply (advance_ok 2 (marks (Z.of_nat t) (Z.of_nat N)) 1); [done | lia | done |].
    change (limit 2 (ring_size rb) _ 1) with (Z.of_nat t + ring_size rb). rewrite Hsz. cbn [marks]. lia.
  - split; try done; [|lia]. split; simpl; try done.
    + rewrite HlN2. apply (header_ok_ext 2 (bump (marks (Z.of_nat t) (Z.of_nat N)) 1 (Z.of_nat n))).
      * lia.
      * intros [|[|]] ?; unfold bump; simpl; lia.
      * apply incMarker_header; [done | lia|]. change (limit 2 _ _ 1) with (Z.of_nat t + ring_size rb). rewrite Hsz. cbn [marks]. lia.
    + lia.
    + change (kDataPoolByteSize (header_ rb)) with (ring_size rb). rewrite Hsz.
      rewrite skipn_firstn_comm. eapply holds_prefix; [|exact Hh].
        replace (take (N + n - t) (drop t W)) with (take (N + n - t) (take (X - t) (drop t W))); [apply prefix_take|].
      rewrite take_take. f_equal. lia.
Qed.

(** *** Remote writes *)

Lemma slices_fit S start n : start + n <= S -> slices S start n = (mkBuffer (Some start) n, mkBuffer None 0).
Proof. intros Hf. unfold slices. by rewrite (proj2 (Z.leb_le _ _)). Qed.

(** The bytes at position [q], while the peer has not acknowledged them. *)
Lemma outbox_bytes rb A W (q n : nat) :
  outbox_inv rb A W -> (A <= q)%nat -> (q + n <= length W)%nat ->
  Z.of_nat q mod kBufferSize + Z.of_nat n <= kBufferSize ->
  copyOut (mkBuffer (Some (Z.of_nat q mod kBufferSize)) (Z.of_nat n)) (data_ rb) = take n (drop q W).
Proof.
  intros (rb2 & -> & Hinv & _ & _ & Hsz) HA Hq Hf. pose proof (ring_inv_bounds _ _ _ Hinv) as [_ Hcap].
  change (data_ (widen _ rb2)) with (data_ rb2). destruct Hinv as [_ Hd _ Hh].
  change (kDataPoolByteSize (header_ rb2)) with (ring_size rb2) in *. rewrite Hsz in *.
  assert (holds (data_ rb2) kBufferSize (Z.of_nat q) (take n (drop q W))) as Hh2.
  { apply holds_take. replace (Z.of_nat q) with (Z.of_nat A + Z.of_nat (q - A)) by lia.
    replace (drop q W) with (drop (q - A) (drop A W)) by (rewrite drop_drop; f_equal; lia).
    apply holds_drop; [rewrite length_drop; lia | done]. }
  assert (length (take n (drop q W)) = n) as Hln by (rewrite length_take, length_drop; lia).
  pose proof (copyOut2_holds kBufferSize (data_ rb2) (Z.of_nat q) (take n (drop q W)) Hd) as Hc.
  rewrite Hln, slices_fit in Hc by done. unfold copyOut2 in Hc. cbn [fst snd] in Hc.
  rewrite <- Hc at 1; [by rewrite app_nil_r | lia | done | done].
Qed.

(** They arrive in the inbox: nothing that may still be read is overwritten. *)
Lemma inbox_store rb t N X W n :
  inbox_inv rb t N X W -> (X + n <= length W)%nat -> (X + n <= t + Z.to_nat kBufferSize)%nat ->
  Z.of_nat X mod kBufferSize + Z.of_nat n <= kBufferSize ->
  inbox_inv (rb <| data_ ::= copyIn (mkBuffer (Some (Z.of_nat X mod kBufferSize)) (Z.of_nat n)) (take n (drop X W)) |>)
    t N (X + n) W.
Proof.
  intros Hi Hn Hroom2 Hf. pose proof (inbox_t _ _ _ _ _ Hi) as Ht. destruct Hi as [Hinv Hl Hroom Hh Hp Hc Hsz].
  assert (0 < kBufferSize) as Hk by done.
  set (bytes := take n (drop X W)). assert (length bytes = n) as Hlb by (unfold bytes; rewrite length_take, length_drop; lia).
  assert (length (take (X - t) (drop t W)) = (X - t)%nat) as Hlx by (rewrite length_take, length_drop; lia).
  destruct Hinv as [Hhd Hd Hle Hho]. change (kDataPoolByteSize (header_ rb)) with (ring_size rb) in *. rewrite Hsz in *.
  assert (copyIn (mkBuffer (Some (Z.of_nat X mod kBufferSize)) (Z.of_nat n)) bytes (data_ rb) =
    copyIn2 (slices kBufferSize (Z.of_nat X mod kBufferSize) (Z.of_nat n)) bytes (data_ rb)) as Hcopy
    by (rewrite slices_fit by done; done).
  assert (forall l, (length l <= X - t)%nat -> holds (data_ rb) kBufferSize (Z.of_nat t) l ->
    holds (copyIn2 (slices kBufferSize (Z.of_nat X mod kBufferSize) (Z.of_nat n)) bytes (data_ rb)) kBufferSize (Z.of_nat t) l) as Hframe.
  { intros l Hll Hhl. apply holds_copyIn2_frame; try done; lia. }
  split; try done; [|lia|].
  - split; try done.
    + simpl. rewrite Hcopy, copyIn2_length, Hd. symmetry. exact Hsz.
    + change (kDataPoolByteSize _) with (ring_size rb). rewrite Hsz. simpl. rewrite Hcopy. apply Hframe; [|done].
      rewrite length_drop, length_take. lia.
  - simpl. rewrite Hcopy. replace (X + n - t)%nat with (X - t + n)%nat by lia.
    rewrite <- (take_take_drop (drop t W)), drop_drop. replace (t + (X - t))%nat with X by lia. fold bytes.
    apply holds_app; [apply Hframe; [lia | done]|]. rewrite Hlx. replace (Z.of_nat t + Z.of_nat (X - t)) with (Z.of_nat X) by lia.
    assert (bytes = take (Z.to_nat (Z.of_nat n)) bytes) as Hb by (rewrite take_ge by lia; done).
    rewrite Hb at 2. apply holds_copyIn2; [done | lia | lia].
Qed.

(** More is written at the other end. *)
Lemma inbox_more rb t N X W W' : inbox_inv rb t N X W -> W `prefix_of` W' -> inbox_inv rb t N X W'.
Proof.
  intros Hi [ext ->]. pose proof (inbox_t _ _ _ _ _ Hi) as Ht. destruct Hi as [Hinv Hl Hroom Hh Hp Hc Hsz].
  split; try done.
  - by rewrite take_app_le by lia.
  - rewrite length_app. lia.
  - rewrite drop_app_le, take_app_le by (rewrite ?length_drop; lia). done.
Qed.
End rings.

(** ** Consumers leave the bytes alone *)

Section keep.
Context {T : Type} `{NopEncoding T}.

Lemma access_keep N i p n s k bufs s' : accessContiguousInTx N i p n s = Done (k, bufs, s') -> s'.1 = s.1.
Proof.
  destruct s as [rb r]. unfold accessContiguousInTx. intros Ha.
  repeat match type of Ha with
  | (if ?b then _ else _) = _ => destruct b
  | (tp_check _ ≫= _) = _ => inv_bind Ha
  end; by simplify_eq.
Qed.

Lemma readInTx_keep N i p n s k bytes s' : readInTx N i p n s = Done (k, bytes, s') -> s'.1 = s.1.
Proof.
  unfold readInTx. intros Hr. inv_bind Hr. destruct a as [[m [b0 b1]] s1]. apply access_keep in Ha.
  repeat match type of Hr with (if ?b then _ else _) = _ => destruct b end; by simplify_eq.
Qed.

Lemma startTx_keep i s ret s' : startTx i s = Done (ret, s') -> data_ s'.1 = data_ s.1.
Proof.
  destruct s as [rb r]. unfold startTx. destruct (role_inTx_ r); [by intros; simplify_eq|].
  destruct (beginTransaction i (header_ rb)) as [was h]. destruct was; [by intros; simplify_eq|].
  intros Hs. inv_bind Hs. by simplify_eq.
Qed.

Lemma commitTx_keep i s : data_ (commitTx i s).2.1 = data_ s.1.
Proof. destruct s as [rb r]. unfold commitTx. by destruct (role_inTx_ r). Qed.

Lemma handleReadLength_keep N i (o : RingbufferReadOperation T) s n o' s' :
  handleReadLength N i o s = Done (n, o', s') -> s'.1 = s.1.
Proof.
  unfold handleReadLength. intros Hh. destruct (ro_mode_ o); [|by simplify_eq].
  inv_bind Hh. destruct a as [[ret bytes] s1]. apply readInTx_keep in Ha. destruct (0 <=? ret).
  - destruct (ro_nopObject_ _); [by simplify_eq|]. destruct (ro_ptrProvided_ _); [|by simplify_eq].
    inv_bind Hh. by simplify_eq.
  - destruct (_ =? _); by simplify_eq.
Qed.

Lemma readNopObject_keep N i (o : RingbufferReadOperation T) s n o' s' :
  readNopObject N i o s = Done (n, o', s') -> s'.1 = s.1.
Proof.
  unfold readNopObject. intros Hh. inv_bind Hh. inv_bind Hh. destruct a0 as [[nb [b0 b1]] s1]. apply access_keep in Ha0.
  destruct (nb <? 0); [by simplify_eq|]. inv_bind Hh. destruct a0 as [[v|[]] rd]; by simplify_eq.
Qed.

Lemma handleReadPayload_keep N i (o : RingbufferReadOperation T) s n o' s' :
  handleReadPayload N i o s = Done (n, o', s') -> s'.1 = s.1.
Proof.
  unfold handleReadPayload. intros Hh. destruct (ro_mode_ o); [by simplify_eq|].
  inv_bind Hh. destruct a as [[ret o1] s1]. assert (s1.1 = s.1) as Hk.
  { destruct (ro_nopObject_ o).
    - by eapply readNopObject_keep.
    - inv_bind Ha. destruct a as [[r2 bytes] s2]. apply readInTx_keep in Ha0. by simplify_eq. }
  destruct (0 <=? ret); [by simplify_eq|]. destruct (_ =? _); by simplify_eq.
Qed.

Lemma handleRead_keep N i (o : RingbufferReadOperation T) s n o' calls s' :
  handleRead N i o s = Done (n, o', calls, s') -> data_ s'.1 = data_ s.1.
Proof.
  unfold handleRead. intros Hh. inv_bind Hh. destruct a as [ret s1]. inv_bind Hh. inv_bind Hh.
  destruct a0 as [[n1 o1] s2]. inv_bind Hh. destruct a0 as [[n2 o2] s3].
  pose proof (commitTx_keep i s3) as Hc. destruct (commitTx i s3) as [ret2 s4]. inv_bind Hh. simplify_eq.
  apply handleReadLength_keep in Ha1. apply handleReadPayload_keep in Ha2. apply startTx_keep in Ha. cbn [fst snd] in Hc.
  congruence.
Qed.
End keep.
