(* ===== verification/IbvFlow.v ===== *)
(** * One direction between two ends of the InfiniBand transport

    What one round over the queues of a connection does, and the invariant of one
    direction between two connections ([flow]): from the writes of one end, through
    its outbox and the remote writes in progress, to the inbox and the reads of the
    other, and back with the acknowledgements. *)

From S2P Require Import Prelude System RingBuffer RingBufferTx Nop RingbufferOps RingbufferQueues IbvReactor.
From S2P Require Import IbvConnection IbvRings.

(** ** Events

    The reactor cuts lengths to 32 bits. *)

Definition reads_of {T} (evs : list (event T)) : list (read_call T) :=
  omap (fun e => match e with EvRead c => Some c | _ => None end) evs.
Definition writes_of {T} (evs : list (event T)) : list write_call :=
  omap (fun e => match e with EvWrite c => Some c | _ => None end) evs.
Definition posts_of {T} (evs : list (event T)) : list WriteInfo :=
  omap (fun e => match e with EvPostWrite _ i => Some i | _ => None end) evs.
Definition acks_of {T} (evs : list (event T)) : list Z :=
  omap (fun e => match e with EvPostAck _ i => Some (u32 (ai_length i)) | _ => None end) evs.
Definition sent_of {T} (evs : list (event T)) : list Exchange :=
  omap (fun e => match e with EvSendAddr ex => Some ex | _ => None end) evs.

(** What the other parts of a world can see of some events. *)
Record summary {T} (evs : list (event T)) (rds : list (read_call T)) (wrs : list write_call)
    (posts : list WriteInfo) (acks : list Z) : Prop := {
  sm_reads : reads_of evs = rds;
  sm_writes : writes_of evs = wrs;
  sm_posts : posts_of evs = posts;
  sm_acks : acks_of evs = acks;
  sm_sent : sent_of evs = [];
}.

Section summaries.
Context {T : Type}.
Implicit Types evs : list (event T).

Lemma ibv_reads_of_app evs1 evs2 : reads_of (evs1 ++ evs2) = reads_of evs1 ++ reads_of evs2.
Proof. apply omap_app. Qed.
Lemma ibv_writes_of_app evs1 evs2 : writes_of (evs1 ++ evs2) = writes_of evs1 ++ writes_of evs2.
Proof. apply omap_app. Qed.

Lemma reads_of_none l evs : reads_of evs = [] -> reads_of (l ++ evs) = reads_of l.
Proof. intros Hn. by rewrite ibv_reads_of_app, Hn, app_nil_r. Qed.
Lemma writes_of_none l evs : writes_of evs = [] -> writes_of (l ++ evs) = writes_of l.
Proof. intros Hn. by rewrite ibv_writes_of_app, Hn, app_nil_r. Qed.

Lemma summary_nil : summary (T := T) [] [] [] [] [].
Proof. by split. Qed.

Lemma summary_app evs1 evs2 r1 r2 w1 w2 p1 p2 a1 a2 :
  summary evs1 r1 w1 p1 a1 -> summary evs2 r2 w2 p2 a2 ->
  summary (evs1 ++ evs2) (r1 ++ r2) (w1 ++ w2) (p1 ++ p2) (a1 ++ a2).
Proof.
  intros [R1 W1 P1 A1 S1] [R2 W2 P2 A2 S2]. unfold reads_of, writes_of, posts_of, acks_of, sent_of in *.
  split; unfold reads_of, writes_of, posts_of, acks_of, sent_of; by rewrite omap_app, ?R1, ?R2, ?W1, ?W2, ?P1, ?P2, ?A1, ?A2, ?S1, ?S2.
Qed.

Lemma summary_reads (l : list (read_call T)) : summary (EvRead <$> l) l [] [] [].
Proof. split; induction l as [|x l IH]; try done. exact (f_equal (cons x) IH). Qed.
Lemma summary_writes (l : list write_call) : summary (T := T) (EvWrite <$> l) [] l [] [].
Proof. split; induction l as [|x l IH]; try done. exact (f_equal (cons x) IH). Qed.
Lemma summary_posts qp (l : list WriteInfo) : summary (T := T) (EvPostWrite qp <$> l) [] [] l [].
Proof. split; induction l as [|x l IH]; try done. exact (f_equal (cons x) IH). Qed.
Lemma summary_ack qp (n : nat) : Z.of_nat n < 2 ^ 32 ->
  summary (T := T) (if 0 <? Z.of_nat n then [EvPostAck qp (mkAckInfo (Z.of_nat n))] else []) [] [] []
    (if decide (n = 0%nat) then [] else [Z.of_nat n]).
Proof.
  intros Hn. case_decide; [subst; by split|]. rewrite (proj2 (Z.ltb_lt _ _)) by lia.
  split; try done. cbn. by rewrite u32_small by (unfold is_u32; lia).
Qed.
End summaries.

Section rounds.
Context {T : Type} `{NopEncodingLaws T}.
Implicit Types c : ConnectionImpl T.

(** ** One round of writes *)

Lemma route_posted c q k : route_of (posted c q k) = route_of c.
Proof. done. Qed.

Lemma posted_0 c q : cn_peerInboxHead_ c = u64 q -> u32 (cn_numWritesInFlight_ c) = cn_numWritesInFlight_ c -> posted c q 0 = c.
Proof.
  intros Hq Hn. destruct c. unfold posted, field_update, eta_expand, eta_ConnectionImpl. simpl in *. by rewrite Z.add_0_r, <- Hq, Hn.
Qed.

(** One write, and the handing over of what it appended. *)
Lemma write_one qp (o : RingbufferWriteOperation T) p k rb A W c :
  outbox_inv rb A W -> wr_rel o p k -> payload_ok kBufferSize p ->
  cn_peerInboxHead_ c = u64 (Z.of_nat (length W)) -> u32 (cn_numWritesInFlight_ c) = cn_numWritesInFlight_ c ->
  exists n o' calls rb1 infos rb',
    let W' := W ++ take n (drop k (frame p)) in
    handleWrite kNumOutboxRingbufferRoles OutboxProducer o (rb, newRole) = Done (Z.of_nat n, o', calls, (rb1, newRole)) /\
    (if 0 <? Z.of_nat n then post_outbox qp (Z.of_nat n) rb1 c else Done (c, [], rb1)) =
      Done (posted c (Z.of_nat (length W')) (length infos), EvPostWrite qp <$> infos, rb') /\
    covers (route_of c) (Z.of_nat (length W)) infos (Z.of_nat (length W')) /\
    outbox_inv rb' A W' /\ wo_fn_ o' = wo_fn_ o /\ (k + n <= length (frame p))%nat /\
    ((write_completed o' = true /\ calls = [write_done o] /\ (k + n = length (frame p))%nat) \/
     (write_completed o' = false /\ calls = [] /\ wr_rel o' p (k + n) /\ (k + n < length (frame p))%nat /\
      wr_stuck p (k + n) (Z.of_nat A + kBufferSize - Z.of_nat (length W')))).
Proof.
  intros Ho Hr Hok Hh Hn. destruct (outbox_write rb A W o p k Ho Hr Hok)
    as (n & o1 & calls & rb2 & He & Hfn & Hinv & Hp & Hc & Hsz & Hle & Hcase).
  assert (length (W ++ take n (drop k (frame p))) = (length W + n)%nat) as HlW
    by (rewrite length_app, length_take, length_drop; lia).
  assert (A <= length W)%nat as HA.
  { destruct Ho as (rb0 & _ & Hi0 & _). exact (ri_le _ _ _ Hi0). }
  assert (exists infos, (if 0 <? Z.of_nat n then post_outbox qp (Z.of_nat n) (widen (u64 (Z.of_nat (length W))) rb2) c
      else Done (c, [], widen (u64 (Z.of_nat (length W))) rb2)) =
    Done (posted c (Z.of_nat (length (W ++ take n (drop k (frame p))))) (length infos), EvPostWrite qp <$> infos,
      widen (u64 (Z.of_nat (length (W ++ take n (drop k (frame p)))))) rb2) /\
    covers (route_of c) (Z.of_nat (length W)) infos (Z.of_nat (length (W ++ take n (drop k (frame p)))))) as (infos & Hpost & Hcov).
  { destruct (decide (n = 0%nat)) as [->|Hn0].
    - exists []. rewrite take_0, app_nil_r. simpl. rewrite posted_0 by done. done.
    - rewrite (proj2 (Z.ltb_lt _ _)) by lia. rewrite HlW in *. 
      destruct (post_outbox_ok c qp rb2 A _ (length W) n Hinv Hsz HA ltac:(lia) HlW Hh) as (infos & Hpo & Hcov).
      rewrite HlW in *. by exists infos. }
  exists n, o1, calls, (widen (u64 (Z.of_nat (length W))) rb2), infos, (widen (u64 (Z.of_nat (length (W ++ take n (drop k (frame p)))))) rb2).
  cbv zeta. split; [done|]. split; [done|]. split; [done|]. split; [by exists rb2|]. split; [done|]. split; [done|].
  destruct Hcase as [Hcase|(H1 & H2 & H3 & H4 & H5)]; [by left|right]. split_and!; try done.
  replace (Z.of_nat A + kBufferSize - _) with (Z.of_nat A + kBufferSize - Z.of_nat (length W) - Z.of_nat n) by (rewrite HlW; lia).
  done.
Qed.

Lemma ibv_serve_writes_ok qp wq : forall ps k B rb A c,
  let W := B ++ part ps k in
  outbox_inv rb A W -> Forall (payload_ok kBufferSize) ps -> wq_rel wq ps k ->
  cn_peerInboxHead_ c = u64 (Z.of_nat (length W)) -> u32 (cn_numWritesInFlight_ c) = cn_numWritesInFlight_ c ->
  exists d wq' k' infos evs rb',
    let W' := B ++ frames (take d ps) ++ part (drop d ps) k' in
    serve_writes qp wq (rb, newRole) c =
      Done (wq', evs, posted c (Z.of_nat (length W')) (length infos), (rb', newRole)) /\
    (d <= length ps)%nat /\ W `prefix_of` W' /\ outbox_inv rb' A W' /\ wq_rel wq' (drop d ps) k' /\
    wo_fn_ <$> wq' = wo_fn_ <$> drop d wq /\
    covers (route_of c) (Z.of_nat (length W)) infos (Z.of_nat (length W')) /\
    summary evs [] (write_done <$> take d wq) infos [] /\
    w_head_stuck (drop d ps) k' (Z.of_nat A + kBufferSize - Z.of_nat (length W')).
Proof.
  induction wq as [|o wq IH]; intros ps k B rb A c W Ho Hok Hrel Hh Hn.
  - destruct ps; [|done]. simpl in Hrel. subst k. exists 0%nat, [], 0%nat, [], [], rb. subst W. simpl in *.
    rewrite app_nil_r in *. rewrite posted_0 by done. by split_and!.
  - destruct ps as [|p ps]; [done|]. destruct Hrel as (Hr & Hk & Hfr). subst W. simpl in Ho, Hh.
    inversion_clear Hok as [|? ? Hokp Hokps].
    destruct (write_one qp o p k rb A _ c Ho Hr Hokp Hh Hn)
      as (n & o1 & calls & rb1 & infos & rb2 & He & Hpost & Hcov & Ho2 & Hfn & Hle & Hcase).
    rewrite <- app_assoc, take_take_drop in *. cbn [serve_writes]. rewrite He, bind_done, Hpost, bind_done.
    pose proof (summary_app (T := T) _ _ _ _ _ _ _ _ _ _ (summary_writes calls) (summary_posts qp infos)) as Hsm.
    destruct Hcase as [(Hd & -> & Hkn)|(Hd & -> & Hr1 & Hlt & Hst)]; rewrite Hd.
    + rewrite Hkn, firstn_all in *.
      assert (outbox_inv rb2 A ((B ++ frame p) ++ part ps 0)) as Ho3 by (destruct ps; simpl; by rewrite app_nil_r).
      assert (length (B ++ frame p) = length ((B ++ frame p) ++ part ps 0)) as HlB by (destruct ps; simpl; by rewrite app_nil_r).
      destruct (IH ps 0%nat (B ++ frame p) rb2 A (posted c (Z.of_nat (length (B ++ frame p))) (length infos)) Ho3 Hokps
        (wq_rel_fresh _ _ Hfr)) as (d & wq' & k' & infos' & evs & rb' & He2 & Hd2 & Hpre & Ho4 & Hq2 & Hfn2 & Hcov2 & Hsm2 & Hst).
      { by rewrite <- HlB. }
      { simpl. unfold u32. by rewrite (wrap_small 32 (wrap _ _)) by (apply wrap_range; lia). }
      rewrite He2, bind_done. rewrite posted_posted, <- length_app.
      exists (S d), wq', k', (infos ++ infos'), (((EvWrite <$> [write_done o]) ++ (EvPostWrite qp <$> infos)) ++ evs), rb'.
      cbn [take drop length part]. rewrite frames_cons, fmap_cons. rewrite <- HlB in Hcov2. rewrite <- !(app_assoc B) in *. rewrite <- !(app_assoc (frame p)) in *.
      split; [done|]. split; [lia|]. split; [apply prefix_app, prefix_app_r, prefix_take|]. split; [done|]. split; [done|].
      split; [done|]. split; [by eapply covers_app|]. split; [|done].
      exact (summary_app (T := T) _ _ _ _ _ _ _ _ _ _ Hsm Hsm2).
    + exists 0%nat, (o1 :: wq), (k + n)%nat, infos. eexists _, rb2. cbn [take drop frames part length].
      change (frames []) with (@nil Z). rewrite !app_nil_l.
      split; [done|]. split; [lia|]. split.
      { apply prefix_app. rewrite <- take_take_drop. by apply prefix_app_r. }
      split; [done|]. split; [done|]. split; [by rewrite !fmap_cons, Hfn|]. split; [done|]. split; [|done]. exact Hsm.
Qed.

(** ** One round of reads *)

Lemma inbox_step rb rb' t t' N X W :
  inbox_inv rb t N X W -> ring_inv rb' t' (take N W) -> (t <= t')%nat -> data_ rb' = data_ rb ->
  same_ring kConsumer rb rb' -> inbox_inv rb' t' N X W.
Proof.
  intros Hi Hinv' Htt Hd Hsame. pose proof (inbox_t _ _ _ _ _ Hi) as Ht. destruct Hi as [Hinv Hl Hroom Hh Hp Hc Hsz].
  pose proof (ri_le _ _ _ Hinv') as Hle. rewrite length_take in Hle.
  split; try done; [lia| | |apply Hsame|].
  - rewrite Hd. replace (Z.of_nat t') with (Z.of_nat t + Z.of_nat (t' - t)) by lia.
    replace (drop t' W) with (drop (t' - t) (drop t W)) by (rewrite drop_drop; f_equal; lia).
    replace (X - t')%nat with (X - t - (t' - t))%nat by lia. rewrite <- skipn_firstn_comm.
    apply holds_drop; [rewrite length_take, length_drop; lia | done].
  - rewrite (sr_other _ _ _ Hsame) by (unfold kProducer, kConsumer; lia). done.
  - by rewrite (sr_size _ _ _ Hsame).
Qed.

(** [B] ends the frames read so far; what the inbox has comes from the stream of
    frames that starts with the messages [ps] still to be read. *)
Lemma ibv_serve_reads_ok qp rq : forall ps rest k rb t N X W B acks,
  inbox_inv rb t N X W -> Forall (payload_ok kBufferSize) ps -> rq_rel rq ps k ->
  take t W = B ++ part ps k -> agrees W (B ++ frames ps ++ rest) ->
  exists d rq' k' evs rb' t' acks' lens,
    serve_reads qp rq acks (rb, newRole) = Done (rq', evs, acks', (rb', newRole)) /\
    (d <= length ps)%nat /\ inbox_inv rb' t' N X W /\ rq_rel rq' (drop d ps) k' /\
    (t + sum_list lens = t')%nat /\ Forall (fun n => 0 < n)%nat lens /\
    take t' W = B ++ frames (take d ps) ++ part (drop d ps) k' /\
    ro_fn_ <$> rq' = ro_fn_ <$> drop d rq /\
    summary evs (read_calls (ro_fn_ <$> take d rq) (take d ps)) [] [] (Z.of_nat <$> lens) /\
    r_head_stuck (drop d ps) k' (drop t' (take N W)).
Proof.
  induction rq as [|o rq IH]; intros ps rest k rb t N X W B acks Hi Hok Hrel Ht Hag.
  - destruct ps; [|done]. simpl in Hrel. subst k. exists 0%nat, [], 0%nat, [], rb, t, acks, [].
    simpl in *. rewrite Nat.add_0_r. by split_and!.
  - destruct ps as [|p ps]; [done|]. destruct Hrel as (Hr & Hk & Hfr).
    inversion_clear Hok as [|? ? Hokp Hokps]. pose proof (inbox_t _ _ _ _ _ Hi) as HtN. pose proof (ib_le _ _ _ _ _ Hi) as HNX.
    rewrite frames_cons in Hag. cbn [part] in Ht.
    assert (length (take t W) = t) as Htl by (rewrite length_take; lia).
    assert (agrees (drop t W) (drop k (frame p) ++ frames ps ++ rest)) as Hag0.
    { apply (agrees_drop _ _ t) in Hag; [|lia]. rewrite Ht, length_app, length_take in Htl.
      replace t with (length B + k)%nat in Hag at 2 by lia.
      rewrite <- drop_drop, drop_app_length, <- app_assoc, drop_app_le in Hag by lia. done. }
    assert (agrees (drop t (take N W)) (drop k (frame p) ++ frames ps ++ rest)) as Hag1.
    { destruct Hag0 as [fut <-]. rewrite skipn_firstn_comm. exists (drop (N - t) (drop t W) ++ fut). by rewrite app_assoc, take_drop. }
    destruct (handleRead_ok rb t (take N W) o p k (frames ps ++ rest) (ib_ring _ _ _ _ _ Hi) (ib_cons _ _ _ _ _ Hi) Hr
      ltac:(by rewrite (ib_size _ _ _ _ _ Hi)) Hag1) as (n & o1 & calls & rb1 & He & Hfn & Hn & Hinv1 & Hsame & Hcase).
    pose proof (handleRead_keep _ _ _ _ _ _ _ _ He) as Hkeep. cbn [fst] in Hkeep.
    pose proof (inbox_step _ _ _ _ _ _ _ Hi Hinv1 ltac:(lia) Hkeep Hsame) as Hi1.
    rewrite length_drop, length_take in Hn.
    assert (k + n <= length (frame p) -> take (t + n) W = B ++ take (k + n) (frame p))%nat as Htn.
    { intros Hkn. rewrite <- take_take_drop, Ht, <- app_assoc. f_equal. rewrite <- take_take_drop. f_equal.
      apply (agrees_take _ _ _ n Hag0); rewrite ?length_drop; lia. }
    assert (Z.of_nat n < 2 ^ 32) as Hn32.
    { pose proof (ib_room _ _ _ _ _ Hi) as Hroom. unfold kBufferSize in Hroom. lia. }
    pose proof (summary_app (T := T) _ _ _ _ _ _ _ _ _ _ (summary_reads calls) (summary_ack qp n Hn32)) as Hsm. rewrite app_nil_r in Hsm.
    set (l1 := if decide (n = 0%nat) then [] else [n]).
    assert ((if decide (n = 0%nat) then [] else [Z.of_nat n]) = Z.of_nat <$> l1) as Hl1 by (unfold l1; by case_decide).
    assert (sum_list l1 = n /\ Forall (fun n => 0 < n)%nat l1) as [Hsum Hpos].
    { unfold l1. case_decide; simpl; [by subst|]. split; [lia|]. repeat constructor. lia. }
    rewrite Hl1 in Hsm. cbn [serve_reads]. unfold kNumInboxRingbufferRoles, InboxConsumer. unfold kConsumer in He. rewrite He, bind_done.
    destruct Hcase as [(Hd & -> & Hkn)|(Hd & -> & Hr1 & Hlt & Hst)]; rewrite Hd.
    + rewrite Hkn, firstn_all in Htn. specialize (Htn ltac:(lia)).
      destruct (IH ps rest 0%nat rb1 (t + n)%nat N X W (B ++ frame p) (if 0 <? Z.of_nat n then u32 (acks + 1) else acks) Hi1 Hokps (rq_rel_fresh _ _ Hfr))
        as (d & rq' & k' & evs & rb2 & t2 & acks' & lens & He2 & Hd2 & Hi2 & Hq2 & Ht2 & Hpos2 & Htk & Hfn2 & Hsm2 & Hst).
      { rewrite Htn. destruct ps; simpl; by rewrite app_nil_r. }
      { by rewrite <- !app_assoc in *. }
      rewrite He2, bind_done.
      exists (S d), rq', k'. eexists. exists rb2, t2, acks', (l1 ++ lens).
      cbn [take drop length]. rewrite frames_cons, (fmap_cons ro_fn_). rewrite <- !(app_assoc B) in *.
      rewrite <- !(app_assoc (frame p)) in *.
      split; [done|]. split; [lia|]. split; [done|]. split; [done|]. split.
      { rewrite sum_list_with_app. lia. }
      split; [by apply Forall_app|]. split; [done|]. split; [done|]. split; [|done]. rewrite fmap_app.
      exact (summary_app (T := T) _ _ _ _ _ _ _ _ _ _ Hsm Hsm2).
    + exists 0%nat, (o1 :: rq), (k + n)%nat. eexists. exists rb1, (t + n)%nat. eexists. exists l1.
      split; [done|]. split; [lia|]. split; [done|]. split; [done|]. split; [lia|]. split; [done|].
      split; [by apply Htn; lia|]. split; [cbn [drop]; by rewrite !fmap_cons, Hfn|]. split; [exact Hsm | exact Hst].
Qed.
End rounds.

(** ** One direction

    [fl_initS] and [fl_initR]: the two ends have their rings; [fl_estS] and
    [fl_estR]: they are established.  [fl_wr] are the remote writes in progress,
    [fl_no] the lengths of those whose bytes arrived and that the receiver has not
    been told about, [fl_acks] the acknowledgements in progress.  [fl_nsent] writes
    and [fl_nread] reads were requested so far. *)
Record flow {T : Type} := mkFlow {
  fl_initS : bool;
  fl_initR : bool;
  fl_estS : bool;
  fl_estR : bool;
  fl_outbox : RingBuffer;
  fl_inbox : RingBuffer;
  fl_head : Z;
  fl_route : route;
  fl_wr : list WriteInfo;
  fl_no : list Z;
  fl_acks : list Z;
  fl_wq : list (RingbufferWriteOperation T);
  fl_rq : list (RingbufferReadOperation T);
  fl_nsent : nat;
  fl_nread : nat;
  fl_wlog : list write_call;
  fl_rlog : list (read_call T);
}.
Arguments flow T : clear implicits.
#[export] Instance eta_flow {T} : Eta (flow T) := fun f =>
  mkFlow T (fl_initS f) (fl_initR f) (fl_estS f) (fl_estR f) (fl_outbox f) (fl_inbox f) (fl_head f) (fl_route f)
    (fl_wr f) (fl_no f) (fl_acks f) (fl_wq f) (fl_rq f) (fl_nsent f) (fl_nread f) (fl_wlog f) (fl_rlog f).

Lemma flow_ext {T} (f g : flow T) :
  fl_initS f = fl_initS g -> fl_initR f = fl_initR g -> fl_estS f = fl_estS g -> fl_estR f = fl_estR g ->
  fl_outbox f = fl_outbox g -> fl_inbox f = fl_inbox g -> fl_head f = fl_head g -> fl_route f = fl_route g ->
  fl_wr f = fl_wr g -> fl_no f = fl_no g -> fl_acks f = fl_acks g -> fl_wq f = fl_wq g -> fl_rq f = fl_rq g ->
  fl_nsent f = fl_nsent g -> fl_nread f = fl_nread g -> fl_wlog f = fl_wlog g -> fl_rlog f = fl_rlog g -> f = g.
Proof. destruct f, g. simpl. by intros -> -> -> -> -> -> -> -> -> -> -> -> -> -> -> -> ->. Qed.

(** Lengths that make up the bytes from [a] to [b]. *)
Definition lengths (a : nat) (l : list Z) (b : nat) : Prop :=
  exists ns, l = Z.of_nat <$> ns /\ Forall (fun n => 0 < n)%nat ns /\ (a + sum_list ns = b)%nat.

Lemma lengths_nil a : lengths a [] a.
Proof. exists []. split_and!; [done..|simpl; lia]. Qed.

Lemma lengths_nil_inv a b : lengths a [] b -> a = b.
Proof. intros (ns & Hl & _ & <-). destruct ns; [simpl; lia | done]. Qed.

Lemma lengths_le a l b : lengths a l b -> (a <= b)%nat.
Proof. intros (ns & _ & _ & <-). lia. Qed.

Lemma lengths_cons a x l b : lengths a (x :: l) b -> exists n, x = Z.of_nat n /\ (0 < n)%nat /\ lengths (a + n) l b.
Proof.
  intros ([|n ns] & Hl & Hp & Hs); [done|]. simpl in Hl, Hs. injection Hl as -> ->. inversion_clear Hp.
  exists n. split; [done|]. split; [done|]. exists ns. split_and!; [done..|lia].
Qed.

Lemma lengths_app a l1 b l2 c : lengths a l1 b -> lengths b l2 c -> lengths a (l1 ++ l2) c.
Proof.
  intros (n1 & -> & P1 & <-) (n2 & -> & P2 & <-). exists (n1 ++ n2). split; [by rewrite fmap_app|].
  split; [by apply Forall_app|]. rewrite sum_list_with_app. lia.
Qed.

Section direction.
Context {T : Type} `{NopEncodingLaws T}.
Implicit Types f : flow T.

(** The messages [P] that will be sent in this direction, in order. *)
Context (P : list (payload T)).

(** Of the stream [W], [X] bytes have reached the inbox, the receiver was told about
    [N], consumed [t], and [A] are known at the sender to be consumed.  [wd] is
    written and [wp] requested but not written out; likewise [rd] and [rp] for
    reads.  [k] and [k'] are the positions in the frames in progress. *)
Record fcore f (W : list Z) (A t N X : nat) (wd wp wf rd rp rf : list (payload T)) (k k' : nat) : Prop := {
  fc_w : P = wd ++ wp ++ wf;
  fc_nsent : fl_nsent f = (length wd + length wp)%nat;
  fc_r : P = rd ++ rp ++ rf;
  fc_nread : fl_nread f = (length rd + length rp)%nat;
  fc_wq : wq_rel (fl_wq f) wp k;
  fc_wfn : wo_fn_ <$> fl_wq f = seq (length wd) (length wp);
  fc_rq : rq_rel (fl_rq f) rp k';
  fc_rfn : ro_fn_ <$> fl_rq f = seq (length rd) (length rp);
  fc_W : W = frames wd ++ part wp k;
  fc_t : take t W = frames rd ++ part rp k';
  fc_wlog : fl_wlog f = (fun i => mkWriteCall i kSuccess) <$> seq 0 (length wd);
  fc_rlog : fl_rlog f = read_calls (seq 0 (length rd)) rd;
  fc_outbox : fl_initS f = true -> outbox_inv (fl_outbox f) A W;
  fc_inbox : fl_initR f = true -> inbox_inv (fl_inbox f) t N X W;
  fc_head : fl_head f = u64 (Z.of_nat (length W));
  fc_le : (t <= N)%nat /\ (X <= length W)%nat /\ Z.of_nat (length W) <= Z.of_nat A + kBufferSize;
  fc_acks : lengths A (fl_acks f) t;
  fc_no : lengths N (fl_no f) X;
  fc_wr : covers (fl_route f) (Z.of_nat X) (fl_wr f) (Z.of_nat (length W));
  fc_initS : fl_estS f = true -> fl_initS f = true;
  fc_initR : fl_estR f = true -> fl_initR f = true;
  fc_idleS : fl_estS f = false -> wd = [] /\ k = 0%nat;
  fc_idleR : fl_estR f = false -> rd = [] /\ k' = 0%nat /\ X = 0%nat;
}.

(** No end that could go on waits: there is nothing a wake-up could be lost of. *)
Definition fl_stuckW f (W : list Z) (A : nat) wp k : Prop :=
  fl_estS f = true -> w_head_stuck wp k (Z.of_nat A + kBufferSize - Z.of_nat (length W)).
Definition fl_stuckR f (W : list Z) (t N : nat) rp k' : Prop :=
  fl_estR f = true -> r_head_stuck rp k' (drop t (take N W)).

Definition finv f : Prop :=
  exists W A t N X wd wp wf rd rp rf k k',
    fcore f W A t N X wd wp wf rd rp rf k k' /\ fl_stuckW f W A wp k /\ fl_stuckR f W t N rp k'.
(** The invariant while the writes, or the reads, are still to be served. *)
Definition finvW f : Prop :=
  exists W A t N X wd wp wf rd rp rf k k', fcore f W A t N X wd wp wf rd rp rf k k' /\ fl_stuckR f W t N rp k'.
Definition finvR f : Prop :=
  exists W A t N X wd wp wf rd rp rf k k', fcore f W A t N X wd wp wf rd rp rf k k' /\ fl_stuckW f W A wp k.

Lemma finv_eq f f' : finv f -> f = f' -> finv f'.
Proof. by intros Hf <-. Qed.

Lemma finv_finvW f : finv f -> finvW f.
Proof. intros (W & A & t & N & X & wd & wp & wf & rd & rp & rf & k & k' & H1 & H2 & H3). by exists W, A, t, N, X, wd, wp, wf, rd, rp, rf, k, k'. Qed.
Lemma finv_finvR f : finv f -> finvR f.
Proof. intros (W & A & t & N & X & wd & wp & wf & rd & rp & rf & k & k' & H1 & H2 & H3). by exists W, A, t, N, X, wd, wp, wf, rd, rp, rf, k, k'. Qed.
Lemma finvW_idle f : finvW f -> fl_estS f = false -> finv f.
Proof.
  intros (W & A & t & N & X & wd & wp & wf & rd & rp & rf & k & k' & H1 & H2) He.
  exists W, A, t, N, X, wd, wp, wf, rd, rp, rf, k, k'. split_and!; [done | intros ?; congruence | done].
Qed.
Lemma finvR_idle f : finvR f -> fl_estR f = false -> finv f.
Proof.
  intros (W & A & t & N & X & wd & wp & wf & rd & rp & rf & k & k' & H1 & H2) He.
  exists W, A, t, N, X, wd, wp, wf, rd, rp, rf, k, k'. split_and!; [done | done | intros ?; congruence].
Qed.

Lemma finvW_empty f : finvW f -> fl_wq f = [] -> finv f.
Proof.
  intros (W & A & t & N & X & wd & wp & wf & rd & rp & rf & k & k' & H1 & H2) He.
  exists W, A, t, N, X, wd, wp, wf, rd, rp, rf, k, k'. split_and!; [done | | done].
  pose proof (fc_wq _ _ _ _ _ _ _ _ _ _ _ _ _ _ H1) as Hq. rewrite He in Hq. by destruct wp.
Qed.
Lemma finvR_empty f : finvR f -> fl_rq f = [] -> finv f.
Proof.
  intros (W & A & t & N & X & wd & wp & wf & rd & rp & rf & k & k' & H1 & H2) He.
  exists W, A, t, N, X, wd, wp, wf, rd, rp, rf, k, k'. split_and!; [done | done|].
  pose proof (fc_rq _ _ _ _ _ _ _ _ _ _ _ _ _ _ H1) as Hq. rewrite He in Hq. by destruct rp.
Qed.

Hypothesis HP : Forall (payload_ok kBufferSize) P.

(** *** Serving the queues *)

Lemma finv_serve_w qp c f :
  finvW f -> fl_estS f = true -> cn_peerInboxHead_ c = fl_head f -> u32 (cn_numWritesInFlight_ c) = cn_numWritesInFlight_ c ->
  route_of c = fl_route f ->
  exists wq' evs infos wrs rb' q,
    serve_writes qp (fl_wq f) (fl_outbox f, newRole) c = Done (wq', evs, posted c q (length infos), (rb', newRole)) /\
    summary evs [] wrs infos [] /\
    finv (f <| fl_wq := wq' |> <| fl_outbox := rb' |> <| fl_head := u64 q |> <| fl_wr ::= fun l => l ++ infos |>
            <| fl_wlog ::= fun l => l ++ wrs |>).
Proof.
  intros (W & A & t & N & X & wd & wp & wf & rd & rp & rf & k & k' & Hc & Hr) Hest Hh Hn Hrt.
  pose proof Hc as []. subst W.
  assert (Forall (payload_ok kBufferSize) wp) as Hok by (rewrite fc_w0, !Forall_app in HP; apply HP).
  destruct (ibv_serve_writes_ok qp (fl_wq f) wp k (frames wd) (fl_outbox f) A c (fc_outbox0 (fc_initS0 Hest)) Hok fc_wq0)
    as (d & wq' & k2 & infos & evs & rb' & He & Hd & Hpre & Ho' & Hq' & Hfn' & Hcov & Hsm & Hst); [by rewrite Hh | done |].
  destruct (write_done_seq (fl_wq f) (length wd) d (length wp) fc_wfn0 Hd) as [Hwl Hwf].
  assert (length (wd ++ take d wp) = length wd + d)%nat as Hlk by (rewrite length_app, length_take; lia).
  rewrite app_assoc, <- frames_app in Ho', Hst, Hpre, Hcov, He.
  set (W := frames wd ++ part wp k) in *. set (W' := frames (wd ++ take d wp) ++ part (drop d wp) k2) in *.
  assert (length W <= length W')%nat as HWW by (apply prefix_length in Hpre; exact Hpre).
  exists wq', evs, infos, (write_done <$> take d (fl_wq f)), rb', (Z.of_nat (length W')). split; [exact He|]. split; [done|].
  assert (take t W' = take t W) as HtW.
  { destruct Hpre as [ext ->]. destruct fc_le0. apply lengths_le in fc_no0. by rewrite take_app_le by lia. }
  exists W', A, t, N, X, (wd ++ take d wp), (drop d wp), wf, rd, rp, rf, k2, k'.
  split; [|split].
  - split; simpl; try done.
    + by rewrite <- app_assoc, (app_assoc (take d wp)), take_drop.
    + rewrite Hlk, length_drop. lia.
    + by rewrite Hlk, length_drop, Hfn', Hwf.
    + by rewrite HtW.
    + rewrite Hlk, fc_wlog0, Hwl, <- fmap_app, <- seq_app. done.
    + intros Hi. by eapply inbox_more; [apply fc_inbox0|].
    + destruct Ho' as (rb2 & _ & Hi2 & _ & _ & Hsz2). pose proof (ring_inv_bounds _ _ _ Hi2). rewrite Hsz2 in *. lia.
    + rewrite <- Hrt. rewrite <- Hrt in fc_wr0. by eapply covers_app.
    + congruence.
  - intros _. exact Hst.
  - intros He'. specialize (Hr He'). destruct fc_le0. apply lengths_le in fc_no0. destruct Hpre as [ext ->]. by rewrite take_app_le by lia.
Qed.

Lemma finv_serve_r qp acks f :
  finvR f -> fl_estR f = true ->
  exists rq' evs rds acks' ns rb',
    serve_reads qp (fl_rq f) acks (fl_inbox f, newRole) = Done (rq', evs, acks', (rb', newRole)) /\
    summary evs rds [] [] ns /\
    finv (f <| fl_rq := rq' |> <| fl_inbox := rb' |> <| fl_acks ::= fun l => l ++ ns |> <| fl_rlog ::= fun l => l ++ rds |>).
Proof.
  intros (W & A & t & N & X & wd & wp & wf & rd & rp & rf & k & k' & Hc & Hw) Hest. pose proof Hc as [].
  assert (Forall (payload_ok kBufferSize) rp) as Hok by (rewrite fc_r0, !Forall_app in HP; apply HP).
  assert (agrees W (frames rd ++ frames rp ++ frames rf)) as Hag.
  { pose proof (stream_agrees wd wp wf k) as Ha. rewrite <- fc_W0, <- fc_w0, fc_r0 in Ha. by rewrite !frames_app in Ha. }
  destruct (ibv_serve_reads_ok qp (fl_rq f) rp (frames rf) k' (fl_inbox f) t N X W (frames rd) acks
    (fc_inbox0 (fc_initR0 Hest)) Hok fc_rq0 fc_t0 Hag)
    as (d & rq' & k2 & evs & rb' & t' & acks' & lens & He & Hd & Hi' & Hq' & Ht' & Hpos & Htk & Hfn' & Hsm & Hst).
  destruct (read_fns_seq (fl_rq f) (length rd) d (length rp) fc_rfn0 Hd) as [Hrl Hrf].
  assert (length (rd ++ take d rp) = length rd + d)%nat as Hlk by (rewrite length_app, length_take; lia).
  rewrite app_assoc, <- frames_app in Htk.
  eexists rq', evs, _, acks', (Z.of_nat <$> lens), rb'. split; [exact He|]. split; [exact Hsm|].
  exists W, A, t', N, X, wd, wp, wf, (rd ++ take d rp), (drop d rp), rf, k, k2. split; [|split].
  - split; simpl; try done.
    + by rewrite <- app_assoc, (app_assoc (take d rp)), take_drop.
    + rewrite Hlk, length_drop. lia.
    + by rewrite Hlk, length_drop, Hfn', Hrf.
    + rewrite Hlk, fc_rlog0, Hrl, seq_app. symmetry. apply read_calls_app. apply length_seq.
    + split; [by apply inbox_t in Hi' | apply fc_le0].
    + eapply lengths_app; [exact fc_acks0|]. exists lens. by split_and!.
    + congruence.
  - intros He'. exact (Hw He').
  - intros _. exact Hst.
Qed.

(** *** Requests of the users *)

Lemma finv_new_write f p : finv f -> P !! fl_nsent f = Some p ->
  finvW (f <| fl_wq ::= fun q => q ++ [new_write p (fl_nsent f)] |> <| fl_nsent ::= S |>).
Proof.
  intros (W & A & t & N & X & wd & wp & wf & rd & rp & rf & k & k' & [] & Hw & Hr) Hp.
  destruct (queue_next P wd wp wf p _ fc_w0 fc_nsent0 Hp) as (wf' & -> & HPe).
  assert (wp = [] -> k = 0%nat) as Hc0 by (intros ->; by destruct (fl_wq f)).
  exists W, A, t, N, X, wd, (wp ++ [p]), wf', rd, rp, rf, k, k'. split; [|done]. split; simpl; try done.
  - rewrite length_app, fc_nsent0. simpl. lia.
  - apply wq_rel_snoc; [done | apply new_write_fresh].
  - rewrite fmap_app, fc_wfn0, length_app, seq_app. simpl. by rewrite new_write_fn, fc_nsent0.
  - by rewrite part_snoc.
Qed.

Lemma finv_new_read f p rq : finv f -> P !! fl_nread f = Some p -> rd_fresh (new_read rq (fl_nread f)) p ->
  finvR (f <| fl_rq ::= fun q => q ++ [new_read rq (fl_nread f)] |> <| fl_nread ::= S |>).
Proof.
  intros (W & A & t & N & X & wd & wp & wf & rd & rp & rf & k & k' & [] & Hw & Hr) Hp Hfr.
  destruct (queue_next P rd rp rf p _ fc_r0 fc_nread0 Hp) as (rf' & -> & HPe).
  assert (rp = [] -> k' = 0%nat) as Hc0 by (intros ->; by destruct (fl_rq f)).
  exists W, A, t, N, X, wd, wp, wf, rd, (rp ++ [p]), rf', k, k'. split; [|done]. split; simpl; try done.
  - rewrite length_app, fc_nread0. simpl. lia.
  - by apply rq_rel_snoc.
  - rewrite fmap_app, fc_rfn0, length_app, seq_app. simpl. by rewrite new_read_fn, fc_nread0.
  - by rewrite part_snoc.
Qed.

(** *** The handshake *)

Lemma fcore_quietS f W A t N X wd wp wf rd rp rf k k' :
  fcore f W A t N X wd wp wf rd rp rf k k' -> fl_estS f = false -> W = [] /\ A = 0%nat /\ t = 0%nat /\ N = 0%nat /\ X = 0%nat /\ fl_wr f = [].
Proof.
  intros [] He. destruct (fc_idleS0 He) as [-> ->]. assert (part wp 0 = []) as Hp0 by (by destruct wp).
  rewrite Hp0 in fc_W0. simpl in fc_W0. subst W. simpl in *. apply lengths_le in fc_acks0, fc_no0.
  assert (X = 0%nat) as -> by lia. split_and!; [done | lia..|].
  destruct (fl_wr f) as [|i l]; [done|]. destruct fc_wr0 as (n & _ & Hn & _ & Hc). apply covers_le in Hc. lia.
Qed.

Lemma fcore_quietR f W A t N X wd wp wf rd rp rf k k' :
  fcore f W A t N X wd wp wf rd rp rf k k' -> fl_estR f = false -> A = 0%nat /\ t = 0%nat /\ N = 0%nat /\ X = 0%nat.
Proof.
  intros [] He. destruct (fc_idleR0 He) as (_ & _ & ->). apply lengths_le in fc_acks0, fc_no0. lia.
Qed.

Lemma finv_route f r : finv f -> fl_estS f = false -> finv (f <| fl_route := r |>).
Proof.
  intros (W & A & t & N & X & wd & wp & wf & rd & rp & rf & k & k' & Hc & Hw & Hr) He.
  destruct (fcore_quietS _ _ _ _ _ _ _ _ _ _ _ _ _ _ Hc He) as (-> & -> & -> & -> & -> & Hwr).
  exists [], 0%nat, 0%nat, 0%nat, 0%nat, wd, wp, wf, rd, rp, rf, k, k'. split; [|done].
  destruct Hc. split; try done. simpl. by rewrite Hwr.
Qed.

Lemma finv_initS f rb : finv f -> fl_estS f = false -> outbox_inv rb 0 [] ->
  finv (f <| fl_initS := true |> <| fl_outbox := rb |>).
Proof.
  intros (W & A & t & N & X & wd & wp & wf & rd & rp & rf & k & k' & Hc & Hw & Hr) He Ho.
  destruct (fcore_quietS _ _ _ _ _ _ _ _ _ _ _ _ _ _ Hc He) as (-> & -> & -> & -> & -> & Hwr).
  exists [], 0%nat, 0%nat, 0%nat, 0%nat, wd, wp, wf, rd, rp, rf, k, k'. split; [|done].
  destruct Hc. by split.
Qed.

Lemma finv_initR f rb : finv f -> fl_estR f = false -> inbox_inv rb 0 0 0 [] ->
  finv (f <| fl_initR := true |> <| fl_inbox := rb |>).
Proof.
  intros (W & A & t & N & X & wd & wp & wf & rd & rp & rf & k & k' & Hc & Hw & Hr) He Hi.
  destruct (fcore_quietR _ _ _ _ _ _ _ _ _ _ _ _ _ _ Hc He) as (-> & -> & -> & ->).
  exists W, 0%nat, 0%nat, 0%nat, 0%nat, wd, wp, wf, rd, rp, rf, k, k'. split; [|done].
  destruct Hc. split; try done. intros _. eapply inbox_more; [exact Hi | by exists W].
Qed.

Lemma finv_estS f : finv f -> fl_initS f = true -> finvW (f <| fl_estS := true |>).
Proof.
  intros (W & A & t & N & X & wd & wp & wf & rd & rp & rf & k & k' & Hc & Hw & Hr) He.
  exists W, A, t, N, X, wd, wp, wf, rd, rp, rf, k, k'. split; [|done]. by destruct Hc.
Qed.

Lemma finv_estR f : finv f -> fl_initR f = true -> finvR (f <| fl_estR := true |>).
Proof.
  intros (W & A & t & N & X & wd & wp & wf & rd & rp & rf & k & k' & Hc & Hw & Hr) He.
  exists W, A, t, N, X, wd, wp, wf, rd, rp, rf, k, k'. split; [|done]. by destruct Hc.
Qed.

(** *** What is in progress *)

(** A remote write is within both rings, and what it copies is what was written. *)
Lemma finv_transfer f i rest : finv f -> fl_wr f = i :: rest -> fl_estR f = true ->
  exists q n, i = write_at (fl_route f) q n /\ 0 < n <= kBufferSize /\ q mod kBufferSize + n <= kBufferSize /\
    let b := mkBuffer (Some (q mod kBufferSize)) n in
    finv (f <| fl_wr := rest |> <| fl_no ::= fun l => l ++ [n] |>
            <| fl_inbox ::= fun rb => rb <| data_ ::= copyIn b (copyOut b (data_ (fl_outbox f))) |> |>).
Proof.
  intros (W & A & t & N & X & wd & wp & wf & rd & rp & rf & k & k' & Hc & Hw & Hr) Hwr He. pose proof Hc as [].
  rewrite Hwr in fc_wr0. destruct fc_wr0 as (nz & -> & Hn & Hfit & Hcov). apply covers_le in Hcov as Hle.
  destruct fc_le0 as (HtN & HXW & Hcap). pose proof (lengths_le _ _ _ fc_acks0) as HAt. pose proof (lengths_le _ _ _ fc_no0) as HNX.
  assert (fl_estS f = true) as HeS.
  { apply not_false_iff_true. intros E. destruct (fcore_quietS _ _ _ _ _ _ _ _ _ _ _ _ _ _ Hc E) as (-> & _ & _ & _ & -> & _). simpl in *. lia. }
  exists (Z.of_nat X), nz. split; [done|]. split.
  { pose proof (Z.mod_pos_bound (Z.of_nat X) kBufferSize ltac:(done)). lia. }
  split; [done|]. cbv zeta. set (n := Z.to_nat nz). replace nz with (Z.of_nat n) in * by lia.
  rewrite (outbox_bytes _ A W X n (fc_outbox0 (fc_initS0 HeS))) by lia.
  exists W, A, t, N, (X + n)%nat, wd, wp, wf, rd, rp, rf, k, k'. split; [|done]. split; try done.
  - intros Hi. apply inbox_store; [by apply fc_inbox0 | lia | unfold kBufferSize in *; lia | done].
  - simpl. lia.
  - simpl. eapply lengths_app; [exact fc_no0|]. exists [n]. split; [done|]. split; [repeat constructor; lia | simpl; lia].
  - simpl. by rewrite Nat2Z.inj_add.
  - simpl. congruence.
Qed.

(** The receiver is told about bytes that arrived. *)
Lemma finv_data f x rest : finv f -> fl_no f = x :: rest ->
  fl_estR f = true /\
  exists rb', advance_marker kNumInboxRingbufferRoles InboxIbvRecver x (fl_inbox f) = Done rb' /\
    finvR (f <| fl_no := rest |> <| fl_inbox := rb' |>).
Proof.
  intros (W & A & t & N & X & wd & wp & wf & rd & rp & rf & k & k' & Hc & Hw & Hr) Hno. pose proof Hc as [].
  rewrite Hno in fc_no0. apply lengths_cons in fc_no0 as (n & -> & Hn & Hl). pose proof (lengths_le _ _ _ Hl) as Hle.
  assert (fl_estR f = true) as HeR.
  { apply not_false_iff_true. intros E. destruct (fc_idleR0 E) as (_ & _ & ->). lia. }
  split; [done|]. destruct (inbox_recv _ _ _ _ _ n (fc_inbox0 (fc_initR0 HeR)) Hle) as (rb' & Ha & Hi).
  exists rb'. split; [done|]. exists W, A, t, (N + n)%nat, X, wd, wp, wf, rd, rp, rf, k, k'. split; [|done].
  split; try done. simpl. lia.
Qed.

(** The sender is told about bytes that were consumed. *)
Lemma finv_ack f x rest : finv f -> fl_acks f = x :: rest ->
  exists rb', advance_marker kNumOutboxRingbufferRoles OutboxIbvAcker x (fl_outbox f) = Done rb' /\
    finvW (f <| fl_acks := rest |> <| fl_outbox := rb' |>).
Proof.
  intros (W & A & t & N & X & wd & wp & wf & rd & rp & rf & k & k' & Hc & Hw & Hr) Hac. pose proof Hc as [].
  rewrite Hac in fc_acks0. apply lengths_cons in fc_acks0 as (n & -> & Hn & Hl). pose proof (lengths_le _ _ _ Hl) as Hle.
  pose proof (lengths_le _ _ _ fc_no0) as HNX. destruct fc_le0 as (HtN & HXW & Hcap).
  assert (fl_estS f = true) as HeS.
  { apply not_false_iff_true. intros E. destruct (fcore_quietS _ _ _ _ _ _ _ _ _ _ _ _ _ _ Hc E) as (_ & _ & -> & _). lia. }
  destruct (outbox_ack _ A W n (fc_outbox0 (fc_initS0 HeS))) as (rb' & Ha & Ho); [lia|].
  exists rb'. split; [done|]. exists W, (A + n)%nat, t, N, X, wd, wp, wf, rd, rp, rf, k, k'. split; [|done].
  split; try done. lia.
Qed.

(** *** What the invariant says *)

Lemma fcore_causal f W A t N X wd wp wf rd rp rf k k' :
  fcore f W A t N X wd wp wf rd rp rf k k' -> (length rd <= length wd)%nat.
Proof.
  intros []. destruct (decide (length rd <= length wd)%nat) as [|Hgt]; [done|exfalso].
  apply lengths_le in fc_no0. destruct fc_le0 as (HtN & HXW & _).
  assert (wd `prefix_of` rd) as [ext Hext].
  { apply (prefix_shorter _ _ P); [by eexists | by eexists | lia]. }
  destruct ext as [|p ext]; [rewrite Hext, app_nil_r in Hgt; lia|].
  assert (exists rest, wp ++ wf = p :: rest) as [rest Hrest].
  { rewrite fc_w0, Hext, <- app_assoc in fc_r0. apply app_inv_head in fc_r0. rewrite fc_r0. by eexists. }
  pose proof (part_lt _ _ _ _ _ _ fc_wq0 Hrest) as Hlt.
  apply (f_equal length) in fc_t0. rewrite length_take, Hext, frames_app, frames_cons in fc_t0.
  rewrite fc_W0 in fc_t0, HXW. rewrite !length_app in *. lia.
Qed.

(** Callbacks are called in order, once each, and reads get what was written. *)
Lemma finv_delivery f : finv f -> exists m m',
  (m' <= m <= fl_nsent f)%nat /\ (m' <= fl_nread f)%nat /\
  fl_wlog f = (fun i => mkWriteCall i kSuccess) <$> seq 0 m /\ fl_rlog f = read_calls (seq 0 m') (take m' P).
Proof.
  intros (W & A & t & N & X & wd & wp & wf & rd & rp & rf & k & k' & Hc & _ & _).
  pose proof (fcore_causal _ _ _ _ _ _ _ _ _ _ _ _ _ _ Hc). destruct Hc.
  exists (length wd), (length rd). split; [lia|]. split; [lia|]. split; [done|]. by rewrite fc_r0, take_app_length.
Qed.

(** With both ends established and nothing in progress, everything that was both
    sent and asked for has been delivered, and what is delivered is acknowledged. *)
Lemma finv_quiescent f :
  finv f -> fl_estS f = true -> fl_estR f = true -> fl_wr f = [] -> fl_no f = [] -> fl_acks f = [] ->
  length (fl_rlog f) = (fl_nsent f `min` fl_nread f)%nat /\
  ((fl_nsent f <= fl_nread f)%nat -> length (fl_wlog f) = fl_nsent f).
Proof.
  intros (W & A & t & N & X & wd & wp & wf & rd & rp & rf & k & k' & Hc & Hw & Hr) HS HR Hwr Hno Hac.
  pose proof (fcore_causal _ _ _ _ _ _ _ _ _ _ _ _ _ _ Hc) as Hcaus.
  specialize (Hw HS). specialize (Hr HR). destruct Hc.
  rewrite Hac in fc_acks0. apply lengths_nil_inv in fc_acks0 as ->. rewrite Hno in fc_no0. apply lengths_nil_inv in fc_no0 as ->.
  rewrite Hwr in fc_wr0. simpl in fc_wr0. apply Nat2Z.inj in fc_wr0 as ->. rewrite firstn_all in Hr.
  assert (rp = [] \/ (length rd = length wd /\ wp = [])) as Hcase.
  { eapply (quiescent_cases kBufferSize (fl_wq f) (fl_rq f) W t wd wp wf rd rp rf k k' _ kBufferSize); try done.
    - by rewrite <- fc_w0.
    - lia.
    - rewrite fc_r0, !Forall_app in HP. apply HP. }
  rewrite fc_rlog0, fc_wlog0. unfold read_calls. rewrite length_zip_with, length_fmap, !length_seq.
  destruct Hcase as [->|[He ->]]; simpl in *; lia.
Qed.
End direction.
