(* ===== verification/IbvPair.v ===== *)
(** * The InfiniBand transport end to end

    Two connections of [IbvConnection], joined by a socket (over which they tell
    each other where their inboxes are) and by a pair of connected queue pairs.  The
    users write and read, the sockets become ready, the library carries out remote
    writes and acknowledgements, each in the order they were posted, and reports
    completions, in any order.  The handlers are those of the code; a remote write
    copies bytes from the memory of one end to that of the other, and is refused if
    it is not within the two regions registered for it.

    That requests are posted in the order in which a connection makes them is what
    [IbvReactor] shows of the reactor. *)

From S2P Require Import Prelude System RingBuffer RingBufferTx Nop RingbufferOps RingbufferQueues IbvReactor.
From S2P Require Import IbvConnection IbvRings IbvFlow.

(** One end: [sd_wr] are its remote writes in progress, [sd_no] the lengths of those
    carried out and not yet reported to the peer, [sd_acks] its acknowledgements
    that have not been reported to the peer, [sd_wdone] and [sd_adone] how many
    completions are still to be reported to itself. *)
Record side {T : Type} := mkSide {
  sd_ep : endpoint T;
  sd_ex : option Exchange;            (* what it has sent over the socket *)
  sd_wr : list WriteInfo;
  sd_no : list Z;
  sd_acks : list Z;
  sd_wdone : nat;
  sd_adone : nat;
  sd_log : list (event T);
  sd_sent : nat;                      (* requests made so far *)
  sd_asked : nat;
}.
Arguments side T : clear implicits.
#[export] Instance eta_side {T} : Eta (side T) := fun s =>
  mkSide T (sd_ep s) (sd_ex s) (sd_wr s) (sd_no s) (sd_acks s) (sd_wdone s) (sd_adone s) (sd_log s) (sd_sent s) (sd_asked s).

Definition pair (T : Type) : Type := side T * side T.
Definition flip_pair {T} (w : pair T) : pair T := (w.2, w.1).

Section pair.
Context {T : Type} `{NopEncodingLaws T}.

Definition conn (s : side T) : ConnectionImpl T := ep_conn (sd_ep s).

(** An end after one of its handlers. *)
Definition commit (s : side T) (e : endpoint T) (evs : list (event T)) : side T :=
  mkSide T e (match last (sent_of evs) with Some ex => Some ex | None => sd_ex s end)
    (sd_wr s ++ posts_of evs) (sd_no s) (sd_acks s ++ acks_of evs) (sd_wdone s) (sd_adone s + length (acks_of evs))
    (sd_log s ++ evs) (sd_sent s) (sd_asked s).

Definition run (r : outcome (endpoint T * list (event T))) (a b : side T) : outcome (pair T) :=
  '(e, evs) ← r; Done (commit a e evs, b).

Definition in_region (base addr len : Z) : bool := (base <=? addr) && (addr + len <=? base + kBufferSize).

(** The library carries out a remote write of [a] into the inbox of [b]. *)
Definition rdma_write (i : WriteInfo) (a b : side T) : outcome (side T) :=
  _ ← tp_check (in_region (cn_outboxPtr (conn a)) (wi_addr i) (wi_length i) && (wi_lkey i =? cn_outboxLkey (conn a)));
  _ ← tp_check (in_region (cn_inboxPtr (conn b)) (wi_remoteAddr i) (wi_length i) && (wi_rkey i =? cn_inboxRkey (conn b)));
  let bytes := copyOut (mkBuffer (Some (wi_addr i - cn_outboxPtr (conn a))) (wi_length i)) (data_ (ep_outbox (sd_ep a))) in
  Done (b <| sd_ep := sd_ep b <| ep_inbox ::= fun rb => rb <| data_ ::=
    copyIn (mkBuffer (Some (wi_remoteAddr i - cn_inboxPtr (conn b))) (wi_length i)) bytes |> |> |>).

Inductive act :=
| ActInit (qp inboxPtr inboxRkey outboxPtr outboxLkey : Z)   (* [initFromLoop] *)
| ActOut (info : Z)                 (* the socket is writable *)
| ActIn                             (* what the peer has sent over the socket arrived *)
| ActWrite                          (* the user writes the next message *)
| ActRead (rq : read_request)       (* the user asks for the next message *)
| ActTransfer                       (* the library carries out the next remote write *)
| ActData                           (* it reports one of the peer's *)
| ActAck                            (* it reports an acknowledgement of the peer *)
| ActWriteDone                      (* it reports that a write of this end is done *)
| ActAckDone.

Definition all_well (qp ip ik op ok : Z) : init_env := mkInitEnv false kSuccess kSuccess kSuccess kSuccess ip ik op ok qp.

(** A region of memory is within the address space. *)
Definition region_ok (ptr : Z) : bool := (0 <=? ptr) && (ptr + kBufferSize <=? 2 ^ 64).

(** [None] when the action is not possible.  [Pab] and [Pba] are the messages to send
    in each direction. *)
Definition act_a (Pab Pba : list (payload T)) (x : act) (w : pair T) : option (outcome (pair T)) :=
  let '(a, b) := w in
  match x with
  | ActInit qp ip ik op ok =>
      if decide (cn_state_ (conn a) = INITIALIZING) then
        if region_ok ip && region_ok op then Some (run (initFromLoop (all_well qp ip ik op ok) (sd_ep a)) a b) else None
      else None
  | ActOut info =>
      if decide (cn_state_ (conn a) = SEND_ADDR) then Some (run (handleEventOutFromLoop info kExchangeSize (sd_ep a)) a b) else None
  | ActIn =>
      match cn_state_ (conn a), sd_ex b with
      | RECV_ADDR, Some ex => Some (run (handleEventInFromLoop (inr ex) (sd_ep a)) a b)
      | _, _ => None
      end
  | ActWrite =>
      match Pab !! sd_sent a with
      | Some p => Some (run (writeFromLoop p (sd_sent a) (sd_ep a)) (a <| sd_sent ::= S |>) b)
      | None => None
      end
  | ActRead rq =>
      match Pba !! sd_asked a with
      | Some p =>
          if read_fits rq p then Some (run (readFromLoop rq (sd_asked a) (sd_ep a)) (a <| sd_asked ::= S |>) b) else None
      | None => None
      end
  | ActTransfer =>
      match cn_state_ (conn b), sd_wr a with
      | ESTABLISHED, i :: rest =>
          Some (b ← rdma_write i a b;
                Done (a <| sd_wr := rest |> <| sd_no ::= fun l => l ++ [u32 (wi_length i)] |> <| sd_wdone ::= S |>, b))
      | _, _ => None
      end
  | ActData =>
      match sd_no b with
      | n :: rest => Some (run (on_completion (RemoteProducedData n) (sd_ep a)) a (b <| sd_no := rest |>))
      | [] => None
      end
  | ActAck =>
      match sd_acks b with
      | n :: rest => Some (run (on_completion (RemoteConsumedData n) (sd_ep a)) a (b <| sd_acks := rest |>))
      | [] => None
      end
  | ActWriteDone =>
      match sd_wdone a with
      | S n => Some (run (on_completion WriteCompleted (sd_ep a)) (a <| sd_wdone := n |>) b)
      | O => None
      end
  | ActAckDone =>
      match sd_adone a with
      | S n => Some (run (on_completion AckCompleted (sd_ep a)) (a <| sd_adone := n |>) b)
      | O => None
      end
  end.

Inductive pair_step (Pab Pba : list (payload T)) : pair T -> pair T -> Prop :=
| ps_a x w w' : act_a Pab Pba x w = Some (Done w') -> pair_step Pab Pba w w'
| ps_b x w w' : act_a Pba Pab x (flip_pair w) = Some (Done w') -> pair_step Pab Pba w (flip_pair w').

(** One end was given a socket by its listener, the other one connects. *)
Definition empty_ring : RingBuffer := mkRb (mkHeader 0 0 [] []) [].
Definition new_side (hasSocket : bool) : side T :=
  mkSide T (mkEndpoint (newConnection hasSocket) empty_ring empty_ring) None [] [] [] 0 0 [] 0 0.
Definition initial_pair : pair T := (new_side true, new_side false).

Definition pair_reachable (Pab Pba : list (payload T)) (w : pair T) : Prop :=
  rtc (pair_step Pab Pba) initial_pair w.

(** ** The direction from [a] to [b] *)

Definition ready (s : side T) : bool := negb (bool_decide (cn_state_ (conn s) = INITIALIZING)).
Definition established (s : side T) : bool := bool_decide (cn_state_ (conn s) = ESTABLISHED).

Definition flow_of (a b : side T) : flow T :=
  mkFlow T (ready a) (ready b) (established a) (established b) (ep_outbox (sd_ep a)) (ep_inbox (sd_ep b))
    (cn_peerInboxHead_ (conn a)) (route_of (conn a)) (sd_wr a) (sd_no a) (sd_acks b)
    (cn_writeOperations_ (conn a)) (cn_readOperations_ (conn b)) (sd_sent a) (sd_asked b)
    (writes_of (sd_log a)) (reads_of (sd_log b)).

(** The state of the handshake at end [a]. *)
Definition sent_addr (s : IbvState) : bool := match s with RECV_ADDR | ESTABLISHED => true | _ => false end.

Record hs (a b : side T) : Prop := {
  hs_error : cn_error_ (conn a) = kSuccess;
  hs_qp : cn_state_ (conn a) <> INITIALIZING -> exists qp, cn_qp_ (conn a) = Some qp;
  hs_regions : cn_state_ (conn a) <> INITIALIZING ->
    region_ok (cn_inboxPtr (conn a)) = true /\ region_ok (cn_outboxPtr (conn a)) = true;
  hs_ex : if sent_addr (cn_state_ (conn a)) then
      exists info, sd_ex a = Some (mkExchange info (cn_inboxPtr (conn a)) (cn_inboxRkey (conn a)))
    else sd_ex a = None;
  hs_peer : cn_state_ (conn a) = ESTABLISHED -> exists ex, sd_ex b = Some ex /\
    cn_peerInboxPtr_ (conn a) = memoryRegionPtr ex /\ cn_peerInboxKey_ (conn a) = memoryRegionKey ex;
  hs_count : u32 (cn_numWritesInFlight_ (conn a)) = cn_numWritesInFlight_ (conn a);
}.

Definition pinv (Pab Pba : list (payload T)) (w : pair T) : Prop :=
  let '(a, b) := w in hs a b /\ hs b a /\ finv Pab (flow_of a b) /\ finv Pba (flow_of b a).

Lemma ibv_pinv_flip Pab Pba w : pinv Pab Pba w -> pinv Pba Pab (flip_pair w).
Proof. destruct w as [a b]. by intros (H1 & H2 & H3 & H4). Qed.

Lemma ibv_flip_flip (w : pair T) : flip_pair (flip_pair w) = w.
Proof. by destruct w. Qed.

(** ** Rounds *)

Lemma run_done e evs a b : run (Done (e, evs)) a b = Done (commit a e evs, b).
Proof. done. Qed.

Lemma ibv_commit_nil s : commit s (sd_ep s) [] = s.
Proof. destruct s. unfold commit. simpl. by rewrite !app_nil_r, Nat.add_0_r. Qed.

Lemma ibv_commit_commit s e1 evs1 e2 evs2 : commit (commit s e1 evs1) e2 evs2 = commit s e2 (evs1 ++ evs2).
Proof.
  unfold commit, posts_of, acks_of, sent_of. simpl. rewrite !omap_app, <- !app_assoc, length_app, Nat.add_assoc.
  f_equal. destruct (omap _ evs2) as [|x l] eqn:E using rev_ind; [by rewrite app_nil_r|]. by rewrite app_assoc, !last_snoc.
Qed.

(** Handlers that keep the handshake. *)
Record quiet (c c' : ConnectionImpl T) : Prop := {
  qt_error : cn_error_ c' = cn_error_ c;
  qt_state : cn_state_ c' = cn_state_ c;
  qt_qp : cn_qp_ c' = cn_qp_ c;
  qt_in : cn_inboxPtr c' = cn_inboxPtr c /\ cn_inboxRkey c' = cn_inboxRkey c /\ cn_outboxPtr c' = cn_outboxPtr c;
  qt_peer : cn_peerInboxPtr_ c' = cn_peerInboxPtr_ c /\ cn_peerInboxKey_ c' = cn_peerInboxKey_ c;
  qt_count : u32 (cn_numWritesInFlight_ c) = cn_numWritesInFlight_ c -> u32 (cn_numWritesInFlight_ c') = cn_numWritesInFlight_ c';
}.

Lemma hs_quiet a b a' b' : hs a b -> quiet (conn a) (conn a') -> sd_ex a' = sd_ex a -> sd_ex b' = sd_ex b -> hs a' b'.
Proof.
  intros [] [Q1 Q2 Q3 (Q4 & Q5 & Q6) (Q7 & Q8) Q9] Ea Eb.
  split; rewrite ?Q1, ?Q2, ?Q3, ?Q4, ?Q5, ?Q6, ?Q7, ?Q8, ?Ea, ?Eb; auto.
Qed.

Lemma hs_peer_quiet a b a' b' : hs b a -> sd_ex a' = sd_ex a -> sd_ex b' = sd_ex b -> conn b' = conn b -> hs b' a'.
Proof. intros [] Ea Eb Ec. split; rewrite ?Ec, ?Ea, ?Eb; auto. Qed.

Lemma u32_u32 z : u32 (u32 z) = u32 z.
Proof. apply wrap_small, wrap_range. lia. Qed.

Lemma quiet_posted c q n wq : quiet c (posted c q n <| cn_writeOperations_ := wq |>).
Proof. split; try done. intros _. simpl. apply u32_u32. Qed.

Section rounds.
Context (Pab Pba : list (payload T)) (a b : side T).
Hypothesis HPab : Forall (payload_ok kBufferSize) Pab.
Hypothesis HPba : Forall (payload_ok kBufferSize) Pba.
Hypothesis Ha : hs a b.
Hypothesis Hb : hs b a.

Lemma ibv_write_round :
  finvW Pab (flow_of a b) ->
  exists e evs, processWriteOperationsFromLoop (sd_ep a) = Done (e, evs) /\
    hs (commit a e evs) b /\ hs b (commit a e evs) /\ finv Pab (flow_of (commit a e evs) b) /\
    flow_of b (commit a e evs) = flow_of b a.
Proof.
  intros Hf. unfold processWriteOperationsFromLoop. change (ep_conn (sd_ep a)) with (conn a).
  destruct (bool_decide_reflect (cn_state_ (conn a) = ESTABLISHED)) as [He|He].
  2:{ exists (sd_ep a), []. rewrite ibv_commit_nil. split_and!; try done. apply finvW_idle; [done|]. simpl. by apply bool_decide_eq_false. }
  cbn [negb]. destruct (cn_writeOperations_ (conn a)) as [|o wq] eqn:Hwq.
  { exists (sd_ep a), []. rewrite ibv_commit_nil. split_and!; try done. by apply finvW_empty. }
  rewrite <- Hwq. clear o wq Hwq. destruct (hs_qp _ _ Ha) as [qp Hqp]; [by rewrite He|].
  pose proof (finv_serve_w Pab HPab qp (conn a) (flow_of a b) Hf) as Hsv. simpl in Hsv.
  destruct Hsv as (wq' & evs & infos & wrs & rb' & q & Hs & [S1 S2 S3 S4 S5] & Hf'); [by apply bool_decide_eq_true | done | apply Ha | done |].
  unfold get_qp. rewrite Hqp, bind_done, Hs, bind_done. eexists _, evs. split; [done|].
  split_and!.
  - eapply hs_quiet; [exact Ha | exact (quiet_posted _ q (length infos) wq') | simpl; by rewrite S5 | done].
  - eapply hs_peer_quiet; [exact Hb | simpl; by rewrite S5 | done | done].
  - refine (finv_eq _ _ _ Hf' _).
    apply flow_ext; try reflexivity; [by rewrite <- S3|].
    rewrite <- S2. symmetry. exact (ibv_writes_of_app (sd_log a) evs).
  - apply flow_ext; try reflexivity.
    + change (sd_acks a ++ acks_of evs = sd_acks a). by rewrite S4, app_nil_r.
    + change (reads_of (sd_log a ++ evs) = reads_of (sd_log a)). by apply reads_of_none.
Qed.

Lemma ibv_read_round :
  finvR Pba (flow_of b a) ->
  exists e evs, processReadOperationsFromLoop (sd_ep a) = Done (e, evs) /\
    hs (commit a e evs) b /\ hs b (commit a e evs) /\ finv Pba (flow_of b (commit a e evs)) /\
    flow_of (commit a e evs) b = flow_of a b.
Proof.
  intros Hf. unfold processReadOperationsFromLoop. change (ep_conn (sd_ep a)) with (conn a).
  destruct (bool_decide_reflect (cn_state_ (conn a) = ESTABLISHED)) as [He|He].
  2:{ exists (sd_ep a), []. rewrite ibv_commit_nil. split_and!; try done. apply finvR_idle; [done|]. simpl. by apply bool_decide_eq_false. }
  cbn [negb]. destruct (cn_readOperations_ (conn a)) as [|o rq] eqn:Hrq.
  { exists (sd_ep a), []. rewrite ibv_commit_nil. split_and!; try done. by apply finvR_empty. }
  rewrite <- Hrq. clear o rq Hrq. destruct (hs_qp _ _ Ha) as [qp Hqp]; [by rewrite He|].
  pose proof (finv_serve_r Pba HPba qp (cn_numAcksInFlight_ (conn a)) (flow_of b a) Hf) as Hsv. simpl in Hsv.
  destruct Hsv as (rq' & evs & rds & acks' & ns & rb' & Hs & [S1 S2 S3 S4 S5] & Hf'); [by apply bool_decide_eq_true|].
  unfold get_qp. rewrite Hqp, bind_done, Hs, bind_done. eexists _, evs. split; [done|].
  split_and!.
  - eapply hs_quiet; [exact Ha | by split | simpl; by rewrite S5 | done].
  - eapply hs_peer_quiet; [exact Hb | simpl; by rewrite S5 | done | done].
  - refine (finv_eq _ _ _ Hf' _).
    apply flow_ext; try reflexivity; [by rewrite <- S4|].
    rewrite <- S1. symmetry. exact (ibv_reads_of_app (sd_log a) evs).
  - apply flow_ext; try reflexivity.
    + change (sd_wr a ++ posts_of evs = sd_wr a). by rewrite S3, app_nil_r.
    + change (writes_of (sd_log a ++ evs) = writes_of (sd_log a)). by apply writes_of_none.
Qed.
End rounds.

(** ** Every action can be carried out and keeps the invariant *)

Lemma init_with (s : side T) rb qp ip ik op ok :
  newRingBuffer kNumInboxRingbufferRoles kBufferSize = Done rb ->
  newRingBuffer kNumOutboxRingbufferRoles kBufferSize = Done (widen 0 rb) ->
  initFromLoop (all_well qp ip ik op ok) (sd_ep s) =
    Done (mkEndpoint (conn s <| cn_socket_ := true |> <| cn_inboxPtr := ip |> <| cn_inboxRkey := ik |> <| cn_outboxPtr := op |>
        <| cn_outboxLkey := ok |> <| cn_qp_ := Some qp |> <| cn_state_ := SEND_ADDR |>) rb (widen 0 rb),
      [EvEnroll; EvQpInit qp; EvRegisterQp qp; EvRegister false]).
Proof.
  intros Hi Ho. unfold initFromLoop, initImplFromLoop.
  cbn [all_well ie_contextClosed ie_create ie_reuse ie_connect ie_block ie_inboxPtr ie_inboxRkey ie_outboxPtr ie_outboxLkey ie_qp is_error].
  rewrite !andb_false_r, Hi, bind_done, Ho, bind_done. reflexivity.
Qed.

Section actions.
Context (Pab Pba : list (payload T)) (a b : side T).
Hypothesis HPab : Forall (payload_ok kBufferSize) Pab.
Hypothesis HPba : Forall (payload_ok kBufferSize) Pba.
Hypothesis Hw : pinv Pab Pba (a, b).

(** What is to be shown of the result of an action. *)
Definition goes_on (r : outcome (pair T)) : Prop := exists w', r = Done w' /\ pinv Pab Pba w'.

Lemma goes_on_run e evs :
  hs (commit a e evs) b -> hs b (commit a e evs) -> finv Pab (flow_of (commit a e evs) b) ->
  finv Pba (flow_of b (commit a e evs)) -> goes_on (run (Done (e, evs)) a b).
Proof. intros H1 H2 H3 H4. eexists. split; [apply run_done|]. done. Qed.

Lemma ibv_act_init_ok qp ip ik op ok :
  cn_state_ (conn a) = INITIALIZING -> region_ok ip = true -> region_ok op = true ->
  goes_on (run (initFromLoop (all_well qp ip ik op ok) (sd_ep a)) a b).
Proof.
  destruct Hw as (Ha & Hb & Hf1 & Hf2). intros Hst Hip Hop.
  destruct new_rings as (rb & Hi' & Ho' & Hinv & Hsz & Hc & Hp). rewrite (init_with a rb) by assumption. clear Hi' Ho'.
  assert (outbox_inv (widen 0 rb) 0 []) as Ho by by exists rb.
  pose proof (inbox_new rb Hinv Hsz Hc Hp) as Hi. apply goes_on_run.
  - destruct Ha. rewrite Hst in *. split; simpl; try done; eauto.
  - by apply (hs_peer_quiet a b).
  - assert (fl_estS (flow_of a b) = false) as He by (simpl; apply bool_decide_eq_false; congruence).
    refine (finv_eq _ _ _ (finv_initS _ _ _ (finv_route _ _ (mkRoute op ok (cn_peerInboxPtr_ (conn a)) (cn_peerInboxKey_ (conn a))) Hf1 He) _ Ho) _); [done|].
    apply flow_ext; try reflexivity.
    + exact He.
    + change (sd_wr a = sd_wr a ++ []). by rewrite app_nil_r.
    + symmetry. refine (writes_of_none (sd_log a) _ _); reflexivity.
  - assert (fl_estR (flow_of b a) = false) as He by (simpl; apply bool_decide_eq_false; congruence).
    refine (finv_eq _ _ _ (finv_initR _ _ _ Hf2 He Hi) _). apply flow_ext; try reflexivity.
    + exact He.
    + change (sd_acks a = sd_acks a ++ []). by rewrite app_nil_r.
    + symmetry. refine (reads_of_none (sd_log a) _ _); reflexivity.
Qed.

Lemma ibv_act_out_ok info :
  cn_state_ (conn a) = SEND_ADDR -> goes_on (run (handleEventOutFromLoop info kExchangeSize (sd_ep a)) a b).
Proof.
  destruct Hw as (Ha & Hb & Hf1 & Hf2). intros Hst.
  destruct (hs_qp _ _ Ha) as [qp Hqp]; [by rewrite Hst|].
  assert (sd_ex a = None) as Hex by (pose proof (hs_ex _ _ Ha) as He; by rewrite Hst in He).
  unfold handleEventOutFromLoop. change (ep_conn (sd_ep a)) with (conn a). rewrite bool_decide_eq_true_2 by done.
  unfold get_qp. rewrite Hqp, bind_done. cbn [negb Z.eqb]. rewrite Z.eqb_refl. cbn [negb]. apply goes_on_run.
  - destruct Ha. rewrite Hst in *. split; simpl; try done; eauto.
  - destruct Hb. split; try done. intros He. destruct (hs_peer0 He) as (ex & Hex' & _). congruence.
  - refine (finv_eq _ _ _ Hf1 _). apply flow_ext; try reflexivity.
    + simpl. unfold ready. by rewrite Hst.
    + simpl. unfold established. by rewrite Hst.
    + change (sd_wr a = sd_wr a ++ []). by rewrite app_nil_r.
    + symmetry. refine (writes_of_none (sd_log a) _ _); reflexivity.
  - refine (finv_eq _ _ _ Hf2 _). apply flow_ext; try reflexivity.
    + simpl. unfold ready. by rewrite Hst.
    + simpl. unfold established. by rewrite Hst.
    + change (sd_acks a = sd_acks a ++ []). by rewrite app_nil_r.
    + symmetry. refine (reads_of_none (sd_log a) _ _); reflexivity.
Qed.

Lemma ibv_act_in_ok ex :
  cn_state_ (conn a) = RECV_ADDR -> sd_ex b = Some ex -> goes_on (run (handleEventInFromLoop (inr ex) (sd_ep a)) a b).
Proof.
  destruct Hw as (Ha & Hb & Hf1 & Hf2). intros Hst Hex.
  destruct (hs_qp _ _ Ha) as [qp Hqp]; [by rewrite Hst|].
  unfold handleEventInFromLoop. change (ep_conn (sd_ep a)) with (conn a). rewrite Hst. unfold get_qp. rewrite Hqp, bind_done.
  set (e1 := sd_ep a <| ep_conn := _ |>). set (a1 := a <| sd_ep := e1 |>).
  assert (hs a1 b) as Ha1.
  { destruct Ha. rewrite Hst in *. split; simpl; try done; eauto. }
  assert (hs b a1) as Hb1 by by apply (hs_peer_quiet a b).
  assert (finvW Pab (flow_of a1 b)) as Hf3.
  { assert (fl_estS (flow_of a b) = false) as He by (simpl; unfold established; by rewrite Hst).
    pose proof (finv_estS _ _ (finv_route _ _ (route_of (conn a1)) Hf1 He)) as Hf.
    assert (flow_of a1 b = flow_of a b <| fl_route := route_of (conn a1) |> <| fl_estS := true |>) as ->.
    { apply flow_ext; try reflexivity. simpl. unfold ready. by rewrite Hst. }
    apply Hf. simpl. unfold ready. by rewrite Hst. }
  destruct (ibv_write_round Pab a1 b HPab Ha1 Hb1 Hf3) as (e2 & evs1 & Hp1 & Ha2 & Hb2 & Hf4 & Hf5).
  change e1 with (sd_ep a1). rewrite Hp1, bind_done. set (a2 := commit a1 e2 evs1) in *.
  assert (finvR Pba (flow_of b a2)) as Hf6.
  { rewrite Hf5. assert (flow_of b a1 = flow_of b a <| fl_estR := true |>) as ->.
    { apply flow_ext; try reflexivity. simpl. unfold ready. by rewrite Hst. }
    apply finv_estR; [done|]. simpl. unfold ready. by rewrite Hst. }
  destruct (ibv_read_round Pba a2 b HPba Ha2 Hb2 Hf6) as (e3 & evs2 & Hp2 & Ha3 & Hb3 & Hf7 & Hf8).
  change e2 with (sd_ep a2). rewrite Hp2, bind_done.
  assert (commit a e3 (EvQpReady qp (setupInfo ex) :: evs1 ++ evs2) = commit a2 e3 evs2 <| sd_log := sd_log a ++ EvQpReady qp (setupInfo ex) :: evs1 ++ evs2 |>) as Hc.
  { unfold a2. rewrite ibv_commit_commit. reflexivity. }
  assert (writes_of (sd_log (commit a2 e3 evs2)) = writes_of (sd_log a ++ EvQpReady qp (setupInfo ex) :: evs1 ++ evs2)) as Hlw.
  { unfold a2. rewrite ibv_commit_commit. change (sd_log (commit a1 e3 (evs1 ++ evs2))) with (sd_log a ++ evs1 ++ evs2).
    rewrite !(ibv_writes_of_app (sd_log a)). f_equal. }
  assert (reads_of (sd_log (commit a2 e3 evs2)) = reads_of (sd_log a ++ EvQpReady qp (setupInfo ex) :: evs1 ++ evs2)) as Hlr.
  { unfold a2. rewrite ibv_commit_commit. change (sd_log (commit a1 e3 (evs1 ++ evs2))) with (sd_log a ++ evs1 ++ evs2).
    rewrite !(ibv_reads_of_app (sd_log a)). f_equal. }
  apply goes_on_run; rewrite Hc.
  - eapply hs_quiet; [exact Ha3 | by split | done..].
  - by eapply hs_peer_quiet; [exact Hb3|..].
  - rewrite <- Hf8 in Hf4. refine (finv_eq _ _ _ Hf4 _). apply flow_ext; try reflexivity. exact Hlw.
  - refine (finv_eq _ _ _ Hf7 _). apply flow_ext; try reflexivity. exact Hlr.
Qed.

Lemma ibv_act_write_ok p :
  Pab !! sd_sent a = Some p -> goes_on (run (writeFromLoop p (sd_sent a) (sd_ep a)) (a <| sd_sent ::= S |>) b).
Proof.
  destruct Hw as (Ha & Hb & Hf1 & Hf2). intros Hp. unfold writeFromLoop. change (ep_conn (sd_ep a)) with (conn a).
  rewrite (hs_error _ _ Ha). cbn [is_error].
  set (e1 := sd_ep a <| ep_conn := _ |>). set (a1 := a <| sd_ep := e1 |> <| sd_sent ::= S |>).
  destruct (ibv_write_round Pab a1 b HPab) as (e & evs & He & Ha2 & Hb2 & Hf3 & Hf4).
  - eapply hs_quiet; [exact Ha | by split | done..].
  - by apply (hs_peer_quiet a b).
  - exact (finv_new_write Pab (flow_of a b) p Hf1 Hp).
  - change e1 with (sd_ep a1). rewrite He. exists (commit a1 e evs, b). split; [done|]. split_and!; try done.
    rewrite Hf4. refine (finv_eq _ _ _ Hf2 _). by apply flow_ext.
Qed.

Lemma ibv_act_read_ok rq p :
  Pba !! sd_asked a = Some p -> read_fits rq p = true ->
  goes_on (run (readFromLoop rq (sd_asked a) (sd_ep a)) (a <| sd_asked ::= S |>) b).
Proof.
  destruct Hw as (Ha & Hb & Hf1 & Hf2). intros Hp Hfit. unfold readFromLoop. change (ep_conn (sd_ep a)) with (conn a).
  rewrite (hs_error _ _ Ha). cbn [is_error].
  set (e1 := sd_ep a <| ep_conn := _ |>). set (a1 := a <| sd_ep := e1 |> <| sd_asked ::= S |>).
  destruct (ibv_read_round Pba a1 b HPba) as (e & evs & He & Ha2 & Hb2 & Hf3 & Hf4).
  - eapply hs_quiet; [exact Ha | by split | done..].
  - by apply (hs_peer_quiet a b).
  - exact (finv_new_read Pba (flow_of b a) p rq Hf2 Hp (read_fits_fresh rq p _ Hfit)).
  - change e1 with (sd_ep a1). rewrite He. exists (commit a1 e evs, b). split; [done|]. split_and!; try done.
    rewrite Hf4. refine (finv_eq _ _ _ Hf1 _). by apply flow_ext.
Qed.

Lemma region_inside ptr q n :
  region_ok ptr = true -> 0 < n -> 0 <= q -> q + n <= kBufferSize ->
  u64 (ptr + q) = ptr + q /\ in_region ptr (ptr + q) n = true.
Proof.
  unfold region_ok, in_region. intros Hr Hn Hq Hf. bool_hyps. split; [apply u64_small; unfold is_u64; lia|].
  apply andb_true_iff. split; apply Z.leb_le; lia.
Qed.

Lemma act_transfer_ok i rest :
  cn_state_ (conn b) = ESTABLISHED -> sd_wr a = i :: rest ->
  goes_on (b ← rdma_write i a b;
    Done (a <| sd_wr := rest |> <| sd_no ::= fun l => l ++ [u32 (wi_length i)] |> <| sd_wdone ::= S |>, b)).
Proof.
  destruct Hw as (Ha & Hb & Hf1 & Hf2). intros Hst Hwr.
  assert (cn_state_ (conn a) <> INITIALIZING /\ cn_state_ (conn b) <> INITIALIZING) as [Hia Hib].
  { split; [|congruence]. destruct (hs_peer _ _ Hb Hst) as (ex & Hex & _). pose proof (hs_ex _ _ Ha) as He.
    intros E. rewrite E in He. simpl in He. congruence. }
  destruct (finv_transfer Pab (flow_of a b) i rest Hf1 Hwr) as (q & n & -> & Hn & Hfit & Hf3);
    [by apply bool_decide_eq_true|].
  destruct (hs_regions _ _ Ha Hia) as [_ Hra]. destruct (hs_regions _ _ Hb Hib) as [Hrb _].
  pose proof (Z.mod_pos_bound q kBufferSize ltac:(done)) as Hq.
  assert (established a = true) as Hea.
  { apply not_false_iff_true. intros E. destruct Hf1 as (W & A & t & N & X & wd & wp & wf & rd & rp & rf & k & k' & Hc & _).
    destruct (fcore_quietS _ _ _ _ _ _ _ _ _ _ _ _ _ _ _ Hc E) as (_ & _ & _ & _ & _ & Hno). simpl in Hno. congruence. }
  apply bool_decide_eq_true in Hea. destruct (hs_peer _ _ Ha Hea) as (ex & Hex & Hpp & Hpk).
  pose proof (hs_ex _ _ Hb) as Hexb. rewrite Hst in Hexb. simpl in Hexb. destruct Hexb as [info Hexb].
  rewrite Hexb in Hex. injection Hex as <-. simpl in Hpp, Hpk.
  change (fl_route (flow_of a b)) with (route_of (conn a)) in *.
  unfold rdma_write, write_at, route_of. cbn [rt_out rt_lkey rt_in rt_rkey wi_addr wi_length wi_lkey wi_remoteAddr wi_rkey].
  rewrite Hpp, Hpk. destruct (region_inside _ (q mod kBufferSize) n Hra ltac:(lia) ltac:(lia) Hfit) as [-> Hr1].
  destruct (region_inside _ (q mod kBufferSize) n Hrb ltac:(lia) ltac:(lia) Hfit) as [-> Hr2].
  rewrite Hr1, Hr2, !Z.eqb_refl. cbn [andb tp_check]. rewrite !bind_done.
  rewrite !Z.add_simpl_l, (u32_small n) by (unfold is_u32; unfold kBufferSize in *; lia).
  eexists. split; [done|]. split_and!.
  - eapply hs_quiet; [exact Ha | by split | done..].
  - by apply (hs_peer_quiet a b).
  - refine (finv_eq _ _ _ Hf3 _). by apply flow_ext.
  - refine (finv_eq _ _ _ Hf2 _). by apply flow_ext.
Qed.

Lemma act_data_ok n rest :
  sd_no b = n :: rest -> goes_on (run (on_completion (RemoteProducedData n) (sd_ep a)) a (b <| sd_no := rest |>)).
Proof.
  destruct Hw as (Ha & Hb & Hf1 & Hf2). intros Hno.
  destruct (finv_data Pba (flow_of b a) n rest Hf2 Hno) as (_ & rb' & Hadv & Hf3). simpl in Hadv.
  unfold on_completion, onRemoteProducedData. rewrite Hadv, bind_done. clear Hadv.
  set (a1 := a <| sd_ep := sd_ep a <| ep_inbox := rb' |> |>). set (b1 := b <| sd_no := rest |>).
  destruct (ibv_read_round Pba a1 b1 HPba) as (e & evs & He & Ha2 & Hb2 & Hf4 & Hf5).
  - eapply hs_quiet; [exact Ha | by split | done..].
  - by apply (hs_peer_quiet a b).
  - exact Hf3.
  - change (sd_ep a <| ep_inbox := rb' |>) with (sd_ep a1). rewrite He. exists (commit a1 e evs, b1). split; [done|]. split_and!; try done.
    rewrite Hf5. refine (finv_eq _ _ _ Hf1 _). by apply flow_ext.
Qed.

Lemma act_ack_ok n rest :
  sd_acks b = n :: rest -> goes_on (run (on_completion (RemoteConsumedData n) (sd_ep a)) a (b <| sd_acks := rest |>)).
Proof.
  destruct Hw as (Ha & Hb & Hf1 & Hf2). intros Hno.
  destruct (finv_ack Pab (flow_of a b) n rest Hf1 Hno) as (rb' & Hadv & Hf3). simpl in Hadv.
  unfold on_completion, onRemoteConsumedData. rewrite Hadv, bind_done. clear Hadv.
  set (a1 := a <| sd_ep := sd_ep a <| ep_outbox := rb' |> |>). set (b1 := b <| sd_acks := rest |>).
  destruct (ibv_write_round Pab a1 b1 HPab) as (e & evs & He & Ha2 & Hb2 & Hf4 & Hf5).
  - eapply hs_quiet; [exact Ha | by split | done..].
  - by apply (hs_peer_quiet a b).
  - exact Hf3.
  - change (sd_ep a <| ep_outbox := rb' |>) with (sd_ep a1). rewrite He. exists (commit a1 e evs, b1). split; [done|]. split_and!; try done.
    rewrite Hf5. refine (finv_eq _ _ _ Hf2 _). by apply flow_ext.
Qed.

(** Completions of this end's own requests only change the counts. *)
Lemma act_done_ok a0 c :
  quiet (conn a) c -> route_of c = route_of (conn a) -> cn_peerInboxHead_ c = cn_peerInboxHead_ (conn a) ->
  cn_writeOperations_ c = cn_writeOperations_ (conn a) -> cn_readOperations_ c = cn_readOperations_ (conn a) ->
  sd_ep a0 = sd_ep a -> sd_ex a0 = sd_ex a -> sd_wr a0 = sd_wr a -> sd_no a0 = sd_no a -> sd_acks a0 = sd_acks a ->
  sd_log a0 = sd_log a -> sd_sent a0 = sd_sent a -> sd_asked a0 = sd_asked a ->
  goes_on (run (Done (sd_ep a <| ep_conn := c |>, [])) a0 b).
Proof.
  destruct Hw as (Ha & Hb & Hf1 & Hf2). intros Hq Hr Hh Hwq Hrq E1 E2 E3 E4 E5 E6 E7 E8.
  eexists. split; [apply run_done|]. split_and!.
  - apply (hs_quiet a b); [exact Ha | exact Hq | exact E2 | done].
  - apply (hs_peer_quiet a b); [exact Hb | exact E2 | done | done].
  - refine (finv_eq _ _ _ Hf1 _).
    apply flow_ext; try done; cbn [flow_of fl_initS fl_estS fl_wr fl_no fl_nsent fl_wlog fl_head fl_route fl_wq]; try congruence.
    + unfold ready. change (conn (commit _ _ _)) with c. by rewrite (qt_state _ _ Hq).
    + unfold established. change (conn (commit _ _ _)) with c. by rewrite (qt_state _ _ Hq).
    + change (sd_wr (commit _ _ _)) with (sd_wr a0 ++ []). by rewrite E3, app_nil_r.
    + change (sd_log (commit _ _ _)) with (sd_log a0 ++ []). by rewrite E6, app_nil_r.
  - refine (finv_eq _ _ _ Hf2 _).
    apply flow_ext; try done; cbn [flow_of fl_initR fl_estR fl_acks fl_nread fl_rlog fl_rq]; try congruence.
    + unfold ready. change (conn (commit _ _ _)) with c. by rewrite (qt_state _ _ Hq).
    + unfold established. change (conn (commit _ _ _)) with c. by rewrite (qt_state _ _ Hq).
    + change (sd_acks (commit _ _ _)) with (sd_acks a0 ++ []). by rewrite E5, app_nil_r.
    + change (sd_log (commit _ _ _)) with (sd_log a0 ++ []). by rewrite E6, app_nil_r.
Qed.

Lemma act_ok x r : act_a Pab Pba x (a, b) = Some r -> goes_on r.
Proof.
  destruct Hw as (Ha & Hb & _). pose proof (hs_error _ _ Ha) as Herr.
  destruct x as [qp ip ik op ok|info| | |rq| | | | |]; cbn [act_a]; intros Hr.
  - case_decide; [|done]. destruct (region_ok ip) eqn:?, (region_ok op) eqn:?; try done. simpl in Hr. simplify_eq.
    by apply ibv_act_init_ok.
  - case_decide; [|done]. simplify_eq. by apply ibv_act_out_ok.
  - destruct (cn_state_ (conn a)) eqn:Hst; try done. destruct (sd_ex b) as [ex|] eqn:Hex; [|done]. simplify_eq. by apply ibv_act_in_ok.
  - destruct (Pab !! _) as [p|] eqn:Hp; [|done]. simplify_eq. by apply (ibv_act_write_ok p).
  - destruct (Pba !! _) as [p|] eqn:Hp; [|done]. destruct (read_fits rq p) eqn:Hf; [|done]. simplify_eq. by apply (ibv_act_read_ok rq p).
  - destruct (cn_state_ (conn b)) eqn:Hst; try done. destruct (sd_wr a) as [|i rest] eqn:Hwr; [done|]. simplify_eq. by apply act_transfer_ok.
  - destruct (sd_no b) as [|n rest] eqn:Hno; [done|]. simplify_eq. by apply act_data_ok.
  - destruct (sd_acks b) as [|n rest] eqn:Hno; [done|]. simplify_eq. by apply act_ack_ok.
  - destruct (sd_wdone a) as [|n] eqn:Hd; [done|]. simplify_eq. simpl. unfold on_conn, onWriteCompleted, tryCleanup. simpl.
    change (ep_conn (sd_ep a)) with (conn a). rewrite Herr. apply act_done_ok; try done.
    split; try done. intros _. simpl. apply u32_u32.
  - destruct (sd_adone a) as [|n] eqn:Hd; [done|]. simplify_eq. simpl. unfold on_conn, onAckCompleted, tryCleanup. simpl.
    change (ep_conn (sd_ep a)) with (conn a). rewrite Herr. by apply act_done_ok.
Qed.
End actions.

(** ** Reachable pairs *)

Lemma finv_initial P b1 b2 : finv P (flow_of (new_side b1) (new_side b2)).
Proof. exists [], 0%nat, 0%nat, 0%nat, 0%nat, [], [], P, [], [], P, 0%nat, 0%nat. by split; [split; try done; apply lengths_nil|]. Qed.

Lemma hs_new b1 b2 : hs (new_side b1) (new_side b2).
Proof. by split. Qed.

Lemma ibv_pair_reachable_pinv Pab Pba w :
  Forall (payload_ok kBufferSize) Pab -> Forall (payload_ok kBufferSize) Pba ->
  pair_reachable Pab Pba w -> pinv Pab Pba w.
Proof.
  intros HPab HPba Hr. assert (pinv Pab Pba initial_pair) as Hi.
  { split_and!; [apply hs_new | apply hs_new | apply finv_initial | apply finv_initial]. }
  unfold pair_reachable in Hr. remember initial_pair as w0 eqn:E. clear E.
  induction Hr as [|w0 w1 w2 Hstep _ IH]; [done|]. apply IH. destruct Hstep as [x [a b] w' Hx|x w w' Hx].
  - destruct (act_ok Pab Pba a b HPab HPba Hi x _ Hx) as (w3 & He & Hw3). by apply done_inj in He as ->.
  - apply ibv_pinv_flip in Hi. destruct (flip_pair w) as [a b] eqn:Hf.
    destruct (act_ok Pba Pab a b HPba HPab Hi x _ Hx) as (w3 & He & Hw3). apply done_inj in He as ->. by apply ibv_pinv_flip.
Qed.

(** ** A handshake *)

Definition hs_side (rb : RingBuffer) (st : IbvState) : side T :=
  mkSide T (mkEndpoint (mkConn kSuccess st true (Some 7) 4096 1 4194304 2
      (if decide (st = ESTABLISHED) then 1 else 0) (if decide (st = ESTABLISHED) then 4096 else 0) 0 0 0 [] []) rb (widen 0 rb))
    (if sent_addr st then Some (mkExchange 9 4096 1) else None) [] [] [] 0 0
    ([EvEnroll; EvQpInit 7; EvRegisterQp 7; EvRegister false] ++
     (if sent_addr st then [EvSendAddr (mkExchange 9 4096 1); EvRegister true] else []) ++
     (if decide (st = ESTABLISHED) then [EvQpReady 7 9] else [])) 0 0.

Lemma ibv_step_init Pab Pba rb b s :
  newRingBuffer kNumInboxRingbufferRoles kBufferSize = Done rb ->
  newRingBuffer kNumOutboxRingbufferRoles kBufferSize = Done (widen 0 rb) ->
  act_a Pab Pba (ActInit 7 4096 1 4194304 2) (new_side b, s) = Some (Done (hs_side rb SEND_ADDR, s)).
Proof.
  intros Hi Ho. cbn [act_a]. rewrite decide_True by done. change (region_ok 4096 && region_ok 4194304) with true. cbv iota.
  rewrite (init_with _ rb) by assumption. clear Hi Ho. by destruct b.
Qed.

Lemma ibv_handshake_reachable Pab Pba :
  exists rb, pair_reachable Pab Pba (hs_side rb ESTABLISHED, hs_side rb ESTABLISHED).
Proof.
  destruct new_rings as (rb & Hi & Ho & _). exists rb. unfold pair_reachable.
  pose proof (ibv_step_init Pab Pba rb true (new_side false) Hi Ho) as H1.
  pose proof (ibv_step_init Pba Pab rb false (hs_side rb SEND_ADDR) Hi Ho) as H2. clear Hi Ho.
  eapply rtc_l; [exact (ps_a _ _ _ _ _ H1)|].
  eapply rtc_l; [exact (ps_b _ _ (ActInit 7 4096 1 4194304 2) (hs_side rb SEND_ADDR, new_side false) _ H2)|]. clear H1 H2.
  eapply (rtc_l _ _ (hs_side rb RECV_ADDR, hs_side rb SEND_ADDR)); [by apply (ps_a _ _ (ActOut 9))|].
  eapply (rtc_l _ _ (hs_side rb RECV_ADDR, hs_side rb RECV_ADDR)); [by apply (ps_b _ _ (ActOut 9) _ (hs_side rb RECV_ADDR, hs_side rb RECV_ADDR))|].
  eapply (rtc_l _ _ (hs_side rb ESTABLISHED, hs_side rb RECV_ADDR)); [by apply (ps_a _ _ ActIn)|].
  apply rtc_once. by apply (ps_b _ _ ActIn _ (hs_side rb ESTABLISHED, hs_side rb ESTABLISHED)).
Qed.
End pair.

(** ** The theorems *)

Section theorems.
Context {T : Type} `{NopEncodingLaws T}.

(** The callbacks of one direction: the writes of the sender and the reads of the
    receiver were called back in order and without error, the [k]-th read with the
    [k]-th message of [P]. *)
Definition delivered (P : list (payload T)) (sender receiver : side T) : Prop :=
  exists m m', (m' <= m <= sd_sent sender)%nat /\ (m' <= sd_asked receiver)%nat /\
    writes_of (sd_log sender) = (fun i => mkWriteCall i kSuccess) <$> seq 0 m /\
    reads_of (sd_log receiver) = read_calls (seq 0 m') (take m' P).

(** Nothing of this end is in progress. *)
Definition settled (s : side T) : Prop := sd_wr s = [] /\ sd_no s = [] /\ sd_acks s = [].

(** C12: over two connected ends, in any interleaving of requests, socket events, remote
    writes and completions, each direction delivers the messages written to it once, in
    order and intact, whatever their sizes and kinds; and once nothing is in progress
    any more, every message that was both written and asked for has been delivered, and
    all writes are called back when enough reads were asked. *)
Theorem ibv_delivery Pab Pba (a b : side T) :
  Forall (payload_ok kBufferSize) Pab -> Forall (payload_ok kBufferSize) Pba -> pair_reachable Pab Pba (a, b) ->
  delivered Pab a b /\ delivered Pba b a /\
  (cn_state_ (conn a) = ESTABLISHED -> cn_state_ (conn b) = ESTABLISHED -> settled a -> settled b ->
    length (reads_of (sd_log b)) = (sd_sent a `min` sd_asked b)%nat /\
    ((sd_sent a <= sd_asked b)%nat -> length (writes_of (sd_log a)) = sd_sent a) /\
    length (reads_of (sd_log a)) = (sd_sent b `min` sd_asked a)%nat /\
    ((sd_sent b <= sd_asked a)%nat -> length (writes_of (sd_log b)) = sd_sent b)).
Proof.
  intros HPab HPba Hr. destruct (ibv_pair_reachable_pinv Pab Pba _ HPab HPba Hr) as (_ & _ & H1 & H2).
  split; [exact (finv_delivery Pab _ H1)|]. split; [exact (finv_delivery Pba _ H2)|].
  intros Ea Eb (A1 & A2 & A3) (B1 & B2 & B3). 
  assert (established a = true /\ established b = true) as [Ea' Eb'] by (split; by apply bool_decide_eq_true_2).
  destruct (finv_quiescent Pab HPab _ H1 Ea' Eb' A1 A2 B3) as [Q1 Q2].
  destruct (finv_quiescent Pba HPba _ H2 Eb' Ea' B1 B2 A3) as [Q3 Q4]. done.
Qed.

End theorems.

(** Messages for the witnesses: two buffers and an object. *)
Definition demo_messages : list (payload (Z * Z * Z)) := [PBytes [1; 2; 3]; PObject (4, 5, 6); PBytes []].

Lemma ibv_demo_messages_ok : Forall (payload_ok kBufferSize) demo_messages.
Proof. repeat constructor; unfold payload_len, kBufferSize; simpl; lia. Qed.

Lemma ibv_delivery_witness :
  exists a b : side (Z * Z * Z), length (reads_of (sd_log b)) = (sd_sent a `min` sd_asked b)%nat.
Proof.
  destruct (ibv_handshake_reachable demo_messages demo_messages) as (rb & Hr).
  destruct (ibv_delivery _ _ _ _ ibv_demo_messages_ok ibv_demo_messages_ok Hr) as (_ & _ & Hq).
  eexists _, _. exact (proj1 (Hq eq_refl eq_refl (conj eq_refl (conj eq_refl eq_refl)) (conj eq_refl (conj eq_refl eq_refl)))).
Defined.

