(* ===== verification/IbvErrors.v ===== *)
(** * Errors of an InfiniBand connection

    One connection on its own, with a peer, a socket, a library and rings that do
    anything at all: whatever the handlers are given, the callbacks of reads (and of
    writes) are called in the order of the requests, each at most once, and all of
    them once the connection is in error; and the queue pair is destroyed once, when
    the connection is in error and none of its requests is in flight any more. *)

From S2P Require Import Prelude System RingBuffer RingBufferTx Nop RingbufferOps RingbufferQueues IbvReactor.
From S2P Require Import IbvConnection IbvRings IbvFlow.

Section errors.
Context {T : Type} `{NopEncoding T}.
Implicit Types (c : ConnectionImpl T) (e : endpoint T) (evs log : list (event T)).

(** ** What handlers do to the queues *)

Definition pending_reads c : list nat := ro_fn_ <$> cn_readOperations_ c.
Definition pending_writes c : list nat := wo_fn_ <$> cn_writeOperations_ c.
Definition called_reads evs : list nat := rc_fn <$> reads_of evs.
Definition called_writes evs : list nat := wc_fn <$> writes_of evs.
Definition nposts evs : nat := length (posts_of evs).
Definition nacks evs : nat := length (acks_of evs).
Definition cleanups_of evs : list unit := omap (fun ev => match ev with EvDeferCleanup => Some tt | _ => None end) evs.
Definition ncleanups evs : nat := length (cleanups_of evs).

(** How often the five kinds of events occur. *)
Record tally evs (rds wrs : list nat) (posts acks cleanups : nat) : Prop := {
  ty_reads : called_reads evs = rds;
  ty_writes : called_writes evs = wrs;
  ty_posts : nposts evs = posts;
  ty_acks : nacks evs = acks;
  ty_cleanups : ncleanups evs = cleanups;
}.

Lemma tally_self evs : tally evs (called_reads evs) (called_writes evs) (nposts evs) (nacks evs) (ncleanups evs).
Proof. by split. Qed.

Lemma ibv_tally_app evs1 evs2 r1 r2 w1 w2 p1 p2 a1 a2 k1 k2 :
  tally evs1 r1 w1 p1 a1 k1 -> tally evs2 r2 w2 p2 a2 k2 ->
  tally (evs1 ++ evs2) (r1 ++ r2) (w1 ++ w2) (p1 + p2) (a1 + a2) (k1 + k2).
Proof.
  intros [] []. split.
  - unfold called_reads in *. rewrite ibv_reads_of_app, fmap_app. congruence.
  - unfold called_writes in *. rewrite ibv_writes_of_app, fmap_app. congruence.
  - unfold nposts, posts_of in *. rewrite omap_app, length_app. congruence.
  - unfold nacks, acks_of in *. rewrite omap_app, length_app. congruence.
  - unfold ncleanups, cleanups_of in *. rewrite omap_app, length_app. congruence.
Qed.

Lemma tally_nil : tally [] [] [] 0 0 0.
Proof. by split. Qed.

Lemma tally_reads (l : list (read_call T)) : tally (EvRead <$> l) (rc_fn <$> l) [] 0 0 0.
Proof.
  destruct (summary_reads l) as [S1 S2 S3 S4 S5]. split; unfold called_reads, called_writes, nposts, nacks;
    rewrite ?S1, ?S2, ?S3, ?S4; try done. clear. by induction l.
Qed.
Lemma tally_writes (l : list write_call) : tally (EvWrite <$> l) [] (wc_fn <$> l) 0 0 0.
Proof.
  destruct (summary_writes (T := T) l) as [S1 S2 S3 S4 S5]. split; unfold called_reads, called_writes, nposts, nacks;
    rewrite ?S1, ?S2, ?S3, ?S4; try done. clear. by induction l.
Qed.
Lemma tally_ack qp n : tally (if 0 <? n then [EvPostAck qp (mkAckInfo n)] else []) [] [] 0 (if 0 <? n then 1 else 0) 0.
Proof. by destruct (0 <? n). Qed.

Lemma u32_step w n k : n = u32 (w + Z.of_nat k) -> u32 (n + 1) = u32 (w + Z.of_nat (k + 1)).
Proof. intros ->. rewrite u32_add_l. f_equal. lia. Qed.

(** What serving the writes changes of a connection. *)
Definition reposted c (h n : Z) : ConnectionImpl T := c <| cn_peerInboxHead_ := h |> <| cn_numWritesInFlight_ := n |>.

Lemma post_buffers_tally qp bs : forall c w k c' evs,
  cn_numWritesInFlight_ c = u32 (w + Z.of_nat k) -> post_buffers c qp bs = (c', evs) ->
  exists h j, c' = reposted c h (u32 (w + Z.of_nat (k + j))) /\ tally evs [] [] j 0 0.
Proof.
  induction bs as [|b bs IH]; intros c w k c' evs Hn Hp; simpl in Hp.
  - simplify_eq. exists (cn_peerInboxHead_ c'), 0%nat. split; [|apply tally_nil].
    rewrite Nat.add_0_r, <- Hn. by destruct c'.
  - destruct (post_buffers _ qp bs) as [c1 evs1] eqn:H1. simplify_eq.
    match type of H1 with post_buffers ?x _ _ = _ => destruct (IH x w (k + 1)%nat _ _ (u32_step _ _ _ Hn) H1) as (h & j & -> & Ht) end.
    exists h, (S j). split; [by replace (k + S j)%nat with (k + 1 + j)%nat by lia|].
    refine (ibv_tally_app [_] evs1 [] [] [] [] 1 j 0 0 0 0 _ Ht). by split.
Qed.

Lemma post_outbox_tally qp len rb c w k c' evs rb' :
  cn_numWritesInFlight_ c = u32 (w + Z.of_nat k) -> post_outbox qp len rb c = Done (c', evs, rb') ->
  exists h j, c' = reposted c h (u32 (w + Z.of_nat (k + j))) /\ tally evs [] [] j 0 0.
Proof.
  intros Hn Hp. unfold post_outbox in Hp. inv_bind Hp. destruct a as [ret s]. inv_bind Hp. inv_bind Hp.
  destruct a0 as [[nb [b0 b1]] s1]. inv_bind Hp. destruct (post_buffers c qp _) as [c1 evs1] eqn:Hb in Hp.
  destruct (commitTx _ s1) as [ret2 s2]. inv_bind Hp. simplify_eq. by eapply post_buffers_tally.
Qed.

Lemma serve_writes_tally qp ops : forall s c w k ops' evs c' s',
  cn_numWritesInFlight_ c = u32 (w + Z.of_nat k) -> serve_writes qp ops s c = Done (ops', evs, c', s') ->
  exists h j calls, c' = reposted c h (u32 (w + Z.of_nat (k + j))) /\ tally evs [] calls j 0 0 /\
    calls ++ (wo_fn_ <$> ops') = wo_fn_ <$> ops.
Proof.
  induction ops as [|o ops IH]; cbn [serve_writes]; intros s c w k ops' evs c' s' Hn Hs.
  - simplify_eq. exists (cn_peerInboxHead_ c'), 0%nat, []. split; [|split; [apply tally_nil | done]].
    rewrite Nat.add_0_r, <- Hn. by destruct c'.
  - inv_bind Hs. destruct a as [[[n o1] calls] [rb role]]. apply handleWrite_calls in Ha as [Hfn Hcl]. inv_bind Hs. destruct a as [[c1 evs1] rb1].
    assert (exists h j, c1 = reposted c h (u32 (w + Z.of_nat (k + j))) /\ tally evs1 [] [] j 0 0) as (h & j & -> & Ht).
    { destruct (0 <? n); [by eapply post_outbox_tally|]. simplify_eq. exists (cn_peerInboxHead_ c1), 0%nat.
      split; [|apply tally_nil]. rewrite Nat.add_0_r, <- Hn. by destruct c1. }
    pose proof (ibv_tally_app _ _ _ _ _ _ _ _ _ _ _ _ (tally_writes calls) Ht) as Ht1. rewrite Hcl, app_nil_r in Ht1.
    destruct (write_completed o1).
    + inv_bind Hs. destruct a as [[[ops2 evs2] c2] s2]. simplify_eq.
      destruct (IH _ (reposted c h (u32 (w + Z.of_nat (k + j)))) w (k + j)%nat _ _ _ _ eq_refl Ha0) as (h2 & j2 & calls2 & -> & Ht2 & Hc2).
      exists h2, (j + j2)%nat, (wo_fn_ o :: calls2). split; [by rewrite Nat.add_assoc|].
      split; [exact (ibv_tally_app _ _ _ _ _ _ _ _ _ _ _ _ Ht1 Ht2)|]. simpl. by rewrite Hc2.
    + simplify_eq. exists h, j, []. split; [done|]. split; [done|]. simpl. by rewrite Hfn.
Qed.

Lemma serve_reads_tally qp ops : forall acks w k s ops' evs acks' s',
  acks = u32 (w + Z.of_nat k) -> serve_reads qp ops acks s = Done (ops', evs, acks', s') ->
  exists j calls, acks' = u32 (w + Z.of_nat (k + j)) /\ tally evs calls [] 0 j 0 /\ calls ++ (ro_fn_ <$> ops') = ro_fn_ <$> ops.
Proof.
  induction ops as [|o ops IH]; cbn [serve_reads]; intros acks w k s ops' evs acks' s' Hn Hs.
  - simplify_eq. exists 0%nat, []. split; [by rewrite Nat.add_0_r|]. split; [apply tally_nil | done].
  - inv_bind Hs. destruct a as [[[n o1] calls] s1]. apply handleRead_calls in Ha as [Hfn Hcl].
    pose proof (ibv_tally_app _ _ _ _ _ _ _ _ _ _ _ _ (tally_reads calls) (tally_ack qp n)) as Ht1. rewrite Hcl, app_nil_r in Ht1.
    assert ((if 0 <? n then u32 (acks + 1) else acks) = u32 (w + Z.of_nat (k + (if 0 <? n then 1 else 0)))) as Hn1.
    { destruct (0 <? n); [by apply u32_step | by rewrite Nat.add_0_r]. }
    destruct (read_completed o1).
    + inv_bind Hs. destruct a as [[[ops2 evs2] acks2] s2]. simplify_eq.
      destruct (IH _ w _ _ _ _ _ _ Hn1 Ha) as (j2 & calls2 & -> & Ht2 & Hc2).
      exists ((if (0 <? n)%Z then 1 else 0) + j2)%nat, (ro_fn_ o :: calls2). split; [by rewrite Nat.add_assoc|].
      split; [exact (ibv_tally_app _ _ _ _ _ _ _ _ _ _ _ _ Ht1 Ht2)|]. simpl. by rewrite Hc2.
    + simplify_eq. eexists _, []. split; [exact Hn1|]. split; [exact Ht1|]. simpl. by rewrite Hfn.
Qed.

(** ** The books of a connection

    [nr] reads and [nw] writes were requested, [dw] writes and [da] acknowledgements
    were reported to be completed, and [cl] cleanups were run. *)

(** Nothing is left to be waited for. *)
Definition finished c : bool :=
  is_error (cn_error_ c) && negb (bool_decide (cn_state_ c = INITIALIZING)) && (cn_numWritesInFlight_ c =? 0) && (cn_numAcksInFlight_ c =? 0).

Record books c log (nr nw dw da cl : nat) : Prop := {
  bk_reads : called_reads log ++ pending_reads c = seq 0 nr;
  bk_writes : called_writes log ++ pending_writes c = seq 0 nw;
  bk_drained : is_error (cn_error_ c) = true -> cn_readOperations_ c = [] /\ cn_writeOperations_ c = [];
  bk_nw : Z.of_nat dw + cn_numWritesInFlight_ c = Z.of_nat (nposts log) /\ is_u32 (cn_numWritesInFlight_ c);
  bk_na : Z.of_nat da + cn_numAcksInFlight_ c = Z.of_nat (nacks log) /\ is_u32 (cn_numAcksInFlight_ c);
  bk_cleanups : ncleanups log = if finished c then 1%nat else 0%nat;
  bk_cl : (cl <= ncleanups log)%nat;
  bk_qp : cn_state_ c <> INITIALIZING -> if decide (cl = 0%nat) then exists qp, cn_qp_ c = Some qp else cn_qp_ c = None;
  bk_init : cn_state_ c = INITIALIZING -> cn_qp_ c = None /\ nposts log = 0%nat /\ nacks log = 0%nat;
}.

(** Fewer than [2^32] requests are in flight. *)
Definition fits log (dw da : nat) : Prop :=
  Z.of_nat (nposts log) < Z.of_nat dw + 2 ^ 32 /\ Z.of_nat (nacks log) < Z.of_nat da + 2 ^ 32.

(** A handler that adds the requests [rds] and [wrs] and takes [kw] and [ka] completions. *)
Definition keeps (rds wrs : nat) (kw ka : nat) c (r : outcome (ConnectionImpl T * list (event T))) : Prop :=
  forall c' evs log nr nw dw da cl, books c log nr nw dw da cl -> r = Done (c', evs) -> fits (log ++ evs) dw da ->
  books c' (log ++ evs) (nr + rds) (nw + wrs) (dw + kw) (da + ka) cl.

Definition on_ep (r : outcome (endpoint T * list (event T))) : outcome (ConnectionImpl T * list (event T)) :=
  '(e, evs) ← r; Done (ep_conn e, evs).

Lemma tally_log log evs rds wrs p a k : tally evs rds wrs p a k ->
  called_reads (log ++ evs) = called_reads log ++ rds /\ called_writes (log ++ evs) = called_writes log ++ wrs /\
  nposts (log ++ evs) = (nposts log + p)%nat /\ nacks (log ++ evs) = (nacks log + a)%nat /\
  ncleanups (log ++ evs) = (ncleanups log + k)%nat.
Proof. intros Ht. by destruct (ibv_tally_app _ _ _ _ _ _ _ _ _ _ _ _ (tally_self log) Ht). Qed.

Lemma keeps_same c evs rds wrs p a k : tally evs rds wrs p a k -> rds = [] -> wrs = [] -> p = 0%nat -> a = 0%nat -> k = 0%nat ->
  keeps 0 0 0 0 c (Done (c, evs)).
Proof.
  intros Ht -> -> -> -> ->. intros c' evs' log nr nw dw da cl [] Hd _. simplify_eq.
  destruct (tally_log log _ _ _ _ _ _ Ht) as (E1 & E2 & E3 & E4 & E5). rewrite !Nat.add_0_r in *.
  split; rewrite ?E1, ?E2, ?E3, ?E4, ?E5, ?app_nil_r; try done.
Qed.

Lemma keeps_nothing c : keeps 0 0 0 0 c (Done (c, [])).
Proof. by eapply keeps_same; [apply tally_nil|..]. Qed.

Lemma seq_plus n : seq 0 n ++ [n] = seq 0 (n + 1).
Proof. by rewrite Nat.add_1_r, seq_S. Qed.

Lemma u32_0 w : is_u32 w -> w = u32 (w + Z.of_nat 0).
Proof. intros. by rewrite Z.add_0_r, u32_small. Qed.

Lemma writes_keep e : keeps 0 0 0 0 (ep_conn e) (on_ep (processWriteOperationsFromLoop e)).
Proof.
  intros c' evs log nr nw dw da cl Hb. unfold processWriteOperationsFromLoop. destruct (negb _).
  { intros Hd Hf. simpl in Hd. by apply (keeps_nothing (ep_conn e)). }
  destruct (cn_writeOperations_ (ep_conn e)) as [|o ops] eqn:Hops.
  { intros Hd Hf. simpl in Hd. by apply (keeps_nothing (ep_conn e)). }
  intros Hd Hf. unfold on_ep in Hd. inv_bind Hd. destruct a as [e1 evs1]. simplify_eq. inv_bind Ha. inv_bind Ha. destruct a0 as [[[ops' evs'] c1] [rb r]]. simplify_eq.
  destruct Hb as [B1 B2 B3 [B4 B4'] B5 B6 B7 B8 B9].
  destruct (serve_writes_tally _ _ _ (ep_conn e) (cn_numWritesInFlight_ (ep_conn e)) 0 _ _ _ _ (u32_0 _ B4') Ha1) as (h & j & calls & -> & Ht & Hc).
  destruct (tally_log log _ _ _ _ _ _ Ht) as (E1 & E2 & E3 & E4 & E5). destruct Hf as [F1 F2]. rewrite E3 in F1.
  assert (is_error (cn_error_ (ep_conn e)) = false) as Herr.
  { apply not_true_iff_false. intros E. destruct (B3 E). congruence. }
  rewrite Nat.add_0_l in *. assert (u32 (cn_numWritesInFlight_ (ep_conn e) + Z.of_nat j) = cn_numWritesInFlight_ (ep_conn e) + Z.of_nat j) as Hu
    by (apply u32_small; unfold is_u32 in *; lia).
  rewrite !Nat.add_0_r. split; simpl; rewrite ?E1, ?E2, ?E3, ?E4, ?E5, ?Hu, ?Nat.add_0_r; try done.
  - by rewrite app_nil_r.
  - rewrite <- app_assoc. unfold pending_writes in *. simpl. by rewrite Hc, <- Hops.
  - congruence.
  - unfold is_u32 in *. lia.
  - rewrite B6. unfold finished. simpl. by rewrite Herr.
  - intros Hi. destruct (B9 Hi) as (Hq & _). unfold get_qp in Ha0. rewrite Hq in Ha0. done.
Qed.

Lemma reads_keep e : keeps 0 0 0 0 (ep_conn e) (on_ep (processReadOperationsFromLoop e)).
Proof.
  intros c' evs log nr nw dw da cl Hb. unfold processReadOperationsFromLoop. destruct (negb _).
  { intros Hd Hf. simpl in Hd. by apply (keeps_nothing (ep_conn e)). }
  destruct (cn_readOperations_ (ep_conn e)) as [|o ops] eqn:Hops.
  { intros Hd Hf. simpl in Hd. by apply (keeps_nothing (ep_conn e)). }
  intros Hd Hf. unfold on_ep in Hd. inv_bind Hd. destruct a as [e1 evs1]. simplify_eq. inv_bind Ha. inv_bind Ha. destruct a0 as [[[ops' evs'] acks] [rb r]]. simplify_eq.
  destruct Hb as [B1 B2 B3 B4 [B5 B5'] B6 B7 B8 B9].
  destruct (serve_reads_tally _ _ _ (cn_numAcksInFlight_ (ep_conn e)) 0 _ _ _ _ _ (u32_0 _ B5') Ha1) as (j & calls & -> & Ht & Hc).
  destruct (tally_log log _ _ _ _ _ _ Ht) as (E1 & E2 & E3 & E4 & E5). destruct Hf as [F1 F2]. rewrite E4 in F2.
  assert (is_error (cn_error_ (ep_conn e)) = false) as Herr.
  { apply not_true_iff_false. intros E. destruct (B3 E). congruence. }
  rewrite Nat.add_0_l in *. assert (u32 (cn_numAcksInFlight_ (ep_conn e) + Z.of_nat j) = cn_numAcksInFlight_ (ep_conn e) + Z.of_nat j) as Hu
    by (apply u32_small; unfold is_u32 in *; lia).
  rewrite !Nat.add_0_r. split; simpl; rewrite ?E1, ?E2, ?E3, ?E4, ?E5, ?Hu, ?Nat.add_0_r; try done.
  - rewrite <- app_assoc. unfold pending_reads in *. simpl. by rewrite Hc, <- Hops.
  - by rewrite app_nil_r.
  - congruence.
  - unfold is_u32 in *. lia.
  - rewrite B6. unfold finished. simpl. by rewrite Herr.
  - intros Hi. destruct (B9 Hi) as (Hq & _). unfold get_qp in Ha0. rewrite Hq in Ha0. done.
Qed.

Lemma error_keeps error c : keeps 0 0 0 0 c (setError error c).
Proof.
  intros c' evs log nr nw dw da cl Hb Hd Hf. unfold setError in Hd.
  destruct (is_error (cn_error_ c) || negb (is_error error)) eqn:Hno; [by apply (keeps_nothing c)|].
  apply orb_false_iff in Hno as [Herr Her]. apply negb_false_iff in Her.
  unfold handleErrorImpl in Hd. inv_bind Hd. simplify_eq. unfold get_qp in Ha. simpl in Ha. destruct (cn_qp_ c) as [qp|] eqn:Hqp; [|done]. simplify_eq.
  destruct Hb as [B1 B2 B3 B4 B5 B6 B7 B8 B9].
  assert (cn_state_ c <> INITIALIZING) as Hst by (intros E; destruct (B9 E) as [E' _]; congruence).
  set (k := if (cn_numWritesInFlight_ c =? 0) && (cn_numAcksInFlight_ c =? 0) then 1%nat else 0%nat).
  match goal with |- books _ (log ++ ?evs) _ _ _ _ _ => assert (tally evs (pending_reads c) (pending_writes c) 0 0 k) as Ht end.
  { pose proof (tally_reads (read_handleError error <$> cn_readOperations_ c)) as T1. rewrite <- list_fmap_compose in T1.
    pose proof (tally_writes (write_handleError error <$> cn_writeOperations_ c)) as T2. rewrite <- list_fmap_compose in T2.
    assert (rc_fn <$> (read_handleError error <$> cn_readOperations_ c) = pending_reads c) as P1
      by (unfold pending_reads; by rewrite <- list_fmap_compose).
    assert (wc_fn <$> (write_handleError error <$> cn_writeOperations_ c) = pending_writes c) as P2
      by (unfold pending_writes; by rewrite <- list_fmap_compose).
    rewrite P1 in T1. rewrite P2 in T2.
    pose proof (ibv_tally_app _ _ _ _ _ _ _ _ _ _ _ _ T1 T2) as T12. rewrite app_nil_l, app_nil_r in T12.
    rewrite <- (app_nil_r (pending_reads c)), <- (app_nil_r (pending_writes c)).
    refine (ibv_tally_app _ _ _ _ _ _ 0 0 0 0 0 k T12 _). unfold k, tryCleanup. simpl. rewrite Her.
    destruct (cn_numWritesInFlight_ c =? 0), (cn_numAcksInFlight_ c =? 0), (cn_socket_ c), (bool_decide _); by split. }
  destruct (tally_log log _ _ _ _ _ _ Ht) as (E1 & E2 & E3 & E4 & E5).
  assert (ncleanups log = 0%nat) as Hk0 by (rewrite B6; unfold finished; by rewrite Herr). rewrite Hk0 in *.
  rewrite !Nat.add_0_r. split; cbn [cn_error_ cn_state_ cn_qp_ cn_readOperations_ cn_writeOperations_ cn_numWritesInFlight_ cn_numAcksInFlight_];
    rewrite ?E1, ?E2, ?E3, ?E4, ?E5, ?Nat.add_0_r; try done.
  - by rewrite app_nil_r.
  - by rewrite app_nil_r.
  - unfold finished, k. simpl. rewrite Her, (bool_decide_eq_false_2 _ Hst). done.
  - lia.
Qed.

(** ** Completions *)

Lemma write_done_keeps c :
  0 < cn_numWritesInFlight_ c -> keeps 0 0 1 0 c (onWriteCompleted c).
Proof.
  intros Hpos c' evs log nr nw dw da cl [B1 B2 B3 [B4 B4'] B5 B6 B7 B8 B9] Hd _. unfold onWriteCompleted in Hd. simplify_eq.
  set (c' := c <| cn_numWritesInFlight_ ::= fun n => u32 (n - 1) |>).
  assert (cn_numWritesInFlight_ c' = cn_numWritesInFlight_ c - 1) as Hw by (apply u32_small; unfold is_u32 in *; lia).
  assert (cn_state_ c <> INITIALIZING) as Hst by (intros E; destruct (B9 E) as (_ & E' & _); lia).
  assert (finished c = false) as Hfin by (unfold finished; rewrite (proj2 (Z.eqb_neq (cn_numWritesInFlight_ c) 0)) by lia; by rewrite andb_false_r).
  rewrite Hfin in B6. assert (tally (tryCleanup c') [] [] 0 0 (if finished c' then 1 else 0)) as Ht.
  { unfold tryCleanup, finished. change (cn_state_ c') with (cn_state_ c). rewrite (bool_decide_eq_false_2 _ Hst). cbn [negb]. rewrite andb_true_r.
    by destruct (is_error _ && _ && _). }
  destruct (tally_log log _ _ _ _ _ _ Ht) as (E1 & E2 & E3 & E4 & E5).
  rewrite !Nat.add_0_r. split; rewrite ?E1, ?E2, ?E3, ?E4, ?E5, ?app_nil_r, ?Nat.add_0_r, ?Hw; try done.
  - unfold is_u32 in *. lia.
  - by rewrite B6.
  - lia.
Qed.

Lemma ack_done_keeps c :
  0 < cn_numAcksInFlight_ c -> keeps 0 0 0 1 c (onAckCompleted c).
Proof.
  intros Hpos c' evs log nr nw dw da cl [B1 B2 B3 B4 [B5 B5'] B6 B7 B8 B9] Hd _. unfold onAckCompleted in Hd. simplify_eq.
  set (c' := c <| cn_numAcksInFlight_ ::= fun n => u32 (n - 1) |>).
  assert (cn_numAcksInFlight_ c' = cn_numAcksInFlight_ c - 1) as Hw by (apply u32_small; unfold is_u32 in *; lia).
  assert (cn_state_ c <> INITIALIZING) as Hst by (intros E; destruct (B9 E) as (_ & _ & E'); lia).
  assert (finished c = false) as Hfin by (unfold finished; rewrite (proj2 (Z.eqb_neq (cn_numAcksInFlight_ c) 0)) by lia; by rewrite andb_false_r).
  rewrite Hfin in B6. assert (tally (tryCleanup c') [] [] 0 0 (if finished c' then 1 else 0)) as Ht.
  { unfold tryCleanup, finished. change (cn_state_ c') with (cn_state_ c). rewrite (bool_decide_eq_false_2 _ Hst). cbn [negb]. rewrite andb_true_r.
    by destruct (is_error _ && _ && _). }
  destruct (tally_log log _ _ _ _ _ _ Ht) as (E1 & E2 & E3 & E4 & E5).
  rewrite !Nat.add_0_r. split; rewrite ?E1, ?E2, ?E3, ?E4, ?E5, ?app_nil_r, ?Nat.add_0_r, ?Hw; try done.
  - unfold is_u32 in *. lia.
  - by rewrite B6.
  - lia.
Qed.

Lemma fits_prefix log evs1 evs2 dw da : fits (log ++ evs1 ++ evs2) dw da -> fits (log ++ evs1) dw da.
Proof.
  destruct (tally_log log _ _ _ _ _ _ (tally_self evs1)) as (_ & _ & P1 & A1 & _).
  destruct (tally_log log _ _ _ _ _ _ (tally_self (evs1 ++ evs2))) as (_ & _ & P2 & A2 & _).
  destruct (tally_log evs1 _ _ _ _ _ _ (tally_self evs2)) as (_ & _ & P3 & A3 & _).
  unfold fits. rewrite P1, A1, P2, A2, P3, A3. lia.
Qed.

Lemma keeps_bind r1 w1 kw1 ka1 r2 w2 kw2 ka2 c m (k : ConnectionImpl T -> outcome (ConnectionImpl T * list (event T))) :
  keeps r1 w1 kw1 ka1 c m -> (forall c1 evs1, m = Done (c1, evs1) -> keeps r2 w2 kw2 ka2 c1 (k c1)) ->
  keeps (r1 + r2) (w1 + w2) (kw1 + kw2) (ka1 + ka2) c ('(c, evs1) ← m; '(c, evs2) ← k c; Done (c, evs1 ++ evs2)).
Proof.
  intros Hm Hk c' evs log nr nw dw da cl Hb Hd Hf. inv_bind Hd. destruct a as [c1 evs1]. inv_bind Hd. destruct a as [c2 evs2]. apply done_inj in Hd as [= <- <-].
  pose proof (Hm _ _ _ _ _ _ _ _ Hb Ha (fits_prefix _ _ _ _ _ Hf)) as Hb1.
  rewrite !Nat.add_assoc, app_assoc. apply (Hk _ _ Ha _ _ _ _ _ _ _ _ Hb1 Ha0).
  rewrite <- app_assoc. destruct Hf. split; lia.
Qed.

(** A completion counts for the writes, or for the acknowledgements. *)
Definition counts_write (k : completion) : bool :=
  match k with WriteCompleted => true | CompletionError _ id => id =? kWriteRequestId | _ => false end.
Definition counts_ack (k : completion) : bool :=
  match k with AckCompleted => true | CompletionError _ id => id =? kAckRequestId | _ => false end.

Lemma setError_counts error c c' evs : setError error c = Done (c', evs) ->
  cn_numWritesInFlight_ c' = cn_numWritesInFlight_ c /\ cn_numAcksInFlight_ c' = cn_numAcksInFlight_ c.
Proof.
  unfold setError. destruct (_ || _); intros Hd; [by simplify_eq|]. unfold handleErrorImpl in Hd. inv_bind Hd. by simplify_eq.
Qed.

Lemma on_ep_conn f e : on_ep (on_conn f e) = f (ep_conn e).
Proof. unfold on_ep, on_conn. by destruct (f (ep_conn e)) as [[c evs]|]. Qed.

Lemma completion_keeps k e :
  (counts_write k = true -> 0 < cn_numWritesInFlight_ (ep_conn e)) -> (counts_ack k = true -> 0 < cn_numAcksInFlight_ (ep_conn e)) ->
  keeps 0 0 (if counts_write k then 1 else 0) (if counts_ack k then 1 else 0) (ep_conn e) (on_ep (on_completion k e)).
Proof.
  intros Hw Ha. destruct k as [n|n| | |st id]; cbn [on_completion counts_write counts_ack] in *.
  - unfold onRemoteProducedData. destruct (advance_marker _ _ _ _) as [rb|]; [|intros ? ? ? ? ? ? ? ? ? Hd; done]. rewrite bind_done.
    pose proof (reads_keep (e <| ep_inbox := rb |>)) as Hk. exact Hk.
  - unfold onRemoteConsumedData. destruct (advance_marker _ _ _ _) as [rb|]; [|intros ? ? ? ? ? ? ? ? ? Hd; done]. rewrite bind_done.
    pose proof (writes_keep (e <| ep_outbox := rb |>)) as Hk. exact Hk.
  - rewrite on_ep_conn. apply write_done_keeps. auto.
  - rewrite on_ep_conn. apply ack_done_keeps. auto.
  - rewrite on_ep_conn. unfold onError.
    refine (keeps_bind 0 0 0 0 0 0 _ _ _ _ (fun c => if id =? kWriteRequestId then onWriteCompleted c else
      if id =? kAckRequestId then onAckCompleted c else Done (c, [])) (error_keeps _ _) _).
    intros c1 evs1 Hs. apply setError_counts in Hs as [E1 E2].
    destruct (Z.eqb_spec id kWriteRequestId) as [->|].
    + apply write_done_keeps. rewrite E1. auto.
    + destruct (Z.eqb_spec id kAckRequestId) as [->|]; [|apply keeps_nothing].
      apply ack_done_keeps. rewrite E2. auto.
Qed.

(** ** The other handlers *)

Lemma books_same c c' log nr nw dw da cl :
  cn_error_ c' = cn_error_ c -> cn_state_ c <> INITIALIZING -> cn_state_ c' <> INITIALIZING -> cn_qp_ c' = cn_qp_ c ->
  cn_readOperations_ c' = cn_readOperations_ c -> cn_writeOperations_ c' = cn_writeOperations_ c ->
  cn_numWritesInFlight_ c' = cn_numWritesInFlight_ c -> cn_numAcksInFlight_ c' = cn_numAcksInFlight_ c ->
  books c log nr nw dw da cl -> books c' log nr nw dw da cl.
Proof.
  intros E1 E2 E2' E3 E4 E5 E6 E7 []. split; unfold pending_reads, pending_writes in *; rewrite ?E1, ?E3, ?E4, ?E5, ?E6, ?E7; auto; [|intros _; by apply bk_qp0|intros; congruence].
  rewrite bk_cleanups0. unfold finished. rewrite E1, E6, E7, !bool_decide_eq_false_2 by done. done.
Qed.

Lemma read_keeps rq nr0 e log nr nw dw da cl e' evs :
  books (ep_conn e) log nr nw dw da cl -> nr0 = nr -> readFromLoop rq nr0 e = Done (e', evs) -> fits (log ++ evs) dw da ->
  books (ep_conn e') (log ++ evs) (S nr) nw dw da cl.
Proof.
  intros Hb -> Hd Hf. unfold readFromLoop in Hd. destruct (is_error (cn_error_ (ep_conn e))) eqn:Herr.
  - simplify_eq. destruct Hb as [B1 B2 B3 B4 B5 B6 B7 B8 B9]. destruct (B3 Herr) as [R0 W0].
    match goal with |- books _ (log ++ ?evs) _ _ _ _ _ => assert (tally evs [nr] [] 0 0 0) as Ht by by split end.
    destruct (tally_log log _ _ _ _ _ _ Ht) as (E1 & E2 & E3 & E4 & E5).
    split; rewrite ?E1, ?E2, ?E3, ?E4, ?E5, ?app_nil_r, ?Nat.add_0_r; try done.
    rewrite <- Nat.add_1_r, <- seq_plus, <- B1. unfold pending_reads. by rewrite R0, !app_nil_r.
  - match type of Hd with processReadOperationsFromLoop ?x = _ =>
      assert (books (ep_conn x) log (S nr) nw dw da cl) as Hb1; [|
      pose proof (reads_keep x (ep_conn e') evs log (S nr) nw dw da cl Hb1) as Hk; rewrite !Nat.add_0_r in Hk; apply Hk; [|done];
      unfold on_ep; by rewrite Hd] end.
    destruct Hb as [B1 B2 B3 B4 B5 B6 B7 B8 B9]. split; try done.
    + rewrite <- Nat.add_1_r, <- seq_plus, <- B1. unfold pending_reads. simpl. rewrite fmap_app, app_assoc. by destruct rq.
    + simpl. congruence.
Qed.

Lemma write_keeps p nw0 e log nr nw dw da cl e' evs :
  books (ep_conn e) log nr nw dw da cl -> nw0 = nw -> writeFromLoop p nw0 e = Done (e', evs) -> fits (log ++ evs) dw da ->
  books (ep_conn e') (log ++ evs) nr (S nw) dw da cl.
Proof.
  intros Hb -> Hd Hf. unfold writeFromLoop in Hd. destruct (is_error (cn_error_ (ep_conn e))) eqn:Herr.
  - simplify_eq. destruct Hb as [B1 B2 B3 B4 B5 B6 B7 B8 B9]. destruct (B3 Herr) as [R0 W0].
    match goal with |- books _ (log ++ ?evs) _ _ _ _ _ => assert (tally evs [] [nw] 0 0 0) as Ht by by split end.
    destruct (tally_log log _ _ _ _ _ _ Ht) as (E1 & E2 & E3 & E4 & E5).
    split; rewrite ?E1, ?E2, ?E3, ?E4, ?E5, ?app_nil_r, ?Nat.add_0_r; try done.
    rewrite <- Nat.add_1_r, <- seq_plus, <- B2. unfold pending_writes. by rewrite W0, !app_nil_r.
  - match type of Hd with processWriteOperationsFromLoop ?x = _ =>
      assert (books (ep_conn x) log nr (S nw) dw da cl) as Hb1; [|
      pose proof (writes_keep x (ep_conn e') evs log nr (S nw) dw da cl Hb1) as Hk; rewrite !Nat.add_0_r in Hk; apply Hk; [|done];
      unfold on_ep; by rewrite Hd] end.
    destruct Hb as [B1 B2 B3 B4 B5 B6 B7 B8 B9]. split; try done.
    + rewrite <- Nat.add_1_r, <- seq_plus, <- B2. unfold pending_writes. simpl. rewrite fmap_app, app_assoc. by destruct p.
    + simpl. congruence.
Qed.

Lemma keeps_ep c m e' evs log nr nw dw da cl :
  keeps 0 0 0 0 c (on_ep m) -> books c log nr nw dw da cl -> m = Done (e', evs) -> fits (log ++ evs) dw da ->
  books (ep_conn e') (log ++ evs) nr nw dw da cl.
Proof.
  intros Hk Hb Hm Hf. pose proof (Hk (ep_conn e') evs log nr nw dw da cl Hb) as H1. rewrite !Nat.add_0_r in H1.
  apply H1; [|done]. unfold on_ep. by rewrite Hm.
Qed.

Lemma on_conn_error_keeps error e : keeps 0 0 0 0 (ep_conn e) (on_ep (on_conn (setError error) e)).
Proof. rewrite on_ep_conn. apply error_keeps. Qed.

Lemma event_in_keeps recv e log nr nw dw da cl e' evs :
  books (ep_conn e) log nr nw dw da cl -> handleEventInFromLoop recv e = Done (e', evs) -> fits (log ++ evs) dw da ->
  books (ep_conn e') (log ++ evs) nr nw dw da cl.
Proof.
  intros Hb Hd Hf. unfold handleEventInFromLoop in Hd. destruct (cn_state_ (ep_conn e)) eqn:Hst; try done.
  - destruct recv as [n|ex]; [by eapply keeps_ep; [apply on_conn_error_keeps|..]|].
    inv_bind Hd. inv_bind Hd. destruct a0 as [e1 evs1]. inv_bind Hd. destruct a0 as [e2 evs2]. apply done_inj in Hd as [= <- <-].
    match type of Ha0 with processWriteOperationsFromLoop ?x = _ =>
      assert (books (ep_conn x) (log ++ [EvQpReady a (setupInfo ex)]) nr nw dw da cl) as Hb1;
      [|pose proof (writes_keep x) as K1] end.
    { pose proof (keeps_same (ep_conn e) [EvQpReady a (setupInfo ex)] [] [] 0 0 0 ltac:(by split) eq_refl eq_refl eq_refl eq_refl eq_refl
        _ _ log nr nw dw da cl Hb eq_refl) as K0. rewrite !Nat.add_0_r in K0.
      apply (books_same (ep_conn e)); try done; [by rewrite Hst|]. apply K0.
      apply (fits_prefix log [EvQpReady a (setupInfo ex)] (evs1 ++ evs2)). done. }
    change (log ++ EvQpReady a (setupInfo ex) :: evs1 ++ evs2) with (log ++ [EvQpReady a (setupInfo ex)] ++ evs1 ++ evs2) in *.
    rewrite (app_assoc log) in *. pose proof (keeps_ep _ _ _ _ _ _ _ _ _ _ K1 Hb1 Ha0 (fits_prefix _ _ _ _ _ Hf)) as Hb2.
    rewrite (app_assoc _ evs1) in *. exact (keeps_ep _ _ _ _ _ _ _ _ _ _ (reads_keep e1) Hb2 Ha1 Hf).
  - by eapply keeps_ep; [apply on_conn_error_keeps|..].
Qed.

Lemma event_out_keeps info sent e log nr nw dw da cl e' evs :
  books (ep_conn e) log nr nw dw da cl -> handleEventOutFromLoop info sent e = Done (e', evs) -> fits (log ++ evs) dw da ->
  books (ep_conn e') (log ++ evs) nr nw dw da cl.
Proof.
  intros Hb Hd Hf. unfold handleEventOutFromLoop in Hd. destruct (bool_decide_reflect (cn_state_ (ep_conn e) = SEND_ADDR)) as [Hst|]; [|done].
  inv_bind Hd. destruct (negb _); [by eapply keeps_ep; [apply on_conn_error_keeps|..]|]. apply done_inj in Hd as [= <- <-].
  match type of Hf with fits (log ++ ?evs) _ _ => pose proof (keeps_same (ep_conn e) evs [] [] 0 0 0 ltac:(by split) eq_refl eq_refl eq_refl eq_refl eq_refl
    _ _ log nr nw dw da cl Hb eq_refl Hf) as K0 end. rewrite !Nat.add_0_r in K0.
  by apply (books_same (ep_conn e)); [..|exact K0]; rewrite ?Hst.
Qed.

Lemma events_keep b1 b2 b3 b4 so info sent recv e log nr nw dw da cl e' evs :
  books (ep_conn e) log nr nw dw da cl -> handleEventsFromLoop b1 b2 b3 b4 so info sent recv e = Done (e', evs) -> fits (log ++ evs) dw da ->
  books (ep_conn e') (log ++ evs) nr nw dw da cl.
Proof.
  intros Hb Hd Hf. unfold handleEventsFromLoop in Hd.
  destruct b1; [by eapply keeps_ep; [apply on_conn_error_keeps|..]|]. destruct b2; [by eapply event_in_keeps|].
  destruct b3; [by eapply event_out_keeps|]. destruct b4; [by eapply keeps_ep; [apply on_conn_error_keeps|..]|].
  simplify_eq. by rewrite app_nil_r.
Qed.

(** The cleanup that was deferred can be carried out. *)
Lemma cleanup_keeps c log nr nw dw da cl :
  books c log nr nw dw da cl -> (cl < ncleanups log)%nat ->
  exists qp, cn_qp_ c = Some qp /\ cleanup c = Done (c <| cn_qp_ := None |>, [EvUnregisterQp qp]) /\
    books (c <| cn_qp_ := None |>) (log ++ [EvUnregisterQp qp]) nr nw dw da (S cl).
Proof.
  intros [B1 B2 B3 B4 B5 B6 B7 B8 B9] Hcl. rewrite B6 in Hcl. destruct (finished c) eqn:Hfin; [|lia].
  assert (cl = 0%nat) as -> by lia. pose proof Hfin as Hst. unfold finished in Hst. bool_hyps.
  match goal with Hs : cn_state_ c <> INITIALIZING |- _ => rename Hs into Hni end.
  destruct (B8 Hni) as [qp Hqp]. exists qp. split; [done|]. split; [unfold cleanup, get_qp; by rewrite Hqp|].
  assert (tally [EvUnregisterQp qp] [] [] 0 0 0) as Ht by by split.
  destruct (tally_log log _ _ _ _ _ _ Ht) as (E1 & E2 & E3 & E4 & E5).
  split; rewrite ?E1, ?E2, ?E3, ?E4, ?E5, ?app_nil_r, ?Nat.add_0_r; try done.
  - change (finished (c <| cn_qp_ := None |>)) with (finished c). by rewrite B6, Hfin.
  - rewrite B6. lia.
Qed.

(** ** Runs of one connection *)

Inductive handler :=
| HRead (rq : read_request)
| HWrite (p : payload T)
| HSocket (epollerr epollin epollout epollhup : bool) (soerror : Error) (info sent : Z) (recv : recv_result)
| HCompletion (k : completion)
| HClose
| HCleanup
| HRings (inbox outbox : RingBuffer).        (* the peer and the library change the rings *)

(** A connection in error, or not yet initialized, has no socket; completions are
    reported for requests in flight, and none after the cleanup. *)
Definition enabled (h : handler) e log (dw da cl : nat) : bool :=
  match h with
  | HSocket _ _ _ _ _ _ _ _ => negb (is_error (cn_error_ (ep_conn e)))
  | HCompletion k =>
      (cl =? 0)%nat && implb (counts_write k) (dw <? nposts log)%nat && implb (counts_ack k) (da <? nacks log)%nat
  | HCleanup => (cl <? ncleanups log)%nat
  | _ => true
  end.

Definition handle (h : handler) (nread nwrite : nat) e : outcome (endpoint T * list (event T)) :=
  match h with
  | HRead rq => readFromLoop rq nread e
  | HWrite p => writeFromLoop p nwrite e
  | HSocket err ein eout hup soerror info sent recv => handleEventsFromLoop err ein eout hup soerror info sent recv e
  | HCompletion k => on_completion k e
  | HClose => on_conn closeFromLoop e
  | HCleanup => on_conn cleanup e
  | HRings i o => Done (mkEndpoint (ep_conn e) i o, [])
  end.

Definition adds (b : bool) (n : nat) : nat := if b then S n else n.

(** The state, the log, how many reads and writes were requested (request number [k]
    has callback [k]), how many writes and acknowledgements were completed, and how
    many cleanups were run. *)
Inductive conn_run : endpoint T -> list (event T) -> nat -> nat -> nat -> nat -> nat -> Prop :=
| cr_start env b e e' evs :
  ep_conn e = newConnection b -> initFromLoop env e = Done (e', evs) -> conn_run e' evs 0 0 0 0 0
| cr_step h e e' log evs nr nw dw da cl :
  conn_run e log nr nw dw da cl -> enabled h e log dw da cl = true -> handle h nr nw e = Done (e', evs) ->
  let dw' := adds (match h with HCompletion k => counts_write k | _ => false end) dw in
  let da' := adds (match h with HCompletion k => counts_ack k | _ => false end) da in
  fits (log ++ evs) dw da ->
  conn_run e' (log ++ evs) (adds (match h with HRead _ => true | _ => false end) nr)
    (adds (match h with HWrite _ => true | _ => false end) nw) dw' da'
    (adds (match h with HCleanup => true | _ => false end) cl).

Lemma init_books env b e e' evs :
  ep_conn e = newConnection b -> initFromLoop env e = Done (e', evs) -> books (ep_conn e') evs 0 0 0 0 0.
Proof.
  destruct e as [c i o]. cbn [ep_conn]. intros -> Hd. unfold initFromLoop in Hd.
  destruct (ie_contextClosed env).
  { simplify_eq. split; try done. }
  unfold initImplFromLoop in Hd. cbn [ep_conn newConnection cn_socket_] in Hd.
  assert (forall er c0, is_error er = true -> cn_error_ c0 = kSuccess -> cn_qp_ c0 = None -> setError er c0 = Throw ExDangling) as Hset.
  { intros er c0 Her He Hq. unfold setError. rewrite He, Her. cbn. unfold handleErrorImpl, get_qp. cbn. by rewrite Hq. }
  assert (forall er (e0 : endpoint T), is_error er = true -> cn_error_ (ep_conn e0) = kSuccess -> cn_qp_ (ep_conn e0) = None ->
    ('(e, evs) ← on_conn (setError er) e0; Done (e, EvEnroll :: evs)) <> Done (e', evs)) as Hno.
  { intros er e0 H1 H2 H3. unfold on_conn. by rewrite Hset. }
  destruct (negb b && is_error (ie_create env)) eqn:H1.
  { apply andb_true_iff in H1 as [_ H1]. by apply Hno in Hd. }
  destruct (negb b && is_error (ie_reuse env)) eqn:H2.
  { apply andb_true_iff in H2 as [_ H2]. by apply Hno in Hd. }
  destruct (negb b && is_error (ie_connect env)) eqn:H3.
  { apply andb_true_iff in H3 as [_ H3]. by apply Hno in Hd. }
  destruct (is_error (ie_block env)) eqn:H4; [by apply Hno in Hd|].
  inv_bind Hd. inv_bind Hd. clear Ha Ha0. apply done_inj in Hd as [= <- <-]. split; try done. intros _. by eexists.
Qed.

Lemma conn_run_books e log nr nw dw da cl : conn_run e log nr nw dw da cl -> books (ep_conn e) log nr nw dw da cl.
Proof.
  induction 1 as [env b e e' evs He Hi|h e e' log evs nr nw dw da cl _ Hb Hen Hh dw' da' Hf].
  - by eapply init_books.
  - subst dw' da'. destruct h as [rq|p|b1 b2 b3 b4 so info sent recv|k| | |i o]; cbn [handle adds enabled] in *.
    + by eapply read_keeps.
    + by eapply write_keeps.
    + by eapply events_keep.
    + apply andb_true_iff in Hen as [[Hcl Hw]%andb_true_iff Ha].
      assert (keeps 0 0 (if counts_write k then 1 else 0) (if counts_ack k then 1 else 0) (ep_conn e) (on_ep (on_completion k e))) as Hk.
      { apply completion_keeps; intros E; rewrite E in *; cbn in *.
        - apply Nat.ltb_lt in Hw. pose proof (bk_nw _ _ _ _ _ _ _ Hb). lia.
        - apply Nat.ltb_lt in Ha. pose proof (bk_na _ _ _ _ _ _ _ Hb). lia. }
      pose proof (Hk (ep_conn e') evs log nr nw dw da cl Hb) as H1. rewrite !Nat.add_0_r in H1. unfold on_ep in H1. rewrite Hh in H1.
      specialize (H1 eq_refl Hf). destruct (counts_write k), (counts_ack k); cbn [adds]; by rewrite ?Nat.add_1_r, ?Nat.add_0_r in H1.
    + eapply keeps_ep; [|exact Hb | exact Hh | done]. apply on_conn_error_keeps.
    + apply Nat.ltb_lt in Hen. destruct (cleanup_keeps _ _ _ _ _ _ _ Hb Hen) as (qp & Hqp & Hc & Hb'). unfold on_conn in Hh. rewrite Hc, bind_done in Hh.
      by simplify_eq.
    + simplify_eq. by rewrite app_nil_r.
Qed.

Lemma called_split (a b : list nat) n : a ++ b = seq 0 n ->
  (length a <= n)%nat /\ a = seq 0 (length a) /\ (b = [] -> length a = n).
Proof.
  intros Hab. pose proof (f_equal length Hab) as Hl. rewrite length_app, length_seq in Hl.
  split; [lia|]. split; [|intros ->; simpl in Hl; lia].
  apply (f_equal (take (length a))) in Hab. rewrite take_app_length in Hab. rewrite Hab at 1.
  rewrite take_seq. f_equal. lia.
Qed.
End errors.

(** C14: whatever the peer, the socket, the library and the rings do, the callbacks of a
    connection's reads are called in the order of the requests, each at most once, and
    so are those of its writes; in error, all have been called. *)
Theorem ibv_callbacks_once {T} `{NopEncoding T} (e : endpoint T) log nr nw dw da cl :
  conn_run e log nr nw dw da cl ->
  (exists m, (m <= nr)%nat /\ called_reads log = seq 0 m /\ (is_error (cn_error_ (ep_conn e)) = true -> m = nr)) /\
  (exists m, (m <= nw)%nat /\ called_writes log = seq 0 m /\ (is_error (cn_error_ (ep_conn e)) = true -> m = nw)).
Proof.
  intros Hr. apply conn_run_books in Hr as [HR HW Hdr _ _ _ _ _ _].
  destruct (called_split _ _ _ HR) as (R1 & R2 & R3). destruct (called_split _ _ _ HW) as (W1 & W2 & W3).
  split; eexists; (split; [|split; [eassumption|]]); try done; intros He; destruct (Hdr He) as [E1 E2].
  - apply R3. unfold pending_reads. by rewrite E1.
  - apply W3. unfold pending_writes. by rewrite E2.
Qed.

(** C15: the destruction of the queue pair is deferred once, as soon as the connection is
    in error and every write and acknowledgement that it asked for has completed, and
    not before; it then succeeds, and until it is carried out the queue pair exists. *)
Theorem ibv_cleanup_once {T} `{NopEncoding T} (e : endpoint T) log nr nw dw da cl :
  conn_run e log nr nw dw da cl ->
  (cl <= ncleanups log <= 1)%nat /\ (dw <= nposts log)%nat /\ (da <= nacks log)%nat /\
  (ncleanups log = 1%nat <-> is_error (cn_error_ (ep_conn e)) = true /\ cn_state_ (ep_conn e) <> INITIALIZING /\
     dw = nposts log /\ da = nacks log) /\
  ((cl < ncleanups log)%nat -> exists e', on_conn cleanup e = Done e') /\
  (cn_state_ (ep_conn e) <> INITIALIZING -> (cn_qp_ (ep_conn e) = None <-> cl = 1%nat)).
Proof.
  intros Hr. apply conn_run_books in Hr. pose proof Hr as [_ _ _ [Hw Hw'] [Ha Ha'] Hk Hcl Hqp _]. unfold is_u32 in *.
  assert (ncleanups log <= 1)%nat as Hle by (rewrite Hk; destruct (finished _); lia).
  split; [done|]. split; [lia|]. split; [lia|]. split; [|split].
  - rewrite Hk. unfold finished. destruct (is_error (cn_error_ (ep_conn e))); cbn [andb]; [|naive_solver].
    destruct (bool_decide_reflect (cn_state_ (ep_conn e) = INITIALIZING)) as [|Hst]; cbn [negb andb]; [naive_solver|].
    destruct (Z.eqb_spec (cn_numWritesInFlight_ (ep_conn e)) 0), (Z.eqb_spec (cn_numAcksInFlight_ (ep_conn e)) 0); cbn [andb];
      (split; [intros; split_and!; first [done | lia] | intros (_ & _ & ? & ?); first [done | lia]]).
  - intros Hc. destruct (cleanup_keeps _ _ _ _ _ _ _ Hr Hc) as (qp & _ & Hcq & _). unfold on_conn. rewrite Hcq. by eexists.
  - intros Hst. specialize (Hqp Hst). case_decide as Hc0.
    + destruct Hqp as [qp ->]. split; [done | lia].
    + split; [lia | done].
Qed.

(** But a connection that fails before it has a queue pair uses one all the same:
    when its socket cannot be created, connected or set up, [handleErrorImpl] passes the
    null [qp_] to the library. *)
Lemma ibv_init_failure {T} (hasSocket : bool) (inbox outbox : RingBuffer) (env : init_env) :
  initFromLoop env (mkEndpoint (T := T) (newConnection hasSocket) inbox outbox) = Throw ExDangling <->
  ie_contextClosed env = false /\
  (is_error (ie_block env) = true \/
   hasSocket = false /\ (is_error (ie_create env) = true \/ is_error (ie_reuse env) = true \/ is_error (ie_connect env) = true)).
Proof.
  unfold initFromLoop. destruct (ie_contextClosed env); [naive_solver|]. unfold initImplFromLoop. cbn [ep_conn newConnection cn_socket_].
  assert (forall er e0, is_error er = true -> cn_error_ (ep_conn e0) = kSuccess -> cn_qp_ (ep_conn e0) = None ->
    ('(e, evs) ← on_conn (T := T) (setError er) e0; Done (e, EvEnroll :: evs)) = Throw ExDangling) as Hno.
  { intros er e0 H1 H2 H3. unfold on_conn, setError. rewrite H2, H1. cbn. unfold handleErrorImpl, get_qp. cbn. by rewrite H3. }
  destruct new_rings as (rb & Hi & Ho & _). rewrite Hi, Ho, !bind_done. clear Hi Ho.
  destruct hasSocket; cbn [negb andb].
  - destruct (is_error (ie_block env)) eqn:H4; [rewrite Hno by done; naive_solver | naive_solver].
  - destruct (is_error (ie_create env)) eqn:H1; [rewrite Hno by done; naive_solver|].
    destruct (is_error (ie_reuse env)) eqn:H2; [rewrite Hno by done; naive_solver|].
    destruct (is_error (ie_connect env)) eqn:H3; [rewrite Hno by done; naive_solver|].
    destruct (is_error (ie_block env)) eqn:H4; [rewrite Hno by done; naive_solver | naive_solver].
Qed.

(** A connection whose socket fails while a read and a write are pending. *)
Definition failing_conn : endpoint (Z * Z * Z) :=
  mkEndpoint (newConnection true) (mkRb (mkHeader 0 0 [] []) []) (mkRb (mkHeader 0 0 [] []) []).
Definition failing_at (rb : RingBuffer) (error : Error) (socket : bool) (qp : option Z)
    (rds : list (RingbufferReadOperation (Z * Z * Z))) (wrs : list (RingbufferWriteOperation (Z * Z * Z))) : endpoint (Z * Z * Z) :=
  mkEndpoint (mkConn error SEND_ADDR socket qp 4096 1 4194304 2 0 0 0 0 0 rds wrs) rb (widen 0 rb).
Definition failing_log : list (event (Z * Z * Z)) :=
  [EvEnroll; EvQpInit 7; EvRegisterQp 7; EvRegister false] ++
  [EvRead (mkReadCall 0 (SystemError 104) [] None); EvWrite (mkWriteCall 0 (SystemError 104));
   EvQpError 7; EvDeferCleanup; EvUnregister; EvUnenroll] ++ [EvUnregisterQp 7].

Lemma failing_run : exists rb, conn_run (failing_at rb (SystemError 104) false None [] []) failing_log 1 1 0 0 1.
Proof.
  destruct new_rings as (rb & Hi & Ho & _). exists rb.
  assert (initFromLoop (mkInitEnv false kSuccess kSuccess kSuccess kSuccess 4096 1 4194304 2 7) failing_conn =
    Done (failing_at rb kSuccess true (Some 7) [] [], [EvEnroll; EvQpInit 7; EvRegisterQp 7; EvRegister false])) as Hinit.
  { unfold initFromLoop, initImplFromLoop. cbn [ie_contextClosed ie_create ie_reuse ie_connect ie_block failing_conn ep_conn newConnection cn_socket_ negb is_error andb].
    rewrite Hi, Ho, !bind_done. reflexivity. }
  clear Hi Ho. pose proof (cr_start _ true failing_conn _ _ eq_refl Hinit) as R0. clear Hinit.
  pose proof (cr_step (HRead RqAuto) _ (failing_at rb kSuccess true (Some 7) [newReadOpAuto 0] []) _ [] _ _ _ _ _
    R0 eq_refl eq_refl ltac:(done)) as R1. rewrite app_nil_r in R1.
  pose proof (cr_step (HWrite (PBytes [1])) _ (failing_at rb kSuccess true (Some 7) [newReadOpAuto 0] [newWriteOpBuffer [1] 1 0]) _ [] _ _ _ _ _
    R1 eq_refl eq_refl ltac:(done)) as R2. rewrite app_nil_r in R2.
  assert (handle (HSocket true false false false (SystemError 104) 0 0 (inl 0)) 1 1
      (failing_at rb kSuccess true (Some 7) [newReadOpAuto 0] [newWriteOpBuffer [1] 1 0]) =
    Done (failing_at rb (SystemError 104) false (Some 7) [] [],
      [EvRead (mkReadCall 0 (SystemError 104) [] None); EvWrite (mkWriteCall 0 (SystemError 104));
       EvQpError 7; EvDeferCleanup; EvUnregister; EvUnenroll])) as H3 by reflexivity.
  pose proof (cr_step (HSocket true false false false (SystemError 104) 0 0 (inl 0)) _ _ _ _ _ _ _ _ _ R2 eq_refl H3 ltac:(done)) as R3. clear H3 R0 R1 R2.
  exact (cr_step HCleanup _ (failing_at rb (SystemError 104) false None [] []) _ [EvUnregisterQp 7] _ _ _ _ _ R3 eq_refl eq_refl ltac:(done)).
Qed.

Lemma ibv_callbacks_once_witness :
  exists (log : list (event (Z * Z * Z))), called_reads log = [0%nat] /\ called_writes log = [0%nat].
Proof.
  destruct failing_run as (rb & Hr). exists failing_log.
  destruct (ibv_callbacks_once _ _ _ _ _ _ _ Hr) as [(m & _ & Hm & Hme) (m' & _ & Hm' & Hme')].
  rewrite Hm, Hm', (Hme eq_refl), (Hme' eq_refl). split; reflexivity.
Defined.

Lemma ibv_cleanup_once_witness :
  exists (log : list (event (Z * Z * Z))) dw da, ncleanups log = 1%nat /\ dw = nposts log /\ da = nacks log.
Proof.
  destruct failing_run as (rb & Hr). assert (ncleanups failing_log = 1%nat) as Hk by reflexivity.
  exists failing_log, 0%nat, 0%nat. split; [exact Hk|].
  destruct (ibv_cleanup_once _ _ _ _ _ _ _ Hr) as (_ & _ & _ & Hiff & _). apply Hiff in Hk as (_ & _ & H1 & H2). split; [exact H1 | exact H2].
Defined.
