(* ===== verification/DeferredExecutor.v ===== *)
(** * Deferred executors

    Models [common/deferred_executor.h].  The on-demand executor has no thread:
    a thread that defers a task while no loop is running becomes the loop and
    runs tasks until none is left.  The event-loop executor has a thread of its
    own, and hands over to an on-demand one when that thread winds down.

    Threads interleave; a critical section of the code is one step.  Each
    thread has a stack of frames, since a task may defer other tasks.  The ghost
    lists record the tasks in the order in which they were deferred and started. *)

From S2P Require Import Prelude.

(** Threads. *)
Definition tid : Set := nat.
#[export] Instance tid_eq_dec : EqDecision tid := Nat.eq_dec.

Section executor.
Context {task : Type}.


(** ** [OnDemandDeferredExecutor] *)

Inductive frame :=
| Draining                (* in the [while] loop of [deferToLoop], between tasks *)
| InTask (t : task).

Record OnDemand := mkOnDemand {
  od_currentLoop_ : option tid;
  od_pendingTasks_ : list task;
  od_stacks : tid -> list frame;
  od_deferred : list task;
  od_started : list task;
  }.

Inductive od_action :=
| OdDefer (i : tid) (t : task)     (* thread [i] calls [deferToLoop(t)] *)
| OdPop (i : tid)                  (* takes the next task and starts it *)
| OdFinish (i : tid)               (* the task returns *)
| OdLeave (i : tid).               (* no task left: the makeshift loop ends *)

Definition set_stack (i : tid) (s : list frame) (f : tid -> list frame) : tid -> list frame :=
  fun j => if decide (j = i) then s else f j.

Definition od_inLoop (i : tid) (s : OnDemand) : bool := bool_decide (od_currentLoop_ s = Some i).

Definition od_step (a : od_action) (s : OnDemand) : option OnDemand :=
  match a with
  | OdDefer i t =>
      match od_stacks s i with
      | Draining :: _ => None              (* busy inside [deferToLoop] itself *)
      | stack =>
          match od_currentLoop_ s with
          | Some _ =>
              Some (mkOnDemand (od_currentLoop_ s) (od_pendingTasks_ s ++ [t]) (od_stacks s)
                      (od_deferred s ++ [t]) (od_started s))
          | None =>
              Some (mkOnDemand (Some i) (od_pendingTasks_ s ++ [t])
                      (set_stack i (Draining :: stack) (od_stacks s))
                      (od_deferred s ++ [t]) (od_started s))
          end
      end
  | OdPop i =>
      match od_stacks s i, od_pendingTasks_ s with
      | Draining :: stack, t :: rest =>
          Some (mkOnDemand (od_currentLoop_ s) rest
                  (set_stack i (InTask t :: Draining :: stack) (od_stacks s))
                  (od_deferred s) (od_started s ++ [t]))
      | _, _ => None
      end
  | OdFinish i =>
      match od_stacks s i with
      | InTask t :: stack =>
          Some (mkOnDemand (od_currentLoop_ s) (od_pendingTasks_ s)
                  (set_stack i stack (od_stacks s)) (od_deferred s) (od_started s))
      | _ => None
      end
  | OdLeave i =>
      match od_stacks s i, od_pendingTasks_ s with
      | Draining :: stack, [] =>
          Some (mkOnDemand None [] (set_stack i stack (od_stacks s)) (od_deferred s) (od_started s))
      | _, _ => None
      end
  end.

Definition od_init : OnDemand := mkOnDemand None [] (fun _ => []) [] [].

Inductive od_reachable : OnDemand -> Prop :=
| odr_init : od_reachable od_init
| odr_step a s s' : od_reachable s -> od_step a s = Some s' -> od_reachable s'.

(** Thread [i] is executing a task. *)
Definition in_task (i : tid) (s : OnDemand) : Prop := exists t stack, od_stacks s i = InTask t :: stack.

Record od_inv (s : OnDemand) : Prop := {
  oi_idle : od_currentLoop_ s = None -> od_pendingTasks_ s = [] /\ forall i, od_stacks s i = [];
  oi_loop : forall i, od_currentLoop_ s = Some i ->
    (od_stacks s i = [Draining] \/ exists t, od_stacks s i = [InTask t; Draining]) /\
    forall j, j <> i -> od_stacks s j = [];
  oi_fifo : od_deferred s = od_started s ++ od_pendingTasks_ s;
  }.

Lemma set_stack_eq i s f : set_stack i s f i = s.
Proof. unfold set_stack. by rewrite decide_True. Qed.
Lemma set_stack_ne i j s f : j <> i -> set_stack i s f j = f j.
Proof. intros. unfold set_stack. by rewrite decide_False. Qed.

(** Only the current loop has a stack. *)
Lemma od_inv_stack s i : od_inv s -> od_stacks s i <> [] -> od_currentLoop_ s = Some i.
Proof.
  intros [Hi Hl _] Hne. destruct (od_currentLoop_ s) as [j|] eqn:Hc.
  - f_equal. destruct (decide (i = j)) as [->|Hij]; [done|].
    destruct (Hl j eq_refl) as [_ Ho]. by rewrite (Ho i Hij) in Hne.
  - destruct (Hi eq_refl) as [_ He]. by rewrite He in Hne.
Qed.

Lemma od_step_inv a s s' : od_inv s -> od_step a s = Some s' -> od_inv s'.
Proof.
  intros Hinv Hs. pose proof Hinv as [Hi Hl Hf]. destruct a as [i t|i|i|i]; simpl in Hs.
  - destruct (od_stacks s i) as [|f st] eqn:He.
    + destruct (od_currentLoop_ s) as [j|] eqn:Hc; simplify_eq; split; simpl; try done.
      * rewrite Hf. by rewrite app_assoc.
      * intros k [= ->]. rewrite set_stack_eq. split; [by left|]. intros j Hj.
        rewrite set_stack_ne by done. by apply (Hi eq_refl).
      * rewrite Hf. by rewrite app_assoc.
    + destruct f; [done|]. rewrite (od_inv_stack s i) in * by (try done; by rewrite He).
      simplify_eq; split; simpl; try done. rewrite Hf. by rewrite app_assoc.
  - destruct (od_stacks s i) as [|[] st] eqn:He; try done.
    pose proof (od_inv_stack s i Hinv ltac:(by rewrite He)) as Hc.
    destruct (od_pendingTasks_ s) as [|t rest] eqn:Hp; [done|]. simplify_eq.
    destruct (Hl i Hc) as [[Hst|[x Hst]] Ho]; rewrite He in Hst; simplify_eq.
    split; simpl; [congruence| |by rewrite <- app_assoc].
    intros j Hj. rewrite Hc in Hj. simplify_eq. rewrite set_stack_eq. split; [right; eauto|].
    intros k Hk. rewrite set_stack_ne by done. by apply Ho.
  - destruct (od_stacks s i) as [|[] st] eqn:He; try done.
    pose proof (od_inv_stack s i Hinv ltac:(by rewrite He)) as Hc. simplify_eq.
    destruct (Hl i Hc) as [[Hst|[x Hst]] Ho]; rewrite He in Hst; simplify_eq.
    split; simpl; [congruence| |done].
    intros j Hj. rewrite Hc in Hj. simplify_eq. rewrite set_stack_eq. split; [by left|].
    intros k Hk. rewrite set_stack_ne by done. by apply Ho.
  - destruct (od_stacks s i) as [|[] st] eqn:He; try done.
    pose proof (od_inv_stack s i Hinv ltac:(by rewrite He)) as Hc.
    destruct (od_pendingTasks_ s) eqn:Hp; [|done]. simplify_eq.
    destruct (Hl i Hc) as [[Hst|[x Hst]] Ho]; rewrite He in Hst; simplify_eq.
    split; simpl; [|done|done]. intros _. split; [done|]. intros j.
    destruct (decide (j = i)) as [->|Hj]; [by rewrite set_stack_eq|].
    rewrite set_stack_ne by done. by apply Ho.
Qed.

Lemma od_reachable_inv s : od_reachable s -> od_inv s.
Proof.
  induction 1 as [|a s s' _ IH Hs]; [|by eapply od_step_inv].
  by split.
Qed.

(** ** [EventLoopDeferredExecutor] *)

#[local] Arguments od_step : simpl never.

Record EventLoop := mkEventLoop {
  el_isThreadConsuming_ : bool;   (* [isThreadConsumingDeferredFunctions_] *)
  el_fns_ : list task;
  el_batch : list task;           (* the local [fns] of the thread *)
  el_running : option task;       (* what the thread is executing *)
  el_late : list (tid * task);    (* saw the flag off, not yet in [onDemandLoop_] *)
  el_onDemandLoop_ : OnDemand;
  el_deferred : list task;
  el_started : list task;
  }.

Inductive el_action :=
| ElDefer (i : tid) (t : task)   (* [deferToLoop] up to the end of its critical section *)
| ElLate (k : nat)               (* ... and its call of [onDemandLoop_.deferToLoop] *)
| ElSwap                         (* the thread takes all deferred functions *)
| ElRun                          (* ... starts the next of them *)
| ElDone                         (* ... which returns *)
| ElStop                         (* nothing is left: control goes to the on-demand loop *)
| ElOnDemand (a : od_action).    (* a step of the on-demand loop *)

Definition el_step (a : el_action) (s : EventLoop) : option EventLoop :=
  let '(mkEventLoop c fns batch run late od df st) := s in
  match a with
  | ElDefer i t =>
      if c then Some (mkEventLoop c (fns ++ [t]) batch run late od (df ++ [t]) st)
      else Some (mkEventLoop c fns batch run (late ++ [(i, t)]) od df st)
  | ElLate k =>
      match late !! k with
      | Some (i, t) =>
          match od_step (OdDefer i t) od with
          | Some od' => Some (mkEventLoop c fns batch run (delete k late) od' (df ++ [t]) st)
          | None => None
          end
      | None => None
      end
  | ElSwap =>
      match c, batch, run with
      | true, [], None => Some (mkEventLoop c [] fns run late od df st)
      | _, _, _ => None
      end
  | ElRun =>
      match batch, run with
      | t :: rest, None => Some (mkEventLoop c fns rest (Some t) late od df (st ++ [t]))
      | _, _ => None
      end
  | ElDone =>
      match run with
      | Some _ => Some (mkEventLoop c fns batch None late od df st)
      | None => None
      end
  | ElStop =>
      match c, fns, batch, run with
      | true, [], [], None => Some (mkEventLoop false fns batch run late od df st)
      | _, _, _, _ => None
      end
  | ElOnDemand a =>
      match a with
      | OdDefer _ _ => None        (* only through [ElDefer] and [ElLate] *)
      | _ =>
          match od_step a od with
          | Some od' =>
              Some (mkEventLoop c fns batch run late od' df
                      (st ++ drop (length (od_started od)) (od_started od')))
          | None => None
          end
      end
  end.

(** The thread has been started. *)
Definition el_init : EventLoop := mkEventLoop true [] [] None [] od_init [] [].

Inductive el_reachable : EventLoop -> Prop :=
| elr_init : el_reachable el_init
| elr_step a s s' : el_reachable s -> el_step a s = Some s' -> el_reachable s'.

Record el_inv (s : EventLoop) : Prop := {
  ei_od : od_inv (el_onDemandLoop_ s);
  ei_on : el_isThreadConsuming_ s = true -> el_onDemandLoop_ s = od_init /\ el_late s = [];
  ei_off : el_isThreadConsuming_ s = false ->
    el_fns_ s = [] /\ el_batch s = [] /\ el_running s = None;
  ei_fifo : el_deferred s =
    el_started s ++ el_batch s ++ el_fns_ s ++ od_pendingTasks_ (el_onDemandLoop_ s);
  }.

(** What a step of the on-demand loop other than a deferral adds to the started tasks. *)
Lemma od_step_started a s s' :
  od_inv s -> od_step a s = Some s' -> (forall i t, a <> OdDefer i t) ->
  od_started s ++ drop (length (od_started s)) (od_started s') = od_started s' /\
  drop (length (od_started s)) (od_started s') ++ od_pendingTasks_ s' = od_pendingTasks_ s.
Proof.
  intros Hinv Hs Hnd. destruct a as [i t|i|i|i]; unfold od_step in Hs; [by destruct (Hnd i t)|..].
  - destruct (od_stacks s i) as [|[] ?]; try done. destruct (od_pendingTasks_ s); simplify_eq.
    simpl. by rewrite drop_app_length.
  - destruct (od_stacks s i) as [|[] ?]; simplify_eq. simpl. by rewrite drop_all, app_nil_r.
  - destruct (od_stacks s i) as [|[] ?]; try done. destruct (od_pendingTasks_ s); simplify_eq.
    simpl. by rewrite drop_all, app_nil_r.
Qed.

Lemma od_step_defer i t s s' :
  od_step (OdDefer i t) s = Some s' -> od_pendingTasks_ s' = od_pendingTasks_ s ++ [t].
Proof.
  unfold od_step. intros Hs. destruct (od_stacks s i) as [|[] ?]; try done;
    destruct (od_currentLoop_ s); by simplify_eq.
Qed.

Lemma el_step_inv a s s' : el_inv s -> el_step a s = Some s' -> el_inv s'.
Proof.
  destruct s as [c fns batch run late od df st]. intros [Ho Hon Hoff Hf] Hs. simpl in *.
  destruct a as [i t|k| | | | |a].
  - destruct c; simplify_eq; split; simpl; try done.
    destruct (Hon eq_refl) as [-> _]. simpl. by rewrite !app_nil_r, <- !app_assoc.
  - destruct (late !! k) as [[i t]|] eqn:Hk; [|done].
    destruct (od_step (OdDefer i t) od) as [od'|] eqn:Hod; [|done].
    assert (c = false) as ->.
    { destruct c; [|done]. destruct (Hon eq_refl) as [_ ->]. done. }
    destruct (Hoff eq_refl) as (-> & -> & ->). simplify_eq. split; simpl; try done.
    + by eapply od_step_inv.
    + rewrite (od_step_defer _ _ _ _ Hod). simpl. by rewrite <- ?app_assoc.
  - destruct c, batch, run; simplify_eq. split; simpl; try done.
  - destruct batch as [|t rest], run; simplify_eq. split; simpl; try done.
    + intros He. destruct (Hoff He) as (_ & ? & _). done.
    + by rewrite <- !app_assoc.
  - destruct run; simplify_eq. split; simpl; try done.
    intros He. by destruct (Hoff He) as (? & ? & _).
  - destruct c, fns, batch, run; simplify_eq. split; simpl; try done.
  - assert (forall i t, a <> OdDefer i t) as Hnd by (intros i t ->; done).
    assert (exists od', od_step a od = Some od' /\ s' = mkEventLoop c fns batch run late od' df
      (st ++ drop (length (od_started od)) (od_started od'))) as (od' & Hod & ->).
    { destruct a; [done|..]; destruct (od_step _ od) as [od'|]; simplify_eq; eauto. }
    assert (c = false) as ->.
    { destruct c; [|done]. destruct (Hon eq_refl) as [-> _].
      destruct a; unfold od_step in Hod; done. }
    destruct (Hoff eq_refl) as (-> & -> & ->).
    destruct (od_step_started a od od' Ho Hod Hnd) as [_ H2].
    split; simpl; try done.
    + by eapply od_step_inv.
    + by rewrite Hf, <- H2, <- app_assoc.
Qed.

Lemma el_reachable_inv s : el_reachable s -> el_inv s.
Proof.
  induction 1 as [|a s s' _ IH Hs]; [|by eapply el_step_inv].
  split; simpl; try done.
Qed.
End executor.

Arguments OnDemand task : clear implicits.
Arguments EventLoop task : clear implicits.
Arguments od_action task : clear implicits.
Arguments el_action task : clear implicits.

(** ** The theorems *)

(** The on-demand executor runs one task at a time, in the order they were
    deferred, and on the thread for which [inLoop] holds; and it never goes idle
    with a task left behind. *)
Lemma on_demand_safe {task} (s : OnDemand task) :
  od_reachable s ->
  (forall i j, in_task i s -> in_task j s -> i = j) /\
  (forall i, in_task i s -> od_inLoop i s = true) /\
  od_started s `prefix_of` od_deferred s /\
  ((forall i, od_stacks s i = []) -> od_started s = od_deferred s).
Proof.
  intros Hr. pose proof (od_reachable_inv s Hr) as Hinv.
  assert (forall i, in_task i s -> od_currentLoop_ s = Some i) as Hcur.
  { intros i (t & st & Hst). apply od_inv_stack; [done|]. by rewrite Hst. }
  split; [intros i j Hi Hj; apply Hcur in Hi, Hj; congruence|].
  split; [intros i Hi; apply bool_decide_eq_true; by apply Hcur|].
  rewrite (oi_fifo _ Hinv). split; [by apply prefix_app_r|]. intros Hidle.
  assert (od_currentLoop_ s = None) as Hn.
  { destruct (od_currentLoop_ s) as [i|] eqn:Hc; [|done].
    destruct (oi_loop _ Hinv i Hc) as [[Hst|[t Hst]] _]; by rewrite Hidle in Hst. }
  destruct (oi_idle _ Hinv Hn) as [-> _]. by rewrite app_nil_r.
Qed.

Definition od_demo_script : list (od_action nat) :=
  [OdDefer 0 10; OdPop 0; OdDefer 1 11; OdDefer 0 12; OdFinish 0; OdPop 0]%nat.

Definition od_run {task} (l : list (od_action task)) : option (OnDemand task) :=
  foldl (fun o a => s ← o; od_step a s) (Some od_init) l.

Lemma od_run_reachable {task} (l : list (od_action task)) s : od_run l = Some s -> od_reachable s.
Proof.
  unfold od_run. revert s. induction l as [|a l IH] using rev_ind; simpl; intros s Hs.
  - simplify_eq. constructor.
  - rewrite foldl_app in Hs. simpl in Hs. apply bind_Some in Hs as (s1 & H1 & H2).
    eapply odr_step; [by apply IH | done].
Qed.

Lemma on_demand_safe_witness :
  exists s : OnDemand nat, od_run od_demo_script = Some s /\ od_started s = [10; 11]%nat /\
    od_started s `prefix_of` od_deferred s.
Proof.
  destruct (od_run od_demo_script) as [s|] eqn:Hs; [|discriminate Hs].
  exists s. split; [done|]. split; [by injection Hs as <-|].
  exact (proj1 (proj2 (proj2 (on_demand_safe s (od_run_reachable _ _ Hs))))).
Defined.

(** So does the event-loop executor, across the hand-over from its thread to
    the on-demand loop: tasks start in the order in which they were queued, the
    thread and the on-demand loop never both execute one, and nothing queued is
    lost when the thread stops. *)
Lemma event_loop_safe {task} (s : EventLoop task) :
  el_reachable s ->
  el_started s `prefix_of` el_deferred s /\
  (el_running s <> None -> forall i, ~ in_task i (el_onDemandLoop_ s)) /\
  (forall i j, in_task i (el_onDemandLoop_ s) -> in_task j (el_onDemandLoop_ s) -> i = j) /\
  (el_isThreadConsuming_ s = false -> (forall i, od_stacks (el_onDemandLoop_ s) i = []) ->
   el_started s = el_deferred s).
Proof.
  intros Hr. destruct (el_reachable_inv s Hr) as [Ho Hon Hoff Hf].
  rewrite Hf. split; [by apply prefix_app_r|].
  assert (forall i, in_task i (el_onDemandLoop_ s) -> od_currentLoop_ (el_onDemandLoop_ s) = Some i)
    as Hcur.
  { intros i (t & st & Hst). apply od_inv_stack; [done|]. by rewrite Hst. }
  split; [|split].
  - intros Hrun i (t & st & Hst). destruct (el_isThreadConsuming_ s) eqn:Hc.
    + destruct (Hon eq_refl) as [He _]. by rewrite He in Hst.
    + destruct (Hoff eq_refl) as (_ & _ & He). done.
  - intros i j Hi Hj. apply Hcur in Hi, Hj. congruence.
  - intros Hc Hidle. destruct (Hoff Hc) as (-> & -> & _).
    assert (od_currentLoop_ (el_onDemandLoop_ s) = None) as Hn.
    { destruct (od_currentLoop_ (el_onDemandLoop_ s)) as [i|] eqn:Hcu; [|done].
      destruct (oi_loop _ Ho i Hcu) as [[Hst|[t Hst]] _]; by rewrite Hidle in Hst. }
    destruct (oi_idle _ Ho Hn) as [-> _]. by rewrite !app_nil_r.
Qed.

Definition el_demo_script : list (el_action nat) :=
  [ElDefer 0 10; ElSwap; ElRun; ElDefer 1 11; ElDone; ElSwap; ElRun; ElDone; ElStop;
   ElDefer 2 12; ElLate 0; ElOnDemand (OdPop 2)]%nat.

Definition el_run {task} (l : list (el_action task)) : option (EventLoop task) :=
  foldl (fun o a => s ← o; el_step a s) (Some el_init) l.

Lemma el_run_reachable {task} (l : list (el_action task)) s : el_run l = Some s -> el_reachable s.
Proof.
  unfold el_run. revert s. induction l as [|a l IH] using rev_ind; simpl; intros s Hs.
  - simplify_eq. constructor.
  - rewrite foldl_app in Hs. simpl in Hs. apply bind_Some in Hs as (s1 & H1 & H2).
    eapply elr_step; [by apply IH | done].
Qed.

Lemma event_loop_safe_witness :
  exists s : EventLoop nat, el_run el_demo_script = Some s /\ el_started s = [10; 11; 12]%nat /\
    el_started s `prefix_of` el_deferred s.
Proof.
  destruct (el_run el_demo_script) as [s|] eqn:Hs; [|discriminate Hs].
  exists s. split; [done|]. split; [by injection Hs as <-|].
  exact (proj1 (event_loop_safe s (el_run_reachable _ _ Hs))).
Defined.
