(* ===== verification/BusyPolling.v ===== *)
(** * Loops that poll

    Models [common/busy_polling_loop.h], the event loop of the reactors of the
    shared-memory and the InfiniBand transport, on top of the executor of
    [DeferredExecutor]: the thread polls, runs the functions that were deferred when
    there is nothing to poll, and leaves when it was stopped and its subclass is ready
    to close.

    The subclass is a parameter: its state, [pollOnce] and [readyToClose].  The threads
    that defer functions, whoever else changes the state of the subclass, and the
    thread of the loop take turns, one critical section or atomic access at a time. *)

From S2P Require Import Prelude DeferredExecutor.

#[local] Arguments od_step : simpl never.

Section busy.
Context {task St : Type}.
Variable pollOnce : St -> outcome (bool * St).
Variable readyToClose : St -> bool.

(** Where the thread is in [eventLoop]: at the halves of the condition, at [pollOnce],
    at the test of the count, running the functions that it took ([total] of them, to
    be subtracted), or back in [EventLoopDeferredExecutor::loop]. *)
Inductive place :=
| AtClosed
| AtReady
| AtPoll
| AtCount
| InFunctions (total : nat)
| Returned.

(** [bw_closed_] and [bw_count_] are [closed_] and [deferredFunctionCount_]. *)
Record bworld := mkBworld {
  bw_closed_ : bool;
  bw_count_ : Z;
  bw_parent : EventLoop task;
  bw_sub : St;
  bw_place : place;
}.

Inductive baction :=
| BDefer (i : tid) (t : task)       (* [deferToLoop] up to the end of its critical section *)
| BLate (k : nat)
| BOnDemand (a : od_action task)
| BStop                             (* [stopBusyPolling] *)
| BSub (s : St)                     (* the subclass is used by others *)
| BThread.                          (* the thread goes on *)

(** A deferral counts ([wakeupEventLoopToDeferFunction]) within its critical section. *)
Definition deferToLoop (i : tid) (t : task) (w : bworld) : option bworld :=
  p ← el_step (ElDefer i t) (bw_parent w);
  Some (mkBworld (bw_closed_ w) (if el_isThreadConsuming_ (bw_parent w) then s64 (bw_count_ w + 1) else bw_count_ w)
          p (bw_sub w) (bw_place w)).

Definition go (p : place) (w : bworld) : option bworld :=
  Some (mkBworld (bw_closed_ w) (bw_count_ w) (bw_parent w) (bw_sub w) p).
Definition parent_step (a : el_action task) (p : place) (w : bworld) : option bworld :=
  e ← el_step a (bw_parent w); Some (mkBworld (bw_closed_ w) (bw_count_ w) e (bw_sub w) p).

(** The next step of the functions that were taken: one of them returns, or the next
    one starts. *)
Definition next_function (w : bworld) : option (el_action task) :=
  match el_running (bw_parent w), el_batch (bw_parent w) with
  | Some _, _ => Some ElDone
  | None, _ :: _ => Some ElRun
  | None, [] => None
  end.

Definition thread_step (w : bworld) : option bworld :=
  match bw_place w with
  | AtClosed => go (if bw_closed_ w then AtReady else AtPoll) w
  | AtReady => go (if readyToClose (bw_sub w) then Returned else AtPoll) w
  | AtPoll =>
      match pollOnce (bw_sub w) with
      | Done (b, s) => Some (mkBworld (bw_closed_ w) (bw_count_ w) (bw_parent w) s (if (b : bool) then AtClosed else AtCount))
      | Throw _ => None
      end
  | AtCount =>
      if 0 <? bw_count_ w then parent_step ElSwap (InFunctions (length (el_fns_ (bw_parent w)))) w
      else go AtClosed w
  | InFunctions total =>
      match next_function w with
      | Some a => parent_step a (InFunctions total) w
      | None => Some (mkBworld (bw_closed_ w) (s64 (bw_count_ w - Z.of_nat total)) (bw_parent w) (bw_sub w) AtClosed)
      end
  | Returned =>
      match next_function w with
      | Some a => parent_step a Returned w
      | None =>
          match el_fns_ (bw_parent w) with
          | [] => parent_step ElStop Returned w
          | _ => parent_step ElSwap Returned w
          end
      end
  end.

Definition bstep (a : baction) (w : bworld) : option bworld :=
  match a with
  | BDefer i t => deferToLoop i t w
  | BLate k => parent_step (ElLate k) (bw_place w) w
  | BOnDemand b => parent_step (ElOnDemand b) (bw_place w) w
  | BStop => Some (mkBworld true (bw_count_ w) (bw_parent w) (bw_sub w) (bw_place w))
  | BSub s => Some (mkBworld (bw_closed_ w) (bw_count_ w) (bw_parent w) s (bw_place w))
  | BThread => thread_step w
  end.

Definition bstart (s : St) : bworld := mkBworld false 0 el_init s AtClosed.

(** Fewer than [2^61] functions wait at a time. *)
Definition bpossible (a : baction) (w : bworld) : Prop :=
  match a with BDefer _ _ => Z.of_nat (length (el_fns_ (bw_parent w))) < 2 ^ 61 | _ => True end.

Inductive breach : bworld -> Prop :=
| breach_start s : breach (bstart s)
| breach_step w a w' : breach w -> bpossible a w -> bstep a w = Some w' -> breach w'.

(** ** The parent sees an event loop *)

Lemma parent_step_place a p w w' :
  parent_step a p w = Some w' ->
  el_step a (bw_parent w) = Some (bw_parent w') /\ bw_place w' = p /\ bw_count_ w' = bw_count_ w /\ bw_sub w' = bw_sub w /\ bw_closed_ w' = bw_closed_ w.
Proof. unfold parent_step. destruct (el_step a (bw_parent w)); [by intros [= <-] | done]. Qed.

Lemma thread_step_parent w w' :
  thread_step w = Some w' -> bw_parent w' = bw_parent w \/ exists a, el_step a (bw_parent w) = Some (bw_parent w').
Proof.
  unfold thread_step, go. destruct (bw_place w).
  1,2: by intros [= <-]; left.
  - destruct (pollOnce (bw_sub w)) as [[b s]|]; [|done]. by intros [= <-]; left.
  - destruct (0 <? bw_count_ w); [|by intros [= <-]; left]. intros (? & _)%parent_step_place. right. by eexists.
  - destruct (next_function w); [intros (? & _)%parent_step_place; right; by eexists | by intros [= <-]; left].
  - destruct (next_function w); [|destruct (el_fns_ (bw_parent w))]; intros (? & _)%parent_step_place; right; by eexists.
Qed.

Lemma bstep_parent a w w' :
  bstep a w = Some w' -> bw_parent w' = bw_parent w \/ exists b, el_step b (bw_parent w) = Some (bw_parent w').
Proof.
  destruct a; cbn [bstep].
  - unfold deferToLoop. destruct (el_step (ElDefer i t) (bw_parent w)) eqn:E; [|done]. intros [= <-]. right. by eexists.
  - intros (? & _)%parent_step_place. right. by eexists.
  - intros (? & _)%parent_step_place. right. by eexists.
  - by intros [= <-]; left.
  - by intros [= <-]; left.
  - apply thread_step_parent.
Qed.

Lemma breach_parent w : breach w -> el_reachable (bw_parent w).
Proof.
  induction 1 as [s|w a w' _ IH _ Hs]; [constructor|].
  destruct (bstep_parent a w w' Hs) as [->|[b Hb]]; [done|]. by eapply elr_step.
Qed.

(** ** The count *)

Definition nfns (w : bworld) : nat := length (el_fns_ (bw_parent w)).

Record binv (w : bworld) : Prop := {
  bv_on : bw_place w <> Returned -> el_isThreadConsuming_ (bw_parent w) = true;
  bv_idle : match bw_place w with
            | InFunctions _ | Returned => True
            | _ => el_batch (bw_parent w) = [] /\ el_running (bw_parent w) = None
            end;
  bv_count : match bw_place w with
             | Returned => True
             | InFunctions total => bw_count_ w = Z.of_nat (nfns w + total) /\ Z.of_nat total <= 2 ^ 61
             | _ => bw_count_ w = Z.of_nat (nfns w)
             end;
  bv_fns : Z.of_nat (nfns w) <= 2 ^ 61;
}.

(** Steps of the on-demand loop leave the thread's functions alone. *)
Lemma late_keeps k (e e' : EventLoop task) :
  el_step (ElLate k) e = Some e' ->
  el_fns_ e' = el_fns_ e /\ el_batch e' = el_batch e /\ el_running e' = el_running e /\
  el_isThreadConsuming_ e' = el_isThreadConsuming_ e /\ el_started e' = el_started e.
Proof.
  destruct e as [c fns batch run late od df st]. cbn. destruct (late !! k) as [[i t]|]; [|done].
  destruct (od_step (OdDefer i t) od); [by intros [= <-] | done].
Qed.

Lemma on_demand_keeps a (e e' : EventLoop task) :
  el_step (ElOnDemand a) e = Some e' ->
  el_fns_ e' = el_fns_ e /\ el_batch e' = el_batch e /\ el_running e' = el_running e /\
  el_isThreadConsuming_ e' = el_isThreadConsuming_ e.
Proof.
  destruct e as [c fns batch run late od df st]. cbn. destruct a; [done|..];
    (destruct (od_step _ od); [by intros [= <-] | done]).
Qed.

Lemma defer_step i t (e e' : EventLoop task) :
  el_step (ElDefer i t) e = Some e' ->
  el_batch e' = el_batch e /\ el_running e' = el_running e /\ el_isThreadConsuming_ e' = el_isThreadConsuming_ e /\
  el_started e' = el_started e /\
  el_fns_ e' = el_fns_ e ++ (if el_isThreadConsuming_ e then [t] else []).
Proof. destruct e as [c fns batch run late od df st]. cbn. destruct c; intros [= <-]; cbn; by rewrite ?app_nil_r. Qed.

Lemma swap_step (e e' : EventLoop task) :
  el_step ElSwap e = Some e' ->
  el_batch e = [] /\ el_running e = None /\ el_isThreadConsuming_ e = true /\
  el_fns_ e' = [] /\ el_batch e' = el_fns_ e /\ el_running e' = None /\ el_isThreadConsuming_ e' = true /\ el_started e' = el_started e.
Proof. destruct e as [[] fns [|] [|] late od df st]; cbn; try done. by intros [= <-]. Qed.

Lemma run_step (e e' : EventLoop task) :
  el_step ElRun e = Some e' ->
  exists t, el_running e = None /\ el_batch e = t :: el_batch e' /\ el_running e' = Some t /\ el_started e' = el_started e ++ [t] /\
    el_fns_ e' = el_fns_ e /\ el_isThreadConsuming_ e' = el_isThreadConsuming_ e.
Proof. destruct e as [c fns [|t batch] [|] late od df st]; cbn; try done. intros [= <-]. by exists t. Qed.

Lemma done_step (e e' : EventLoop task) :
  el_step ElDone e = Some e' ->
  is_Some (el_running e) /\ el_running e' = None /\ el_batch e' = el_batch e /\ el_started e' = el_started e /\
    el_fns_ e' = el_fns_ e /\ el_isThreadConsuming_ e' = el_isThreadConsuming_ e.
Proof. destruct e as [c fns batch [t|] late od df st]; cbn; try done. intros [= <-]. by split; [eexists|]. Qed.

Lemma next_step w a e : next_function w = Some a -> el_step a (bw_parent w) = Some e ->
  el_fns_ e = el_fns_ (bw_parent w) /\ el_isThreadConsuming_ e = el_isThreadConsuming_ (bw_parent w).
Proof.
  unfold next_function. destruct (el_running (bw_parent w)); [|destruct (el_batch (bw_parent w)); [done|]]; intros [= <-] Hs.
  - by apply done_step in Hs as (_ & _ & _ & _ & ? & ?).
  - by apply run_step in Hs as (t' & _ & _ & _ & _ & ? & ?).
Qed.

Lemma binv_step a w w' : breach w -> binv w -> bpossible a w -> bstep a w = Some w' -> binv w'.
Proof.
  intros Hr [Hon Hid Hc Hf] Hp Hs. unfold nfns in *. destruct a; cbn [bstep bpossible] in *.
  - unfold deferToLoop in Hs. destruct (el_step (ElDefer i t) (bw_parent w)) as [e|] eqn:He; [|done]. injection Hs as <-.
    apply defer_step in He as (H1 & H2 & H3 & _ & H4).
    assert (Z.of_nat (length (el_fns_ e)) <= 2 ^ 61) as Hf'.
    { rewrite H4, length_app. destruct (el_isThreadConsuming_ (bw_parent w)); cbn [length]; lia. }
    split; unfold nfns; cbn; rewrite ?H1, ?H2, ?H3; try done.
    destruct (bw_place w) eqn:Epl; try done; rewrite (Hon ltac:(done)) in *; rewrite H4, length_app; cbn [length];
      rewrite s64_small by lia; lia.
  - apply parent_step_place in Hs as (He & Hpl & Hcn & _). destruct (late_keeps _ _ _ He) as (E1 & E2 & E3 & E4 & _).
    split; unfold nfns; rewrite ?Hpl, ?Hcn, ?E1, ?E2, ?E3, ?E4; done.
  - apply parent_step_place in Hs as (He & Hpl & Hcn & _). destruct (on_demand_keeps _ _ _ He) as (E1 & E2 & E3 & E4).
    split; unfold nfns; rewrite ?Hpl, ?Hcn, ?E1, ?E2, ?E3, ?E4; done.
  - by injection Hs as <-.
  - by injection Hs as <-.
  - unfold thread_step, go in Hs. destruct (bw_place w) eqn:Epl; cbn in Hid, Hc.
    + injection Hs as <-. destruct (bw_closed_ w); split; unfold nfns; cbn; try done; by (intros; apply Hon).
    + injection Hs as <-. destruct (readyToClose (bw_sub w)); split; unfold nfns; cbn; try done; by (intros; apply Hon).
    + destruct (pollOnce (bw_sub w)) as [[[] s]|]; [..|done]; injection Hs as <-; split; unfold nfns; cbn; try done; by (intros; apply Hon).
    + destruct (0 <? bw_count_ w).
      * apply parent_step_place in Hs as (He & Hpl & Hcn & _). apply swap_step in He as (_ & _ & _ & E1 & E2 & E3 & E4 & _).
        split; unfold nfns; rewrite ?Hpl, ?Hcn, ?E1; cbn; try done; lia.
      * injection Hs as <-. split; unfold nfns; cbn; try done; by (intros; apply Hon).
    + destruct (next_function w) eqn:Hn.
      * apply parent_step_place in Hs as (He & Hpl & Hcn & _). destruct (next_step _ _ _ Hn He) as [E1 E2].
        split; unfold nfns; rewrite ?Hpl, ?Hcn, ?E1, ?E2; try done; by (intros; apply Hon).
      * injection Hs as <-. split; unfold nfns; cbn; try done; [by (intros; apply Hon) | | rewrite s64_small; lia].
        unfold next_function in Hn. destruct (el_running (bw_parent w)); [done|]. by destruct (el_batch (bw_parent w)).
    + destruct (next_function w) eqn:Hn.
      * apply parent_step_place in Hs as (He & Hpl & Hcn & _). destruct (next_step _ _ _ Hn He) as [E1 E2].
        split; unfold nfns; rewrite ?Hpl, ?Hcn, ?E1, ?E2; done.
      * destruct (el_fns_ (bw_parent w)) eqn:Ef; apply parent_step_place in Hs as (He & Hpl & Hcn & _).
        -- destruct (bw_parent w) as [c fns batch run late od df st]. cbn in *. subst fns. destruct c, batch, run; try done.
           injection He as He. split; unfold nfns; rewrite ?Hpl, <- ?He; cbn; try done; lia.
        -- apply swap_step in He as (_ & _ & _ & E1 & _). split; unfold nfns; rewrite ?Hpl, ?E1; cbn; try done; lia.
Qed.

Lemma breach_inv w : breach w -> binv w.
Proof.
  induction 1 as [s|w a w' Hr IH Hp Hs]; [|by eapply binv_step]. split; unfold nfns; cbn; try done; lia.
Qed.

(** ** Deferred functions are run *)

(** The thread finds nothing to poll. *)
Definition idle (w : bworld) : Prop := bw_place w = AtPoll -> exists s, pollOnce (bw_sub w) = Done (false, s).

(** A run in which the thread makes [n] steps. *)
Inductive brun : nat -> bworld -> bworld -> Prop :=
| br_done w : brun 0 w w
| br_other n w a w1 w' : a <> BThread -> bpossible a w -> bstep a w = Some w1 -> brun n w1 w' -> brun n w w'
| br_thread n w w1 w' : idle w -> thread_step w = Some w1 -> brun n w1 w' -> brun (S n) w w'.

Definition nstarted (w : bworld) : nat := length (el_started (bw_parent w)).
Definition nbatch (w : bworld) : nat := length (el_batch (bw_parent w)).
Definition nrunning (w : bworld) : nat := match el_running (bw_parent w) with Some _ => 1 | None => 0 end.

(** Steps of the thread until it takes the functions that wait, with no function of
    the last batch left; and until the function number [k] has started. *)
Definition to_swap (p : place) : nat :=
  match p with AtCount => 1 | AtPoll => 2 | AtReady => 3 | AtClosed => 4 | InFunctions _ => 5 | Returned => 1 end.
Definition left (k : nat) (w : bworld) : nat :=
  if (k <? nstarted w)%nat then 0
  else if (k <? nstarted w + nbatch w)%nat then 2 * (k - nstarted w) + nrunning w + 1
  else 2 * nbatch w + nrunning w + to_swap (bw_place w) + 2 * (k - nstarted w - nbatch w) + 1.

Definition awaited (k : nat) (w : bworld) : Prop :=
  (k < nstarted w)%nat \/ el_isThreadConsuming_ (bw_parent w) = true /\ (k < nstarted w + nbatch w + nfns w)%nat.

Ltac count_steps :=
  unfold awaited, left, nstarted, nbatch, nfns, nrunning in *; cbn [bw_parent bw_place to_swap] in *;
  repeat match goal with
  | |- context [(?a <? ?b)%nat] => destruct (Nat.ltb_spec a b)
  end; try lia.

(** Another function starts, or the last one returns. *)
Lemma next_left k w w' p a :
  next_function w = Some a -> el_step a (bw_parent w) = Some (bw_parent w') -> bw_place w = p -> bw_place w' = p ->
  awaited k w -> awaited k w' /\ (left k w' <= left k w - 1)%nat.
Proof.
  unfold next_function. intros Hn He Ep Ep' Hk. unfold left. rewrite Ep, Ep'. clear Ep Ep'.
  destruct (el_running (bw_parent w)) as [t|] eqn:Er; [|destruct (el_batch (bw_parent w)) as [|t l] eqn:Eb; [done|]]; injection Hn as <-.
  - apply done_step in He as (_ & E1 & E2 & E3 & E4 & E5). unfold awaited, nstarted, nbatch, nfns, nrunning in *.
    rewrite E1, E2, E3, E4, E5, Er in *. split; [exact Hk|].
    repeat match goal with |- context [(?a <? ?b)%nat] => destruct (Nat.ltb_spec a b) end; lia.
  - apply run_step in He as (t' & E1 & E2 & E3 & E4 & E5 & E6). unfold awaited, nstarted, nbatch, nfns, nrunning in *.
    rewrite E2, E3, E4, E5, E6, Er in *. rewrite length_app in *. cbn [length] in *.
    split; [destruct Hk as [?|[? ?]]; [left; lia | right; split; [done | lia]]|].
    repeat match goal with |- context [(?a <? ?b)%nat] => destruct (Nat.ltb_spec a b) end; lia.
Qed.

Lemma next_none w : next_function w = None -> nbatch w = 0%nat /\ nrunning w = 0%nat.
Proof.
  unfold next_function, nbatch, nrunning. destruct (el_running (bw_parent w)); [done|]. by destruct (el_batch (bw_parent w)).
Qed.

(** All functions that wait are taken. *)
Lemma swap_left k w w' :
  el_step ElSwap (bw_parent w) = Some (bw_parent w') -> to_swap (bw_place w) = 1%nat ->
  awaited k w -> awaited k w' /\ (left k w' <= left k w - 1)%nat.
Proof.
  intros He Hp Hk. apply swap_step in He as (E1 & E2 & E3 & E4 & E5 & E6 & E7 & E8).
  unfold awaited, left, nstarted, nbatch, nfns, nrunning in *. rewrite E4, E5, E6, E7, E8 in *. rewrite E1, E2, Hp in *. cbn [length] in *.
  split; [destruct Hk as [?|[_ ?]]; [by left | right; split; [done | lia]]|].
  repeat match goal with |- context [(?a <? ?b)%nat] => destruct (Nat.ltb_spec a b) end; lia.
Qed.

Lemma thread_step_left k w w' :
  binv w -> idle w -> awaited k w -> thread_step w = Some w' -> awaited k w' /\ (left k w' <= left k w - 1)%nat.
Proof.
  intros [Hon Hid Hc Hf] Hidle Hk Hs. unfold thread_step, go in Hs.
  assert (forall p, (to_swap p < to_swap (bw_place w))%nat -> (nbatch w = 0)%nat -> nrunning w = 0%nat ->
    forall cl cn s, awaited k (mkBworld cl cn (bw_parent w) s p) /\ (left k (mkBworld cl cn (bw_parent w) s p) <= left k w - 1)%nat) as Hgo.
  { intros p Hp H1 H2 cl cn s. split; [exact Hk|]. count_steps. }
  assert (match bw_place w with InFunctions _ | Returned => True | _ => nbatch w = 0%nat /\ nrunning w = 0%nat end) as Hid'.
  { unfold nbatch, nrunning. destruct (bw_place w); try done; destruct Hid as [-> ->]; done. }
  destruct (bw_place w) eqn:Epl; cbn [to_swap] in Hgo.
  - injection Hs as <-. destruct Hid'. destruct (bw_closed_ w); apply Hgo; cbn; lia.
  - injection Hs as <-. destruct Hid'. destruct (readyToClose (bw_sub w)); apply Hgo; cbn; lia.
  - destruct (Hidle Epl) as [s Hp]. rewrite Hp in Hs. injection Hs as <-. destruct Hid'. apply Hgo; cbn; lia.
  - cbn in Hc. destruct (Z.ltb_spec 0 (bw_count_ w)) as [Hlt|Hge].
    + apply parent_step_place in Hs as (He & Hpl & _). apply (swap_left k w w'); try done. by rewrite Epl.
    + injection Hs as <-. destruct Hid' as [B1 B2].
      assert (nfns w = 0)%nat as Hz by lia. split; [exact Hk|].
      assert (k < nstarted w)%nat by (destruct Hk as [?|[_ ?]]; lia). count_steps.
  - destruct (next_function w) as [a|] eqn:Hn.
    + apply parent_step_place in Hs as (He & Hpl & _). by apply (next_left k w w' (InFunctions total) a).
    + injection Hs as <-. destruct (next_none w Hn) as [B1 B2]. apply Hgo; cbn; lia.
  - destruct (next_function w) as [a|] eqn:Hn.
    + apply parent_step_place in Hs as (He & Hpl & _). by apply (next_left k w w' Returned a).
    + destruct (next_none w Hn) as [B1 B2]. destruct (el_fns_ (bw_parent w)) eqn:Ef; apply parent_step_place in Hs as (He & Hpl & _).
      * assert (k < nstarted w)%nat as Hlt by (destruct Hk as [?|[_ Hk]]; [done | unfold nfns in Hk; rewrite Ef in Hk; cbn in Hk; lia]).
        assert (el_started (bw_parent w') = el_started (bw_parent w)) as Es.
        { destruct (bw_parent w) as [c fns batch run late od df st]. cbn in *. subst fns. by destruct c, batch, run; try done; injection He as <-. }
        split; [left; unfold nstarted in *; by rewrite Es|]. unfold left, nstarted in *. rewrite Es.
        rewrite (proj2 (Nat.ltb_lt _ _)) by done. lia.
      * apply (swap_left k w w'); try done. by rewrite Epl.
Qed.

Lemma on_demand_idle a (e : EventLoop task) : el_onDemandLoop_ e = od_init -> el_step (ElOnDemand a) e = None.
Proof. destruct e. cbn. intros ->. by destruct a. Qed.

Lemma on_demand_starts a (e e' : EventLoop task) :
  el_step (ElOnDemand a) e = Some e' -> (length (el_started e) <= length (el_started e'))%nat.
Proof.
  destruct e as [c fns batch run late od df st]. cbn. destruct a; [done|..];
    (destruct (od_step _ od); [intros [= <-]; cbn; rewrite length_app; lia | done]).
Qed.

Lemma other_step_left k a w w' :
  breach w -> a <> BThread -> awaited k w -> bstep a w = Some w' -> awaited k w' /\ (left k w' <= left k w)%nat.
Proof.
  intros Hr Ha Hk Hs. destruct a; cbn [bstep] in Hs; [..|done].
  - unfold deferToLoop in Hs. destruct (el_step (ElDefer i t) (bw_parent w)) as [e|] eqn:He; [|done]. injection Hs as <-.
    apply defer_step in He as (H1 & H2 & H3 & H4 & H5). unfold awaited, left, nstarted, nbatch, nfns, nrunning in *.
    cbn [bw_parent bw_place]. rewrite H1, H2, H3, H4, H5, length_app. split; [|lia].
    destruct Hk as [?|[? ?]]; [by left | right; split; [done | lia]].
  - apply parent_step_place in Hs as (He & Hpl & _). destruct (late_keeps _ _ _ He) as (E1 & E2 & E3 & E4 & E5).
    unfold awaited, left, nstarted, nbatch, nfns, nrunning in *. by rewrite Hpl, E1, E2, E3, E4, E5.
  - apply parent_step_place in Hs as (He & Hpl & _). destruct Hk as [Hk|[Hc _]].
    + apply on_demand_starts in He. unfold awaited, left, nstarted in *. split; [left; lia|].
      rewrite (proj2 (Nat.ltb_lt k (length (el_started (bw_parent w')))) ltac:(lia)). lia.
    + destruct (ei_on _ (el_reachable_inv _ (breach_parent w Hr)) Hc) as [Hod _]. by rewrite on_demand_idle in He.
  - by injection Hs as <-.
  - by injection Hs as <-.
Qed.

Lemma brun_left n w w' : brun n w w' -> forall k, breach w -> awaited k w -> awaited k w' /\ (left k w' <= left k w - n)%nat.
Proof.
  induction 1 as [w|n w a w1 w' Ha Hp Hs _ IH|n w w1 w' Hi Hs _ IH]; intros k Hr Hk.
  - split; [done | lia].
  - destruct (other_step_left k a w w1 Hr Ha Hk Hs) as [Hk1 Hl1].
    destruct (IH k (breach_step _ _ _ Hr Hp Hs) Hk1). split; [done | lia].
  - destruct (thread_step_left k w w1 (breach_inv w Hr) Hi Hk Hs) as [Hk1 Hl1].
    destruct (IH k (breach_step _ BThread _ Hr I Hs) Hk1). split; [done | lia].
Qed.

Lemma brun_reach n w w' : brun n w w' -> breach w -> breach w'.
Proof.
  induction 1 as [w|n w a w1 w' Ha Hp Hs _ IH|n w w1 w' Hi Hs _ IH]; intros Hr; [done|..]; apply IH;
    [by eapply breach_step | by apply (breach_step _ BThread w1 Hr I)].
Qed.

Lemma el_step_deferred a (e e' : EventLoop task) : el_step a e = Some e' -> el_deferred e `prefix_of` el_deferred e'.
Proof.
  destruct e as [c fns batch run late od df st]. cbn. destruct a; cbn.
  - destruct c; intros [= <-]; cbn; [by apply prefix_app_r | done].
  - destruct (late !! k) as [[i t]|]; [|done]. destruct (od_step (OdDefer i t) od); [|done]. intros [= <-]. by apply prefix_app_r.
  - destruct c, batch, run; try done. by intros [= <-].
  - destruct batch, run; try done. by intros [= <-].
  - destruct run; [by intros [= <-] | done].
  - destruct c, fns, batch, run; try done. by intros [= <-].
  - destruct a; [done|..]; (destruct (od_step _ od); [by intros [= <-] | done]).
Qed.

Lemma brun_deferred n w w' : brun n w w' -> el_deferred (bw_parent w) `prefix_of` el_deferred (bw_parent w').
Proof.
  assert (forall a w w1, bstep a w = Some w1 -> el_deferred (bw_parent w) `prefix_of` el_deferred (bw_parent w1)) as Hstep.
  { intros a w0 w1 Hs. destruct (bstep_parent a w0 w1 Hs) as [->|[b Hb]]; [done | by eapply el_step_deferred]. }
  induction 1 as [w|n w a w1 w' Ha Hp Hs _ IH|n w w1 w' Hi Hs _ IH]; [done|..];
    (etrans; [|exact IH]); [by eapply Hstep | by apply (Hstep BThread)].
Qed.

(** C24: the count of deferred functions is exact, so the thread looks at them whenever
    it finds nothing to poll: however other threads interleave, the function that was
    deferred as number [k] has started, as number [k], when the thread has made at
    most [2 (k - s) + 8] steps of its own, where [s] had started before, unless there
    was something to poll; also if the loop is stopped meanwhile.  Until the loop has
    handed over, the thread is only stopped by an exception of [pollOnce]. *)
Theorem busy_polling_serves (w : bworld) k t n w' :
  breach w -> el_isThreadConsuming_ (bw_parent w) = true -> el_deferred (bw_parent w) !! k = Some t ->
  brun n w w' ->
  ((2 * (k - nstarted w) + 8 <= n)%nat -> el_started (bw_parent w') !! k = Some t) /\
  (el_isThreadConsuming_ (bw_parent w') = true -> (bw_place w' = AtPoll -> exists r, pollOnce (bw_sub w') = Done r) ->
     exists w'', thread_step w' = Some w'').
Proof.
  intros Hr Hc Hk Hrun. pose proof (brun_reach _ _ _ Hrun Hr) as Hr'. split.
  - intros Hn. pose proof (el_reachable_inv _ (breach_parent w Hr)) as [_ Hon _ Hf]. destruct (Hon Hc) as [Hod _].
    rewrite Hod in Hf. cbn in Hf. rewrite app_nil_r in Hf.
    assert (awaited k w) as Hka.
    { apply lookup_lt_Some in Hk. rewrite Hf, !length_app in Hk. unfold awaited, nstarted, nbatch, nfns. right. split; [done | lia]. }
    destruct (brun_left _ _ _ Hrun k Hr Hka) as [Hka' Hle].
    assert (left k w <= 2 * (k - nstarted w) + 8)%nat as Hmax.
    { destruct (bw_place w) eqn:Epl; unfold left; rewrite Epl; unfold nrunning; destruct (el_running (bw_parent w)); cbn [to_swap];
        repeat match goal with |- context [(?a <? ?b)%nat] => destruct (Nat.ltb_spec a b) end; lia. }
    assert (left k w' = 0)%nat as Hz by lia.
    assert (k < nstarted w')%nat as Hlt.
    { unfold left in Hz. repeat match goal with H : context [(?a <? ?b)%nat] |- _ => destruct (Nat.ltb_spec a b) end; lia. }
    destruct (event_loop_safe (bw_parent w') (breach_parent w' Hr')) as [Hpre _].
    assert (el_deferred (bw_parent w') !! k = Some t) as Hk' by (eapply prefix_lookup_Some; [exact Hk | by eapply brun_deferred]).
    unfold nstarted in Hlt. destruct (lookup_lt_is_Some_2 _ _ Hlt) as [t' Ht']. rewrite Ht'.
    assert (el_deferred (bw_parent w') !! k = Some t') by (eapply prefix_lookup_Some; [exact Ht' | exact Hpre]). congruence.
  - intros Hc' Hp. pose proof (breach_inv w' Hr') as [Hon Hid _ _]. unfold thread_step, go, parent_step.
    destruct (bw_place w') eqn:Epl; try by eexists.
    + destruct (Hp eq_refl) as [[b s] ->]. by eexists.
    + destruct (0 <? bw_count_ w'); [|by eexists]. destruct (bw_parent w') as [c fns batch run late od df st]. cbn in *.
      destruct Hid as [-> ->]. subst c. by eexists.
    + unfold next_function. destruct (bw_parent w') as [c fns batch run late od df st]. cbn in *. destruct run; [by eexists|]. destruct batch; by eexists.
    + unfold next_function. destruct (bw_parent w') as [c fns batch run late od df st]. cbn in *. subst c.
      destruct run; [by eexists|]. destruct batch; [|by eexists]. destruct fns; by eexists.
Qed.
End busy.

(** A loop with nothing to poll, to which two functions are deferred. *)
Definition no_poll (s : unit) : outcome (bool * unit) := Done (false, s).
Definition always_ready (s : unit) : bool := true.

Fixpoint threads (n : nat) (w : bworld (task := nat)) : option bworld :=
  match n with O => Some w | S n => w1 ← thread_step no_poll always_ready w; threads n w1 end.

Lemma threads_brun n : forall w w', threads n w = Some w' -> brun no_poll always_ready n w w'.
Proof.
  induction n as [|n IH]; intros w w' Hs; [injection Hs as <-; constructor|].
  cbn in Hs. apply bind_Some in Hs as (w1 & Hw & Hs). eapply br_thread; [by eexists | exact Hw | by apply IH].
Qed.

Definition one_deferred : bworld (task := nat) :=
  default (bstart tt) (bstep no_poll always_ready (BDefer 3%nat 10%nat) (bstart tt)).
Definition two_deferred : bworld (task := nat) :=
  default one_deferred (bstep no_poll always_ready (BDefer 4%nat 11%nat) one_deferred).

Lemma two_deferred_reach : breach no_poll always_ready two_deferred.
Proof.
  apply (breach_step _ _ one_deferred (BDefer 4%nat 11%nat)); [|by vm_compute | reflexivity].
  apply (breach_step _ _ (bstart tt) (BDefer 3%nat 10%nat)); [apply (breach_start _ _ tt) | by vm_compute | reflexivity].
Qed.

Lemma busy_polling_serves_witness :
  exists w', threads 10 two_deferred = Some w' /\ el_started (bw_parent w') !! 1%nat = Some 11%nat.
Proof.
  destruct (threads 10 two_deferred) as [w'|] eqn:Hs; [|discriminate Hs]. exists w'. split; [done|].
  apply (proj1 (busy_polling_serves no_poll always_ready two_deferred 1 11%nat 10 w' two_deferred_reach eq_refl eq_refl
                  (threads_brun _ _ _ Hs))). vm_compute. lia.
Defined.
