(* ===== verification/ShmReactor.v ===== *)
(** * The reactor of the shared-memory transport

    Models [transport/shm/reactor.cc] and [common/busy_polling_loop.h]: processes on the
    same machine put tokens into the ring buffer of a reactor, whose thread takes them
    out and runs the functions that were registered under them.

    [Reactor] is the class, with its ring.  A token is a 32-bit integer and goes
    through the ring as its four bytes.  The thread of the loop and the threads that
    use it are the actions of a world. *)

From S2P Require Import Prelude System RingBuffer RingBufferTx Nop RingbufferOps.

Definition kSize : Z := 4 * 1024 * 1024.
Definition kTokenSize : Z := 4.

Record Reactor (F : Type) := mkReactor {
  rb_ : RingBuffer;
  reusableTokens_ : gset Z;
  functions_ : list (option F);
  functionCount_ : Z;
}.
Arguments mkReactor {F}.
Arguments rb_ {F}.
Arguments reusableTokens_ {F}.
Arguments functions_ {F}.
Arguments functionCount_ {F}.
#[export] Instance eta_Reactor {F} : Eta (Reactor F) := fun r =>
  mkReactor (rb_ r) (reusableTokens_ r) (functions_ r) (functionCount_ r).

(** [std::set::begin]: the least element. *)
Definition set_begin (s : gset Z) : option Z :=
  match elements s with [] => None | x :: l => Some (foldr Z.min x l) end.

(** [std::vector::resize]: new elements are empty functions. *)
Definition resize {A} (n : nat) (a : A) (l : list A) : list A := take n l ++ replicate (n - length l) a.

Section reactor.
Context {F : Type}.
Implicit Types (r : Reactor F).

Definition newReactor : outcome (Reactor F) :=
  rb ← newRingBuffer kNumRingbufferRoles kSize; Done (mkReactor rb ∅ [] 0).

Definition add (fn : F) r : Z * Reactor F :=
  let '(token, reusable) :=
    match set_begin (reusableTokens_ r) with
    | Some token => (token, reusableTokens_ r ∖ {[token]})
    | None => (u32 (Z.of_nat (length (functions_ r))), reusableTokens_ r)
    end in
  let functions :=
    if Z.of_nat (length (functions_ r)) <=? token then resize (Z.to_nat (token + 1)) None (functions_ r) else functions_ r in
  (token, r <| reusableTokens_ := reusable |> <| functions_ := <[Z.to_nat token := Some fn]> functions |>
            <| functionCount_ ::= fun n => u64 (n + 1) |>).

(** Writing out of the bounds of the vector is undefined. *)
Definition remove (token : Z) r : outcome (Reactor F) :=
  if bool_decide (0 <= token < Z.of_nat (length (functions_ r))) then
    Done (r <| functions_ ::= insert (Z.to_nat token) None |> <| reusableTokens_ ::= fun s => {[token]} ∪ s |>
            <| functionCount_ ::= fun n => u64 (n - 1) |>)
  else Throw ExDangling.

(** Nothing if it returns [false]; else the token read, and the function that it goes
    on to call, if there is one. *)
Definition pollOnce r : outcome (option (Z * option F) * Reactor F) :=
  '(ret, bytes, (rb, _)) ← read kNumRingbufferRoles kConsumer kTokenSize (rb_ r, newRole);
  let r := r <| rb_ := rb |> in
  if ret =? - ENODATA then Done (None, r)
  else
    _ ← throw_system_if_neg ret;
    let token := of_le32 bytes in
    _ ← tp_check (token <? Z.of_nat (length (functions_ r)));
    Done (Some (token, mjoin (functions_ r !! Z.to_nat token)), r).

Definition readyToClose r : bool := functionCount_ r =? 0.

(** One round of the loop of [writeToken]; [false] if it has to be repeated. *)
Definition writeToken (token : Z) (rb : RingBuffer) : outcome (bool * RingBuffer) :=
  '(rv, (rb, _)) ← write kNumRingbufferRoles kProducer (le32 token) kTokenSize (rb, newRole);
  if (rv =? - EAGAIN) || (rv =? - ENODATA) then Done (false, rb)
  else _ ← tp_check (rv =? kTokenSize); Done (true, rb).

(** [Trigger::run], on the ring of the reactor. *)
Definition run_trigger (token : Z) r : outcome (bool * Reactor F) :=
  '(b, rb) ← writeToken token (rb_ r); Done (b, r <| rb_ := rb |>).
End reactor.

(** ** Reading and writing with no transaction open *)

Definition free (rb : RingBuffer) : Prop := flag rb kConsumer = false /\ flag rb kProducer = false.

Lemma cons_tx_start rb t W : ring_inv rb t W -> flag rb kConsumer = true -> cons_tx rb t W (mkRole 0 true) [].
Proof. intros Hi Hf. split; [done..|]. by exists (drop t W). Qed.

Lemma prod_tx_start rb t W : ring_inv rb t W -> flag rb kProducer = true -> prod_tx rb t W (mkRole 0 true) [].
Proof.
  intros Hi Hf. pose proof (ring_inv_bounds _ _ _ Hi) as [? ?]. split; [done..| |apply holds_nil]. cbn. lia.
Qed.

Lemma read_free rb t W size :
  ring_inv rb t W -> free rb -> 0 < size < 2 ^ 63 ->
  exists rb', ring_size rb' = ring_size rb /\ free rb' /\
    if Z.of_nat t + size <=? Z.of_nat (length W) then
      read 2 kConsumer size (rb, newRole) = Done (size, take (Z.to_nat size) (drop t W), (rb', newRole)) /\
      ring_inv rb' (t + Z.to_nat size) W
    else read 2 kConsumer size (rb, newRole) = Done (- ENODATA, [], (rb', newRole)) /\ ring_inv rb' t W.
Proof.
  intros Hi [Hc Hp] Hs. pose proof Hi as [_ _ Hle _].
  destruct (startTx_free kConsumer rb newRole t W Hi eq_refl ltac:(cbv; lia) Hc) as (rb1 & Hst & Hi1 & Hd1 & Hz1 & Hf1).
  assert (cons_tx rb1 t W (mkRole 0 true) []) as Htx by (apply cons_tx_start; [done | by rewrite Hf1]).
  pose proof (cons_readInTx rb1 _ t W [] false size Hi1 Htx ltac:(unfold is_u64; lia)) as Hr. cbn [length] in Hr. rewrite Z.sub_0_r in Hr.
  unfold read. rewrite Hst. cbn [mbind outcome_bind]. replace (0 <? 0) with false by done.
  unfold access_amount in Hr. rewrite (proj2 (Z.eqb_neq size 0)) in Hr by lia. cbn [negb andb] in Hr.
  destruct (Z.ltb_spec (Z.of_nat (length W) - Z.of_nat t) size) as [Hlt|Hge]; unfold kConsumer in *.
  - rewrite Hr. cbn [mbind outcome_bind]. replace (- ENODATA <? 0) with true by done.
    destruct (cancelTx_inTx 0%nat rb1 (mkRole 0 true) t W Hi1 eq_refl ltac:(cbv; lia)) as (rb2 & Hca & Hi2 & _ & Hz2 & Hf2).
    rewrite Hca. cbn. exists rb2. split; [congruence|].
    split; [split; rewrite Hf2; [done|]; by rewrite (Hf1 kProducer)|].
    rewrite (proj2 (Z.leb_gt _ _)) by lia. done.
  - rewrite Z.min_l, Nat.add_0_r in Hr by lia. destruct Hr as (r' & Hr & Htx'). rewrite Hr. cbn [mbind outcome_bind].
    rewrite (proj2 (Z.ltb_ge size 0)), Z.eqb_refl by lia. cbn [tp_check mbind outcome_bind].
    destruct (cons_commitTx rb1 r' t W _ Hi1 Htx') as (rb2 & Hco & Hi2 & _ & Hz2 & Hfc & Hfp).
    rewrite Hco. cbn. exists rb2. split; [congruence|].
    split; [split; [done|]; by rewrite Hfp, (Hf1 kProducer)|].
    rewrite (proj2 (Z.leb_le _ _)) by lia. split; [done|].
    rewrite app_nil_l, length_take, length_drop in Hi2. by replace (Z.to_nat size) with (Z.to_nat size `min` (length W - t))%nat at 1 by lia.
Qed.

Lemma write_free rb t W bytes :
  ring_inv rb t W -> free rb -> (0 < length bytes)%nat -> Z.of_nat (length bytes) < 2 ^ 63 ->
  exists rb', ring_size rb' = ring_size rb /\ free rb' /\
    if Z.of_nat (length W) + Z.of_nat (length bytes) <=? Z.of_nat t + ring_size rb then
      write 2 kProducer bytes (Z.of_nat (length bytes)) (rb, newRole) = Done (Z.of_nat (length bytes), (rb', newRole)) /\
      ring_inv rb' t (W ++ bytes)
    else write 2 kProducer bytes (Z.of_nat (length bytes)) (rb, newRole) = Done (- ENODATA, (rb', newRole)) /\ ring_inv rb' t W.
Proof.
  intros Hi [Hc Hp] Hs Hs'.
  destruct (startTx_free kProducer rb newRole t W Hi eq_refl ltac:(cbv; lia) Hp) as (rb1 & Hst & Hi1 & Hd1 & Hz1 & Hf1).
  assert (prod_tx rb1 t W (mkRole 0 true) []) as Htx by (apply prod_tx_start; [done | by rewrite Hf1]).
  pose proof (prod_writeInTx rb1 _ t W [] false bytes Hi1 Htx ltac:(unfold is_u64; lia)) as Hr. rewrite Z.sub_0_r, Hz1 in Hr.
  unfold write. rewrite Hst. cbn [mbind outcome_bind]. replace (0 <? 0) with false by done.
  unfold access_amount in Hr. rewrite (proj2 (Z.eqb_neq (Z.of_nat (length bytes)) 0)) in Hr by lia. cbn [negb andb] in Hr.
  destruct (Z.ltb_spec (Z.of_nat t + ring_size rb - Z.of_nat (length W)) (Z.of_nat (length bytes))) as [Hlt|Hge].
  - unfold kProducer in *. rewrite Hr. cbn [mbind outcome_bind]. replace (- ENODATA <? 0) with true by done.
    destruct (cancelTx_inTx kProducer rb1 (mkRole 0 true) t W Hi1 eq_refl ltac:(cbv; lia)) as (rb2 & Hca & Hi2 & _ & Hz2 & Hf2).
    unfold kProducer in Hca. rewrite Hca. cbn. exists rb2. split; [congruence|].
    split; [split; rewrite Hf2; [|done]; by rewrite (Hf1 kConsumer)|].
    rewrite (proj2 (Z.leb_gt _ _)) by lia. done.
  - rewrite Z.min_l in Hr by lia. destruct Hr as (rb1' & r' & Hr & Hi1' & Htx' & Hhd). unfold kProducer in *. rewrite Hr.
    cbn [mbind outcome_bind]. rewrite (proj2 (Z.ltb_ge _ 0)), Z.eqb_refl by lia. cbn [tp_check mbind outcome_bind].
    destruct (prod_commitTx rb1' r' t W _ Hi1' Htx') as (rb2 & Hco & Hi2 & _ & Hz2 & Hfp & Hfc).
    rewrite Hco. cbn. exists rb2. split; [rewrite Hz2; unfold ring_size in *; congruence|].
    split; [split; [|done]; rewrite Hfc; transitivity (flag rb1 kConsumer); [unfold flag; by rewrite Hhd | by rewrite (Hf1 kConsumer)]|].
    rewrite (proj2 (Z.leb_le _ _)) by lia. split; [done|].
    by rewrite app_nil_l, take_ge in Hi2 by lia.
Qed.

(** ** Worlds of a reactor

    Users register and remove functions, and any process that was told a token
    triggers it; the thread polls.  What a function that was run does to the reactor
    are further such steps.  Transactions of several processes on the ring take
    turns here: that their accesses may be interleaved is the matter of [RingWorld]. *)
Section world.
Context {F : Type}.
Implicit Types (r : Reactor F).

Inductive rentry :=
| Added (token : Z) (f : F)
| Removed (token : Z)
| Triggered (token : Z)
| Ran (token : Z) (f : option F).

Record rworld := mkRworld { rw_reactor : Reactor F; rw_log : list rentry }.

Inductive raction :=
| RAdd (f : F)
| RRemove (token : Z)
| RTrigger (token : Z)
| RPoll.

(** What is registered under a token: what is left after the last change. *)
Definition change (token : Z) (e : rentry) (f : option F) : option F :=
  match e with
  | Added token' g => if token' =? token then Some g else f
  | Removed token' => if token' =? token then None else f
  | _ => f
  end.
Definition in_force (log : list rentry) (token : Z) : option F := foldl (fun f e => change token e f) None log.

Definition triggered_of (e : rentry) : option Z := match e with Triggered token => Some token | _ => None end.
Definition ran_of (e : rentry) : option Z := match e with Ran token _ => Some token | _ => None end.
Definition added_of (e : rentry) : option Z := match e with Added token _ => Some token | _ => None end.

Definition rstep (a : raction) (w : rworld) : outcome rworld :=
  let r := rw_reactor w in
  match a with
  | RAdd f => let '(token, r) := add f r in Done (mkRworld r (rw_log w ++ [Added token f]))
  | RRemove token => r ← remove token r; Done (mkRworld r (rw_log w ++ [Removed token]))
  | RTrigger token =>
      '(b, r) ← run_trigger token r; Done (mkRworld r (rw_log w ++ if (b : bool) then [Triggered token] else []))
  | RPoll =>
      '(ran, r) ← pollOnce r;
      Done (mkRworld r (rw_log w ++ match ran with Some (token, f) => [Ran token f] | None => [] end))
  end.

(** Processes only trigger tokens that [add] gave out, and users remove what is
    registered; there are fewer than [2^32] functions at a time. *)
Definition rpossible (a : raction) (w : rworld) : Prop :=
  match a with
  | RAdd _ => Z.of_nat (length (functions_ (rw_reactor w))) < 2 ^ 32 - 1
  | RRemove token => is_Some (in_force (rw_log w) token)
  | RTrigger token => token ∈ omap added_of (rw_log w)
  | RPoll => True
  end.

Inductive rreach : rworld -> Prop :=
| rreach_start r : newReactor = Done r -> rreach (mkRworld r [])
| rreach_step w a w' : rreach w -> rpossible a w -> rstep a w = Done w' -> rreach w'.

(** ** The table of functions *)

Lemma in_force_snoc log e token : in_force (log ++ [e]) token = change token e (in_force log token).
Proof. unfold in_force. by rewrite foldl_app. Qed.

Lemma foldr_min_spec l : forall x, (foldr Z.min x l = x \/ foldr Z.min x l ∈ l) /\ foldr Z.min x l <= x /\ (forall y, y ∈ l -> foldr Z.min x l <= y).
Proof.
  induction l as [|a l IH]; intros x; cbn [foldr].
  - split; [by left|]. split; [lia|]. by intros y ?%elem_of_nil.
  - destruct (IH x) as (Hin & Hx & Hl). split; [|split].
    + destruct (Z.min_dec a (foldr Z.min x l)) as [E|E]; rewrite E; [right; by left|].
      destruct Hin as [Hin|Hin]; [by left | right; by right].
    + lia.
    + intros y Hy. apply elem_of_cons in Hy as [Hy|Hy]; [lia | specialize (Hl y Hy); lia].
Qed.

Lemma set_begin_spec (s : gset Z) :
  match set_begin s with Some x => x ∈ s /\ forall y, y ∈ s -> x <= y | None => s = ∅ end.
Proof.
  unfold set_begin. destruct (elements s) as [|x l] eqn:E.
  - by apply elements_empty_inv, leibniz_equiv in E.
  - destruct (foldr_min_spec l x) as (Hin & Hx & Hl).
    assert (forall y, y ∈ s <-> y ∈ x :: l) as Hs by (intros y; by rewrite <- elem_of_elements, E).
    split; [apply Hs; destruct Hin as [Hin|Hin]; [rewrite Hin; by left | by right]|].
    intros y Hy. apply Hs, elem_of_cons in Hy as [Hy|Hy]; [by subst y | by apply Hl].
Qed.

Definition live (l : list (option F)) : nat := length (omap id l).
#[local] Arguments live : simpl never.

(** The functions registered, by the history. *)
Record table (r : Reactor F) (log : list rentry) : Prop := {
  tb_force : forall token, in_force log token = if bool_decide (0 <= token) then mjoin (functions_ r !! Z.to_nat token) else None;
  tb_reusable : forall token, token ∈ reusableTokens_ r <-> 0 <= token /\ functions_ r !! Z.to_nat token = Some None;
  tb_count : functionCount_ r = Z.of_nat (live (functions_ r));
  tb_length : Z.of_nat (length (functions_ r)) < 2 ^ 32;
  tb_added : forall token, token ∈ omap added_of log -> 0 <= token < Z.of_nat (length (functions_ r));
}.

(** The least token that is not in use. *)
Definition fresh_token (log : list rentry) (token : Z) : Prop :=
  0 <= token /\ in_force log token = None /\ forall token', 0 <= token' < token -> is_Some (in_force log token').

Lemma live_insert l i (x y : option F) :
  l !! i = Some y ->
  Z.of_nat (live (<[i := x]> l)) = Z.of_nat (live l) - (if y is Some _ then 1 else 0) + (if x is Some _ then 1 else 0).
Proof.
  intros Hl. assert (i < length l)%nat as Hi by (by eapply lookup_lt_Some). unfold live.
  rewrite insert_take_drop by done. rewrite <- (take_drop_middle l i y Hl) at 3.
  rewrite !omap_app, !length_app. cbn. destruct x, y; cbn; lia.
Qed.

Lemma live_snoc l (x : option F) : live (l ++ [x]) = (live l + if x is Some _ then 1 else 0)%nat.
Proof. unfold live. rewrite omap_app, length_app. by destruct x. Qed.

(** The two cases of [add]: an entry of the vector that is free, or a new one. *)
Lemma table_set r r' log e token (x y : option F) :
  table r log -> 0 <= token -> functions_ r !! Z.to_nat token = Some y ->
  functions_ r' = <[Z.to_nat token := x]> (functions_ r) ->
  functionCount_ r' = Z.of_nat (live (functions_ r')) ->
  (forall t, t ∈ reusableTokens_ r' <-> if decide (t = token) then x = None else t ∈ reusableTokens_ r) ->
  (forall t f, change t e f = if t =? token then x else f) ->
  (forall t, added_of e = Some t -> t = token) ->
  table r' (log ++ [e]).
Proof.
  intros [Hf Hr Hc Hl Ha] Ht Hlk E1 E2 E3 E4 E5. split.
  - intros t. rewrite in_force_snoc, E4, E1, Hf. destruct (Z.eqb_spec t token) as [->|Hne].
    + rewrite bool_decide_eq_true_2, list_lookup_insert_eq by (first [done | by eapply lookup_lt_Some]). done.
    + case_bool_decide; [|done]. by rewrite list_lookup_insert_ne by lia.
  - intros t. rewrite E3, E1. case_decide as Hd.
    + subst t. rewrite list_lookup_insert_eq by (by eapply lookup_lt_Some). split; [by intros -> | by intros [_ [=]]].
    + rewrite Hr. split; intros [? Hx]; (split; [done|]); [rewrite list_lookup_insert_ne by lia; done|].
      by rewrite list_lookup_insert_ne in Hx by lia.
  - done.
  - by rewrite E1, length_insert.
  - intros t. rewrite omap_app, elem_of_app, E1, length_insert. intros [Hin|Hin]; [by apply Ha|]. cbn in Hin.
    destruct (added_of e) as [t'|] eqn:Ee; [|by apply elem_of_nil in Hin].
    apply list_elem_of_singleton in Hin. subst t. rewrite (E5 t' eq_refl). apply lookup_lt_Some in Hlk. lia.
Qed.

Lemma table_grow r log :
  table r log -> Z.of_nat (length (functions_ r)) < 2 ^ 32 - 1 ->
  table (r <| functions_ ::= fun l => l ++ [None] |>
           <| reusableTokens_ ::= fun s => {[Z.of_nat (length (functions_ r))]} ∪ s |>) log.
Proof.
  intros [Hf Hr Hc Hl Ha] Hlen. split; cbn.
  - intros t. rewrite Hf. case_bool_decide as Ht; [|done].
    destruct (decide (Z.to_nat t < length (functions_ r))%nat) as [Hlt|Hge]; [by rewrite lookup_app_l|].
    rewrite lookup_app_r, (lookup_ge_None_2 (functions_ r)) by lia. by destruct (Z.to_nat t - length (functions_ r))%nat.
  - intros t. rewrite elem_of_union, elem_of_singleton, Hr. split.
    + intros [->|[? Hx]]; (split; [lia|]); [by rewrite Nat2Z.id, lookup_app_r, Nat.sub_diag by lia | by apply lookup_app_l_Some].
    + intros [? [Hx|[Hge Hx]]%lookup_app_Some]; [by right|]. left. apply list_lookup_singleton_Some in Hx as [? _]. lia.
  - rewrite live_snoc, Hc. lia.
  - rewrite length_app. cbn. lia.
  - intros t Ht. apply Ha in Ht. rewrite length_app. lia.
Qed.

Lemma live_bound (l : list (option F)) : (live l <= length l)%nat.
Proof. induction l as [|[x|] l IH]; cbn; unfold live in *; cbn in *; lia. Qed.

Lemma add_ok f r log token r' :
  table r log -> Z.of_nat (length (functions_ r)) < 2 ^ 32 - 1 -> add f r = (token, r') ->
  rb_ r' = rb_ r /\ fresh_token log token /\ table r' (log ++ [Added token f]) /\
  (length (functions_ r) <= length (functions_ r'))%nat.
Proof.
  intros Ht Hlen Ha. pose proof Ht as [Hf Hr Hc Hl Hadd]. unfold add in Ha.
  pose proof (set_begin_spec (reusableTokens_ r)) as Hb. pose proof (live_bound (functions_ r)) as Hlb.
  assert (forall t' n, (n <= length (functions_ r))%nat -> 0 <= t' < Z.of_nat n -> t' ∉ reusableTokens_ r -> is_Some (in_force log t')) as Hlow.
  { intros t' n Hn Ht' Hni. rewrite Hf, bool_decide_eq_true_2 by lia.
    destruct (lookup_lt_is_Some_2 (functions_ r) (Z.to_nat t')) as [[g|] Hg]; [lia | rewrite Hg; by eexists|].
    destruct Hni. apply Hr. split; [lia | done]. }
  destruct (set_begin (reusableTokens_ r)) as [x|].
  - destruct Hb as [Hin Hmin]. pose proof (proj1 (Hr x) Hin) as [Hx Hlk]. pose proof (lookup_lt_Some _ _ _ Hlk) as Hlt.
    rewrite (proj2 (Z.leb_gt _ _)) in Ha by lia. injection Ha as <- <-. split; [done|]. split; [|split].
    + split; [done|]. split; [by rewrite Hf, bool_decide_eq_true_2, Hlk|].
      intros t' Ht'. apply (Hlow t' (length (functions_ r))); [lia | lia|]. intros Hi. apply Hmin in Hi. lia.
    + eapply (table_set r _ log _ x (Some f) None); try done; cbn.
      * rewrite (live_insert _ _ _ None) by done. rewrite u64_small; [lia | unfold is_u64; lia].
      * intros t. case_decide as Hd; [subst; set_solver | set_solver].
      * intros t g. by rewrite Z.eqb_sym.
      * by intros t [= ->].
    + cbn. by rewrite length_insert.
  - assert (u32 (Z.of_nat (length (functions_ r))) = Z.of_nat (length (functions_ r))) as Hu by (apply u32_small; unfold is_u32; lia).
    rewrite Hu, (proj2 (Z.leb_le _ _)) in Ha by lia. injection Ha as <- <-. split; [done|].
    assert (resize (Z.to_nat (Z.of_nat (length (functions_ r)) + 1)) None (functions_ r) = functions_ r ++ [None]) as Hre.
    { unfold resize. rewrite take_ge by lia. f_equal. by replace (_ - _)%nat with 1%nat by lia. }
    split; [|split].
    + split; [lia|]. split; [rewrite Hf, bool_decide_eq_true_2, Nat2Z.id, lookup_ge_None_2 by lia; done|].
      intros t' Ht'. apply (Hlow t' (length (functions_ r))); [lia | lia | rewrite Hb; apply not_elem_of_empty].
    + eapply (table_set _ _ log _ (Z.of_nat (length (functions_ r))) (Some f) None (table_grow r log Ht Hlen)); try done; cbn.
      * lia.
      * by rewrite Nat2Z.id, lookup_app_r, Nat.sub_diag by lia.
      * by rewrite Hre.
      * rewrite (live_insert _ _ _ None) by (rewrite Hre, Nat2Z.id, lookup_app_r, Nat.sub_diag by lia; done).
        rewrite Hre, live_snoc. rewrite u64_small; [lia | unfold is_u64; lia].
      * intros t. rewrite Hb. case_decide as Hd; [subst; split; [set_solver | done] | set_solver].
      * intros t g. by rewrite Z.eqb_sym.
      * by intros t [= ->].
    + cbn. rewrite Hre, length_insert, length_app. lia.
Qed.

Lemma remove_ok r log token :
  table r log -> is_Some (in_force log token) ->
  exists r', remove token r = Done r' /\ rb_ r' = rb_ r /\ table r' (log ++ [Removed token]) /\ length (functions_ r') = length (functions_ r).
Proof.
  intros Ht [f Hin]. pose proof Ht as [Hf Hr Hc Hl Hadd]. rewrite Hf in Hin. case_bool_decide as H0; [|done].
  destruct (functions_ r !! Z.to_nat token) as [[g|]|] eqn:Hlk; try done. pose proof (lookup_lt_Some _ _ _ Hlk) as Hlt.
  pose proof (live_bound (functions_ r)) as Hlb.
  unfold remove. rewrite bool_decide_eq_true_2 by lia. eexists. split; [done|]. split; [done|]. split; [|cbn; by rewrite length_insert].
  assert (0 < Z.of_nat (live (functions_ r))) as Hpos.
  { pose proof (live_insert _ _ None _ Hlk) as Hli. cbn in Hli. lia. }
  eapply (table_set r _ log _ token None (Some g)); try done; cbn.
  - rewrite (live_insert _ _ _ (Some g)) by done. rewrite u64_small; [lia | unfold is_u64; lia].
  - intros t. case_decide; set_solver.
  - intros t h. by rewrite Z.eqb_sym.
Qed.
(** ** The invariant *)

Record rinv (w : rworld) : Prop := {
  rv_table : table (rw_reactor w) (rw_log w);
  rv_ring : exists t W pending, ring_inv (rb_ (rw_reactor w)) t W /\ free (rb_ (rw_reactor w)) /\
    drop t W = pending ≫= le32 /\ omap triggered_of (rw_log w) = omap ran_of (rw_log w) ++ pending /\
    Forall (fun token => 0 <= token < Z.of_nat (length (functions_ (rw_reactor w)))) pending;
}.

Lemma bind_cons_le32 token l : (token :: l) ≫= le32 = le32 token ++ (l ≫= le32).
Proof. done. Qed.

Lemma reactor_trigger_ok token w :
  rinv w -> token ∈ omap added_of (rw_log w) -> exists w', rstep (RTrigger token) w = Done w' /\ rinv w'.
Proof.
  intros [Ht (t & W & pending & Hi & Hfr & Hd & Hlog & Hp)] Hin. destruct w as [r log]. cbn [rw_reactor rw_log] in *.
  pose proof (tb_added _ _ Ht _ Hin) as Hb. cbn [rstep rw_reactor rw_log]. unfold run_trigger, writeToken.
  destruct (write_free (rb_ r) t W (le32 token) Hi Hfr) as (rb' & _ & Hfr' & Hw); [cbn; lia..|].
  change (Z.of_nat (length (le32 token))) with kTokenSize in Hw. change kNumRingbufferRoles with 2%nat.
  assert (forall es, omap triggered_of es = [] -> omap ran_of es = [] -> table (r <| rb_ := rb' |>) log -> ring_inv rb' t W ->
            rinv (mkRworld (r <| rb_ := rb' |>) (log ++ []))) as Hsame.
  { intros es _ _ Htb Hri. rewrite app_nil_r. split; [done|]. by exists t, W, pending. }
  assert (table (r <| rb_ := rb' |>) log) as Htb by (by destruct Ht; split).
  destruct (Z.of_nat (length W) + kTokenSize <=? Z.of_nat t + ring_size (rb_ r)).
  - destruct Hw as [Hw Hi']. rewrite Hw. eexists. split; [reflexivity|]. split; cbn [rw_reactor rw_log].
    + destruct Htb as [Hf Hr Hc Hl Ha]. split; try done.
      * intros t'. rewrite in_force_snoc. apply Hf.
      * intros t' Ht'. rewrite omap_app in Ht'. cbn in Ht'. rewrite app_nil_r in Ht'. by apply Ha.
    + exists t, (W ++ le32 token), (pending ++ [token]). split; [done|]. split; [done|].
      split; [rewrite drop_app_le by (apply (ri_le _ _ _ Hi)); by rewrite Hd, bind_app, bind_singleton|].
      split; [rewrite !omap_app; cbn; by rewrite Hlog, app_nil_r, app_assoc|].
      apply Forall_app. split; [done|]. by constructor.
  - destruct Hw as [Hw Hi']. rewrite Hw. eexists. split; [reflexivity|]. by apply (Hsame []).
Qed.

Lemma reactor_poll_ok w :
  rinv w -> exists w', rstep RPoll w = Done w' /\ rinv w' /\
    (w' = mkRworld (rw_reactor w') (rw_log w) /\ omap triggered_of (rw_log w) = omap ran_of (rw_log w) \/
     exists token, rw_log w' = rw_log w ++ [Ran token (in_force (rw_log w) token)]).
Proof.
  intros [Ht (t & W & pending & Hi & Hfr & Hd & Hlog & Hp)]. destruct w as [r log]. cbn [rw_reactor rw_log] in *.
  cbn [rstep rw_reactor rw_log]. unfold pollOnce. change kNumRingbufferRoles with 2%nat.
  destruct (read_free (rb_ r) t W kTokenSize Hi Hfr) as (rb' & _ & Hfr' & Hr); [by cbv|].
  assert (table (r <| rb_ := rb' |>) log) as Htb by (by destruct Ht; split).
  pose proof (ri_le _ _ _ Hi) as Hle. pose proof (f_equal length Hd) as Hlen. rewrite length_drop in Hlen.
  destruct pending as [|token pending].
  - cbn in Hlen. rewrite (proj2 (Z.leb_gt _ _)) in Hr by (unfold kTokenSize; lia). destruct Hr as [Hr Hi']. rewrite Hr.
    eexists. split; [reflexivity|]. rewrite app_nil_r in *. split; [|left; cbn [rw_reactor]; by rewrite ?app_nil_r].
    split; [done|]. exists t, W, []. by rewrite !app_nil_r.
  - rewrite bind_cons_le32 in Hlen, Hd. rewrite length_app in Hlen. cbn [le32 length] in Hlen.
    rewrite (proj2 (Z.leb_le _ _)) in Hr by (unfold kTokenSize; lia). destruct Hr as [Hr Hi']. rewrite Hr.
    apply Forall_cons in Hp as [Hb Hp]. pose proof (tb_length _ _ Ht) as Hl.
    cbn [mbind outcome_bind]. change (kTokenSize =? - ENODATA) with false. cbn [throw_system_if_neg mbind outcome_bind].
    change (throw_system_if_neg kTokenSize) with (Done tt). cbn [mbind outcome_bind].
    rewrite Hd. change (Z.to_nat kTokenSize) with (length (le32 token)). rewrite take_app_length, of_le32_le32 by (unfold is_u32; lia).
    cbn [functions_ field_update]. change (functions_ (r <| rb_ := rb' |>)) with (functions_ r).
    rewrite (proj2 (Z.ltb_lt _ _)) by lia. cbn [tp_check mbind outcome_bind].
    assert (mjoin (functions_ r !! Z.to_nat token) = in_force log token) as Hff.
    { rewrite (tb_force _ _ Ht), bool_decide_eq_true_2 by lia. done. }
    rewrite Hff. eexists. split; [reflexivity|]. split; [|right; by exists token].
    split; cbn [rw_reactor rw_log].
    + destruct Htb as [Hf Hre Hc Hlx Ha]. split; try done.
      * intros t'. rewrite in_force_snoc. apply Hf.
      * intros t' Ht'. rewrite omap_app in Ht'. cbn in Ht'. rewrite app_nil_r in Ht'. by apply Ha.
    + exists (t + 4)%nat, W, pending. split; [done|]. split; [done|].
      split; [rewrite <- drop_drop, Hd; by apply (drop_app_length (le32 token))|].
      split; [rewrite !omap_app; cbn; by rewrite app_nil_r, Hlog, <- app_assoc|done].
Qed.

Lemma table_ring r log rb : table r log -> table (r <| rb_ := rb |>) log.
Proof. by intros []; split. Qed.

Lemma rstep_ok a w : rinv w -> rpossible a w -> exists w', rstep a w = Done w' /\ rinv w'.
Proof.
  intros Hi Hp. destruct a; cbn [rpossible] in Hp.
  - destruct Hi as [Ht (t & W & pending & Hi & Hfr & Hd & Hlog & Hpe)]. cbn [rstep].
    destruct (add f (rw_reactor w)) as [token r'] eqn:Ha.
    destruct (add_ok _ _ _ _ _ Ht Hp Ha) as (Hrb & _ & Ht' & Hlen). eexists. split; [done|]. split; [done|].
    cbn [rw_reactor rw_log]. rewrite Hrb. exists t, W, pending. rewrite !omap_app. cbn. rewrite !app_nil_r.
    split_and!; try done. eapply Forall_impl; [exact Hpe|]. cbn. lia.
  - destruct Hi as [Ht (t & W & pending & Hi & Hfr & Hd & Hlog & Hpe)]. cbn [rstep].
    destruct (remove_ok _ _ _ Ht Hp) as (r' & Hr & Hrb & Ht' & Hlen). rewrite Hr. eexists. split; [done|]. split; [done|].
    cbn [rw_reactor rw_log]. rewrite Hrb, Hlen. exists t, W, pending. rewrite !omap_app. cbn. by rewrite !app_nil_r.
  - by apply reactor_trigger_ok.
  - destruct (reactor_poll_ok w Hi) as (w' & Hs & Hi' & _). by exists w'.
Qed.

Lemma reactor_reach_inv w : rreach w -> rinv w.
Proof.
  induction 1 as [r Hn|w a w' _ IH Hp Hs].
  - unfold newReactor in Hn. destruct (newRingBuffer_inv kSize) as (rb & Hrb & Hi & _ & Hc & Hf); [by cbv|].
    change kNumRingbufferRoles with 2%nat in Hn. rewrite Hrb in Hn. injection Hn as <-. clear Hrb. split.
    + split; cbn; try done; [intros; by case_bool_decide | intros t; split; [by intros ?%elem_of_empty | by intros [_ ?]] | by intros ? ?%elem_of_nil].
    + exists 0%nat, [], []. by split_and!.
  - destruct (rstep_ok a w IH Hp) as (w1 & E & ?). congruence.
Qed.

(** ** What a reactor does *)

(** A token is given out when it is the least one that is free; and a trigger runs
    what is registered at the time. *)
Definition entry_ok (before : list rentry) (e : rentry) : Prop :=
  match e with
  | Added token _ => fresh_token before token
  | Ran token f => f = in_force before token
  | _ => True
  end.

Lemma rreach_entries w : rreach w -> each_justified entry_ok (rw_log w).
Proof.
  induction 1 as [r Hn|w a w' Hr IH Hp Hs]; [apply each_justified_nil|].
  pose proof (reactor_reach_inv w Hr) as Hi. destruct a; cbn [rstep rpossible] in *.
  - destruct (add f (rw_reactor w)) as [token r'] eqn:Ha. injection Hs as <-.
    apply each_justified_snoc; [done|]. by destruct (add_ok _ _ _ _ _ (rv_table w Hi) Hp Ha) as (_ & ? & _).
  - destruct (remove token (rw_reactor w)); [|done]. injection Hs as <-. by apply each_justified_snoc.
  - destruct (run_trigger token (rw_reactor w)) as [[[] r']|]; [..|done]; injection Hs as <-; cbn [rw_log];
      [by apply each_justified_snoc | by rewrite app_nil_r].
  - destruct (reactor_poll_ok w Hi) as (w1 & Hs1 & _ & Hw). cbn [rstep] in Hs1. assert (w1 = w') as -> by congruence.
    destruct Hw as [[-> _]|(token & ->)]; [done|]. by apply each_justified_snoc.
Qed.

Lemma live_zero (l : list (option F)) : live l = 0%nat <-> forall i, mjoin (l !! i) = None.
Proof.
  induction l as [|[x|] l IH]; unfold live in *; cbn.
  - done.
  - split; [done|]. intros Hi. by specialize (Hi 0%nat).
  - rewrite IH. split; [intros Hi [|i]; [done | apply Hi] | intros Hi i; apply (Hi (S i))].
Qed.

(** C23: triggers are handled once each and in order, and each runs the function that
    is registered under its token at the time, or none; [pollOnce] only finds nothing
    when all have been handled.  [add] gives out the least token that is not in use;
    the reactor may close when nothing is registered; and nothing that users and
    processes may do makes it fail, even when the ring is full. *)
Theorem reactor_runs_triggers (w : rworld) :
  rreach w ->
  omap ran_of (rw_log w) `prefix_of` omap triggered_of (rw_log w) /\
  (forall before token f after, rw_log w = before ++ Ran token f :: after -> f = in_force before token) /\
  (forall before token f after, rw_log w = before ++ Added token f :: after -> fresh_token before token) /\
  (readyToClose (rw_reactor w) = true <-> forall token, in_force (rw_log w) token = None) /\
  (forall a, rpossible a w -> exists w', rstep a w = Done w' /\ rreach w') /\
  (exists w', rstep RPoll w = Done w' /\
     (rw_log w' = rw_log w -> omap ran_of (rw_log w) = omap triggered_of (rw_log w))).
Proof.
  intros Hr. pose proof (reactor_reach_inv w Hr) as Hi. pose proof (rreach_entries w Hr) as He.
  pose proof (rv_table w Hi) as [Hf _ Hc _ _]. split; [|split; [|split; [|split; [|split]]]].
  - destruct (rv_ring w Hi) as (t & W & pending & _ & _ & _ & -> & _). by eexists.
  - intros before token f after E. by apply (He _ _ _ E).
  - intros before token f after E. by apply (He _ _ _ E).
  - unfold readyToClose. rewrite Z.eqb_eq, Hc. change 0 with (Z.of_nat 0). rewrite Nat2Z.inj_iff, live_zero. split.
    + intros Hn token. rewrite Hf. by case_bool_decide.
    + intros Hn i. specialize (Hn (Z.of_nat i)). rewrite Hf, bool_decide_eq_true_2, Nat2Z.id in Hn by lia. done.
  - intros a Hp. destruct (rstep_ok a w Hi Hp) as (w' & Hs & _). exists w'. split; [done|]. by eapply rreach_step.
  - destruct (reactor_poll_ok w Hi) as (w' & Hs & _ & Hw). exists w'. split; [done|]. intros E.
    destruct Hw as [[_ ->]|(token & E')]; [done|]. rewrite E in E'. apply (f_equal length) in E'. rewrite length_app in E'. cbn in E'. lia.
Qed.
End world.

(** Two functions, the first of which is replaced by a third. *)
Definition demo_log : list (rentry (F := nat)) := [Added 0 10%nat; Added 1 11%nat; Removed 0; Added 0 12%nat].

Lemma demo_rreach : exists w : rworld (F := nat), rreach w /\ rw_log w = demo_log.
Proof.
  destruct (newRingBuffer_inv kSize) as (rb & Hrb & _); [by cbv|].
  assert (newReactor (F := nat) = Done (mkReactor rb ∅ [] 0)) as Hn.
  { unfold newReactor. change kNumRingbufferRoles with 2%nat. by rewrite Hrb. }
  clear Hrb. pose proof (rreach_start _ Hn) as H0. clear Hn.
  eexists. split.
  - eapply (rreach_step _ (RAdd 12%nat)); [eapply (rreach_step _ (RRemove 0)); [eapply (rreach_step _ (RAdd 11%nat));
      [eapply (rreach_step _ (RAdd 10%nat)); [exact H0 | | reflexivity] | | reflexivity] | | reflexivity] | | reflexivity];
      cbn; try lia; by eexists.
  - reflexivity.
Qed.

Lemma reactor_runs_triggers_witness :
  exists w : rworld (F := nat), rw_log w = demo_log /\ readyToClose (rw_reactor w) = false /\
    fresh_token [Added 0 10%nat; Added 1 11%nat; Removed 0] 0 /\
    (exists w', rstep RPoll w = Done w').
Proof.
  destruct demo_rreach as (w & Hr & Hl). exists w. split; [done|].
  destruct (reactor_runs_triggers w Hr) as (_ & _ & Ha & Hc & _ & (w' & Hs & _)). split; [|split].
  - apply not_true_iff_false. intros Ht. pose proof (proj1 Hc Ht 0) as Hx. rewrite Hl in Hx. by vm_compute in Hx.
  - apply (Ha _ _ 12%nat []). rewrite Hl. reflexivity.
  - by exists w'.
Defined.
