(* ===== verification/EpollLoop.v ===== *)
(** * The loop over epoll

    Models [common/epoll_loop.cc]: a thread waits for events of file descriptors and
    has the event loop of the context (the reactor) run their handlers, while that
    loop registers and unregisters descriptors.  Descriptors are numbers that the
    kernel reuses; so each registration gets a number of its own, its record, which
    comes back with the events.

    The class is [EpollLoop]; the calls that it makes to the kernel are [syscall]s.
    The world has the two sides of epoll (what is being watched, and the count of the
    eventfd), the thread with the place where it is, and a history. *)

From S2P Require Import Prelude.

Definition EPOLLIN : Z := 1.
Definition EPOLLOUT : Z := 4.
Definition EPOLLERR : Z := 8.
Definition EPOLLHUP : Z := 16.
Definition kCapacity : nat := 64.

(** [fdToRecord_], [recordToHandler_] and [nextRecord_] are guarded by a mutex that
    each method holds while it uses them. *)
Record EpollLoop (H : Type) := mkEpollLoop {
  closed_ : bool;
  fdToRecord_ : gmap Z Z;
  recordToHandler_ : gmap Z H;
  nextRecord_ : Z;
}.
Arguments mkEpollLoop {H}.
Arguments closed_ {H}.
Arguments fdToRecord_ {H}.
Arguments recordToHandler_ {H}.
Arguments nextRecord_ {H}.
#[export] Instance eta_EpollLoop {H} : Eta (EpollLoop H) := fun l =>
  mkEpollLoop (closed_ l) (fdToRecord_ l) (recordToHandler_ l) (nextRecord_ l).

(** [struct epoll_event]: the events, and the record in [data]. *)
Record epoll_event := mkEpollEvent { ev_events : Z; ev_record : Z }.

Inductive syscall :=
| EpollCtlAdd (fd : Z) (ev : epoll_event)
| EpollCtlMod (fd : Z) (ev : epoll_event)
| EpollCtlDel (fd : Z)
| EventfdWrite.

Section loop.
Context {H : Type}.
Implicit Types (l : EpollLoop H).

(** The constructor; record 0 is that of the eventfd. *)
Definition newEpollLoop : EpollLoop H := mkEpollLoop false ∅ ∅ 1.

Definition wakeup : list syscall := [EventfdWrite].

(** [emplace] of a map keeps what is there. *)
Definition emplace {A} (k : Z) (a : A) (m : gmap Z A) : gmap Z A :=
  match m !! k with Some _ => m | None => <[k := a]> m end.

#[local] Arguments emplace : simpl never.

Definition registerDescriptor (fd events : Z) (h : H) l : EpollLoop H * list syscall :=
  let record := nextRecord_ l in
  let l := l <| nextRecord_ := u64 (record + 1) |> in
  let ev := mkEpollEvent events record in
  match fdToRecord_ l !! fd with
  | None =>
      (l <| fdToRecord_ ::= emplace fd record |> <| recordToHandler_ ::= emplace record h |>, [EpollCtlAdd fd ev])
  | Some oldRecord =>
      (l <| fdToRecord_ ::= insert fd record |>
         <| recordToHandler_ ::= fun m => emplace record h (delete oldRecord m) |>, [EpollCtlMod fd ev])
  end.

Definition unregisterDescriptor (fd : Z) l : outcome (EpollLoop H * list syscall) :=
  match fdToRecord_ l !! fd with
  | None => Throw ExAssert
  | Some oldRecord =>
      let l := l <| fdToRecord_ ::= delete fd |> <| recordToHandler_ ::= delete oldRecord |> in
      Done (l, EpollCtlDel fd :: (if bool_decide (fdToRecord_ l = ∅) then wakeup else []))
  end.

Definition hasRegisteredHandlers l : outcome bool :=
  _ ← tp_check (size (fdToRecord_ l) =? size (recordToHandler_ l))%nat;
  Done (negb (bool_decide (fdToRecord_ l = ∅))).

(** [close] sets the flag, and then wakes the thread up if it was the first. *)
Definition close_exchange l : EpollLoop H * bool := (l <| closed_ := true |>, negb (closed_ l)).

(** One round of [handleEpollEventsFromLoop]: the handler to call, if any.  Between
    the rounds only what the handlers do happens to the loop. *)
Definition handler_of (event : epoll_event) l : option H := recordToHandler_ l !! ev_record event.

(** ** The kernel

    [epoll_ctl] fails when a descriptor is added twice or is not there; a write to an
    eventfd that does not block fails when its count would not fit. *)
Definition EEXIST : Z := 17.
Definition ENOENT : Z := 2.
Definition EAGAIN : Z := 11.

Record kernel := mkKernel { k_interest : gmap Z epoll_event; k_eventfd : Z }.
#[local] Instance eta_kernel : Eta kernel := fun k => mkKernel (k_interest k) (k_eventfd k).

Definition do_syscall (c : syscall) (k : kernel) : outcome kernel :=
  match c with
  | EpollCtlAdd fd ev =>
      match k_interest k !! fd with
      | None => Done (k <| k_interest ::= insert fd ev |>)
      | Some _ => Throw (ExSystem EEXIST)
      end
  | EpollCtlMod fd ev =>
      match k_interest k !! fd with
      | Some _ => Done (k <| k_interest ::= insert fd ev |>)
      | None => Throw (ExSystem ENOENT)
      end
  | EpollCtlDel fd =>
      match k_interest k !! fd with
      | Some _ => Done (k <| k_interest ::= delete fd |>)
      | None => Throw (ExSystem ENOENT)
      end
  | EventfdWrite =>
      if k_eventfd k + 1 <=? 2 ^ 64 - 2 then Done (k <| k_eventfd ::= fun n => n + 1 |>) else Throw (ExSystem EAGAIN)
  end.

(** ** The world *)

(** Where the thread is in [loop]: at the first or the second half of the condition,
    in [epoll_wait], about to read the eventfd, or waiting until the reactor has
    handled the events; or it has left. *)
Inductive place :=
| AtClosed
| AtHandlers
| InWait
| AtRead (evs : list epoll_event)
| InHandle (evs : list epoll_event)
| Exited.

Inductive entry :=
| Registered (fd events record : Z) (h : H)
| Unregistered (fd : Z)
| Reported (ev : epoll_event)
| Called (ev : epoll_event) (h : H).

Record world := mkWorld {
  w_loop : EpollLoop H;
  w_kernel : kernel;
  w_place : place;
  w_closing : bool;          (* some [close] has yet to wake the thread up *)
  w_log : list entry;
}.
#[local] Instance eta_world : Eta world := fun w =>
  mkWorld (w_loop w) (w_kernel w) (w_place w) (w_closing w) (w_log w).

Inductive action :=
| Register (fd events : Z) (h : H)
| Unregister (fd : Z)
| CloseExchange
| CloseWakeup
| ReadClosed
| CheckHandlers
| WaitReturns (evs : list epoll_event)
| WaitInterrupted
| ReadEventfd
| HandleEvent.

Definition on_kernel (cs : list syscall) (w : world) : outcome world :=
  k ← fold_outcome do_syscall cs (w_kernel w); Done (w <| w_kernel := k |>).

Definition step (a : action) (w : world) : outcome world :=
  match a with
  | Register fd events h =>
      let record := nextRecord_ (w_loop w) in
      let '(l, cs) := registerDescriptor fd events h (w_loop w) in
      on_kernel cs (w <| w_loop := l |> <| w_log ::= fun log => log ++ [Registered fd events record h] |>)
  | Unregister fd =>
      '(l, cs) ← unregisterDescriptor fd (w_loop w);
      on_kernel cs (w <| w_loop := l |> <| w_log ::= fun log => log ++ [Unregistered fd] |>)
  | CloseExchange =>
      let '(l, first) := close_exchange (w_loop w) in
      Done (w <| w_loop := l |> <| w_closing ::= orb first |>)
  | CloseWakeup => on_kernel wakeup (w <| w_closing := false |>)
  | ReadClosed => Done (w <| w_place := if closed_ (w_loop w) then AtHandlers else InWait |>)
  | CheckHandlers =>
      b ← hasRegisteredHandlers (w_loop w); Done (w <| w_place := if (b : bool) then InWait else Exited |>)
  | WaitReturns evs =>
      Done (w <| w_place := AtRead evs |> <| w_log ::= fun log => log ++ (Reported <$> evs) |>)
  | WaitInterrupted => Done (w <| w_place := AtClosed |>)
  | ReadEventfd =>
      (* reads the count and resets it, or fails with [EAGAIN] if it is zero *)
      let val := k_eventfd (w_kernel w) in
      _ ← tp_check ((val =? 0) || (0 <? val));
      Done (w <| w_kernel ::= fun k => k <| k_eventfd := 0 |> |>
              <| w_place := match w_place w with AtRead evs => InHandle evs | p => p end |>)
  | HandleEvent =>
      match w_place w with
      | InHandle (ev :: evs) =>
          Done (w <| w_place := InHandle evs |>
                  <| w_log ::= fun log => log ++ match handler_of ev (w_loop w) with Some h => [Called ev h] | None => [] end |>)
      | _ => Done (w <| w_place := AtClosed |>)
      end
  end.

(** What [epoll_wait] may report: events asked for, errors and hang-ups of
    descriptors that are being watched, with the record last given; and a readable
    eventfd, with record 0. *)
Definition allowed (asked events : Z) : bool :=
  Z.land events (Z.lnot (Z.lor asked (Z.lor EPOLLERR EPOLLHUP))) =? 0.

Definition reportable (k : kernel) (ev : epoll_event) : Prop :=
  if ev_record ev =? 0 then 0 < k_eventfd k
  else exists fd events, k_interest k !! fd = Some (mkEpollEvent events (ev_record ev)) /\ allowed events (ev_events ev) = true.

(** The steps that the users of the loop, the thread and the kernel may take.  Users
    unregister what is registered, and do not register [2^63] times; they may call
    [close] at any time. *)
Definition possible (a : action) (w : world) : Prop :=
  match a with
  | Register _ _ _ => nextRecord_ (w_loop w) < 2 ^ 63
  | Unregister fd => is_Some (fdToRecord_ (w_loop w) !! fd)
  | CloseExchange => True
  | CloseWakeup => w_closing w = true
  | ReadClosed => w_place w = AtClosed
  | CheckHandlers => w_place w = AtHandlers
  | WaitReturns evs => w_place w = InWait /\ evs <> [] /\ (length evs <= kCapacity)%nat /\ Forall (reportable (w_kernel w)) evs
  | WaitInterrupted => w_place w = InWait
  | ReadEventfd => exists evs, w_place w = AtRead evs
  | HandleEvent => exists evs, w_place w = InHandle evs
  end.

Definition start : world := mkWorld newEpollLoop (mkKernel ∅ 0) AtClosed false [].

Inductive reachable : world -> Prop :=
| reach_start : reachable start
| reach_step w a w' : reachable w -> possible a w -> step a w = Done w' -> reachable w'.

(** ** The invariant *)

Definition touches (fd : Z) (e : entry) : bool :=
  match e with Registered fd' _ _ _ | Unregistered fd' => bool_decide (fd' = fd) | _ => false end.

(** [fd] was registered so, and what happened since did not change it. *)
Definition current (log : list entry) (fd events record : Z) (h : H) (since : list entry) : Prop :=
  exists before, log = before ++ Registered fd events record h :: since /\ Forall (fun e => touches fd e = false) since.

(** An event in the hands of the thread: if its record is still valid, then it was
    reported since the registration. *)
Definition fresh_event (l : EpollLoop H) (log : list entry) (ev : epoll_event) : Prop :=
  ev_record ev < nextRecord_ l /\
  forall fd, fdToRecord_ l !! fd = Some (ev_record ev) ->
    exists events h since, recordToHandler_ l !! ev_record ev = Some h /\ current log fd events (ev_record ev) h since /\
      Reported ev ∈ since /\ allowed events (ev_events ev) = true.

Definition in_hand (p : place) : list epoll_event := match p with AtRead evs | InHandle evs => evs | _ => [] end.

Record inv (w : world) : Prop := {
  iv_next : 1 <= nextRecord_ (w_loop w) <= 2 ^ 63;
  iv_fds : forall fd record, fdToRecord_ (w_loop w) !! fd = Some record ->
    0 < record < nextRecord_ (w_loop w) /\
    exists events h since, recordToHandler_ (w_loop w) !! record = Some h /\
      k_interest (w_kernel w) !! fd = Some (mkEpollEvent events record) /\ current (w_log w) fd events record h since;
  iv_inj : forall fd fd' record, fdToRecord_ (w_loop w) !! fd = Some record -> fdToRecord_ (w_loop w) !! fd' = Some record -> fd = fd';
  iv_records : forall record, is_Some (recordToHandler_ (w_loop w) !! record) ->
    exists fd, fdToRecord_ (w_loop w) !! fd = Some record;
  iv_size : size (fdToRecord_ (w_loop w)) = size (recordToHandler_ (w_loop w));
  iv_interest : forall fd, is_Some (k_interest (w_kernel w) !! fd) -> is_Some (fdToRecord_ (w_loop w) !! fd);
  iv_in_hand : Forall (fresh_event (w_loop w) (w_log w)) (in_hand (w_place w));
  iv_closing : w_closing w = true -> closed_ (w_loop w) = true;
  iv_eventfd : 0 <= k_eventfd (w_kernel w) <=
    nextRecord_ (w_loop w) - 1 - Z.of_nat (size (fdToRecord_ (w_loop w))) +
    (if closed_ (w_loop w) && negb (w_closing w) then 1 else 0);
  iv_awake : w_place w = InWait -> closed_ (w_loop w) = true -> w_closing w = false -> fdToRecord_ (w_loop w) = ∅ ->
    0 < k_eventfd (w_kernel w);
}.

Lemma current_app log es fd events record h since :
  current log fd events record h since -> Forall (fun e => touches fd e = false) es ->
  current (log ++ es) fd events record h (since ++ es).
Proof.
  intros (before & -> & Hs) He. exists before. split; [by rewrite <- app_assoc | by apply Forall_app].
Qed.

Lemma current_new log fd events record h : current (log ++ [Registered fd events record h]) fd events record h [].
Proof. by exists log. Qed.

(** A registration keeps those of other descriptors. *)
Lemma untouched fd fd' events record h : fd <> fd' -> Forall (fun e => touches fd e = false) [Registered fd' events record h].
Proof. intros. repeat constructor. by apply bool_decide_eq_false. Qed.

Lemma emplace_new {A} k (a : A) m : m !! k = None -> emplace k a m = <[k := a]> m.
Proof. intros E. unfold emplace. by rewrite E. Qed.

(** The record to be given next is not in use. *)
Lemma next_unused w : inv w -> recordToHandler_ (w_loop w) !! nextRecord_ (w_loop w) = None.
Proof.
  intros Hi. apply eq_None_not_Some. intros Hs. destruct (iv_records w Hi _ Hs) as (fd & Hf).
  destruct (iv_fds w Hi _ _ Hf) as [? _]. lia.
Qed.

Lemma fresh_register l l' log fd events h ev :
  fresh_event l log ev -> nextRecord_ l' = nextRecord_ l + 1 ->
  fdToRecord_ l' = <[fd := nextRecord_ l]> (fdToRecord_ l) ->
  (forall record fd', fd' <> fd -> fdToRecord_ l !! fd' = Some record -> recordToHandler_ l' !! record = recordToHandler_ l !! record) ->
  fresh_event l' (log ++ [Registered fd events (nextRecord_ l) h]) ev.
Proof.
  intros [Hn Hf] Hn' Hfd Hk. split; [lia|]. intros fd' Hr. rewrite Hfd in Hr.
  apply lookup_insert_Some in Hr as [[-> ?]|[Hne Hr]]; [lia|].
  destruct (Hf _ Hr) as (events' & h' & since & Hh & Hc & Hi & Ha). eexists _, _, _.
  split; [by rewrite (Hk _ fd')|]. split; [by apply current_app; [exact Hc | by apply untouched]|].
  split; [|done]. by apply elem_of_app; left.
Qed.

(** Both branches of [registerDescriptor]: [m] are the other handlers. *)
Lemma register_inv fd events h m w :
  let next := nextRecord_ (w_loop w) in
  inv w -> next < 2 ^ 63 ->
  (forall fd' record, fd' <> fd -> fdToRecord_ (w_loop w) !! fd' = Some record -> m !! record = recordToHandler_ (w_loop w) !! record) ->
  (forall record, is_Some (m !! record) -> exists fd', fd' <> fd /\ fdToRecord_ (w_loop w) !! fd' = Some record) ->
  size (<[fd := next]> (fdToRecord_ (w_loop w))) = S (size m) ->
  inv (mkWorld (mkEpollLoop (closed_ (w_loop w)) (<[fd := next]> (fdToRecord_ (w_loop w))) (<[next := h]> m) (next + 1))
         (mkKernel (<[fd := mkEpollEvent events next]> (k_interest (w_kernel w))) (k_eventfd (w_kernel w)))
         (w_place w) (w_closing w) (w_log w ++ [Registered fd events next h])).
Proof.
  intros next [Hnx Hf Hj Hr Hsz Hk Hh Hcl He Ha] Hn Hm Hm' Hs.
  assert (forall fd' record, fdToRecord_ (w_loop w) !! fd' = Some record -> record <> next) as Hne.
  { intros fd' record Hl. destruct (Hf _ _ Hl) as [? _]. unfold next. lia. }
  assert (m !! next = None) as Hmn.
  { apply eq_None_not_Some. intros Hs'. destruct (Hm' _ Hs') as (fd' & _ & Hl). by apply (Hne _ _ Hl). }
  split; cbn [w_loop w_kernel w_place w_closing w_log fdToRecord_ recordToHandler_ nextRecord_ closed_ k_interest k_eventfd].
  - lia.
  - intros fd' record [[<- <-]|[Hd Hl]]%lookup_insert_Some.
    + split; [lia|]. exists events, h, []. split; [apply lookup_insert_eq|]. split; [apply lookup_insert_eq | apply current_new].
    + destruct (Hf _ _ Hl) as (? & events' & h' & since & Hh' & Hi' & Hc). split; [lia|]. eexists events', h', _.
      rewrite lookup_insert_ne by (by apply not_eq_sym, (Hne fd')). rewrite (Hm fd') by done.
      rewrite lookup_insert_ne by done. split; [done|]. split; [done|]. apply current_app; [exact Hc | by apply untouched].
  - intros fd1 fd2 record [[<- <-]|[H1 L1]]%lookup_insert_Some [[<- ?]|[H2 L2]]%lookup_insert_Some; try done.
    + by destruct (Hne _ _ L2).
    + by destruct (Hne _ _ L1).
    + by eapply Hj.
  - intros record Hs'. destruct (decide (record = next)) as [->|Hd]; [exists fd; apply lookup_insert_eq|].
    rewrite lookup_insert_ne in Hs' by done. destruct (Hm' _ Hs') as (fd' & ? & Hl). exists fd'. by rewrite lookup_insert_ne.
  - rewrite Hs. by rewrite map_size_insert_None.
  - intros fd' [<-|[Hd Hs']]%lookup_insert_is_Some; [rewrite lookup_insert_eq; by eexists|].
    rewrite lookup_insert_ne by done. by apply Hk.
  - eapply Forall_impl; [exact Hh|]. intros ev Hev. eapply fresh_register; [exact Hev | done..|].
    intros record fd' Hd Hl. cbn [recordToHandler_]. rewrite lookup_insert_ne by (by apply not_eq_sym, (Hne fd')). by apply (Hm fd').
  - done.
  - pose proof (map_size_insert fd next (fdToRecord_ (w_loop w))) as Hsi. destruct (fdToRecord_ (w_loop w) !! fd); unfold id in Hsi; lia.
  - intros _ _ _ E. apply (f_equal (lookup fd)) in E. by rewrite lookup_insert_eq in E.
Qed.

Lemma epoll_register_ok fd events h w :
  inv w -> nextRecord_ (w_loop w) < 2 ^ 63 -> exists w', step (Register fd events h) w = Done w' /\ inv w'.
Proof.
  intros Hi Hn. pose proof Hi as [Hnx Hf Hj Hr Hsz Hk Hh Hcl He Ha]. pose proof (next_unused w Hi) as Hnu.
  destruct w as [[cl fds m next] [int efd] p clg log].
  cbn [w_loop w_kernel w_place w_closing w_log fdToRecord_ recordToHandler_ nextRecord_ closed_ k_interest k_eventfd] in *.
  cbn [step w_loop nextRecord_]. unfold registerDescriptor. cbn. rewrite u64_small by (unfold is_u64; lia).
  destruct (fds !! fd) as [old|] eqn:Efd.
  - destruct (Hf _ _ Efd) as (Hold & events' & h' & since & Hh' & Hi' & _).
    eexists. split.
    { unfold on_kernel. cbn. rewrite Hi'. unfold field_update. cbn. rewrite emplace_new by (rewrite lookup_delete_ne by lia; done). reflexivity. }
    apply (register_inv fd events h (delete old m) _ Hi Hn); cbn.
    + intros fd' record Hd Hl. rewrite lookup_delete_ne; [done|]. intros ->. by apply Hd, (Hj _ _ record).
    + intros record [Hd Hs]%lookup_delete_is_Some. destruct (Hr _ Hs) as (fd' & Hl). exists fd'. split; [|done]. intros ->. congruence.
    + rewrite map_size_insert, Efd, map_size_delete_Some, <- Hsz by (by eexists).
      destruct (size fds) eqn:Es; [|done]. apply map_size_empty_inv in Es. subst. by rewrite lookup_empty in Efd.
  - assert (int !! fd = None) as Hint.
    { apply eq_None_not_Some. intros Hs. destruct (Hk _ Hs). congruence. }
    eexists. split.
    { unfold on_kernel. cbn. rewrite Hint. unfold field_update. cbn. rewrite !emplace_new by done. reflexivity. }
    apply (register_inv fd events h m _ Hi Hn); cbn.
    + done.
    + intros record Hs. destruct (Hr _ Hs) as (fd' & Hl). exists fd'. split; [|done]. intros ->. congruence.
    + rewrite map_size_insert, Efd. by rewrite Hsz.
Qed.

Lemma fresh_unregister l l' log fd old ev :
  fresh_event l log ev -> nextRecord_ l' = nextRecord_ l -> fdToRecord_ l' = delete fd (fdToRecord_ l) ->
  recordToHandler_ l' = delete old (recordToHandler_ l) ->
  (forall fd', fdToRecord_ l !! fd' = Some old -> fd' = fd) ->
  fresh_event l' (log ++ [Unregistered fd]) ev.
Proof.
  intros [Hn Hf] Hn' Hfd Hm Ho. split; [lia|]. intros fd' Hr. rewrite Hfd in Hr. apply lookup_delete_Some in Hr as [Hd Hr].
  destruct (Hf _ Hr) as (events & h & since & Hh & Hc & Hi & Ha). eexists _, _, _.
  split; [rewrite Hm, lookup_delete_ne; [exact Hh | intros E; apply Hd; symmetry; apply Ho; by rewrite E]|].
  split; [apply current_app; [exact Hc|]; repeat constructor; by apply bool_decide_eq_false|].
  split; [|done]. by apply elem_of_app; left.
Qed.

Lemma epoll_unregister_ok fd w :
  inv w -> is_Some (fdToRecord_ (w_loop w) !! fd) -> exists w', step (Unregister fd) w = Done w' /\ inv w'.
Proof.
  intros Hi [old Efd]. pose proof Hi as [Hnx Hf Hj Hr Hsz Hk Hh Hcl He Ha].
  destruct w as [[cl fds m next] [int efd] p clg log].
  cbn [w_loop w_kernel w_place w_closing w_log fdToRecord_ recordToHandler_ nextRecord_ closed_ k_interest k_eventfd] in *.
  destruct (Hf _ _ Efd) as (Hold & events' & h' & since & Hh' & Hi' & _).
  assert (size fds = S (size (delete fd fds))) as Hs1.
  { rewrite map_size_delete, Efd. cbn. destruct (size fds) eqn:Es; [|done]. apply map_size_empty_inv in Es. subst. by rewrite lookup_empty in Efd. }
  set (up := if bool_decide (delete fd fds = ∅) then 1 else 0).
  exists (mkWorld (mkEpollLoop cl (delete fd fds) (delete old m) next) (mkKernel (delete fd int) (efd + up)) p clg (log ++ [Unregistered fd])).
  assert (0 <= up <= 1) as Hup by (unfold up; case_bool_decide; lia).
  assert ((if cl && negb clg then 1 else 0) <= 1) as Hc1 by (destruct (cl && negb clg); lia).
  split.
  { cbn. unfold unregisterDescriptor. cbn. rewrite Efd. unfold on_kernel, field_update. cbn. rewrite Hi'. cbn. unfold up.
    case_bool_decide; cbn; unfold field_update; cbn; [|by rewrite Z.add_0_r].
    rewrite (proj2 (Z.leb_le _ _)) by lia. reflexivity. }
  split; cbn [w_loop w_kernel w_place w_closing w_log fdToRecord_ recordToHandler_ nextRecord_ closed_ k_interest k_eventfd].
  - lia.
  - intros fd' record [Hd Hl]%lookup_delete_Some. destruct (Hf _ _ Hl) as (? & events & h & since' & Hh1 & Hi1 & Hc).
    split; [lia|]. eexists events, h, _. rewrite lookup_delete_ne by (intros ->; by apply Hd, (Hj _ _ record)).
    rewrite lookup_delete_ne by done. split; [done|]. split; [done|]. apply current_app; [exact Hc|].
    repeat constructor. by apply bool_decide_eq_false.
  - intros fd1 fd2 record [_ L1]%lookup_delete_Some [_ L2]%lookup_delete_Some. by eapply Hj.
  - intros record [Hd Hs]%lookup_delete_is_Some. destruct (Hr _ Hs) as (fd' & Hl). exists fd'.
    rewrite lookup_delete_ne; [done|]. intros ->. congruence.
  - assert (size (delete old m) = Nat.pred (size m)) as -> by (apply map_size_delete_Some; by eexists). lia.
  - intros fd' [Hd Hs]%lookup_delete_is_Some. rewrite lookup_delete_ne by done. by apply Hk.
  - eapply Forall_impl; [exact Hh|]. intros ev Hev. eapply fresh_unregister; [exact Hev | done..|]. intros fd' Hl. by eapply Hj.
  - done.
  - lia.
  - intros _ _ _ E. unfold up. rewrite bool_decide_eq_true_2 by done. lia.
Qed.

(** What the history gains by events does not touch registrations. *)
Lemma fresh_log l log es ev :
  fresh_event l log ev -> Forall (fun e => forall fd, touches fd e = false) es -> fresh_event l (log ++ es) ev.
Proof.
  intros [Hn Hf] He. split; [done|]. intros fd Hr. destruct (Hf _ Hr) as (events & h & since & Hh & Hc & Hi & Ha).
  exists events, h, (since ++ es). split; [done|]. split; [|split; [by apply elem_of_app; left | done]].
  apply current_app; [done|]. eapply Forall_impl; [exact He | by intros ? ?].
Qed.

(** Steps that keep the tables and what the kernel watches. *)
Lemma inv_moves w p efd cl clg es :
  inv w -> Forall (fun e => forall fd, touches fd e = false) es ->
  Forall (fresh_event (w_loop w) (w_log w ++ es)) (in_hand p) -> (clg = true -> cl = true) ->
  0 <= efd <= nextRecord_ (w_loop w) - 1 - Z.of_nat (size (fdToRecord_ (w_loop w))) + (if cl && negb clg then 1 else 0) ->
  (p = InWait -> cl = true -> clg = false -> fdToRecord_ (w_loop w) = ∅ -> 0 < efd) ->
  inv (mkWorld (w_loop w <| closed_ := cl |>) (mkKernel (k_interest (w_kernel w)) efd) p clg (w_log w ++ es)).
Proof.
  intros [Hnx Hf Hj Hr Hsz Hk Hh Hcl He Ha] Hes Hp Hc Hefd Hw.
  split; try done. cbn [w_loop w_kernel w_log]. intros fd record Hl.
  destruct (Hf fd record Hl) as (? & events & h & since & Hh1 & Hi1 & Hcu). split; [done|]. exists events, h, (since ++ es).
  split; [done|]. split; [done|]. apply current_app; [done|]. eapply Forall_impl; [exact Hes | by intros ? ?].
Qed.

(** A report is of the registration in force. *)
Lemma reported_fresh w evs :
  inv w -> Forall (reportable (w_kernel w)) evs ->
  Forall (fresh_event (w_loop w) (w_log w ++ (Reported <$> evs))) evs.
Proof.
  intros Hi Hrep. apply Forall_forall. intros ev Hin. pose proof (proj1 (Forall_forall _ _) Hrep _ Hin) as Hev. unfold reportable in Hev.
  pose proof (iv_next w Hi) as Hn. destruct (Z.eqb_spec (ev_record ev) 0) as [E|E].
  - split; [lia|]. intros fd Hl. destruct (iv_fds w Hi _ _ Hl) as [? _]. lia.
  - destruct Hev as (fd & events & Hint & Hall).
    destruct (iv_interest w Hi fd) as [record Hl]; [by eexists|].
    destruct (iv_fds w Hi _ _ Hl) as (Hr & events' & h & since & Hh & Hint' & Hc).
    rewrite Hint in Hint'. injection Hint' as <- <-. split; [lia|].
    intros fd' Hl'. rewrite <- (iv_inj w Hi _ _ _ Hl Hl'). exists events, h, (since ++ (Reported <$> evs)).
    split; [done|]. split; [apply current_app; [done|]; apply Forall_fmap, Forall_forall; by intros ? ?|].
    split; [|done]. apply elem_of_app; right. by apply list_elem_of_fmap_2.
Qed.

Lemma reports_touch_nothing evs : Forall (fun e => forall fd, touches fd e = false) (Reported <$> evs : list entry).
Proof. apply Forall_fmap, Forall_forall. by intros ? ?. Qed.

Lemma step_ok a w : inv w -> possible a w -> exists w', step a w = Done w' /\ inv w'.
Proof.
  intros Hi Hp. destruct a; cbn [possible] in Hp.
  1: by apply epoll_register_ok. 1: by apply epoll_unregister_ok.
  all: pose proof Hi as [Hnx Hf Hj Hr Hsz Hk Hh Hcl He Ha].
  all: pose proof (fun p efd cl clg es => inv_moves w p efd cl clg es Hi) as Hm.
  all: destruct w as [[cl fds m next] [int efd] p clg log].
  all: cbn [w_loop w_kernel w_place w_closing w_log fdToRecord_ recordToHandler_ nextRecord_ closed_ k_interest k_eventfd] in *.
  all: assert (forall p' efd' cl' clg',
      Forall (fresh_event (mkEpollLoop cl fds m next) log) (in_hand p') -> (clg' = true -> cl' = true) ->
      0 <= efd' <= next - 1 - Z.of_nat (size fds) + (if cl' && negb clg' then 1 else 0) ->
      (p' = InWait -> cl' = true -> clg' = false -> fds = ∅ -> 0 < efd') ->
      inv (mkWorld (mkEpollLoop cl' fds m next) (mkKernel int efd') p' clg' log)) as Hm0
    by (intros p' efd' cl' clg'; pose proof (Hm p' efd' cl' clg' []) as Hx; rewrite app_nil_r in Hx; intros; by apply Hx).
  - eexists. split; [reflexivity|]. apply (Hm0 p efd true (negb cl || clg)); try done.
    + destruct cl, clg; done || (cbn in *; lia).
    + intros Hw _ Hn Hfd. destruct cl; [|done]. by apply Ha.
  - subst clg. exists (mkWorld (mkEpollLoop cl fds m next) (mkKernel int (efd + 1)) p false log).
    assert (cl = true) as -> by (by apply Hcl). cbn in He. split.
    + cbn. unfold on_kernel, field_update. cbn. unfold field_update. cbn. rewrite (proj2 (Z.leb_le _ _)) by lia. reflexivity.
    + apply Hm0; try done; cbn; lia.
  - subst p. eexists. split; [reflexivity|]. apply (Hm0 (if cl then AtHandlers else InWait) efd cl clg); try done; by destruct cl.
  - subst p. cbn. unfold hasRegisteredHandlers. cbn [fdToRecord_ recordToHandler_]. rewrite Hsz, Nat.eqb_refl. cbn.
    eexists. split; [reflexivity|]. apply (Hm0 (if negb (bool_decide (fds = ∅)) then InWait else Exited) efd cl clg); try done.
    + by case_bool_decide.
    + intros Hw _ _ Hfd. by rewrite bool_decide_eq_true_2 in Hw.
  - destruct Hp as (-> & _ & _ & Hrep). eexists. split; [reflexivity|].
    apply (Hm (AtRead evs) efd cl clg (Reported <$> evs)); try done; [apply reports_touch_nothing|].
    by apply (reported_fresh (mkWorld (mkEpollLoop cl fds m next) (mkKernel int efd) InWait clg log)).
  - subst p. eexists. split; [reflexivity|]. by apply (Hm0 AtClosed efd cl clg).
  - destruct Hp as [evs ->]. exists (mkWorld (mkEpollLoop cl fds m next) (mkKernel int 0) (InHandle evs) clg log). split.
    + cbn. assert ((efd =? 0) || (0 <? efd) = true) as -> by lia. reflexivity.
    + apply Hm0; try done. lia.
  - destruct Hp as [evs ->]. destruct evs as [|ev evs]; eexists; (split; [reflexivity|]); [by apply (Hm0 AtClosed efd cl clg)|].
    apply Forall_cons in Hh as [Hev Hh].
    apply (Hm (InHandle evs) efd cl clg (match m !! ev_record ev with Some h => [Called ev h] | None => [] end)); try done.
    + destruct (m !! ev_record ev); by repeat constructor.
    + eapply Forall_impl; [exact Hh|]. intros ev' Hev'. apply fresh_log; [done|]. destruct (m !! ev_record ev); by repeat constructor.
Qed.

Lemma start_inv : inv start.
Proof.
  split; cbn; try done; try (intros; done).
  - intros record [h Hh]. by rewrite lookup_empty in Hh.
  - intros fd [ev Hev]. by rewrite lookup_empty in Hev.
Qed.

Lemma reachable_inv w : reachable w -> inv w.
Proof.
  induction 1 as [|w a w' _ IH Hp Hs]; [apply start_inv|]. destruct (step_ok a w IH Hp) as (w1 & E & Hi). congruence.
Qed.

(** ** No event is handled for another registration *)

(** The handler called is that of the registration for which the kernel reported the
    event, which is still in force. *)
Definition justified (log : list entry) (e : entry) : Prop :=
  match e with
  | Called ev h => exists fd events since, current log fd events (ev_record ev) h since /\ Reported ev ∈ since /\ allowed events (ev_events ev) = true
  | _ => True
  end.
Definition sound : list entry -> Prop := each_justified justified.

Lemma on_kernel_log cs w w' : on_kernel cs w = Done w' -> w_log w' = w_log w.
Proof. unfold on_kernel. destruct (fold_outcome do_syscall cs (w_kernel w)); [by intros [= <-] | done]. Qed.

Lemma on_kernel_place cs w w' : on_kernel cs w = Done w' -> w_place w' = w_place w.
Proof. unfold on_kernel. destruct (fold_outcome do_syscall cs (w_kernel w)); [by intros [= <-] | done]. Qed.

Lemma step_sound a w w' : inv w -> sound (w_log w) -> possible a w -> step a w = Done w' -> sound (w_log w').
Proof.
  intros Hi Hs Hp. destruct a; cbn [step possible] in *.
  - destruct (registerDescriptor fd events h (w_loop w)) as [l cs]. intros E%on_kernel_log. rewrite E.
    cbn. by apply each_justified_snoc.
  - destruct (unregisterDescriptor fd (w_loop w)) as [[l cs]|]; [|done]. cbn. intros E%on_kernel_log. rewrite E.
    cbn. by apply each_justified_snoc.
  - by intros [= <-].
  - intros E%on_kernel_log. by rewrite E.
  - by intros [= <-].
  - destruct (hasRegisteredHandlers (w_loop w)); [by intros [= <-] | done].
  - intros [= <-]. cbn. apply each_justified_app; [done|]. apply Forall_fmap, Forall_forall. by intros ? ?.
  - by intros [= <-].
  - destruct (tp_check _); [by intros [= <-] | done].
  - destruct Hp as [evs Hp]. rewrite Hp. pose proof (iv_in_hand w Hi) as Hh. rewrite Hp in Hh.
    destruct evs as [|ev evs]; intros [= <-]; [done|]. cbn. apply Forall_cons in Hh as [[Hn Hf] _].
    unfold handler_of. destruct (recordToHandler_ (w_loop w) !! ev_record ev) as [h|] eqn:Hr; [|by rewrite app_nil_r].
    apply each_justified_snoc; [done|]. cbn.
    destruct (iv_records w Hi (ev_record ev)) as [fd Hl]; [by eexists|].
    destruct (Hf _ Hl) as (events & h' & since & Hh' & Hc & Hrep & Hall). assert (h' = h) as -> by congruence.
    by exists fd, events, since.
Qed.

Lemma reachable_sound w : reachable w -> sound (w_log w).
Proof.
  induction 1 as [|w a w' Hr IH Hp Hs]; [apply each_justified_nil|].
  eapply step_sound; [by apply reachable_inv | exact IH | exact Hp | exact Hs].
Qed.

(** C21: whatever is registered and unregistered while events are on their way, and
    however the kernel reuses descriptors, a handler is only called for events that
    the kernel reported for its own registration, which is still in force, and that
    were asked for; and no check and no call to the kernel fails. *)
Theorem epoll_never_stale (w : world) :
  reachable w ->
  (forall before ev h after, w_log w = before ++ Called ev h :: after ->
     exists fd events earlier since, before = earlier ++ Registered fd events (ev_record ev) h :: since /\
       Forall (fun e => touches fd e = false) since /\ Reported ev ∈ since /\ allowed events (ev_events ev) = true) /\
  (forall a, possible a w -> exists w', step a w = Done w' /\ reachable w').
Proof.
  intros Hr. split.
  - intros before ev h after E. destruct (reachable_sound w Hr _ _ _ E) as (fd & events & since & (earlier & Hb & Ht) & Hrep & Hall).
    by exists fd, events, earlier, since.
  - intros a Hp. destruct (step_ok a w (reachable_inv w Hr) Hp) as (w' & Hs & _). exists w'. split; [done|].
    by eapply reach_step.
Qed.

(** ** The end of the thread *)

Definition by_thread (a : action) : bool :=
  match a with Register _ _ _ | Unregister _ | CloseExchange | CloseWakeup => false | _ => true end.

(** [n] steps of the thread. *)
Inductive thread_run : nat -> world -> world -> Prop :=
| tr_done w : thread_run 0 w w
| tr_step n w a w1 w' : by_thread a = true -> possible a w -> step a w = Done w1 -> thread_run n w1 w' -> thread_run (S n) w w'.

Definition rank (p : place) : nat :=
  match p with
  | Exited => 0 | AtHandlers => 1 | AtClosed => 2 | InHandle evs => 3 + length evs
  | AtRead evs => 4 + length evs | InWait => 5 + kCapacity
  end.

(** Closed, and nothing registered. *)
Definition over (w : world) : Prop :=
  closed_ (w_loop w) = true /\ w_closing w = false /\ fdToRecord_ (w_loop w) = ∅.

Lemma thread_step_rank a w w' :
  over w -> by_thread a = true -> possible a w -> step a w = Done w' -> over w' /\ (rank (w_place w') < rank (w_place w))%nat.
Proof.
  intros (Hc & Hg & Hf) Hb Hp Hs. unfold over. destruct a; try done; cbn [possible] in Hp; cbn [step] in Hs.
  - injection Hs as <-. rewrite Hp. cbn. rewrite Hc. cbn. split; [done | lia].
  - unfold hasRegisteredHandlers in Hs. destruct (tp_check _); [|done]. cbn in Hs. rewrite bool_decide_eq_true_2 in Hs by done.
    injection Hs as <-. rewrite Hp. cbn. split; [done | lia].
  - injection Hs as <-. destruct Hp as (-> & _ & Hl & _). cbn in *. split; [done | lia].
  - injection Hs as <-. rewrite Hp. cbn. split; [done | lia].
  - destruct (tp_check _); [|done]. cbn in Hs. destruct Hp as [evs Hp]. rewrite Hp in Hs. injection Hs as <-. rewrite Hp. cbn. split; [done | lia].
  - destruct Hp as [[|ev evs] Hp]; rewrite Hp in Hs; injection Hs as <-; rewrite Hp; cbn; (split; [done | lia]).
Qed.

Lemma thread_run_rank n w w' : thread_run n w w' -> over w -> over w' /\ (n + rank (w_place w') <= rank (w_place w))%nat.
Proof.
  induction 1 as [|n w a w1 w' Hb Hp Hs _ IH]; intros Ho; [split; [done | lia]|].
  destruct (thread_step_rank a w w1 Ho Hb Hp Hs) as [Ho1 Hr]. destruct (IH Ho1) as [? ?]. split; [done | lia].
Qed.

Lemma thread_run_reachable n w w' : thread_run n w w' -> reachable w -> reachable w'.
Proof. induction 1 as [|n w a w1 w' _ Hp Hs _ IH]; [done|]. intros Hr. apply IH. by eapply reach_step. Qed.

Lemma place_possible w : over w -> inv w -> w_place w <> Exited -> exists a, by_thread a = true /\ possible a w.
Proof.
  intros (Hc & Hg & Hf) Hi Hne. destruct (w_place w) eqn:Hpl; [..|done].
  - by exists ReadClosed.
  - by exists CheckHandlers.
  - exists (WaitReturns [mkEpollEvent EPOLLIN 0]). split; [done|]. cbn. split; [done|]. split; [done|].
    split; [unfold kCapacity; lia|]. repeat constructor. by apply (iv_awake w Hi).
  - exists ReadEventfd. split; [done|]. by exists evs.
  - exists HandleEvent. split; [done|]. by exists evs.
Qed.

Lemma in_hand_short w : reachable w -> (length (in_hand (w_place w)) <= kCapacity)%nat.
Proof.
  induction 1 as [|w a w' _ IH Hp Hs]; [cbn; lia|]. destruct a; cbn [possible step] in *.
  - destruct (registerDescriptor fd events h (w_loop w)) as [l cs]. apply on_kernel_place in Hs. by rewrite Hs.
  - destruct (unregisterDescriptor fd (w_loop w)) as [[l cs]|]; [|done]. apply on_kernel_place in Hs. by rewrite Hs.
  - by injection Hs as <-.
  - apply on_kernel_place in Hs. by rewrite Hs.
  - injection Hs as <-. cbn. destruct (closed_ _); cbn; lia.
  - destruct (hasRegisteredHandlers (w_loop w)) as [[]|]; [..|done]; injection Hs as <-; cbn; lia.
  - injection Hs as <-. by destruct Hp as (_ & _ & ? & _).
  - injection Hs as <-. cbn. lia.
  - destruct (tp_check _); [|done]. injection Hs as <-. destruct Hp as [evs Hp]. cbn. by rewrite Hp in *.
  - destruct Hp as [[|ev evs] Hp]; rewrite Hp in *; injection Hs as <-; cbn in *; lia.
Qed.

Lemma thread_run_snoc n w w' a w'' :
  thread_run n w w' -> by_thread a = true -> possible a w' -> step a w' = Done w'' -> thread_run (S n) w w''.
Proof.
  induction 1 as [w0|n w0 b w1 w0' Hb Hp Hs _ IH]; intros.
  - eapply tr_step; [done..|]. apply tr_done.
  - eapply tr_step; [exact Hb | exact Hp | exact Hs |]. by apply IH.
Qed.

(** C22: once the loop was closed and nothing is registered any more, the thread cannot
    sleep for ever: the eventfd is readable when it waits, and within 69 steps of its
    own it leaves, whatever the kernel reports and wherever it was. *)
Theorem epoll_thread_ends (w : world) :
  reachable w -> over w ->
  (w_place w = InWait -> 0 < k_eventfd (w_kernel w)) /\
  (forall n w', thread_run n w w' ->
     (n <= 69)%nat /\ (w_place w' = Exited \/ exists w'', thread_run (S n) w w'')).
Proof.
  intros Hr Ho. pose proof (reachable_inv w Hr) as Hi. pose proof Ho as (Hc & Hg & Hf). split.
  - intros Hp. by apply (iv_awake w Hi).
  - intros n w' Hn. destruct (thread_run_rank n w w' Hn Ho) as [Ho' Hrank].
    assert (rank (w_place w) <= 69)%nat as Hmax.
    { pose proof (in_hand_short w Hr) as Hs. destruct (w_place w); cbn in *; unfold kCapacity in *; lia. }
    split; [lia|]. destruct (decide (rank (w_place w') = 0%nat)) as [E|E]; [left; by destruct (w_place w')|]. right.
    pose proof (reachable_inv w' (thread_run_reachable _ _ _ Hn Hr)) as Hi'.
    destruct (place_possible w' Ho' Hi') as (a & Hb & Hp); [intros E'; by rewrite E' in E|].
    destruct (step_ok a w' Hi' Hp) as (w'' & Hs & _). exists w''. by eapply thread_run_snoc.
Qed.
End loop.

(** ** A descriptor that is reused while an event is on its way *)

Fixpoint all_possible {H} (acts : list action) (w : world (H := H)) : Prop :=
  match acts with
  | [] => True
  | a :: acts => possible a w /\ match step a w with Done w' => all_possible acts w' | Throw _ => False end
  end.
Fixpoint after {H} (acts : list action) (w : world (H := H)) : world :=
  match acts with [] => w | a :: acts => match step a w with Done w' => after acts w' | Throw _ => w end end.

Lemma after_reachable {H} acts : forall w : world (H := H), reachable w -> all_possible acts w -> reachable (after acts w).
Proof.
  induction acts as [|a acts IH]; intros w Hr Hp; [done|]. destruct Hp as [Hp Hs]. cbn.
  destruct (step a w) as [w'|] eqn:E; [|done]. apply IH; [by eapply reach_step | done].
Qed.

(** Handler 10 had descriptor 7 when its event was reported; then 11 got it.  The
    event is dropped; when it is reported again, 11 is called. *)
Definition reuse : list (action (H := nat)) :=
  [Register 7 EPOLLIN 10%nat; ReadClosed; WaitReturns [mkEpollEvent EPOLLIN 1]; Unregister 7; Register 7 EPOLLIN 11%nat;
   ReadEventfd; HandleEvent; HandleEvent; ReadClosed; WaitReturns [mkEpollEvent EPOLLIN 2]; ReadEventfd; HandleEvent].
Definition closing_down : list (action (H := nat)) := [Unregister 7; CloseExchange; CloseWakeup].

Lemma reuse_possible : all_possible (reuse ++ closing_down) start.
Proof.
  vm_compute. repeat split; try done; try (by eexists); try lia;
    (constructor; [exists 7, 1; by vm_compute | constructor]).
Qed.

Lemma reuse_reachable : reachable (after reuse (start (H := nat))) /\ reachable (after (reuse ++ closing_down) (start (H := nat))).
Proof.
  pose proof reuse_possible as Hp. split; (apply after_reachable; [apply reach_start|]); [|done].
  revert Hp. generalize (start (H := nat)). induction reuse as [|a acts IH]; intros w Hp; [done|].
  destruct Hp as [Hp Hs]. split; [done|]. destruct (step a w); [by apply IH | done].
Qed.

Lemma epoll_never_stale_witness :
  exists (fd events : Z) (earlier since : list (entry (H := nat))),
    [Registered 7 EPOLLIN 1 10%nat; Reported (mkEpollEvent EPOLLIN 1); Unregistered 7; Registered 7 EPOLLIN 2 11%nat;
     Reported (mkEpollEvent EPOLLIN 2)] = earlier ++ Registered fd events 2 11%nat :: since /\
    Forall (fun e => touches fd e = false) since /\ Reported (mkEpollEvent EPOLLIN 2) ∈ since /\ allowed events EPOLLIN = true.
Proof.
  apply (proj1 (epoll_never_stale (after reuse start) (proj1 reuse_reachable)) _ (mkEpollEvent EPOLLIN 2) 11%nat []).
  by vm_compute.
Defined.

Lemma epoll_thread_ends_witness :
  exists w : world (H := nat), over w /\ w_place w = InHandle [] /\
    (forall n w', thread_run n w w' -> (n <= 69)%nat /\ (w_place w' = Exited \/ exists w'', thread_run (S n) w w'')).
Proof.
  exists (after (reuse ++ closing_down) start). split; [by vm_compute|]. split; [by vm_compute|].
  apply (epoll_thread_ends (after (reuse ++ closing_down) start) (proj2 reuse_reachable)). by vm_compute.
Defined.
