(* ===== verification/Callback.v ===== *)
(** * Rearmable callbacks

    Models [RearmableCallback] of [common/callback.h], which listeners and pipes
    use to match the requests of the user ([arm]) with the events of the layer
    below ([trigger]) when either may come first.  A call is recorded as the
    pair of the function and its arguments; functions are taken off their queue
    before they are called. *)

From S2P Require Import Prelude.

Section rearmable.
Context {Fn Args : Type}.

Record RearmableCallback := mkRearmable { callbacks_ : list Fn; args_ : list Args }.

Definition newRearmable : RearmableCallback := mkRearmable [] [].

Definition arm (fn : Fn) (s : RearmableCallback) : RearmableCallback * list (Fn * Args) :=
  match args_ s with
  | a :: rest => (mkRearmable (callbacks_ s) rest, [(fn, a)])
  | [] => (mkRearmable (callbacks_ s ++ [fn]) (args_ s), [])
  end.

Definition trigger (a : Args) (s : RearmableCallback) : RearmableCallback * list (Fn * Args) :=
  match callbacks_ s with
  | fn :: rest => (mkRearmable rest (args_ s), [(fn, a)])
  | [] => (mkRearmable (callbacks_ s) (args_ s ++ [a]), [])
  end.

(** The [generator] is called once per callback; here it may depend on how many
    were flushed before. *)
Fixpoint triggerAll_loop (k : nat) (generator : nat -> Args) (callbacks : list Fn)
  : list (Fn * Args) :=
  match callbacks with
  | [] => []
  | fn :: rest => (fn, generator k) :: triggerAll_loop (S k) generator rest
  end.

Definition triggerAll (generator : nat -> Args) (s : RearmableCallback)
  : RearmableCallback * list (Fn * Args) :=
  (mkRearmable [] (args_ s), triggerAll_loop 0 generator (callbacks_ s)).

Inductive rc_action := Arm (fn : Fn) | Trigger (a : Args).

Definition rc_exec (x : rc_action) (s : RearmableCallback) : RearmableCallback * list (Fn * Args) :=
  match x with Arm fn => arm fn s | Trigger a => trigger a s end.

Fixpoint rc_run (l : list rc_action) (s : RearmableCallback) : RearmableCallback * list (Fn * Args) :=
  match l with
  | [] => (s, [])
  | x :: l' => let '(s, c1) := rc_exec x s in let '(s, c2) := rc_run l' s in (s, c1 ++ c2)
  end.

Definition armed (l : list rc_action) : list Fn :=
  omap (fun x => match x with Arm fn => Some fn | _ => None end) l.
Definition triggered_args (l : list rc_action) : list Args :=
  omap (fun x => match x with Trigger a => Some a | _ => None end) l.

(** [fs] and [xs] were armed and triggered so far. *)
Definition rc_state (fs : list Fn) (xs : list Args) : RearmableCallback :=
  mkRearmable (drop (length xs) fs) (drop (length fs) xs).

Lemma zip_snoc_l (fs : list Fn) (xs : list Args) fn :
  zip (fs ++ [fn]) xs = zip fs xs ++ match drop (length fs) xs with a :: _ => [(fn, a)] | [] => [] end.
Proof.
  revert xs. induction fs as [|f fs IH]; intros [|x xs]; simpl; try done.
  by rewrite IH.
Qed.

Lemma zip_snoc_r (fs : list Fn) (xs : list Args) a :
  zip fs (xs ++ [a]) = zip fs xs ++ match drop (length xs) fs with fn :: _ => [(fn, a)] | [] => [] end.
Proof.
  revert xs. induction fs as [|f fs IH]; intros [|x xs]; simpl; try done.
  - by destruct fs.
  - by rewrite IH.
Qed.

Lemma drop_step {A} n (l : list A) x r : drop n l = x :: r -> drop (S n) l = r /\ (n < length l)%nat.
Proof.
  intros Hd. replace (S n) with (n + 1)%nat by lia. rewrite <- drop_drop, Hd. split; [done|].
  apply (f_equal length) in Hd. rewrite length_drop in Hd. simpl in Hd. lia.
Qed.

Lemma rc_exec_state x fs xs :
  rc_exec x (rc_state fs xs) =
  (rc_state (fs ++ armed [x]) (xs ++ triggered_args [x]),
   drop (length (zip fs xs)) (zip (fs ++ armed [x]) (xs ++ triggered_args [x]))).
Proof.
  destruct x as [fn|a]; simpl; rewrite app_nil_r; unfold arm, trigger, rc_state; simpl;
    rewrite length_app; simpl.
  - rewrite zip_snoc_l, drop_app_length. destruct (drop (length fs) xs) as [|a r] eqn:Hd.
    + rewrite (drop_ge xs) by (apply (f_equal length) in Hd; rewrite length_drop in Hd; simpl in Hd; lia).
      apply (f_equal length) in Hd. rewrite length_drop in Hd. simpl in Hd.
      by rewrite drop_app_le by lia.
    + apply drop_step in Hd as [Hd Hlt]. rewrite Nat.add_1_r, Hd.
      rewrite !drop_ge; [done | rewrite length_app; simpl; lia | lia].
  - rewrite zip_snoc_r, drop_app_length. destruct (drop (length xs) fs) as [|f r] eqn:Hd.
    + rewrite (drop_ge fs) by (apply (f_equal length) in Hd; rewrite length_drop in Hd; simpl in Hd; lia).
      apply (f_equal length) in Hd. rewrite length_drop in Hd. simpl in Hd.
      by rewrite drop_app_le by lia.
    + apply drop_step in Hd as [Hd Hlt]. rewrite Nat.add_1_r, Hd.
      rewrite !drop_ge; [done | rewrite length_app; simpl; lia | lia].
Qed.

Lemma zip_prefix (f1 f2 : list Fn) (x1 x2 : list Args) :
  zip f1 x1 ++ drop (length (zip f1 x1)) (zip (f1 ++ f2) (x1 ++ x2)) = zip (f1 ++ f2) (x1 ++ x2).
Proof.
  rewrite <- (take_drop (length (zip f1 x1)) (zip (f1 ++ f2) (x1 ++ x2))) at 2. f_equal.
  revert x1. induction f1 as [|f f1 IH]; intros [|x x1]; simpl; try done.
  f_equal. apply IH.
Qed.

Lemma rc_run_state l : forall fs xs,
  let r := rc_run l (rc_state fs xs) in
  r.1 = rc_state (fs ++ armed l) (xs ++ triggered_args l) /\
  zip fs xs ++ r.2 = zip (fs ++ armed l) (xs ++ triggered_args l).
Proof.
  induction l as [|x l IH]; intros fs xs; cbn [rc_run].
  - simpl. by rewrite !app_nil_r.
  - rewrite rc_exec_state.
    assert (armed (x :: l) = armed [x] ++ armed l) as -> by apply (omap_app _ [x] l).
    assert (triggered_args (x :: l) = triggered_args [x] ++ triggered_args l) as ->
      by apply (omap_app _ [x] l).
    rewrite !app_assoc. destruct (IH (fs ++ armed [x]) (xs ++ triggered_args [x])) as [IH1 IH2].
    destruct (rc_run l _) as [s c2]. simpl in IH1, IH2. cbn [fst snd]. split; [done|].
    by rewrite app_assoc, zip_prefix.
Qed.
End rearmable.

(** In any order of arming and triggering, the calls made are exactly the
    [k]-th function with the [k]-th arguments, in order; functions and arguments
    are never both waiting; and [triggerAll] then calls every waiting function. *)
Theorem rearmable_matches {Fn Args} (l : list (@rc_action Fn Args)) generator :
  let '(s, calls) := rc_run l newRearmable in
  calls = zip (armed l) (triggered_args l) /\
  (callbacks_ s = [] \/ args_ s = []) /\
  callbacks_ s = drop (length calls) (armed l) /\
  args_ s = drop (length calls) (triggered_args l) /\
  (triggerAll generator s).2.*1 = callbacks_ s /\ callbacks_ (triggerAll generator s).1 = [].
Proof.
  destruct (rc_run_state l [] []) as [H1 H2].
  change (rc_state [] []) with (@newRearmable Fn Args) in *.
  destruct (rc_run l newRearmable) as [s calls]. simpl in H1, H2. subst s calls. simpl.
  rewrite length_zip_with.
  assert (forall k (fs : list Fn), (triggerAll_loop k generator fs).*1 = fs) as Hall.
  { intros k fs. revert k. induction fs as [|f fs IH]; intros k; simpl; [done|]. by rewrite IH. }
  split; [done|]. split; [|split; [|split; [|by rewrite Hall]]].
  - destruct (Nat.le_ge_cases (length (armed l)) (length (triggered_args l))).
    + left. by apply drop_ge.
    + right. by apply drop_ge.
  - destruct (Nat.le_ge_cases (length (armed l)) (length (triggered_args l))).
    + rewrite !drop_ge by lia. done.
    + by rewrite Nat.min_r by lia.
  - destruct (Nat.le_ge_cases (length (armed l)) (length (triggered_args l))).
    + by rewrite Nat.min_l by lia.
    + rewrite !drop_ge by lia. done.
Qed.
