(* ===== verification/Enrollment.v ===== *)
(** * Objects that enroll themselves in a context

    A context keeps alive the objects that depend on it (listeners, pipes,
    connections, channels): each enrolls itself when it is initialized, unless the
    context is closed, and unenrolls itself once it has handled an error.  Closing
    the context closes the objects enrolled.  [core/context_impl.cc],
    [transport/context_impl_boilerplate.h] and
    [channel/context_impl_boilerplate.h] share this; here are the interface of the
    objects and what the tables of a context keep. *)

From S2P Require Import Prelude.

(** ** The interface of an object *)

(** [Closing] objects have an error and still wait for something (a handle of the
    operating system to be closed) before they unenroll themselves. *)
Inductive Phase := New | Live | Closing | Gone.
#[export] Instance Phase_eq_dec : EqDecision Phase := ltac:(solve_decision).

(** Whether a context holds an object. *)
Definition held (p : Phase) : bool := match p with Live | Closing => true | New | Gone => false end.

(** The calls to [enroll] ([true]) and [unenroll] ([false]) that go with a change
    of phase. *)
Inductive phase_step : Phase -> list bool -> Phase -> Prop :=
| phase_same p : phase_step p [] p
| phase_fail : phase_step Live [] Closing
| phase_fail_now : phase_step Live [false] Gone
| phase_leave : phase_step Closing [false] Gone.

(** What may come of a phase once the object is initialized. *)
Definition later (p q : Phase) : bool :=
  match p, q with
  | New, New | Live, (Live | Closing | Gone) | Closing, (Closing | Gone) | Gone, Gone => true
  | _, _ => false
  end.

Lemma later_refl p : later p p = true.
Proof. by destruct p. Qed.
Lemma later_trans p q r : later p q = true -> later q r = true -> later p r = true.
Proof. by destruct p, q, r. Qed.
Lemma phase_step_later p bs q : phase_step p bs q -> later p q = true.
Proof. destruct 1; [apply later_refl | done..]. Qed.

(** What an object does: its initialization, given whether the context is closed;
    [closeFromLoop]; and any other task of its own.  [en_ok] is its invariant. *)
Class Enrollee (O : Type) := {
  en_init : bool -> O -> outcome (O * list bool);
  en_close : O -> outcome (O * list bool);
  en_task : O -> O -> list bool -> Prop;
  en_phase : O -> Phase;
  en_ok : O -> Prop;
}.

Class EnrolleeLaws (O : Type) `{Enrollee O} : Prop := {
  law_init_closed o : en_ok o -> en_phase o = New ->
    exists o', en_init true o = Done (o', []) /\ en_ok o' /\ en_phase o' = Gone;
  law_init o : en_ok o -> en_phase o = New ->
    exists o' bs, en_init false o = Done (o', true :: bs) /\ en_ok o' /\ phase_step Live bs (en_phase o');
  law_close o : en_ok o -> en_phase o <> New ->
    exists o' bs, en_close o = Done (o', bs) /\ en_ok o' /\ phase_step (en_phase o) bs (en_phase o') /\ en_phase o' <> Live;
  law_task o o' bs : en_ok o -> en_phase o <> New -> en_task o o' bs -> en_ok o' /\ phase_step (en_phase o) bs (en_phase o');
}.

(** Objects that unenroll themselves as soon as they have an error. *)
Class PromptEnrollee (O : Type) `{Enrollee O} : Prop := prompt_phase o : en_ok o -> en_phase o <> Closing.

(** ** Enrolled objects *)

(** [emplace] and [erase] of a table indexed by the addresses of objects, with the
    checks on what they return. *)
Definition emplace_checked (id : Z) (s : gset Z) : outcome (gset Z) :=
  _ ← tp_check (bool_decide (id ∉ s)); Done ({[id]} ∪ s).
Definition erase_checked (id : Z) (s : gset Z) : outcome (gset Z) :=
  _ ← tp_check (bool_decide (id ∈ s)); Done (s ∖ {[id]}).

Definition do_calls (id : Z) (bs : list bool) (s : gset Z) : outcome (gset Z) :=
  fold_outcome (fun b => if b : bool then emplace_checked id else erase_checked id) bs s.

Section Table.
Context {O : Type} `{EnrolleeLaws O}.
Implicit Types (s : gset Z) (h : gmap Z O) (t : gset Z * gmap Z O).

(** A task of the object at [id], with the calls it makes to its context. *)
Definition on_object (id : Z) (f : O -> outcome (O * list bool)) (t : gset Z * gmap Z O) : outcome (gset Z * gmap Z O) :=
  match t.2 !! id with
  | None => Throw ExDangling
  | Some o => '(o, bs) ← f o; s ← do_calls id bs t.1; Done (s, <[id := o]> t.2)
  end.

(** The loops of [handleError] over a copy of a table. *)
Definition close_all (ids : list Z) (t : gset Z * gmap Z O) : outcome (gset Z * gmap Z O) :=
  fold_outcome (fun id => on_object id en_close) ids t.

(** The table holds the objects that are enrolled. *)
Record table_ok (t : gset Z * gmap Z O) : Prop := {
  tb_held : forall id, id ∈ t.1 <-> exists o, t.2 !! id = Some o /\ held (en_phase o) = true;
  tb_ok : forall id o, t.2 !! id = Some o -> en_ok o;
}.

Lemma table_ok_empty : table_ok (∅, ∅).
Proof. split; simpl; [set_solver | intros id o; by rewrite lookup_empty]. Qed.

Lemma do_calls_step id p bs p' s :
  phase_step p bs p' -> (id ∈ s <-> held p = true) ->
  exists s', do_calls id bs s = Done s' /\ (id ∈ s' <-> held p' = true) /\ (forall i, i <> id -> i ∈ s' <-> i ∈ s).
Proof.
  intros Hp Hs. unfold do_calls, erase_checked. destruct Hp; simpl in *; [by eexists | by eexists | |];
    rewrite tp_check_bind by (apply bool_decide_eq_true; tauto); eexists; (split; [reflexivity|]); set_solver.
Qed.

Lemma do_calls_init id bs p' s :
  phase_step Live bs p' -> id ∉ s ->
  exists s', do_calls id (true :: bs) s = Done s' /\ (id ∈ s' <-> held p' = true) /\ (forall i, i <> id -> i ∈ s' <-> i ∈ s).
Proof.
  intros Hp Hs. unfold do_calls. simpl. unfold emplace_checked. rewrite tp_check_bind by by apply bool_decide_eq_true.
  rewrite bind_done. destruct (do_calls_step id Live bs p' ({[id]} ∪ s) Hp) as (s' & Hd & Hid & Ho).
  { simpl. set_solver. }
  exists s'. split_and!; [exact Hd | exact Hid | set_solver].
Qed.

(** The object at [id] takes a step and the table follows. *)
Lemma table_update id t s' o o' :
  table_ok t -> t.2 !! id = Some o -> en_ok o' -> (id ∈ s' <-> held (en_phase o') = true) ->
  (forall i, i <> id -> i ∈ s' <-> i ∈ t.1) -> table_ok (s', <[id := o']> t.2).
Proof.
  intros [H1 H2] Ho Hok Hid Hi. split; simpl; intros i; destruct (decide (i = id)) as [->|Hne].
  - rewrite lookup_insert_eq, Hid. naive_solver.
  - rewrite lookup_insert_ne, Hi by done. apply H1.
  - intros o1. rewrite lookup_insert_eq. naive_solver.
  - intros o1. rewrite lookup_insert_ne by done. apply H2.
Qed.

Lemma table_held t id o : table_ok t -> t.2 !! id = Some o -> id ∈ t.1 <-> held (en_phase o) = true.
Proof. intros [H1 _] Ho. rewrite H1. naive_solver. Qed.

Lemma object_init_ok closed id t o :
  table_ok t -> t.2 !! id = Some o -> en_phase o = New ->
  exists s' o', on_object id (en_init closed) t = Done (s', <[id := o']> t.2) /\ table_ok (s', <[id := o']> t.2) /\
    en_phase o' <> New /\ (closed = true -> s' = t.1 /\ en_phase o' = Gone) /\ en_ok o'.
Proof.
  intros Ht Ho Hn. pose proof (tb_ok _ Ht _ _ Ho) as Hok. pose proof (table_held _ _ _ Ht Ho) as Hh. rewrite Hn in Hh. simpl in Hh.
  unfold on_object. rewrite Ho. destruct closed.
  - destruct (law_init_closed o Hok Hn) as (o' & -> & Hok' & Hg). rewrite bind_done. cbv beta iota. simpl. exists t.1, o'.
    split_and!; try done; [|by rewrite Hg]. apply (table_update id t _ o); try done. rewrite Hg. simpl. by rewrite Hh.
  - destruct (law_init o Hok Hn) as (o' & bs & -> & Hok' & Hp). rewrite bind_done. cbv beta iota.
    destruct (do_calls_init id bs _ t.1 Hp) as (s' & -> & Hid & Hi); [rewrite Hh; done|].
    rewrite bind_done. exists s', o'. split_and!; try done; [by apply (table_update id t _ o) | by inversion Hp].
Qed.

Lemma step_object id f t o o' bs :
  table_ok t -> t.2 !! id = Some o -> f o = Done (o', bs) -> en_ok o' -> phase_step (en_phase o) bs (en_phase o') ->
  exists s', on_object id f t = Done (s', <[id := o']> t.2) /\ table_ok (s', <[id := o']> t.2).
Proof.
  intros Ht Ho Hf Hok Hp. unfold on_object. rewrite Ho, Hf, bind_done. cbv beta iota.
  destruct (do_calls_step id _ bs _ t.1 Hp (table_held _ _ _ Ht Ho)) as (s' & -> & Hid & Hi).
  rewrite bind_done. exists s'. split; [done|]. by apply (table_update id t _ o).
Qed.

(** [close_all] does not fail, leaves none of the objects live, and no object but
    those it is called for changes. *)
Lemma close_all_ok ids : forall t,
  table_ok t -> (forall id, id ∈ ids -> exists o, t.2 !! id = Some o /\ en_phase o <> New) ->
  exists t', close_all ids t = Done t' /\ table_ok t' /\
    (forall id o', t'.2 !! id = Some o' -> exists o, t.2 !! id = Some o /\ later (en_phase o) (en_phase o') = true /\
       (id ∈ ids -> en_phase o' <> Live) /\ (id ∉ ids -> o' = o)).
Proof.
  induction ids as [|id ids IH]; intros t Ht Hin.
  { exists t. split_and!; try done. intros id o' Ho. exists o'. split_and!; try done; [by destruct (en_phase o') | by set_solver]. }
  destruct (Hin id) as (o & Ho & Hn); [by constructor|].
  destruct (law_close o (tb_ok _ Ht _ _ Ho) Hn) as (o' & bs & Hc & Hok' & Hp & Hl).
  destruct (step_object id en_close t o o' bs Ht Ho Hc Hok' Hp) as (s' & Hs & Ht'). apply phase_step_later in Hp as Hlat.
  unfold close_all. simpl. rewrite Hs, bind_done. destruct (IH (s', <[id := o']> t.2) Ht') as (t' & Hd & Hok & Hall).
  { intros id' Hid'. destruct (Hin id') as (o1 & Ho1 & Hn1); [by constructor|]. simpl. destruct (decide (id' = id)) as [->|Hne].
    - exists o'. rewrite lookup_insert_eq. split; [done|]. intros He. rewrite He in Hlat. by destruct (en_phase o).
    - exists o1. by rewrite lookup_insert_ne. }
  exists t'. split_and!; [exact Hd | done |].
  intros id' o2 Ho2. destruct (Hall id' o2 Ho2) as (o1 & Ho1 & Hr & Hnl & Hsame). simpl in Ho1. destruct (decide (id' = id)) as [->|Hne].
  - rewrite lookup_insert_eq in Ho1. inversion Ho1; subst o1. exists o. split_and!; try done; [by eapply later_trans | |].
    + intros _ He. rewrite He in Hr. by destruct (en_phase o').
    + intros Hni. destruct Hni. by constructor.
  - rewrite lookup_insert_ne in Ho1 by done. exists o1. split_and!; try done.
    + intros Hi. apply elem_of_cons in Hi as [?|?]; [done|]. by apply Hnl.
    + intros Hi. apply Hsame. by intros ?; apply Hi; constructor.
Qed.

(** Closing everything that is enrolled. *)
Lemma close_table_ok t :
  table_ok t -> exists t', close_all (elements t.1) t = Done t' /\ table_ok t' /\
    (forall id o', t'.2 !! id = Some o' -> exists o, t.2 !! id = Some o /\ later (en_phase o) (en_phase o') = true /\
       en_phase o' <> Live /\ (held (en_phase o) = false -> o' = o)).
Proof.
  intros Ht. destruct (close_all_ok (elements t.1) t Ht) as (t' & Hc & Hok & Hall).
  { intros id Hid. apply elem_of_elements, (tb_held _ Ht) in Hid as (o & Ho & Hh). exists o. split; [done|]. intros He. by rewrite He in Hh. }
  exists t'. split_and!; try done. intros id o' Ho'. destruct (Hall id o' Ho') as (o & Ho & Hl & Hin & Hout).
  pose proof (table_held _ _ _ Ht Ho) as Hh. exists o. split_and!; try done.
  - intros He. rewrite He in Hl. destruct (en_phase o) eqn:Hp; try done. apply Hin; [|done]. by apply elem_of_elements, Hh.
  - intros Hf. apply Hout. intros Hi. apply elem_of_elements, Hh in Hi. congruence.
Qed.
End Table.

(** ** Objects without one that is live *)

Definition none_live {O} `{Enrollee O} (h : gmap Z O) : Prop := forall id o, h !! id = Some o -> en_phase o <> Live.

(** A new object. *)
Lemma table_new {O} `{EnrolleeLaws O} s (h : gmap Z O) id o :
  table_ok (s, h) -> h !! id = None -> en_ok o -> en_phase o = New -> table_ok (s, <[id := o]> h).
Proof.
  intros [Ht1 Ht2] Hn Hok Hp. split; simpl in *; intros id'; destruct (decide (id' = id)) as [->|Hne].
  - rewrite lookup_insert_eq, Ht1, Hn. split; [by intros (? & ? & _) | intros (o' & [= <-] & Hh)]. by rewrite Hp in Hh.
  - by rewrite lookup_insert_ne.
  - intros o'. rewrite lookup_insert_eq. by intros [= <-].
  - intros o'. rewrite lookup_insert_ne by done. apply Ht2.
Qed.

Lemma none_live_insert {O} `{Enrollee O} (h : gmap Z O) id o : none_live h -> en_phase o <> Live -> none_live (<[id := o]> h).
Proof.
  intros Hn Ho id' o'. destruct (decide (id' = id)) as [->|Hne]; [rewrite lookup_insert_eq; by intros [= <-]|].
  rewrite lookup_insert_ne by done. apply Hn.
Qed.

Lemma later_live p q : later p q = true -> p <> Live -> q <> Live.
Proof. by destruct p, q. Qed.

(** What closing does to the objects. *)
Lemma close_none_live {O} `{EnrolleeLaws O} (t t' : gset Z * gmap Z O) :
  (forall id o', t'.2 !! id = Some o' -> exists o, t.2 !! id = Some o /\ later (en_phase o) (en_phase o') = true /\
     en_phase o' <> Live /\ (held (en_phase o) = false -> o' = o)) -> none_live t'.2.
Proof. intros Hall id o' Ho. by destruct (Hall id o' Ho) as (o & _ & _ & ? & _). Qed.

(** A table without live objects, if none of them lingers, is empty. *)
Lemma table_empty {O} `{EnrolleeLaws O} `{!PromptEnrollee O} s (h : gmap Z O) : table_ok (s, h) -> none_live h -> s = ∅.
Proof.
  intros Ht Hn. apply leibniz_equiv, elem_of_equiv_empty. intros id Hid.
  apply (tb_held _ Ht) in Hid as (o & Ho & Hh). simpl in Ho. pose proof (prompt_phase o (tb_ok _ Ht _ _ Ho)) as Hc.
  specialize (Hn id o Ho). by destruct (en_phase o).
Qed.

(** ** A simple object *)

(** An object that only has a phase. *)
#[export] Instance phase_enrollee : Enrollee Phase := {|
  en_init contextClosed _ := Done (if contextClosed : bool then (Gone, []) else (Live, [true]));
  en_close p := Done (match p with Live => (Gone, [false]) | _ => (p, []) end);
  en_task p q bs := phase_step p bs q /\ q <> Closing;
  en_phase p := p;
  en_ok p := p <> Closing;
|}.

#[export] Instance phase_laws : EnrolleeLaws Phase.
Proof.
  split; simpl.
  - intros p _ _. by exists Gone.
  - intros p _ _. exists Live, []. split_and!; [done | done | constructor].
  - intros p Hp Hn. destruct p; try done; eexists _, _; (split; [reflexivity|]); split_and!; try done; constructor.
  - by intros p q bs _ _ [? ?].
Qed.
#[export] Instance phase_prompt : PromptEnrollee Phase.
Proof. by intros p. Qed.
