(* ===== verification/TransportListener.v ===== *)
(** * Listeners of the transports

    Models [transport/listener_impl_boilerplate.h] over the class of its virtual
    methods, and its implementations: [transport/shm/listener_impl.cc] and
    [transport/ibv/listener_impl.cc], which accept connections of a socket
    ([SocketListener]; they differ only in one call), and [transport/uv/listener_impl.cc]
    ([UvListener]).

    A listener is specified by a machine that matches requests with connections
    ([Matching]); [TransportListenerLaws] says that an implementation refines it, and
    from that follow the theorem about both and that a context may hold them
    ([Enrollment]). *)

From S2P Require Import Prelude Callback Enrollment EpollLoop.

(** What a listener calls: the accept callbacks of the user, its context, the loop
    over epoll, libuv, and the connections that it makes ([createAndInitConnection]). *)
Inductive tcall :=
| TcAccept (fn : nat) (e : Error) (connection : option Z)
| TcCreateConnection (connection : Z)
| TcEnroll
| TcUnenroll
| TcRegister (events : Z)
| TcUnregister
| TcUvListen
| TcUvAccept (connection : Z)
| TcUvClose.

(** ** The boilerplate *)

Class ListenerErrors (L : Type) := {
  li_error : L -> Error;
  li_put_error : Error -> L -> L;
  handleErrorImpl : L -> outcome (L * list tcall);
}.

Section boilerplate.
Context {L : Type} `{ListenerErrors L}.

Definition setError (error : Error) (l : L) : outcome (L * list tcall) :=
  if is_error (li_error l) || negb (is_error error) then Done (l, [])
  else handleErrorImpl (li_put_error error l).

Definition closeFromLoop (l : L) : outcome (L * list tcall) := setError ListenerClosedError l.

Definition initFromLoop (initImplFromLoop : L -> outcome (L * list tcall)) (contextClosed : bool) (l : L) : outcome (L * list tcall) :=
  if contextClosed then Done (li_put_error ListenerClosedError l, []) else initImplFromLoop l.

Definition acceptFromLoop (acceptImplFromLoop : nat -> L -> outcome (L * list tcall)) (fn : nat) (l : L) : outcome (L * list tcall) :=
  if is_error (li_error l) then Done (l, [TcAccept fn (li_error l) None]) else acceptImplFromLoop fn l.
End boilerplate.

(** ** Listeners with a socket *)

(** [sl_socket_] tells whether there is a socket. *)
Record SocketListener := mkSocketListener { sl_error_ : Error; sl_socket_ : bool; sl_fns_ : list nat }.
#[export] Instance eta_SocketListener : Eta SocketListener := fun l => mkSocketListener (sl_error_ l) (sl_socket_ l) (sl_fns_ l).

Definition newSocketListener : SocketListener := mkSocketListener kSuccess false [].

Definition sl_handleErrorImpl (l : SocketListener) : outcome (SocketListener * list tcall) :=
  Done (l <| sl_socket_ := false |> <| sl_fns_ := [] |>,
        (match sl_fns_ l with [] => [] | _ => [TcUnregister] end) ++
        ((fun fn => TcAccept fn (sl_error_ l) None) <$> sl_fns_ l) ++ [TcUnenroll]).

#[export] Instance socket_errors : ListenerErrors SocketListener := {
  li_error := sl_error_;
  li_put_error e l := l <| sl_error_ := e |>;
  handleErrorImpl := sl_handleErrorImpl;
}.

(** What the calls on the socket return, in their order; only the InfiniBand listener
    asks for [SO_REUSEADDR]. *)
Record socket_env := mkSocketEnv {
  se_create : Error;
  se_reuseAddr : option Error;
  se_bind : Error;
  se_block : Error;
  se_listen : Error;
  se_getSockName : Error;
}.
Definition socket_results (env : socket_env) : list Error :=
  option_list (se_reuseAddr env) ++ [se_bind env; se_block env; se_listen env; se_getSockName env].

(** The calls after [createForFamily]: the first one that fails is the error. *)
Fixpoint first_failure (results : list Error) : Error :=
  match results with [] => kSuccess | e :: results => if is_error e then e else first_failure results end.

Definition sl_initImplFromLoop (env : socket_env) (l : SocketListener) : outcome (SocketListener * list tcall) :=
  _ ← tp_check (negb (sl_socket_ l));
  '(l, calls) ← (if is_error (se_create env) then setError (se_create env) l
                 else setError (first_failure (socket_results env)) (l <| sl_socket_ := true |>));
  Done (l, TcEnroll :: calls).

Definition sl_acceptImplFromLoop (fn : nat) (l : SocketListener) : outcome (SocketListener * list tcall) :=
  let l := l <| sl_fns_ ::= fun fns => fns ++ [fn] |> in
  Done (l, if (length (sl_fns_ l) =? 1)%nat then [TcRegister EPOLLIN] else []).

Definition has (events flag : Z) : bool := negb (Z.land events flag =? 0).

(** The error after [EPOLLERR], given what [getsockopt] returns and the error it tells. *)
Definition socket_error (getsockopt : Z * Z) : Error := SystemError (if getsockopt.1 =? -1 then getsockopt.1 else getsockopt.2).

(** [accept_result] is what [accept] returns; [connection] is the one made for the socket. *)
Definition sl_handleEventsFromLoop (events : Z) (getsockopt : Z * Z) (accept_result : Error) (connection : Z) (l : SocketListener)
  : outcome (SocketListener * list tcall) :=
  if has events EPOLLERR then setError (socket_error getsockopt) l
  else if has events EPOLLHUP then setError EOFError l
  else if negb (events =? EPOLLIN) then Throw ExInvalidArgument
  else if is_error accept_result then setError accept_result l
  else
    match sl_fns_ l with
    | [] => Throw ExAssert
    | fn :: fns =>
        Done (l <| sl_fns_ := fns |>,
              (match fns with [] => [TcUnregister] | _ => [] end) ++ [TcCreateConnection connection; TcAccept fn kSuccess (Some connection)])
    end.

(** ** Listeners of libuv *)

(** [ul_closeCallback_] and [ul_connectionCallback_]: whether these callbacks of the
    handle are armed; [ul_handle]: how far libuv is with closing it. *)
Inductive HandleState := HandleOpen | HandleClosing | HandleClosed.
#[export] Instance HandleState_eq_dec : EqDecision HandleState := ltac:(solve_decision).

Record UvListener := mkUvListener {
  ul_error_ : Error;
  ul_closeCallback_ : bool;
  ul_connectionCallback_ : bool;
  ul_handle : HandleState;
  ul_callback_ : RearmableCallback (Fn := nat) (Args := Error * option Z);
}.
#[export] Instance eta_UvListener : Eta UvListener := fun l =>
  mkUvListener (ul_error_ l) (ul_closeCallback_ l) (ul_connectionCallback_ l) (ul_handle l) (ul_callback_ l).

Definition newUvListener : UvListener := mkUvListener kSuccess false false HandleOpen newRearmable.

Definition accept_call (x : nat * (Error * option Z)) : tcall := TcAccept x.1 x.2.1 x.2.2.

Definition ul_handleErrorImpl (l : UvListener) : outcome (UvListener * list tcall) :=
  let '(callback, calls) := triggerAll (fun _ => (ul_error_ l, None)) (ul_callback_ l) in
  _ ← tp_check (bool_decide (ul_handle l = HandleOpen));
  Done (l <| ul_callback_ := callback |> <| ul_handle := HandleClosing |>, (accept_call <$> calls) ++ [TcUvClose]).

#[export] Instance uv_errors : ListenerErrors UvListener := {
  li_error := ul_error_;
  li_put_error e l := l <| ul_error_ := e |>;
  handleErrorImpl := ul_handleErrorImpl;
}.

(** The codes that libuv returns: a negative one throws ([TP_THROW_UV_IF]). *)
Record uv_env := mkUvEnv { ue_init : Z; ue_nodelay : Z; ue_bind : Z; ue_listen : Z; ue_getsockname : Z }.

Definition ul_initImplFromLoop (contextClosed : bool) (env : uv_env) (l : UvListener) : outcome (UvListener * list tcall) :=
  _ ← tp_check (negb contextClosed);
  _ ← throw_system_if_neg (ue_init env);
  _ ← throw_system_if_neg (ue_nodelay env);
  _ ← throw_system_if_neg (ue_bind env);
  _ ← tp_check (negb (ul_closeCallback_ l));
  let l := l <| ul_closeCallback_ := true |> in
  _ ← tp_check (negb (ul_connectionCallback_ l));
  let l := l <| ul_connectionCallback_ := true |> in
  _ ← throw_system_if_neg (ue_listen env);
  _ ← throw_system_if_neg (ue_getsockname env);
  Done (l, [TcEnroll; TcUvListen]).

Definition ul_acceptImplFromLoop (fn : nat) (l : UvListener) : outcome (UvListener * list tcall) :=
  let '(callback, calls) := arm fn (ul_callback_ l) in
  Done (l <| ul_callback_ := callback |>, accept_call <$> calls).

Definition uv_error (status : Z) : Error := OtherError (Z.to_nat (- status)).

(** [codes]: what [uv_tcp_init], [uv_tcp_nodelay] and [uv_accept] return. *)
Definition connectionCallbackFromLoop (contextClosed : bool) (status : Z) (codes : Z * Z * Z) (connection : Z) (l : UvListener)
  : outcome (UvListener * list tcall) :=
  if negb (status =? 0) then setError (uv_error status) l
  else
    let '(rv_init, rv_nodelay, rv_accept) := codes in
    _ ← tp_check (negb contextClosed);
    _ ← throw_system_if_neg rv_init;
    _ ← throw_system_if_neg rv_nodelay;
    _ ← throw_system_if_neg rv_accept;
    let '(callback, calls) := trigger (kSuccess, Some connection) (ul_callback_ l) in
    Done (l <| ul_callback_ := callback |>, TcUvAccept connection :: TcCreateConnection connection :: (accept_call <$> calls)).

Definition closeCallbackFromLoop (l : UvListener) : outcome (UvListener * list tcall) := Done (l, [TcUnenroll]).

(** [uvConnectionCb] and [uvCloseCb] of the handle; libuv calls the latter once the
    handle is closed. *)
Definition uvConnectionCb (contextClosed : bool) (status : Z) (codes : Z * Z * Z) (connection : Z) (l : UvListener)
  : outcome (UvListener * list tcall) :=
  _ ← tp_check (ul_connectionCallback_ l);
  connectionCallbackFromLoop contextClosed status codes connection l.
Definition uvCloseCb (l : UvListener) : outcome (UvListener * list tcall) :=
  let l := l <| ul_handle := HandleClosed |> in
  if ul_closeCallback_ l then closeCallbackFromLoop l else Done (l, []).

(** ** What a listener promises *)

(** Requests and connections are matched in order; [mt_stash] are connections that
    came before a request. *)
Record Matching := mkMatching { mt_error : Error; mt_waiting : list nat; mt_stash : list Z }.
#[export] Instance eta_Matching : Eta Matching := fun m => mkMatching (mt_error m) (mt_waiting m) (mt_stash m).

Definition newMatching : Matching := mkMatching kSuccess [] [].

(** An answer to a request. *)
Definition answer : Type := nat * (Error * option Z).
Definition refusal (e : Error) (fn : nat) : answer := (fn, (e, None)).
Definition match_of (x : nat * Z) : answer := (x.1, (kSuccess, Some x.2)).

Inductive lop := LoAsk (fn : nat) | LoArrive (connection : Z) | LoFail (e : Error) | LoNothing.

Definition matching (op : lop) (m : Matching) : Matching * list answer :=
  match op with
  | LoAsk fn =>
      if is_error (mt_error m) then (m, [refusal (mt_error m) fn])
      else match mt_stash m with
           | c :: stash => (m <| mt_stash := stash |>, [match_of (fn, c)])
           | [] => (m <| mt_waiting ::= fun fns => fns ++ [fn] |>, [])
           end
  | LoArrive c =>
      match mt_waiting m with
      | fn :: fns => (m <| mt_waiting := fns |>, [match_of (fn, c)])
      | [] => (m <| mt_stash ::= fun cs => cs ++ [c] |>, [])
      end
  | LoFail e =>
      if is_error (mt_error m) || negb (is_error e) then (m, [])
      else (m <| mt_error := e |> <| mt_waiting := [] |>, refusal e <$> mt_waiting m)
  | LoNothing => (m, [])
  end.

Definition answers (calls : list tcall) : list answer :=
  omap (fun c => match c with TcAccept fn e connection => Some (fn, (e, connection)) | _ => None end) calls.
Definition lives (calls : list tcall) : list bool :=
  omap (fun c => match c with TcEnroll => Some true | TcUnenroll => Some false | _ => None end) calls.

(** A listener, with whether the loop over epoll watches its socket. *)
Record Listening (L : Type) := mkListening { ls_listener : L; ls_watched : bool }.
Arguments mkListening {L}.
Arguments ls_listener {L}.
Arguments ls_watched {L}.

(** [unregisterDescriptor] throws when the descriptor is not registered; a listener
    does not register it twice either. *)
Definition watch (c : tcall) (watched : bool) : outcome bool :=
  match c with
  | TcRegister _ => _ ← tp_check (negb watched); Done true
  | TcUnregister => _ ← tp_check watched; Done false
  | _ => Done watched
  end.

Definition perform {L} (f : L -> outcome (L * list tcall)) (o : Listening L) : outcome (Listening L * list tcall) :=
  '(l, calls) ← f (ls_listener o); watched ← fold_outcome watch calls (ls_watched o); Done (mkListening l watched, calls).

(** The operations of an implementation: [tl_event] handles what the layer below
    reports ([tl_event_ok] when it can), and [tl_meaning] is what that means. *)
Class TransportListener (L Env Ev : Type) `{ListenerErrors L} := {
  tl_new : L;
  tl_init : Env -> L -> outcome (L * list tcall);
  tl_accept : nat -> L -> outcome (L * list tcall);
  tl_event : Ev -> L -> outcome (L * list tcall);
  tl_env_ok : Env -> Prop;
  tl_event_ok : Ev -> Listening L -> Prop;
  tl_meaning : Ev -> lop;
  tl_phase : L -> Phase;
  tl_rel : Listening L -> Matching -> Prop;
}.

Section laws.
Context {L Env Ev : Type} `{TransportListener L Env Ev}.
Implicit Types (o : Listening L) (m : Matching).

(** [f] does what [op] does to the machine, and the phase changes along. *)
Definition implements (f : L -> outcome (L * list tcall)) (op : lop) o m : Prop :=
  exists o' calls, perform f o = Done (o', calls) /\ tl_rel o' (matching op m).1 /\ answers calls = (matching op m).2 /\
    phase_step (tl_phase (ls_listener o)) (lives calls) (tl_phase (ls_listener o')).
End laws.

Class TransportListenerLaws (L Env Ev : Type) `{TransportListener L Env Ev} : Prop := {
  law_new : tl_rel (mkListening tl_new false) newMatching /\ tl_phase tl_new = New;
  law_error o m : tl_rel o m -> li_error (ls_listener o) = mt_error m;
  law_refused o m : tl_rel o m -> tl_phase (ls_listener o) = New ->
    let o' := mkListening (li_put_error ListenerClosedError (ls_listener o)) (ls_watched o) in
    tl_rel o' (matching (LoFail ListenerClosedError) m).1 /\ tl_phase (ls_listener o') = Gone;
  law_start env o m : tl_rel o m -> tl_phase (ls_listener o) = New -> tl_env_ok env ->
    exists e o' calls bs, perform (tl_init env) o = Done (o', calls) /\ tl_rel o' (matching (LoFail e) m).1 /\
      answers calls = [] /\ lives calls = true :: bs /\ phase_step Live bs (tl_phase (ls_listener o'));
  law_accept fn o m : tl_rel o m -> tl_phase (ls_listener o) = Live -> implements (tl_accept fn) (LoAsk fn) o m;
  law_fail e o m : tl_rel o m -> tl_phase (ls_listener o) = Live -> is_error e = true ->
    implements (fun l => handleErrorImpl (li_put_error e l)) (LoFail e) o m /\
    forall o' calls, perform (fun l => handleErrorImpl (li_put_error e l)) o = Done (o', calls) -> tl_phase (ls_listener o') <> Live;
  law_event ev o m : tl_rel o m -> tl_phase (ls_listener o) <> New -> tl_event_ok ev o -> implements (tl_event ev) (tl_meaning ev) o m;
  law_live o m : tl_rel o m -> tl_phase (ls_listener o) = Live <-> tl_phase (ls_listener o) <> New /\ is_error (mt_error m) = false;
}.

(** ** Listeners with a socket keep the promise *)

(** What may happen on a socket that is watched: events of the kind asked for, an
    error or a hang-up. *)
Record socket_event := mkSocketEvent { so_events : Z; so_getsockopt : Z * Z; so_accept : Error; so_connection : Z }.

Definition socket_meaning (ev : socket_event) : lop :=
  if has (so_events ev) EPOLLERR then LoFail (socket_error (so_getsockopt ev))
  else if has (so_events ev) EPOLLHUP then LoFail EOFError
  else if is_error (so_accept ev) then LoFail (so_accept ev)
  else LoArrive (so_connection ev).

Record socket_rel (o : Listening SocketListener) (m : Matching) : Prop := {
  sr_error : sl_error_ (ls_listener o) = mt_error m;
  sr_waiting : sl_fns_ (ls_listener o) = mt_waiting m;
  sr_watched : ls_watched o = match mt_waiting m with [] => false | _ => true end;
  sr_stash : mt_stash m = [];
  sr_open : is_error (mt_error m) = true \/ sl_socket_ (ls_listener o) = false -> mt_waiting m = [];
}.

#[export] Instance socket_listener : TransportListener SocketListener socket_env socket_event := {
  tl_new := newSocketListener;
  tl_init := sl_initImplFromLoop;
  tl_accept := sl_acceptImplFromLoop;
  tl_event ev := sl_handleEventsFromLoop (so_events ev) (so_getsockopt ev) (so_accept ev) (so_connection ev);
  tl_env_ok _ := True;
  tl_event_ok ev o := ls_watched o = true /\ so_events ev <> 0 /\ allowed EPOLLIN (so_events ev) = true;
  tl_meaning := socket_meaning;
  tl_phase l := if is_error (sl_error_ l) then Gone else if sl_socket_ l then Live else New;
  tl_rel := socket_rel;
}.

(** The events of a socket that is only watched for input, unless there is an error or
    a hang-up. *)
Lemma only_input events :
  allowed EPOLLIN events = true -> events <> 0 -> has events EPOLLERR = false -> has events EPOLLHUP = false -> events = EPOLLIN.
Proof.
  unfold allowed, has, EPOLLIN, EPOLLERR, EPOLLHUP. intros Ha Hn He Hh.
  apply Z.eqb_eq in Ha. apply negb_false_iff, Z.eqb_eq in He, Hh.
  assert (events = Z.land events 1) as E.
  { rewrite <- (Z.lor_ldiff_and events (Z.lor 1 (Z.lor 8 16))) at 1. rewrite Z.ldiff_land, Ha, !Z.land_lor_distr_r, He, Hh, Z.lor_0_l.
    by rewrite !Z.lor_0_r. }
  change 1 with (Z.ones 1) in E. rewrite Z.land_ones in E by lia. change (2 ^ 1) with 2 in E. pose proof (Z.mod_pos_bound events 2). lia.
Qed.

Lemma answers_app c1 c2 : answers (c1 ++ c2) = answers c1 ++ answers c2.
Proof. apply omap_app. Qed.
Lemma lives_app c1 c2 : lives (c1 ++ c2) = lives c1 ++ lives c2.
Proof. apply omap_app. Qed.
Lemma answers_refusals e fns : answers ((fun fn => TcAccept fn e None) <$> fns) = refusal e <$> fns.
Proof. induction fns as [|fn fns IH]; [done|]. cbn. unfold refusal at 1. f_equal. exact IH. Qed.
Lemma lives_refusals e fns : lives ((fun fn => TcAccept fn e None) <$> fns) = [].
Proof. induction fns as [|fn fns IH]; [done|]. exact IH. Qed.
Lemma fold_outcome_app {A S} (f : A -> S -> outcome S) l1 l2 s :
  fold_outcome f (l1 ++ l2) s = (s' ← fold_outcome f l1 s; fold_outcome f l2 s').
Proof. revert s. induction l1 as [|a l1 IH]; intros s; simpl; [done|]. destruct (f a s); simpl; [apply IH | done]. Qed.
Lemma watch_refusals e fns b : fold_outcome watch ((fun fn => TcAccept fn e None) <$> fns) b = Done b.
Proof. by induction fns. Qed.

Lemma perform_done {L} (f : L -> outcome (L * list tcall)) o l calls watched :
  f (ls_listener o) = Done (l, calls) -> fold_outcome watch calls (ls_watched o) = Done watched ->
  perform f o = Done (mkListening l watched, calls).
Proof. intros Hf Hw. unfold perform. rewrite Hf, bind_done. cbv beta iota. by rewrite Hw, bind_done. Qed.

(** What [handleErrorImpl] does. *)
Lemma socket_fail e o m :
  socket_rel o m -> is_error (mt_error m) = false -> is_error e = true ->
  exists calls, perform (fun l => handleErrorImpl (li_put_error e l)) o = Done (mkListening (mkSocketListener e false []) false, calls) /\
    answers calls = refusal e <$> mt_waiting m /\ lives calls = [false] /\ matching (LoFail e) m = (mkMatching e [] [], refusal e <$> mt_waiting m).
Proof.
  intros [Re Rw Rb Rs Ro] Hn He. eexists. split_and!.
  - eapply perform_done; [reflexivity|]. rewrite Rb, fold_outcome_app. cbn [li_put_error socket_errors sl_fns_]. unfold field_update.
    cbn [sl_fns_ sl_error_]. rewrite Rw. destruct (mt_waiting m) as [|fn fns]; [done|].
    change (fold_outcome watch [TcUnregister] true) with (Done false). by rewrite bind_done, fold_outcome_app, watch_refusals.
  - cbn. rewrite Rw, !answers_app, answers_refusals. cbn. rewrite app_nil_r. by destruct (mt_waiting m).
  - cbn. rewrite Rw, !lives_app, lives_refusals. by destruct (mt_waiting m).
  - unfold matching. rewrite Hn, He. destruct m; simpl in *; by subst.
Qed.

(** Ends a case of a law: the listener is related to the machine and changed phase. *)
Ltac law_done he :=
  cbn; unfold field_update; cbn; rewrite ?he; split_and?;
  lazymatch goal with |- phase_step _ _ _ => constructor | |- tl_rel _ _ => idtac | |- _ = _ => done | _ => idtac end;
  try (split; cbn; unfold field_update; cbn; naive_solver congruence).

(** The phases of a socket listener that is related to a machine. *)
Lemma socket_live o m :
  socket_rel o m -> tl_phase (ls_listener o) = Live <-> tl_phase (ls_listener o) <> New /\ is_error (mt_error m) = false.
Proof. intros [Re _ _ _ _]. cbn. rewrite Re. destruct (is_error (mt_error m)), (sl_socket_ (ls_listener o)); naive_solver. Qed.

(** [setError], called by a listener that is live. *)
Lemma socket_setError e o m :
  socket_rel o m -> tl_phase (ls_listener o) = Live -> is_error e = true -> implements (setError e) (LoFail e) o m.
Proof.
  intros Hr [Hn He0]%(socket_live _ _ Hr) He. destruct (socket_fail e o m Hr He0 He) as (calls & Hp & Ha & Hl & Hm).
  exists (mkListening (mkSocketListener e false []) false), calls. rewrite Hm. split_and!; [|by split|done|].
  - unfold perform, setError in *. cbn [li_error socket_errors]. rewrite (sr_error _ _ Hr), He0, He. exact Hp.
  - rewrite Hl. cbn in *. rewrite (sr_error _ _ Hr), He0 in *. rewrite He. destruct (sl_socket_ (ls_listener o)); [constructor | done].
Qed.

#[export] Instance socket_laws : TransportListenerLaws SocketListener socket_env socket_event.
Proof.
  split.
  - by repeat split.
  - intros o m Hr. apply (sr_error _ _ Hr).
  - intros o m Hr Hn. destruct Hr as [Re Rw Rb Rs Ro]. cbn in *. rewrite Re in *. destruct (is_error (mt_error m)) eqn:He; [done|].
    destruct (sl_socket_ (ls_listener o)) eqn:Hs; [done|]. rewrite Ro in * by auto. cbn. by repeat split.
  - intros env o m Hr Hn _. destruct Hr as [Re Rw Rb Rs Ro]. cbn in Hn. destruct (is_error (sl_error_ (ls_listener o))) eqn:He; [done|].
    destruct (sl_socket_ (ls_listener o)) eqn:Hs; [done|]. rewrite Ro in Rw, Rb by auto.
    destruct o as [[e0 sk fns] b], m as [e1 wait stash]. cbn in *. subst. assert (wait = []) as -> by auto.
    exists (if is_error (se_create env) then se_create env else first_failure (socket_results env)).
    cbn. rewrite He. unfold perform, sl_initImplFromLoop, setError. cbn. rewrite He. cbn.
    destruct (is_error (se_create env)) eqn:Hc; cbn; rewrite ?Hc; cbn.
    { eexists _, _, [false]. split; [reflexivity|]. law_done Hc. }
    destruct (is_error (first_failure _)) eqn:Hf; cbn.
    + eexists _, _, [false]. split; [reflexivity|]. law_done Hf.
    + eexists _, _, []. split; [reflexivity|]. law_done He.
  - intros fn o m Hr [Hn He]%(socket_live _ _ Hr). destruct Hr as [Re Rw Rb Rs Ro]. destruct o as [[e0 sk fns] b], m as [e1 wait stash].
    cbn in *. subst. rewrite He in *. destruct sk; [|done]. unfold implements, perform, sl_acceptImplFromLoop. cbn. rewrite He.
    destruct wait as [|f wait]; cbn;
      rewrite ?(proj2 (Nat.eqb_neq (length (wait ++ [fn])) 0)) by (rewrite length_app; simpl; lia);
      eexists _, _; (split; [reflexivity|]); law_done He.
  - intros e o m Hr Hl He. pose proof (proj1 (socket_live _ _ Hr) Hl) as [Hn He0].
    destruct (socket_fail e o m Hr He0 He) as (calls & Hp & _ & _ & _). split.
    + destruct (socket_setError e o m Hr Hl He) as (o' & calls' & Hp' & Hrest). exists o', calls'. split; [|exact Hrest].
      unfold perform, setError in Hp'. cbn [li_error socket_errors] in Hp'. by rewrite (sr_error _ _ Hr), He0, He in Hp'.
    + intros o' calls'. rewrite Hp. intros [= <- _]. cbn. by rewrite He.
  - intros ev o m Hr Hn (Hw & Hne & Hal). pose proof Hr as [Re Rw Rb Rs Ro]. rewrite Hw in Rb.
    destruct (mt_waiting m) as [|fn fns] eqn:Hwait; [done|]. assert (is_error (mt_error m) = false) as He.
    { destruct (is_error (mt_error m)); [|done]. discriminate Ro. by left. }
    assert (sl_socket_ (ls_listener o) = true) as Hs. { destruct (sl_socket_ (ls_listener o)); [done|]. discriminate Ro. by right. }
    assert (tl_phase (ls_listener o) = Live) as Hl by (cbn; by rewrite Re, He, Hs).
    unfold tl_event, tl_meaning. cbn [socket_listener]. unfold sl_handleEventsFromLoop, socket_meaning.
    destruct (has (so_events ev) EPOLLERR) eqn:H1; [by apply socket_setError|].
    destruct (has (so_events ev) EPOLLHUP) eqn:H2; [by apply socket_setError|].
    assert (so_events ev = EPOLLIN) as E by by apply only_input. rewrite (proj2 (Z.eqb_eq _ _) E). cbn [negb].
    destruct (is_error (so_accept ev)) eqn:H3; [by apply socket_setError|].
    destruct o as [[e0 sk fns'] b], m as [e1 wait stash]. cbn in *. subst. unfold implements, perform. cbn.
    destruct fns as [|fn' fns]; cbn; eexists _, _; (split; [reflexivity|]); law_done He.
  - apply socket_live.
Qed.

(** ** Listeners of libuv keep the promise *)

Inductive uv_event := UvConnection (status : Z) (codes : Z * Z * Z) (connection : Z) | UvClosed.

Definition uv_meaning (ev : uv_event) : lop :=
  match ev with
  | UvConnection status _ c => if negb (status =? 0) then LoFail (uv_error status) else LoArrive c
  | UvClosed => LoNothing
  end.

Definition stashed (c : Z) : Error * option Z := (kSuccess, Some c).

Record uv_rel (o : Listening UvListener) (m : Matching) : Prop := {
  ur_error : ul_error_ (ls_listener o) = mt_error m;
  ur_callback : ul_callback_ (ls_listener o) = mkRearmable (mt_waiting m) (stashed <$> mt_stash m);
  ur_match : mt_waiting m = [] \/ mt_stash m = [];
  ur_armed : ul_connectionCallback_ (ls_listener o) = ul_closeCallback_ (ls_listener o);
  ur_new : ul_closeCallback_ (ls_listener o) = false -> mt_waiting m = [] /\ mt_stash m = [] /\ ul_handle (ls_listener o) = HandleOpen;
  ur_refused : is_error (mt_error m) = true -> mt_waiting m = [] /\ (ul_closeCallback_ (ls_listener o) = true -> ul_handle (ls_listener o) <> HandleOpen);
  ur_open : is_error (mt_error m) = false -> ul_handle (ls_listener o) = HandleOpen;
  ur_watched : ls_watched o = false;
}.

(** libuv reports connections while the handle is open, and that it is closed after it
    was asked to; the context is not closed while the handle is open, since it closes
    its listeners.  Calls to libuv are taken to succeed (the code has them throw from
    the loop otherwise). *)
#[export] Instance uv_listener : TransportListener UvListener uv_env uv_event := {
  tl_new := newUvListener;
  tl_init := ul_initImplFromLoop false;
  tl_accept := ul_acceptImplFromLoop;
  tl_event ev := match ev with UvConnection status codes c => uvConnectionCb false status codes c | UvClosed => uvCloseCb end;
  tl_env_ok env := 0 <= ue_init env /\ 0 <= ue_nodelay env /\ 0 <= ue_bind env /\ 0 <= ue_listen env /\ 0 <= ue_getsockname env;
  tl_event_ok ev o := match ev with
    | UvConnection _ (c1, c2, c3) _ =>
        ul_connectionCallback_ (ls_listener o) = true /\ ul_handle (ls_listener o) = HandleOpen /\ 0 <= c1 /\ 0 <= c2 /\ 0 <= c3
    | UvClosed => ul_handle (ls_listener o) = HandleClosing
    end;
  tl_meaning := uv_meaning;
  tl_phase l :=
    if ul_closeCallback_ l then
      if is_error (ul_error_ l) then if bool_decide (ul_handle l = HandleClosed) then Gone else Closing else Live
    else if is_error (ul_error_ l) then Gone else New;
  tl_rel := uv_rel;
}.

Lemma refusals_calls e k fns : accept_call <$> triggerAll_loop k (fun _ => (e, None)) fns = (fun fn => TcAccept fn e None) <$> fns.
Proof. revert k. induction fns as [|fn fns IH]; intros k; [done|]. cbn. unfold accept_call at 1. cbn. f_equal. apply IH. Qed.

Lemma uv_live o m :
  uv_rel o m -> tl_phase (ls_listener o) = Live <-> tl_phase (ls_listener o) <> New /\ is_error (mt_error m) = false.
Proof.
  intros [Re _ _ _ _ _ _ _]. cbn. rewrite Re. destruct (ul_closeCallback_ (ls_listener o)), (is_error (mt_error m)); [|naive_solver..].
  destruct (bool_decide _); naive_solver.
Qed.

(** What [handleErrorImpl] does. *)
Lemma uv_fail e o m :
  uv_rel o m -> tl_phase (ls_listener o) = Live -> is_error e = true ->
  exists calls, perform (fun l => handleErrorImpl (li_put_error e l)) o =
      Done (mkListening (mkUvListener e true true HandleClosing (mkRearmable [] (stashed <$> mt_stash m))) false, calls) /\
    answers calls = refusal e <$> mt_waiting m /\ lives calls = [] /\ matching (LoFail e) m = (mkMatching e [] (mt_stash m), refusal e <$> mt_waiting m).
Proof.
  intros Hr Hl He. pose proof (proj1 (uv_live o m Hr) Hl) as [Hn He0]. destruct Hr as [Re Rc Rm Ra Rn Rr Ro Rw].
  assert (ul_closeCallback_ (ls_listener o) = true) as Hcc. { cbn in Hl. destruct (ul_closeCallback_ _); [done|]. by destruct (is_error (ul_error_ _)). }
  destruct o as [[e0 cc nc h cb] b], m as [e1 wait stash]. cbn in *. subst. specialize (Ro He0). subst h.
  exists (((fun fn => TcAccept fn e None) <$> wait) ++ [TcUvClose]). split_and!.
  - unfold perform, ul_handleErrorImpl. cbn. rewrite ?bind_done. cbv beta iota. unfold field_update. cbn.
    rewrite refusals_calls, tp_check_bind, bind_done by done. cbv beta iota. by rewrite fold_outcome_app, watch_refusals.
  - by rewrite answers_app, answers_refusals, app_nil_r.
  - by rewrite lives_app, lives_refusals.
  - by rewrite He0, He.
Qed.

Lemma uv_setError e o m :
  uv_rel o m -> tl_phase (ls_listener o) = Live -> is_error e = true -> implements (setError e) (LoFail e) o m.
Proof.
  intros Hr Hl He. pose proof (proj1 (uv_live o m Hr) Hl) as [Hn He0]. destruct (uv_fail e o m Hr Hl He) as (calls & Hp & Ha & Hli & Hm).
  exists (mkListening (mkUvListener e true true HandleClosing (mkRearmable [] (stashed <$> mt_stash m))) false), calls. rewrite Hm. split_and!; [| |done|].
  - unfold perform, setError in *. cbn [li_error uv_errors]. rewrite (ur_error _ _ Hr), He0, He. exact Hp.
  - split; cbn; naive_solver congruence.
  - rewrite Hli, Hl. cbn. rewrite He. constructor.
Qed.

#[export] Instance uv_laws : TransportListenerLaws UvListener uv_env uv_event.
Proof.
  split.
  - split; [|done]. by repeat split; auto.
  - intros o m Hr. apply (ur_error _ _ Hr).
  - intros o m Hr Hn. destruct Hr as [Re Rc Rm Ra Rn Rr Ro Rw]. destruct o as [[e0 cc nc h cb] b], m as [e1 wait stash]. cbn in *. subst.
    destruct cc; [destruct (is_error e1); [by destruct (bool_decide _)|done]|]. destruct (is_error e1) eqn:He; [done|].
    destruct Rn as (-> & -> & ->); [done|]. cbn. by repeat split; auto.
  - intros env o m Hr Hn (H1 & H2 & H3 & H4 & H5). destruct Hr as [Re Rc Rm Ra Rn Rr Ro Rw].
    destruct o as [[e0 cc nc h cb] b], m as [e1 wait stash]. cbn in *. subst.
    destruct cc; [destruct (is_error e1); [by destruct (bool_decide _)|done]|]. destruct (is_error e1) eqn:He; [done|].
    destruct Rn as (-> & -> & ->); [done|]. exists kSuccess. unfold perform, ul_initImplFromLoop. cbn.
    unfold throw_system_if_neg. rewrite !(proj2 (Z.ltb_ge _ _)) by lia. cbn. eexists _, _, []. split; [reflexivity|].
    cbn. rewrite He. split_and!; [|done|done|constructor]. split; cbn; naive_solver congruence.
  - intros fn o m Hr Hl. pose proof (proj1 (uv_live o m Hr) Hl) as [Hn He]. destruct Hr as [Re Rc Rm Ra Rn Rr Ro Rw].
    destruct o as [[e0 cc nc h cb] b], m as [e1 wait stash]. cbn in *. subst. rewrite He in *.
    destruct cc; [|done]. unfold implements, perform, ul_acceptImplFromLoop. cbn. rewrite He.
    destruct stash as [|c stash]; cbn; eexists _, _; (split; [reflexivity|]); cbn; rewrite He; split_and!; try done; try constructor;
      cbn; naive_solver congruence.
  - intros e o m Hr Hl He. destruct (uv_fail e o m Hr Hl He) as (calls & Hp & _ & _ & _). split.
    + destruct (uv_setError e o m Hr Hl He) as (o' & calls' & Hp' & Hrest). exists o', calls'. split; [|exact Hrest].
      unfold perform, setError in Hp'. cbn [li_error uv_errors] in Hp'. rewrite (ur_error _ _ Hr) in Hp'.
      pose proof (proj1 (uv_live o m Hr) Hl) as [_ He0]. by rewrite He0, He in Hp'.
    + intros o' calls'. rewrite Hp. intros [= <- _]. cbn. by rewrite He.
  - intros [status [[c1 c2] c3] c|] o m Hr Hn Hok; cbn in Hok.
    + destruct Hok as (Hnc & Hh & H1 & H2 & H3). assert (tl_phase (ls_listener o) = Live) as Hl.
      { apply (uv_live o m Hr). split; [done|]. destruct (is_error (mt_error m)) eqn:He; [|done]. exfalso.
        destruct (ur_refused _ _ Hr He) as [_ Hc]. rewrite <- (ur_armed _ _ Hr), Hnc in Hc. by apply Hc. }
      pose proof (proj1 (uv_live o m Hr) Hl) as [_ He]. unfold implements. unfold tl_event, tl_meaning, uv_listener, uv_meaning, uvConnectionCb, connectionCallbackFromLoop.
      destruct (negb (status =? 0)) eqn:Hs.
      { destruct (uv_setError (uv_error status) o m Hr Hl eq_refl) as (o' & calls & Hp & Hrest). exists o', calls. split; [|exact Hrest].
        unfold perform in *. by rewrite Hnc. }
      destruct Hr as [Re Rc Rm Ra Rn Rr Ro Rw]. destruct o as [[e0 cc nc h cb] b], m as [e1 wait stash]. cbn in *. subst.
      unfold perform, throw_system_if_neg. cbn. rewrite !(proj2 (Z.ltb_ge _ _)) by lia. cbn.
      destruct wait as [|fn wait]; cbn; eexists _, _; (split; [reflexivity|]); cbn; rewrite ?He; split_and!; try done; try constructor;
        cbn; rewrite ?fmap_app; naive_solver congruence.
    + destruct Hr as [Re Rc Rm Ra Rn Rr Ro Rw]. destruct o as [[e0 cc nc h cb] b], m as [e1 wait stash]. cbn in *. subst.
      destruct cc; [|destruct Rn as (_ & _ & ?); done]. destruct (is_error e1) eqn:He; [|by specialize (Ro eq_refl)].
      unfold implements, perform, uvCloseCb. cbn. eexists _, _. split; [reflexivity|]. cbn. rewrite He. split_and!; [|done|constructor].
      split; cbn; naive_solver congruence.
  - apply uv_live.
Qed.

(** ** The world of a listener *)

Section world.
Context {L Env Ev : Type} `{TransportListenerLaws L Env Ev}.
Implicit Types (o : Listening L) (m : Matching).

(** [lw_asked] and [lw_arrived]: the requests and the connections so far. *)
Record lworld := mkLWorld {
  lw_listening : Listening L;
  lw_asked : list nat;
  lw_arrived : list Z;
  lw_answers : list answer;
  lw_life : list bool;
}.

Definition newLWorld : lworld := mkLWorld (mkListening tl_new false) [] [] [] [].

Inductive laction := LaInit (contextClosed : bool) (env : Env) | LaAccept (fn : nat) | LaEvent (ev : Ev) | LaClose.

Definition code (a : laction) : L -> outcome (L * list tcall) :=
  match a with
  | LaInit contextClosed env => initFromLoop (tl_init env) contextClosed
  | LaAccept fn => acceptFromLoop tl_accept fn
  | LaEvent ev => tl_event ev
  | LaClose => closeFromLoop
  end.

(** What an action means to the machine. *)
Definition op_of (a : laction) : lop :=
  match a with LaAccept fn => LoAsk fn | LaEvent ev => tl_meaning ev | LaInit _ _ | LaClose => LoFail ListenerClosedError end.
Definition asks_of (op : lop) : list nat := match op with LoAsk fn => [fn] | _ => [] end.
Definition arrives_of (op : lop) : list Z := match op with LoArrive c => [c] | _ => [] end.

Definition lstep (a : laction) (w : lworld) : outcome lworld :=
  '(o, calls) ← perform (code a) (lw_listening w);
  Done (mkLWorld o (lw_asked w ++ asks_of (op_of a)) (lw_arrived w ++ arrives_of (op_of a)) (lw_answers w ++ answers calls) (lw_life w ++ lives calls)).

(** The initialization comes first: it is the first function deferred to the loop. *)
Definition lpossible (a : laction) (w : lworld) : Prop :=
  match a with
  | LaInit _ env => tl_phase (ls_listener (lw_listening w)) = New /\ tl_env_ok env
  | LaEvent ev => tl_phase (ls_listener (lw_listening w)) <> New /\ tl_event_ok ev (lw_listening w)
  | LaAccept _ | LaClose => tl_phase (ls_listener (lw_listening w)) <> New
  end.

Inductive lreach : lworld -> Prop :=
| lreach_new : lreach newLWorld
| lreach_step w a w' : lreach w -> lpossible a w -> lstep a w = Done w' -> lreach w'.

(** [n] requests were served; those that come after an error are refused. *)
Record matched (n : nat) (asked : list nat) (arrived : list Z) (given : list answer) m : Prop := {
  md_asked : (n <= length asked)%nat;
  md_arrived : (n <= length arrived)%nat;
  md_answers : given = (match_of <$> zip (take n asked) (take n arrived)) ++
    (if is_error (mt_error m) then refusal (mt_error m) <$> drop n asked else []);
  md_waiting : mt_waiting m = if is_error (mt_error m) then [] else drop n asked;
  md_stash : is_error (mt_error m) = false -> mt_stash m = drop n arrived;
  md_all : is_error (mt_error m) = false -> n = Nat.min (length asked) (length arrived);
}.

(** What the life of a listener tells its context. *)
Definition life_of (p : Phase) (life : list bool) : Prop :=
  match p with New => life = [] | Live | Closing => life = [true] | Gone => life = [] \/ life = [true; false] end.

Definition linv (w : lworld) : Prop :=
  exists m n, tl_rel (lw_listening w) m /\ matched n (lw_asked w) (lw_arrived w) (lw_answers w) m /\
    life_of (tl_phase (ls_listener (lw_listening w))) (lw_life w) /\
    (tl_phase (ls_listener (lw_listening w)) = New -> lw_asked w = [] /\ lw_arrived w = []).

Lemma close_implements o m :
  tl_rel o m -> tl_phase (ls_listener o) <> New ->
  implements closeFromLoop (LoFail ListenerClosedError) o m /\
  forall o' calls, perform closeFromLoop o = Done (o', calls) -> tl_phase (ls_listener o') <> Live.
Proof.
  intros Hr Hn. pose proof (law_live o m Hr) as Hlive. pose proof (law_error o m Hr) as He. unfold closeFromLoop, setError, implements, perform.
  destruct (is_error (mt_error m)) eqn:Hm.
  - rewrite He, Hm. cbn. rewrite Hm. cbn. split; [|intros o' calls [= <- _]; naive_solver]. destruct o as [l b].
    exists (mkListening l b), []. split_and!; [done..|constructor].
  - rewrite He, Hm. cbn [negb orb is_error]. destruct (law_fail ListenerClosedError o m Hr) as [Hi Hnl]; [by apply Hlive | done |]. by split.
Qed.

Lemma accept_implements fn o m :
  tl_rel o m -> tl_phase (ls_listener o) <> New -> implements (acceptFromLoop tl_accept fn) (LoAsk fn) o m.
Proof.
  intros Hr Hn. pose proof (law_live o m Hr) as Hlive. pose proof (law_error o m Hr) as He. destruct (is_error (mt_error m)) eqn:Hm.
  - unfold implements, perform, acceptFromLoop. rewrite He, Hm. cbn. rewrite Hm. destruct o as [l b].
    exists (mkListening l b), [TcAccept fn (mt_error m) None]. split_and!; [done..|constructor].
  - destruct (law_accept fn o m Hr) as (o' & calls & Hrest); [by apply Hlive|]. exists o', calls. unfold perform, acceptFromLoop in *.
    rewrite He, Hm. exact Hrest.
Qed.

Lemma code_implements a o m :
  tl_rel o m -> tl_phase (ls_listener o) <> New -> (forall ev, a = LaEvent ev -> tl_event_ok ev o) -> (forall c env, a <> LaInit c env) ->
  implements (code a) (op_of a) o m.
Proof.
  intros Hr Hn Hok Hni. destruct a as [c env|fn|ev|]; cbn [code op_of].
  - by destruct (Hni c env). - by apply accept_implements. - apply law_event; auto. - by apply close_implements.
Qed.
(** ** The history *)

Lemma drop_cons {A} n (l : list A) x r : drop n l = x :: r -> l !! n = Some x /\ drop (S n) l = r /\ (n < length l)%nat.
Proof.
  intros Hd. assert (l !! n = Some x) as Hl by (by rewrite <- (Nat.add_0_r n), <- lookup_drop, Hd).
  split; [done|]. split; [|by apply lookup_lt_Some in Hl]. rewrite (drop_S l x n Hl) in Hd. by injection Hd.
Qed.

Lemma match_snoc n (fns : list nat) (cs : list Z) fn c :
  fns !! n = Some fn -> cs !! n = Some c ->
  match_of <$> zip (take (S n) fns) (take (S n) cs) = (match_of <$> zip (take n fns) (take n cs)) ++ [match_of (fn, c)].
Proof.
  intros Hf Hc. pose proof (lookup_lt_Some _ _ _ Hf). pose proof (lookup_lt_Some _ _ _ Hc).
  rewrite (take_S_r _ _ _ Hf), (take_S_r _ _ _ Hc), zip_with_app by (rewrite !length_take; lia). by rewrite fmap_app.
Qed.

(** The machine keeps the history that [matched] describes. *)
Lemma matched_ask fn n asked arrived given m :
  matched n asked arrived given m ->
  exists n', matched n' (asked ++ [fn]) arrived (given ++ (matching (LoAsk fn) m).2) (matching (LoAsk fn) m).1.
Proof.
  intros [Ma Mb Mg Mw Ms Mn]. destruct m as [e waiting stash]. cbn [matching mt_error mt_waiting mt_stash] in *.
  destruct (is_error e) eqn:He.
  { exists n. split; cbn; rewrite ?He, ?length_app; try done; [lia|]. by rewrite Mg, take_app_le, drop_app_le, fmap_app, app_assoc by done. }
  specialize (Mn eq_refl). specialize (Ms eq_refl). rewrite app_nil_r in Mg. destruct stash as [|c stash].
  - apply (f_equal length) in Ms as Hl. rewrite length_drop in Hl. cbn in Hl. exists n. subst waiting.
    split; cbn; unfold field_update; cbn; rewrite ?He, ?length_app, ?app_nil_r; cbn; try done; try lia;
      [by rewrite Mg, take_app_le by done | by rewrite drop_app_le by done].
  - symmetry in Ms. destruct (drop_cons _ _ _ _ Ms) as (Hc & Hd & Hlt). assert (n = length asked) as -> by lia.
    assert ((asked ++ [fn]) !! length asked = Some fn) as Hf by by rewrite lookup_app_r, Nat.sub_diag by lia. exists (S (length asked)).
    split; cbn; unfold field_update; cbn; rewrite ?He, ?length_app, ?app_nil_r; cbn; try done; try lia.
    + by rewrite (match_snoc _ _ _ fn c Hf Hc), Mg, take_app_le by done.
    + rewrite Mw, !drop_ge; [done | rewrite length_app; cbn; lia | lia].
Qed.

Lemma matched_arrive c n asked arrived given m :
  matched n asked arrived given m ->
  exists n', matched n' asked (arrived ++ [c]) (given ++ (matching (LoArrive c) m).2) (matching (LoArrive c) m).1.
Proof.
  intros [Ma Mb Mg Mw Ms Mn]. destruct m as [e waiting stash]. cbn [matching mt_error mt_waiting mt_stash] in *.
  destruct waiting as [|fn waiting].
  - exists n. split; cbn; unfold field_update; cbn; rewrite ?length_app, ?app_nil_r; cbn; try done; try lia.
    + by rewrite Mg, (take_app_le arrived) by done.
    + intros He. by rewrite Ms, drop_app_le by done.
    + intros He. specialize (Mn He). rewrite He in Mw. apply (f_equal length) in Mw. rewrite length_drop in Mw. cbn in Mw. lia.
  - destruct (is_error e) eqn:He; [done|]. specialize (Mn eq_refl). rewrite app_nil_r in Mg.
    symmetry in Mw. destruct (drop_cons _ _ _ _ Mw) as (Hf & Hd & Hlt). assert (n = length arrived) as -> by lia.
    assert ((arrived ++ [c]) !! length arrived = Some c) as Hc by by rewrite lookup_app_r, Nat.sub_diag by lia. exists (S (length arrived)).
    split; cbn; unfold field_update; cbn; rewrite ?He, ?length_app, ?app_nil_r; cbn; try done; try lia.
    + by rewrite (match_snoc _ _ _ fn c Hf Hc), Mg, (take_app_le arrived) by done.
    + intros _. rewrite Ms, !drop_ge by (rewrite ?length_app; cbn; lia || done). done.
Qed.

Lemma matched_fail e n asked arrived given m :
  matched n asked arrived given m ->
  matched n asked arrived (given ++ (matching (LoFail e) m).2) (matching (LoFail e) m).1.
Proof.
  intros Hm. pose proof Hm as [Ma Mb Mg Mw Ms Mn]. destruct m as [e0 waiting stash]. cbn [matching mt_error mt_waiting mt_stash] in *.
  destruct (is_error e0 || negb (is_error e)) eqn:Hc; cbn; [by rewrite app_nil_r|]. apply orb_false_iff in Hc as [He0 He%negb_false_iff].
  rewrite He0, app_nil_r in Mg. rewrite He0 in Mw. subst. split; cbn; unfold field_update; cbn; rewrite ?He; done.
Qed.

(** A failure before there was any request. *)
Lemma matched_fail_first e n arrived given m : matched n [] arrived given m -> matched n [] arrived given (matching (LoFail e) m).1.
Proof.
  intros Hm. pose proof (matched_fail e _ _ _ _ _ Hm) as Hf. assert ((matching (LoFail e) m).2 = []) as E; [|by rewrite E, app_nil_r in Hf].
  pose proof (md_waiting _ _ _ _ _ Hm) as Hw. cbn. destruct (_ || _); [done|]. cbn. rewrite Hw. by destruct (is_error _), n.
Qed.

Lemma matched_op op n asked arrived given m :
  matched n asked arrived given m ->
  exists n', matched n' (asked ++ asks_of op) (arrived ++ arrives_of op) (given ++ (matching op m).2) (matching op m).1.
Proof.
  intros Hm. destruct op as [fn|c|e|]; cbn [asks_of arrives_of]; rewrite ?app_nil_r.
  - by apply (matched_ask _ n). - by apply (matched_arrive _ n). - exists n. by apply matched_fail.
  - by exists n.
Qed.

Lemma life_step p life bs q : life_of p life -> p <> New -> phase_step p bs q -> life_of q (life ++ bs).
Proof. intros Hl Hn Hs. destruct Hs; try done; cbn in *; subst; rewrite ?app_nil_r; auto. Qed.

(** Every possible step succeeds and keeps the invariant. *)
Lemma lstep_inv a w : linv w -> lpossible a w -> exists w', lstep a w = Done w' /\ linv w'.
Proof.
  intros (m & n & Hr & Hm & Hl & Hnew) Hp. destruct (decide (tl_phase (ls_listener (lw_listening w)) = New)) as [Hph|Hph].
  - destruct a as [c env|fn|ev|]; cbn [lpossible] in Hp; [destruct Hp as [_ Henv]|by try destruct Hp..].
    destruct (Hnew Hph) as [Has Harr]. rewrite Hph in Hl. cbn in Hl. unfold lstep. cbn [code op_of asks_of arrives_of]. rewrite Has, Harr, Hl in *.
    unfold initFromLoop. destruct c.
    + destruct (law_refused _ _ Hr Hph) as [Hr' Hg]. eexists. split; [unfold perform; cbn; reflexivity|].
      eexists _, n. split; [exact Hr'|]. cbn [lw_listening lw_asked lw_arrived lw_answers lw_life] in *. rewrite Hg. split_and!.
      * rewrite ?app_nil_r. by apply matched_fail_first.
      * by left. * done.
    + destruct (law_start env _ _ Hr Hph Henv) as (e & o' & calls & bs & Hrun & Hr' & Ha & Hli & Hps).
      unfold perform in *. rewrite Hrun, bind_done. cbv beta iota. eexists. split; [reflexivity|].
      eexists _, n. split; [exact Hr'|]. cbn [lw_listening lw_asked lw_arrived lw_answers lw_life] in *. rewrite Ha, Hli. split_and!.
      * rewrite ?app_nil_r. by apply matched_fail_first.
      * by apply (life_step Live [true] bs).
      * intros Hn. rewrite Hn in Hps. inversion Hps.
  - assert (forall c env, a <> LaInit c env) as Hni. { intros c env ->. by destruct Hp. }
    destruct (code_implements a _ m Hr Hph) as (o' & calls & Hrun & Hr' & Ha & Hps); [by intros ev -> ; destruct Hp | done |].
    destruct (matched_op (op_of a) _ _ _ _ _ Hm) as (n' & Hm'). unfold lstep. rewrite Hrun, bind_done. cbv beta iota. eexists. split; [reflexivity|].
    eexists _, n'. split; [exact Hr'|]. cbn [lw_listening lw_asked lw_arrived lw_answers lw_life] in *. rewrite Ha. split_and!.
    + done.
    + by eapply life_step.
    + intros Hn. apply phase_step_later in Hps. rewrite Hn in Hps. by destruct (tl_phase _).
Qed.
Lemma lreach_inv w : lreach w -> linv w.
Proof.
  induction 1 as [|w a w' _ IH Hp Hs].
  - destruct law_new as [Hr Hn]. exists newMatching, 0%nat. cbn [newLWorld lw_listening lw_asked lw_arrived lw_answers lw_life ls_listener].
    rewrite Hn. split_and!; [done | by split | done | done].
  - destruct (lstep_inv a w IH Hp) as (w1 & Hs1 & Hi). by rewrite Hs in Hs1; injection Hs1 as <-.
Qed.

(** No step of a listener throws; its [k]-th request is answered with the [k]-th
    connection, until there is an error, which answers the others; and it enrolled
    itself unless the context was closed, and unenrolled itself once. *)
Definition serves (w : lworld) : Prop :=
  let l := ls_listener (lw_listening w) in
  let asked := lw_asked w in
  let arrived := lw_arrived w in
  (forall a, lpossible a w -> exists w', lstep a w = Done w') /\
  (exists n, (n <= length asked)%nat /\ (n <= length arrived)%nat /\
    (is_error (li_error l) = false -> n = Nat.min (length asked) (length arrived)) /\
    lw_answers w = (match_of <$> zip (take n asked) (take n arrived)) ++
      (if is_error (li_error l) then refusal (li_error l) <$> drop n asked else [])) /\
  life_of (tl_phase l) (lw_life w).

Lemma lreach_serves w : lreach w -> serves w.
Proof.
  intros Hw. pose proof (lreach_inv w Hw) as Hi. unfold serves. split.
  { intros a Hp. destruct (lstep_inv a w Hi Hp) as (w' & Hs & _). by exists w'. }
  destruct Hi as (m & n & Hr & [M1 M2 M3 M4 M5 M6] & Hl & _). rewrite (law_error _ _ Hr). split; [|done]. exists n. by split_and!.
Qed.

(** Possible actions, one after another. *)
Inductive lruns : list laction -> lworld -> lworld -> Prop :=
| lruns_nil w : lruns [] w w
| lruns_cons a l w w' w'' : lpossible a w -> lstep a w = Done w' -> lruns l w' w'' -> lruns (a :: l) w w''.

Lemma lruns_reach l w w' : lruns l w w' -> lreach w -> lreach w'.
Proof. induction 1 as [|a l w w1 w2 Hp Hs _ IH]; intros Hr; [done|]. apply IH. by eapply lreach_step. Qed.
End world.

(** ** Listeners in a context *)

Section enrollee.
Context {L Env Ev : Type} `{TransportListenerLaws L Env Ev} (env : Env).

Definition enrolls (r : outcome (Listening L * list tcall)) : outcome (Listening L * list bool) :=
  '(o, calls) ← r; Done (o, lives calls).

Definition listening_enrollee : Enrollee (Listening L) := {|
  en_init contextClosed o := enrolls (perform (initFromLoop (tl_init env) contextClosed) o);
  en_close o := enrolls (perform closeFromLoop o);
  en_task o o' bs := exists a, (forall c env, a <> LaInit c env) /\ (forall ev, a = LaEvent ev -> tl_event_ok ev o) /\
    enrolls (perform (code a) o) = Done (o', bs);
  en_phase o := tl_phase (ls_listener o);
  en_ok o := exists m, tl_rel o m;
|}.

Lemma listening_laws : tl_env_ok env -> @EnrolleeLaws (Listening L) listening_enrollee.
Proof.
  intros Henv. split; cbn; unfold enrolls.
  - intros o [m Hr] Hn. destruct (law_refused _ _ Hr Hn) as [Hr' Hg]. unfold perform, initFromLoop. cbn. eexists. split; [reflexivity|].
    split; [by eexists | done].
  - intros o [m Hr] Hn. destruct (law_start env _ _ Hr Hn Henv) as (e & o' & calls & bs & Hrun & Hr' & _ & Hli & Hps).
    exists o', bs. unfold initFromLoop, perform in *. rewrite Hrun, bind_done. cbv beta iota. rewrite Hli. by split_and!; [|eexists|].
  - intros o [m Hr] Hn. destruct (close_implements _ _ Hr Hn) as [(o' & calls & Hrun & Hr' & _ & Hps) Hnl].
    exists o', (lives calls). rewrite Hrun, bind_done. split_and!; [done | by eexists | done | by eapply Hnl].
  - intros o o' bs [m Hr] Hn (a & Ha & Hev & Hrun). destruct (code_implements a _ m Hr Hn Hev Ha) as (o1 & calls & Hrun1 & Hr' & _ & Hps).
    rewrite Hrun1, bind_done in Hrun. injection Hrun as <- <-. split; [by eexists | done].
Qed.
End enrollee.

(** ** The theorem *)


(** ** Runs *)

Definition demo_env : socket_env := mkSocketEnv kSuccess (Some kSuccess) kSuccess kSuccess kSuccess kSuccess.
Definition demo_socket : @lworld SocketListener :=
  mkLWorld (mkListening (mkSocketListener (SystemError 104) false []) false) [10; 11; 12]%nat [7]
    [match_of (10%nat, 7); refusal (SystemError 104) 11; refusal (SystemError 104) 12] [true; false].

(** Two requests, a connection, an error of the socket, and a request after it. *)
Lemma demo_socket_reach : lreach demo_socket.
Proof.
  apply (lruns_reach [LaInit false demo_env; LaAccept 10; LaAccept 11; LaEvent (mkSocketEvent EPOLLIN (0, 0) kSuccess 7);
    LaEvent (mkSocketEvent (Z.lor EPOLLIN EPOLLERR) (0, 104) kSuccess 8); LaAccept 12] newLWorld); [|constructor].
  repeat (eapply lruns_cons; [cbn; (split_and!; first [done | by vm_compute]) || done | vm_compute; reflexivity|]). apply lruns_nil.
Qed.

Definition demo_uv : @lworld UvListener :=
  mkLWorld (mkListening (mkUvListener ListenerClosedError true true HandleClosed newRearmable) false) [20; 21]%nat [5]
    [match_of (20%nat, 5); refusal ListenerClosedError 21] [true; false].

(** A connection before its request; the listener is closed while another one waits. *)
Lemma demo_uv_reach : lreach demo_uv.
Proof.
  apply (lruns_reach [LaInit false (mkUvEnv 0 0 0 0 0); LaEvent (UvConnection 0 (0, 0, 0) 5); LaAccept 20; LaAccept 21; LaClose;
    LaEvent UvClosed] newLWorld); [|constructor].
  repeat (eapply lruns_cons; [cbn; (split_and!; first [done | by vm_compute]) || done | vm_compute; reflexivity|]). apply lruns_nil.
Qed.

