(* ===== verification/TransportContext.v ===== *)
(** * Contexts of the transports

    Models [transport/context_impl_boilerplate.h], with [handleErrorImpl] and [joinImpl]
    of [transport/uv/context_impl.cc], [transport/shm/context_impl.cc] and
    [transport/ibv/context_impl.cc]: the listeners and connections that enroll
    themselves, also those that a listener makes; closing and joining.  Listeners and
    connections are seen through the interface of [Enrollment], which
    [TransportListener] implements; they live in two heaps, indexed by their
    addresses. *)

From S2P Require Import Prelude Enrollment EpollLoop Callback TransportListener.

(** Which loops a context has: that of libuv, or the one over epoll and the reactor
    (shared memory and InfiniBand). *)
Inductive loops := UvLoop | EpollAndReactor.

Inductive loopcall := CloseUvLoop | CloseEpollLoop | CloseReactor | JoinUvLoop | JoinEpollLoop | JoinReactor.

Definition handleErrorImpl (k : loops) : list loopcall :=
  match k with UvLoop => [CloseUvLoop] | EpollAndReactor => [CloseEpollLoop; CloseReactor] end.
Definition joinImpl (k : loops) : list loopcall :=
  match k with UvLoop => [JoinUvLoop] | EpollAndReactor => [JoinEpollLoop; JoinReactor] end.

(** ** Tables of a context that may be closed *)

(** Once the context is closed no object is live, and once its loops have ended it
    holds none. *)
Definition none_held {O} `{Enrollee O} (h : gmap Z O) : Prop := forall id o, h !! id = Some o -> held (en_phase o) = false.
Definition settled {O} `{Enrollee O} (closed ended : bool) (h : gmap Z O) : Prop :=
  (closed = true -> none_live h) /\ (ended = true -> closed = true /\ none_held h).

Section tables.
Context {O : Type} `{EnrolleeLaws O}.
Implicit Types (t : gset Z * gmap Z O) (closed ended : bool).

Lemma settled_insert closed ended (h : gmap Z O) id o :
  settled closed ended h -> (closed = true -> en_phase o <> Live) -> (ended = true -> held (en_phase o) = false) ->
  settled closed ended (<[id := o]> h).
Proof.
  intros [H1 H2] Hc He. split.
  - intros Hcl. by apply none_live_insert; auto.
  - intros Hen. destruct (H2 Hen) as [Hcl Hh]. split; [done|]. intros id' o'.
    destruct (decide (id' = id)) as [->|Hne]; [rewrite lookup_insert_eq; intros [= <-]; auto | rewrite lookup_insert_ne by done; apply Hh].
Qed.

Lemma settled_lookup closed ended (h : gmap Z O) id o :
  settled closed ended h -> h !! id = Some o -> (closed = true -> en_phase o <> Live) /\ (ended = true -> held (en_phase o) = false).
Proof. intros [H1 H2] Ho. split; [intros Hc; exact (H1 Hc id o Ho) | intros He; exact (proj2 (H2 He) id o Ho)]. Qed.

Lemma new_settled closed ended t id o :
  table_ok t -> settled closed ended t.2 -> t.2 !! id = None -> en_ok o -> en_phase o = New ->
  table_ok (t.1, <[id := o]> t.2) /\ settled closed ended (<[id := o]> t.2).
Proof.
  intros Ht Hs Hn Ho Hp. split; [by destruct t; apply table_new|]. by apply settled_insert; rewrite ?Hp.
Qed.

Lemma init_settled closed ended t id o :
  table_ok t -> settled closed ended t.2 -> t.2 !! id = Some o -> en_phase o = New ->
  exists s h, on_object id (en_init closed) t = Done (s, h) /\ table_ok (s, h) /\ settled closed ended h.
Proof.
  intros Ht Hs Ho Hp. destruct (object_init_ok closed id t o Ht Ho Hp) as (s' & o' & Hrun & Ht' & _ & Hcl & _).
  eexists _, _. split; [exact Hrun|]. split; [done|]. apply settled_insert; [done | |].
  - intros Hc. by destruct (Hcl Hc) as [_ ->].
  - intros He. destruct (proj2 Hs He) as [Hc _]. by destruct (Hcl Hc) as [_ ->].
Qed.

Lemma task_settled closed ended t id o o' bs :
  table_ok t -> settled closed ended t.2 -> t.2 !! id = Some o -> en_phase o <> New -> en_task o o' bs ->
  exists s h, on_object id (fun _ => Done (o', bs)) t = Done (s, h) /\ table_ok (s, h) /\ settled closed ended h.
Proof.
  intros Ht Hs Ho Hn Htask. destruct (law_task o o' bs (tb_ok _ Ht _ _ Ho) Hn Htask) as [Hok Hp].
  destruct (step_object id (fun _ => Done (o', bs)) t o o' bs Ht Ho eq_refl Hok Hp) as (s' & Hrun & Ht').
  eexists _, _. split; [exact Hrun|]. split; [done|]. destruct (settled_lookup _ _ _ _ _ Hs Ho) as [Hl Hh]. apply phase_step_later in Hp.
  apply settled_insert; [done | |].
  - intros Hc. by apply (later_live _ _ Hp), Hl.
  - intros He. specialize (Hh He). by destruct (en_phase o), (en_phase o').
Qed.

(** Closing an open context. *)
Lemma close_settled t :
  table_ok t -> exists s h, close_all (elements t.1) t = Done (s, h) /\ table_ok (s, h) /\ settled true false h.
Proof.
  intros Ht. destruct (close_table_ok t Ht) as ([s h] & Hrun & Ht' & Hall). exists s, h. split_and!; [done..|].
  split; [|done]. intros _. exact (close_none_live t (s, h) Hall).
Qed.

(** When no object lingers, a closed context holds none. *)
Lemma ended_settled t :
  table_ok t -> settled true false t.2 -> (forall id o, t.2 !! id = Some o -> en_phase o <> Closing) -> settled true true t.2 /\ t.1 = ∅.
Proof.
  intros Ht [Hl _] Hc. specialize (Hl eq_refl). assert (none_held t.2) as Hh.
  { intros id o Ho. specialize (Hl id o Ho). specialize (Hc id o Ho). by destruct (en_phase o). }
  split; [by split|]. apply leibniz_equiv, elem_of_equiv_empty. intros id Hid. apply (tb_held _ Ht) in Hid as (o & Ho & Hheld).
  by rewrite (Hh id o Ho) in Hheld.
Qed.
End tables.

(** ** The context *)

Section context.
Context {OL OC : Type} `{EnrolleeLaws OL} `{EnrolleeLaws OC} (k : loops).

(** The objects enrolled are the addresses in [listeners_] and [connections_]; the
    heaps hold all of them. *)
Record TContext := mkTContext {
  error_ : Error;
  joined_ : bool;
  listenerCounter_ : Z;
  connectionCounter_ : Z;
  listeners_ : gset Z;
  connections_ : gset Z;
  listener_heap : gmap Z OL;
  connection_heap : gmap Z OC;
}.
#[export] Instance eta_TContext : Eta TContext := fun c =>
  mkTContext (error_ c) (joined_ c) (listenerCounter_ c) (connectionCounter_ c) (listeners_ c) (connections_ c)
    (listener_heap c) (connection_heap c).

Definition newTContext : TContext := mkTContext kSuccess false 0 0 ∅ ∅ ∅ ∅.

(** [initImplFromLoop] is the one of the base class, which does nothing. *)
Definition initFromLoop (c : TContext) : outcome TContext := _ ← tp_check (negb (is_error (error_ c))); Done c.

Definition connect (id : Z) (connection : OC) (c : TContext) : TContext :=
  c <| connectionCounter_ := u64 (connectionCounter_ c + 1) |> <| connection_heap ::= insert id connection |>.
Definition listen (id : Z) (listener : OL) (c : TContext) : TContext :=
  c <| listenerCounter_ := u64 (listenerCounter_ c + 1) |> <| listener_heap ::= insert id listener |>.

Definition closed (c : TContext) : bool := is_error (error_ c).

(** A task of a listener or of a connection, with its calls of [enroll] and [unenroll]. *)
Definition listener_task (id : Z) (f : OL -> outcome (OL * list bool)) (c : TContext) : outcome TContext :=
  '(s, h) ← on_object id f (listeners_ c, listener_heap c); Done (c <| listeners_ := s |> <| listener_heap := h |>).
Definition connection_task (id : Z) (f : OC -> outcome (OC * list bool)) (c : TContext) : outcome TContext :=
  '(s, h) ← on_object id f (connections_ c, connection_heap c); Done (c <| connections_ := s |> <| connection_heap := h |>).

(** [createAndInitConnection] of a listener: its counter is the listener's own, and the
    initialization is not deferred. *)
Definition createAndInitConnection (id : Z) (connection : OC) (c : TContext) : outcome TContext :=
  connection_task id (en_init (closed c)) (c <| connection_heap ::= insert id connection |>).

Definition handleError (c : TContext) : outcome (TContext * list loopcall) :=
  let listenersCopy := elements (listeners_ c) in
  let connectionsCopy := elements (connections_ c) in
  '(ls, lh) ← close_all listenersCopy (listeners_ c, listener_heap c);
  let c := c <| listeners_ := ls |> <| listener_heap := lh |> in
  '(cs, ch) ← close_all connectionsCopy (connections_ c, connection_heap c);
  Done (c <| connections_ := cs |> <| connection_heap := ch |>, handleErrorImpl k).

Definition setError (error : Error) (c : TContext) : outcome (TContext * list loopcall) :=
  if is_error (error_ c) || negb (is_error error) then Done (c, [])
  else handleError (c <| error_ := error |>).

Definition closeFromLoop (c : TContext) : outcome (TContext * list loopcall) := setError ContextClosedError c.

(** [join]: first the exchange of the flag, which tells whether to go on; then, once
    the task that it waits for has run, [joinImpl]; and the checks once the loops have
    ended. *)
Definition join_exchange (c : TContext) : TContext * bool := (c <| joined_ := true |>, negb (joined_ c)).
Definition join_checks (c : TContext) : outcome unit :=
  _ ← tp_check (bool_decide (listeners_ c = ∅)); tp_check (bool_decide (connections_ c = ∅)).

(** ** The world of a context *)

(** Where the thread that joins is: at the first function it calls, waiting for the
    task that it deferred, for the loops to end, or done. *)
Inductive joining := NotJoining | AwaitingClose | AwaitingLoops | Joined.

Record tworld := mkTWorld { tw_context : TContext; tw_trace : list loopcall; tw_joining : joining }.

Inductive tevent :=
| TvListen (id : Z) (listener : OL)
| TvConnect (id : Z) (connection : OC)
| TvInitListener (id : Z)
| TvInitConnection (id : Z)
| TvListenerTask (id : Z) (listener : OL) (calls : list bool)
| TvConnectionTask (id : Z) (connection : OC) (calls : list bool)
| TvAccept (id : Z) (connection : OC)
| TvClose
| TvJoin
| TvJoinImpl
| TvLoopsEnded.

Definition tw_with (w : tworld) (m : outcome (TContext * list loopcall)) (j : joining) : outcome tworld :=
  '(c, calls) ← m; Done (mkTWorld c (tw_trace w ++ calls) j).
Definition tw_quietly (w : tworld) (m : outcome TContext) : outcome tworld := tw_with w (c ← m; Done (c, [])) (tw_joining w).

Definition tstep (w : tworld) (ev : tevent) : outcome tworld :=
  let c := tw_context w in
  match ev with
  | TvListen id o => tw_quietly w (Done (listen id o c))
  | TvConnect id o => tw_quietly w (Done (connect id o c))
  | TvInitListener id => tw_quietly w (listener_task id (en_init (closed c)) c)
  | TvInitConnection id => tw_quietly w (connection_task id (en_init (closed c)) c)
  | TvListenerTask id o bs => tw_quietly w (listener_task id (fun _ => Done (o, bs)) c)
  | TvConnectionTask id o bs => tw_quietly w (connection_task id (fun _ => Done (o, bs)) c)
  | TvAccept id o => tw_quietly w (createAndInitConnection id o c)
  | TvClose => tw_with w (closeFromLoop c) (tw_joining w)
  | TvJoin =>
      let '(c, first) := join_exchange c in
      tw_with w (Done (c, [])) (if first : bool then AwaitingClose else tw_joining w)
  | TvJoinImpl => tw_with w (Done (c, joinImpl k)) AwaitingLoops
  | TvLoopsEnded => tw_with w (_ ← join_checks c; Done (c, [])) Joined
  end.

(** No object lingers: each that has an error has unenrolled itself. *)
Definition none_closing (c : TContext) : Prop :=
  (forall id o, listener_heap c !! id = Some o -> en_phase o <> Closing) /\
  (forall id o, connection_heap c !! id = Some o -> en_phase o <> Closing).

(** What may happen: a new object has a fresh address; an object is initialized once,
    and has tasks only after that; [joinImpl] is called when the context was closed.
    A loop only ends when nothing uses it any more: that of libuv when every handle is
    closed and its callback was called, so no object waits for that. *)
Definition tevent_ok (w : tworld) (ev : tevent) : Prop :=
  let c := tw_context w in
  match ev with
  | TvListen id o => listener_heap c !! id = None /\ en_ok o /\ en_phase o = New
  | TvConnect id o | TvAccept id o => connection_heap c !! id = None /\ en_ok o /\ en_phase o = New
  | TvInitListener id => exists o, listener_heap c !! id = Some o /\ en_phase o = New
  | TvInitConnection id => exists o, connection_heap c !! id = Some o /\ en_phase o = New
  | TvListenerTask id o' bs => exists o, listener_heap c !! id = Some o /\ en_phase o <> New /\ en_task o o' bs
  | TvConnectionTask id o' bs => exists o, connection_heap c !! id = Some o /\ en_phase o <> New /\ en_task o o' bs
  | TvClose | TvJoin => True
  | TvJoinImpl => tw_joining w = AwaitingClose /\ closed c = true
  | TvLoopsEnded => tw_joining w = AwaitingLoops /\ none_closing c
  end.

Inductive treach : tworld -> Prop :=
| treach_init c : initFromLoop newTContext = Done c -> treach (mkTWorld c [] NotJoining)
| treach_step w ev w' : treach w -> tevent_ok w ev -> tstep w ev = Done w' -> treach w'.

(** ** The invariant *)

Definition ended (j : joining) : bool := match j with Joined => true | _ => false end.
Definition joined_calls (j : joining) : list loopcall := match j with AwaitingLoops | Joined => joinImpl k | _ => [] end.

Record tinv (w : tworld) : Prop := {
  ti_listeners : table_ok (listeners_ (tw_context w), listener_heap (tw_context w));
  ti_connections : table_ok (connections_ (tw_context w), connection_heap (tw_context w));
  ti_lsettled : settled (closed (tw_context w)) (ended (tw_joining w)) (listener_heap (tw_context w));
  ti_csettled : settled (closed (tw_context w)) (ended (tw_joining w)) (connection_heap (tw_context w));
  ti_joining : joined_calls (tw_joining w) <> [] -> closed (tw_context w) = true;
  ti_joined : joined_ (tw_context w) = match tw_joining w with NotJoining => false | _ => true end;
  ti_trace : tw_trace w = (if closed (tw_context w) then handleErrorImpl k else []) ++ joined_calls (tw_joining w);
}.

Lemma joined_calls_closed w j : tinv w -> tw_joining w = j -> joined_calls j <> [] -> closed (tw_context w) = true.
Proof. intros Hi <-. apply (ti_joining _ Hi). Qed.

(** Steps that only change the table of the listeners, or that of the connections. *)
Lemma listeners_step w s h :
  tinv w -> table_ok (s, h) -> settled (closed (tw_context w)) (ended (tw_joining w)) h ->
  forall n, tinv (mkTWorld (tw_context w <| listenerCounter_ := n |> <| listeners_ := s |> <| listener_heap := h |>) (tw_trace w ++ []) (tw_joining w)).
Proof. intros [] Ht Hs n. rewrite app_nil_r. by split. Qed.
Lemma connections_step w s h :
  tinv w -> table_ok (s, h) -> settled (closed (tw_context w)) (ended (tw_joining w)) h ->
  forall n, tinv (mkTWorld (tw_context w <| connectionCounter_ := n |> <| connections_ := s |> <| connection_heap := h |>) (tw_trace w ++ []) (tw_joining w)).
Proof. intros [] Ht Hs n. rewrite app_nil_r. by split. Qed.

Lemma tcontext_eta_l (c : TContext) s h :
  c <| listeners_ := s |> <| listener_heap := h |> = c <| listenerCounter_ := listenerCounter_ c |> <| listeners_ := s |> <| listener_heap := h |>.
Proof. done. Qed.
Lemma tcontext_eta_c (c : TContext) s h :
  c <| connections_ := s |> <| connection_heap := h |> = c <| connectionCounter_ := connectionCounter_ c |> <| connections_ := s |> <| connection_heap := h |>.
Proof. done. Qed.

Lemma tclose_ok w : tinv w -> exists w', tstep w TvClose = Done w' /\ tinv w'.
Proof.
  intros Hi. pose proof Hi as [T1 T2 T3 T4 T5 T6 T7]. cbn [tstep]. unfold closeFromLoop, setError. fold (closed (tw_context w)).
  destruct (closed (tw_context w)) eqn:Hc.
  { cbn. eexists. split; [reflexivity|]. rewrite app_nil_r. by destruct w. }
  cbn [orb negb is_error]. unfold handleError. destruct w as [c tr j]. cbn [tw_context tw_trace tw_joining] in *.
  assert (joined_calls j = []) as Hj. { destruct (joined_calls j) eqn:Hj; [done|]. discriminate T5. done. }
  assert (ended j = false) as He. { destruct (ended j) eqn:He; [|done]. by destruct (proj2 T3 eq_refl). }
  change (listeners_ (c <| error_ := ContextClosedError |>)) with (listeners_ c).
  change (listener_heap (c <| error_ := ContextClosedError |>)) with (listener_heap c).
  destruct (close_settled _ T1) as (ls & lh & Hl & Tl & Sl). destruct (close_settled _ T2) as (cs & ch & Hcn & Tc & Sc).
  cbn [fst] in Hl, Hcn. rewrite Hl, bind_done. cbv beta iota zeta.
  match goal with |- context [close_all ?a ?b] => change (close_all a b) with (close_all (elements (connections_ c)) (connections_ c, connection_heap c)) end.
  rewrite Hcn, bind_done. eexists. split; [reflexivity|]. rewrite Hj in *. rewrite T7. cbn [app]. rewrite He in *.
  split; cbn [tw_context tw_trace tw_joining]; rewrite ?Hj, ?He, ?app_nil_r; try done.
Qed.

Lemma tjoin_ok w : tinv w -> exists w', tstep w TvJoin = Done w' /\ tinv w'.
Proof.
  intros Hi. pose proof Hi as [T1 T2 T3 T4 T5 T6 T7]. destruct w as [c tr j]. cbn [tw_context tw_trace tw_joining] in *.
  eexists. split; [reflexivity|]. cbn [tw_context tw_trace tw_joining]. rewrite app_nil_r, T6.
  destruct j; split; cbn; try done; by rewrite ?app_nil_r in *.
Qed.

Lemma tended_ok w : tinv w -> tevent_ok w TvLoopsEnded -> exists w', tstep w TvLoopsEnded = Done w' /\ tinv w'.
Proof.
  intros Hi [Hj [N1 N2]]. pose proof Hi as [T1 T2 T3 T4 T5 T6 T7]. destruct w as [c tr j]. cbn [tw_context tw_trace tw_joining] in *. subst j.
  assert (closed c = true) as Hc by (apply T5; unfold joined_calls; by destruct k). rewrite Hc in *.
  destruct (ended_settled _ T1 T3 N1) as [S1 E1]. destruct (ended_settled _ T2 T4 N2) as [S2 E2]. cbn [fst snd] in *.
  cbn [tstep tw_context]. unfold join_checks. rewrite E1, E2. eexists. split; [reflexivity|]. split; cbn [tw_context tw_trace tw_joining]; rewrite ?Hc; try done.
  by rewrite app_nil_r.
Qed.

Lemma tstep_ok w ev : tinv w -> tevent_ok w ev -> exists w', tstep w ev = Done w' /\ tinv w'.
Proof.
  intros Hi Hok. pose proof Hi as [T1 T2 T3 T4 T5 T6 T7].
  destruct ev as [id o|id o|id|id|id o' bs|id o' bs|id o| | | |]; cbn [tevent_ok] in Hok.
  - destruct Hok as (Hn & Ho & Hp). destruct (new_settled _ _ _ _ _ T1 T3 Hn Ho Hp) as [Ht Hs].
    eexists. split; [reflexivity|]. exact (listeners_step w _ _ Hi Ht Hs _).
  - destruct Hok as (Hn & Ho & Hp). destruct (new_settled _ _ _ _ _ T2 T4 Hn Ho Hp) as [Ht Hs].
    eexists. split; [reflexivity|]. exact (connections_step w _ _ Hi Ht Hs _).
  - destruct Hok as (o & Ho & Hp). destruct (init_settled _ _ _ _ _ T1 T3 Ho Hp) as (s & h & Hrun & Ht & Hs).
    cbn [tstep]. unfold listener_task. rewrite Hrun. eexists. split; [reflexivity|]. exact (listeners_step w _ _ Hi Ht Hs _).
  - destruct Hok as (o & Ho & Hp). destruct (init_settled _ _ _ _ _ T2 T4 Ho Hp) as (s & h & Hrun & Ht & Hs).
    cbn [tstep]. unfold connection_task. rewrite Hrun. eexists. split; [reflexivity|]. exact (connections_step w _ _ Hi Ht Hs _).
  - destruct Hok as (o & Ho & Hp & Htask). destruct (task_settled _ _ _ _ _ _ _ T1 T3 Ho Hp Htask) as (s & h & Hrun & Ht & Hs).
    cbn [tstep]. unfold listener_task. rewrite Hrun. eexists. split; [reflexivity|]. exact (listeners_step w _ _ Hi Ht Hs _).
  - destruct Hok as (o & Ho & Hp & Htask). destruct (task_settled _ _ _ _ _ _ _ T2 T4 Ho Hp Htask) as (s & h & Hrun & Ht & Hs).
    cbn [tstep]. unfold connection_task. rewrite Hrun. eexists. split; [reflexivity|]. exact (connections_step w _ _ Hi Ht Hs _).
  - destruct Hok as (Hn & Ho & Hp). destruct (new_settled _ _ _ _ _ T2 T4 Hn Ho Hp) as [Ht Hs].
    destruct (init_settled _ _ (connections_ (tw_context w), <[id := o]> (connection_heap (tw_context w))) id o Ht Hs) as (s & h & Hrun & Ht' & Hs');
      [apply lookup_insert_eq | done |].
    cbn [tstep]. unfold createAndInitConnection, connection_task. cbn -[on_object closed]. rewrite Hrun. eexists. split; [reflexivity|].
    exact (connections_step w _ _ Hi Ht' Hs' _).
  - by apply tclose_ok.
  - by apply tjoin_ok.
  - destruct Hok as [Hj Hc]. eexists. split; [reflexivity|]. destruct w as [c tr j]. cbn [tw_context tw_trace tw_joining] in *. subst j.
    split; cbn [tw_context tw_trace tw_joining]; try done. rewrite T7. by rewrite app_nil_r.
  - by apply tended_ok.
Qed.

Lemma treach_inv w : treach w -> tinv w.
Proof.
  induction 1 as [c Hc|w ev w' _ IH Hok Hs].
  - unfold initFromLoop in Hc. cbn in Hc. injection Hc as <-. split; try done; apply table_ok_empty.
  - destruct (tstep_ok _ _ IH Hok) as (w1 & Hs1 & Hi). by rewrite Hs in Hs1; injection Hs1 as <-.
Qed.
End context.

(** ** The theorem *)


(** ** A run *)

(** The context of libuv with a listener, and a connection that it accepts; it is
    closed and joined, and waits for libuv to close the handle of the listener. *)
Definition demo_uv_env : uv_env := mkUvEnv 0 0 0 0 0.
#[local] Instance demo_listener : Enrollee (Listening UvListener) := listening_enrollee demo_uv_env.
#[local] Instance demo_listener_laws : EnrolleeLaws (Listening UvListener).
Proof. apply listening_laws. by vm_compute. Qed.

Definition demo_at (e : Error) (closeCallback : bool) (h : HandleState) : Listening UvListener :=
  mkListening (mkUvListener e closeCallback closeCallback h newRearmable) false.

Definition demo_end : tworld (OL:=Listening UvListener) (OC:=Phase) :=
  mkTWorld (mkTContext ContextClosedError true 1 0 ∅ ∅ {[100 := demo_at ListenerClosedError true HandleClosed]} {[200 := Gone]})
    [CloseUvLoop; JoinUvLoop] Joined.

Lemma demo_end_reach : treach UvLoop demo_end.
Proof.
  eapply (treach_step _ (mkTWorld (mkTContext ContextClosedError true 1 0 ∅ ∅ {[100 := demo_at ListenerClosedError true HandleClosed]} {[200 := Gone]})
    [CloseUvLoop; JoinUvLoop] AwaitingLoops) TvLoopsEnded);
    [|split; [done|]; split; intros id o; cbn; intros [_ <-]%lookup_singleton_Some; by vm_compute | by vm_compute].
  eapply (treach_step _ (mkTWorld (mkTContext ContextClosedError true 1 0 {[100]} ∅ {[100 := demo_at ListenerClosedError true HandleClosing]} {[200 := Gone]})
    [CloseUvLoop; JoinUvLoop] AwaitingLoops) (TvListenerTask 100 (demo_at ListenerClosedError true HandleClosed) [false])); [| |by vm_compute].
  2: { exists (demo_at ListenerClosedError true HandleClosing). split_and!; [done | by vm_compute|]. exists (LaEvent UvClosed).
       split_and!; [done | by intros ev [= <-] | by vm_compute]. }
  eapply (treach_step _ (mkTWorld (mkTContext ContextClosedError true 1 0 {[100]} ∅ {[100 := demo_at ListenerClosedError true HandleClosing]} {[200 := Gone]})
    [CloseUvLoop] AwaitingClose) TvJoinImpl); [| done |by vm_compute].
  eapply (treach_step _ (mkTWorld (mkTContext ContextClosedError false 1 0 {[100]} ∅ {[100 := demo_at ListenerClosedError true HandleClosing]} {[200 := Gone]})
    [CloseUvLoop] NotJoining) TvJoin); [| done |by vm_compute].
  eapply (treach_step _ (mkTWorld (mkTContext kSuccess false 1 0 {[100]} {[200]} {[100 := demo_at kSuccess true HandleOpen]} {[200 := Live]})
    [] NotJoining) TvClose); [| done |by vm_compute].
  eapply (treach_step _ (mkTWorld (mkTContext kSuccess false 1 0 {[100]} ∅ {[100 := demo_at kSuccess true HandleOpen]} ∅)
    [] NotJoining) (TvAccept 200 New)); [| done |by vm_compute].
  eapply (treach_step _ (mkTWorld (mkTContext kSuccess false 1 0 ∅ ∅ {[100 := demo_at kSuccess false HandleOpen]} ∅)
    [] NotJoining) (TvInitListener 100)); [| eexists; split; done |by vm_compute].
  eapply (treach_step _ (mkTWorld newTContext [] NotJoining) (TvListen 100 (demo_at kSuccess false HandleOpen))); [| |by vm_compute].
  2: { split_and!; [done | | done]. exists newMatching. exact (proj1 law_new). }
  by apply treach_init.
Qed.

