(* ===== verification/Allocator.v ===== *)
(** * The chunk allocator

    Models [common/allocator.cc]: a memory area cut into equal chunks, handed
    out to callbacks in the order in which they asked, and taken back when the
    last reference to a chunk goes away.

    A callback is identified by the number of its request.  [processAllocations]
    calls a callback before it takes it off the queue; this is harmless as long
    as callbacks do not re-enter the allocator, which is how it is modelled here
    (the channels' callbacks only defer work to their loop). *)

From S2P Require Import Prelude.

Record Allocator := mkAllocator {
  al_numChunks_ : nat;
  al_chunkSize_ : Z;
  al_data_ : Z;
  al_chunkAvailable_ : list bool;
  al_allocatedChunks_ : Z;
  al_pendingAllocations_ : list nat;
  al_closed_ : bool;
}.
#[export] Instance eta_Allocator : Eta Allocator := fun a =>
  mkAllocator (al_numChunks_ a) (al_chunkSize_ a) (al_data_ a) (al_chunkAvailable_ a)
    (al_allocatedChunks_ a) (al_pendingAllocations_ a) (al_closed_ a).

(** A call of an allocation callback: its error and its chunk, if any. *)
Record alloc_call := mkAllocCall { ac_fn : nat; ac_error : Error; ac_chunk : option Z }.

Definition newAllocator (data : Z) (numChunks : nat) (chunkSize : Z) : Allocator :=
  mkAllocator numChunks chunkSize data (replicate numChunks true) 0 [] false.

(** The [for] loop over the chunks. *)
Fixpoint find_available (cur : nat) (avail : list bool) : option nat :=
  match avail with
  | [] => None
  | true :: _ => Some cur
  | false :: rest => find_available (S cur) rest
  end.

Definition getAvailableChunk (a : Allocator) : option Z * Allocator :=
  match find_available 0 (al_chunkAvailable_ a) with
  | Some cur =>
      (Some (al_data_ a + Z.of_nat cur * al_chunkSize_ a),
       a <| al_chunkAvailable_ ::= fun l => <[cur := false]> l |>
         <| al_allocatedChunks_ := u64 (al_allocatedChunks_ a + 1) |>)
  | None => (None, a)
  end.

(** One round of the [while] loop per pending allocation. *)
Fixpoint process_loop (pending : list nat) (a : Allocator) : Allocator * list alloc_call :=
  match pending with
  | [] => (a <| al_pendingAllocations_ := [] |>, [])
  | cb :: rest =>
      if al_closed_ a then
        let '(a, calls) := process_loop rest a in
        (a, mkAllocCall cb AllocatorClosedError None :: calls)
      else
        match getAvailableChunk a with
        | (None, a) => (a <| al_pendingAllocations_ := pending |>, [])
        | (Some ptr, a) =>
            let '(a, calls) := process_loop rest a in
            (a, mkAllocCall cb kSuccess (Some ptr) :: calls)
        end
  end.

Definition processAllocations (a : Allocator) : Allocator * list alloc_call :=
  process_loop (al_pendingAllocations_ a) a.

Definition alloc (size : Z) (callback : nat) (a : Allocator) : outcome (Allocator * list alloc_call) :=
  _ ← tp_check (size <=? al_chunkSize_ a);
  Done (processAllocations (a <| al_pendingAllocations_ ::= fun l => l ++ [callback] |>)).

Definition getChunkLength (a : Allocator) : Z := al_chunkSize_ a.

Definition close (a : Allocator) : Allocator * list alloc_call :=
  if al_closed_ a then (a, []) else processAllocations (a <| al_closed_ := true |>).

Definition releaseChunk (ptr : Z) (a : Allocator) : Allocator * list alloc_call :=
  let chunkId := Z.to_nat ((ptr - al_data_ a) / al_chunkSize_ a) in
  processAllocations
    (a <| al_chunkAvailable_ ::= fun l => <[chunkId := true]> l |>
       <| al_allocatedChunks_ := u64 (al_allocatedChunks_ a - 1) |>).

(** ** The allocator and the holders of its chunks *)

Record aworld := mkAWorld {
  aw_alloc : Allocator;
  aw_held : list Z;            (* chunks somebody still refers to *)
  aw_requests : nat;           (* calls of [alloc] so far *)
  aw_calls : list alloc_call;
}.

Definition chunks_of (calls : list alloc_call) : list Z := omap ac_chunk calls.

Definition aw_after (w : aworld) (held : list Z) (r : Allocator * list alloc_call) : aworld :=
  mkAWorld r.1 (held ++ chunks_of r.2) (aw_requests w) (aw_calls w ++ r.2).

Inductive astep : aworld -> aworld -> Prop :=
| as_alloc size w r :
    alloc size (aw_requests w) (aw_alloc w) = Done r ->
    astep w (let w' := aw_after w (aw_held w) r in
             mkAWorld (aw_alloc w') (aw_held w') (S (aw_requests w')) (aw_calls w'))
| as_close w :
    astep w (aw_after w (aw_held w) (close (aw_alloc w)))
| as_release w k ptr :
    aw_held w !! k = Some ptr ->
    astep w (aw_after w (delete k (aw_held w)) (releaseChunk ptr (aw_alloc w))).

Inductive areachable (data : Z) (numChunks : nat) (chunkSize : Z) : aworld -> Prop :=
| ar_init : areachable data numChunks chunkSize
              (mkAWorld (newAllocator data numChunks chunkSize) [] 0 [])
| ar_step w w' : areachable data numChunks chunkSize w -> astep w w' ->
    areachable data numChunks chunkSize w'.

(** The same steps as commands. *)
Inductive acmd := AAlloc (size : Z) | AClose | ARelease (k : nat).

Definition aexec (c : acmd) (w : aworld) : option aworld :=
  match c with
  | AAlloc size =>
      match alloc size (aw_requests w) (aw_alloc w) with
      | Done r => let w' := aw_after w (aw_held w) r in
                  Some (mkAWorld (aw_alloc w') (aw_held w') (S (aw_requests w')) (aw_calls w'))
      | Throw _ => None
      end
  | AClose => Some (aw_after w (aw_held w) (close (aw_alloc w)))
  | ARelease k =>
      match aw_held w !! k with
      | Some ptr => Some (aw_after w (delete k (aw_held w)) (releaseChunk ptr (aw_alloc w)))
      | None => None
      end
  end.

Fixpoint arun (l : list acmd) (w : aworld) : option aworld :=
  match l with
  | [] => Some w
  | c :: l => match aexec c w with Some w => arun l w | None => None end
  end.

Lemma arun_reachable data numChunks chunkSize l w w' :
  areachable data numChunks chunkSize w -> arun l w = Some w' -> areachable data numChunks chunkSize w'.
Proof.
  revert w. induction l as [|c l IH]; intros w Hr He; simpl in He; [by injection He as <-|].
  destruct (aexec c w) as [w1|] eqn:H1; [|done]. apply (IH w1); [|done]. eapply ar_step; [done|].
  destruct c; simpl in H1.
  - destruct (alloc _ _ _) as [r|] eqn:Ha; [|done]. injection H1 as <-. by eapply as_alloc.
  - injection H1 as <-. apply as_close.
  - destruct (aw_held w !! k) as [ptr|] eqn:Hk; [|done]. injection H1 as <-. by eapply as_release.
Qed.

(** ** The invariant *)

(** The chunks marked as taken are those that are held, each by one holder. *)
Definition chunk_at (a : Allocator) (k : nat) : Z := al_data_ a + Z.of_nat k * al_chunkSize_ a.

Record chunks_ok (a : Allocator) (ids : list nat) : Prop := {
  ck_len : length (al_chunkAvailable_ a) = al_numChunks_ a;
  ck_size : 0 < al_chunkSize_ a;
  ck_u64 : Z.of_nat (al_numChunks_ a) < 2 ^ 64;
  ck_dup : NoDup ids;
  ck_taken : forall k, k ∈ ids <-> al_chunkAvailable_ a !! k = Some false;
  ck_count : al_allocatedChunks_ a = Z.of_nat (length ids);
}.

Lemma find_available_spec cur l :
  match find_available cur l with
  | Some k => (cur <= k)%nat /\ l !! (k - cur)%nat = Some true
  | None => forall j b, l !! j = Some b -> b = false
  end.
Proof.
  revert cur. induction l as [|[] l IH]; intros cur; simpl; [done| |].
  - split; [lia|]. by rewrite Nat.sub_diag.
  - specialize (IH (S cur)). destruct (find_available (S cur) l) as [k|].
    + destruct IH as [Hle Hk]. split; [lia|].
      replace (k - cur)%nat with (S (k - S cur)) by lia. done.
    + intros [|j] b Hj; [by simplify_eq/= | by eapply IH].
Qed.

Lemma ids_bound a ids : chunks_ok a ids -> (length ids <= al_numChunks_ a)%nat.
Proof.
  intros [Hl _ _ Hd Ht _]. rewrite <- (length_seq (al_numChunks_ a) 0).
  apply submseteq_length, NoDup_submseteq; [done|]. intros k Hk. apply Ht, lookup_lt_Some in Hk.
  apply elem_of_seq. lia.
Qed.

Lemma getAvailableChunk_spec a ids :
  chunks_ok a ids ->
  match getAvailableChunk a with
  | (Some ptr, a') => exists k, ptr = chunk_at a k /\ (k ∉ ids) /\ (k < al_numChunks_ a)%nat /\
      chunks_ok a' (ids ++ [k]) /\ al_closed_ a' = al_closed_ a /\ al_numChunks_ a' = al_numChunks_ a /\
      al_data_ a' = al_data_ a /\ al_chunkSize_ a' = al_chunkSize_ a
  | (None, a') => a' = a /\ length ids = al_numChunks_ a
  end.
Proof.
  intros Hc. pose proof (ids_bound _ _ Hc) as Hb. pose proof Hc as [Hl Hs Hu Hd Ht Hn].
  unfold getAvailableChunk.
  pose proof (find_available_spec 0 (al_chunkAvailable_ a)) as Hf.
  destruct (find_available 0 (al_chunkAvailable_ a)) as [k|].
  - destruct Hf as [_ Hk]. rewrite Nat.sub_0_r in Hk. exists k.
    pose proof (lookup_lt_Some _ _ _ Hk) as Hlt. rewrite Hl in Hlt.
    assert (k ∉ ids) as Hnot by (rewrite Ht, Hk; by intros [=]).
    split_and!; try done. split; simpl; try done.
    + by rewrite length_insert.
    + apply NoDup_app. split; [done|]. split; [set_solver | apply NoDup_singleton].
    + intros j. rewrite elem_of_app, Ht, list_elem_of_singleton. destruct (decide (j = k)) as [->|Hj].
      * rewrite list_lookup_insert_eq by lia. split; [done | by right].
      * rewrite list_lookup_insert_ne by done. split; [by intros [?|?] | by left].
    + assert (length (ids ++ [k]) <= al_numChunks_ a)%nat as Hlen.
      { rewrite length_app. simpl. destruct (decide (length ids = al_numChunks_ a)) as [He|]; [|lia].
        exfalso. apply Hnot. 
        assert (ids ≡ₚ seq 0 (al_numChunks_ a)) as ->; [|apply elem_of_seq; lia].
        apply submseteq_length_Permutation; [|rewrite length_seq; lia].
        apply NoDup_submseteq; [done|]. intros j Hj. apply Ht, lookup_lt_Some in Hj.
        apply elem_of_seq. lia. }
      rewrite length_app in *. simpl in *. rewrite u64_small by (unfold is_u64; lia). lia.
  - split; [done|]. apply Nat.le_antisymm; [done|]. rewrite <- (length_seq (al_numChunks_ a) 0).
    apply submseteq_length, NoDup_submseteq; [apply NoDup_seq|]. intros j Hj.
    apply elem_of_seq in Hj. destruct (lookup_lt_is_Some_2 (al_chunkAvailable_ a) j) as [b Hb2]; [lia|].
    apply Ht. by rewrite Hb2, (Hf j b Hb2).
Qed.

(** What [processAllocations] does: it serves a prefix of the queue. *)
Definition served_call (a : Allocator) (cb : nat) (c : alloc_call) : Prop :=
  ac_fn c = cb /\
  (al_closed_ a = true /\ ac_error c = AllocatorClosedError /\ ac_chunk c = None \/
   al_closed_ a = false /\ ac_error c = kSuccess /\ is_Some (ac_chunk c)).

Lemma process_loop_spec pending : forall a ids,
  chunks_ok a ids ->
  exists n ids', let r := process_loop pending a in
    chunks_ok r.1 (ids ++ ids') /\ chunks_of r.2 = chunk_at a <$> ids' /\
    al_pendingAllocations_ r.1 = drop n pending /\
    Forall2 (served_call a) (take n pending) r.2 /\ (n <= length pending)%nat /\
    al_closed_ r.1 = al_closed_ a /\ al_numChunks_ r.1 = al_numChunks_ a /\
    al_data_ r.1 = al_data_ a /\ al_chunkSize_ r.1 = al_chunkSize_ a /\
    (al_closed_ a = true -> n = length pending) /\
    (n <> length pending -> length (ids ++ ids') = al_numChunks_ a).
Proof.
  induction pending as [|cb rest IH]; intros a ids Hc; cbn [process_loop].
  - exists 0%nat, []. rewrite app_nil_r. simpl. split_and!; try done. by destruct Hc.
  - destruct (al_closed_ a) eqn:Hcl.
    + destruct (IH a ids Hc) as (n & ids' & H1 & H2 & H3 & H4 & H5 & H6 & H7 & H8 & H9 & H10 & H11).
      destruct (process_loop rest a) as [a1 calls]. simpl in *. exists (S n), ids'. simpl.
      specialize (H10 Hcl). split_and!; try done; try congruence; [|lia..].
      constructor; [|done]. split; [done|]. by left.
    + pose proof (getAvailableChunk_spec a ids Hc) as Hg.
      destruct (getAvailableChunk a) as [[ptr|] a1].
      * destruct Hg as (k & -> & Hk & Hlt & Hc1 & Hcl1 & Hn1 & Hd1 & Hs1).
        destruct (IH a1 (ids ++ [k]) Hc1) as (n & ids' & H1 & H2 & H3 & H4 & H5 & H6 & H7 & H8 & H9 & H10 & H11).
        destruct (process_loop rest a1) as [a2 calls]. simpl in *. exists (S n), (k :: ids'). simpl.
        rewrite <- app_assoc in *. simpl in *. split_and!; try done; try congruence; try lia.
        -- rewrite H2. unfold chunk_at. by rewrite Hd1, Hs1.
        -- constructor; [split; [done|right; eauto]|].
           eapply Forall2_impl; [exact H4|]. intros x y [Hx Hy]. split; [done|]. by rewrite <- Hcl1.
      * destruct Hg as [-> Hfull]. exists 0%nat, []. rewrite app_nil_r. simpl.
        split_and!; try done; try lia. by destruct Hc.
Qed.

Record awinv (numChunks : nat) (w : aworld) : Prop := {
  av_chunks : exists ids, chunks_ok (aw_alloc w) ids /\
    Permutation (aw_held w) (chunk_at (aw_alloc w) <$> ids);
  av_num : al_numChunks_ (aw_alloc w) = numChunks;
  av_fifo : (ac_fn <$> aw_calls w) ++ al_pendingAllocations_ (aw_alloc w) = seq 0 (aw_requests w);
  av_full : al_pendingAllocations_ (aw_alloc w) <> [] ->
    al_closed_ (aw_alloc w) = false /\ length (aw_held w) = numChunks;
  av_calls : Forall (fun c => is_error (ac_error c) = negb (bool_decide (is_Some (ac_chunk c))))
    (aw_calls w);
}.

Lemma served_call_fns a l calls : Forall2 (served_call a) l calls -> ac_fn <$> calls = l.
Proof. induction 1 as [|cb c l calls [Hc _] _ IH]; [done|]. by rewrite fmap_cons, Hc, IH. Qed.

Lemma served_call_errors a l calls :
  Forall2 (served_call a) l calls ->
  Forall (fun c => is_error (ac_error c) = negb (bool_decide (is_Some (ac_chunk c)))) calls.
Proof.
  induction 1 as [|cb c l calls [_ Hc] _ IH]; constructor; [|done].
  destruct Hc as [(_ & -> & ->)|(_ & -> & Hs)]; [done|]. by rewrite bool_decide_eq_true_2.
Qed.

(** After any change that keeps the chunks of [held] consistent, processing
    re-establishes the invariant. *)
Lemma process_awinv numChunks w a held ids nreq :
  awinv numChunks w -> chunks_ok a ids -> Permutation held (chunk_at a <$> ids) -> al_numChunks_ a = numChunks ->
  (ac_fn <$> aw_calls w) ++ al_pendingAllocations_ a = seq 0 nreq ->
  let r := processAllocations a in
  awinv numChunks (mkAWorld r.1 (held ++ chunks_of r.2) nreq (aw_calls w ++ r.2)).
Proof.
  intros Hw Hc Hheld Hnum Hfifo. unfold processAllocations.
  destruct (process_loop_spec (al_pendingAllocations_ a) a ids Hc)
    as (n & ids' & H1 & H2 & H3 & H4 & H5 & H6 & H7 & H8 & H9 & H10 & H11).
  destruct (process_loop _ a) as [a1 calls]. simpl in *.
  assert (chunk_at a1 <$> ids ++ ids' = (chunk_at a <$> ids) ++ (chunk_at a <$> ids')) as Hat.
  { rewrite fmap_app. unfold chunk_at. by rewrite H8, H9. }
  split; simpl.
  - exists (ids ++ ids'). split; [done|]. rewrite Hat, H2. by apply Permutation_app.
  - by rewrite H7.
  - rewrite fmap_app, (served_call_fns _ _ _ H4), H3, <- app_assoc, take_drop. done.
  - rewrite H3. intros Hne. assert (n <> length (al_pendingAllocations_ a)) as Hn.
    { intros ->. by rewrite drop_all in Hne. }
    rewrite H6. split.
    + destruct (al_closed_ a); [by specialize (H10 eq_refl) | done].
    + rewrite H2, length_app, (Permutation_length Hheld), !length_fmap, <- length_app.
      rewrite <- Hnum. by apply H11.
  - apply Forall_app. split; [apply Hw|]. by eapply served_call_errors.
Qed.

Lemma astep_awinv numChunks w w' : awinv numChunks w -> astep w w' -> awinv numChunks w'.
Proof.
  intros Hw. destruct (av_chunks _ _ Hw) as (ids & Hc & Hheld). pose proof (av_num _ _ Hw) as Hnum.
  pose proof (av_fifo _ _ Hw) as Hfifo. intros Hs.
  destruct Hs as [size w r Ha|w|w k ptr Hk].
  - unfold alloc in Ha. inv_bind Ha. apply done_inj in Ha as <-.
    apply (process_awinv numChunks w _ (aw_held w) ids (S (aw_requests w)));
      [done | destruct Hc; by split | done | done|].
    rewrite seq_S, <- Hfifo, <- app_assoc. done.
  - unfold close. destruct (al_closed_ (aw_alloc w)) eqn:Hcl.
    + unfold aw_after. simpl. rewrite !app_nil_r. by destruct w.
    + apply (process_awinv numChunks w _ _ ids); [done | destruct Hc; by split | done | done | done].
  - assert (exists k2 ids2, ids ≡ₚ k2 :: ids2 /\ ptr = chunk_at (aw_alloc w) k2 /\
      Permutation (delete k (aw_held w)) (chunk_at (aw_alloc w) <$> ids2)) as (k2 & ids2 & Hp & Hptr & Hp2).
    { assert (ptr ∈ chunk_at (aw_alloc w) <$> ids) as Hin
        by (rewrite <- Hheld; by eapply list_elem_of_lookup_2).
      apply list_elem_of_fmap in Hin as (k2 & Hptr & Hk2).
      apply elem_of_Permutation in Hk2 as [ids2 Hids2]. exists k2, ids2. split_and!; [done..|].
      apply (Permutation_cons_inv (a := ptr)). rewrite Hptr at 2. rewrite <- fmap_cons, <- Hids2, <- Hheld.
      symmetry. by apply delete_Permutation. }
    pose proof Hc as [Hl Hsz Hu Hd Ht Hn].
    assert (k2 ∈ ids) as Hk2 by (rewrite Hp; set_solver).
    pose proof (proj1 (Ht k2) Hk2) as Hav. pose proof (lookup_lt_Some _ _ _ Hav) as Hlt.
    rewrite Hp in Hd. apply NoDup_cons in Hd as [Hnot Hd].
    unfold releaseChunk, aw_after.
    assert (Z.to_nat ((ptr - al_data_ (aw_alloc w)) / al_chunkSize_ (aw_alloc w)) = k2) as Hid.
    { rewrite Hptr. unfold chunk_at. rewrite Z.add_simpl_l, Z.div_mul by lia. lia. }
    rewrite Hid. apply (process_awinv numChunks w _ _ ids2); [done| |done|done|done].
    split; simpl; try done.
    + by rewrite length_insert.
    + intros j. destruct (decide (j = k2)) as [->|Hj].
      * rewrite list_lookup_insert_eq by done. split; [done | by intros [=]].
      * rewrite list_lookup_insert_ne, <- Ht, Hp by done. set_solver.
    + rewrite Hn, Hp. simpl. pose proof (ids_bound _ _ Hc) as Hb. rewrite Hp in Hb. simpl in Hb.
      rewrite u64_small by (unfold is_u64; lia). lia.
Qed.

Lemma areachable_awinv data numChunks chunkSize w :
  0 < chunkSize -> Z.of_nat numChunks < 2 ^ 64 -> areachable data numChunks chunkSize w ->
  awinv numChunks w.
Proof.
  intros Hs Hn. induction 1 as [|w w' _ IH Hstep]; [|by eapply astep_awinv].
  split; simpl; try done. exists []. split; [|reflexivity]. split; simpl; try done.
  - apply length_replicate.
  - constructor.
  - intros k. rewrite lookup_replicate. split; [set_solver | by intros [? _]].
Qed.


