(* ===== verification/OpsStateMachine.v ===== *)
(** * State machines for queues of operations

    Models [common/state_machine.h].  A subject (a pipe or a channel) owns a
    queue of operations, each with a sequence number and a state; a
    transitioner, given as the table of its [attemptTransition] calls, moves one
    operation forward as far as it can.

    An [Iter] is a pointer into the queue.  It is identified with the sequence
    number of the operation, and is dangling once that operation was removed. *)

From S2P Require Import Prelude.

Class Operation (Op : Type) := {
  op_seq : Op -> Z;
  op_state : Op -> nat;
  op_put_state : nat -> Op -> Op;
  FINISHED : nat;
}.

Class OpsMachine (Subj Op : Type) := {
  get_ops : Subj -> list Op;
  put_ops : list Op -> Subj -> Subj;
}.

Class OpsMachineLaws (Subj Op : Type) `{Operation Op, OpsMachine Subj Op} := {
  get_put_ops : forall l (s : Subj), get_ops (put_ops l s) = l;
  put_put_ops : forall l l' (s : Subj), put_ops l (put_ops l' s) = put_ops l s;
  put_get_ops : forall s : Subj, put_ops (get_ops s) s = s;
  seq_put_state : forall n o, op_seq (op_put_state n o) = op_seq o;
  state_put_state : forall n o, op_state (op_put_state n o) = n;
}.

Section Machine.
Context {Subj Op Ev : Type} `{!Operation Op} `{!OpsMachine Subj Op}.

(** Dereferencing an [Iter], and writing through it. *)
Definition deref (it : Z) (s : Subj) : outcome Op :=
  match filter (fun o => op_seq o = it) (get_ops s) with
  | o :: _ => Done o
  | [] => Throw ExDangling
  end.

Definition update_op (it : Z) (f : Op -> Op) (s : Subj) : outcome Subj :=
  _ ← deref it s;
  Done (put_ops ((fun o => if op_seq o =? it then f o else o) <$> get_ops s) s).

Definition findOperation (sequenceNumber : Z) (l : list Op) : outcome (option Op) :=
  match l with
  | [] => Done None
  | front :: _ =>
      let offset := s64 (u64 (sequenceNumber - op_seq front)) in
      if (offset <? 0) || (Z.of_nat (length l) <=? offset) then Done None
      else
        match l !! Z.to_nat offset with
        | Some op => _ ← tp_check (op_seq op =? u64 sequenceNumber); Done (Some op)
        | None => Throw ExDangling
        end
  end.

(** An action on an operation, which may also call out of the subject. *)
Definition op_action : Type := Z -> Subj -> outcome (Subj * list Ev).

Record transition := mkTransition {
  t_from : nat;
  t_to : nat;
  t_cond : Op -> nat -> bool;        (* of the operation and the previous one's state *)
  t_actions : list op_action;
}.

Fixpoint run_actions (it : Z) (l : list op_action) (s : Subj) : outcome (Subj * list Ev) :=
  match l with
  | [] => Done (s, [])
  | a :: l =>
      r ← a it s;
      r' ← run_actions it l r.1;
      Done (r'.1, r.2 ++ r'.2)
  end.

Definition attemptTransition (t : transition) (it : Z) (prevOpState : nat) (s : Subj)
    : outcome (Subj * list Ev) :=
  op ← deref it s;
  if (op_state op =? t_from t)%nat && t_cond t op prevOpState then
    r ← run_actions it (t_actions t) s;
    s' ← update_op it (op_put_state (t_to t)) r.1;
    Done (s', r.2)
  else Done (s, []).

Fixpoint transitioner (tbl : list transition) (it : Z) (prevOpState : nat) (s : Subj)
    : outcome (Subj * list Ev) :=
  match tbl with
  | [] => Done (s, [])
  | t :: tbl =>
      r ← attemptTransition t it prevOpState s;
      r' ← transitioner tbl it prevOpState r.1;
      Done (r'.1, r.2 ++ r'.2)
  end.

(** The [while] loop that removes finished operations from the front. *)
Fixpoint pop_finished (l : list Op) : list Op :=
  match l with
  | o :: l' => if (op_state o =? FINISHED)%nat then pop_finished l' else l
  | [] => []
  end.

Definition advanceOneOperation (tbl : list transition) (it : Z) (s : Subj)
    : outcome (bool * Subj * list Ev) :=
  op ← deref it s;
  let initialState := op_state op in
  prevOp ← findOperation (s64 (u64 (op_seq op - 1))) (get_ops s);
  let prevOpState := match prevOp with Some p => op_state p | None => FINISHED end in
  r ← transitioner tbl it prevOpState s;
  op ← deref it r.1;
  let hasAdvanced := negb (op_state op =? initialState)%nat in
  let s := if (op_state op =? FINISHED)%nat
           then put_ops (pop_finished (get_ops r.1)) r.1 else r.1 in
  Done (hasAdvanced, s, r.2).

(** The loops visit increasing sequence numbers: one round per operation of
    the queue and a last one that finds none. *)
Fixpoint advance_loop (tbl : list transition) (fuel : nat) (sequenceNumber : Z) (s : Subj)
    : outcome (Subj * list Ev) :=
  match fuel with
  | O => Throw ExAssert
  | S fuel =>
      op ← findOperation sequenceNumber (get_ops s : list Op);
      match op with
      | None => Done (s, [])
      | Some op =>
          if (op_state op =? FINISHED)%nat then Done (s, [])
          else
            '(hasAdvanced, s, evs) ← advanceOneOperation tbl (op_seq op) s;
            if hasAdvanced : bool then
              r' ← advance_loop tbl fuel (sequenceNumber + 1) s;
              Done (r'.1, evs ++ r'.2)
            else Done (s, evs)
      end
  end.

Definition advanceOperation (tbl : list transition) (initialOpIter : Z) (s : Subj)
    : outcome (Subj * list Ev) :=
  op ← deref initialOpIter s;
  advance_loop tbl (S (length (get_ops s : list Op))) (s64 (op_seq op)) s.

Fixpoint advance_all_loop (tbl : list transition) (fuel : nat) (sequenceNumber : Z) (s : Subj)
    : outcome (Subj * list Ev) :=
  match fuel with
  | O => Throw ExAssert
  | S fuel =>
      op ← findOperation sequenceNumber (get_ops s : list Op);
      match op with
      | None => Done (s, [])
      | Some op =>
          '(_, s, evs) ← advanceOneOperation tbl (op_seq op) s;
          r' ← advance_all_loop tbl fuel (sequenceNumber + 1) s;
          Done (r'.1, evs ++ r'.2)
      end
  end.

Definition advanceAllOperations (tbl : list transition) (s : Subj) : outcome (Subj * list Ev) :=
  match (get_ops s : list Op) with
  | [] => Done (s, [])
  | front :: _ => advance_all_loop tbl (S (length (get_ops s : list Op))) (s64 (op_seq front)) s
  end.

Definition emplaceBack (op : Op) (s : Subj) : Subj := put_ops (get_ops s ++ [op]) s.
End Machine.

(** ** Positions and sequence numbers *)

Section Numbered.
Context {Subj Op : Type} `{Operation Op} `{OpsMachine Subj Op} `{!OpsMachineLaws Subj Op}.
Implicit Types (l : list Op) (o : Op) (s : Subj).

(** Writing nothing through an [Iter]. *)
Lemma update_op_same it s s' : update_op it (fun o => o) s = Done s' -> s' = s.
Proof.
  unfold update_op. intros Hu. inv_bind Hu. apply done_inj in Hu as <-.
  rewrite (list_fmap_ext _ id); [by rewrite list_fmap_id, put_get_ops|]. intros _ o _. by destruct (_ =? _).
Qed.

(** The operations of the queue have consecutive sequence numbers. *)
Definition numbered (first : Z) (l : list Op) : Prop :=
  0 <= first /\ first + Z.of_nat (length l) < 2 ^ 63 /\
  forall i o, l !! i = Some o -> op_seq o = first + Z.of_nat i.

Definition prev_state (i : nat) (l : list Op) : nat :=
  match i with
  | O => FINISHED
  | S j => match l !! j with Some p => op_state p | None => FINISHED end
  end.

Lemma numbered_tail first o l : numbered first (o :: l) -> numbered (first + 1) l.
Proof.
  intros (H1 & H2 & H3). simpl in H2. split_and!; [lia..|]. intros i p Hp.
  rewrite (H3 (S i) p Hp). lia.
Qed.

Lemma numbered_insert first i o o' l :
  numbered first l -> l !! i = Some o -> op_seq o' = op_seq o -> numbered first (<[i := o']> l).
Proof.
  intros (H1 & H2 & H3) Hi Ho. split_and!; [done | by rewrite length_insert|]. intros j p Hj.
  apply list_lookup_insert_Some in Hj as [(<- & <- & _)|[_ Hj]]; [|by apply H3].
  rewrite Ho. by apply H3.
Qed.

Lemma numbered_snoc first o l :
  numbered first l -> op_seq o = first + Z.of_nat (length l) ->
  first + Z.of_nat (length l) + 1 < 2 ^ 63 -> numbered first (l ++ [o]).
Proof.
  intros (H1 & H2 & H3) Ho Hb. split_and!; [done | rewrite length_app; simpl; lia|].
  intros j p Hj. apply lookup_app_Some in Hj as [Hj|[Hle Hj]]; [by apply H3|].
  apply list_lookup_singleton_Some in Hj as [Hj <-]. rewrite Ho. lia.
Qed.

Lemma filter_seq first l it :
  numbered first l ->
  filter (fun o => op_seq o = it) l =
    if decide (first <= it) then match l !! Z.to_nat (it - first) with Some o => [o] | None => [] end
    else [].
Proof.
  revert first. induction l as [|o l IH]; intros first Hn; [by destruct (decide _)|].
  pose proof Hn as (H1 & H2 & H3). pose proof (H3 0%nat o eq_refl) as Ho.
  rewrite filter_cons, (IH _ (numbered_tail _ _ _ Hn)).
  destruct (decide (op_seq o = it)) as [He|He].
  - rewrite decide_False, decide_True by lia.
    replace (Z.to_nat (it - first)) with 0%nat by lia. done.
  - destruct (decide (first <= it)) as [Hf|Hf]; [|by rewrite decide_False by lia].
    rewrite decide_True by lia. replace (Z.to_nat (it - first)) with (S (Z.to_nat (it - (first + 1)))) by lia.
    done.
Qed.

Lemma seq_index first l i o :
  numbered first l -> l !! i = Some o -> Z.to_nat (op_seq o - first) = i /\ first <= op_seq o < 2 ^ 63.
Proof.
  intros (H1 & H2 & H3) Hi. rewrite (H3 i o Hi). pose proof (lookup_lt_Some _ _ _ Hi). lia.
Qed.

Lemma deref_at first s i o :
  numbered first (get_ops s) -> get_ops s !! i = Some o -> deref (op_seq o) s = Done o.
Proof.
  intros Hn Hi. destruct (seq_index _ _ _ _ Hn Hi) as [Hx Hle].
  unfold deref. rewrite (filter_seq _ _ _ Hn), decide_True, Hx, Hi by lia. done.
Qed.

Lemma deref_inv first s it o :
  numbered first (get_ops s) -> deref it s = Done o ->
  exists i, get_ops s !! i = Some o /\ op_seq o = it.
Proof.
  intros Hn Hd. unfold deref in Hd. rewrite (filter_seq _ _ _ Hn) in Hd.
  destruct (decide _) as [Hle|]; [|done]. destruct (get_ops s !! _) as [p|] eqn:Hp; [|done].
  apply done_inj in Hd as <-. exists (Z.to_nat (it - first)). split; [done|].
  destruct Hn as (_ & _ & Hn). rewrite (Hn _ _ Hp). lia.
Qed.

Lemma update_at first s i o f :
  numbered first (get_ops s) -> get_ops s !! i = Some o ->
  update_op (op_seq o) f s = Done (put_ops (<[i := f o]> (get_ops s)) s).
Proof.
  intros Hn Hi. unfold update_op. rewrite (deref_at _ _ _ _ Hn Hi), bind_done. do 2 f_equal.
  apply list_eq. intros j. rewrite list_lookup_fmap.
  destruct (decide (j = i)) as [->|Hj].
  - rewrite Hi, list_lookup_insert_eq by (by eapply lookup_lt_Some). simpl. by rewrite Z.eqb_refl.
  - rewrite list_lookup_insert_ne by done. destruct (get_ops s !! j) as [p|] eqn:Hp; [|done]. simpl.
    destruct (seq_index _ _ _ _ Hn Hi) as [Hi' ?]. destruct (seq_index _ _ _ _ Hn Hp) as [Hj' ?].
    destruct (Z.eqb_spec (op_seq p) (op_seq o)); [|done]. exfalso. apply Hj. lia.
Qed.

Lemma findOperation_at first l sn :
  numbered first l -> -1 <= sn < 2 ^ 63 ->
  findOperation sn l = Done (if decide (first <= sn) then l !! Z.to_nat (sn - first) else None).
Proof.
  intros Hn Hs. pose proof Hn as (H1 & H2 & H3). destruct l as [|front l]; [by destruct (decide _)|].
  unfold findOperation. pose proof (H3 0%nat front eq_refl) as Hf.
  rewrite s64_u64 by lia.
  replace (op_seq front) with first by lia. destruct (decide (first <= sn)) as [Hle|Hle].
  - rewrite (proj2 (Z.ltb_ge (sn - first) 0)) by lia. cbn [orb].
    destruct (Z.leb_spec (Z.of_nat (length (front :: l))) (sn - first)) as [Hb|Hb].
    + by rewrite lookup_ge_None_2 by lia.
    + destruct (lookup_lt_is_Some_2 (front :: l) (Z.to_nat (sn - first))) as [o Ho]; [lia|].
      rewrite Ho, (H3 _ _ Ho). rewrite u64_small by (unfold is_u64; lia).
      rewrite (proj2 (Z.eqb_eq _ sn)) by lia. done.
  - by rewrite (proj2 (Z.ltb_lt (sn - first) 0)) by lia.
Qed.

Lemma find_prev first l i o :
  numbered first l -> l !! i = Some o ->
  exists p, findOperation (s64 (u64 (op_seq o - 1))) l = Done p /\
    match p with Some q => op_state q | None => FINISHED end = prev_state i l.
Proof.
  intros Hn Hi. pose proof Hn as (H1 & H2 & H3). destruct (seq_index _ _ _ _ Hn Hi) as [Hx ?].
  rewrite s64_u64 by lia. rewrite (findOperation_at _ _ _ Hn) by lia. eexists. split; [done|].
  destruct i as [|i]; simpl.
  - rewrite decide_False by (rewrite (H3 _ _ Hi); lia). done.
  - rewrite (H3 _ _ Hi), decide_True by lia.
    replace (Z.to_nat (first + Z.of_nat (S i) - 1 - first)) with i by lia. done.
Qed.

Lemma prev_state_insert i o l : prev_state i (<[i := o]> l) = prev_state i l.
Proof. destruct i as [|i]; [done|]. simpl. by rewrite list_lookup_insert_ne by lia. Qed.
End Numbered.

(** ** Advancing operations

    What holds for any subject whose transitions keep an invariant [Inv] of the
    calls made so far and of the subject.  [Q] are the exceptions an action may
    throw on purpose. *)

Section Advance.
Context {Subj Op Ev : Type} `{Operation Op} `{OpsMachine Subj Op} `{!OpsMachineLaws Subj Op}.
Implicit Types (l : list Op) (o : Op) (s : Subj) (tr evs : list Ev).
Implicit Types (t : @transition Subj Op Ev) (done rest : list (@transition Subj Op Ev)).

(** The tables of the code: states only grow, no row precedes one that leads
    to its source, and an operation finishes after the one before it. *)
Fixpoint table_ok (tbl : list (@transition Subj Op Ev)) : Prop :=
  match tbl with
  | [] => True
  | t :: rest =>
      (t_from t < t_to t <= FINISHED)%nat /\
      Forall (fun t' => t_from t <> t_to t') rest /\
      (t_to t = FINISHED -> forall o p, t_cond t o p = true -> (FINISHED <= p)%nat) /\
      table_ok rest
  end.

Definition op_stable (tbl : list (@transition Subj Op Ev)) (o : Op) (prev : nat) : Prop :=
  Forall (fun t => ((op_state o =? t_from t)%nat && t_cond t o prev) = false) tbl.

(** No operation numbered in [P] can advance. *)
Definition stable_on (tbl : list (@transition Subj Op Ev)) (P : Z -> Prop) (l : list Op) : Prop :=
  forall i o, l !! i = Some o -> P (op_seq o) -> op_stable tbl o (prev_state i l).

Definition no_finished (l : list Op) : Prop := Forall (fun o => (op_state o < FINISHED)%nat) l.

Variable tbl : list (@transition Subj Op Ev).
Variable Inv : list Ev -> Subj -> Prop.
Variable Q : exn -> Prop.

Record machine_ok : Prop := {
  mo_table : table_ok tbl;
  mo_numbered : forall tr s, Inv tr s -> exists first, numbered first (get_ops s);
  mo_row : forall t tr s i o, t ∈ tbl -> Inv tr s -> get_ops s !! i = Some o ->
    op_state o = t_from t -> t_cond t o (prev_state i (get_ops s)) = true ->
    wp (run_actions (op_seq o) (t_actions t) s) Q (fun r =>
      exists o1, get_ops r.1 = <[i := o1]> (get_ops s) /\ op_seq o1 = op_seq o /\
        Inv (tr ++ r.2) (put_ops (<[i := op_put_state (t_to t) o1]> (get_ops s)) r.1));
  mo_pop : forall tr s o l, Inv tr s -> get_ops s = o :: l -> op_state o = FINISHED ->
    Inv tr (put_ops l s);
}.

Context (Hok : machine_ok).

Lemma op_stable_to t done o p :
  Forall (fun t' => t_from t' <> t_to t) done -> op_state o = t_to t -> op_stable done o p.
Proof.
  intros Hd Ho. eapply Forall_impl; [exact Hd|]. intros t' Ht. simpl in Ht.
  rewrite Ho. destruct (Nat.eqb_spec (t_to t) (t_from t')); [congruence | done].
Qed.

Lemma table_before done t rest :
  table_ok (done ++ t :: rest) -> Forall (fun t' => t_from t' <> t_to t) (done ++ [t]).
Proof.
  induction done as [|t' done IH]; simpl.
  - intros (Hlt & _). constructor; [lia | done].
  - intros (_ & Hf & _ & Ht). constructor; [|by apply IH].
    rewrite Forall_app, Forall_cons in Hf. by destruct Hf as (_ & ? & _).
Qed.

Lemma table_row done t rest :
  table_ok (done ++ t :: rest) ->
  (t_from t < t_to t <= FINISHED)%nat /\
  (t_to t = FINISHED -> forall o p, t_cond t o p = true -> (FINISHED <= p)%nat).
Proof. induction done as [|t' done IH]; simpl; [tauto | intros (_ & _ & _ & Ht); by apply IH]. Qed.

(** What [transitioner] leaves behind. *)
Record moved (tr : list Ev) (s : Subj) (i : nat) (o : Op) (s' : Subj) (evs : list Ev) (o' : Op) : Prop := {
  mv_ops : get_ops s' = <[i := o']> (get_ops s);
  mv_seq : op_seq o' = op_seq o;
  mv_inv : Inv (tr ++ evs) s';
  mv_state : (op_state o <= op_state o')%nat;
  mv_same : op_state o' = op_state o -> s' = s /\ o' = o /\ evs = [];
  mv_bound : (op_state o <= FINISHED)%nat -> (op_state o' <= FINISHED)%nat;
  mv_finished : op_state o' = FINISHED -> op_state o = FINISHED \/ (FINISHED <= prev_state i (get_ops s))%nat;
}.

Lemma moved_refl tr s i o :
  Inv tr s -> get_ops s !! i = Some o -> moved tr s i o s [] o.
Proof.
  intros Hi Ho. split; try done; try (by left).
  - by rewrite list_insert_id.
  - by rewrite app_nil_r.
Qed.

Lemma moved_trans tr s i o s1 e1 o1 s2 e2 o2 :
  get_ops s !! i = Some o -> moved tr s i o s1 e1 o1 -> moved (tr ++ e1) s1 i o1 s2 e2 o2 -> moved tr s i o s2 (e1 ++ e2) o2.
Proof.
  intros Ho [A1 A2 A3 A4 A5 A7 A6] [B1 B2 B3 B4 B5 B7 B6]. split.
  - by rewrite B1, A1, list_insert_insert_eq.
  - by rewrite B2.
  - by rewrite app_assoc.
  - lia.
  - intros He. assert (op_state o1 = op_state o) as H1 by lia. destruct (A5 H1) as (-> & -> & ->).
    destruct (B5 He) as (-> & -> & ->). done.
  - tauto.
  - intros Hf. destruct (B6 Hf) as [H1|H1]; [by apply A6|].
    rewrite A1, prev_state_insert in H1. by right.
Qed.

Lemma attempt_ok t done rest tr s i o :
  tbl = done ++ t :: rest -> Inv tr s -> get_ops s !! i = Some o ->
  op_stable done o (prev_state i (get_ops s)) ->
  wp (attemptTransition t (op_seq o) (prev_state i (get_ops s)) s) Q (fun r =>
    exists o', moved tr s i o r.1 r.2 o' /\ op_stable (done ++ [t]) o' (prev_state i (get_ops s))).
Proof.
  intros Ht Hi Ho Hs. destruct (mo_numbered Hok _ _ Hi) as [first Hn].
  pose proof (mo_table Hok) as Htab. rewrite Ht in Htab.
  destruct (table_row _ _ _ Htab) as (Hlt & Hfin). pose proof (table_before _ _ _ Htab) as Hbef.
  unfold attemptTransition. rewrite (deref_at _ _ _ _ Hn Ho), bind_done.
  destruct ((op_state o =? t_from t)%nat && t_cond t o _) eqn:Hc.
  - apply andb_true_iff in Hc as [Hst Hc]. apply Nat.eqb_eq in Hst. apply wp_bind.
    eapply wp_mono; [apply (mo_row Hok t tr s i o); [rewrite Ht; set_solver | done..]|].
    intros [s1 evs] (o1 & Hops & Hseq & Hinv). simpl in *.
    assert (get_ops s1 !! i = Some o1) as Ho1
      by (rewrite Hops; apply list_lookup_insert_eq; by eapply lookup_lt_Some).
    rewrite <- Hseq. rewrite (update_at first _ i); [|rewrite Hops; by eapply numbered_insert | done].
    rewrite bind_done, Hops, list_insert_insert_eq. exists (op_put_state (t_to t) o1).
    split; [|apply (op_stable_to t); [done | by rewrite state_put_state]].
    split; simpl; rewrite ?state_put_state, ?seq_put_state, ?get_put_ops; try done; try lia.
    intros Hf. right. by eapply Hfin.
  - simpl. exists o. split; [by apply moved_refl|]. apply Forall_app. by repeat constructor.
Qed.

Lemma transitioner_ok rest : forall done tr s i o,
  tbl = done ++ rest -> Inv tr s -> get_ops s !! i = Some o ->
  op_stable done o (prev_state i (get_ops s)) ->
  wp (transitioner rest (op_seq o) (prev_state i (get_ops s)) s) Q (fun r =>
    exists o', moved tr s i o r.1 r.2 o' /\ op_stable tbl o' (prev_state i (get_ops s))).
Proof.
  induction rest as [|t rest IH]; intros done tr s i o Ht Hi Ho Hs; cbn [transitioner].
  - exists o. rewrite app_nil_r in Ht. rewrite Ht. split; [by apply moved_refl | done].
  - apply wp_bind. eapply wp_mono; [by apply (attempt_ok t done rest tr s i o)|].
    intros [s1 e1] (o1 & Hm1 & Hs1). cbn [fst snd] in *.
    pose proof (mv_ops _ _ _ _ _ _ _ Hm1) as Hops. rewrite <- (mv_seq _ _ _ _ _ _ _ Hm1).
    assert (prev_state i (get_ops s1) = prev_state i (get_ops s)) as Hp by (by rewrite Hops, prev_state_insert).
    apply wp_bind. rewrite <- Hp. eapply wp_mono.
    { apply (IH (done ++ [t]) (tr ++ e1)); [by rewrite <- app_assoc | apply Hm1 | | by rewrite Hp].
      rewrite Hops. apply list_lookup_insert_eq. by eapply lookup_lt_Some. }
    intros [s2 e2] (o2 & Hm2 & Hs2). cbn [fst snd] in *. exists o2. rewrite Hp in Hs2.
    rewrite Hp. split; [by eapply moved_trans | done].
Qed.

Definition live (first : Z) (tr : list Ev) (s : Subj) : Prop :=
  Inv tr s /\ no_finished (get_ops s) /\ numbered first (get_ops s).

Lemma pop_none l : no_finished l -> pop_finished l = l.
Proof.
  intros Hl. destruct Hl as [|o l Ho Hl]; [done|]. simpl.
  destruct (Nat.eqb_spec (op_state o) FINISHED); [lia|done].
Qed.

(** One operation: either nothing happens, or it moves on, and then it is
    still in the queue or it was the first one and is gone. *)
Inductive advanced (i : nat) (o : Op) (s s' : Subj) (evs : list Ev) : bool -> Prop :=
| adv_none : s' = s -> evs = [] -> op_stable tbl o (prev_state i (get_ops s)) ->
    advanced i o s s' evs false
| adv_kept o' : get_ops s' = <[i := o']> (get_ops s) -> op_seq o' = op_seq o ->
    op_stable tbl o' (prev_state i (get_ops s)) -> advanced i o s s' evs true
| adv_gone : i = 0%nat -> (get_ops s' : list Op) = tail (get_ops s) -> advanced i o s s' evs true.

Lemma advanceOne_ok first tr s i o :
  live first tr s -> get_ops s !! i = Some o ->
  wp (advanceOneOperation tbl (op_seq o) s) Q (fun r =>
    let '(adv, s', evs) := r in
    advanced i o s s' evs adv /\
    live (if decide (length (get_ops s' : list Op) <> length (get_ops s : list Op)) then first + 1 else first) (tr ++ evs) s').
Proof.
  intros (Hi & Hnf & Hn) Ho. unfold advanceOneOperation.
  rewrite (deref_at _ _ _ _ Hn Ho), bind_done. destruct (find_prev _ _ _ _ Hn Ho) as (p & -> & Hp).
  rewrite bind_done, Hp. apply wp_bind. eapply wp_mono.
  { apply (transitioner_ok tbl [] tr s i o); [done | done | done | constructor]. }
  intros [s1 evs] (o1 & Hm & Hst). cbn [fst snd] in *. destruct Hm as [M1 M2 M3 M4 M5 M7 M6].
  assert (get_ops s1 !! i = Some o1) as Ho1
    by (rewrite M1; apply list_lookup_insert_eq; by eapply lookup_lt_Some).
  assert (numbered first (get_ops s1)) as Hn1 by (rewrite M1; by eapply numbered_insert).
  rewrite <- M2, (deref_at _ _ _ _ Hn1 Ho1), bind_done. cbn [wp].
  assert (op_state o < FINISHED)%nat as Hof by (by eapply (proj1 (Forall_lookup _ _) Hnf i)).
  destruct (Nat.eqb_spec (op_state o1) (op_state o)) as [He|He]; cbn [negb].
  - destruct (M5 He) as (-> & -> & ->). destruct (Nat.eqb_spec (op_state o) FINISHED); [lia|].
    split; [by constructor|]. by rewrite app_nil_r, decide_False by (intros Hx; by apply Hx).
  - destruct (Nat.eqb_spec (op_state o1) FINISHED) as [Hf|Hf].
    + destruct (M6 Hf) as [|Hprev]; [lia|].
      assert (i = 0%nat) as ->.
      { destruct i as [|j]; [done|]. exfalso. simpl in Hprev.
        destruct (lookup_lt_is_Some_2 (get_ops s) j) as [q Hq]; [apply lookup_lt_Some in Ho; lia|].
        rewrite Hq in Hprev. pose proof (proj1 (Forall_lookup _ _) Hnf j q Hq) as Hx. simpl in Hx. lia. }
      destruct (get_ops s) as [|o0 l] eqn:Hs; [done|]. simpl in M1, Ho1, Hnf. rewrite M1.
      cbn [pop_finished]. rewrite Hf, Nat.eqb_refl.
      apply Forall_cons in Hnf as [_ Hnf]. rewrite (pop_none _ Hnf), get_put_ops. cbn [tail] in *.
      split; [apply adv_gone; [done | by rewrite get_put_ops, Hs]|].
      rewrite decide_True by (simpl; lia). split_and!.
      * eapply (mo_pop Hok); [done | done | done].
      * by rewrite get_put_ops.
      * rewrite get_put_ops. by eapply numbered_tail.
    + split; [by apply (adv_kept i o s s1 evs o1)|]. rewrite decide_False by (intros Hx; apply Hx; by rewrite M1, length_insert).
      split_and!; [done| |done]. rewrite M1. apply Forall_insert; [done|]. specialize (M7 ltac:(lia)). lia.
Qed.

Lemma stable_step P first s i o s' evs adv :
  stable_on tbl P (get_ops s) -> numbered first (get_ops s) -> get_ops s !! i = Some o ->
  advanced i o s s' evs adv ->
  stable_on tbl (fun k => (P k \/ k = op_seq o) /\ (adv = true -> k <> op_seq o + 1)) (get_ops s').
Proof.
  intros HP Hn Ho Ha. pose proof Hn as (_ & _ & Hseq).
  assert (forall j q, get_ops s !! j = Some q -> op_seq q = op_seq o -> j = i) as Huniq.
  { intros j q Hq He. rewrite (Hseq _ _ Hq), (Hseq _ _ Ho) in He. lia. }
  destruct Ha as [-> _ Hst|o' Hops Ho' Hst| -> Hops]; intros j q Hq [HPq Hne].
  - destruct HPq as [HPq|HPq]; [by apply HP|].
    pose proof (Huniq _ _ Hq HPq) as ->. rewrite Ho in Hq. by injection Hq as <-.
  - specialize (Hne eq_refl). rewrite Hops in *. destruct (decide (j = i)) as [->|Hj].
    + rewrite list_lookup_insert_eq in Hq by (by eapply lookup_lt_Some).
      injection Hq as <-. by rewrite prev_state_insert.
    + rewrite list_lookup_insert_ne in Hq by done. destruct HPq as [HPq|HPq].
      * assert (prev_state j (<[i := o']> (get_ops s)) = prev_state j (get_ops s)) as ->; [|by apply HP].
        destruct j as [|j]; [done|]. simpl. rewrite list_lookup_insert_ne; [done|].
        intros ->. apply Hne. rewrite (Hseq _ _ Hq), (Hseq _ _ Ho). lia.
      * exfalso. apply Hj. by apply (Huniq _ q).
  - specialize (Hne eq_refl). rewrite Hops in *.
    destruct (get_ops s) as [|o0 l] eqn:Hs; [done|]. simpl in Hq. cbn [tail].
    destruct HPq as [HPq|HPq]; [|by apply (Huniq (S j)) in Hq].
    pose proof (HP (S j) q Hq HPq) as Hst. destruct j as [|j]; [|done]. exfalso. apply Hne.
    rewrite (Hseq 1%nat q Hq), (Hseq _ _ Ho). lia.
Qed.

Definition seq_end (first : Z) (s : Subj) : Z := first + Z.of_nat (length (get_ops s : list Op)).

Lemma seq_end_step first s i o s' evs adv :
  get_ops s !! i = Some o -> advanced i o s s' evs adv ->
  seq_end (if decide (length (get_ops s' : list Op) <> length (get_ops s : list Op))
           then first + 1 else first) s' = seq_end first s.
Proof.
  intros Ho Ha. unfold seq_end.
  destruct Ha as [-> _ _|o1 Hx _ _| -> Hx]; [|rewrite Hx, ?length_insert|rewrite Hx].
  - by rewrite decide_False by (intros Hy; by apply Hy).
  - by rewrite decide_False by (intros Hy; by apply Hy).
  - destruct (get_ops s) as [|q l]; [done|]. cbn [tail length]. rewrite decide_True by lia. lia.
Qed.

Lemma find_live first tr s sn :
  live first tr s -> -1 <= sn < 2 ^ 63 ->
  findOperation sn (get_ops s) =
    Done (if decide (first <= sn) then get_ops s !! Z.to_nat (sn - first) else None).
Proof. intros (_ & _ & Hn). by apply findOperation_at. Qed.

Lemma advance_loop_ok fuel : forall first tr s sn,
  live first tr s -> stable_on tbl (fun k => k <> sn) (get_ops s) ->
  first <= sn <= seq_end first s -> (Z.to_nat (seq_end first s - sn) < fuel)%nat ->
  wp (advance_loop tbl fuel sn s) Q (fun r =>
    (exists first', live first' (tr ++ r.2) r.1 /\ seq_end first' r.1 = seq_end first s) /\
    stable_on tbl (fun _ => True) (get_ops r.1)).
Proof.
  induction fuel as [|fuel IH]; intros first tr s sn Hl Hst Hsn Hfuel; [lia|]. cbn [advance_loop].
  pose proof Hl as (Hi & Hnf & Hn). pose proof Hn as (Hb1 & Hb2 & Hseq). unfold seq_end in *.
  rewrite (find_live _ _ _ _ Hl), bind_done, decide_True by lia.
  destruct (get_ops s !! Z.to_nat (sn - first)) as [o|] eqn:Ho.
  - assert (op_seq o = sn) as Hosn by (rewrite (Hseq _ _ Ho); lia).
    destruct (Nat.eqb_spec (op_state o) FINISHED) as [Hf|_].
    { exfalso. pose proof (proj1 (Forall_lookup _ _) Hnf _ _ Ho) as Hx. simpl in Hx. lia. }
    apply wp_bind. eapply wp_mono; [by apply (advanceOne_ok first tr s _ _ Hl Ho)|].
    intros [[adv s1] evs] [Ha Hl1]. pose proof (seq_end_step first _ _ _ _ _ _ Ho Ha) as Hend.
    pose proof (stable_step _ _ _ _ _ _ _ _ Hst Hn Ho Ha) as Hst1. unfold seq_end in Hend.
    rewrite Hosn in Hst1. pose proof (lookup_lt_Some _ _ _ Ho) as Hlt. destruct adv.
    + apply wp_bind. eapply wp_mono.
      { eapply (IH _ (tr ++ evs) s1 (sn + 1) Hl1); unfold seq_end.
        - intros j q Hq Hne. apply (Hst1 j q Hq). split; [|done]. destruct (decide (op_seq q = sn)); tauto.
        - rewrite Hend. destruct (decide _); lia.
        - rewrite Hend. lia. }
      intros [s2 evs2] [(f & Hl2 & He2) Hs2]. cbn [fst snd wp] in *. split; [|done].
      exists f. split; [by rewrite app_assoc|]. unfold seq_end in He2. by rewrite He2, Hend.
    + cbn [wp fst snd]. split; [by eexists|]. intros j q Hq _. apply (Hst1 j q Hq).
      split; [|done]. destruct (decide (op_seq q = sn)); tauto.
  - cbn [wp fst snd]. split; [exists first; by rewrite app_nil_r|]. intros j q Hq _.
    apply (Hst j q Hq). rewrite (Hseq _ _ Hq). intros He.
    apply lookup_ge_None in Ho. apply lookup_lt_Some in Hq. lia.
Qed.

Lemma advance_all_loop_ok fuel : forall first tr s sn,
  live first tr s -> stable_on tbl (fun k => k < sn) (get_ops s) ->
  first <= sn <= seq_end first s -> (Z.to_nat (seq_end first s - sn) < fuel)%nat ->
  wp (advance_all_loop tbl fuel sn s) Q (fun r =>
    (exists first', live first' (tr ++ r.2) r.1 /\ seq_end first' r.1 = seq_end first s) /\
    stable_on tbl (fun _ => True) (get_ops r.1)).
Proof.
  induction fuel as [|fuel IH]; intros first tr s sn Hl Hst Hsn Hfuel; [lia|]. cbn [advance_all_loop].
  pose proof Hl as (Hi & Hnf & Hn). pose proof Hn as (Hb1 & Hb2 & Hseq). unfold seq_end in *.
  rewrite (find_live _ _ _ _ Hl), bind_done, decide_True by lia.
  destruct (get_ops s !! Z.to_nat (sn - first)) as [o|] eqn:Ho.
  - assert (op_seq o = sn) as Hosn by (rewrite (Hseq _ _ Ho); lia).
    apply wp_bind. eapply wp_mono; [by apply (advanceOne_ok first tr s _ _ Hl Ho)|].
    intros [[adv s1] evs] [Ha Hl1]. pose proof (seq_end_step first _ _ _ _ _ _ Ho Ha) as Hend.
    pose proof (stable_step _ _ _ _ _ _ _ _ Hst Hn Ho Ha) as Hst1. unfold seq_end in Hend.
    rewrite Hosn in Hst1. pose proof (lookup_lt_Some _ _ _ Ho) as Hlt. apply wp_bind. eapply wp_mono.
    { eapply (IH _ (tr ++ evs) s1 (sn + 1) Hl1); unfold seq_end.
      - intros j q Hq Hne. apply (Hst1 j q Hq). split; [|intros _; lia].
        destruct (decide (op_seq q = sn)); [by right | left; lia].
      - rewrite Hend. destruct (decide _); lia.
      - rewrite Hend. lia. }
    intros [s2 evs2] [(f & Hl2 & He2) Hs2]. cbn [fst snd wp] in *. split; [|done].
    exists f. split; [by rewrite app_assoc|]. unfold seq_end in He2. by rewrite He2, Hend.
  - cbn [wp fst snd]. split; [exists first; by rewrite app_nil_r|]. intros j q Hq _.
    apply (Hst j q Hq). rewrite (Hseq _ _ Hq).
    apply lookup_ge_None in Ho. apply lookup_lt_Some in Hq. lia.
Qed.

(** The summary for clients. *)
Definition settled (tr : list Ev) (s : Subj) (sn_end : Z) : Prop :=
  (exists first, live first tr s /\ seq_end first s = sn_end) /\
  stable_on tbl (fun _ => True) (get_ops s).

Lemma advanceOperation_ok first tr s i o :
  live first tr s -> get_ops s !! i = Some o ->
  stable_on tbl (fun k => k <> op_seq o) (get_ops s) ->
  wp (advanceOperation tbl (op_seq o) s) Q (fun r => settled (tr ++ r.2) r.1 (seq_end first s)).
Proof.
  intros Hl Ho Hst. pose proof Hl as (_ & _ & Hn). unfold advanceOperation.
  rewrite (deref_at _ _ _ _ Hn Ho), bind_done. destruct (seq_index _ _ _ _ Hn Ho) as [Hx ?].
  pose proof (lookup_lt_Some _ _ _ Ho) as Hlt. destruct Hn as (? & ? & ?).
  rewrite s64_small by lia. eapply wp_mono.
  { apply (advance_loop_ok _ first tr); [done | done | unfold seq_end; lia | unfold seq_end; lia]. }
  intros r Hr. exact Hr.
Qed.

Lemma advanceAllOperations_ok first tr s :
  live first tr s ->
  wp (advanceAllOperations tbl s) Q (fun r => settled (tr ++ r.2) r.1 (seq_end first s)).
Proof.
  intros Hl. pose proof Hl as (_ & _ & Hn). unfold advanceAllOperations.
  destruct (get_ops s) as [|front l] eqn:Hs.
  - cbn [wp fst snd]. rewrite app_nil_r. split; [by exists first|]. intros j q Hq. by rewrite Hs in Hq.
  - destruct Hn as (? & Hb & Hseq). pose proof (Hseq 0%nat front eq_refl). simpl in Hb.
    rewrite s64_small by lia. eapply wp_mono.
    + apply (advance_all_loop_ok _ first tr); unfold seq_end; rewrite ?Hs; simpl; [done | | lia..].
      intros j q Hq Hlt. rewrite (Hseq _ _ Hq) in Hlt. lia.
    + intros r Hr. exact Hr.
Qed.
End Advance.
