(* ===== verification/LocalOps.v ===== *)
(** * Operations that touch nothing but themselves

    The transitions of a channel only change the operation they advance and
    call out of the channel; and its operations may finish out of order.  This
    file relates the state machine of [OpsStateMachine] to a function on single
    operations, and derives what such a machine keeps from what that function
    does: the callbacks owed to the user, those awaited from below, and the
    order in which operations start. *)

From S2P Require Import Prelude OpsStateMachine.

Section Local.
Context {Subj Op Ev : Type} `{Operation Op} `{OpsMachine Subj Op} `{!OpsMachineLaws Subj Op}.
Implicit Types (l : list Op) (o : Op) (s : Subj) (evs : list Ev).

Definition local_action : Type := Op -> outcome (Op * list Ev).

(** An action through its [Iter]. *)
Definition on_op (f : local_action) : @op_action Subj Ev := fun it s =>
  op ← deref it s;
  '(op, evs) ← f op;
  s ← update_op it (fun _ => op) s;
  Done (s, evs).

Record row := mkRow {
  r_from : nat;
  r_to : nat;
  r_cond : Op -> nat -> bool;
  r_actions : list local_action;
}.

Definition row_transition (r : row) : @transition Subj Op Ev :=
  mkTransition (r_from r) (r_to r) (r_cond r) (on_op <$> r_actions r).

Definition table (rows : list row) : list (@transition Subj Op Ev) := row_transition <$> rows.

(** ** The same on a single operation *)

Fixpoint run_local (acts : list local_action) (o : Op) : outcome (Op * list Ev) :=
  match acts with
  | [] => Done (o, [])
  | a :: acts =>
      r ← a o;
      r' ← run_local acts r.1;
      Done (r'.1, r.2 ++ r'.2)
  end.

Definition attempt_local (r : row) (p : nat) (o : Op) : outcome (Op * list Ev) :=
  if (op_state o =? r_from r)%nat && r_cond r o p then
    x ← run_local (r_actions r) o;
    Done (op_put_state (r_to r) x.1, x.2)
  else Done (o, []).

Fixpoint step_op (rows : list row) (p : nat) (o : Op) : outcome (Op * list Ev) :=
  match rows with
  | [] => Done (o, [])
  | r :: rows =>
      x ← attempt_local r p o;
      x' ← step_op rows p x.1;
      Done (x'.1, x.2 ++ x'.2)
  end.

Definition lifted (i : nat) (s : Subj) (m : outcome (Op * list Ev)) : outcome (Subj * list Ev) :=
  '(o, evs) ← m; Done (put_ops (<[i := o]> (get_ops s)) s, evs).

Definition keeps_seq (f : local_action) : Prop :=
  forall o o' evs, f o = Done (o', evs) -> op_seq o' = op_seq o.
Definition row_keeps (r : row) : Prop := Forall keeps_seq (r_actions r).

Lemma insert_own i o s : get_ops s !! i = Some o -> put_ops (<[i := o]> (get_ops s)) s = s.
Proof. intros Hi. by rewrite list_insert_id, put_get_ops. Qed.

Lemma lifted_done i s o evs :
  get_ops s !! i = Some o -> lifted i s (Done (o, evs)) = Done (s, evs).
Proof. intros Hi. unfold lifted. rewrite bind_done. by rewrite insert_own. Qed.

Lemma on_op_local first i s o f :
  numbered first (get_ops s) -> get_ops s !! i = Some o -> keeps_seq f ->
  on_op f (op_seq o) s = lifted i s (f o).
Proof.
  intros Hn Hi Hk. unfold on_op. rewrite (deref_at _ _ _ _ Hn Hi), bind_done.
  destruct (f o) as [[o' evs]|e] eqn:Hf; [|done]. unfold lifted. rewrite !bind_done.
  rewrite (update_at _ _ _ _ _ Hn Hi). done.
Qed.

(** Two lifted steps in a row at the same operation. *)
Lemma lifted_seq first i s o m (k : Subj -> outcome (Subj * list Ev)) (k' : Op -> outcome (Op * list Ev)) :
  numbered first (get_ops s) -> get_ops s !! i = Some o ->
  (forall o' evs, m = Done (o', evs) -> op_seq o' = op_seq o) ->
  (forall o' s', numbered first (get_ops s') -> get_ops s' !! i = Some o' -> op_seq o' = op_seq o ->
     k s' = lifted i s' (k' o')) ->
  (r ← lifted i s m; r' ← k r.1; Done (r'.1, r.2 ++ r'.2)) =
  lifted i s (r ← m; r' ← k' r.1; Done (r'.1, r.2 ++ r'.2)).
Proof.
  intros Hn Hi Hm Hk. destruct m as [[o' evs]|e] eqn:Em; [|done]. specialize (Hm _ _ eq_refl).
  unfold lifted at 1. rewrite !bind_done. cbn [fst snd].
  assert (get_ops (put_ops (<[i:=o']> (get_ops s)) s) = <[i:=o']> (get_ops s)) as Hg by apply get_put_ops.
  rewrite (Hk o'); [|rewrite Hg; by eapply numbered_insert
                   |rewrite Hg; apply list_lookup_insert_eq; by eapply lookup_lt_Some|done].
  destruct (k' o') as [[o2 evs2]|e] eqn:Ek; [|done]. unfold lifted.
  rewrite !bind_done, Hg, list_insert_insert_eq, put_put_ops. done.
Qed.

Lemma run_local_seq acts : Forall keeps_seq acts -> keeps_seq (run_local acts).
Proof.
  induction 1 as [|a acts Ha _ IH]; intros o o' evs He; simpl in He; [by apply done_inj in He as [= <- _]|].
  inv_bind He. inv_bind He. apply done_inj in He as [= <- _].
  destruct a0 as [o1 e1]. destruct a1 as [o2 e2]. simpl in *.
  etrans; [by eapply IH | by eapply Ha].
Qed.

Lemma run_actions_local first i acts s o :
  numbered first (get_ops s) -> get_ops s !! i = Some o -> Forall keeps_seq acts ->
  run_actions (op_seq o) (on_op <$> acts) s = lifted i s (run_local acts o).
Proof.
  intros Hn Hi Hl. revert s o Hn Hi. induction Hl as [|a acts Ha Hl IH]; intros s o Hn Hi.
  - symmetry. by apply lifted_done.
  - cbn [fmap list_fmap run_actions run_local]. rewrite (on_op_local first i) by done.
    apply (lifted_seq first i s o); [done | done | intros ? ? Hf; by eapply Ha|].
    intros o' s' Hn' Hi' <-. by apply IH.
Qed.

Lemma attempt_local_seq r p : row_keeps r -> keeps_seq (attempt_local r p).
Proof.
  intros Hr o o' evs Ho. unfold attempt_local in Ho. destruct (_ && _).
  - inv_bind Ho. apply done_inj in Ho as [= <- _]. rewrite seq_put_state.
    destruct a as [o1 e1]. by eapply run_local_seq.
  - by apply done_inj in Ho as [= <- _].
Qed.

Lemma attempt_is_local first i r p s o :
  numbered first (get_ops s) -> get_ops s !! i = Some o -> row_keeps r ->
  attemptTransition (row_transition r) (op_seq o) p s = lifted i s (attempt_local r p o).
Proof.
  intros Hn Hi Hr. unfold attemptTransition, attempt_local. rewrite (deref_at _ _ _ _ Hn Hi), bind_done.
  cbn [row_transition t_from t_to t_cond t_actions].
  destruct (_ && _); [|by rewrite lifted_done].
  rewrite (run_actions_local first i) by done.
  destruct (run_local (r_actions r) o) as [[o' evs]|e] eqn:Hrun; [|done].
  pose proof (run_local_seq _ Hr _ _ _ Hrun) as Hseq. unfold lifted. rewrite !bind_done. cbn [fst snd].
  rewrite <- Hseq, (update_at first _ i o').
  - by rewrite bind_done, get_put_ops, put_put_ops, list_insert_insert_eq.
  - rewrite get_put_ops. by eapply numbered_insert.
  - rewrite get_put_ops. apply list_lookup_insert_eq. by eapply lookup_lt_Some.
Qed.

Lemma transitioner_local first i rows p s o :
  numbered first (get_ops s) -> get_ops s !! i = Some o -> Forall row_keeps rows ->
  transitioner (table rows) (op_seq o) p s = lifted i s (step_op rows p o).
Proof.
  intros Hn Hi Hr. revert s o Hn Hi. induction Hr as [|r rows Hr Hrs IH]; intros s o Hn Hi.
  - symmetry. by apply lifted_done.
  - unfold table. cbn [fmap list_fmap transitioner step_op]. rewrite (attempt_is_local first i) by done.
    apply (lifted_seq first i s o); [done | done | intros ? ? Hf; by eapply attempt_local_seq|].
    intros o' s' Hn' Hi' <-. by apply IH.
Qed.

Lemma step_op_seq rows p : Forall row_keeps rows -> keeps_seq (step_op rows p).
Proof.
  induction 1 as [|r rows Hr _ IH]; intros o o' evs Ho; simpl in Ho; [by apply done_inj in Ho as [= <- _]|].
  inv_bind Ho. inv_bind Ho. apply done_inj in Ho as [= <- _]. destruct a as [o1 e1], a0 as [o2 e2]. simpl in *.
  etrans; [by eapply IH | by eapply attempt_local_seq].
Qed.

(** ** Queues of such operations *)

(** An operation is removed as soon as it is finished and first. *)
Definition settled (l : list Op) : Prop :=
  match l with o :: _ => op_state o <> FINISHED | [] => True end.

Lemma pop_settled l : settled l -> pop_finished l = l.
Proof. destruct l as [|o l]; [done|]. simpl. intros Ho. by destruct (Nat.eqb_spec (op_state o) FINISHED). Qed.

Lemma pop_drop l :
  exists k, pop_finished l = drop k l /\ (k <= length l)%nat /\ settled (drop k l) /\
    Forall (fun o => op_state o = FINISHED) (take k l).
Proof.
  induction l as [|o l (k & IH1 & IH2 & IH3 & IH4)]; [by exists 0%nat|]. simpl.
  destruct (Nat.eqb_spec (op_state o) FINISHED) as [Ho|Ho].
  - exists (S k). simpl. split_and!; [done | lia | done | by constructor].
  - exists 0%nat. simpl. split_and!; [done | lia | done | constructor].
Qed.

Lemma numbered_drop first k l :
  numbered first l -> (k <= length l)%nat -> numbered (first + Z.of_nat k) (drop k l).
Proof.
  intros (H1 & H2 & H3) Hk. split_and!; [lia | rewrite length_drop; lia|].
  intros i o Hi. rewrite lookup_drop in Hi. rewrite (H3 _ _ Hi). lia.
Qed.

Lemma advanceOne_local first i rows s o o' evs :
  numbered first (get_ops s) -> get_ops s !! i = Some o -> Forall row_keeps rows -> settled (get_ops s) ->
  step_op rows (prev_state i (get_ops s)) o = Done (o', evs) ->
  advanceOneOperation (table rows) (op_seq o) s =
    Done (negb (op_state o' =? op_state o)%nat,
          put_ops (pop_finished (<[i := o']> (get_ops s))) s, evs).
Proof.
  intros Hn Hi Hr Hs Ho. unfold advanceOneOperation. rewrite (deref_at _ _ _ _ Hn Hi), bind_done.
  destruct (find_prev _ _ _ _ Hn Hi) as (p & -> & Hp). rewrite bind_done, Hp.
  rewrite (transitioner_local first i) by done. rewrite Ho. unfold lifted. rewrite !bind_done.
  pose proof (step_op_seq _ _ Hr _ _ _ Ho) as Hseq. rewrite <- Hseq.
  assert (get_ops (put_ops (<[i:=o']> (get_ops s)) s) = <[i:=o']> (get_ops s)) as Hg by apply get_put_ops.
  cbn [fst snd]. rewrite (deref_at first _ i o');
    [|rewrite Hg; by eapply numbered_insert
     |rewrite Hg; apply list_lookup_insert_eq; by eapply lookup_lt_Some].
  rewrite bind_done. destruct (Nat.eqb_spec (op_state o') FINISHED) as [Hf|Hf].
  - by rewrite Hg, put_put_ops.
  - rewrite (pop_settled (<[i:=o']> (get_ops s))); [done|].
    destruct (get_ops s) as [|q l]; [done|]. by destruct i.
Qed.

(** ** What each step of an operation promises *)

(** Whether operations may start: not at all; in order, since each starts once the
    one before it has; or in order, since it then waits for nothing but that. *)
Inductive flow := Stopped | Chained | Flowing.
Definition flow_if (b : bool) : flow := if b then Flowing else Stopped.

Lemma flow_if_flowing b : flow_if b = Flowing -> b = true.
Proof. by destruct b. Qed.
Lemma flow_if_chained b : flow_if b <> Chained.
Proof. by destruct b. Qed.

Section Spec.
Context {A B C : Type}.
Variable rows : list row.
Variable good : Op -> Prop.
Variable owed : Op -> list A.       (* callbacks owed to the user *)
Variable pend : Op -> list B.       (* callbacks awaited *)
Variable unstarted : Op -> list C.  (* calls still to be made when it starts *)
Variable user : Ev -> option A.
Variable reg : Ev -> option B.
Variable start : Ev -> option C.
Variable flowing : flow.            (* operations may start *)
Variable started : nat.             (* the least state of those that did *)
Variable only : Ev -> Prop.         (* the calls such operations make *)
Variable restful : Prop.            (* operations that could go on do so *)

Definition op_at_rest (o : Op) (p : nat) : Prop :=
  Forall (fun r => ((op_state o =? r_from r)%nat && r_cond r o p) = false) rows.

Record step_post (p : nat) (o o' : Op) (evs : list Ev) : Prop := {
  sp_good : good o';
  sp_mono : (op_state o <= op_state o' <= FINISHED)%nat;
  sp_same : op_state o' = op_state o -> o' = o /\ evs = [];
  sp_rest : op_at_rest o' p;
  sp_owed : owed o ≡ₚ omap user evs ++ owed o';
  sp_pend : pend o' ≡ₚ omap reg evs ++ pend o;
  sp_start : omap start evs = [] /\ unstarted o' = unstarted o \/
             flowing <> Stopped /\ (started <= p)%nat /\ unstarted o = omap start evs /\ unstarted o' = [];
  sp_chain : flowing = Chained -> (started <= op_state o')%nat -> (started <= op_state o)%nat \/ (started <= p)%nat;
  sp_only : Forall only evs;
}.

Record local_ok : Prop := {
  lo_keeps : Forall row_keeps rows;
  lo_step : forall p o, good o -> exists o' evs, step_op rows p o = Done (o', evs) /\ step_post p o o' evs;
  lo_finished : forall o, good o -> op_state o = FINISHED -> owed o = [] /\ pend o = [] /\ unstarted o = [];
  lo_final : Forall (fun r => (r_from r < FINISHED)%nat) rows;
  lo_flow : flowing = Flowing -> forall p o, good o -> op_at_rest o p -> (started <= p)%nat -> (started <= op_state o)%nat;
  lo_started : forall o, good o -> (started <= op_state o)%nat -> unstarted o = [];
  lo_level : (started <= FINISHED)%nat;
  lo_restful : flowing = Flowing -> restful;
}.

Definition at_rest_on (P : Z -> Prop) (l : list Op) : Prop :=
  restful -> forall i o, l !! i = Some o -> P (op_seq o) -> op_at_rest o (prev_state i l).

(** No operation started before the one before it. *)
Definition chain (l : list Op) : Prop :=
  forall i o, l !! i = Some o -> (started <= op_state o)%nat -> (started <= prev_state i l)%nat.

(** A queue of good operations, none finished at its front. *)
Record queue_ok (first : Z) (l : list Op) : Prop := {
  qo_numbered : numbered first l;
  qo_good : Forall good l;
  qo_settled : settled l;
  qo_chain : flowing = Chained -> chain l;
}.

(** What advancing does to a queue: nothing is lost. *)
Record conserves (l l' : list Op) (evs : list Ev) : Prop := {
  cs_owed : (l ≫= owed) ≡ₚ omap user evs ++ (l' ≫= owed);
  cs_pend : (l' ≫= pend) ≡ₚ omap reg evs ++ (l ≫= pend);
  cs_start : (l ≫= unstarted) = omap start evs ++ (l' ≫= unstarted);
  cs_only : Forall only evs;
}.

Lemma step_at_rest o p : op_at_rest o p -> step_op rows p o = Done (o, []).
Proof.
  unfold op_at_rest. generalize rows. induction 1 as [|r rs Hr _ IH]; [done|]. simpl.
  unfold attempt_local. rewrite Hr, bind_done. simpl. by rewrite IH, bind_done.
Qed.

Lemma conserves_refl l : conserves l l [].
Proof. by split. Qed.

Lemma conserves_trans l1 l2 l3 e1 e2 :
  conserves l1 l2 e1 -> conserves l2 l3 e2 -> conserves l1 l3 (e1 ++ e2).
Proof.
  intros [A1 A2 A3 A4] [B1 B2 B3 B4]. split; rewrite ?omap_app; [| | |by apply Forall_app].
  - by rewrite A1, B1, app_assoc.
  - rewrite B2, A2, !app_assoc. by rewrite (Permutation_app_comm (omap reg e2)).
  - by rewrite A3, B3, app_assoc.
Qed.

Context (Hok : local_ok).

Lemma finished_at_rest o p : op_state o = FINISHED -> op_at_rest o p.
Proof.
  intros Ho. eapply Forall_impl; [apply (lo_final Hok)|]. intros r Hr. simpl in Hr.
  rewrite Ho. by rewrite (proj2 (Nat.eqb_neq _ _)) by lia.
Qed.

(** The operations before one whose predecessors are at rest have started. *)
Lemma prefix_started l i :
  flowing = Flowing -> Forall good l -> (forall j o, (j < i)%nat -> l !! j = Some o -> op_at_rest o (prev_state j l)) ->
  forall j o, (j < i)%nat -> l !! j = Some o -> (started <= op_state o)%nat.
Proof.
  intros Hf Hg Hr j. induction j as [|j IH]; intros o Hj Ho.
  - apply (lo_flow Hok Hf FINISHED); [by eapply (proj1 (Forall_lookup _ _) Hg) | by apply (Hr 0%nat)
                                     | apply (lo_level Hok)].
  - destruct (lookup_lt_is_Some_2 l j) as [q Hq]; [apply lookup_lt_Some in Ho; lia|].
    apply (lo_flow Hok Hf (op_state q)); [by eapply (proj1 (Forall_lookup _ _) Hg)| |apply (IH q); [lia | done]].
    pose proof (Hr (S j) o Hj Ho) as Hx. simpl in Hx. by rewrite Hq in Hx.
Qed.

(** So have those before one that has, or may, in a chain. *)
Lemma chain_started l i :
  chain l -> (started <= prev_state i l)%nat -> (i <= length l)%nat -> forall j o, (j < i)%nat -> l !! j = Some o -> (started <= op_state o)%nat.
Proof.
  intros Hc. induction i as [|i IH]; intros Hp Hl j o Hj Ho; [lia|].
  destruct (lookup_lt_is_Some_2 l i) as [q Hq]; [lia|]. simpl in Hp. rewrite Hq in Hp.
  destruct (decide (j = i)) as [->|Hne]; [by rewrite Ho in Hq; inversion Hq; subst|].
  apply (IH (Hc i q Hq Hp)) with (j := j); [lia | lia | done].
Qed.

Lemma conserves_insert first l i o o' evs :
  queue_ok first l -> l !! i = Some o -> step_post (prev_state i l) o o' evs ->
  (restful -> forall j q, (j < i)%nat -> l !! j = Some q -> op_at_rest q (prev_state j l)) ->
  conserves l (<[i := o']> l) evs.
Proof.
  intros [Hn Hg _ Hch] Hi Hp Hr.
  assert (flowing <> Stopped -> (started <= prev_state i l)%nat -> forall j q, (j < i)%nat -> l !! j = Some q -> (started <= op_state q)%nat) as Hpre.
  { intros Hf Hs. destruct flowing eqn:Hfl; [done | |].
    - apply chain_started; [by apply Hch | done | apply lookup_lt_Some in Hi; lia].
    - apply prefix_started; [done..|]. apply Hr. by apply (lo_restful Hok). }
  clear Hn Hch. destruct (split_at l i o Hi) as (l1 & l2 & -> & Hl1 & ->). split; [| | |apply Hp].
  - rewrite !bind_app, !bind_cons. rewrite (sp_owed _ _ _ _ Hp). solve_perm.
  - rewrite !bind_app, !bind_cons. rewrite (sp_pend _ _ _ _ Hp). solve_perm.
  - rewrite !bind_app, !bind_cons. destruct (sp_start _ _ _ _ Hp) as [[-> ->]|(Hf & Hs & -> & ->)]; [done|].
    rewrite (bind_nil unstarted l1); [done|].
    apply Forall_lookup. intros j q Hq. assert (j < i)%nat as Hj by (apply lookup_lt_Some in Hq; lia).
    assert ((l1 ++ o :: l2) !! j = Some q) as Hq' by (by apply lookup_app_l_Some).
    apply (lo_started Hok); [by eapply (proj1 (Forall_lookup _ _) Hg)|]. by apply (Hpre Hf Hs j).
Qed.

Lemma conserves_drop k l :
  Forall good l -> Forall (fun o => op_state o = FINISHED) (take k l) -> conserves l (drop k l) [].
Proof.
  intros Hg Hf.
  assert (Forall (fun o => owed o = [] /\ pend o = [] /\ unstarted o = []) (take k l)) as Hnil.
  { apply Forall_lookup. intros j q Hq. apply (lo_finished Hok).
    - apply lookup_take_Some in Hq as [Hq _]. by eapply (proj1 (Forall_lookup _ _) Hg).
    - by apply (proj1 (Forall_lookup _ _) Hf j). }
  assert (forall X (f : Op -> list X), Forall (fun o => f o = []) (take k l) -> l ≫= f = drop k l ≫= f) as Hd.
  { intros X f HX. rewrite <- (take_drop k l) at 1. by rewrite bind_app, (bind_nil f). }
  split; [| | |by constructor]; simpl; rewrite <- Hd; try done; (eapply Forall_impl; [exact Hnil|]); by intros ? (? & ? & ?).
Qed.

Lemma chain_insert l i o o' evs :
  flowing = Chained -> chain l -> l !! i = Some o -> step_post (prev_state i l) o o' evs -> chain (<[i := o']> l).
Proof.
  intros Hf Hc Hi Hp j q Hq Hs. pose proof (lookup_lt_Some _ _ _ Hi) as Hlt. destruct (decide (j = i)) as [->|Hne].
  - rewrite list_lookup_insert_eq in Hq by done. injection Hq as <-. rewrite prev_state_insert.
    destruct (sp_chain _ _ _ _ Hp Hf Hs) as [Ho|Ho]; [by apply (Hc i o)|done].
  - rewrite list_lookup_insert_ne in Hq by done. specialize (Hc j q Hq Hs). destruct j as [|j]; [done|]. simpl in *.
    destruct (decide (i = j)) as [->|Hij]; [|by rewrite list_lookup_insert_ne].
    rewrite list_lookup_insert_eq by done. rewrite Hi in Hc. pose proof (sp_mono _ _ _ _ Hp). lia.
Qed.

Lemma chain_drop k l : chain l -> chain (drop k l).
Proof.
  intros Hc j q Hq Hs. rewrite lookup_drop in Hq. specialize (Hc _ _ Hq Hs). destruct j as [|j]; [apply (lo_level Hok)|].
  simpl. rewrite lookup_drop. by rewrite Nat.add_succ_r in Hc.
Qed.

(** One operation is advanced: it is replaced, and finished ones are removed
    from the front if it was the first. *)
Record one_step (first : Z) (s : Subj) (i : nat) (o o' : Op) (evs : list Ev) (k : nat) : Prop := {
  os_run : advanceOneOperation (table rows) (op_seq o) s =
    Done (negb (op_state o' =? op_state o)%nat, put_ops (drop k (<[i := o']> (get_ops s))) s, evs);
  os_step : step_op rows (prev_state i (get_ops s)) o = Done (o', evs);
  os_post : step_post (prev_state i (get_ops s)) o o' evs;
  os_seq : op_seq o' = op_seq o;
  os_pop : k = 0%nat \/ i = 0%nat /\ op_state o' = FINISHED /\ (1 <= k <= length (get_ops s : list Op))%nat /\
           Forall (fun q => op_state q = FINISHED) (take k (<[i := o']> (get_ops s)));
  os_queue : queue_ok (first + Z.of_nat k) (drop k (<[i := o']> (get_ops s)));
  os_conserves : conserves (get_ops s) (drop k (<[i := o']> (get_ops s))) evs;
}.

Lemma advance_one first s i o :
  queue_ok first (get_ops s) -> get_ops s !! i = Some o ->
  (restful -> forall j q, (j < i)%nat -> get_ops s !! j = Some q -> op_at_rest q (prev_state j (get_ops s))) ->
  exists o' evs k, one_step first s i o o' evs k.
Proof.
  intros Hq Hi Hr. pose proof Hq as [Hn Hg Hs Hch]. pose proof (proj1 (Forall_lookup _ _) Hg _ _ Hi) as Hgo. simpl in Hgo.
  destruct (lo_step Hok (prev_state i (get_ops s)) o Hgo) as (o' & evs & Hrun & Hp).
  pose proof (step_op_seq _ _ (lo_keeps Hok) _ _ _ Hrun) as Hseq.
  destruct (pop_drop (<[i := o']> (get_ops s))) as (k & Hpop & Hk & Hset & Hfin).
  assert (Forall good (<[i := o']> (get_ops s))) as Hg1 by (apply Forall_insert; [done | apply Hp]).
  exists o', evs, k. split; try done.
  - rewrite (advanceOne_local first i _ _ _ _ _ Hn Hi (lo_keeps Hok) Hs Hrun). by rewrite Hpop.
  - rewrite length_insert in Hk. destruct k as [|k]; [by left | right].
    destruct (get_ops s) as [|q l] eqn:Hl; [done|]. destruct i as [|i].
    + simpl in Hfin. apply Forall_cons in Hfin as Hf. destruct Hf as [Hf _]. split_and!; [done..|lia|lia|done].
    + exfalso. simpl in Hfin. apply Forall_cons in Hfin as [Hf _]. done.
  - split; [|by apply Forall_drop|done|].
    + apply numbered_drop; [by eapply numbered_insert | done].
    + intros Hf. apply chain_drop. apply (chain_insert _ _ o o' evs); [done | by apply Hch | done..].
  - rewrite <- (app_nil_r evs). eapply conserves_trans; [by eapply conserves_insert | by apply conserves_drop].
Qed.

(** Where other operations rest, they still do, but for the next one. *)
Lemma rest_after first s i o o' evs k (P : Z -> Prop) :
  queue_ok first (get_ops s) -> get_ops s !! i = Some o -> one_step first s i o o' evs k ->
  at_rest_on P (get_ops s) ->
  at_rest_on (fun n => (P n \/ n = op_seq o) /\
      (op_state o' <> op_state o -> (k <= 1)%nat -> n <> op_seq o + 1))
    (drop k (<[i := o']> (get_ops s))).
Proof.
  intros [Hn Hg Hs _] Hi [Hrun _ Hp Hseq Hpop Hq Hc] HP. pose proof Hn as (_ & _ & Hnum).
  intros HR j q Hjq [HPq Hne]. rewrite lookup_drop in Hjq.
  assert (op_seq q = first + Z.of_nat (k + j)) as Hsq.
  { destruct (numbered_insert first i o o' (get_ops s) Hn Hi Hseq) as (_ & _ & Hx). by apply Hx. }
  assert (op_seq o = first + Z.of_nat i) as Hso by (by apply Hnum).
  destruct (decide ((k + j)%nat = i)) as [Hki|Hki].
  { rewrite Hki, list_lookup_insert_eq in Hjq by (by eapply lookup_lt_Some). injection Hjq as <-.
    destruct Hpop as [->|(-> & Hf & Hk & _)]; [|lia]. simpl in Hki. subst j.
    rewrite drop_0, prev_state_insert. apply Hp. }
  rewrite list_lookup_insert_ne in Hjq by lia.
  destruct HPq as [HPq|HPq]; [|lia]. pose proof (HP HR _ _ Hjq HPq) as Hrest.
  destruct (decide ((k + j)%nat = S i)) as [Hsi|Hsi].
  - destruct (decide (op_state o' = op_state o)) as [He|He].
    + destruct (sp_same _ _ _ _ Hp He) as [-> ->]. rewrite list_insert_id by done.
      destruct Hpop as [->|(-> & Hf & Hk & Hfin)]; [by rewrite drop_0|].
      exfalso. destruct (get_ops s) as [|q0 l]; [done|]. simpl in Hi. injection Hi as ->. done.
    + destruct Hpop as [->|(-> & Hf & Hk & Hfin)]; [exfalso; apply Hne; [done | lia | lia]|].
      exfalso. apply Hne; [done | lia | lia].
  - destruct Hpop as [->|(-> & Hf & Hk & Hfin)].
    + rewrite drop_0. simpl in *. destruct j as [|j]; [done|]. cbn [prev_state] in *.
      by rewrite list_lookup_insert_ne by lia.
    + destruct j as [|j].
      * replace (prev_state (k + 0) (get_ops s)) with (FINISHED (Op := Op)) in Hrest; [done|].
        rewrite Nat.add_0_r in *. destruct k as [|k]; [lia|]. simpl.
        destruct (lookup_lt_is_Some_2 (get_ops s) k) as [q' Hq']; [apply lookup_lt_Some in Hjq; lia|].
        rewrite Hq'. symmetry. apply (proj1 (Forall_lookup _ _) Hfin k).
        apply lookup_take_Some. split; [|lia]. rewrite list_lookup_insert_ne by lia. done.
      * assert (prev_state (S j) (drop k (<[0%nat:=o']> (get_ops s))) = prev_state (k + S j) (get_ops s)) as ->; [|done].
        rewrite Nat.add_succ_r. cbn [prev_state]. by rewrite lookup_drop, list_lookup_insert_ne by lia.
Qed.

(** ** Advancing one operation and those after it, or all of them *)

(** [m] runs, and leaves a queue with [P]. *)
Definition advances (first : Z) (s : Subj) (m : outcome (Subj * list Ev)) (P : list Op -> Prop) : Prop :=
  exists l' evs first', m = Done (put_ops l' s, evs) /\ queue_ok first' l' /\
    first' + Z.of_nat (length l') = first + Z.of_nat (length (get_ops s : list Op)) /\
    conserves (get_ops s) l' evs /\ P l'.

Definition all_at_rest (l : list Op) : Prop := at_rest_on (fun _ => True) l.

Lemma advances_stop first s (P : list Op -> Prop) :
  queue_ok first (get_ops s) -> P (get_ops s) -> advances first s (Done (s, [])) P.
Proof.
  intros Hq HP. exists (get_ops s), [], first. rewrite put_get_ops.
  split_and!; [done | done | done | apply conserves_refl | done].
Qed.

(** One round of a loop and the rest of it. *)
Lemma advances_more first s i o o' evs k (m : Subj -> outcome (Subj * list Ev)) (P : list Op -> Prop) :
  get_ops s !! i = Some o -> one_step first s i o o' evs k ->
  advances (first + Z.of_nat k) (put_ops (drop k (<[i := o']> (get_ops s))) s)
    (m (put_ops (drop k (<[i := o']> (get_ops s))) s)) P ->
  advances first s
    (r' ← m (put_ops (drop k (<[i := o']> (get_ops s))) s); Done (r'.1, evs ++ r'.2)) P.
Proof.
  intros Hi Hs (l2 & evs2 & first2 & -> & Hq2 & Hend & Hc2 & HP). rewrite get_put_ops in Hend, Hc2.
  exists l2, (evs ++ evs2), first2. rewrite bind_done, put_put_ops. cbn [fst snd].
  split_and!; [done | done | | by eapply conserves_trans; [apply Hs|] | done].
  rewrite Hend, length_drop, length_insert. destruct (os_pop _ _ _ _ _ _ _ Hs) as [->|(_ & _ & Hk & _)]; lia.
Qed.

Lemma find_at first s sn :
  queue_ok first (get_ops s) -> -1 <= sn < 2 ^ 63 ->
  findOperation sn (get_ops s) =
    Done (if decide (first <= sn) then get_ops s !! Z.to_nat (sn - first) else None).
Proof. intros Hq. apply findOperation_at, Hq. Qed.

Lemma advance_loop_local fuel : forall first s sn,
  queue_ok first (get_ops s) -> at_rest_on (fun n => n <> sn) (get_ops s) ->
  0 <= sn <= first + Z.of_nat (length (get_ops s : list Op)) ->
  (Z.to_nat (first + Z.of_nat (length (get_ops s : list Op)) - sn) < fuel)%nat ->
  advances first s (advance_loop (table rows) fuel sn s) all_at_rest.
Proof.
  induction fuel as [|fuel IH]; intros first s sn Hq Hrest Hsn Hfuel; [lia|]. cbn [advance_loop].
  pose proof Hq as [(Hb1 & Hb2 & Hnum) Hg Hset _]. rewrite (find_at first) by (done || lia). rewrite bind_done.
  assert (forall i q, get_ops s !! i = Some q -> op_seq q <> sn \/ first <= sn /\ i = Z.to_nat (sn - first)) as Hne.
  { intros i q Hi. rewrite (Hnum _ _ Hi). pose proof (lookup_lt_Some _ _ _ Hi).
    destruct (decide (first + Z.of_nat i = sn)); [right; lia | by left]. }
  destruct (decide (first <= sn)) as [Hle|Hle]; cycle 1.
  { apply advances_stop; [done|]. intros HR i q Hi _. apply Hrest; [done..|].
    destruct (Hne i q Hi) as [|[? _]]; [done | lia]. }
  destruct (get_ops s !! Z.to_nat (sn - first)) as [o|] eqn:Ho; cycle 1.
  { apply advances_stop; [done|]. intros HR i q Hi _. apply Hrest; [done..|].
    destruct (Hne i q Hi) as [|[_ ->]]; [done | congruence]. }
  assert (op_seq o = sn) as Hosn by (rewrite (Hnum _ _ Ho); lia).
  destruct (Nat.eqb_spec (op_state o) FINISHED) as [Hf|Hf].
  { apply advances_stop; [done|]. intros HR i q Hi _.
    destruct (Hne i q Hi) as [Hx|[_ ->]]; [by apply Hrest|]. rewrite Ho in Hi. injection Hi as <-.
    by apply finished_at_rest. }
  destruct (advance_one first s _ o Hq Ho) as (o' & evs & k & Hos).
  { intros HR j q Hj Hjq. apply Hrest; [done..|]. destruct (Hne j q Hjq) as [|[_ ->]]; [done | lia]. }
  rewrite (os_run _ _ _ _ _ _ _ Hos), bind_done.
  pose proof (rest_after _ _ _ _ _ _ _ _ Hq Ho Hos Hrest) as Hrest'.
  pose proof (os_pop _ _ _ _ _ _ _ Hos) as Hpop. pose proof (lookup_lt_Some _ _ _ Ho) as Hlt.
  destruct (Nat.eqb_spec (op_state o') (op_state o)) as [He|He]; cbn [negb].
  - assert (Done (put_ops (drop k (<[Z.to_nat (sn - first):=o']> (get_ops s))) s, evs) =
            (r' ← (fun s => Done (s, [])) (put_ops (drop k (<[Z.to_nat (sn - first):=o']> (get_ops s))) s);
             Done (r'.1, evs ++ r'.2))) as -> by (by rewrite bind_done, app_nil_r).
    apply (advances_more _ _ _ _ _ _ _ (fun s => Done (s, [])) _ Ho Hos). apply advances_stop; rewrite get_put_ops; [apply Hos|].
    intros HR j q Hjq _. apply (Hrest' HR j q Hjq). split; [|done].
    destruct (decide (op_seq q = op_seq o)); [by right | left; congruence].
  - apply (advances_more _ _ _ _ _ _ _ (advance_loop (table rows) fuel (sn + 1)) _ Ho Hos). apply IH; rewrite get_put_ops.
    + apply Hos.
    + intros HR j q Hjq Hq'. apply (Hrest' HR j q Hjq). split; [|intros _ _; by rewrite Hosn].
      destruct (decide (op_seq q = op_seq o)); [by right | left; congruence].
    + rewrite length_drop, length_insert. destruct Hpop as [->|(_ & _ & ? & _)]; lia.
    + rewrite length_drop, length_insert. destruct Hpop as [->|(_ & _ & ? & _)]; lia.
Qed.

(** The loop over all operations goes by sequence number: it misses those
    behind an operation that was finished already, if the ones before that are
    removed meanwhile.  [no_skip] excludes it. *)
Definition stays (o : Op) : Prop :=
  forall o' evs, step_op rows FINISHED o = Done (o', evs) -> op_state o' <> FINISHED.

Definition no_skip (first : Z) (l : list Op) (sn : Z) : Prop :=
  (first = sn /\ Forall (fun o => op_state o <> FINISHED) l) \/
  (first <= sn /\ exists o, l !! 0%nat = Some o /\ op_at_rest o FINISHED) \/
  (first = sn /\ exists o, l !! 0%nat = Some o /\ stays o).

Lemma no_skip_step first s i o o' evs k sn :
  queue_ok first (get_ops s) -> get_ops s !! i = Some o -> one_step first s i o o' evs k ->
  op_seq o = sn -> no_skip first (get_ops s) sn ->
  no_skip (first + Z.of_nat k) (drop k (<[i := o']> (get_ops s))) (sn + 1).
Proof.
  intros [(_ & _ & Hnum) Hg Hset _] Ho Hos Hsn Hskip. pose proof (Hnum _ _ Ho) as Hseq.
  pose proof (os_pop _ _ _ _ _ _ _ Hos) as Hpop. destruct Hskip as [[<- Hunf]|[[Hle (q & Hq & Hqr)]|[<- (q & Hq & Hqs)]]].
  - assert (i = 0%nat) as -> by lia. destruct (get_ops s) as [|q l] eqn:Hl; [done|].
    simpl in Ho. injection Ho as ->. simpl in Hpop. apply Forall_cons in Hunf as [_ Hunf].
    destruct Hpop as [->|(_ & Hf & Hk & Hfin)].
    + right. left. split; [lia|]. exists o'. split; [done|]. pose proof (os_post _ _ _ _ _ _ _ Hos) as Hp. apply Hp.
    + left. assert (k = 1%nat) as ->; [|split; [lia|by rewrite drop_0 || done]].
      destruct k as [|[|k]]; [lia | done | exfalso]. simpl in Hfin, Hk. destruct l as [|q l]; [simpl in Hk; lia|].
      simpl in Hfin. rewrite !Forall_cons in Hfin. destruct Hfin as (_ & Hx & _).
      apply Forall_cons in Hunf as [Hy _]. done.
  - assert (k = 0%nat /\ (i = 0%nat -> o' = q)) as [-> Hiq].
    { destruct (decide (i = 0%nat)) as [->|Hi].
      - rewrite Hq in Ho. injection Ho as <-.
        assert (o' = q) as ->.
        { pose proof (os_step _ _ _ _ _ _ _ Hos) as Hr. cbn [prev_state] in Hr.
          rewrite (step_at_rest _ _ Hqr) in Hr. by apply done_inj in Hr as [= -> _]. }
        split; [|done]. destruct Hpop as [->|(_ & Hf & _)]; [done|]. exfalso.
        destruct (get_ops s) as [|x l]; [done|]. simpl in Hq. injection Hq as ->. done.
      - split; [|done]. destruct Hpop as [->|(-> & _)]; done. }
    right. left. split; [lia|]. exists q. split; [|done]. rewrite drop_0.
    destruct (decide (i = 0%nat)) as [->|Hi].
    + rewrite list_lookup_insert_eq by (by eapply lookup_lt_Some). by rewrite Hiq.
    + by rewrite list_lookup_insert_ne by done.
  - assert (i = 0%nat) as -> by lia. rewrite Hq in Ho. injection Ho as ->.
    pose proof (os_step _ _ _ _ _ _ _ Hos) as Hst. cbn [prev_state] in Hst.
    destruct Hpop as [->|(_ & Hf & _)]; [|by destruct (Hqs _ _ Hst)].
    right. left. split; [lia|]. exists o'. rewrite drop_0. split.
    + apply list_lookup_insert_eq. by eapply lookup_lt_Some.
    + pose proof (sp_rest _ _ _ _ (os_post _ _ _ _ _ _ _ Hos)) as Hrest. exact Hrest.
Qed.

Lemma advances_mono first s m (P P' : list Op -> Prop) :
  advances first s m P -> (forall l, P l -> P' l) -> advances first s m P'.
Proof. intros (l & evs & f & ? & ? & ? & ? & HP) Himp. exists l, evs, f. eauto 10. Qed.

Lemma advance_all_loop_local fuel : forall first s sn,
  queue_ok first (get_ops s) -> at_rest_on (fun n => n < sn) (get_ops s) ->
  0 <= sn <= first + Z.of_nat (length (get_ops s : list Op)) ->
  (Z.to_nat (first + Z.of_nat (length (get_ops s : list Op)) - sn) < fuel)%nat ->
  advances first s (advance_all_loop (table rows) fuel sn s)
    (fun l => no_skip first (get_ops s) sn -> all_at_rest l).
Proof.
  induction fuel as [|fuel IH]; intros first s sn Hq Hrest Hsn Hfuel; [lia|]. cbn [advance_all_loop].
  pose proof Hq as [(Hb1 & Hb2 & Hnum) Hg Hset _]. rewrite (find_at first) by (done || lia). rewrite bind_done.
  destruct (decide (first <= sn)) as [Hle|Hle]; cycle 1.
  { apply advances_stop; [done|]. intros [[? _]|[[? _]|[? _]]]; lia. }
  destruct (get_ops s !! Z.to_nat (sn - first)) as [o|] eqn:Ho; cycle 1.
  { apply advances_stop; [done|]. intros _ HR i q Hi _. apply Hrest; [done..|]. rewrite (Hnum _ _ Hi).
    apply lookup_ge_None in Ho. apply lookup_lt_Some in Hi. lia. }
  assert (op_seq o = sn) as Hosn by (rewrite (Hnum _ _ Ho); lia).
  destruct (advance_one first s _ o Hq Ho) as (o' & evs & k & Hos).
  { intros HR j q Hj Hjq. apply Hrest; [done..|]. rewrite (Hnum _ _ Hjq). lia. }
  rewrite (os_run _ _ _ _ _ _ _ Hos), bind_done.
  pose proof (rest_after _ _ _ _ _ _ _ _ Hq Ho Hos Hrest) as Hrest'.
  pose proof (os_pop _ _ _ _ _ _ _ Hos) as Hpop. pose proof (lookup_lt_Some _ _ _ Ho) as Hlt.
  apply (advances_more _ _ _ _ _ _ _ (advance_all_loop (table rows) fuel (sn + 1)) _ Ho Hos).
  eapply advances_mono.
  - apply IH; rewrite get_put_ops.
    + apply Hos.
    + intros HR j q Hjq Hq'. apply (Hrest' HR j q Hjq). split; [|intros _ _; lia].
      destruct (decide (op_seq q = op_seq o)); [by right | left; lia].
    + rewrite length_drop, length_insert. destruct Hpop as [->|(_ & _ & ? & _)]; lia.
    + rewrite length_drop, length_insert. destruct Hpop as [->|(_ & _ & ? & _)]; lia.
  - intros l Hl Hskip. apply Hl. rewrite get_put_ops. by eapply no_skip_step.
Qed.

Lemma advanceOperation_local first i o s :
  queue_ok first (get_ops s) -> get_ops s !! i = Some o ->
  at_rest_on (fun n => n <> op_seq o) (get_ops s) ->
  advances first s (advanceOperation (table rows) (op_seq o) s) all_at_rest.
Proof.
  intros Hq Hi Hr. pose proof (qo_numbered _ _ Hq) as Hn. pose proof Hn as (H1 & H2 & H3).
  unfold advanceOperation. rewrite (deref_at _ _ _ _ Hn Hi), bind_done.
  pose proof (lookup_lt_Some _ _ _ Hi). pose proof (H3 _ _ Hi) as Hs.
  rewrite s64_small by lia. apply advance_loop_local; [done | done | lia | lia].
Qed.

Lemma advanceAll_local first s :
  queue_ok first (get_ops s) ->
  advances first s (advanceAllOperations (table rows) s)
    (fun l => no_skip first (get_ops s) first -> all_at_rest l).
Proof.
  intros Hq. pose proof (qo_numbered _ _ Hq) as (H1 & H2 & H3).
  unfold advanceAllOperations. destruct (get_ops s) as [|o l] eqn:Hl.
  - rewrite <- Hl in *. apply advances_stop; [done|]. intros _ _. rewrite Hl. by intros [] ?.
  - rewrite <- Hl in *. assert (op_seq o = first) as Ho by (rewrite (H3 0%nat o); [lia | by rewrite Hl]).
    rewrite Ho, s64_small by lia. apply advance_all_loop_local; [done | | lia | lia].
    intros _ i q Hi Hlt. rewrite (H3 _ _ Hi) in Hlt. lia.
Qed.

(** ** New operations, and callbacks that change one *)

Lemma at_rest_weaken (P P' : Z -> Prop) l : at_rest_on P l -> (forall n, P' n -> P n) -> at_rest_on P' l.
Proof. intros Hr HP HR i o Hi Ho. by apply Hr, HP. Qed.

Lemma queue_snoc first l o :
  queue_ok first l -> all_at_rest l -> good o -> (op_state o < started)%nat ->
  op_seq o = first + Z.of_nat (length l) -> first + Z.of_nat (length l) + 1 < 2 ^ 63 ->
  queue_ok first (l ++ [o]) /\ at_rest_on (fun n => n <> op_seq o) (l ++ [o]).
Proof.
  intros [Hn Hg Hs Hc] Hr Ho Hst Hseq Hb. pose proof (lo_level Hok) as Hlv. split; [split|].
  - by apply numbered_snoc.
  - apply Forall_app. by repeat constructor.
  - destruct l; [simpl; lia | done].
  - intros Hf i q Hi Hq. apply lookup_app_Some in Hi as [Hi|[Hle Hi]].
    + specialize (Hc Hf i q Hi Hq). destruct i as [|i]; [done|]. simpl in *. apply lookup_lt_Some in Hi. by rewrite lookup_app_l by lia.
    + apply list_lookup_singleton_Some in Hi as [_ <-]. lia.
  - intros HR i q Hi Hne. apply lookup_app_Some in Hi as [Hi|[Hle Hi]].
    + assert (prev_state i (l ++ [o]) = prev_state i l) as ->; [|by apply (Hr HR i)].
      destruct i as [|i]; [done|]. simpl. apply lookup_lt_Some in Hi. by rewrite lookup_app_l by lia.
    + apply list_lookup_singleton_Some in Hi as [_ <-]. done.
Qed.

Lemma queue_update first l i o o' :
  queue_ok first l -> all_at_rest l -> l !! i = Some o ->
  good o' -> op_seq o' = op_seq o -> op_state o' = op_state o ->
  queue_ok first (<[i := o']> l) /\ at_rest_on (fun n => n <> op_seq o) (<[i := o']> l).
Proof.
  intros [Hn Hg Hs Hc] Hr Hi Ho Hseq Hst. pose proof Hn as (_ & _ & Hnum).
  assert (forall j, prev_state j (<[i := o']> l) = prev_state j l) as Hprev.
  { intros [|j]; [done|]. simpl. destruct (decide (j = i)) as [->|Hji]; [|by rewrite list_lookup_insert_ne].
    rewrite list_lookup_insert_eq by (by eapply lookup_lt_Some). by rewrite Hi. }
  split; [split|].
  - by eapply numbered_insert.
  - by apply Forall_insert.
  - destruct l as [|q l]; [done|]. destruct i as [|i]; [|done]. simpl in *. injection Hi as ->. congruence.
  - intros Hf j q Hj Hq. rewrite Hprev. destruct (decide (j = i)) as [->|Hji].
    + rewrite list_lookup_insert_eq in Hj by (by eapply lookup_lt_Some). injection Hj as <-. rewrite Hst in Hq. by apply (Hc Hf i o).
    + rewrite list_lookup_insert_ne in Hj by done. by apply (Hc Hf j q).
  - intros HR j q Hj Hne. destruct (decide (j = i)) as [->|Hji].
    { rewrite list_lookup_insert_eq in Hj by (by eapply lookup_lt_Some). injection Hj as <-. congruence. }
    rewrite list_lookup_insert_ne in Hj by done.
    rewrite Hprev. by apply (Hr HR j).
Qed.

Lemma seq_unique first l i j o q :
  numbered first l -> l !! i = Some o -> l !! j = Some q -> op_seq o = op_seq q -> i = j /\ o = q.
Proof.
  intros (_ & _ & Hnum) Hi Hj He. rewrite (Hnum _ _ Hi), (Hnum _ _ Hj) in He.
  assert (i = j) as -> by lia. split; congruence.
Qed.

Lemma bind_insert {X} (f : Op -> list X) l i o o' x :
  l !! i = Some o -> f o ≡ₚ x ++ f o' -> (l ≫= f) ≡ₚ x ++ (<[i := o']> l ≫= f).
Proof.
  intros Hi Hf. destruct (split_at l i o Hi) as (l1 & l2 & -> & _ & ->).
  rewrite !bind_app, !bind_cons, Hf. solve_perm.
Qed.

Lemma bind_insert_eq {X} (f : Op -> list X) l i o o' :
  l !! i = Some o -> f o = f o' -> (l ≫= f) = (<[i := o']> l ≫= f).
Proof.
  intros Hi Hf. destruct (split_at l i o Hi) as (l1 & l2 & -> & _ & ->). by rewrite !bind_app, !bind_cons, Hf.
Qed.

(** The [n] operations of a queue so far, of which the first ones are gone. *)
Definition side_ok (n : Z) (l : list Op) : Prop :=
  exists first, queue_ok first l /\ first + Z.of_nat (length l) = n.

Lemma side_ok_nil : side_ok 0 [].
Proof. exists 0. split; [|done]. split; [by split | done | done | by intros _ ? ?]. Qed.

(** What happens to a queue when operations are [new], and callbacks [took]. *)
Record side_post (n : Z) (l l' : list Op) (evs : list Ev) (new : list A) (newst : list C) (took : list B) : Prop := {
  sd_side : side_ok n l';
  sd_owed : new ++ (l ≫= owed) ≡ₚ omap user evs ++ (l' ≫= owed);
  sd_pend : took ++ (l' ≫= pend) ≡ₚ omap reg evs ++ (l ≫= pend);
  sd_start : (l ≫= unstarted) ++ newst = omap start evs ++ (l' ≫= unstarted);
  sd_only : Forall only evs;
}.

(** A new operation is added and advanced. *)
Lemma emplace_side n s o (f : Op -> Op) :
  side_ok n (get_ops s) -> all_at_rest (get_ops s) -> good (f o) -> op_seq (f o) = op_seq o ->
  (op_state (f o) < started)%nat -> pend (f o) = [] -> op_seq o = n -> n + 1 < 2 ^ 63 ->
  exists l' evs,
    (s1 ← update_op (op_seq o) f (emplaceBack o s); advanceOperation (table rows) (op_seq o) s1) =
      Done (put_ops l' s, evs) /\
    all_at_rest l' /\ side_post (n + 1) (get_ops s) l' evs (owed (f o)) (unstarted (f o)) [].
Proof.
  intros (first & Hq & Hn') Hr Ho Hseq Hst Hp <- Hb.
  assert (get_ops (emplaceBack o s) = get_ops s ++ [o]) as Hg by apply get_put_ops.
  assert (numbered first (get_ops s ++ [o])) as Hn by (apply numbered_snoc; [apply Hq | lia..]).
  assert ((get_ops s ++ [o]) !! length (get_ops s) = Some o) as Hlast
    by (rewrite lookup_app_r, Nat.sub_diag by lia; done).
  rewrite (update_at first _ (length (get_ops s)) o) by (rewrite Hg; done). rewrite bind_done, Hg.
  replace (<[length (get_ops s):=f o]> (get_ops s ++ [o])) with (get_ops s ++ [f o])
    by (rewrite insert_app_r_alt by lia; by rewrite Nat.sub_diag).
  set (s1 := put_ops (get_ops s ++ [f o]) (emplaceBack o s)).
  assert (get_ops s1 = get_ops s ++ [f o]) as Hg1 by apply get_put_ops.
  destruct (queue_snoc first (get_ops s) (f o) Hq Hr Ho Hst) as [Hq1 Hr1]; [by rewrite Hseq | by rewrite Hn'|].
  destruct (advanceOperation_local first (length (get_ops s)) (f o) s1) as
    (l' & evs & first' & Hrun & Hq' & Hend' & [C1 C2 C3 C4] & Hr').
  - by rewrite Hg1.
  - rewrite Hg1, lookup_app_r, Nat.sub_diag by lia. done.
  - by rewrite Hg1.
  - rewrite Hseq in Hrun. exists l', evs. rewrite Hrun. unfold s1, emplaceBack.
    rewrite !put_put_ops. rewrite Hg1, length_app in Hend'. simpl in Hend'.
    rewrite Hg1, bind_app, bind_cons in C1. rewrite Hg1, bind_app, bind_cons in C2.
    rewrite Hg1, bind_app, bind_cons in C3. split_and!; try done. split; try done.
    + exists first'. split; [done | lia].
    + rewrite <- C1. simpl. solve_perm.
    + rewrite C2, Hp. solve_perm.
    + rewrite <- C3. simpl. by rewrite app_nil_r.
Qed.

(** A callback [b], which captured [it], changes its operation by [f] and
    advances it. *)
Lemma deliver_side n s it (f : Op -> Op) (b : B) :
  side_ok n (get_ops s) -> all_at_rest (get_ops s) -> b ∈ (get_ops s ≫= pend) ->
  (forall o, good o -> b ∈ pend o -> op_seq o = it /\ good (f o) /\ op_seq (f o) = op_seq o /\
     op_state (f o) = op_state o /\ owed (f o) = owed o /\ unstarted (f o) = unstarted o /\
     pend o ≡ₚ b :: pend (f o)) ->
  exists l' evs,
    (s1 ← update_op it f s; advanceOperation (table rows) it s1) = Done (put_ops l' s, evs) /\
    all_at_rest l' /\ side_post n (get_ops s) l' evs [] [] [b].
Proof.
  intros (first & Hq & Hn') Hr Hb Hf. apply list_elem_of_bind in Hb as (o & Hb & Hin).
  apply list_elem_of_lookup in Hin as [i Hi].
  destruct (Hf o) as (<- & Ho & Hseq & Hst & How & Hun & Hp); [|done|].
  { by eapply (proj1 (Forall_lookup _ _) (qo_good _ _ Hq)). }
  rewrite (update_at first _ i o) by (apply Hq || done). rewrite bind_done.
  set (s1 := put_ops (<[i:=f o]> (get_ops s)) s).
  assert (get_ops s1 = <[i:=f o]> (get_ops s)) as Hg1 by apply get_put_ops.
  destruct (queue_update first (get_ops s) i o (f o) Hq Hr Hi Ho Hseq Hst) as [Hq1 Hr1].
  destruct (advanceOperation_local first i (f o) s1) as
    (l' & evs & first' & Hrun & Hq' & Hend' & [C1 C2 C3 C4] & Hr').
  - by rewrite Hg1.
  - rewrite Hg1. apply list_lookup_insert_eq. by eapply lookup_lt_Some.
  - by rewrite Hg1, Hseq.
  - rewrite Hseq in Hrun. exists l', evs. rewrite Hrun. unfold s1. rewrite put_put_ops.
    rewrite Hg1, length_insert in Hend'. rewrite Hg1 in C1. rewrite Hg1 in C2. rewrite Hg1 in C3.
    split_and!; try done. split; try done.
    + exists first'. split; [done | lia].
    + rewrite <- C1. by rewrite <- (bind_insert_eq owed _ i o).
    + rewrite C2, (bind_insert pend _ i o (f o) [b] Hi Hp). solve_perm.
    + rewrite app_nil_r, <- C3. by rewrite <- (bind_insert_eq unstarted _ i o).
Qed.

(** All operations are advanced. *)
Lemma advanceAll_side n s :
  side_ok n (get_ops s) ->
  exists l' evs,
    advanceAllOperations (table rows) s = Done (put_ops l' s, evs) /\
    ((match get_ops s with
      | o :: _ => op_at_rest o FINISHED \/ Forall (fun o => op_state o <> FINISHED) (get_ops s) \/ stays o
      | [] => True
      end) -> all_at_rest l') /\
    side_post n (get_ops s) l' evs [] [] [].
Proof.
  intros (first & Hq & Hn'). destruct (advanceAll_local first s Hq) as (l' & evs & first' & Hrun & Hq' & Hend' & [C1 C2 C3 C4] & Hr').
  exists l', evs. split_and!; [done | |split; try done].
  - intros Hs. apply Hr'. destruct (get_ops s) as [|o l] eqn:Hl.
    + left. split; [done | constructor].
    + destruct Hs as [Hs|[Hs|Hs]]; [right; left | by left | right; right]; (split; [lia|]); by exists o.
  - exists first'. split; [done | lia].
  - by rewrite app_nil_r.
Qed.
End Spec.
End Local.

(** ** Automation

    [local_step good] proves what a step of an operation promises, on a
    concrete state and under known conditions; [good] proves that the new
    operation is a good one. *)

Lemma is_Some_iff {A} (o : option A) (P : Prop) : is_Some o <-> P -> (exists a, o = Some a /\ P) \/ (o = None /\ ~ P).
Proof. destruct o as [a|]; intros [H1 H2]; [left; eauto | right; split; [done|]]. intros HP. by destruct (H2 HP). Qed.

Ltac use_bools := simpl; repeat match goal with H : _ = _ :> bool |- _ => progress rewrite H end.
Ltac rest_tac := unfold op_at_rest; repeat (apply Forall_cons; split); [..|by apply Forall_nil]; use_bools; done.
Ltac chain_tac := use_bools; intros Hx; first [discriminate Hx | by destruct (flow_if_chained _ Hx) | lia].
Ltac local_step good :=
  eexists _, _; split; [reflexivity|]; split;
  [ good | simpl; lia | simpl; intros Hx; first [discriminate Hx | by split] | rest_tac
  | reflexivity | reflexivity | use_bools; first [by left | right; split_and!; first [done | lia]]
  | chain_tac | repeat constructor ].
