(* ===== verification/Messages.v ===== *)
(** * Messages, descriptors and allocations

    Models [core/message.h], the operations of [core/pipe_impl.h] and the helpers
    at the top of [core/pipe_impl.cc] that turn a message into a descriptor, an
    allocation into a descriptor reply, and a reply back into target devices. *)

From S2P Require Import Prelude.

Record Device := mkDevice { dev_type : string; dev_index : Z }.
#[export] Instance Device_eq_dec : EqDecision Device.
Proof. solve_decision. Defined.
#[export] Instance Device_countable : Countable Device.
Proof.
  refine (inj_countable' (fun d => (dev_type d, dev_index d)) (fun p => mkDevice p.1 p.2) _).
  by intros [].
Defined.

(** A tensor buffer: the memory it stands for and the device that has it. *)
Record TensorBuffer := mkTensorBuffer { tb_device : Device; tb_ptr : Z }.

Record MsgPayload := mkMsgPayload { mp_data : Z; mp_length : Z; mp_metadata : string }.
Record MsgTensor := mkMsgTensor {
  mt_buffer : TensorBuffer; mt_length : Z; mt_targetDevice : option Device; mt_metadata : string;
}.
Record Message := mkMessage {
  m_metadata : string; m_payloads : list MsgPayload; m_tensors : list MsgTensor;
}.

Record DescPayload := mkDescPayload { dp_length : Z; dp_metadata : string }.
Record DescTensor := mkDescTensor {
  dt_length : Z; dt_sourceDevice : Device; dt_targetDevice : option Device; dt_metadata : string;
}.
Record Descriptor := mkDescriptor {
  d_metadata : string; d_payloads : list DescPayload; d_tensors : list DescTensor;
}.

Record Allocation := mkAllocation {
  a_payloads : list Z;               (* where to put each payload *)
  a_tensors : list TensorBuffer;
}.

Record DescriptorReply := mkDescriptorReply { r_targetDevices : list Device }.

(** A callback of the user, wrapped with the sequence number of its call. *)
Record callback := mkCallback { cb_seq : Z; cb_fn : nat }.

Module ReadOperation.
Definition UNINITIALIZED : nat := 0.
Definition READING_DESCRIPTOR : nat := 1.
Definition ASKING_FOR_ALLOCATION : nat := 2.
Definition ASKING_FOR_ALLOCATION_FIRST_IN_LINE : nat := 3.
Definition READING_PAYLOADS_AND_RECEIVING_TENSORS : nat := 4.
Definition FINISHED : nat := 5.
End ReadOperation.

Record ReadOperation := mkReadOperation {
  ro_sequenceNumber : Z;
  ro_state : nat;
  ro_doneReadingDescriptor : bool;
  ro_doneGettingAllocation : bool;
  ro_numPayloadsBeingRead : Z;
  ro_numTensorsBeingReceived : Z;
  ro_readDescriptorCallback : option callback;
  ro_readCallback : option callback;
  ro_hasMissingTargetDevices : bool;
  ro_descriptor : Descriptor;
  ro_allocation : Allocation;
}.
#[export] Instance eta_ReadOperation : Eta ReadOperation := fun o =>
  mkReadOperation (ro_sequenceNumber o) (ro_state o) (ro_doneReadingDescriptor o)
    (ro_doneGettingAllocation o) (ro_numPayloadsBeingRead o) (ro_numTensorsBeingReceived o)
    (ro_readDescriptorCallback o) (ro_readCallback o) (ro_hasMissingTargetDevices o)
    (ro_descriptor o) (ro_allocation o).

Definition emptyDescriptor : Descriptor := mkDescriptor EmptyString [] [].
Definition emptyAllocation : Allocation := mkAllocation [] [].

Definition newReadOperation (sequenceNumber : Z) : ReadOperation :=
  mkReadOperation sequenceNumber ReadOperation.UNINITIALIZED false false 0 0 None None false
    emptyDescriptor emptyAllocation.

Module WriteOperation.
Definition UNINITIALIZED : nat := 0.
Definition WRITING_PAYLOADS_AND_READING_TARGET_DEVICES : nat := 1.
Definition WRITING_PAYLOADS_AND_SENDING_TENSORS : nat := 2.
Definition FINISHED : nat := 3.
End WriteOperation.

Record WriteTensor := mkWriteTensor { wt_sourceDevice : Device; wt_targetDevice : option Device }.

Record WriteOperation := mkWriteOperation {
  wo_sequenceNumber : Z;
  wo_state : nat;
  wo_doneReadingDescriptorReply : bool;
  wo_numPayloadsBeingWritten : Z;
  wo_numTensorsBeingSent : Z;
  wo_writeCallback : option callback;
  wo_hasMissingTargetDevices : bool;
  wo_message : Message;
  wo_tensors : list WriteTensor;
}.
#[export] Instance eta_WriteOperation : Eta WriteOperation := fun o =>
  mkWriteOperation (wo_sequenceNumber o) (wo_state o) (wo_doneReadingDescriptorReply o)
    (wo_numPayloadsBeingWritten o) (wo_numTensorsBeingSent o) (wo_writeCallback o)
    (wo_hasMissingTargetDevices o) (wo_message o) (wo_tensors o).

Definition newWriteOperation (sequenceNumber : Z) : WriteOperation :=
  mkWriteOperation sequenceNumber WriteOperation.UNINITIALIZED false 0 0 None false
    (mkMessage EmptyString [] []) [].

(** ** The helpers *)

(** The loop over the tensors; [idx] is [targetDeviceIdx]. *)
Fixpoint parse_targets (tensors : list MsgTensor) (sent : list WriteTensor) (idx : nat)
    (targetDevices : list Device) : outcome (nat * list WriteTensor) :=
  match tensors, sent with
  | [], _ => Done (idx, sent)
  | _ :: _, [] => Throw ExDangling
  | tensor :: tensors, w :: sent =>
      match mt_targetDevice tensor with
      | Some _ =>
          r ← parse_targets tensors sent idx targetDevices;
          Done (r.1, w :: r.2)
      | None =>
          match targetDevices !! idx with
          | None => Throw ExDangling
          | Some d =>
              r ← parse_targets tensors sent (S idx) targetDevices;
              Done (r.1, mkWriteTensor (wt_sourceDevice w) (Some d) :: r.2)
          end
      end
  end.

Definition parseDescriptorReplyOfMessage (op : WriteOperation) (nopDescriptorReply : DescriptorReply)
    : outcome WriteOperation :=
  r ← parse_targets (m_tensors (wo_message op)) (wo_tensors op) 0 (r_targetDevices nopDescriptorReply);
  _ ← tp_check (r.1 =? length (r_targetDevices nopDescriptorReply))%nat;
  Done (op <| wo_tensors := r.2 |>).

Fixpoint check_tensors (tensors : list TensorBuffer) (descs : list DescTensor) : outcome unit :=
  match tensors, descs with
  | tensor :: tensors, tensorDescriptor :: descs =>
      _ ← match dt_targetDevice tensorDescriptor with
          | Some d => tp_check (bool_decide (tb_device tensor = d))
          | None => Done tt
          end;
      check_tensors tensors descs
  | _, _ => Done tt
  end.

Definition checkAllocationCompatibility (descriptor : Descriptor) (allocation : Allocation)
    : outcome unit :=
  _ ← tp_check (length (a_payloads allocation) =? length (d_payloads descriptor))%nat;
  _ ← tp_check (length (a_tensors allocation) =? length (d_tensors descriptor))%nat;
  check_tensors (a_tensors allocation) (d_tensors descriptor).

Definition payload_descriptor (p : MsgPayload) : DescPayload :=
  mkDescPayload (mp_length p) (mp_metadata p).
Definition tensor_descriptor (t : MsgTensor) : DescTensor :=
  mkDescTensor (mt_length t) (tb_device (mt_buffer t)) (mt_targetDevice t) (mt_metadata t).
Definition descriptor_of (m : Message) : Descriptor :=
  mkDescriptor (m_metadata m) (payload_descriptor <$> m_payloads m) (tensor_descriptor <$> m_tensors m).

Definition makeDescriptorForMessage (op : WriteOperation) : outcome Descriptor :=
  _ ← tp_check (length (m_tensors (wo_message op)) =? length (wo_tensors op))%nat;
  Done (descriptor_of (wo_message op)).

Fixpoint reply_devices (descs : list DescTensor) (tensors : list TensorBuffer) : outcome (list Device) :=
  match descs, tensors with
  | [], _ => Done []
  | d :: descs, t :: tensors =>
      r ← reply_devices descs tensors;
      Done (match dt_targetDevice d with Some _ => r | None => tb_device t :: r end)
  | d :: descs, [] =>
      (* the allocation is only accessed for tensors without a target *)
      match dt_targetDevice d with Some _ => reply_devices descs [] | None => Throw ExDangling end
  end.

Definition makeDescriptorReplyForMessage (op : ReadOperation) : outcome DescriptorReply :=
  r ← reply_devices (d_tensors (ro_descriptor op)) (a_tensors (ro_allocation op));
  Done (mkDescriptorReply r).

(** The part of [writeFromLoop] that fills in the tensors of the operation. *)
Definition write_tensor (t : MsgTensor) : WriteTensor :=
  mkWriteTensor (tb_device (mt_buffer t)) (mt_targetDevice t).

Definition missing_target {A} (target : A -> option Device) (l : list A) : bool :=
  existsb (fun t => match target t with None => true | Some _ => false end) l.

(** ** The round trip of the target devices *)

Lemma check_tensors_spec tensors : forall descs,
  length tensors = length descs -> check_tensors tensors descs = Done tt ->
  Forall2 (fun t d => forall dev, dt_targetDevice d = Some dev -> tb_device t = dev) tensors descs.
Proof.
  induction tensors as [|t tensors IH]; intros [|d descs] Hl Hc; try done.
  simpl in Hc. inv_bind Hc. constructor; [|apply IH; [simpl in Hl; lia | done]].
  intros dev Hd. rewrite Hd in Ha. apply tp_check_done in Ha. by bool_hyps.
Qed.

Lemma checkAllocationCompatibility_spec d a :
  checkAllocationCompatibility d a = Done tt ->
  length (a_payloads a) = length (d_payloads d) /\
  length (a_tensors a) = length (d_tensors d) /\
  Forall2 (fun t d => forall dev, dt_targetDevice d = Some dev -> tb_device t = dev)
    (a_tensors a) (d_tensors d).
Proof.
  unfold checkAllocationCompatibility. intros Hc. inv_bind Hc. inv_bind Hc.
  apply tp_check_done, Nat.eqb_eq in Ha0, Ha1. split_and!; [done..|]. by apply check_tensors_spec.
Qed.

Lemma reply_devices_done descs : forall tensors,
  length tensors = length descs -> exists r, reply_devices descs tensors = Done r.
Proof.
  induction descs as [|d descs IH]; intros [|t tensors] Hl; try done; [by eexists|].
  simpl. destruct (IH tensors) as [r ->]; [simpl in Hl; lia|]. rewrite bind_done. by eexists.
Qed.

Lemma parse_targets_reply tensors : forall allocated pre r,
  Forall2 (fun t d => forall dev, dt_targetDevice d = Some dev -> tb_device t = dev)
    allocated (tensor_descriptor <$> tensors) ->
  reply_devices (tensor_descriptor <$> tensors) allocated = Done r ->
  parse_targets tensors (write_tensor <$> tensors) (length pre) (pre ++ r) =
    Done (length (pre ++ r),
          zip_with (fun t a => mkWriteTensor (tb_device (mt_buffer t)) (Some (tb_device a)))
            tensors allocated).
Proof.
  induction tensors as [|t tensors IH]; intros allocated pre r Hf Hr.
  - apply Forall2_nil_inv_r in Hf as ->. apply done_inj in Hr as <-. by rewrite app_nil_r.
  - apply Forall2_cons_inv_r in Hf as (a & allocated' & Ha & Hf & ->).
    rewrite fmap_cons in *. simpl in Hr. inv_bind Hr. apply done_inj in Hr as <-.
    simpl. simpl in Ha. destruct (mt_targetDevice t) as [dev|] eqn:Ht.
    + rewrite (IH _ _ _ Hf Ha0), bind_done. unfold write_tensor. rewrite Ht, (Ha dev eq_refl). done.
    + rewrite list_lookup_middle by done.
      replace (S (length pre)) with (length (pre ++ [tb_device a])) by (rewrite length_app; simpl; lia).
      replace (pre ++ tb_device a :: a0) with ((pre ++ [tb_device a]) ++ a0) by (by rewrite <- app_assoc).
      by rewrite (IH _ _ _ Hf Ha0), bind_done.
Qed.

(** The target devices make the round trip.  If a receiver accepts an
    allocation for the descriptor of a message, then the descriptor reply it
    makes from that allocation is exactly what the sender needs: parsing it
    gives every tensor of the message the device of its allocated buffer,
    whether the sender or the receiver chose that device. *)
Lemma descriptor_reply_roundtrip (m : Message) (w : WriteOperation) (r : ReadOperation) (d : Descriptor) :
  wo_message w = m -> wo_tensors w = (write_tensor <$> m_tensors m) ->
  makeDescriptorForMessage w = Done d ->
  ro_descriptor r = d -> checkAllocationCompatibility d (ro_allocation r) = Done tt ->
  exists reply w', makeDescriptorReplyForMessage r = Done reply /\
    parseDescriptorReplyOfMessage w reply = Done w' /\
    wt_targetDevice <$> wo_tensors w' = Some ∘ tb_device <$> a_tensors (ro_allocation r) /\
    wt_sourceDevice <$> wo_tensors w' = dt_sourceDevice <$> d_tensors d.
Proof.
  intros Hm Hw Hd Hr Hc. apply checkAllocationCompatibility_spec in Hc as (_ & Hlen & Hf).
  unfold makeDescriptorForMessage in Hd. inv_bind Hd. apply done_inj in Hd as <-. rewrite Hm in *.
  unfold makeDescriptorReplyForMessage, parseDescriptorReplyOfMessage. rewrite Hr.
  destruct (reply_devices_done _ _ Hlen) as [l Hl]. rewrite Hl, bind_done.
  exists (mkDescriptorReply l). eexists. split; [done|]. rewrite Hm, Hw. simpl in *.
  pose proof (parse_targets_reply (m_tensors m) (a_tensors (ro_allocation r)) [] l Hf Hl) as Hp.
  simpl in Hp. rewrite Hp, bind_done. cbn [fst snd]. rewrite tp_check_bind by apply Nat.eqb_refl.
  split; [done|]. simpl. rewrite length_fmap in Hlen. clear -Hlen. revert Hlen.
  generalize (a_tensors (ro_allocation r)) as al. generalize (m_tensors m) as ts.
  induction ts as [|t ts IH]; intros [|a al] Hlen; try done. simpl in Hlen.
  destruct (IH al) as [H1 H2]; [lia|]. rewrite fmap_cons. cbn [zip_with]. rewrite !fmap_cons, H1, H2. done.
Qed.

Lemma descriptor_reply_roundtrip_witness :
  let cpu := mkDevice "cpu" 0 in
  let gpu := mkDevice "cuda" 1 in
  let m := mkMessage "" [] [mkMsgTensor (mkTensorBuffer cpu 0) 8 None ""; mkMsgTensor (mkTensorBuffer cpu 1) 4 (Some cpu) ""] in
  let w := newWriteOperation 0 <| wo_message := m |> <| wo_tensors := write_tensor <$> m_tensors m |> in
  let r := newReadOperation 0 <| ro_descriptor := descriptor_of m |>
             <| ro_allocation := mkAllocation [] [mkTensorBuffer gpu 5; mkTensorBuffer cpu 6] |> in
  exists reply w', makeDescriptorReplyForMessage r = Done reply /\
    parseDescriptorReplyOfMessage w reply = Done w' /\
    wt_targetDevice <$> wo_tensors w' = [Some gpu; Some cpu].
Proof.
  intros cpu gpu m w r.
  destruct (descriptor_reply_roundtrip m w r (descriptor_of m) eq_refl eq_refl eq_refl eq_refl)
    as (reply & w' & H1 & H2 & H3 & _); [vm_compute; reflexivity|].
  exists reply, w'. split; [exact H1|]. split; [exact H2|]. exact H3.
Defined.
