(* ===== verification/Select.v ===== *)
(** * Choosing the transport and the channels of a pipe

    Models [selectTransport] and [selectChannels] of [core/pipe_impl.cc].  A
    context is reduced to what they ask of it: its descriptors and its
    [canCommunicateWithRemote] (virtual methods, hence fields of a record).
    [unordered_map]s are [gmap]s; the loops over them visit [map_to_list]. *)

From S2P Require Import Prelude Messages.

Record TransportContext := mkTransportContext {
  tc_domainDescriptor : string;
  tc_canCommunicateWithRemote : string -> bool;
}.
Record ChannelContext := mkChannelContext {
  cc_deviceDescriptors : gmap Device string;
  cc_canCommunicateWithRemote : string -> string -> bool;
  cc_numConnectionsNeeded : nat;
}.

(** The ordered maps, highest priority first. *)
Definition TOrderedTransports : Type := list (string * TransportContext).
Definition TOrderedChannels : Type := list (string * ChannelContext).

Record SelectedTransport := mkSelectedTransport {
  st_name : string; st_address : string; st_domainDescriptor : string;
}.

Definition no_viable_transport : exn := ExAssertMsg "Could not find a viable transport".

Fixpoint selectTransport (orderedTransports : TOrderedTransports)
    (remoteDomainDescriptors addresses : gmap string string) : outcome SelectedTransport :=
  match orderedTransports with
  | [] => Throw no_viable_transport
  | (transportName, transportContext) :: rest =>
      match addresses !! transportName with
      | None => selectTransport rest remoteDomainDescriptors addresses
      | Some address =>
          match remoteDomainDescriptors !! transportName with
          | None => selectTransport rest remoteDomainDescriptors addresses
          | Some remoteDomainDescriptor =>
              if tc_canCommunicateWithRemote transportContext remoteDomainDescriptor
              then Done (mkSelectedTransport transportName address (tc_domainDescriptor transportContext))
              else selectTransport rest remoteDomainDescriptors addresses
          end
      end
  end.

Record SelectedChannels := mkSelectedChannels {
  sc_descriptorsMap : gmap string (gmap Device string);
  sc_channelForDevicePair : gmap (Device * Device) string;
}.

(** The body of the two inner loops. *)
Definition select_pair (channelName : string) (channelContext : ChannelContext)
    (localDesc remoteDesc : Device * string) (acc : bool * gmap (Device * Device) string)
    : bool * gmap (Device * Device) string :=
  if negb (cc_canCommunicateWithRemote channelContext localDesc.2 remoteDesc.2) then acc
  else
    match acc.2 !! (localDesc.1, remoteDesc.1) with
    | Some _ => acc
    | None => (true, <[(localDesc.1, remoteDesc.1) := channelName]> acc.2)
    end.

Definition select_channel (channelName : string) (channelContext : ChannelContext)
    (remoteDeviceDescriptors : gmap Device string) (result : SelectedChannels) : SelectedChannels :=
  let acc :=
    foldl (fun acc localDesc =>
      foldl (fun acc remoteDesc => select_pair channelName channelContext localDesc remoteDesc acc)
        acc (map_to_list remoteDeviceDescriptors))
      (false, sc_channelForDevicePair result) (map_to_list (cc_deviceDescriptors channelContext)) in
  mkSelectedChannels
    (if acc.1 then <[channelName := cc_deviceDescriptors channelContext]> (sc_descriptorsMap result)
     else sc_descriptorsMap result)
    acc.2.

Fixpoint select_channels_loop (orderedChannels : TOrderedChannels)
    (remoteDescriptorsMap : gmap string (gmap Device string)) (result : SelectedChannels)
    : SelectedChannels :=
  match orderedChannels with
  | [] => result
  | (channelName, channelContext) :: rest =>
      match remoteDescriptorsMap !! channelName with
      | None => select_channels_loop rest remoteDescriptorsMap result
      | Some remoteDeviceDescriptors =>
          select_channels_loop rest remoteDescriptorsMap
            (select_channel channelName channelContext remoteDeviceDescriptors result)
      end
  end.

Definition selectChannels (orderedChannels : TOrderedChannels)
    (remoteDescriptorsMap : gmap string (gmap Device string)) : SelectedChannels :=
  select_channels_loop orderedChannels remoteDescriptorsMap (mkSelectedChannels ∅ ∅).

(** The brochure: what [initFromLoop] tells about the channels. *)
Definition brochure_channels (orderedChannels : TOrderedChannels) : gmap string (gmap Device string) :=
  foldr (fun c m => <[c.1 := cc_deviceDescriptors c.2]> m) ∅ orderedChannels.
Definition brochure_transports (orderedTransports : TOrderedTransports) : gmap string string :=
  foldr (fun c m => <[c.1 := tc_domainDescriptor c.2]> m) ∅ orderedTransports.

(** The client's comparison of the two channel maps. *)
Definition channels_consistent (answer mine : gmap (Device * Device) string) : bool :=
  (size answer =? size mine)%nat &&
  forallb (fun kv => bool_decide (answer !! (kv.1.2, kv.1.1) = Some kv.2)) (map_to_list mine).

(** ** Transports *)

Definition viable (remote addresses : gmap string string) (c : string * TransportContext) : Prop :=
  exists addr desc, addresses !! c.1 = Some addr /\ remote !! c.1 = Some desc /\
    tc_canCommunicateWithRemote c.2 desc = true.

(** [selectTransport] picks the viable transport of highest priority, with
    the listener's address for it, and throws exactly when none is viable. *)
Lemma selectTransport_ok l remote addresses :
  match selectTransport l remote addresses with
  | Done t => exists pre c post, l = pre ++ c :: post /\ Forall (fun c' => ~ viable remote addresses c') pre /\
      viable remote addresses c /\ st_name t = c.1 /\ addresses !! c.1 = Some (st_address t) /\
      st_domainDescriptor t = tc_domainDescriptor c.2
  | Throw e => e = no_viable_transport /\ Forall (fun c => ~ viable remote addresses c) l
  end.
Proof.
  induction l as [|[n c] l IH]; [done|]. cbn [selectTransport].
  assert (forall r, ~ viable remote addresses (n, c) -> selectTransport l remote addresses = r ->
    match r with
    | Done t => exists pre c0 post, (n, c) :: l = pre ++ c0 :: post /\
        Forall (fun c' => ~ viable remote addresses c') pre /\ viable remote addresses c0 /\
        st_name t = c0.1 /\ addresses !! c0.1 = Some (st_address t) /\
        st_domainDescriptor t = tc_domainDescriptor c0.2
    | Throw e => e = no_viable_transport /\ Forall (fun c => ~ viable remote addresses c) ((n, c) :: l)
    end) as Hskip.
  { intros r Hv Hr. rewrite Hr in IH. destruct r as [t|e].
    - destruct IH as (pre & c0 & post & -> & Hp & Hrest). exists ((n, c) :: pre), c0, post.
      split; [done|]. split; [by constructor | done].
    - destruct IH as [-> Hp]. split; [done | by constructor]. }
  destruct (addresses !! n) as [addr|] eqn:Ha; [destruct (remote !! n) as [desc|] eqn:Hd;
    [destruct (tc_canCommunicateWithRemote c desc) eqn:Hc|]|].
  - exists [], (n, c), l. split_and!; try done. by exists addr, desc.
  - apply Hskip; [|done]. intros (a & d & H1 & H2 & H3). simpl in *. congruence.
  - apply Hskip; [|done]. intros (a & d & H1 & H2 & H3). simpl in *. congruence.
  - apply Hskip; [|done]. intros (a & d & H1 & H2 & H3). simpl in *. congruence.
Qed.

Lemma selectTransport_throws l remote addresses :
  match selectTransport l remote addresses with Done _ => True | Throw e => e = no_viable_transport end.
Proof.
  induction l as [|[n c] l IH]; [done|]. cbn [selectTransport].
  destruct (addresses !! n); [|done]. destruct (remote !! n); [|done]. by destruct (tc_canCommunicateWithRemote _ _).
Qed.

(** ** Channels *)

(** Whether channel context [c] connects local [ld] to remote [rd]. *)
Definition connects (c : ChannelContext) (remote : gmap Device string) (k : Device * Device) : bool :=
  match cc_deviceDescriptors c !! k.1, remote !! k.2 with
  | Some a, Some b => cc_canCommunicateWithRemote c a b
  | _, _ => false
  end.

(** The specification: the first channel that connects the two devices. *)
Fixpoint first_channel (l : TOrderedChannels) (remote : gmap string (gmap Device string))
    (k : Device * Device) : option string :=
  match l with
  | [] => None
  | (n, c) :: l =>
      match remote !! n with
      | Some r => if connects c r k then Some n else first_channel l remote k
      | None => first_channel l remote k
      end
  end.

(** One pair of descriptors of the nested loops. *)
Definition pair_ok (c : ChannelContext) (k : Device * Device) (p : (Device * string) * (Device * string)) : bool :=
  bool_decide ((p.1.1, p.2.1) = k) && cc_canCommunicateWithRemote c p.1.2 p.2.2.

Lemma select_pairs_spec n c l : forall sel m k,
  let r := foldl (fun acc (p : (Device * string) * (Device * string)) => select_pair n c p.1 p.2 acc) (sel, m) l in
  r.2 !! k = (match m !! k with Some x => Some x | None => if existsb (pair_ok c k) l then Some n else None end).
Proof.
  induction l as [|p l IH]; intros sel m k; simpl; [by destruct (m !! k)|].
  unfold select_pair at 2. unfold pair_ok at 1.
  destruct (cc_canCommunicateWithRemote c p.1.2 p.2.2); simpl.
  - rewrite andb_true_r. destruct (m !! (p.1.1, p.2.1)) as [x|] eqn:Hm; rewrite IH.
    + case_bool_decide as Hk; simpl; [|done]. by rewrite <- Hk, Hm.
    + case_bool_decide as Hk; simpl.
      * by rewrite <- Hk, lookup_insert_eq, Hm.
      * by rewrite lookup_insert_ne.
  - rewrite andb_false_r, IH. done.
Qed.

Lemma select_pairs_flag n c l : forall sel m,
  let r := foldl (fun acc (p : (Device * string) * (Device * string)) => select_pair n c p.1 p.2 acc) (sel, m) l in
  r.1 = true <-> sel = true \/ exists k, m !! k = None /\ r.2 !! k = Some n.
Proof.
  induction l as [|p l IH]; intros sel m; simpl.
  - split; [by left | intros [?|(k & H1 & H2)]; [done|congruence]].
  - unfold select_pair at 2 4. destruct (cc_canCommunicateWithRemote c p.1.2 p.2.2); simpl; [|apply IH].
    destruct (m !! (p.1.1, p.2.1)) as [x|] eqn:Hm; [apply IH|]. rewrite IH. split.
    + intros _. right. exists (p.1.1, p.2.1). split; [done|].
      rewrite select_pairs_spec. by rewrite lookup_insert_eq.
    + by left.
Qed.

Lemma foldl_nested {A B S} (f : S -> A -> B -> S) (la : list A) (lb : list B) : forall s,
  foldl (fun s a => foldl (fun s b => f s a b) s lb) s la =
  foldl (fun s p => f s p.1 p.2) s (a ← la; b ← lb; [(a, b)]).
Proof.
  induction la as [|a la IH]; intros s; [done|]. simpl. rewrite IH, foldl_app. f_equal.
  clear IH. revert s. induction lb as [|b lb IH]; intros s; [done|]. simpl. by rewrite <- IH.
Qed.

Lemma existsb_pairs c (r : gmap Device string) k :
  existsb (pair_ok c k) (a ← map_to_list (cc_deviceDescriptors c); b ← map_to_list r; [(a, b)]) =
  connects c r k.
Proof.
  apply eq_bool_prop_intro. rewrite !Is_true_true, existsb_exists. unfold connects. split.
  - intros ([[ld a] [rd b]] & Hin & Hok). apply list_elem_of_In in Hin.
    apply list_elem_of_bind in Hin as ([ld' a'] & Hin & Hl).
    apply list_elem_of_bind in Hin as ([rd' b'] & Hin & Hr).
    apply list_elem_of_singleton in Hin. injection Hin as -> -> -> ->.
    apply elem_of_map_to_list in Hl, Hr. apply andb_true_iff in Hok as [Hk Hc].
    apply bool_decide_eq_true in Hk as <-. simpl in *. by rewrite Hl, Hr.
  - destruct (cc_deviceDescriptors c !! k.1) as [a|] eqn:Hl; [|done].
    destruct (r !! k.2) as [b|] eqn:Hr; [|done]. intros Hc.
    exists ((k.1, a), (k.2, b)). split.
    + apply list_elem_of_In, list_elem_of_bind. exists (k.1, a). split; [|by apply elem_of_map_to_list].
      apply list_elem_of_bind. exists (k.2, b). split; [set_solver | by apply elem_of_map_to_list].
    + unfold pair_ok. simpl. rewrite bool_decide_eq_true_2 by (by destruct k). done.
Qed.

Lemma select_channel_spec n c r res k :
  sc_channelForDevicePair (select_channel n c r res) !! k =
    (match sc_channelForDevicePair res !! k with
     | Some x => Some x
     | None => if connects c r k then Some n else None
     end).
Proof.
  unfold select_channel. simpl.
  rewrite (foldl_nested (fun acc a b => select_pair n c a b acc)), select_pairs_spec, existsb_pairs. done.
Qed.

Lemma select_channel_descs n c r res n' d :
  sc_descriptorsMap res !! n = None ->
  sc_descriptorsMap (select_channel n c r res) !! n' = Some d <->
    sc_descriptorsMap res !! n' = Some d \/
    (n' = n /\ d = cc_deviceDescriptors c /\
     exists k, sc_channelForDevicePair res !! k = None /\ connects c r k = true).
Proof.
  intros Hn. unfold select_channel. cbn [sc_descriptorsMap].
  rewrite (foldl_nested (fun acc a b => select_pair n c a b acc)).
  match goal with |- context [foldl ?f ?s ?l] =>
    pose proof (select_pairs_flag n c l false (sc_channelForDevicePair res)) as Hflag;
    pose proof (fun k => select_pairs_spec n c l false (sc_channelForDevicePair res) k) as Hspec;
    destruct (foldl f s l) as [sel m'] end.
  cbn [fst snd] in *.
  assert (sel = true <-> exists k, sc_channelForDevicePair res !! k = None /\ connects c r k = true) as Hsel.
  { rewrite Hflag. split.
    - intros [?|(k & H1 & H2)]; [done|]. exists k. split; [done|].
      rewrite Hspec, H1, existsb_pairs in H2. by destruct (connects c r k).
    - intros (k & H1 & H2). right. exists k. split; [done|]. by rewrite Hspec, H1, existsb_pairs, H2. }
  destruct sel.
  - destruct (decide (n' = n)) as [->|Hne].
    + rewrite lookup_insert_eq, Hn. split.
      * intros [= <-]. right. by rewrite <- Hsel.
      * by intros [?|(_ & -> & _)].
    + rewrite lookup_insert_ne by done. split; [by left | intros [?|[? _]]; done].
  - split; [by left|]. intros [?|(_ & _ & Hk)]; [done|]. by apply Hsel in Hk.
Qed.

Lemma select_loop_pairs l remote : forall res k,
  sc_channelForDevicePair (select_channels_loop l remote res) !! k =
    (match sc_channelForDevicePair res !! k with Some x => Some x | None => first_channel l remote k end).
Proof.
  induction l as [|[n c] l IH]; intros res k; cbn [select_channels_loop first_channel].
  - by destruct (_ !! k).
  - destruct (remote !! n) as [r|]; rewrite IH; [|done].
    rewrite select_channel_spec. destruct (sc_channelForDevicePair res !! k); [done|].
    by destruct (connects c r k).
Qed.

Lemma select_loop_descs l remote : forall res n d,
  NoDup l.*1 -> (forall n, n ∈ l.*1 -> sc_descriptorsMap res !! n = None) ->
  sc_descriptorsMap (select_channels_loop l remote res) !! n = Some d <->
    sc_descriptorsMap res !! n = Some d \/
    (exists c k, (n, c) ∈ l /\ d = cc_deviceDescriptors c /\
       sc_channelForDevicePair res !! k = None /\ first_channel l remote k = Some n).
Proof.
  induction l as [|[m c] l IH]; intros res n d Hd Hfresh; cbn [select_channels_loop first_channel].
  - split; [by left | intros [?|(c & k & Hin & _)]; [done | set_solver]].
  - rewrite fmap_cons in Hd, Hfresh. apply NoDup_cons in Hd as [Hm Hd]. simpl in Hm.
    destruct (remote !! m) as [r|] eqn:Hr.
    + rewrite IH; [|done|].
      * rewrite select_channel_descs by (apply Hfresh; set_solver). split.
        -- intros [[?|(-> & -> & k & H1 & H2)]|(c' & k & Hin & -> & H1 & H2)]; [by left| |]; right.
           ++ exists c, k. rewrite H2. split_and!; [set_solver | done | done | done].
           ++ rewrite select_channel_spec in H1. exists c', k.
              destruct (sc_channelForDevicePair res !! k); [done|]. destruct (connects c r k); [done|].
              split_and!; [set_solver | done | done | done].
        -- intros [?|(c' & k & Hin & -> & H1 & H2)]; [by left; left|].
           destruct (connects c r k) eqn:Hc.
           ++ injection H2 as <-. apply elem_of_cons in Hin as [[= ->]|Hin].
              ** left. right. split_and!; [done | done | by exists k].
              ** exfalso. apply Hm. apply list_elem_of_fmap. by exists (m, c').
           ++ right. exists c', k. rewrite select_channel_spec, H1, Hc. split_and!; try done.
              apply elem_of_cons in Hin as [[= -> ->]|Hin]; [|done].
              exfalso. apply Hm. clear -H2. induction l as [|[n1 c1] l IH]; [done|]. simpl in *.
              destruct (remote !! n1); [destruct (connects c1 g k)|]; [by injection H2 as -> ; left|right; auto..].
      * intros n' Hn'. destruct (sc_descriptorsMap (select_channel m c r res) !! n') as [x|] eqn:Hx; [|done].
        apply select_channel_descs in Hx as [Hx|(-> & _)]; [| done | apply Hfresh; set_solver].
        rewrite Hfresh in Hx by set_solver. done.
    + rewrite IH; [|done | intros; apply Hfresh; set_solver]. split.
      * intros [?|(c' & k & Hin & Hrest)]; [by left | right]. exists c', k. split; [set_solver | done].
      * intros [?|(c' & k & Hin & -> & H1 & H2)]; [by left | right]. exists c', k. split_and!; try done.
        apply elem_of_cons in Hin as [[= -> ->]|Hin]; [|done].
        exfalso. apply Hm. clear -H2. induction l as [|[n1 c1] l IH]; [done|]. simpl in *.
        destruct (remote !! n1); [destruct (connects c1 g k)|]; [by injection H2 as -> ; left|right; auto..].
Qed.

(** ** Both ends agree *)

Definition sel (M : gmap string (gmap Device string)) (k : Device * Device) (x : string * ChannelContext) : bool :=
  match M !! x.1 with Some r => connects x.2 r k | None => false end.

Definition first_name (f : string * ChannelContext -> bool) (l : list (string * ChannelContext)) : option string :=
  fst <$> List.find f l.

Lemma first_channel_name l M k : first_channel l M k = first_name (sel M k) l.
Proof.
  unfold first_name. induction l as [|[n c] l IH]; [done|]. cbn [first_channel List.find].
  unfold sel at 1. cbn [fst snd]. destruct (M !! n) as [r|]; [|done].
  by destruct (connects c r k).
Qed.

Lemma first_name_elem f l n : first_name f l = Some n -> exists c, (n, c) ∈ l /\ f (n, c) = true.
Proof.
  unfold first_name. destruct (List.find f l) as [[m c]|] eqn:Hf; [|done]. intros [= <-].
  apply List.find_some in Hf as [Hin Hc]. exists c. split; [by apply list_elem_of_In | done].
Qed.

Lemma first_name_filter (f : string * ChannelContext -> bool) (P : string * ChannelContext -> Prop)
    `{!forall x, Decision (P x)} (l : list (string * ChannelContext)) :
  (forall x, f x = true -> P x) -> first_name f (filter P l) = first_name f l.
Proof.
  intros HP. unfold first_name. f_equal. induction l as [|x l IH]; [done|]. rewrite filter_cons.
  simpl. case_decide as Hx; simpl; [by rewrite IH|].
  destruct (f x) eqn:Hf; [|done]. exfalso. by apply Hx, HP.
Qed.

Lemma first_name_agree (fc fs : string * ChannelContext -> bool) lc ls :
  Forall2 (fun x y => x.1 = y.1 /\ (fc x = true -> fs y = true) /\
    (fs y = true -> first_name fs ls = Some y.1 -> fc x = true)) lc ls ->
  first_name fc lc = first_name fs ls.
Proof.
  unfold first_name. intros Hf.
  assert (forall n, fst <$> List.find fs ls = Some n -> Forall2 (fun x y => x.1 = y.1 /\
    (fc x = true -> fs y = true) /\ (fs y = true -> n = y.1 -> fc x = true)) lc ls) as Hf1.
  { intros n Hn. eapply Forall2_impl; [exact Hf|]. intros x y (H1 & H2 & H3). split_and!; [done..|].
    intros Hy ->. by apply H3. }
  assert (Forall2 (fun x y => x.1 = y.1 /\ (fc x = true -> fs y = true)) lc ls) as Hf2.
  { eapply Forall2_impl; [exact Hf|]. tauto. }
  clear Hf. induction Hf2 as [|x y lc ls (Hn & Hcs) _ IH]; [done|]. simpl in *.
  destruct (fs y) eqn:Hy; simpl in *.
  - pose proof (Hf1 _ eq_refl) as Hf. apply Forall2_cons in Hf as [(_ & _ & Hx) _].
    rewrite (Hx Hy eq_refl). simpl. by rewrite Hn.
  - destruct (fc x); [by specialize (Hcs eq_refl)|]. apply IH. intros n Hfind.
    by apply Hf1, Forall2_cons in Hfind as [_ ?].
Qed.

Lemma unique_context (l : list (string * ChannelContext)) n a b :
  NoDup l.*1 -> (n, a) ∈ l -> (n, b) ∈ l -> a = b.
Proof.
  intros Hd Ha Hb. apply list_elem_of_lookup in Ha as [i Hi], Hb as [j Hj].
  assert (i = j) as ->; [|congruence].
  apply (NoDup_lookup _ _ _ n Hd); by rewrite list_lookup_fmap, ?Hi, ?Hj.
Qed.

Lemma brochure_lookup l n c : NoDup l.*1 -> (n, c) ∈ l -> brochure_channels l !! n = Some (cc_deviceDescriptors c).
Proof.
  induction l as [|[m c'] l IH]; [set_solver|]. rewrite fmap_cons, NoDup_cons. cbn [fst].
  intros [Hm Hd] Hin. simpl. apply elem_of_cons in Hin as [[= -> ->]|Hin]; [by rewrite lookup_insert_eq|].
  rewrite lookup_insert_ne; [by apply IH|]. intros ->. apply Hm, list_elem_of_fmap. by exists (n, c).
Qed.

Lemma brochure_dom l n d : brochure_channels l !! n = Some d -> exists c, (n, c) ∈ l /\ d = cc_deviceDescriptors c.
Proof.
  induction l as [|[m c'] l IH]; simpl; [by rewrite lookup_empty|].
  destruct (decide (n = m)) as [->|Hne].
  - rewrite lookup_insert_eq. intros [= <-]. exists c'. split; [left|done].
  - rewrite lookup_insert_ne by done. intros Hx. destruct (IH Hx) as (c & Hin & ->). exists c. split; [by right|done].
Qed.

Section Agreement.
Variables lc ls : list (string * ChannelContext).

(** Priorities order the channels both have in the same way, and the two
    implementations of a channel agree on who can communicate. *)
Record compatible : Prop := {
  cp_nodup_c : NoDup lc.*1;
  cp_nodup_s : NoDup ls.*1;
  cp_order : (filter (fun x => x.1 ∈ ls.*1) lc).*1 = (filter (fun x => x.1 ∈ lc.*1) ls).*1;
  cp_sym : forall n c s a b, (n, c) ∈ lc -> (n, s) ∈ ls ->
    cc_canCommunicateWithRemote c a b = cc_canCommunicateWithRemote s b a;
}.

Context (Hc : compatible).

Definition server_sel : SelectedChannels := selectChannels ls (brochure_channels lc).
Definition client_sel : SelectedChannels := selectChannels lc (sc_descriptorsMap server_sel).

Lemma server_pairs k : sc_channelForDevicePair server_sel !! k = first_channel ls (brochure_channels lc) k.
Proof. unfold server_sel, selectChannels. rewrite select_loop_pairs. simpl. by rewrite lookup_empty. Qed.

Lemma client_pairs k :
  sc_channelForDevicePair client_sel !! k = first_channel lc (sc_descriptorsMap server_sel) k.
Proof. unfold client_sel, selectChannels. rewrite select_loop_pairs. simpl. by rewrite lookup_empty. Qed.

Lemma server_descs n d :
  sc_descriptorsMap server_sel !! n = Some d <->
  exists c k, (n, c) ∈ ls /\ d = cc_deviceDescriptors c /\ sc_channelForDevicePair server_sel !! k = Some n.
Proof.
  unfold server_sel, selectChannels. rewrite select_loop_descs; [|apply Hc | by intros; apply lookup_empty].
  simpl. rewrite lookup_empty. split.
  - intros [?|(c & k & H1 & H2 & _ & H3)]; [done|]. exists c, k. split_and!; [done..|].
    by rewrite select_loop_pairs.
  - intros (c & k & H1 & H2 & H3). right. exists c, k. split_and!; [done | done | apply lookup_empty|].
    rewrite select_loop_pairs in H3. exact H3.
Qed.

Lemma connects_sym n c s l r : (n, c) ∈ lc -> (n, s) ∈ ls ->
  connects c (cc_deviceDescriptors s) (l, r) = connects s (cc_deviceDescriptors c) (r, l).
Proof.
  intros H1 H2. unfold connects. simpl. destruct (cc_deviceDescriptors c !! l) as [a|];
    destruct (cc_deviceDescriptors s !! r) as [b|]; try done. by apply (cp_sym Hc n).
Qed.

Lemma pairs_transpose l r :
  sc_channelForDevicePair client_sel !! (l, r) = sc_channelForDevicePair server_sel !! (r, l).
Proof.
  pose proof (server_pairs (r, l)) as Hserver. rewrite client_pairs, server_pairs.
  rewrite !first_channel_name in *.
  rewrite <- (first_name_filter (sel (sc_descriptorsMap server_sel) (l, r)) (fun x => x.1 ∈ ls.*1) lc).
  2: { intros [n c]. unfold sel. cbn [fst snd]. destruct (_ !! n) as [d|] eqn:Hd; [|done]. intros _.
       apply server_descs in Hd as (s & _ & Hin & _). apply list_elem_of_fmap. by exists (n, s). }
  rewrite <- (first_name_filter (sel (brochure_channels lc) (r, l)) (fun x => x.1 ∈ lc.*1) ls) in *.
  2, 3: intros [n s]; unfold sel; cbn [fst snd]; destruct (_ !! n) as [d|] eqn:Hd; [|done]; intros _;
    apply brochure_dom in Hd as (c & Hin & _); apply list_elem_of_fmap; by exists (n, c).
  apply first_name_agree. pose proof (cp_order Hc) as Ho.
  apply Forall2_same_length_lookup. split.
  { by rewrite <- (length_fmap fst (filter _ lc)), Ho, length_fmap. }
  intros i [n c] [n' s] Hi Hj.
  assert (n = n') as <-.
  { apply (f_equal (fun z => z !! i)) in Ho. rewrite !list_lookup_fmap, Hi, Hj in Ho. by injection Ho. }
  apply list_elem_of_lookup_2, list_elem_of_filter in Hi as [_ Hi].
  apply list_elem_of_lookup_2, list_elem_of_filter in Hj as [_ Hj].
  cbn [fst]. split; [done|]. unfold sel. cbn [fst snd].
  rewrite (brochure_lookup _ _ _ (cp_nodup_c Hc) Hi), <- (connects_sym _ _ _ l r Hi Hj). split.
  - destruct (_ !! n) as [d|] eqn:Hd; [|done]. apply server_descs in Hd as (s' & _ & Hin & -> & _).
    rewrite (unique_context ls n s s'); [done | apply Hc | done | done].
  - intros Hcon Hfirst. unfold sel in Hserver. rewrite Hfirst in Hserver.
    assert (sc_descriptorsMap server_sel !! n = Some (cc_deviceDescriptors s)) as ->; [|done].
    apply server_descs. by exists s, (r, l).
Qed.

Lemma transpose_size (m1 m2 : gmap (Device * Device) string) :
  (forall l r, m1 !! (l, r) = m2 !! (r, l)) -> size m1 = size m2.
Proof.
  set (swap := fun kv : (Device * Device) * string => ((kv.1.2, kv.1.1), kv.2)).
  assert (forall m m' : gmap (Device * Device) string,
    (forall l r, m !! (l, r) = m' !! (r, l)) -> (size m <= size m')%nat) as Hle.
  { intros m m' Hm. rewrite <- !length_map_to_list.
    rewrite <- (length_fmap swap (map_to_list m)). apply submseteq_length, NoDup_submseteq.
    - apply NoDup_fmap_2, NoDup_map_to_list. intros [[] ] [[] ]. unfold swap. simpl. congruence.
    - intros kv Hin. apply list_elem_of_fmap in Hin as ([[l r] v] & -> & Hin). unfold swap. simpl.
      apply elem_of_map_to_list. rewrite <- Hm. by apply elem_of_map_to_list. }
  intros Hm. apply Nat.le_antisymm; apply Hle; [done|]. intros l r. by rewrite Hm.
Qed.

Lemma agreement : channels_consistent (sc_channelForDevicePair server_sel) (sc_channelForDevicePair client_sel) = true.
Proof.
  unfold channels_consistent. rewrite (transpose_size _ _ pairs_transpose), Nat.eqb_refl. cbn [andb].
  apply forallb_forall. intros [[l r] n] Hin. apply list_elem_of_In, elem_of_map_to_list in Hin.
  apply bool_decide_eq_true. cbn [fst snd]. by rewrite <- pairs_transpose.
Qed.

Lemma agreement_names n :
  is_Some (sc_descriptorsMap client_sel !! n) <-> is_Some (sc_descriptorsMap server_sel !! n).
Proof.
  assert (forall d, sc_descriptorsMap client_sel !! n = Some d <->
    exists c k, (n, c) ∈ lc /\ d = cc_deviceDescriptors c /\ sc_channelForDevicePair client_sel !! k = Some n) as Hcl.
  { intros d. unfold client_sel, selectChannels. rewrite select_loop_descs; [|apply Hc | by intros; apply lookup_empty].
    simpl. rewrite lookup_empty. split.
    - intros [?|(c & k & H1 & H2 & _ & H3)]; [done|]. exists c, k. split_and!; [done..|]. by rewrite select_loop_pairs.
    - intros (c & k & H1 & H2 & H3). right. exists c, k. split_and!; [done | done | apply lookup_empty|].
      rewrite select_loop_pairs in H3. exact H3. }
  split; intros [d Hd].
  - apply Hcl in Hd as (c & [l r] & _ & _ & Hp). rewrite client_pairs, first_channel_name in Hp.
    apply first_name_elem in Hp as (c' & _ & Hs). unfold sel in Hs. simpl in Hs.
    by destruct (sc_descriptorsMap server_sel !! n).
  - apply server_descs in Hd as (s & [r l] & _ & _ & Hp). rewrite <- pairs_transpose in Hp.
    assert (exists c, (n, c) ∈ lc) as [c Hin].
    { rewrite client_pairs, first_channel_name in Hp.
      apply first_name_elem in Hp as (c' & Hin & _). by exists c'. }
    eexists. apply Hcl. by exists c, (l, r).
Qed.
End Agreement.

(** C39: the two ends of a pipe choose the same channels.  If both contexts order
    the channels they share in the same way, and each channel's two
    implementations agree on who can communicate, then the map the client
    computes from the server's answer is the transpose of the server's map (so
    the client's consistency check passes), and the two ends open the same set
    of channels. *)
Theorem channel_selection_agrees lc ls :
  compatible lc ls ->
  let server := server_sel lc ls in
  let client := client_sel lc ls in
  (forall l r, sc_channelForDevicePair client !! (l, r) = sc_channelForDevicePair server !! (r, l)) /\
  (forall l r, sc_channelForDevicePair server !! (l, r) = first_channel ls (brochure_channels lc) (l, r)) /\
  channels_consistent (sc_channelForDevicePair server) (sc_channelForDevicePair client) = true /\
  (forall n, is_Some (sc_descriptorsMap client !! n) <-> is_Some (sc_descriptorsMap server !! n)).
Proof.
  intros Hc server client. split_and!.
  - intros l r. by apply pairs_transpose.
  - intros l r. by apply server_pairs.
  - by apply agreement.
  - intros n. by apply agreement_names.
Qed.

(** A machine with a GPU and one without: they share "basic" but not "cuda_ipc". *)
Definition demo_cpu : Device := mkDevice "cpu" 0.
Definition demo_gpu : Device := mkDevice "cuda" 0.
Definition demo_basic : ChannelContext :=
  mkChannelContext {[demo_cpu := "any"%string]} (fun a b => bool_decide (a = b)) 1.
Definition demo_cma (id : string) : ChannelContext :=
  mkChannelContext {[demo_cpu := id]} (fun a b => bool_decide (a = b)) 2.
Definition demo_ipc : ChannelContext :=
  mkChannelContext {[demo_gpu := "h1"%string]} (fun a b => bool_decide (a = b)) 1.
Definition demo_client : list (string * ChannelContext) :=
  [("cuda_ipc", demo_ipc); ("cma", demo_cma "boot1"); ("basic", demo_basic)]%string.
Definition demo_server : list (string * ChannelContext) :=
  [("cma", demo_cma "boot2"); ("basic", demo_basic)]%string.

Lemma demo_compatible : compatible demo_client demo_server.
Proof.
  split.
  - apply (bool_decide_unpack _). vm_compute. exact I.
  - apply (bool_decide_unpack _). vm_compute. exact I.
  - vm_compute. reflexivity.
  - intros n c s a b H1 H2. unfold demo_client, demo_server in *.
    apply list_elem_of_In in H1, H2. simpl in H1, H2.
    destruct H1 as [H1|[H1|[H1|[]]]], H2 as [H2|[H2|[]]]; simplify_eq; simpl;
      apply bool_decide_ext; split; congruence.
Qed.

Lemma channel_selection_agrees_witness :
  compatible demo_client demo_server /\
  sc_channelForDevicePair (client_sel demo_client demo_server) !! (demo_cpu, demo_cpu) = Some "basic"%string /\
  channels_consistent (sc_channelForDevicePair (server_sel demo_client demo_server))
    (sc_channelForDevicePair (client_sel demo_client demo_server)) = true.
Proof.
  split; [exact demo_compatible|].
  destruct (channel_selection_agrees demo_client demo_server demo_compatible) as (_ & _ & H & _).
  split; [vm_compute; reflexivity | exact H].
Defined.
