(* ===== verification/Context.v ===== *)
(** * Contexts

    Models [core/context_impl.cc]: the transports and channels of a context, in
    order of priority; the listeners and pipes that enroll themselves; closing and
    joining.  Listeners and pipes are seen through the interface of [Enrollment];
    they live in two heaps, indexed by their addresses. *)

From stdpp Require Import sorting.
From S2P Require Import Prelude Messages Select Enrollment.
#[local] Open Scope Z_scope.

(** ** Ordered maps *)

(** [std::map<int64_t, V>], as the list of its entries by increasing key. *)
Fixpoint map_find {V} (k : Z) (l : list (Z * V)) : option V :=
  match l with
  | [] => None
  | (k', v) :: l => if k =? k' then Some v else map_find k l
  end.

Fixpoint map_emplace {V} (k : Z) (v : V) (l : list (Z * V)) : list (Z * V) :=
  match l with
  | [] => [(k, v)]
  | (k', v') :: r =>
      if k <? k' then (k, v) :: l else if k =? k' then l else (k', v') :: map_emplace k v r
  end.

Section Ordered.
Context {V : Type}.
Implicit Types (l : list (Z * V)).

Definition increasing l : Prop := StronglySorted Z.lt l.*1.

Lemma map_emplace_perm k v l : map_find k l = None -> map_emplace k v l ≡ₚ (k, v) :: l.
Proof.
  induction l as [|[k' v'] l IH]; [done|]. simpl. destruct (k =? k') eqn:He; [done|]. intros Hf.
  destruct (k <? k'); [done|]. rewrite IH by done. solve_perm.
Qed.

Lemma map_emplace_increasing k v l : increasing l -> increasing (map_emplace k v l).
Proof.
  unfold increasing. induction l as [|[k' v'] l IH]; simpl; intros Hs; [by repeat constructor|].
  apply StronglySorted_inv in Hs as [Hs Hall]. destruct (k <? k') eqn:Hlt; simpl.
  { apply Z.ltb_lt in Hlt. constructor; [by constructor|]. constructor; [done|]. eapply Forall_impl; [done|]. intros x Hx. simpl in *. lia. }
  destruct (k =? k') eqn:Heq; simpl; [by constructor|]. apply Z.ltb_ge in Hlt. apply Z.eqb_neq in Heq. constructor; [by apply IH|].
  apply Forall_forall. intros x Hx. rewrite Forall_forall in Hall.
  assert (x = k \/ x ∈ l.*1) as [->|Hin]; [|lia|by apply Hall].
  clear -Hx. induction l as [|[a b] l IHl]; simpl in *; [set_solver|]. destruct (k <? a); simpl in *; [set_solver|].
  destruct (k =? a); set_solver.
Qed.

Lemma map_find_None k l : map_find k l = None <-> k ∉ l.*1.
Proof.
  induction l as [|[k' v] l IH]; simpl; [set_solver|]. destruct (k =? k') eqn:He; [apply Z.eqb_eq in He | apply Z.eqb_neq in He]; set_solver.
Qed.
End Ordered.

(** ** Transports and channels *)

(** What an entry of either kind asks of the contexts registered. *)
Class Registrable (T : Type) := isViable : T -> bool.

(** The transports, or the channels, of a context: by name and by decreasing
    priority. *)
Record Registry (T : Type) := mkRegistry {
  rg_byName : gmap string T;
  rg_byPriority : list (Z * (string * T));
}.
Arguments mkRegistry {T}.
Arguments rg_byName {T}.
Arguments rg_byPriority {T}.

Section Registry.
Context {T : Type} `{Registrable T}.
Implicit Types (r : Registry T).

(** The body that [registerTransport] and [registerChannel] share. *)
Definition register (priority : Z) (name : string) (context : T) (r : Registry T) : outcome (Registry T) :=
  _ ← tp_check (negb (bool_decide (name = "")));
  _ ← tp_check (negb (bool_decide (is_Some (rg_byName r !! name))));
  _ ← tp_check (match map_find (- priority) (rg_byPriority r) with Some _ => false | None => true end);
  if negb (isViable context) then Done r
  else Done (mkRegistry (<[name := context]> (rg_byName r)) (map_emplace (- priority) (name, context) (rg_byPriority r))).

(** An entry of the registry, as it was given. *)
Definition entry : Type := Z * (string * T).
Definition keyed (e : entry) : Z * (string * T) := (- e.1, e.2).

(** The registry holds what was registered and viable. *)
Record registry_ok (r : Registry T) (registered : list entry) : Prop := {
  ro_perm : rg_byPriority r ≡ₚ keyed <$> registered;
  ro_sorted : increasing (rg_byPriority r);
  ro_names : NoDup (registered.*2).*1;
  ro_byName : rg_byName r = list_to_map registered.*2;
  ro_viable : Forall (fun e : entry => isViable e.2.2 = true /\ e.2.1 <> "") registered;
}.

Lemma registry_ok_empty : registry_ok (mkRegistry ∅ []) [].
Proof. split; simpl; try done; by constructor. Qed.

(** When a registration is refused. *)
Definition refused (priority : Z) (name : string) (registered : list entry) : bool :=
  bool_decide (name = "" \/ name ∈ (registered.*2).*1 \/ priority ∈ registered.*1).

Lemma register_ok priority name context r registered :
  registry_ok r registered ->
  if refused priority name registered then register priority name context r = Throw ExAssert
  else exists r', register priority name context r = Done r' /\
    registry_ok r' (if isViable context then registered ++ [(priority, (name, context))] else registered).
Proof.
  intros [R1 R2 R3 R4 R5]. unfold register, refused.
  assert (is_Some (rg_byName r !! name) <-> name ∈ (registered.*2).*1) as Hname.
  { rewrite R4. split; [intros [x Hx%elem_of_list_to_map_2]; apply list_elem_of_fmap; by exists (name, x)|].
    intros Hn. destruct (list_to_map (M:=gmap string T) registered.*2 !! name) eqn:Hl; [done|]. by apply not_elem_of_list_to_map in Hl. }
  assert (map_find (- priority) (rg_byPriority r) = None <-> priority ∉ registered.*1) as Hprio.
  { rewrite map_find_None, R1, <- list_fmap_compose. clear. induction registered as [|e l IH]; [set_solver|]. simpl.
    rewrite !not_elem_of_cons, IH. unfold keyed. simpl. intuition lia. }
  unfold tp_check. destruct (decide (name = "")) as [->|Hne].
  { rewrite (bool_decide_eq_true_2 (_ \/ _)) by auto. by rewrite (bool_decide_eq_true_2 (_ = _)). }
  rewrite (bool_decide_eq_false_2 (name = "")) by done. simpl. destruct (decide (name ∈ (registered.*2).*1)) as [Hin|Hin].
  { rewrite (bool_decide_eq_true_2 (_ \/ _)) by auto. by rewrite (bool_decide_eq_true_2 (is_Some _)) by by apply Hname. }
  rewrite (bool_decide_eq_false_2 (is_Some _)) by by rewrite Hname. simpl.
  destruct (map_find (- priority) (rg_byPriority r)) as [v|] eqn:Hf.
  { rewrite bool_decide_eq_true_2; [done|]. right; right. destruct (decide (priority ∈ registered.*1)) as [|Hn]; [done|].
    by apply Hprio in Hn. }
  rewrite bool_decide_eq_false_2 by (intros [?|[?|?]]; try done; by apply Hprio). simpl. destruct (isViable context) eqn:Hv; simpl.
  - eexists. split; [reflexivity|]. split; simpl.
    + rewrite map_emplace_perm, R1, fmap_app by done. simpl. unfold keyed at 3. simpl. solve_perm.
    + by apply map_emplace_increasing.
    + rewrite !fmap_app. simpl. apply NoDup_app. split_and!; [done | set_solver | apply NoDup_singleton].
    + rewrite R4, fmap_app. simpl. rewrite list_to_map_app. simpl.
      rewrite <- insert_union_r by by apply not_elem_of_list_to_map. by rewrite map_union_empty.
    + apply Forall_app. split; [done | by repeat constructor].
  - eexists. by split.
Qed.
End Registry.
Arguments entry : clear implicits.

(** ** The context *)

Inductive ccall :=
| TransportClose (name : string)
| ChannelClose (name : string)
| TransportJoin (name : string)
| ChannelJoin (name : string).

Section Context.
Context {T Ch OL OP : Type} `{Registrable T} `{Registrable Ch}.
Context `{EnrolleeLaws OL} `{EnrolleeLaws OP}.

(** The objects enrolled are the addresses in [listeners_] and [pipes_]; the heaps
    hold all of them. *)
Record ContextImpl := mkContextImpl {
  error_ : Error;
  joined_ : bool;
  listenerCounter_ : Z;
  pipeCounter_ : Z;
  listeners_ : gset Z;
  pipes_ : gset Z;
  transports : Registry T;      (* [transports_] and [transportsByPriority_] *)
  channels : Registry Ch;       (* [channels_] and [channelsByPriority_] *)
  listener_heap : gmap Z OL;
  pipe_heap : gmap Z OP;
}.
#[export] Instance eta_ContextImpl : Eta ContextImpl := fun c =>
  mkContextImpl (error_ c) (joined_ c) (listenerCounter_ c) (pipeCounter_ c) (listeners_ c) (pipes_ c) (transports c) (channels c)
    (listener_heap c) (pipe_heap c).

Definition newContextImpl : ContextImpl :=
  mkContextImpl kSuccess false 0 0 ∅ ∅ (mkRegistry ∅ []) (mkRegistry ∅ []) ∅ ∅.

Definition registerTransport (priority : Z) (transport : string) (context : T) (c : ContextImpl) : outcome ContextImpl :=
  r ← register priority transport context (transports c); Done (c <| transports := r |>).
Definition registerChannel (priority : Z) (channel : string) (context : Ch) (c : ContextImpl) : outcome ContextImpl :=
  r ← register priority channel context (channels c); Done (c <| channels := r |>).

Definition getTransport (transport : string) (c : ContextImpl) : outcome T :=
  match rg_byName (transports c) !! transport with Some x => Done x | None => Throw ExInvalidArgument end.
Definition getChannel (channel : string) (c : ContextImpl) : outcome Ch :=
  match rg_byName (channels c) !! channel with Some x => Done x | None => Throw ExInvalidArgument end.

(** As the pipes see them. *)
Definition getOrderedTransports (c : ContextImpl) : list (string * T) := (rg_byPriority (transports c)).*2.
Definition getOrderedChannels (c : ContextImpl) : list (string * Ch) := (rg_byPriority (channels c)).*2.

(** A new object at a free address, numbered by the counter. *)
Definition listen (id : Z) (listener : OL) (c : ContextImpl) : ContextImpl :=
  c <| listenerCounter_ := u64 (listenerCounter_ c + 1) |> <| listener_heap ::= insert id listener |>.
Definition connect (id : Z) (pipe : OP) (c : ContextImpl) : ContextImpl :=
  c <| pipeCounter_ := u64 (pipeCounter_ c + 1) |> <| pipe_heap ::= insert id pipe |>.

Definition closed (c : ContextImpl) : bool := is_error (error_ c).

(** A task of a listener or of a pipe, with its calls of [enroll] and [unenroll]. *)
Definition listener_task (id : Z) (f : OL -> outcome (OL * list bool)) (c : ContextImpl) : outcome ContextImpl :=
  '(s, h) ← on_object id f (listeners_ c, listener_heap c); Done (c <| listeners_ := s |> <| listener_heap := h |>).
Definition pipe_task (id : Z) (f : OP -> outcome (OP * list bool)) (c : ContextImpl) : outcome ContextImpl :=
  '(s, h) ← on_object id f (pipes_ c, pipe_heap c); Done (c <| pipes_ := s |> <| pipe_heap := h |>).

Definition names {X} (r : Registry X) : list string := (map_to_list (rg_byName r)).*1.

Definition handleError (c : ContextImpl) : outcome (ContextImpl * list ccall) :=
  let listenersCopy := elements (listeners_ c) in
  let pipesCopy := elements (pipes_ c) in
  '(ls, lh) ← close_all listenersCopy (listeners_ c, listener_heap c);
  let c := c <| listeners_ := ls |> <| listener_heap := lh |> in
  '(ps, ph) ← close_all pipesCopy (pipes_ c, pipe_heap c);
  Done (c <| pipes_ := ps |> <| pipe_heap := ph |>,
        (TransportClose <$> names (transports c)) ++ (ChannelClose <$> names (channels c))).

Definition setError (error : Error) (c : ContextImpl) : outcome (ContextImpl * list ccall) :=
  if is_error (error_ c) || negb (is_error error) then Done (c, [])
  else handleError (c <| error_ := error |>).

Definition closeFromLoop (c : ContextImpl) : outcome (ContextImpl * list ccall) := setError ContextClosedError c.

(** What [join] does once the task it waits for has run. *)
Definition join (c : ContextImpl) : outcome (ContextImpl * list ccall) :=
  if joined_ c then Done (c, [])
  else
    let c := c <| joined_ := true |> in
    _ ← tp_check (bool_decide (listeners_ c = ∅));
    _ ← tp_check (bool_decide (pipes_ c = ∅));
    Done (c, (TransportJoin <$> names (transports c)) ++ (ChannelJoin <$> names (channels c))).

(** ** The world of a context

    [cw_transports] and [cw_channels] are the viable contexts registered, in the
    order of the calls. *)
Record CWorld := mkCWorld {
  cw_context : ContextImpl;
  cw_trace : list ccall;
  cw_transports : list (entry T);
  cw_channels : list (entry Ch);
}.

Inductive cevent :=
| CvRegisterTransport (priority : Z) (name : string) (context : T)
| CvRegisterChannel (priority : Z) (name : string) (context : Ch)
| CvListen (id : Z) (listener : OL)
| CvConnect (id : Z) (pipe : OP)
| CvInitListener (id : Z)
| CvInitPipe (id : Z)
| CvListenerTask (id : Z) (listener : OL) (calls : list bool)
| CvPipeTask (id : Z) (pipe : OP) (calls : list bool)
| CvClose
| CvJoin.

Definition viable_entry {X} `{Registrable X} (priority : Z) (name : string) (context : X) : list (entry X) :=
  if isViable context then [(priority, (name, context))] else [].

Definition with_calls (w : CWorld) (m : outcome (ContextImpl * list ccall)) : outcome CWorld :=
  '(c, calls) ← m; Done (mkCWorld c (cw_trace w ++ calls) (cw_transports w) (cw_channels w)).
Definition without_calls (w : CWorld) (m : outcome ContextImpl) : outcome CWorld := with_calls w (c ← m; Done (c, [])).

(** A registration that throws changes nothing. *)
Definition cstep (w : CWorld) (ev : cevent) : outcome CWorld :=
  let c := cw_context w in
  match ev with
  | CvRegisterTransport p n x =>
      match registerTransport p n x c with
      | Done c => Done (mkCWorld c (cw_trace w) (cw_transports w ++ viable_entry p n x) (cw_channels w))
      | Throw _ => Done w
      end
  | CvRegisterChannel p n x =>
      match registerChannel p n x c with
      | Done c => Done (mkCWorld c (cw_trace w) (cw_transports w) (cw_channels w ++ viable_entry p n x))
      | Throw _ => Done w
      end
  | CvListen id o => without_calls w (Done (listen id o c))
  | CvConnect id o => without_calls w (Done (connect id o c))
  | CvInitListener id => without_calls w (listener_task id (en_init (closed c)) c)
  | CvInitPipe id => without_calls w (pipe_task id (en_init (closed c)) c)
  | CvListenerTask id o bs => without_calls w (listener_task id (fun _ => Done (o, bs)) c)
  | CvPipeTask id o bs => without_calls w (pipe_task id (fun _ => Done (o, bs)) c)
  | CvClose => with_calls w (closeFromLoop c)
  | CvJoin => with_calls w (join c)
  end.

(** What may happen: transports and channels are registered before the context is
    closed; a new object has a fresh address; an object is initialized once, and has
    tasks only after that; [join] waits for the context to be closed. *)
Definition cevent_ok (w : CWorld) (ev : cevent) : Prop :=
  let c := cw_context w in
  match ev with
  | CvRegisterTransport _ _ _ | CvRegisterChannel _ _ _ => closed c = false
  | CvListen id o => listener_heap c !! id = None /\ en_ok o /\ en_phase o = New
  | CvConnect id o => pipe_heap c !! id = None /\ en_ok o /\ en_phase o = New
  | CvInitListener id => exists o, listener_heap c !! id = Some o /\ en_phase o = New
  | CvInitPipe id => exists o, pipe_heap c !! id = Some o /\ en_phase o = New
  | CvListenerTask id o' bs => exists o, listener_heap c !! id = Some o /\ en_phase o <> New /\ en_task o o' bs
  | CvPipeTask id o' bs => exists o, pipe_heap c !! id = Some o /\ en_phase o <> New /\ en_task o o' bs
  | CvClose => True
  | CvJoin => closed c = true
  end.

Inductive creach : CWorld -> Prop :=
| creach_init : creach (mkCWorld newContextImpl [] [] [])
| creach_step w ev w' : creach w -> cevent_ok w ev -> cstep w ev = Done w' -> creach w'.

(** ** The invariant *)

Definition closes (c : ccall) : option (string + string) :=
  match c with TransportClose n => Some (inl n) | ChannelClose n => Some (inr n) | _ => None end.

(** The names that closing a context closes. *)
Definition all_names (c : ContextImpl) : list (string + string) :=
  (inl <$> names (transports c)) ++ (inr <$> names (channels c)).

Record cinv (w : CWorld) : Prop := {
  co_listeners : table_ok (listeners_ (cw_context w), listener_heap (cw_context w));
  co_pipes : table_ok (pipes_ (cw_context w), pipe_heap (cw_context w));
  co_transports : registry_ok (transports (cw_context w)) (cw_transports w);
  co_channels : registry_ok (channels (cw_context w)) (cw_channels w);
  co_closed : closed (cw_context w) = true -> none_live (listener_heap (cw_context w)) /\ none_live (pipe_heap (cw_context w));
  co_trace : omap closes (cw_trace w) = if closed (cw_context w) then all_names (cw_context w) else [];
}.

Lemma viable_entry_app {X} `{Registrable X} p n (x : X) l :
  l ++ viable_entry p n x = if isViable x then l ++ [(p, (n, x))] else l.
Proof. unfold viable_entry. destruct (isViable x); [done | by rewrite app_nil_r]. Qed.

Lemma closes_names (c : ContextImpl) :
  omap closes ((TransportClose <$> names (transports c)) ++ (ChannelClose <$> names (channels c))) = all_names c.
Proof.
  rewrite omap_app. unfold all_names. f_equal; [generalize (names (transports c)) | generalize (names (channels c))];
    intros l; induction l as [|n l IH]; try done; exact (f_equal (cons _) IH).
Qed.

Lemma handleError_tables (c : ContextImpl) :
  table_ok (listeners_ c, listener_heap c) -> table_ok (pipes_ c, pipe_heap c) ->
  exists ls lh ps ph,
    handleError c = Done (c <| listeners_ := ls |> <| listener_heap := lh |> <| pipes_ := ps |> <| pipe_heap := ph |>,
                          (TransportClose <$> names (transports c)) ++ (ChannelClose <$> names (channels c))) /\
    table_ok (ls, lh) /\ table_ok (ps, ph) /\ none_live lh /\ none_live ph.
Proof.
  intros C1 C2. destruct (close_table_ok _ C1) as ([ls lh] & Hl & Tl & Al). destruct (close_table_ok _ C2) as ([ps ph] & Hp & Tp & Ap).
  cbn [fst snd] in Hl, Hp. unfold handleError. rewrite Hl, bind_done. cbv beta iota zeta.
  change (pipes_ (c <| listeners_ := ls |> <| listener_heap := lh |>)) with (pipes_ c).
  change (pipe_heap (c <| listeners_ := ls |> <| listener_heap := lh |>)) with (pipe_heap c). rewrite Hp, bind_done.
  exists ls, lh, ps, ph. split_and!; try done; [exact (close_none_live _ (ls, lh) Al) | exact (close_none_live _ (ps, ph) Ap)].
Qed.

Lemma close_ok w : cinv w -> exists w', with_calls w (closeFromLoop (cw_context w)) = Done w' /\ cinv w'.
Proof.
  intros Hi. pose proof Hi as [C1 C2 C3 C4 C5 C6]. unfold closeFromLoop, setError. fold (closed (cw_context w)).
  destruct (closed (cw_context w)) eqn:Hc.
  { eexists. split; [reflexivity|]. rewrite app_nil_r. by destruct w. }
  change (false || negb (is_error ContextClosedError)) with false. cbv iota.
  destruct (handleError_tables (cw_context w <| error_ := ContextClosedError |>)) as (ls & lh & ps & ph & Hrun & Tl & Tp & Nl & Np);
    [exact C1 | exact C2 |]. rewrite Hrun.
  eexists. split; [reflexivity|]. split; simpl; try done. rewrite omap_app, C6. exact (closes_names (cw_context w)).
Qed.

Context `{!PromptEnrollee OL, !PromptEnrollee OP}.

Lemma join_ok w : cinv w -> closed (cw_context w) = true -> exists w', with_calls w (join (cw_context w)) = Done w' /\ cinv w'.
Proof.
  intros Hi Hc. pose proof Hi as [C1 C2 C3 C4 C5 C6]. destruct (C5 Hc) as [Hl Hp]. unfold join.
  destruct (joined_ (cw_context w)); [eexists; split; [reflexivity|]; rewrite app_nil_r; by destruct w|]. cbv zeta.
  change (listeners_ (cw_context w <| joined_ := true |>)) with (listeners_ (cw_context w)).
  change (pipes_ (cw_context w <| joined_ := true |>)) with (pipes_ (cw_context w)).
  rewrite (table_empty _ _ C1 Hl), (table_empty _ _ C2 Hp), !tp_check_bind by by apply bool_decide_eq_true.
  eexists. split; [reflexivity|]. split; simpl; try done.
  rewrite omap_app, C6. change (closed (cw_context w <| joined_ := true |>)) with (closed (cw_context w)). rewrite Hc, omap_app.
  assert (forall (f : string -> ccall) l, (forall n, closes (f n) = None) -> omap closes (f <$> l) = []) as Hno.
  { intros f l Hf. induction l as [|n l IH]; [done|]. simpl. by rewrite Hf. }
  rewrite !Hno, app_nil_r by done. done.
Qed.

Lemma cstep_ok w ev : cinv w -> cevent_ok w ev -> exists w', cstep w ev = Done w' /\ cinv w'.
Proof.
  intros [C1 C2 C3 C4 C5 C6] Hok. destruct ev as [p n x|p n x|id o|id o|id|id|id o' bs|id o' bs| |]; simpl in *.
  - unfold registerTransport. pose proof (register_ok p n x _ _ C3) as Hr. destruct (refused p n (cw_transports w)).
    + rewrite Hr. eexists. split; [reflexivity|]. by split.
    + destruct Hr as (r' & -> & Hr'). eexists. split; [reflexivity|]. split; simpl; try done; [by rewrite viable_entry_app|].
      change (closed (cw_context w <| _ := r' |>)) with (closed (cw_context w)). by rewrite Hok in C6 |- *.
  - unfold registerChannel. pose proof (register_ok p n x _ _ C4) as Hr. destruct (refused p n (cw_channels w)).
    + rewrite Hr. eexists. split; [reflexivity|]. by split.
    + destruct Hr as (r' & -> & Hr'). eexists. split; [reflexivity|]. split; simpl; try done; [by rewrite viable_entry_app|].
      change (closed (cw_context w <| _ := r' |>)) with (closed (cw_context w)). by rewrite Hok in C6 |- *.
  - destruct Hok as (Hn & Ho & Hp). eexists. split; [reflexivity|]. split; simpl; rewrite ?app_nil_r; try done; [by apply table_new|].
    intros Hc. destruct (C5 Hc). split; [|done]. apply none_live_insert; [done | by rewrite Hp].
  - destruct Hok as (Hn & Ho & Hp). eexists. split; [reflexivity|]. split; simpl; rewrite ?app_nil_r; try done; [by apply table_new|].
    intros Hc. destruct (C5 Hc). split; [done|]. apply none_live_insert; [done | by rewrite Hp].
  - destruct Hok as (o & Ho & Hn). destruct (object_init_ok (closed (cw_context w)) id _ o C1 Ho Hn) as (s' & o' & Hs & Ht & _ & Hcl & _).
    unfold listener_task. rewrite Hs. eexists. split; [reflexivity|]. split; simpl; rewrite ?app_nil_r; try done.
    intros Hc. destruct (C5 Hc). split; [|done]. apply none_live_insert; [done|]. by destruct (Hcl Hc) as [_ ->].
  - destruct Hok as (o & Ho & Hn). destruct (object_init_ok (closed (cw_context w)) id _ o C2 Ho Hn) as (s' & o' & Hs & Ht & _ & Hcl & _).
    unfold pipe_task. rewrite Hs. eexists. split; [reflexivity|]. split; simpl; rewrite ?app_nil_r; try done.
    intros Hc. destruct (C5 Hc). split; [done|]. apply none_live_insert; [done|]. by destruct (Hcl Hc) as [_ ->].
  - destruct Hok as (o & Ho & Hn & Ht). destruct (law_task o o' bs (tb_ok _ C1 _ _ Ho) Hn Ht) as [Ho' Hp].
    destruct (step_object id (fun _ => Done (o', bs)) _ o o' bs C1 Ho eq_refl Ho' Hp) as (s' & Hs & Ht').
    unfold listener_task. rewrite Hs. eexists. split; [reflexivity|]. split; simpl; rewrite ?app_nil_r; try done.
    intros Hc. destruct (C5 Hc) as [Hl ?]. split; [|done]. apply none_live_insert; [done|]. apply phase_step_later in Hp.
    apply (later_live _ _ Hp). by apply (Hl id).
  - destruct Hok as (o & Ho & Hn & Ht). destruct (law_task o o' bs (tb_ok _ C2 _ _ Ho) Hn Ht) as [Ho' Hp].
    destruct (step_object id (fun _ => Done (o', bs)) _ o o' bs C2 Ho eq_refl Ho' Hp) as (s' & Hs & Ht').
    unfold pipe_task. rewrite Hs. eexists. split; [reflexivity|]. split; simpl; rewrite ?app_nil_r; try done.
    intros Hc. destruct (C5 Hc) as [? Hl]. split; [done|]. apply none_live_insert; [done|]. apply phase_step_later in Hp.
    apply (later_live _ _ Hp). by apply (Hl id).
  - by apply close_ok.
  - by apply join_ok.
Qed.

Lemma creach_ok w : creach w -> cinv w.
Proof.
  induction 1 as [|w ev w' _ IH Hok Hw].
  - split; simpl; try done; apply table_ok_empty || apply registry_ok_empty.
  - destruct (cstep_ok _ _ IH Hok) as (w0 & Hw0 & Hi). rewrite Hw0 in Hw. by inversion Hw; subst.
Qed.
End Context.

(** ** What a context guarantees *)


(** The transports of a context are those registered with a non-empty name and
    viable, under names of their own; a pipe goes through them by decreasing
    priority, so the transport it selects has the highest priority of all those
    that can reach the other side. *)
Theorem context_selects_best {Ch OL OP} `{Registrable Select.TransportContext} `{Registrable Ch}
    `{EnrolleeLaws OL} `{EnrolleeLaws OP} `{!PromptEnrollee OL, !PromptEnrollee OP} (w : CWorld (Ch:=Ch) (OL:=OL) (OP:=OP)) remote addresses :
  creach w ->
  let transports := getOrderedTransports (cw_context w) in
  transports ≡ₚ (cw_transports w).*2 /\ NoDup transports.*1 /\
  match selectTransport transports remote addresses with
  | Done t => exists p x, (p, (st_name t, x)) ∈ cw_transports w /\ viable remote addresses (st_name t, x) /\
      addresses !! st_name t = Some (st_address t) /\ st_domainDescriptor t = tc_domainDescriptor x /\
      forall p' n' x', (p', (n', x')) ∈ cw_transports w -> viable remote addresses (n', x') -> p' <= p
  | Throw e => e = no_viable_transport /\ forall e, e ∈ cw_transports w -> ~ viable remote addresses e.2
  end.
Proof.
  intros Hw. apply creach_ok in Hw as [_ _ [R1 R2 R3 R4 R5] _ _ _]. cbv zeta.
  assert (getOrderedTransports (cw_context w) ≡ₚ (cw_transports w).*2) as Hp.
  { unfold getOrderedTransports. rewrite R1, <- list_fmap_compose. by apply Permutation_refl', list_fmap_ext. }
  split_and!; [done | by rewrite Hp |]. pose proof (selectTransport_ok (getOrderedTransports (cw_context w)) remote addresses) as Hs.
  destruct (selectTransport _ _ _) as [t|e].
  - destruct Hs as (pre & [n x] & post & Heq & Hpre & Hv & Hn & Ha & Hd). simpl in *. subst n.
    unfold getOrderedTransports in Heq. apply fmap_app_inv in Heq as (kpre & kpost & -> & Hk & Hl).
    destruct kpost as [|[k c] kpost]; [done|]. simpl in Hk. injection Hk as <- ->.
    assert ((k, (st_name t, x)) ∈ keyed <$> cw_transports w) as Hin.
    { rewrite <- R1, Hl. apply elem_of_app. right. by constructor. }
    apply list_elem_of_fmap in Hin as ([p [n1 x1]] & Hk & Hin). unfold keyed in Hk. simpl in Hk. injection Hk as Hk <- <-. subst k.
    exists p, x. split_and!; try done. intros p' n' x' Hin' Hv'.
    assert ((- p', (n', x')) ∈ rg_byPriority (transports (cw_context w))) as Hin2.
    { rewrite R1. apply list_elem_of_fmap. by exists (p', (n', x')). }
    rewrite Hl in Hin2. apply elem_of_app in Hin2 as [Hin2|Hin2].
    + rewrite Forall_forall in Hpre. destruct (Hpre (n', x')); [|done]. apply list_elem_of_fmap. by exists (- p', (n', x')).
    + apply elem_of_cons in Hin2 as [[= Hk _ _]|Hin2]; [lia|]. unfold increasing in R2. rewrite Hl, fmap_app in R2.
      apply StronglySorted_app_1_r in R2. simpl in R2. apply StronglySorted_inv in R2 as [_ Hall].
      rewrite Forall_forall in Hall. specialize (Hall (- p')). simpl in Hall.
      assert (- p < - p'); [|lia]. apply Hall. apply list_elem_of_fmap. by exists (- p', (n', x')).
  - destruct Hs as [-> Hall]. split; [done|]. intros e He. rewrite Forall_forall in Hall. apply Hall. rewrite Hp.
    by apply list_elem_of_fmap_2.
Qed.
