(* ===== verification/ChannelBase.v ===== *)
(** * Channels

    Models [channel/channel_impl_boilerplate.h], the base of every channel, over
    the interface of its virtual methods; and the world of a channel: a user who
    sends and receives, and an environment that calls the callbacks the channel
    hands out in any order.  [ChannelSafe] and [ChannelLive] state what an
    implementation owes to its users; the theorems about worlds use nothing
    else. *)

From S2P Require Import Prelude Messages.

(** Transport connections are opaque handles. *)
Definition conn : Type := Z.

(** A request to copy memory of another thread or process ([cr_remotePid]). *)
Record CopyRequest := mkCopyRequest {
  cr_remotePid : option Z;
  cr_remotePtr : Z;
  cr_localPtr : Z;
  cr_length : Z;
}.

(** The calls of the CUDA library, each under the device that is current. *)
Inductive cuda_call :=
| CudaEventCreate (device event : Z)
| CudaEventRecord (device event stream : Z)
| CudaStreamWaitEvent (device stream event : Z)
| CudaMemcpyAsync (device dst src length stream : Z).

(** The calls out of a channel, with the callbacks they register: to its user, its
    connections, its context, CUDA, a channel between CPUs that it uses,
    allocators of staging buffers and the outboxes of its peer: the calls of CUDA
    that copy from a slot of such an outbox are one call.  [Pkt] are the
    objects it exchanges with its peer, [Cb] its own callbacks. *)
Section Calls.
Context {Pkt Cb : Type}.

Inductive ccall :=
| UserSend (f : callback) (e : Error)
| UserRecv (f : callback) (e : Error)
| ConnWrite (c : conn) (ptr len : Z) (k : Cb)
| ConnWriteNop (c : conn) (p : Pkt) (k : Cb)
| ConnRead (c : conn) (ptr len : Z) (k : Cb)
| ConnReadNop (c : conn) (k : Cb)
| ConnClose (c : conn)
| CtxRequestCopy (r : CopyRequest) (k : Cb)
| CtxRegister (laneIdx : nat) (token : Z) (k : Cb)
| CtxUnregister (token : Z)
| CtxConnect (laneIdx : nat) (address : string) (c : conn)
| CtxEnroll
| CtxUnenroll
| CudaCall (c : cuda_call)
| CudaLoopCallback (device stream : Z) (k : Cb)
| CpuChannelSend (ptr len : Z) (k : Cb)
| CpuChannelRecv (ptr len : Z) (k : Cb)
| CpuChannelClose
| StagingAlloc (sender : bool) (device len : Z) (k : Cb)
| StagingFree (ptr : Z)
| OutboxOpen (localDeviceIdx remoteDeviceIdx : Z)
| OutboxCopy (remoteDeviceIdx remoteSlotIdx : Z) (calls : list cuda_call).

Definition user_send (c : ccall) : option callback :=
  match c with UserSend f _ => Some f | _ => None end.
Definition user_recv (c : ccall) : option callback :=
  match c with UserRecv f _ => Some f | _ => None end.
Definition cb_of (c : ccall) : option Cb :=
  match c with
  | ConnWrite _ _ _ k | ConnWriteNop _ _ k | ConnRead _ _ _ k | ConnReadNop _ k
  | CtxRequestCopy _ k | CtxRegister _ _ k | CudaLoopCallback _ _ k
  | CpuChannelSend _ _ k | CpuChannelRecv _ _ k | StagingAlloc _ _ _ k => Some k
  | _ => None
  end.
End Calls.
Arguments ccall : clear implicits.

(** What an operation asks of the [pc_lane]-th connection of a channel when it
    starts. *)
Record piece := mkPiece {
  pc_lane : nat;
  pc_ptr : Z;
  pc_len : Z;
  pc_it : Z;
}.

(** ** The interface of the implementations *)

Class ChannelImpl (I Pkt Cb Data : Type) := {
  initImplFromLoop : Data -> I -> outcome (I * list (ccall Pkt Cb));
  sendImplFromLoop : Error -> Z -> Z -> Z -> callback -> I -> outcome (I * list (ccall Pkt Cb));
  recvImplFromLoop : Error -> Z -> Z -> Z -> callback -> I -> outcome (I * list (ccall Pkt Cb));
  handleErrorImpl : Error -> I -> outcome (I * list (ccall Pkt Cb));
  callback_body : Error -> Cb -> Data -> I -> outcome (I * list (ccall Pkt Cb));
}.

Record Channel (I : Type) := mkChannel {
  ch_error_ : Error;
  nextTensorBeingSent_ : Z;
  nextTensorBeingReceived_ : Z;
  ch_impl : I;
}.
Arguments mkChannel {I}.
Arguments ch_error_ {I}.
Arguments nextTensorBeingSent_ {I}.
Arguments nextTensorBeingReceived_ {I}.
Arguments ch_impl {I}.
#[export] Instance eta_Channel {I} : Eta (Channel I) := fun c =>
  mkChannel (ch_error_ c) (nextTensorBeingSent_ c) (nextTensorBeingReceived_ c) (ch_impl c).

Definition newChannel {I} (x : I) : Channel I := mkChannel kSuccess 0 0 x.

Section Boilerplate.
Context {I Pkt Cb Data : Type} `{!ChannelImpl I Pkt Cb Data}.
Local Abbreviation call := (ccall Pkt Cb).
Local Abbreviation result := (outcome (Channel I * list call)).

Definition with_impl (c : Channel I) (m : outcome (I * list call)) : result :=
  r ← m; Done (c <| ch_impl := r.1 |>, r.2).

Definition initFromLoop (contextClosed : bool) (d : Data) (c : Channel I) : result :=
  if contextClosed then Done (c <| ch_error_ := ChannelClosedError |>, [])
  else with_impl c (initImplFromLoop d (ch_impl c)).

Definition sendFromLoop (ptr length : Z) (fn : nat) (c : Channel I) : result :=
  let sequenceNumber := nextTensorBeingSent_ c in
  let c := c <| nextTensorBeingSent_ := u64 (sequenceNumber + 1) |> in
  let f := mkCallback sequenceNumber fn in
  if is_error (ch_error_ c) then Done (c, [UserSend f (ch_error_ c)])
  else with_impl c (sendImplFromLoop (ch_error_ c) sequenceNumber ptr length f (ch_impl c)).

Definition recvFromLoop (ptr length : Z) (fn : nat) (c : Channel I) : result :=
  let sequenceNumber := nextTensorBeingReceived_ c in
  let c := c <| nextTensorBeingReceived_ := u64 (sequenceNumber + 1) |> in
  let f := mkCallback sequenceNumber fn in
  if is_error (ch_error_ c) then Done (c, [UserRecv f (ch_error_ c)])
  else with_impl c (recvImplFromLoop (ch_error_ c) sequenceNumber ptr length f (ch_impl c)).

Definition handleError (c : Channel I) : result := with_impl c (handleErrorImpl (ch_error_ c) (ch_impl c)).

Definition setError (error : Error) (c : Channel I) : result :=
  if is_error (ch_error_ c) || negb (is_error error) then Done (c, [])
  else handleError (c <| ch_error_ := error |>).

Definition closeFromLoop (c : Channel I) : result := setError ChannelClosedError c.

(** [CallbackWrapper::entryPointFromLoop] for a callback of the channel. *)
Definition entryPointFromLoop (k : Cb) (e : Error) (d : Data) (c : Channel I) : result :=
  r ← setError e c;
  r' ← with_impl r.1 (callback_body (ch_error_ r.1) k d (ch_impl r.1));
  Done (r'.1, r.2 ++ r'.2).

(** ** The world of a channel *)

(** The callbacks outstanding after some calls.  A registration that is
    withdrawn stays among them: its callback may already be on its way. *)
Definition outstanding (out : list Cb) (calls : list call) : list Cb := out ++ omap cb_of calls.

Lemma outstanding_app out evs1 evs2 :
  outstanding out (evs1 ++ evs2) = outstanding (outstanding out evs1) evs2.
Proof. unfold outstanding. by rewrite omap_app, app_assoc. Qed.

Lemma outstanding_nil out (calls : list call) : omap cb_of calls = [] -> outstanding out calls = out.
Proof. unfold outstanding. intros ->. apply app_nil_r. Qed.

(** [cw_sends] and [cw_recvs] are the pointers and lengths the user gave so far. *)
Record CWorld := mkCWorld {
  cw_chan : Channel I;
  cw_out : list Cb;
  cw_trace : list call;
  cw_sends : list (Z * Z);
  cw_recvs : list (Z * Z);
}.

Inductive chan_event :=
| CSend (ptr length : Z)
| CRecv (ptr length : Z)
| CClose
| CDeliver (i : nat) (e : Error) (d : Data).

Definition cw_after (w : CWorld) (out : list Cb) (sends recvs : list (Z * Z)) (m : result) : outcome CWorld :=
  r ← m; Done (mkCWorld r.1 (outstanding out r.2) (cw_trace w ++ r.2) sends recvs).

(** The user's [n]-th callbacks for sends and receives are number [n]. *)
Definition chan_step (w : CWorld) (ev : chan_event) : outcome CWorld :=
  match ev with
  | CSend ptr length =>
      cw_after w (cw_out w) (cw_sends w ++ [(ptr, length)]) (cw_recvs w)
        (sendFromLoop ptr length (List.length (cw_sends w)) (cw_chan w))
  | CRecv ptr length =>
      cw_after w (cw_out w) (cw_sends w) (cw_recvs w ++ [(ptr, length)])
        (recvFromLoop ptr length (List.length (cw_recvs w)) (cw_chan w))
  | CClose => cw_after w (cw_out w) (cw_sends w) (cw_recvs w) (closeFromLoop (cw_chan w))
  | CDeliver i e d =>
      match cw_out w !! i with
      | None => Done w
      | Some k =>
          cw_after w (delete i (cw_out w)) (cw_sends w) (cw_recvs w) (entryPointFromLoop k e d (cw_chan w))
      end
  end.

(** The calls that the requests [l] make when they start, in order. *)
Fixpoint starts_from (f : Z -> Z * Z -> list piece) (n : Z) (l : list (Z * Z)) : list piece :=
  match l with
  | [] => []
  | a :: l => f n a ++ starts_from f (n + 1) l
  end.

(** The callbacks of the first [n] requests. *)
Definition requests (n : nat) : list callback := (fun i => mkCallback (Z.of_nat i) i) <$> seq 0 n.
End Boilerplate.
Arguments CWorld : clear implicits.
Arguments chan_event : clear implicits.

(** ** What an implementation promises *)

(** How an operation of a channel reports what it does: [view] gives the
    callbacks owed to the user and the calls not made yet, for sends and for
    receives. *)
Record chan_view (I Pkt Cb : Type) := mkView {
  owed_sends : I -> list callback;
  owed_recvs : I -> list callback;
  (* the calls that start a send or a receive *)
  start_send : ccall Pkt Cb -> option piece;
  start_recv : ccall Pkt Cb -> option piece;
  send_starts : I -> Z -> Z * Z -> list piece;
  recv_starts : I -> Z -> Z * Z -> list piece;
  unstarted_sends : I -> list piece;
  unstarted_recvs : I -> list piece;
}.
Arguments mkView {I Pkt Cb}.
Arguments owed_sends {I Pkt Cb}.
Arguments owed_recvs {I Pkt Cb}.
Arguments start_send {I Pkt Cb}.
Arguments start_recv {I Pkt Cb}.
Arguments send_starts {I Pkt Cb}.
Arguments recv_starts {I Pkt Cb}.
Arguments unstarted_sends {I Pkt Cb}.
Arguments unstarted_recvs {I Pkt Cb}.

Lemma omap_none {A B} (f : A -> option B) l : Forall (fun a => f a = None) l -> omap f l = [].
Proof. induction 1 as [|a l Ha _ IH]; [done|]. simpl. by rewrite Ha. Qed.

Section Post.
Context {I Pkt Cb Data : Type} `{!ChannelImpl I Pkt Cb Data}.
Variable v : chan_view I Pkt Cb.
Variable inv : Error -> list (Z * Z) -> list (Z * Z) -> option Cb -> list Cb -> I -> Prop.

Record chan_post (e : Error) (ns nr : list (Z * Z)) (cur : option Cb) (out : list Cb)
    (adds addr : list callback) (news newr : list piece) (x : I) (r : I * list (ccall Pkt Cb)) : Prop := {
  cp_inv : inv e ns nr cur (outstanding out r.2) r.1;
  cp_owed_sends : adds ++ owed_sends v x ≡ₚ omap user_send r.2 ++ owed_sends v r.1;
  cp_owed_recvs : addr ++ owed_recvs v x ≡ₚ omap user_recv r.2 ++ owed_recvs v r.1;
  cp_unstarted : is_error e = false ->
    unstarted_sends v x ++ news = omap (start_send v) r.2 ++ unstarted_sends v r.1 /\
    unstarted_recvs v x ++ newr = omap (start_recv v) r.2 ++ unstarted_recvs v r.1;
  cp_starts : send_starts v r.1 = send_starts v x /\ recv_starts v r.1 = recv_starts v x;
}.

Lemma chan_post_refl e ns nr cur out x : inv e ns nr cur out x -> chan_post e ns nr cur out [] [] [] [] x (x, []).
Proof. intros Hi. split; unfold outstanding; simpl; rewrite ?app_nil_r; done. Qed.

(** Calls before the others that concern nobody but a library. *)
Definition quiet_call (c : ccall Pkt Cb) : Prop :=
  user_send c = None /\ user_recv c = None /\ start_send v c = None /\ start_recv v c = None /\ cb_of c = None.

Lemma chan_post_before e ns nr cur out adds addr news newr x r pre :
  chan_post e ns nr cur out adds addr news newr x r -> Forall quiet_call pre ->
  chan_post e ns nr cur out adds addr news newr x (r.1, pre ++ r.2).
Proof.
  intros [Hi HS HR Hu Hs] Hp.
  assert (omap user_send pre = [] /\ omap user_recv pre = [] /\ omap (start_send v) pre = [] /\
          omap (start_recv v) pre = [] /\ omap cb_of pre = []) as (E1 & E2 & E3 & E4 & E5).
  { split_and!; apply omap_none; (eapply Forall_impl; [exact Hp|]); by intros c (? & ? & ? & ? & ?). }
  split; cbn [fst snd]; rewrite ?outstanding_app, ?omap_app, ?E1, ?E2, ?E3, ?E4, ?(outstanding_nil out pre E5); done.
Qed.

Lemma chan_post_after e ns nr cur out adds addr news newr x r post :
  chan_post e ns nr cur out adds addr news newr x r -> Forall quiet_call post ->
  chan_post e ns nr cur out adds addr news newr x (r.1, r.2 ++ post).
Proof.
  intros [Hi HS HR Hu Hs] Hp.
  assert (omap user_send post = [] /\ omap user_recv post = [] /\ omap (start_send v) post = [] /\
          omap (start_recv v) post = [] /\ omap cb_of post = []) as (E1 & E2 & E3 & E4 & E5).
  { split_and!; apply omap_none; (eapply Forall_impl; [exact Hp|]); by intros c (? & ? & ? & ? & ?). }
  split; cbn [fst snd]; rewrite ?outstanding_app, ?omap_app, ?E1, ?E2, ?E3, ?E4, ?(outstanding_nil _ post E5), ?app_nil_r; done.
Qed.

Lemma chan_post_seq e ns nr ns' nr' cur cur' out adds addr news newr adds' addr' news' newr' x x1 evs1 r2 :
  chan_post e ns nr cur out adds addr news newr x (x1, evs1) ->
  chan_post e ns' nr' cur' (outstanding out evs1) adds' addr' news' newr' x1 r2 ->
  chan_post e ns' nr' cur' out (adds ++ adds') (addr ++ addr') (news ++ news') (newr ++ newr') x (r2.1, evs1 ++ r2.2).
Proof.
  intros [_ HS1 HR1 Hu1 [Hss1 Hrs1]] [Hi2 HS2 HR2 Hu2 [Hss2 Hrs2]]. simpl in *. split; simpl.
  - by rewrite outstanding_app.
  - transitivity (adds' ++ (adds ++ owed_sends v x)); [solve_perm|]. rewrite HS1.
    transitivity (omap user_send evs1 ++ (adds' ++ owed_sends v x1)); [solve_perm|]. by rewrite HS2, omap_app, app_assoc.
  - transitivity (addr' ++ (addr ++ owed_recvs v x)); [solve_perm|]. rewrite HR1.
    transitivity (omap user_recv evs1 ++ (addr' ++ owed_recvs v x1)); [solve_perm|]. by rewrite HR2, omap_app, app_assoc.
  - intros He. destruct (Hu1 He) as [A1 A2], (Hu2 He) as [B1 B2].
    rewrite !omap_app, <- !app_assoc, <- B1, <- B2, !app_assoc, A1, A2. done.
  - split; congruence.
Qed.

Lemma chan_post_trans e ns nr ns' nr' cur cur' out adds addr news newr x x1 evs1 r2 :
  chan_post e ns nr cur out adds addr news newr x (x1, evs1) ->
  chan_post e ns' nr' cur' (outstanding out evs1) [] [] [] [] x1 r2 ->
  chan_post e ns' nr' cur' out adds addr news newr x (r2.1, evs1 ++ r2.2).
Proof. intros H1 H2. pose proof (chan_post_seq _ _ _ _ _ _ _ _ _ _ _ _ _ _ _ _ _ _ _ _ H1 H2) as Hp. by rewrite !app_nil_r in Hp. Qed.
End Post.

(** [ch_inv e ns nr cur out x]: [x] is consistent with the error [e], the
    sends and receives requested so far, the callback [cur] being called and
    the callbacks outstanding. *)
Class ChannelSafe (I Pkt Cb Data : Type) `{!ChannelImpl I Pkt Cb Data} := {
  ch_inv : Error -> list (Z * Z) -> list (Z * Z) -> option Cb -> list Cb -> I -> Prop;
  ch_view : chan_view I Pkt Cb;
  ch_fits : I -> Cb -> Data -> Prop;          (* what the peer may deliver *)
  ch_asks : I -> list (Z * Z) -> Z -> Z -> Prop;   (* what the user may ask for, after some requests *)
  ch_initial : I -> Data -> Prop;
  law_new : forall x d, ch_initial x d -> owed_sends ch_view x = [] /\ owed_recvs ch_view x = [] /\
    unstarted_sends ch_view x = [] /\ unstarted_recvs ch_view x = [] /\
    ch_inv ChannelClosedError [] [] None [] x /\
    wp (initImplFromLoop d x) (fun _ => False) (chan_post ch_view ch_inv kSuccess [] [] None [] [] [] [] [] x);
  law_send : forall ns nr out ptr len f x, ch_inv kSuccess ns nr None out x -> Z.of_nat (length ns) + 1 < 2 ^ 63 ->
    ch_asks x ns ptr len ->
    wp (sendImplFromLoop kSuccess (Z.of_nat (length ns)) ptr len f x) (fun _ => False)
       (chan_post ch_view ch_inv kSuccess (ns ++ [(ptr, len)]) nr None out [f] []
          (send_starts ch_view x (Z.of_nat (length ns)) (ptr, len)) [] x);
  law_recv : forall ns nr out ptr len f x, ch_inv kSuccess ns nr None out x -> Z.of_nat (length nr) + 1 < 2 ^ 63 ->
    ch_asks x nr ptr len ->
    wp (recvImplFromLoop kSuccess (Z.of_nat (length nr)) ptr len f x) (fun _ => False)
       (chan_post ch_view ch_inv kSuccess ns (nr ++ [(ptr, len)]) None out [] [f] []
          (recv_starts ch_view x (Z.of_nat (length nr)) (ptr, len)) x);
  law_skip : forall e ns nr out a x, ch_inv e ns nr None out x -> is_error e = true ->
    ch_inv e (ns ++ [a]) nr None out x /\ ch_inv e ns (nr ++ [a]) None out x;
  law_error : forall e ns nr cur out x, ch_inv kSuccess ns nr cur out x -> is_error e = true ->
    wp (handleErrorImpl e x) (fun _ => False) (chan_post ch_view ch_inv e ns nr cur out [] [] [] [] x);
  law_take : forall e ns nr out i k x, ch_inv e ns nr None out x -> out !! i = Some k ->
    ch_inv e ns nr (Some k) (delete i out) x;
  law_body : forall e ns nr out k d x, ch_inv e ns nr (Some k) out x ->
    (is_error e = false -> ch_fits x k d) ->
    wp (callback_body e k d x) (fun _ => False) (chan_post ch_view ch_inv e ns nr None out [] [] [] [] x);
}.

(** Once only callbacks that nothing waits for are outstanding, nothing is owed
    to the user, on the condition [live_ok]. *)
Class ChannelLive (I Pkt Cb Data : Type) `{!ChannelImpl I Pkt Cb Data, !ChannelSafe I Pkt Cb Data} := {
  awaited : Error -> Cb -> bool;
  live_ok : list (Z * Z) -> list (Z * Z) -> I -> Prop;
  law_quiet : forall e ns nr out (x : I), ch_inv e ns nr None out x -> live_ok ns nr x ->
    Forall (fun k => awaited e k = false) out -> owed_sends ch_view x = [] /\ owed_recvs ch_view x = [];
}.

(** ** Every reachable world *)

Section Worlds.
Context {I Pkt Cb Data : Type} `{!ChannelImpl I Pkt Cb Data, !ChannelSafe I Pkt Cb Data}.

Definition chan_event_ok (w : CWorld I Pkt Cb) (ev : chan_event Data) : Prop :=
  match ev with
  | CSend ptr len => Z.of_nat (length (cw_sends w)) + 1 < 2 ^ 63 /\ ch_asks (ch_impl (cw_chan w)) (cw_sends w) ptr len
  | CRecv ptr len => Z.of_nat (length (cw_recvs w)) + 1 < 2 ^ 63 /\ ch_asks (ch_impl (cw_chan w)) (cw_recvs w) ptr len
  | CClose => True
  | CDeliver i e d => exists k, cw_out w !! i = Some k /\
      (is_error e = false -> is_error (ch_error_ (cw_chan w)) = false -> ch_fits (ch_impl (cw_chan w)) k d)
  end.

Definition chan_init (closed : bool) (d : Data) (x : I) : outcome (CWorld I Pkt Cb) :=
  r ← initFromLoop closed d (newChannel x); Done (mkCWorld r.1 (outstanding [] r.2) r.2 [] []).

Inductive chan_reach : CWorld I Pkt Cb -> Prop :=
| chan_start closed d x w : ch_initial x d -> chan_init closed d x = Done w -> chan_reach w
| chan_next w ev w' : chan_reach w -> chan_event_ok w ev -> chan_step w ev = Done w' -> chan_reach w'.

#[local] Arguments Z.of_nat : simpl never.

(** The callbacks, of requests numbered from 0, that were called and are owed;
    and the calls made and yet to be made. *)
Definition calls_ok (l : list (Z * Z)) (called owed : list callback) : Prop :=
  requests (length l) ≡ₚ called ++ owed.
Definition starts_ok (f : Z -> Z * Z -> list piece) (l : list (Z * Z)) (made rest : list piece) : Prop :=
  starts_from f 0 l = made ++ rest.

Record cworld_ok (w : CWorld I Pkt Cb) : Prop := {
  ck_inv : ch_inv (ch_error_ (cw_chan w)) (cw_sends w) (cw_recvs w) None (cw_out w) (ch_impl (cw_chan w));
  ck_sent : nextTensorBeingSent_ (cw_chan w) = Z.of_nat (length (cw_sends w));
  ck_received : nextTensorBeingReceived_ (cw_chan w) = Z.of_nat (length (cw_recvs w));
  ck_sends : calls_ok (cw_sends w) (omap user_send (cw_trace w)) (owed_sends ch_view (ch_impl (cw_chan w)));
  ck_recvs : calls_ok (cw_recvs w) (omap user_recv (cw_trace w)) (owed_recvs ch_view (ch_impl (cw_chan w)));
  ck_starts : is_error (ch_error_ (cw_chan w)) = false ->
    starts_ok (send_starts ch_view (ch_impl (cw_chan w))) (cw_sends w)
      (omap (start_send ch_view) (cw_trace w)) (unstarted_sends ch_view (ch_impl (cw_chan w))) /\
    starts_ok (recv_starts ch_view (ch_impl (cw_chan w))) (cw_recvs w)
      (omap (start_recv ch_view) (cw_trace w)) (unstarted_recvs ch_view (ch_impl (cw_chan w)));
  ck_bound : Z.of_nat (length (cw_sends w)) < 2 ^ 63 /\ Z.of_nat (length (cw_recvs w)) < 2 ^ 63;
}.

Lemma requests_snoc l (a : Z * Z) :
  requests (length (l ++ [a])) = requests (length l) ++ [mkCallback (Z.of_nat (length l)) (length l)].
Proof. rewrite length_app. simpl. rewrite Nat.add_1_r. unfold requests. by rewrite seq_S, fmap_app. Qed.

Lemma calls_snoc l a called owed called' owed' :
  calls_ok l called owed ->
  [mkCallback (Z.of_nat (length l)) (length l)] ++ owed ≡ₚ called' ++ owed' ->
  calls_ok (l ++ [a]) (called ++ called') owed'.
Proof.
  unfold calls_ok. intros H1 H2. rewrite requests_snoc, H1, <- (app_assoc called called'), <- H2. solve_perm.
Qed.

Lemma calls_more l called owed called' owed' :
  calls_ok l called owed -> owed ≡ₚ called' ++ owed' -> calls_ok l (called ++ called') owed'.
Proof. unfold calls_ok. intros H1 H2. by rewrite H1, H2, app_assoc. Qed.

Lemma starts_from_snoc f n l a :
  starts_from f n (l ++ [a]) = starts_from f n l ++ f (n + Z.of_nat (length l)) a.
Proof.
  revert n. induction l as [|b l IH]; intros n; simpl.
  - by rewrite Z.add_0_r, app_nil_r.
  - rewrite IH, <- app_assoc. do 2 f_equal. f_equal. lia.
Qed.

Lemma starts_snoc f f' l a made rest made' rest' :
  starts_ok f l made rest -> f' = f -> rest ++ f (Z.of_nat (length l)) a = made' ++ rest' ->
  starts_ok f' (l ++ [a]) (made ++ made') rest'.
Proof.
  unfold starts_ok. intros H1 -> H2. by rewrite starts_from_snoc, H1, Z.add_0_l, <- !app_assoc, H2.
Qed.

Lemma starts_more f f' l made rest made' rest' :
  starts_ok f l made rest -> f' = f -> rest ++ [] = made' ++ rest' -> starts_ok f' l (made ++ made') rest'.
Proof. unfold starts_ok. rewrite app_nil_r. intros H1 -> H2. by rewrite H1, <- app_assoc, H2. Qed.

Lemma chan_setError_ok e c ns nr cur out :
  ch_inv (ch_error_ c) ns nr cur out (ch_impl c) ->
  wp (setError e c) (fun _ => False) (fun r =>
    r.1 = c <| ch_error_ := ch_error_ r.1 |> <| ch_impl := ch_impl r.1 |> /\
    (is_error (ch_error_ r.1) = false -> is_error e = false /\ is_error (ch_error_ c) = false /\ r = (c, [])) /\
    chan_post ch_view ch_inv (ch_error_ r.1) ns nr cur out [] [] [] [] (ch_impl c) (ch_impl r.1, r.2)).
Proof.
  intros Hi. unfold setError. destruct (is_error (ch_error_ c)) eqn:He; simpl.
  - split_and!; [by destruct c | congruence | by apply chan_post_refl].
  - destruct (is_error e) eqn:Hee; simpl.
    + destruct (ch_error_ c) eqn:Hc; try done. unfold handleError, with_impl. apply wp_bind.
      eapply wp_mono; [apply (law_error e ns nr cur out); [exact Hi | done]|].
      intros [x' evs] Hp. simpl. split_and!; [by destruct c | by rewrite Hee | exact Hp].
    + split_and!; [by destruct c | done | by apply chan_post_refl].
Qed.

Lemma chan_entryPoint_ok k e d c ns nr out :
  ch_inv (ch_error_ c) ns nr (Some k) out (ch_impl c) ->
  (is_error e = false -> is_error (ch_error_ c) = false -> ch_fits (ch_impl c) k d) ->
  wp (entryPointFromLoop k e d c) (fun _ => False) (fun r =>
    r.1 = c <| ch_error_ := ch_error_ r.1 |> <| ch_impl := ch_impl r.1 |> /\
    (is_error (ch_error_ r.1) = false -> is_error (ch_error_ c) = false) /\
    chan_post ch_view ch_inv (ch_error_ r.1) ns nr None out [] [] [] [] (ch_impl c) (ch_impl r.1, r.2)).
Proof.
  intros Hi Hf. unfold entryPointFromLoop. apply wp_bind.
  eapply wp_mono; [by apply (chan_setError_ok e)|]. intros [c1 evs1] (Hc1 & Hne & Hp1). simpl in *.
  apply wp_bind. unfold with_impl. apply wp_bind. eapply wp_mono.
  { apply (law_body _ ns nr (outstanding out evs1)); [apply Hp1|]. intros He.
    destruct (Hne He) as (? & ? & [= -> _]). by apply Hf. }
  intros [x2 evs2] Hp2. simpl in *.
  split; [by rewrite Hc1|]. split; [by intros He; apply Hne|].
  exact (chan_post_trans _ _ _ _ _ _ _ _ _ _ _ _ _ _ _ _ _ (x2, evs2) Hp1 Hp2).
Qed.

Lemma no_error_success e : is_error e = false -> e = kSuccess.
Proof. by destruct e. Qed.

Lemma length_snoc_Z (l : list (Z * Z)) a : Z.of_nat (length (l ++ [a])) = Z.of_nat (length l) + 1.
Proof. rewrite length_app. simpl. lia. Qed.

(** Any allowed event can be handled, and the invariant holds again. *)
Lemma send_step_ok w ptr len :
  cworld_ok w -> chan_event_ok w (CSend ptr len) -> wp (chan_step w (CSend ptr len)) (fun _ => False) cworld_ok.
Proof.
  intros [Hi Hs Hr HS HR Hst [Hb1 Hb2]] [Hev Hasks]. simpl in *.
  unfold cw_after, sendFromLoop. apply wp_bind. cbn [ch_error_ field_update].
  rewrite Hs, u64_small by (unfold is_u64; lia). destruct (is_error (ch_error_ (cw_chan w))) eqn:He; simpl.
  - split; simpl; rewrite ?(outstanding_nil _ [_]) by done; rewrite ?omap_app, ?length_snoc_Z, ?app_nil_r; try done; try congruence.
    + by apply law_skip.
    + by eapply calls_snoc.
  - apply no_error_success in He as Hc. rewrite Hc in *. unfold with_impl. apply wp_bind.
    eapply wp_mono; [by apply (law_send (cw_sends w) (cw_recvs w) (cw_out w))|].
    intros [x' evs] [Hi' HS' HR' Hst' [Hss Hrs]]. simpl in *.
    destruct (Hst eq_refl) as [A1 A2], (Hst' eq_refl) as [B1 B2].
    split; simpl; rewrite ?omap_app, ?length_snoc_Z, ?Hc; try done.
    + by eapply calls_snoc.
    + by eapply calls_more.
    + intros _. split; [by eapply starts_snoc | by eapply starts_more].
Qed.

Lemma recv_step_ok w ptr len :
  cworld_ok w -> chan_event_ok w (CRecv ptr len) -> wp (chan_step w (CRecv ptr len)) (fun _ => False) cworld_ok.
Proof.
  intros [Hi Hs Hr HS HR Hst [Hb1 Hb2]] [Hev Hasks]. simpl in *.
  unfold cw_after, recvFromLoop. apply wp_bind. cbn [ch_error_ field_update].
  rewrite Hr, u64_small by (unfold is_u64; lia). destruct (is_error (ch_error_ (cw_chan w))) eqn:He; simpl.
  - split; simpl; rewrite ?(outstanding_nil _ [_]) by done; rewrite ?omap_app, ?length_snoc_Z, ?app_nil_r; try done; try congruence.
    + by apply law_skip.
    + by eapply calls_snoc.
  - apply no_error_success in He as Hc. rewrite Hc in *. unfold with_impl. apply wp_bind.
    eapply wp_mono; [by apply (law_recv (cw_sends w) (cw_recvs w) (cw_out w))|].
    intros [x' evs] [Hi' HS' HR' Hst' [Hss Hrs]]. simpl in *.
    destruct (Hst eq_refl) as [A1 A2], (Hst' eq_refl) as [B1 B2].
    split; simpl; rewrite ?omap_app, ?length_snoc_Z, ?Hc; try done.
    + by eapply calls_more.
    + by eapply calls_snoc.
    + intros _. split; [by eapply starts_more | by eapply starts_snoc].
Qed.

(** What closing and callbacks have in common. *)
Lemma cw_after_ok w out (m : outcome (Channel I * list (ccall Pkt Cb))) :
  cworld_ok w ->
  wp m (fun _ => False) (fun r =>
    r.1 = cw_chan w <| ch_error_ := ch_error_ r.1 |> <| ch_impl := ch_impl r.1 |> /\
    (is_error (ch_error_ r.1) = false -> is_error (ch_error_ (cw_chan w)) = false) /\
    chan_post ch_view ch_inv (ch_error_ r.1) (cw_sends w) (cw_recvs w) None out [] [] [] []
      (ch_impl (cw_chan w)) (ch_impl r.1, r.2)) ->
  wp (cw_after w out (cw_sends w) (cw_recvs w) m) (fun _ => False) cworld_ok.
Proof.
  intros [Hi Hs Hr HS HR Hst [Hb1 Hb2]] Hm. unfold cw_after. apply wp_bind. eapply wp_mono; [exact Hm|].
  intros [c' evs] (Hc' & Hne & [Hi' HS' HR' Hst' [Hss Hrs]]). simpl in *.
  split; simpl; rewrite ?omap_app; try done; try (by rewrite Hc').
  - by eapply calls_more.
  - by eapply calls_more.
  - intros He. destruct (Hst (Hne He)) as [A1 A2], (Hst' He) as [B1 B2].
    split; by eapply starts_more.
Qed.

Lemma chan_step_ok w ev :
  cworld_ok w -> chan_event_ok w ev -> wp (chan_step w ev) (fun _ => False) cworld_ok.
Proof.
  intros Hw Hev. destruct ev as [ptr len|ptr len| |i e d].
  - by apply send_step_ok.
  - by apply recv_step_ok.
  - apply cw_after_ok; [done|]. eapply wp_mono; [by apply chan_setError_ok, Hw|]. simpl.
    intros r (H1 & H2 & H3). split_and!; [done | by intros He; apply H2 | done..].
  - destruct Hev as (k & Hk & Hf). simpl. rewrite Hk. apply cw_after_ok; [done|].
    apply chan_entryPoint_ok; [|done]. eapply law_take; [apply Hw | done].
Qed.

Lemma chan_init_ok closed d x :
  ch_initial x d -> wp (chan_init closed d x) (fun _ => False) cworld_ok.
Proof.
  intros Hx. destruct (law_new x d Hx) as (HS & HR & HuS & HuR & Hi & Hinit). unfold chan_init, initFromLoop.
  apply wp_bind. destruct closed; simpl.
  - split; simpl; unfold calls_ok; rewrite ?HS, ?HR; done.
  - unfold with_impl. apply wp_bind. eapply wp_mono; [exact Hinit|].
    intros [x' evs] [Hi' HS' HR' Hst [Hss Hrs]]. simpl in *.
    rewrite HS in HS'. rewrite HR in HR'. rewrite HuS, HuR in Hst. by split.
Qed.

Lemma chan_reach_ok w : chan_reach w -> cworld_ok w.
Proof.
  induction 1 as [closed d x w Hx Hw|w ev w' _ IH Hev Hw].
  - pose proof (chan_init_ok closed d x Hx) as Hp. by rewrite Hw in Hp.
  - pose proof (chan_step_ok w ev IH Hev) as Hp. by rewrite Hw in Hp.
Qed.

Lemma requests_NoDup n : NoDup (requests n).
Proof. apply NoDup_fmap; [by intros ? ? [=]|]. apply NoDup_seq. Qed.

(** No call is made twice, and only for requests. *)
Lemma chan_at_most_once w :
  chan_reach w ->
  NoDup (omap user_send (cw_trace w)) /\ omap user_send (cw_trace w) ⊆+ requests (length (cw_sends w)) /\
  NoDup (omap user_recv (cw_trace w)) /\ omap user_recv (cw_trace w) ⊆+ requests (length (cw_recvs w)).
Proof.
  intros Hw. pose proof (ck_sends _ (chan_reach_ok w Hw)) as HS. pose proof (ck_recvs _ (chan_reach_ok w Hw)) as HR.
  assert (forall l owed n, requests n ≡ₚ l ++ owed -> NoDup l /\ l ⊆+ requests n) as Hgen.
  { intros l owed n Hp. pose proof (requests_NoDup n) as Hnd. rewrite Hp in Hnd.
    apply NoDup_app in Hnd as (Hnd & _). split; [done|]. rewrite Hp. apply submseteq_inserts_r. done. }
  destruct (Hgen _ _ _ HS), (Hgen _ _ _ HR). done.
Qed.

Definition quiet `{!ChannelLive I Pkt Cb Data} (w : CWorld I Pkt Cb) : Prop :=
  Forall (fun k => awaited (ch_error_ (cw_chan w)) k = false) (cw_out w).

Lemma chan_exactly_once `{!ChannelLive I Pkt Cb Data} w :
  chan_reach w -> live_ok (cw_sends w) (cw_recvs w) (ch_impl (cw_chan w)) -> quiet w ->
  omap user_send (cw_trace w) ≡ₚ requests (length (cw_sends w)) /\
  omap user_recv (cw_trace w) ≡ₚ requests (length (cw_recvs w)).
Proof.
  intros Hw Hl Hq. destruct (chan_reach_ok w Hw) as [Hi _ _ HS HR _ _].
  destruct (law_quiet _ _ _ _ _ Hi Hl Hq) as [HS0 HR0]. unfold calls_ok in HS, HR.
  rewrite HS0, app_nil_r in HS. rewrite HR0, app_nil_r in HR. done.
Qed.
End Worlds.
