(* ===== verification/ChannelSides.v ===== *)
(** * Channels made of two queues of operations

    Every channel has a queue of sends and one of receives, whose operations
    only touch themselves.  This file derives from the promises of single
    operations ([LocalOps]) what [ChannelBase] asks of an implementation. *)

From S2P Require Import Prelude Messages OpsStateMachine LocalOps ChannelBase.

(** The two queues, and the rest of the channel's state: its frame. *)
Class TwoSides (I SOp ROp F : Type) `{!Operation SOp, !Operation ROp, !OpsMachine I SOp, !OpsMachine I ROp} := {
  frame : I -> F;
  sides_send_laws :: OpsMachineLaws I SOp;
  sides_recv_laws :: OpsMachineLaws I ROp;
  frame_put_sends : forall (l : list SOp) (x : I), frame (put_ops l x) = frame x;
  frame_put_recvs : forall (l : list ROp) (x : I), frame (put_ops l x) = frame x;
  recvs_put_sends : forall (l : list SOp) (x : I), get_ops (put_ops l x) = (get_ops x : list ROp);
  sends_put_recvs : forall (l : list ROp) (x : I), get_ops (put_ops l x) = (get_ops x : list SOp);
}.

(** What is known of one kind of operation. *)
Record side (Op F Pkt Cb K : Type) := mkSide {
  sd_rows : Error -> F -> list (@row Op (ccall Pkt Cb));
  sd_good : Error -> F -> list (Z * Z) -> Op -> Prop;
  sd_owed : Op -> list callback;
  sd_pend : Op -> list K;
  sd_unstarted : F -> Op -> list piece;
  sd_start : ccall Pkt Cb -> option piece;
  sd_starts : F -> Z -> Z * Z -> list piece;
  sd_flow : Error -> F -> flow;
  sd_level : nat;
  sd_restful : Error -> F -> list (Z * Z) -> Prop;
}.
Arguments mkSide {Op F Pkt Cb K}.
Arguments sd_rows {Op F Pkt Cb K}.
Arguments sd_good {Op F Pkt Cb K}.
Arguments sd_owed {Op F Pkt Cb K}.
Arguments sd_pend {Op F Pkt Cb K}.
Arguments sd_unstarted {Op F Pkt Cb K}.
Arguments sd_start {Op F Pkt Cb K}.
Arguments sd_starts {Op F Pkt Cb K}.
Arguments sd_flow {Op F Pkt Cb K}.
Arguments sd_level {Op F Pkt Cb K}.
Arguments sd_restful {Op F Pkt Cb K}.

Section Sides.
Context {I SOp ROp F Pkt Cb K Data : Type} `{!ChannelImpl I Pkt Cb Data}.
Context `{!Operation SOp, !Operation ROp, !OpsMachine I SOp, !OpsMachine I ROp, !TwoSides I SOp ROp F}.
Variable ss : side SOp F Pkt Cb K.
Variable rs : side ROp F Pkt Cb K.
Variable key : Cb -> option K.    (* what an operation waits for *)
Variable valid : F -> Prop.
Variable plain : ccall Pkt Cb -> Prop.   (* the calls operations make *)
Variable extra : Error -> option Cb -> list Cb -> F -> Prop.
Local Abbreviation call := (ccall Pkt Cb).
Implicit Types (x : I) (evs : list call) (out : list Cb) (cur : option Cb) (ns nr : list (Z * Z)) (e : Error).

Definition awaited_of (c : call) : option K :=
  match cb_of c with Some k => key k | None => None end.

(** The calls that one side may make, as far as the other is concerned. *)
Definition sends_only (c : call) : Prop := user_recv c = None /\ sd_start rs c = None /\ plain c.
Definition recvs_only (c : call) : Prop := user_send c = None /\ sd_start ss c = None /\ plain c.

(** Once there is an error, nothing starts any more. *)
Definition unstarted_if {Op} (e : Error) (f : Op -> list piece) (o : Op) : list piece :=
  if is_error e then [] else f o.

Definition sends_local : Prop := forall e f ns, valid f ->
  local_ok (sd_rows ss e f) (sd_good ss e f ns) (sd_owed ss) (sd_pend ss) (unstarted_if e (sd_unstarted ss f))
    user_send awaited_of (sd_start ss) (sd_flow ss e f) (sd_level ss) sends_only (sd_restful ss e f ns).
Definition recvs_local : Prop := forall e f nr, valid f ->
  local_ok (sd_rows rs e f) (sd_good rs e f nr) (sd_owed rs) (sd_pend rs) (unstarted_if e (sd_unstarted rs f))
    user_recv awaited_of (sd_start rs) (sd_flow rs e f) (sd_level rs) recvs_only (sd_restful rs e f nr).

Definition sends_of x : list SOp := get_ops x.
Definition recvs_of x : list ROp := get_ops x.

Definition send_table e x := table (Subj := I) (sd_rows ss e (frame x)).
Definition recv_table e x := table (Subj := I) (sd_rows rs e (frame x)).

Record sides_ok (e : Error) ns nr (cbs : list K) x : Prop := {
  so_sends : exists n, side_ok (sd_good ss e (frame x) ns) (sd_flow ss e (frame x)) (sd_level ss) n (sends_of x) /\ (is_error e = false -> n = Z.of_nat (length ns));
  so_recvs : exists n, side_ok (sd_good rs e (frame x) nr) (sd_flow rs e (frame x)) (sd_level rs) n (recvs_of x) /\ (is_error e = false -> n = Z.of_nat (length nr));
  so_pend : (sends_of x ≫= sd_pend ss) ++ (recvs_of x ≫= sd_pend rs) ≡ₚ cbs;
}.

Definition sends_rest e ns x : Prop := all_at_rest (sd_rows ss e (frame x)) (sd_restful ss e (frame x) ns) (sends_of x).
Definition recvs_rest e nr x : Prop := all_at_rest (sd_rows rs e (frame x)) (sd_restful rs e (frame x) nr) (recvs_of x).

Definition awaited_cbs cur out : list K := omap key (option_list cur ++ out).

Record sides_inv e ns nr cur out x : Prop := {
  si_sides : sides_ok e ns nr (awaited_cbs cur out) x;
  si_send_rest : sends_rest e ns x;
  si_recv_rest : recvs_rest e nr x;
  si_extra : extra e cur out (frame x);
}.

Definition sides_view : chan_view I Pkt Cb := {|
  owed_sends x := sends_of x ≫= sd_owed ss;
  owed_recvs x := recvs_of x ≫= sd_owed rs;
  start_send := sd_start ss;
  start_recv := sd_start rs;
  send_starts x := sd_starts ss (frame x);
  recv_starts x := sd_starts rs (frame x);
  unstarted_sends x := sends_of x ≫= sd_unstarted ss (frame x);
  unstarted_recvs x := recvs_of x ≫= sd_unstarted rs (frame x);
|}.
Local Abbreviation post := (chan_post sides_view sides_inv).

(** Calls that concern nobody but the context and the connections. *)
Definition silent (c : call) : Prop :=
  user_send c = None /\ user_recv c = None /\ sd_start ss c = None /\ sd_start rs c = None /\ awaited_of c = None.

(** What is assumed of the two sides, the callbacks and the rest of the state. *)
Record sides_laws : Prop := {
  sl_sends : sends_local;
  sl_recvs : recvs_local;
  sl_plain : forall e cur out f evs, extra e cur out f -> Forall plain evs -> extra e cur (outstanding out evs) f;
  sl_awaited : forall e k out f, extra e (Some k) out f -> is_Some (key k) -> extra e None out f;
  sl_valid : forall e cur out f, extra e cur out f -> valid f;
  sl_good_sends : forall e f ns a o, sd_good ss e f ns o -> sd_good ss e f (ns ++ [a]) o;
  sl_good_recvs : forall e f nr a o, sd_good rs e f nr o -> sd_good rs e f (nr ++ [a]) o;
  sl_chain_sends : forall e f, is_error e = true -> sd_flow ss e f <> Chained;
  sl_chain_recvs : forall e f, is_error e = true -> sd_flow rs e f <> Chained;
  sl_error_sends : forall e0 e f ns o, is_error e = true -> sd_good ss e0 f ns o -> sd_good ss e f ns o;
  sl_error_recvs : forall e0 e f nr o, is_error e = true -> sd_good rs e0 f nr o -> sd_good rs e f nr o;
  sl_send_restful : forall e f ns a, sd_restful ss e f (ns ++ [a]) -> sd_restful ss e f ns;
  sl_recv_restful : forall e f nr a, sd_restful rs e f (nr ++ [a]) -> sd_restful rs e f nr;
}.
Context (laws : sides_laws).

Lemma omap_cons_list {X Y} (f : X -> option Y) a l : omap f (a :: l) = option_list (f a) ++ omap f l.
Proof. simpl. by destruct (f a). Qed.

Lemma awaited_outstanding cur out evs :
  awaited_cbs cur (outstanding out evs) = awaited_cbs cur out ++ omap awaited_of evs.
Proof.
  unfold awaited_cbs, outstanding. rewrite !omap_app, <- !app_assoc. do 2 f_equal.
  induction evs as [|c evs IH]; [done|]. rewrite (omap_cons_list awaited_of), <- IH. simpl.
  unfold awaited_of. destruct (cb_of c) as [k|]; [|done]. by rewrite (omap_cons_list key).
Qed.

(** What happened to one queue. *)
Definition send_done e ns x (l' : list SOp) evs n new newst took : Prop :=
  side_post (sd_good ss e (frame x) ns) (sd_owed ss) (sd_pend ss) (unstarted_if e (sd_unstarted ss (frame x)))
    user_send awaited_of (sd_start ss) (sd_flow ss e (frame x)) (sd_level ss) sends_only n (sends_of x) l' evs new newst took.
Definition recv_done e nr x (l' : list ROp) evs n new newst took : Prop :=
  side_post (sd_good rs e (frame x) nr) (sd_owed rs) (sd_pend rs) (unstarted_if e (sd_unstarted rs (frame x)))
    user_recv awaited_of (sd_start rs) (sd_flow rs e (frame x)) (sd_level rs) recvs_only n (recvs_of x) l' evs new newst took.

Lemma unstarted_ok {Op} e (f : Op -> list piece) : is_error e = false -> unstarted_if e f = f.
Proof. unfold unstarted_if. by intros ->. Qed.

Lemma only_none {X Y} (f : X -> option Y) (P : X -> Prop) l :
  Forall P l -> (forall a, P a -> f a = None) -> omap f l = [].
Proof. intros HP Hf. apply omap_none. by eapply Forall_impl. Qed.

Lemma send_post e ns ns' nr cur' out x l' evs new newst (took : list K) n :
  (exists n, side_ok (sd_good rs e (frame x) nr) (sd_flow rs e (frame x)) (sd_level rs) n (recvs_of x) /\ (is_error e = false -> n = Z.of_nat (length nr))) ->
  recvs_rest e nr x ->
  (sends_of x ≫= sd_pend ss) ++ (recvs_of x ≫= sd_pend rs) ≡ₚ took ++ awaited_cbs cur' out ->
  all_at_rest (sd_rows ss e (frame x)) (sd_restful ss e (frame x) ns') l' ->
  send_done e ns' x l' evs n new newst took -> (is_error e = false -> n = Z.of_nat (length ns')) ->
  extra e cur' out (frame x) ->
  post e ns' nr cur' out new [] newst [] x (put_ops l' x, evs).
Proof.
  intros Hr Hrr Hp Hl [Hs Ho Hpd Hst Hon] Hn Hx.
  assert (sends_of (put_ops l' x) = l') as HS by apply get_put_ops.
  assert (recvs_of (put_ops l' x) = recvs_of x) as HR by apply recvs_put_sends.
  split; simpl; unfold sends_rest, recvs_rest; rewrite ?HS, ?HR, ?frame_put_sends; [| | | |done].
  - split; unfold sends_rest, recvs_rest; rewrite ?HS, ?HR, ?frame_put_sends; [|done..|].
    2: { apply (sl_plain laws); [done|]. eapply Forall_impl; [exact Hon|]. by intros c (_ & _ & ?). }
    split; rewrite ?HS, ?HR, ?frame_put_sends; [by exists n | done|]. rewrite awaited_outstanding.
    apply (Permutation_app_inv_l took). rewrite app_assoc, Hpd.
    transitivity (omap awaited_of evs ++ took ++ awaited_cbs cur' out); [|solve_perm]. rewrite <- Hp. solve_perm.
  - done.
  - rewrite (only_none user_recv _ evs Hon); [done|]. by intros c (? & _).
  - intros He. rewrite (unstarted_ok _ _ He) in Hst. split; [done|].
    rewrite (only_none (sd_start rs) _ evs Hon), app_nil_r; [done|]. by intros c (_ & ? & _).
Qed.

Lemma recv_post e ns nr nr' cur' out x l' evs new newst (took : list K) n :
  (exists n, side_ok (sd_good ss e (frame x) ns) (sd_flow ss e (frame x)) (sd_level ss) n (sends_of x) /\ (is_error e = false -> n = Z.of_nat (length ns))) ->
  sends_rest e ns x ->
  (sends_of x ≫= sd_pend ss) ++ (recvs_of x ≫= sd_pend rs) ≡ₚ took ++ awaited_cbs cur' out ->
  all_at_rest (sd_rows rs e (frame x)) (sd_restful rs e (frame x) nr') l' ->
  recv_done e nr' x l' evs n new newst took -> (is_error e = false -> n = Z.of_nat (length nr')) ->
  extra e cur' out (frame x) ->
  post e ns nr' cur' out [] new [] newst x (put_ops l' x, evs).
Proof.
  intros Hr Hrr Hp Hl [Hs Ho Hpd Hst Hon] Hn Hx.
  assert (recvs_of (put_ops l' x) = l') as HS by apply get_put_ops.
  assert (sends_of (put_ops l' x) = sends_of x) as HR by apply sends_put_recvs.
  split; simpl; unfold sends_rest, recvs_rest; rewrite ?HS, ?HR, ?frame_put_recvs; [| | | |done].
  - split; unfold sends_rest, recvs_rest; rewrite ?HS, ?HR, ?frame_put_recvs; [|done..|].
    2: { apply (sl_plain laws); [done|]. eapply Forall_impl; [exact Hon|]. by intros c (_ & _ & ?). }
    split; rewrite ?HS, ?HR, ?frame_put_recvs; [done | by exists n |]. rewrite awaited_outstanding.
    apply (Permutation_app_inv_l took).
    transitivity ((sends_of x ≫= sd_pend ss) ++ took ++ (l' ≫= sd_pend rs)); [solve_perm|]. rewrite Hpd.
    transitivity (omap awaited_of evs ++ took ++ awaited_cbs cur' out); [|solve_perm]. rewrite <- Hp. solve_perm.
  - rewrite (only_none user_send _ evs Hon); [done|]. by intros c (? & _).
  - done.
  - intros He. rewrite (unstarted_ok _ _ He) in Hst. split; [|done].
    rewrite (only_none (sd_start ss) _ evs Hon), app_nil_r; [done|]. by intros c (_ & ? & _).
Qed.

Lemma rest_weaken {Op} `{!Operation Op} (rows : list (@row Op call)) (R R' : Prop) (l : list Op) :
  all_at_rest rows R l -> (R' -> R) -> all_at_rest rows R' l.
Proof. intros Hr Hi HR' i o Hio Ho. apply Hr; [by apply Hi | done..]. Qed.

(** Only the queues and the frame matter. *)
Lemma sides_inv_same e ns nr cur out x y :
  sides_inv e ns nr cur out x -> sends_of y = sends_of x -> recvs_of y = recvs_of x -> frame y = frame x ->
  sides_inv e ns nr cur out y.
Proof.
  intros [[Hs Hr Hp] Hsr Hrr Hx] HS HR HF. unfold sends_rest, recvs_rest in *.
  split; [split|..]; unfold sends_rest, recvs_rest; rewrite ?HS, ?HR, ?HF; done.
Qed.

(** A callback is taken out of those outstanding. *)
Lemma sides_take e ns nr out i k x :
  sides_inv e ns nr None out x -> out !! i = Some k -> extra e (Some k) (delete i out) (frame x) ->
  sides_inv e ns nr (Some k) (delete i out) x.
Proof.
  intros [[Hs Hr Hp] Hsr Hrr _] Hi Hx. split; [split|..]; try done. rewrite Hp. unfold awaited_cbs. cbn [option_list app].
  apply omap_Permutation. by apply delete_Permutation.
Qed.

Lemma side_ok_mono {Op} `{!Operation Op} (good good' : Op -> Prop) fl fl' lv n l :
  side_ok good fl lv n l -> (fl' = Chained -> fl = Chained) -> (forall o, good o -> good' o) -> side_ok good' fl' lv n l.
Proof.
  intros (first & [Hn Hg Hs Hc] & Hl) Hf Hi. exists first. split; [split; try done|done]; [by eapply Forall_impl | by intros Hx; apply Hc, Hf].
Qed.

(** After an error, requests are not queued. *)
Lemma sides_skip e ns nr out a x :
  sides_inv e ns nr None out x -> is_error e = true ->
  sides_inv e (ns ++ [a]) nr None out x /\ sides_inv e ns (nr ++ [a]) None out x.
Proof.
  intros [[(n & Hs & _) (m & Hr & _) Hp] Hsr Hrr Hx] He.
  split; (split; [split; [exists n | exists m |] | ..]); try done; try (split; [try done | congruence]).
  - eapply side_ok_mono; [exact Hs | done | apply (sl_good_sends laws)].
  - eapply rest_weaken; [exact Hsr | apply (sl_send_restful laws)].
  - eapply side_ok_mono; [exact Hr | done | apply (sl_good_recvs laws)].
  - eapply rest_weaken; [exact Hrr | apply (sl_recv_restful laws)].
Qed.

(** The error itself does not change the queues. *)
Lemma sides_at_error e0 e ns nr cbs x : is_error e = true -> sides_ok e0 ns nr cbs x -> sides_ok e ns nr cbs x.
Proof.
  intros He [(n & Hs & _) (m & Hr & _) Hp].
  split; [exists n | exists m |]; try done; (split; [eapply side_ok_mono; [eassumption| |] | congruence]).
  - intros Hc. by destruct (sl_chain_sends laws e (frame x) He).
  - intros o. by apply (sl_error_sends laws).
  - intros Hc. by destruct (sl_chain_recvs laws e (frame x) He).
  - intros o. by apply (sl_error_recvs laws).
Qed.

(** ** New operations *)

(** An operation that is constructed with all its arguments is not updated. *)
Lemma without_update {Op A} `{!Operation Op, !OpsMachine C Op, !OpsMachineLaws C Op} n (x : C) (m : C -> outcome A) Q :
  wp (x1 ← update_op n (fun o => o) x; m x1) (fun _ => False) Q -> wp (m x) (fun _ => False) Q.
Proof. destruct (update_op n (fun o => o) x) as [x1|] eqn:Hu; [|done]. by rewrite (update_op_same n x x1 Hu). Qed.

Lemma sides_send_run e ns nr out n (o : SOp) (f : SOp -> SOp) a x :
  sides_inv e ns nr None out x -> is_error e = false -> n = Z.of_nat (length ns) -> n + 1 < 2 ^ 63 ->
  sd_good ss e (frame x) (ns ++ [a]) (f o) -> op_seq o = n -> op_seq (f o) = n ->
  (op_state (f o) < sd_level ss)%nat -> sd_pend ss (f o) = [] ->
  exists l' evs, (x1 ← update_op n f (emplaceBack o x); advanceOperation (send_table e x) n x1) = Done (put_ops (l' : list SOp) x, evs) /\
    post e (ns ++ [a]) nr None out (sd_owed ss (f o)) [] (sd_unstarted ss (frame x) (f o)) [] x (put_ops l' x, evs).
Proof.
  intros [[(m & Hs & Hm) Hr Hp] Hsr Hrr Hx] He -> Hb Hg Hseq Hseq' Hst Hpd. rewrite (Hm He) in Hs.
  assert (side_ok (sd_good ss e (frame x) (ns ++ [a])) (sd_flow ss e (frame x)) (sd_level ss) (Z.of_nat (length ns)) (sends_of x)) as Hs'
    by (eapply side_ok_mono; [exact Hs | done | apply (sl_good_sends laws)]).
  assert (all_at_rest (sd_rows ss e (frame x)) (sd_restful ss e (frame x) (ns ++ [a])) (sends_of x)) as Hsr'
    by (eapply rest_weaken; [exact Hsr | apply (sl_send_restful laws)]).
  destruct (emplace_side _ _ _ _ _ _ _ _ _ _ _ _ (sl_sends laws e (frame x) (ns ++ [a]) (sl_valid laws _ _ _ _ Hx))
    (Z.of_nat (length ns)) x o f) as (l' & evs & Hrun & Hl & Hpost); try done; [congruence|].
  rewrite Hseq in Hrun. unfold send_table. rewrite Hrun. exists l', evs. split; [done|].
  apply (send_post e ns (ns ++ [a]) nr None out x l' evs _ _ [] (Z.of_nat (length ns) + 1)); try done.
  - unfold unstarted_if in Hpost. rewrite He in Hpost. unfold send_done. unfold unstarted_if. rewrite He. exact Hpost.
  - intros _. rewrite length_app. simpl. lia.
Qed.

Lemma sides_send e ns nr out n (o : SOp) (f : SOp -> SOp) a x :
  sides_inv e ns nr None out x -> is_error e = false -> n = Z.of_nat (length ns) -> n + 1 < 2 ^ 63 ->
  sd_good ss e (frame x) (ns ++ [a]) (f o) -> op_seq o = n -> op_seq (f o) = n ->
  (op_state (f o) < sd_level ss)%nat -> sd_pend ss (f o) = [] ->
  wp (x1 ← update_op n f (emplaceBack o x); advanceOperation (send_table e x) n x1) (fun _ => False)
    (post e (ns ++ [a]) nr None out (sd_owed ss (f o)) [] (sd_unstarted ss (frame x) (f o)) [] x).
Proof.
  intros. destruct (sides_send_run e ns nr out n o f a x) as (l' & evs & -> & Hp); try done.
Qed.

Lemma sides_recv_run e ns nr out n (o : ROp) (f : ROp -> ROp) a x :
  sides_inv e ns nr None out x -> is_error e = false -> n = Z.of_nat (length nr) -> n + 1 < 2 ^ 63 ->
  sd_good rs e (frame x) (nr ++ [a]) (f o) -> op_seq o = n -> op_seq (f o) = n ->
  (op_state (f o) < sd_level rs)%nat -> sd_pend rs (f o) = [] ->
  exists l' evs, (x1 ← update_op n f (emplaceBack o x); advanceOperation (recv_table e x) n x1) = Done (put_ops (l' : list ROp) x, evs) /\
    post e ns (nr ++ [a]) None out [] (sd_owed rs (f o)) [] (sd_unstarted rs (frame x) (f o)) x (put_ops l' x, evs).
Proof.
  intros [[Hr (m & Hs & Hm) Hp] Hsr Hrr Hx] He -> Hb Hg Hseq Hseq' Hst Hpd. rewrite (Hm He) in Hs.
  assert (side_ok (sd_good rs e (frame x) (nr ++ [a])) (sd_flow rs e (frame x)) (sd_level rs) (Z.of_nat (length nr)) (recvs_of x)) as Hs'
    by (eapply side_ok_mono; [exact Hs | done | apply (sl_good_recvs laws)]).
  assert (all_at_rest (sd_rows rs e (frame x)) (sd_restful rs e (frame x) (nr ++ [a])) (recvs_of x)) as Hrr'
    by (eapply rest_weaken; [exact Hrr | apply (sl_recv_restful laws)]).
  destruct (emplace_side _ _ _ _ _ _ _ _ _ _ _ _ (sl_recvs laws e (frame x) (nr ++ [a]) (sl_valid laws _ _ _ _ Hx))
    (Z.of_nat (length nr)) x o f) as (l' & evs & Hrun & Hl & Hpost); try done; [congruence|].
  rewrite Hseq in Hrun. unfold recv_table. rewrite Hrun. exists l', evs. split; [done|].
  apply (recv_post e ns nr (nr ++ [a]) None out x l' evs _ _ [] (Z.of_nat (length nr) + 1)); try done.
  - unfold unstarted_if in Hpost. rewrite He in Hpost. unfold recv_done. unfold unstarted_if. rewrite He. exact Hpost.
  - intros _. rewrite length_app. simpl. lia.
Qed.

Lemma sides_recv e ns nr out n (o : ROp) (f : ROp -> ROp) a x :
  sides_inv e ns nr None out x -> is_error e = false -> n = Z.of_nat (length nr) -> n + 1 < 2 ^ 63 ->
  sd_good rs e (frame x) (nr ++ [a]) (f o) -> op_seq o = n -> op_seq (f o) = n ->
  (op_state (f o) < sd_level rs)%nat -> sd_pend rs (f o) = [] ->
  wp (x1 ← update_op n f (emplaceBack o x); advanceOperation (recv_table e x) n x1) (fun _ => False)
    (post e ns (nr ++ [a]) None out [] (sd_owed rs (f o)) [] (sd_unstarted rs (frame x) (f o)) x).
Proof.
  intros. destruct (sides_recv_run e ns nr out n o f a x) as (l' & evs & -> & Hp); try done.
Qed.

(** ** Callbacks *)

Lemma awaited_some k b out : key k = Some b -> awaited_cbs (Some k) out = b :: awaited_cbs None out.
Proof. intros Hk. unfold awaited_cbs. simpl. by rewrite Hk. Qed.

Lemma unawaited k out : key k = None -> awaited_cbs (Some k) out = awaited_cbs None out.
Proof. intros Hk. unfold awaited_cbs. simpl. by rewrite Hk. Qed.

(** [f] takes what waits for [b] from an operation. *)
Definition takes_at {Op} `{!Operation Op} (d : side Op F Pkt Cb K) (e : Error) (it : Z) (b : K) (f : Op -> Op) : Prop :=
  forall fr reqs o, sd_good d e fr reqs o -> b ∈ sd_pend d o ->
    op_seq o = it /\ sd_good d e fr reqs (f o) /\ op_seq (f o) = op_seq o /\
    op_state (f o) = op_state o /\ sd_owed d (f o) = sd_owed d o /\
    (forall fr, sd_unstarted d fr (f o) = sd_unstarted d fr o) /\ sd_pend d o ≡ₚ b :: sd_pend d (f o).
Definition takes {Op} `{!Operation Op} (d : side Op F Pkt Cb K) (it : Z) (b : K) (f : Op -> Op) : Prop :=
  forall e, takes_at d e it b f.

Lemma side_all_good {Op} `{!Operation Op} (d : side Op F Pkt Cb K) (good : Op -> Prop) fl lv n l b :
  side_ok good fl lv n l -> b ∈ (l ≫= sd_pend d) -> exists o, good o /\ b ∈ sd_pend d o.
Proof.
  intros (first & [_ Hg _ _] & _) (o & Hb & Ho)%list_elem_of_bind. exists o.
  split; [by eapply (proj1 (Forall_forall _ _) Hg) | done].
Qed.

Lemma sides_sent_run e ns nr out it k b (f : SOp -> SOp) x :
  sides_inv e ns nr (Some k) out x -> key k = Some b ->
  (forall o, b ∉ sd_pend rs o) -> takes_at ss e it b f ->
  exists l' evs, (x1 ← update_op it f x; advanceOperation (send_table e x) it x1) = Done (put_ops (l' : list SOp) x, evs) /\
    post e ns nr None out [] [] [] [] x (put_ops l' x, evs).
Proof.
  intros [[(m & Hs & Hm) (m' & Hr & Hm') Hp] Hsr Hrr Hx] Hb Hno Hf. rewrite (awaited_some k b) in Hp by done.
  assert (b ∈ (sends_of x ≫= sd_pend ss)) as Hin.
  { assert (b ∈ (sends_of x ≫= sd_pend ss) ++ (recvs_of x ≫= sd_pend rs)) as Hin by (rewrite Hp; left).
    apply elem_of_app in Hin as [Hin|Hin]; [done|]. destruct (side_all_good _ _ _ _ _ _ _ Hr Hin) as (o & _ & Hbo).
    by destruct (Hno o). }
  destruct (deliver_side _ _ _ _ _ _ _ _ _ _ _ _ (sl_sends laws e (frame x) ns (sl_valid laws _ _ _ _ Hx)) m x it f b)
    as (l' & evs & Hrun & Hl & Hpost); try done.
  { intros o Ho Hbo. destruct (Hf _ _ o Ho Hbo) as (? & ? & ? & ? & ? & Hun & ?). split_and!; try done.
    unfold unstarted_if. by rewrite Hun. }
  unfold send_table. rewrite Hrun. exists l', evs. split; [done|]. apply (send_post e ns ns nr None out x l' evs _ _ [b] m); try done; [by exists m'|].
  eapply (sl_awaited laws); [exact Hx | by exists b].
Qed.

Lemma sides_sent e ns nr out it k b (f : SOp -> SOp) x :
  sides_inv e ns nr (Some k) out x -> key k = Some b ->
  (forall o, b ∉ sd_pend rs o) -> takes ss it b f ->
  wp (x1 ← update_op it f x; advanceOperation (send_table e x) it x1) (fun _ => False)
    (post e ns nr None out [] [] [] [] x).
Proof.
  intros. destruct (sides_sent_run e ns nr out it k b f x) as (l' & evs & -> & Hp); try done.
Qed.

Lemma sides_received_run e ns nr out it k b (f : ROp -> ROp) x :
  sides_inv e ns nr (Some k) out x -> key k = Some b ->
  (forall o, b ∉ sd_pend ss o) -> takes_at rs e it b f ->
  exists l' evs, (x1 ← update_op it f x; advanceOperation (recv_table e x) it x1) = Done (put_ops (l' : list ROp) x, evs) /\
    post e ns nr None out [] [] [] [] x (put_ops l' x, evs).
Proof.
  intros [[(m' & Hr & Hm') (m & Hs & Hm) Hp] Hsr Hrr Hx] Hb Hno Hf. rewrite (awaited_some k b) in Hp by done.
  assert (b ∈ (recvs_of x ≫= sd_pend rs)) as Hin.
  { assert (b ∈ (sends_of x ≫= sd_pend ss) ++ (recvs_of x ≫= sd_pend rs)) as Hin by (rewrite Hp; left).
    apply elem_of_app in Hin as [Hin|Hin]; [|done]. destruct (side_all_good _ _ _ _ _ _ _ Hr Hin) as (o & _ & Hbo).
    by destruct (Hno o). }
  destruct (deliver_side _ _ _ _ _ _ _ _ _ _ _ _ (sl_recvs laws e (frame x) nr (sl_valid laws _ _ _ _ Hx)) m x it f b)
    as (l' & evs & Hrun & Hl & Hpost); try done.
  { intros o Ho Hbo. destruct (Hf _ _ o Ho Hbo) as (? & ? & ? & ? & ? & Hun & ?). split_and!; try done.
    unfold unstarted_if. by rewrite Hun. }
  unfold recv_table. rewrite Hrun. exists l', evs. split; [done|]. apply (recv_post e ns nr nr None out x l' evs _ _ [b] m); try done; [by exists m'|].
  eapply (sl_awaited laws); [exact Hx | by exists b].
Qed.

Lemma sides_received e ns nr out it k b (f : ROp -> ROp) x :
  sides_inv e ns nr (Some k) out x -> key k = Some b ->
  (forall o, b ∉ sd_pend ss o) -> takes rs it b f ->
  wp (x1 ← update_op it f x; advanceOperation (recv_table e x) it x1) (fun _ => False)
    (post e ns nr None out [] [] [] [] x).
Proof.
  intros. destruct (sides_received_run e ns nr out it k b f x) as (l' & evs & -> & Hp); try done.
Qed.

(** A callback that nothing waits for. *)
Lemma sides_ignored e ns nr k out x :
  sides_inv e ns nr (Some k) out x -> key k = None -> extra e None out (frame x) ->
  post e ns nr None out [] [] [] [] x (x, []).
Proof.
  intros [Hs Hsr Hrr _] Hk Hx. apply chan_post_refl. split; [|done..]. by rewrite <- (unawaited k).
Qed.

(** ** Advancing everything *)

(** The first operation cannot go on, or none is finished, or the first one
    does not finish either. *)
Definition front_ok {Op} `{!Operation Op} (rows : list (@row Op call)) (l : list Op) : Prop :=
  match l with
  | o :: _ => op_at_rest rows o (FINISHED (Op := Op)) \/ Forall (fun o => op_state o <> FINISHED (Op := Op)) l \/
              stays rows o
  | [] => True
  end.

Lemma sides_advance_both e ns nr cur cur' out pre tail x0 x :
  sides_ok e ns nr (awaited_cbs cur' out) x ->
  (sd_restful ss e (frame x) ns -> front_ok (sd_rows ss e (frame x)) (sends_of x)) ->
  (sd_restful rs e (frame x) nr -> front_ok (sd_rows rs e (frame x)) (recvs_of x)) ->
  Forall silent pre -> Forall silent tail -> sends_of x0 = sends_of x -> recvs_of x0 = recvs_of x ->
  (is_error e = false -> sd_unstarted ss (frame x0) = sd_unstarted ss (frame x) /\
                         sd_unstarted rs (frame x0) = sd_unstarted rs (frame x)) ->
  sd_starts ss (frame x) = sd_starts ss (frame x0) -> sd_starts rs (frame x) = sd_starts rs (frame x0) ->
  (forall evs, Forall plain evs -> extra e cur (outstanding out (pre ++ evs ++ tail)) (frame x)) ->
  awaited_cbs cur' out = awaited_cbs cur out ->
  exists (l1 : list SOp) evs1 (l2 : list ROp) evs2,
    advanceAllOperations (send_table e x) x = Done (put_ops l1 x, evs1) /\
    advanceAllOperations (recv_table e x) (put_ops l1 x) = Done (put_ops l2 (put_ops l1 x), evs2) /\
    frame (put_ops l2 (put_ops l1 x)) = frame x /\
    post e ns nr cur out [] [] [] [] x0 (put_ops l2 (put_ops l1 x), pre ++ (evs1 ++ evs2) ++ tail).
Proof.
  intros [(n & Hs & Hn) (m & Hr & Hm) Hp] Hsf Hrf Hpre Ht HSx HRx Hun Hss Hrs Hx Hcur.
  assert (valid (frame x)) as Hval by (eapply (sl_valid laws), (Hx []); constructor).
  destruct (advanceAll_side _ _ _ _ _ _ _ _ _ _ _ _ (sl_sends laws e (frame x) ns Hval) n x Hs) as (l1 & evs1 & Hrun1 & Hl1 & Hp1).
  set (x1 := put_ops l1 x) in *.
  assert (frame x1 = frame x) as Hf1 by apply frame_put_sends.
  assert (recvs_of x1 = recvs_of x) as HR1 by apply recvs_put_sends.
  assert (side_ok (sd_good rs e (frame x) nr) (sd_flow rs e (frame x)) (sd_level rs) m (get_ops x1)) as Hr1 by (unfold recvs_of in HR1; by rewrite HR1).
  destruct (advanceAll_side _ _ _ _ _ _ _ _ _ _ _ _ (sl_recvs laws e (frame x) nr Hval) m x1 Hr1) as (l2 & evs2 & Hrun2 & Hl2 & Hp2).
  exists l1, evs1, l2, evs2. fold x1. set (x2 := put_ops l2 x1) in *.
  assert (frame x2 = frame x) as Hf2 by (unfold x2; by rewrite frame_put_recvs).
  assert (sends_of x2 = l1) as HS2.
  { unfold x2, sends_of. rewrite sends_put_recvs. apply get_put_ops. }
  assert (recvs_of x2 = l2) as HR2 by apply get_put_ops.
  split_and!; [done | done | done|].
  destruct Hp1 as [A1 A2 A3 A4 A5], Hp2 as [B1 B2 B3 B4 B5].
  change (get_ops x1) with (recvs_of x1) in *. rewrite HR1 in *. change (get_ops x) with (sends_of x) in *.
  assert (omap user_send evs2 = []) as E1 by (eapply only_none; [exact B5|]; by intros c (? & _)).
  assert (omap (sd_start ss) evs2 = []) as E2 by (eapply only_none; [exact B5|]; by intros c (_ & ? & _)).
  assert (omap user_recv evs1 = []) as E3 by (eapply only_none; [exact A5|]; by intros c (? & _)).
  assert (omap (sd_start rs) evs1 = []) as E4 by (eapply only_none; [exact A5|]; by intros c (_ & ? & _)).
  assert (omap user_send tail = [] /\ omap user_recv tail = [] /\ omap (sd_start ss) tail = [] /\
          omap (sd_start rs) tail = [] /\ omap awaited_of tail = []) as (T1 & T2 & T3 & T4 & T5).
  { split_and!; (eapply only_none; [exact Ht|]); by intros c (? & ? & ? & ? & ?). }
  assert (omap user_send pre = [] /\ omap user_recv pre = [] /\ omap (sd_start ss) pre = [] /\
          omap (sd_start rs) pre = [] /\ omap awaited_of pre = []) as (U1 & U2 & U3 & U4 & U5).
  { split_and!; (eapply only_none; [exact Hpre|]); by intros c (? & ? & ? & ? & ?). }
  split; simpl; rewrite ?HS2, ?HR2, ?Hf2, ?HSx, ?HRx; rewrite ?omap_app, ?E1, ?E2, ?E3, ?E4, ?T1, ?T2, ?T3, ?T4,
    ?U1, ?U2, ?U3, ?U4, ?app_nil_r.
  - split; unfold sends_rest, recvs_rest; rewrite ?HS2, ?HR2, ?Hf2.
    + split; rewrite ?HS2, ?HR2, ?Hf2; [by exists n | by exists m|].
      rewrite awaited_outstanding, !omap_app, T5, U5, <- Hcur, A3, B3. simpl. rewrite !app_nil_r, <- Hp. solve_perm.
    + intros HR. apply Hl1; [by apply Hsf | done].
    + intros HR. apply Hl2; [by apply Hrf | done].
    + apply Hx. apply Forall_app. split; (eapply Forall_impl; [eassumption|]); by intros c (_ & _ & ?).
  - done.
  - done.
  - intros He. destruct (Hun He) as [-> ->]. rewrite (unstarted_ok _ _ He), app_nil_r in A4.
    rewrite (unstarted_ok _ _ He), app_nil_r in B4. by split.
  - by split.
Qed.

(** ** When nothing is awaited *)

(** An operation that cannot go on waits for a callback. *)
Definition side_live {Op} `{!Operation Op} (d : side Op F Pkt Cb K) : Prop := forall e f reqs o,
  sd_good d e f reqs o -> op_state o <> FINISHED (Op := Op) -> op_at_rest (sd_rows d e f) o (FINISHED (Op := Op)) ->
  sd_flow d e f <> Stopped \/ is_error e = true -> sd_pend d o <> [].

Lemma side_quiet {Op} `{!Operation Op} (d : side Op F Pkt Cb K) e f (reqs : list (Z * Z)) n l :
  side_live d -> sd_restful d e f reqs -> sd_flow d e f <> Stopped \/ is_error e = true ->
  side_ok (sd_good d e f reqs) (sd_flow d e f) (sd_level d) n l -> all_at_rest (sd_rows d e f) (sd_restful d e f reqs) l -> (l ≫= sd_pend d) = [] -> l = [].
Proof.
  intros Hl Hre Hf (first & [_ Hg Hs _] & _) Hr Hp. destruct l as [|o l]; [done|]. exfalso.
  rewrite bind_cons in Hp. apply app_nil in Hp as [Hp _]. apply Forall_cons in Hg as [Hg _].
  by apply (Hl e f reqs o Hg Hs (Hr Hre 0%nat o eq_refl Logic.I) Hf).
Qed.

Lemma sides_quiet e ns nr out x :
  side_live ss -> side_live rs -> sd_restful ss e (frame x) ns -> sd_restful rs e (frame x) nr ->
  (sd_flow ss e (frame x) <> Stopped \/ is_error e = true) -> (sd_flow rs e (frame x) <> Stopped \/ is_error e = true) ->
  sides_inv e ns nr None out x -> Forall (fun k => key k = None) out -> sends_of x = [] /\ recvs_of x = [].
Proof.
  intros Hls Hlr Hs Hr Hfs Hfr [[(n & Hso & _) (m & Hro & _) Hp] Hsr Hrr _] Hq.
  assert (awaited_cbs None out = []) as Hout.
  { unfold awaited_cbs. cbn [option_list app]. by apply omap_none. }
  rewrite Hout in Hp. symmetry in Hp. apply Permutation_nil, app_nil in Hp as [Hp1 Hp2].
  split; [by eapply (side_quiet ss e (frame x) ns) | by eapply (side_quiet rs e (frame x) nr)].
Qed.

(** While operations may start, all of them have. *)
Lemma sides_started e ns nr cur out x :
  sides_inv e ns nr cur out x -> is_error e = false ->
  sd_flow ss e (frame x) = Flowing -> sd_flow rs e (frame x) = Flowing ->
  unstarted_sends sides_view x = [] /\ unstarted_recvs sides_view x = [].
Proof.
  intros [[(n & (first & Hq & _) & _) (m & (first' & Hq' & _) & _) _] Hsr Hrr Hx] He Hfs Hfr. simpl.
  pose proof (sl_valid laws _ _ _ _ Hx) as Hval.
  pose proof (sl_sends laws e (frame x) ns Hval) as Ls. pose proof (sl_recvs laws e (frame x) nr Hval) as Lr.
  split.
  - rewrite <- (unstarted_ok e (sd_unstarted ss (frame x)) He). apply bind_nil, Forall_lookup. intros i o Hi.
    apply (lo_started _ _ _ _ _ _ _ _ _ _ _ _ Ls); [by eapply (proj1 (Forall_lookup _ _) (qo_good _ _ _ _ _ Hq))|].
    apply (prefix_started _ _ _ _ _ _ _ _ _ _ _ _ Ls (sends_of x) (S i)) with (j := i); [done | apply Hq | | lia | done].
    intros j q _ Hj. by apply (Hsr (lo_restful _ _ _ _ _ _ _ _ _ _ _ _ Ls Hfs) j).
  - rewrite <- (unstarted_ok e (sd_unstarted rs (frame x)) He). apply bind_nil, Forall_lookup. intros i o Hi.
    apply (lo_started _ _ _ _ _ _ _ _ _ _ _ _ Lr); [by eapply (proj1 (Forall_lookup _ _) (qo_good _ _ _ _ _ Hq'))|].
    apply (prefix_started _ _ _ _ _ _ _ _ _ _ _ _ Lr (recvs_of x) (S i)) with (j := i); [done | apply Hq' | | lia | done].
    intros j q _ Hj. by apply (Hrr (lo_restful _ _ _ _ _ _ _ _ _ _ _ _ Lr Hfr) j).
Qed.
End Sides.
