(* ===== verification/BasicChannel.v ===== *)
(** * The basic channel

    Models [channel/basic/channel_impl.cc]: the payload of each tensor is
    written to, or read from, the connection of the channel. *)

From S2P Require Import Prelude Messages OpsStateMachine LocalOps ChannelBase ChannelSides.

Definition UNINITIALIZED : nat := 0.
Definition WRITING : nat := 1.
Definition READING : nat := 1.
Definition OP_FINISHED : nat := 2.

Record SendOperation := mkSendOperation {
  so_sequenceNumber : Z;
  so_state : nat;
  so_doneWriting : bool;
  so_ptr : Z;
  so_length : Z;
  so_callback : option callback;
}.
#[export] Instance eta_SendOperation : Eta SendOperation := fun o =>
  mkSendOperation (so_sequenceNumber o) (so_state o) (so_doneWriting o) (so_ptr o) (so_length o) (so_callback o).
Definition newSendOperation (seq : Z) : SendOperation := mkSendOperation seq UNINITIALIZED false 0 0 None.

Record RecvOperation := mkRecvOperation {
  ro_sequenceNumber : Z;
  ro_state : nat;
  ro_doneReading : bool;
  ro_ptr : Z;
  ro_length : Z;
  ro_callback : option callback;
}.
#[export] Instance eta_RecvOperation : Eta RecvOperation := fun o =>
  mkRecvOperation (ro_sequenceNumber o) (ro_state o) (ro_doneReading o) (ro_ptr o) (ro_length o) (ro_callback o).
Definition newRecvOperation (seq : Z) : RecvOperation := mkRecvOperation seq UNINITIALIZED false 0 0 None.

Record ChannelImpl := mkChannelImpl {
  connection_ : conn;
  sendOps_ : list SendOperation;
  recvOps_ : list RecvOperation;
}.
#[export] Instance eta_ChannelImpl : Eta ChannelImpl := fun c =>
  mkChannelImpl (connection_ c) (sendOps_ c) (recvOps_ c).
Definition newChannelImpl (connection : conn) : ChannelImpl := mkChannelImpl connection [] [].

#[export] Instance send_operation : Operation SendOperation := {
  op_seq := so_sequenceNumber;
  op_state := so_state;
  op_put_state n o := o <| so_state := n |>;
  FINISHED := OP_FINISHED;
}.
#[export] Instance recv_operation : Operation RecvOperation := {
  op_seq := ro_sequenceNumber;
  op_state := ro_state;
  op_put_state n o := o <| ro_state := n |>;
  FINISHED := OP_FINISHED;
}.
#[export] Instance send_machine : OpsMachine ChannelImpl SendOperation := {
  get_ops := sendOps_;
  put_ops l c := c <| sendOps_ := l |>;
}.
#[export] Instance recv_machine : OpsMachine ChannelImpl RecvOperation := {
  get_ops := recvOps_;
  put_ops l c := c <| recvOps_ := l |>;
}.
#[export] Instance send_laws : OpsMachineLaws ChannelImpl SendOperation.
Proof. split; try done. by intros []. Qed.
#[export] Instance recv_laws : OpsMachineLaws ChannelImpl RecvOperation.
Proof. split; try done. by intros []. Qed.

(** The callbacks given to the connection. *)
Inductive cb := CbWritten (it : Z) | CbRead (it : Z).

(** This channel exchanges no objects. *)
Abbreviation call := (ccall Empty_set cb).

(** A [std::function] that was reset to null must not be called. *)
Definition get_callback (o : option callback) : outcome callback :=
  match o with Some f => Done f | None => Throw ExDangling end.

Section Transitions.
Variable error_ : Error.
Variable connection : conn.

Definition write : @local_action SendOperation call := fun op =>
  Done (op, [ConnWrite connection (so_ptr op) (so_length op) (CbWritten (so_sequenceNumber op))]).

Definition callSendCallback : @local_action SendOperation call := fun op =>
  f ← get_callback (so_callback op);
  Done (op <| so_callback := None |>, [UserSend f error_]).

Definition advanceSendOperation : list (@row SendOperation call) := [
    mkRow UNINITIALIZED OP_FINISHED
      (fun op prev => is_error error_ || (so_length op =? 0)) [callSendCallback];
    mkRow UNINITIALIZED WRITING
      (fun op prev => negb (is_error error_) && (WRITING <=? prev)%nat) [write];
    mkRow WRITING OP_FINISHED
      (fun op prev => so_doneWriting op) [callSendCallback]
  ].

Definition read : @local_action RecvOperation call := fun op =>
  Done (op, [ConnRead connection (ro_ptr op) (ro_length op) (CbRead (ro_sequenceNumber op))]).

Definition callRecvCallback : @local_action RecvOperation call := fun op =>
  f ← get_callback (ro_callback op);
  Done (op <| ro_callback := None |>, [UserRecv f error_]).

Definition advanceRecvOperation : list (@row RecvOperation call) := [
    mkRow UNINITIALIZED OP_FINISHED
      (fun op prev => is_error error_ || (ro_length op =? 0)) [callRecvCallback];
    mkRow UNINITIALIZED READING
      (fun op prev => negb (is_error error_) && (READING <=? prev)%nat) [read];
    mkRow READING OP_FINISHED
      (fun op prev => ro_doneReading op) [callRecvCallback]
  ].
End Transitions.

(** The tables, for the state of a channel, whose connection never changes. *)
Definition sends (error_ : Error) (c : ChannelImpl) : list (@transition ChannelImpl SendOperation call) :=
  table (advanceSendOperation error_ (connection_ c)).
Definition recvs (error_ : Error) (c : ChannelImpl) : list (@transition ChannelImpl RecvOperation call) :=
  table (advanceRecvOperation error_ (connection_ c)).

Definition initImplFromLoop (d : unit) (c : ChannelImpl) : outcome (ChannelImpl * list call) :=
  Done (c, [CtxEnroll]).

Definition sendImplFromLoop (error_ : Error) (sequenceNumber ptr length : Z) (f : callback) (c : ChannelImpl)
    : outcome (ChannelImpl * list call) :=
  c1 ← update_op sequenceNumber
        (fun op => op <| so_ptr := ptr |> <| so_length := length |> <| so_callback := Some f |>)
        (emplaceBack (newSendOperation sequenceNumber) c);
  advanceOperation (sends error_ c) sequenceNumber c1.

Definition recvImplFromLoop (error_ : Error) (sequenceNumber ptr length : Z) (f : callback) (c : ChannelImpl)
    : outcome (ChannelImpl * list call) :=
  c1 ← update_op sequenceNumber
        (fun op => op <| ro_ptr := ptr |> <| ro_length := length |> <| ro_callback := Some f |>)
        (emplaceBack (newRecvOperation sequenceNumber) c);
  advanceOperation (recvs error_ c) sequenceNumber c1.

Definition onWritten (error_ : Error) (it : Z) (c : ChannelImpl) : outcome (ChannelImpl * list call) :=
  c1 ← update_op it (fun op => op <| so_doneWriting := true |>) c;
  advanceOperation (sends error_ c) it c1.

Definition onRead (error_ : Error) (it : Z) (c : ChannelImpl) : outcome (ChannelImpl * list call) :=
  c1 ← update_op it (fun op => op <| ro_doneReading := true |>) c;
  advanceOperation (recvs error_ c) it c1.

Definition callback_body (error_ : Error) (k : cb) (d : unit) (c : ChannelImpl)
    : outcome (ChannelImpl * list call) :=
  match k with
  | CbWritten it => onWritten error_ it c
  | CbRead it => onRead error_ it c
  end.

Definition handleErrorImpl (error_ : Error) (c : ChannelImpl) : outcome (ChannelImpl * list call) :=
  '(c1, calls1) ← advanceAllOperations (sends error_ c) c;
  '(c2, calls2) ← advanceAllOperations (recvs error_ c) c1;
  Done (c2, calls1 ++ calls2 ++ [ConnClose (connection_ c); CtxUnenroll]).

#[export] Instance basic_channel : ChannelBase.ChannelImpl ChannelImpl Empty_set cb unit := {
  initImplFromLoop := initImplFromLoop;
  sendImplFromLoop := sendImplFromLoop;
  recvImplFromLoop := recvImplFromLoop;
  handleErrorImpl := handleErrorImpl;
  callback_body := callback_body;
}.

(** ** Single operations *)

Record send_good (o : SendOperation) : Prop := {
  sg_state : (so_state o <= OP_FINISHED)%nat;
  sg_callback : is_Some (so_callback o) <-> (so_state o < OP_FINISHED)%nat;
  sg_done : so_doneWriting o = true -> (WRITING <= so_state o)%nat;
}.
Definition send_owed (o : SendOperation) : list callback := option_list (so_callback o).
Definition send_pend (o : SendOperation) : list cb :=
  if (so_state o =? WRITING)%nat && negb (so_doneWriting o) then [CbWritten (so_sequenceNumber o)] else [].
Definition send_unstarted (o : SendOperation) : list piece :=
  if negb (so_state o =? UNINITIALIZED)%nat || (so_length o =? 0) then []
  else [mkPiece 0 (so_ptr o) (so_length o) (so_sequenceNumber o)].
Definition send_start (c : call) : option piece :=
  match c with ConnWrite _ ptr len (CbWritten it) => Some (mkPiece 0 ptr len it) | _ => None end.

Record recv_good (o : RecvOperation) : Prop := {
  rg_state : (ro_state o <= OP_FINISHED)%nat;
  rg_callback : is_Some (ro_callback o) <-> (ro_state o < OP_FINISHED)%nat;
  rg_done : ro_doneReading o = true -> (READING <= ro_state o)%nat;
}.
Definition recv_owed (o : RecvOperation) : list callback := option_list (ro_callback o).
Definition recv_pend (o : RecvOperation) : list cb :=
  if (ro_state o =? READING)%nat && negb (ro_doneReading o) then [CbRead (ro_sequenceNumber o)] else [].
Definition recv_unstarted (o : RecvOperation) : list piece :=
  if negb (ro_state o =? UNINITIALIZED)%nat || (ro_length o =? 0) then []
  else [mkPiece 0 (ro_ptr o) (ro_length o) (ro_sequenceNumber o)].
Definition recv_start (c : call) : option piece :=
  match c with ConnRead _ ptr len (CbRead it) => Some (mkPiece 0 ptr len it) | _ => None end.

(** A tensor that is not empty is one piece. *)
Definition one_piece (n : Z) (a : Z * Z) : list piece := if a.2 =? 0 then [] else [mkPiece 0 a.1 a.2 n].

Definition sends_side : side SendOperation conn Empty_set cb cb :=
  mkSide advanceSendOperation (fun _ _ _ => send_good) send_owed send_pend (fun _ => send_unstarted) send_start
    (fun _ => one_piece) (fun e _ => flow_if (negb (is_error e))) WRITING (fun _ _ _ => True).
Definition recvs_side : side RecvOperation conn Empty_set cb cb :=
  mkSide advanceRecvOperation (fun _ _ _ => recv_good) recv_owed recv_pend (fun _ => recv_unstarted) recv_start
    (fun _ => one_piece) (fun e _ => flow_if (negb (is_error e))) READING (fun _ _ _ => True).

#[export] Instance basic_sides : TwoSides ChannelImpl SendOperation RecvOperation conn.
Proof. by refine {| frame := connection_ |}. Defined.

#[local] Arguments OP_FINISHED /.
#[local] Arguments WRITING /.
#[local] Arguments READING /.
#[local] Arguments UNINITIALIZED /.

Ltac good_tac := split; simpl;
  [ lia | split; [first [by intros [? [=]] | by intros _; lia] | first [by eauto | lia]] | first [done | lia] ].

Lemma basic_send_local_ok : sends_local sends_side recvs_side (@Some cb) (fun _ => True) (fun _ => True).
Proof.
  intros e connection ns _. unfold sends_side, unstarted_if. simpl. split.
  - repeat constructor; intros o o' evs Ho; try (apply done_inj in Ho as [= <- _]; done);
      unfold callSendCallback in Ho; inv_bind Ho; by apply done_inj in Ho as [= <- _].
  - intros p [n s d ptr len f] [Hs Hf Hd].
    assert (s = 0 \/ s = 1 \/ s = 2)%nat as Hs' by (simpl in Hs; lia).
    simpl in *. apply is_Some_iff in Hf.
    destruct Hs' as [-> | [-> | ->]], Hf as [(g & -> & Hf)|[-> Hf]]; try lia;
      destruct d; try (specialize (Hd eq_refl); lia);
      unfold send_unstarted, sends_only, step_op, attempt_local, send_owed, send_pend; simpl;
      destruct (is_error e) eqn:He, (len =? 0) eqn:Hl, p as [|p]; simpl.
    all: local_step good_tac.
  - intros [n s d ptr len f] [Hs Hf Hd] Ho. simpl in *. subst s. apply is_Some_iff in Hf.
    destruct Hf as [(g & -> & Hf)|[-> _]]; [lia|]. unfold send_unstarted. simpl. by destruct (is_error e).
  - repeat constructor.
  - intros He%flow_if_flowing p o [Hs Hf Hd] Hr Hp. apply negb_true_iff in He. simpl in *.
    destruct (Nat.eq_dec (so_state o) 0) as [H0|]; [|lia]. exfalso. unfold op_at_rest, advanceSendOperation in Hr.
    rewrite !Forall_cons in Hr. destruct Hr as (Hr1 & Hr2 & _). simpl in *. rewrite H0, He in Hr2. simpl in Hr2.
    by destruct p; [lia|].
  - intros o _ Ho. unfold send_unstarted. simpl in *. destruct (so_state o); [lia|]. by destruct (is_error e).
  - simpl. lia.
  - done.
Qed.

Lemma basic_recv_local_ok : recvs_local sends_side recvs_side (@Some cb) (fun _ => True) (fun _ => True).
Proof.
  intros e connection ns _. unfold recvs_side, unstarted_if. simpl. split.
  - repeat constructor; intros o o' evs Ho; try (apply done_inj in Ho as [= <- _]; done);
      unfold callRecvCallback in Ho; inv_bind Ho; by apply done_inj in Ho as [= <- _].
  - intros p [n s d ptr len f] [Hs Hf Hd].
    assert (s = 0 \/ s = 1 \/ s = 2)%nat as Hs' by (simpl in Hs; lia).
    simpl in *. apply is_Some_iff in Hf.
    destruct Hs' as [-> | [-> | ->]], Hf as [(g & -> & Hf)|[-> Hf]]; try lia;
      destruct d; try (specialize (Hd eq_refl); lia);
      unfold recv_unstarted, recvs_only, step_op, attempt_local, recv_owed, recv_pend; simpl;
      destruct (is_error e) eqn:He, (len =? 0) eqn:Hl, p as [|p]; simpl.
    all: local_step good_tac.
  - intros [n s d ptr len f] [Hs Hf Hd] Ho. simpl in *. subst s. apply is_Some_iff in Hf.
    destruct Hf as [(g & -> & Hf)|[-> _]]; [lia|]. unfold recv_unstarted. simpl. by destruct (is_error e).
  - repeat constructor.
  - intros He%flow_if_flowing p o [Hs Hf Hd] Hr Hp. apply negb_true_iff in He. simpl in *.
    destruct (Nat.eq_dec (ro_state o) 0) as [H0|]; [|lia]. exfalso. unfold op_at_rest, advanceRecvOperation in Hr.
    rewrite !Forall_cons in Hr. destruct Hr as (Hr1 & Hr2 & _). simpl in *. rewrite H0, He in Hr2. simpl in Hr2.
    by destruct p; [lia|].
  - intros o _ Ho. unfold recv_unstarted. simpl in *. destruct (ro_state o); [lia|]. by destruct (is_error e).
  - simpl. lia.
  - done.
Qed.

(** ** The channel *)

Definition basic_inv := sides_inv sends_side recvs_side (@Some cb) (fun _ _ _ _ => True).
Definition basic_view : chan_view ChannelImpl Empty_set cb := sides_view sends_side recvs_side.

(** Without errors every operation has started: so when an error comes, none is
    ready to finish. *)
Lemma basic_send_front_ok e connection l :
  all_at_rest (advanceSendOperation kSuccess connection) True l ->
  front_ok (advanceSendOperation e connection) l.
Proof.
  destruct l as [|o l]; [done|]. intros Hr. left. specialize (Hr I 0%nat o eq_refl I).
  unfold op_at_rest, advanceSendOperation in *. rewrite !Forall_cons in *. destruct Hr as (_ & Hr2 & Hr3 & _). simpl in *.
  destruct (so_state o) as [|[|s]]; [done | split_and!; [done..| |constructor] | split_and!; [done..|constructor]].
  done.
Qed.

Lemma basic_recv_front_ok e connection l :
  all_at_rest (advanceRecvOperation kSuccess connection) True l ->
  front_ok (advanceRecvOperation e connection) l.
Proof.
  destruct l as [|o l]; [done|]. intros Hr. left. specialize (Hr I 0%nat o eq_refl I).
  unfold op_at_rest, advanceRecvOperation in *. rewrite !Forall_cons in *. destruct Hr as (_ & Hr2 & Hr3 & _). simpl in *.
  destruct (ro_state o) as [|[|s]]; [done | split_and!; [done..| |constructor] | split_and!; [done..|constructor]].
  done.
Qed.

Lemma basic_send_takes it :
  takes sends_side it (CbWritten it) (fun op => op <| so_doneWriting := true |>).
Proof.
  intros e fr reqs o [Hg1 Hg2 Hg3] Ho. simpl in *. unfold send_pend in *. simpl.
  destruct (so_state o =? WRITING)%nat eqn:H1, (so_doneWriting o) eqn:H2; simpl in Ho;
    try (by apply not_elem_of_nil in Ho). apply list_elem_of_singleton in Ho as [= ->]. apply Nat.eqb_eq in H1.
  split_and!; try done; [split; simpl; try done; rewrite H1; simpl; lia|]. by rewrite H1.
Qed.

Lemma basic_recv_takes it :
  takes recvs_side it (CbRead it) (fun op => op <| ro_doneReading := true |>).
Proof.
  intros e fr reqs o [Hg1 Hg2 Hg3] Ho. simpl in *. unfold recv_pend in *. simpl.
  destruct (ro_state o =? READING)%nat eqn:H1, (ro_doneReading o) eqn:H2; simpl in Ho;
    try (by apply not_elem_of_nil in Ho). apply list_elem_of_singleton in Ho as [= ->]. apply Nat.eqb_eq in H1.
  split_and!; try done; [split; simpl; try done; rewrite H1; simpl; lia|]. by rewrite H1.
Qed.

Lemma basic_send_pend_kind o it : CbRead it ∉ send_pend o.
Proof. unfold send_pend. destruct (_ && _); [|apply not_elem_of_nil]. by intros [=]%list_elem_of_singleton. Qed.
Lemma basic_recv_pend_kind o it : CbWritten it ∉ recv_pend o.
Proof. unfold recv_pend. destruct (_ && _); [|apply not_elem_of_nil]. by intros [=]%list_elem_of_singleton. Qed.

Lemma basic_laws : sides_laws sends_side recvs_side (@Some cb) (fun _ => True) (fun _ => True) (fun _ _ _ _ => True).
Proof. split; try done; try (intros; apply flow_if_chained); [apply basic_send_local_ok | apply basic_recv_local_ok]. Qed.

Lemma basic_send ns nr out ptr len f c :
  basic_inv kSuccess ns nr None out c -> Z.of_nat (length ns) + 1 < 2 ^ 63 ->
  wp (sendImplFromLoop kSuccess (Z.of_nat (length ns)) ptr len f c) (fun _ => False)
     (chan_post basic_view basic_inv kSuccess (ns ++ [(ptr, len)]) nr None out [f] []
        (one_piece (Z.of_nat (length ns)) (ptr, len)) [] c).
Proof.
  intros Hi Hb. unfold sendImplFromLoop. change (sends kSuccess c) with (send_table sends_side kSuccess c).
  refine (sides_send _ _ _ _ _ _ basic_laws kSuccess ns nr out _ (newSendOperation (Z.of_nat (length ns)))
    (fun op => op <| so_ptr := ptr |> <| so_length := len |> <| so_callback := Some f |>) (ptr, len) c Hi eq_refl eq_refl Hb _ eq_refl eq_refl _ eq_refl); [|simpl; lia].
  split; simpl; [lia | split; [intros _; lia | by eauto] | done].
Qed.

Lemma basic_recv ns nr out ptr len f c :
  basic_inv kSuccess ns nr None out c -> Z.of_nat (length nr) + 1 < 2 ^ 63 ->
  wp (recvImplFromLoop kSuccess (Z.of_nat (length nr)) ptr len f c) (fun _ => False)
     (chan_post basic_view basic_inv kSuccess ns (nr ++ [(ptr, len)]) None out [] [f] []
        (one_piece (Z.of_nat (length nr)) (ptr, len)) c).
Proof.
  intros Hi Hb. unfold recvImplFromLoop. change (recvs kSuccess c) with (recv_table recvs_side kSuccess c).
  refine (sides_recv _ _ _ _ _ _ basic_laws kSuccess ns nr out _ (newRecvOperation (Z.of_nat (length nr)))
    (fun op => op <| ro_ptr := ptr |> <| ro_length := len |> <| ro_callback := Some f |>) (ptr, len) c Hi eq_refl eq_refl Hb _ eq_refl eq_refl _ eq_refl); [|simpl; lia].
  split; simpl; [lia | split; [intros _; lia | by eauto] | done].
Qed.

Lemma basic_body e ns nr out k d c :
  basic_inv e ns nr (Some k) out c ->
  wp (callback_body e k d c) (fun _ => False) (chan_post basic_view basic_inv e ns nr None out [] [] [] [] c).
Proof.
  intros Hi. destruct k as [it|it]; cbn [callback_body].
  - unfold onWritten. change (sends e c) with (send_table sends_side e c).
    exact (sides_sent _ _ _ _ _ _ basic_laws e ns nr out it (CbWritten it) (CbWritten it) _ c Hi eq_refl
             (fun o => basic_recv_pend_kind o it) (basic_send_takes it)).
  - unfold onRead. change (recvs e c) with (recv_table recvs_side e c).
    exact (sides_received _ _ _ _ _ _ basic_laws e ns nr out it (CbRead it) (CbRead it) _ c Hi eq_refl
             (fun o => basic_send_pend_kind o it) (basic_recv_takes it)).
Qed.

Lemma basic_error e ns nr cur out c :
  basic_inv kSuccess ns nr cur out c -> is_error e = true ->
  wp (handleErrorImpl e c) (fun _ => False) (chan_post basic_view basic_inv e ns nr cur out [] [] [] [] c).
Proof.
  intros [Hs Hsr Hrr _] He. unfold handleErrorImpl. change (sends e c) with (send_table sends_side e c).
  change (recvs e c) with (recv_table recvs_side e c).
  destruct (sides_advance_both _ _ _ _ _ _ basic_laws e ns nr cur cur out [] [ConnClose (connection_ c); CtxUnenroll] c c)
    as (l1 & evs1 & l2 & evs2 & Hrun1 & Hrun2 & _ & Hpost); try done.
  - by eapply (sides_at_error _ _ _ _ _ _ basic_laws).
  - intros _. by apply basic_send_front_ok.
  - intros _. by apply basic_recv_front_ok.
  - by repeat constructor.
  - rewrite Hrun1, bind_done. cbv beta iota. rewrite Hrun2, bind_done. cbv beta iota.
    rewrite <- app_assoc in Hpost. exact Hpost.
Qed.

#[export] Instance basic_safe : ChannelSafe ChannelImpl Empty_set cb unit.
Proof.
  refine {|
    ch_inv := basic_inv;
    ch_view := basic_view;
    ch_fits _ _ _ := True;
    ch_asks _ _ _ _ := True;
    ch_initial c _ := exists connection, c = newChannelImpl connection;
  |}.
  - intros c d [connection ->]. assert (forall e, basic_inv e [] [] None [] (newChannelImpl connection)) as Hi.
    { intros e. split; simpl; try done; try (by intros ? ?). split; [by exists 0; split; [apply side_ok_nil|]..|done]. }
    by split_and!.
  - intros ns nr out ptr len f c Hi Hb _. by apply basic_send.
  - intros ns nr out ptr len f c Hi Hb _. by apply basic_recv.
  - intros e ns nr out a c Hi He. by apply (sides_skip _ _ _ _ _ _ basic_laws).
  - intros e ns nr cur out c Hi He. by apply basic_error.
  - intros e ns nr out i k c Hi Hk. by apply sides_take.
  - intros e ns nr out k d c Hi _. by apply basic_body.
Defined.

Lemma basic_send_live : side_live sends_side.
Proof.
  intros e f reqs o [Hg _ _] Hs Hr Hf. simpl in *. unfold op_at_rest, advanceSendOperation, send_pend in *.
  rewrite !Forall_cons in Hr. destruct Hr as (H1 & H2 & H3 & _). simpl in *.
  destruct (so_state o) as [|[|[|s]]]; simpl in *; [by destruct (is_error e) | | done | lia].
  by destruct (so_doneWriting o).
Qed.

Lemma basic_recv_live : side_live recvs_side.
Proof.
  intros e f reqs o [Hg _ _] Hs Hr Hf. simpl in *. unfold op_at_rest, advanceRecvOperation, recv_pend in *.
  rewrite !Forall_cons in Hr. destruct Hr as (H1 & H2 & H3 & _). simpl in *.
  destruct (ro_state o) as [|[|[|s]]]; simpl in *; [by destruct (is_error e) | | done | lia].
  by destruct (ro_doneReading o).
Qed.

#[export] Instance basic_live : ChannelLive ChannelImpl Empty_set cb unit.
Proof.
  refine {| awaited _ _ := true; live_ok _ _ _ := True |}. intros e ns nr out c Hi _ Hq.
  assert (flow_if (negb (is_error e)) <> Stopped \/ is_error e = true) as Hf by (destruct (is_error e); [by right | by left]).
  assert (out = []) as -> by (destruct out; [done|]; by apply Forall_cons in Hq as [? _]).
  destruct (sides_quiet sends_side recvs_side (@Some cb) _ e ns nr [] c basic_send_live basic_recv_live I I Hf Hf Hi)
    as [HS HR]; [by constructor|]. unfold sends_of, recvs_of in *. simpl in *. by rewrite HS, HR.
Defined.
