(* ===== verification/CopyChannel.v ===== *)
(** * Channels that copy memory

    Models [channel/xth/channel_impl.cc] and [channel/cma/channel_impl.cc]: the
    sender writes the address of each tensor on a descriptor connection, the
    receiver asks its context to copy from there, and then tells the sender on a
    completion connection.  The two channels are the same code, but for the
    process identifier that [cma] adds to its descriptors: [process_] is [None]
    for [xth]. *)

From S2P Require Import Prelude Messages OpsStateMachine LocalOps ChannelBase ChannelSides.

Definition UNINITIALIZED : nat := 0.
Definition READING_COMPLETION : nat := 1.
Definition SEND_FINISHED : nat := 2.
Definition READING_DESCRIPTOR : nat := 1.
Definition COPYING : nat := 2.
Definition RECV_FINISHED : nat := 3.

Record SendOperation := mkSendOperation {
  so_sequenceNumber : Z;
  so_state : nat;
  so_doneReadingCompletion : bool;
  so_ptr : Z;
  so_length : Z;
  so_callback : option callback;
}.
#[export] Instance eta_SendOperation : Eta SendOperation := fun o =>
  mkSendOperation (so_sequenceNumber o) (so_state o) (so_doneReadingCompletion o) (so_ptr o) (so_length o) (so_callback o).
Definition newSendOperation (seq : Z) : SendOperation := mkSendOperation seq UNINITIALIZED false 0 0 None.

Record RecvOperation := mkRecvOperation {
  ro_sequenceNumber : Z;
  ro_state : nat;
  ro_doneReadingDescriptor : bool;
  ro_doneCopying : bool;
  ro_ptr : Z;
  ro_length : Z;
  ro_callback : option callback;
  ro_remotePid : option Z;
  ro_remotePtr : Z;
}.
#[export] Instance eta_RecvOperation : Eta RecvOperation := fun o =>
  mkRecvOperation (ro_sequenceNumber o) (ro_state o) (ro_doneReadingDescriptor o) (ro_doneCopying o) (ro_ptr o)
    (ro_length o) (ro_callback o) (ro_remotePid o) (ro_remotePtr o).
Definition newRecvOperation (seq : Z) : RecvOperation :=
  mkRecvOperation seq UNINITIALIZED false false 0 0 None None 0.

(** [struct Descriptor]. *)
Record Descriptor := mkDescriptor { nd_pid : option Z; nd_ptr : Z }.

(** What never changes: the connections and the process. *)
Record Links := mkLinks {
  descriptorConnection_ : conn;
  completionConnection_ : conn;
  process_ : option Z;
}.

Record ChannelImpl := mkChannelImpl {
  links_ : Links;
  sendOps_ : list SendOperation;
  recvOps_ : list RecvOperation;
}.
#[export] Instance eta_ChannelImpl : Eta ChannelImpl := fun c =>
  mkChannelImpl (links_ c) (sendOps_ c) (recvOps_ c).
Definition newChannelImpl (l : Links) : ChannelImpl := mkChannelImpl l [] [].

#[export] Instance send_operation : Operation SendOperation := {
  op_seq := so_sequenceNumber;
  op_state := so_state;
  op_put_state n o := o <| so_state := n |>;
  FINISHED := SEND_FINISHED;
}.
#[export] Instance recv_operation : Operation RecvOperation := {
  op_seq := ro_sequenceNumber;
  op_state := ro_state;
  op_put_state n o := o <| ro_state := n |>;
  FINISHED := RECV_FINISHED;
}.
#[export] Instance send_machine : OpsMachine ChannelImpl SendOperation := {
  get_ops := sendOps_;
  put_ops l c := c <| sendOps_ := l |>;
}.
#[export] Instance recv_machine : OpsMachine ChannelImpl RecvOperation := {
  get_ops := recvOps_;
  put_ops l c := c <| recvOps_ := l |>;
}.
#[export] Instance send_laws : OpsMachineLaws ChannelImpl SendOperation.
Proof. split; try done. by intros []. Qed.
#[export] Instance recv_laws : OpsMachineLaws ChannelImpl RecvOperation.
Proof. split; try done. by intros []. Qed.

(** The callbacks: the first two do nothing but pass on an error. *)
Inductive cb :=
| CbDescriptorWritten (seq : Z)
| CbCompletionWritten (seq : Z)
| CbCompletionRead (it : Z)
| CbDescriptorRead (it : Z)
| CbCopied (it : Z).

Definition awaits (k : cb) : bool :=
  match k with CbDescriptorWritten _ | CbCompletionWritten _ => false | _ => true end.
Definition key (k : cb) : option cb := if awaits k then Some k else None.

Abbreviation call := (ccall Descriptor cb).

(** A [std::function] that was reset to null must not be called. *)
Definition get_callback (o : option callback) : outcome callback :=
  match o with Some f => Done f | None => Throw ExDangling end.

Section Transitions.
Variable error_ : Error.
Variable links : Links.

Definition writeDescriptor : @local_action SendOperation call := fun op =>
  Done (op, [ConnWriteNop (descriptorConnection_ links) (mkDescriptor (process_ links) (so_ptr op))
               (CbDescriptorWritten (so_sequenceNumber op))]).

Definition readCompletion : @local_action SendOperation call := fun op =>
  Done (op, [ConnRead (completionConnection_ links) 0 0 (CbCompletionRead (so_sequenceNumber op))]).

Definition callSendCallback : @local_action SendOperation call := fun op =>
  f ← get_callback (so_callback op);
  Done (op <| so_callback := None |>, [UserSend f error_]).

Definition advanceSendOperation : list (@row SendOperation call) := [
    mkRow UNINITIALIZED SEND_FINISHED
      (fun op prev => is_error error_ || (so_length op =? 0)) [callSendCallback];
    mkRow UNINITIALIZED READING_COMPLETION
      (fun op prev => negb (is_error error_) && (READING_COMPLETION <=? prev)%nat) [writeDescriptor; readCompletion];
    mkRow READING_COMPLETION SEND_FINISHED
      (fun op prev => so_doneReadingCompletion op) [callSendCallback]
  ].

Definition readDescriptor : @local_action RecvOperation call := fun op =>
  Done (op, [ConnReadNop (descriptorConnection_ links) (CbDescriptorRead (ro_sequenceNumber op))]).

Definition copy : @local_action RecvOperation call := fun op =>
  Done (op, [CtxRequestCopy (mkCopyRequest (ro_remotePid op) (ro_remotePtr op) (ro_ptr op) (ro_length op))
               (CbCopied (ro_sequenceNumber op))]).

Definition callRecvCallback : @local_action RecvOperation call := fun op =>
  f ← get_callback (ro_callback op);
  Done (op <| ro_callback := None |>, [UserRecv f error_]).

Definition writeCompletion : @local_action RecvOperation call := fun op =>
  Done (op, [ConnWrite (completionConnection_ links) 0 0 (CbCompletionWritten (ro_sequenceNumber op))]).

Definition advanceRecvOperation : list (@row RecvOperation call) := [
    mkRow UNINITIALIZED RECV_FINISHED
      (fun op prev => is_error error_ || (ro_length op =? 0)) [callRecvCallback];
    mkRow UNINITIALIZED READING_DESCRIPTOR
      (fun op prev => negb (is_error error_) && (READING_DESCRIPTOR <=? prev)%nat) [readDescriptor];
    mkRow READING_DESCRIPTOR RECV_FINISHED
      (fun op prev => is_error error_ && ro_doneReadingDescriptor op) [callRecvCallback];
    mkRow READING_DESCRIPTOR COPYING
      (fun op prev => negb (is_error error_) && ro_doneReadingDescriptor op) [copy];
    mkRow COPYING RECV_FINISHED
      (fun op prev => is_error error_ && ro_doneCopying op) [callRecvCallback];
    mkRow COPYING RECV_FINISHED
      (fun op prev => negb (is_error error_) && ro_doneCopying op && (RECV_FINISHED <=? prev)%nat)
      [callRecvCallback; writeCompletion]
  ].
End Transitions.

(** The tables, for the state of a channel, whose connections never change. *)
Definition sends (error_ : Error) (c : ChannelImpl) : list (@transition ChannelImpl SendOperation call) :=
  table (advanceSendOperation error_ (links_ c)).
Definition recvs (error_ : Error) (c : ChannelImpl) : list (@transition ChannelImpl RecvOperation call) :=
  table (advanceRecvOperation error_ (links_ c)).

Definition initImplFromLoop (d : Descriptor) (c : ChannelImpl) : outcome (ChannelImpl * list call) :=
  Done (c, [CtxEnroll]).

Definition sendImplFromLoop (error_ : Error) (sequenceNumber ptr length : Z) (f : callback) (c : ChannelImpl)
    : outcome (ChannelImpl * list call) :=
  c1 ← update_op sequenceNumber
        (fun op => op <| so_ptr := ptr |> <| so_length := length |> <| so_callback := Some f |>)
        (emplaceBack (newSendOperation sequenceNumber) c);
  advanceOperation (sends error_ c) sequenceNumber c1.

Definition recvImplFromLoop (error_ : Error) (sequenceNumber ptr length : Z) (f : callback) (c : ChannelImpl)
    : outcome (ChannelImpl * list call) :=
  c1 ← update_op sequenceNumber
        (fun op => op <| ro_ptr := ptr |> <| ro_length := length |> <| ro_callback := Some f |>)
        (emplaceBack (newRecvOperation sequenceNumber) c);
  advanceOperation (recvs error_ c) sequenceNumber c1.

Definition onCompletionRead (error_ : Error) (it : Z) (c : ChannelImpl) : outcome (ChannelImpl * list call) :=
  c1 ← update_op it (fun op => op <| so_doneReadingCompletion := true |>) c;
  advanceOperation (sends error_ c) it c1.

Definition onDescriptorRead (error_ : Error) (it : Z) (nopDescriptor : Descriptor) (c : ChannelImpl)
    : outcome (ChannelImpl * list call) :=
  c1 ← update_op it (fun op =>
         let op := op <| ro_doneReadingDescriptor := true |> in
         if is_error error_ then op
         else op <| ro_remotePid := nd_pid nopDescriptor |> <| ro_remotePtr := nd_ptr nopDescriptor |>) c;
  advanceOperation (recvs error_ c) it c1.

Definition onCopied (error_ : Error) (it : Z) (c : ChannelImpl) : outcome (ChannelImpl * list call) :=
  c1 ← update_op it (fun op => op <| ro_doneCopying := true |>) c;
  advanceOperation (recvs error_ c) it c1.

(** [d] is the object read, for [CbDescriptorRead]. *)
Definition callback_body (error_ : Error) (k : cb) (d : Descriptor) (c : ChannelImpl)
    : outcome (ChannelImpl * list call) :=
  match k with
  | CbDescriptorWritten _ | CbCompletionWritten _ => Done (c, [])
  | CbCompletionRead it => onCompletionRead error_ it c
  | CbDescriptorRead it => onDescriptorRead error_ it d c
  | CbCopied it => onCopied error_ it c
  end.

Definition handleErrorImpl (error_ : Error) (c : ChannelImpl) : outcome (ChannelImpl * list call) :=
  '(c1, calls1) ← advanceAllOperations (sends error_ c) c;
  '(c2, calls2) ← advanceAllOperations (recvs error_ c) c1;
  Done (c2, calls1 ++ calls2 ++ [ConnClose (descriptorConnection_ (links_ c));
                                 ConnClose (completionConnection_ (links_ c)); CtxUnenroll]).

#[export] Instance copy_channel : ChannelBase.ChannelImpl ChannelImpl Descriptor cb Descriptor := {
  initImplFromLoop := initImplFromLoop;
  sendImplFromLoop := sendImplFromLoop;
  recvImplFromLoop := recvImplFromLoop;
  handleErrorImpl := handleErrorImpl;
  callback_body := callback_body;
}.

(** ** Single operations *)

Record send_good (o : SendOperation) : Prop := {
  sg_state : (so_state o <= SEND_FINISHED)%nat;
  sg_callback : is_Some (so_callback o) <-> (so_state o < SEND_FINISHED)%nat;
  sg_done : so_doneReadingCompletion o = true -> (READING_COMPLETION <= so_state o)%nat;
}.
Definition send_owed (o : SendOperation) : list callback := option_list (so_callback o).
Definition send_pend (o : SendOperation) : list cb :=
  if (so_state o =? READING_COMPLETION)%nat && negb (so_doneReadingCompletion o)
  then [CbCompletionRead (so_sequenceNumber o)] else [].
Definition send_unstarted (o : SendOperation) : list piece :=
  if negb (so_state o =? UNINITIALIZED)%nat || (so_length o =? 0) then []
  else [mkPiece 0 (so_ptr o) 0 (so_sequenceNumber o)].
(** A send starts by writing its descriptor. *)
Definition send_start (c : call) : option piece :=
  match c with ConnWriteNop _ d (CbDescriptorWritten it) => Some (mkPiece 0 (nd_ptr d) 0 it) | _ => None end.

Record recv_good (o : RecvOperation) : Prop := {
  rg_state : (ro_state o <= RECV_FINISHED)%nat;
  rg_callback : is_Some (ro_callback o) <-> (ro_state o < RECV_FINISHED)%nat;
  rg_read : ro_doneReadingDescriptor o = true -> (READING_DESCRIPTOR <= ro_state o)%nat;
  rg_copied : ro_doneCopying o = true -> (COPYING <= ro_state o)%nat;
}.
Definition recv_owed (o : RecvOperation) : list callback := option_list (ro_callback o).
Definition recv_pend (o : RecvOperation) : list cb :=
  if (ro_state o =? READING_DESCRIPTOR)%nat && negb (ro_doneReadingDescriptor o)
  then [CbDescriptorRead (ro_sequenceNumber o)]
  else if (ro_state o =? COPYING)%nat && negb (ro_doneCopying o) then [CbCopied (ro_sequenceNumber o)]
  else [].
Definition recv_unstarted (o : RecvOperation) : list piece :=
  if negb (ro_state o =? UNINITIALIZED)%nat || (ro_length o =? 0) then []
  else [mkPiece 0 0 0 (ro_sequenceNumber o)].
(** A receive starts by reading its descriptor. *)
Definition recv_start (c : call) : option piece :=
  match c with ConnReadNop _ (CbDescriptorRead it) => Some (mkPiece 0 0 0 it) | _ => None end.

(** A tensor that is not empty has one descriptor. *)
Definition one_descriptor (n : Z) (a : Z * Z) : list piece := if a.2 =? 0 then [] else [mkPiece 0 a.1 0 n].
Definition one_read (n : Z) (a : Z * Z) : list piece := if a.2 =? 0 then [] else [mkPiece 0 0 0 n].

Definition sends_side : side SendOperation Links Descriptor cb cb :=
  mkSide advanceSendOperation (fun _ _ _ => send_good) send_owed send_pend (fun _ => send_unstarted) send_start
    (fun _ => one_descriptor) (fun e _ => flow_if (negb (is_error e))) READING_COMPLETION (fun _ _ _ => True).
Definition recvs_side : side RecvOperation Links Descriptor cb cb :=
  mkSide advanceRecvOperation (fun _ _ _ => recv_good) recv_owed recv_pend (fun _ => recv_unstarted) recv_start
    (fun _ => one_read) (fun e _ => flow_if (negb (is_error e))) READING_DESCRIPTOR (fun _ _ _ => True).

#[export] Instance copy_sides : TwoSides ChannelImpl SendOperation RecvOperation Links.
Proof. by refine {| frame := links_ |}. Defined.

#[local] Arguments SEND_FINISHED /.
#[local] Arguments RECV_FINISHED /.
#[local] Arguments READING_COMPLETION /.
#[local] Arguments READING_DESCRIPTOR /.
#[local] Arguments COPYING /.
#[local] Arguments UNINITIALIZED /.

Ltac good_tac := split; simpl;
  [ lia | split; [first [by intros [? [=]] | by intros _; lia] | first [by eauto | lia]] | first [done | lia] .. ].

Lemma copy_send_local_ok : sends_local sends_side recvs_side key (fun _ => True) (fun _ => True).
Proof.
  intros e links ns _. unfold sends_side, unstarted_if. simpl. split.
  - repeat constructor; intros o o' evs Ho; try (apply done_inj in Ho as [= <- _]; done);
      unfold callSendCallback in Ho; inv_bind Ho; by apply done_inj in Ho as [= <- _].
  - intros p [n s d ptr len f] [Hs Hf Hd].
    assert (s = 0 \/ s = 1 \/ s = 2)%nat as Hs' by (simpl in Hs; lia).
    simpl in *. apply is_Some_iff in Hf.
    destruct Hs' as [-> | [-> | ->]], Hf as [(g & -> & Hf)|[-> Hf]]; try lia;
      destruct d; try (specialize (Hd eq_refl); lia);
      unfold send_unstarted, sends_only, step_op, attempt_local, send_owed, send_pend; simpl;
      destruct (is_error e) eqn:He, (len =? 0) eqn:Hl, p as [|p]; simpl.
    all: local_step good_tac.
  - intros [n s d ptr len f] [Hs Hf Hd] Ho. simpl in *. subst s. apply is_Some_iff in Hf.
    destruct Hf as [(g & -> & Hf)|[-> _]]; [lia|]. unfold send_unstarted. simpl. by destruct (is_error e).
  - repeat constructor.
  - intros He%flow_if_flowing p o [Hs Hf Hd] Hr Hp. apply negb_true_iff in He. simpl in *.
    destruct (Nat.eq_dec (so_state o) 0) as [H0|]; [|lia]. exfalso. unfold op_at_rest, advanceSendOperation in Hr.
    rewrite !Forall_cons in Hr. destruct Hr as (Hr1 & Hr2 & _). simpl in *. rewrite H0, He in Hr2. simpl in Hr2.
    by destruct p; [lia|].
  - intros o _ Ho. unfold send_unstarted. simpl in *. destruct (so_state o); [lia|]. by destruct (is_error e).
  - simpl. lia.
  - done.
Qed.

Lemma copy_recv_local_ok : recvs_local sends_side recvs_side key (fun _ => True) (fun _ => True).
Proof.
  intros e links nr _. unfold recvs_side, unstarted_if. simpl. split.
  - repeat constructor; intros o o' evs Ho; try (apply done_inj in Ho as [= <- _]; done);
      unfold callRecvCallback in Ho; inv_bind Ho; by apply done_inj in Ho as [= <- _].
  - intros p [n s d c ptr len f pid rptr] [Hs Hf Hd Hc].
    assert (s = 0 \/ s = 1 \/ s = 2 \/ s = 3)%nat as Hs' by (simpl in Hs; lia).
    simpl in *. apply is_Some_iff in Hf.
    destruct Hs' as [-> | [-> | [-> | ->]]], Hf as [(g & -> & Hf)|[-> Hf]]; try lia;
      destruct d; try (specialize (Hd eq_refl); lia); destruct c; try (specialize (Hc eq_refl); lia);
      unfold recv_unstarted, recvs_only, step_op, attempt_local, recv_owed, recv_pend; simpl;
      destruct (is_error e) eqn:He, (len =? 0) eqn:Hl, p as [|[|[|p]]]; simpl.
    all: local_step good_tac.
  - intros [n s d c ptr len f pid rptr] [Hs Hf Hd Hc] Ho. simpl in *. subst s. apply is_Some_iff in Hf.
    destruct Hf as [(g & -> & Hf)|[-> _]]; [lia|]. unfold recv_unstarted. simpl. by destruct (is_error e).
  - repeat constructor.
  - intros He%flow_if_flowing p o [Hs Hf Hd Hc] Hr Hp. apply negb_true_iff in He. simpl in *.
    destruct (Nat.eq_dec (ro_state o) 0) as [H0|]; [|lia]. exfalso. unfold op_at_rest, advanceRecvOperation in Hr.
    rewrite !Forall_cons in Hr. destruct Hr as (Hr1 & Hr2 & _). simpl in *. rewrite H0, He in Hr2. simpl in Hr2.
    by destruct p; [lia|].
  - intros o _ Ho. unfold recv_unstarted. simpl in *. destruct (ro_state o); [lia|]. by destruct (is_error e).
  - simpl. lia.
  - done.
Qed.

(** ** The channel *)

Definition copy_inv := sides_inv sends_side recvs_side key (fun _ _ _ _ => True).
Definition copy_view : chan_view ChannelImpl Descriptor cb := sides_view sends_side recvs_side.

Lemma copy_laws : sides_laws sends_side recvs_side key (fun _ => True) (fun _ => True) (fun _ _ _ _ => True).
Proof. split; try done; try (intros; apply flow_if_chained); [apply copy_send_local_ok | apply copy_recv_local_ok]. Qed.

(** The first operation has nothing left to do without an error, so an error
    does not let it finish. *)
Lemma copy_send_front_ok e links l :
  all_at_rest (advanceSendOperation kSuccess links) True l -> front_ok (advanceSendOperation e links) l.
Proof.
  destruct l as [|o l]; [done|]. intros Hr. left. specialize (Hr I 0%nat o eq_refl I).
  unfold op_at_rest, advanceSendOperation in *. rewrite !Forall_cons in *. destruct Hr as (_ & Hr2 & Hr3 & _). simpl in *.
  destruct (so_state o) as [|[|s]]; [done | split_and!; [done..| |constructor] | split_and!; [done..|constructor]].
  done.
Qed.

Lemma copy_recv_front_ok e links l :
  all_at_rest (advanceRecvOperation kSuccess links) True l -> front_ok (advanceRecvOperation e links) l.
Proof.
  destruct l as [|o l]; [done|]. intros Hr. left. specialize (Hr I 0%nat o eq_refl I).
  unfold op_at_rest, advanceRecvOperation in *. rewrite !Forall_cons in *.
  destruct Hr as (_ & Hr2 & _ & Hr4 & _ & Hr6 & _). simpl in *.
  destruct (ro_state o) as [|[|[|s]]]; simpl in *; [done | | | split_and!; by constructor].
  - rewrite Hr4. split_and!; try done; by rewrite ?andb_false_r.
  - rewrite andb_true_r in Hr6. rewrite Hr6. split_and!; try done; by rewrite ?andb_false_r.
Qed.

Lemma copy_send_takes it :
  takes sends_side it (CbCompletionRead it) (fun op => op <| so_doneReadingCompletion := true |>).
Proof.
  intros e fr reqs o [Hg1 Hg2 Hg3] Ho. simpl in *. unfold send_pend in *. simpl.
  destruct (so_state o =? READING_COMPLETION)%nat eqn:H1, (so_doneReadingCompletion o) eqn:H2; simpl in Ho;
    try (by apply not_elem_of_nil in Ho). apply list_elem_of_singleton in Ho as [= ->]. apply Nat.eqb_eq in H1.
  split_and!; try done; [split; simpl; try done; rewrite H1; simpl; lia|]. by rewrite H1.
Qed.

Lemma copy_recv_takes_descriptor e it d :
  takes recvs_side it (CbDescriptorRead it) (fun op =>
    let op := op <| ro_doneReadingDescriptor := true |> in
    if is_error e then op else op <| ro_remotePid := nd_pid d |> <| ro_remotePtr := nd_ptr d |>).
Proof.
  intros e' fr reqs o [Hg1 Hg2 Hg3 Hg4] Ho. simpl in *. unfold recv_pend in Ho.
  destruct (ro_state o =? READING_DESCRIPTOR)%nat eqn:H1, (ro_doneReadingDescriptor o) eqn:H2; simpl in Ho;
    try (destruct (_ && _); [by apply list_elem_of_singleton in Ho | by apply not_elem_of_nil in Ho]).
  apply list_elem_of_singleton in Ho as [= ->]. apply Nat.eqb_eq in H1.
  destruct (is_error e); (split_and!; try done; [split; simpl; try done; rewrite H1; simpl; lia|]);
    unfold recv_pend; simpl; by rewrite H1, H2.
Qed.

Lemma copy_recv_takes_copy it :
  takes recvs_side it (CbCopied it) (fun op => op <| ro_doneCopying := true |>).
Proof.
  intros e' fr reqs o [Hg1 Hg2 Hg3 Hg4] Ho. simpl in *. unfold recv_pend in Ho.
  destruct (ro_state o =? READING_DESCRIPTOR)%nat eqn:H1, (ro_doneReadingDescriptor o) eqn:H2,
    (ro_state o =? COPYING)%nat eqn:H3, (ro_doneCopying o) eqn:H4; simpl in Ho;
    try (by apply not_elem_of_nil in Ho); apply list_elem_of_singleton in Ho; try done;
    injection Ho as ->; apply Nat.eqb_eq in H3; try (apply Nat.eqb_eq in H1; congruence);
    (split_and!; try done; [split; simpl; try done; rewrite H3; simpl; lia|]);
    unfold recv_pend; simpl; by rewrite H3, H4.
Qed.

Lemma copy_send_pend_kind o b : b ∈ send_pend o -> exists it, b = CbCompletionRead it.
Proof.
  unfold send_pend. destruct (_ && _); [|by intros ?%not_elem_of_nil]. intros ->%list_elem_of_singleton. eauto.
Qed.
Lemma copy_recv_pend_kind o b : b ∈ recv_pend o -> exists it, b = CbDescriptorRead it \/ b = CbCopied it.
Proof.
  unfold recv_pend. destruct (_ && _); [intros ->%list_elem_of_singleton; eauto|].
  destruct (_ && _); [intros ->%list_elem_of_singleton; eauto | by intros ?%not_elem_of_nil].
Qed.

Lemma copy_send ns nr out ptr len f c :
  copy_inv kSuccess ns nr None out c -> Z.of_nat (length ns) + 1 < 2 ^ 63 ->
  wp (sendImplFromLoop kSuccess (Z.of_nat (length ns)) ptr len f c) (fun _ => False)
     (chan_post copy_view copy_inv kSuccess (ns ++ [(ptr, len)]) nr None out [f] []
        (one_descriptor (Z.of_nat (length ns)) (ptr, len)) [] c).
Proof.
  intros Hi Hb. unfold sendImplFromLoop. change (sends kSuccess c) with (send_table sends_side kSuccess c).
  refine (sides_send _ _ _ _ _ _ copy_laws kSuccess ns nr out _ (newSendOperation (Z.of_nat (length ns)))
    (fun op => op <| so_ptr := ptr |> <| so_length := len |> <| so_callback := Some f |>) (ptr, len) c Hi eq_refl eq_refl Hb _ eq_refl eq_refl _ eq_refl); [|simpl; lia].
  good_tac.
Qed.

Lemma copy_recv ns nr out ptr len f c :
  copy_inv kSuccess ns nr None out c -> Z.of_nat (length nr) + 1 < 2 ^ 63 ->
  wp (recvImplFromLoop kSuccess (Z.of_nat (length nr)) ptr len f c) (fun _ => False)
     (chan_post copy_view copy_inv kSuccess ns (nr ++ [(ptr, len)]) None out [] [f] []
        (one_read (Z.of_nat (length nr)) (ptr, len)) c).
Proof.
  intros Hi Hb. unfold recvImplFromLoop. change (recvs kSuccess c) with (recv_table recvs_side kSuccess c).
  refine (sides_recv _ _ _ _ _ _ copy_laws kSuccess ns nr out _ (newRecvOperation (Z.of_nat (length nr)))
    (fun op => op <| ro_ptr := ptr |> <| ro_length := len |> <| ro_callback := Some f |>) (ptr, len) c Hi eq_refl eq_refl Hb _ eq_refl eq_refl _ eq_refl); [|simpl; lia].
  good_tac.
Qed.

Lemma copy_body e ns nr out k d c :
  copy_inv e ns nr (Some k) out c ->
  wp (callback_body e k d c) (fun _ => False) (chan_post copy_view copy_inv e ns nr None out [] [] [] [] c).
Proof.
  intros Hi. destruct k as [it|it|it|it|it]; cbn [callback_body].
  - by apply sides_ignored with (k := CbDescriptorWritten it).
  - by apply sides_ignored with (k := CbCompletionWritten it).
  - unfold onCompletionRead. change (sends e c) with (send_table sends_side e c).
    refine (sides_sent _ _ _ _ _ _ copy_laws e ns nr out it (CbCompletionRead it) (CbCompletionRead it) _ c Hi eq_refl _ (copy_send_takes it)).
    intros o Ho. by destruct (copy_recv_pend_kind _ _ Ho) as [? [|]].
  - unfold onDescriptorRead. change (recvs e c) with (recv_table recvs_side e c).
    refine (sides_received _ _ _ _ _ _ copy_laws e ns nr out it (CbDescriptorRead it) (CbDescriptorRead it) _ c Hi eq_refl _
              (copy_recv_takes_descriptor e it d)).
    intros o Ho. by destruct (copy_send_pend_kind _ _ Ho).
  - unfold onCopied. change (recvs e c) with (recv_table recvs_side e c).
    refine (sides_received _ _ _ _ _ _ copy_laws e ns nr out it (CbCopied it) (CbCopied it) _ c Hi eq_refl _ (copy_recv_takes_copy it)).
    intros o Ho. by destruct (copy_send_pend_kind _ _ Ho).
Qed.

Lemma copy_error e ns nr cur out c :
  copy_inv kSuccess ns nr cur out c -> is_error e = true ->
  wp (handleErrorImpl e c) (fun _ => False) (chan_post copy_view copy_inv e ns nr cur out [] [] [] [] c).
Proof.
  intros [Hs Hsr Hrr _] He. unfold handleErrorImpl. change (sends e c) with (send_table sends_side e c).
  change (recvs e c) with (recv_table recvs_side e c).
  destruct (sides_advance_both _ _ _ _ _ _ copy_laws e ns nr cur cur out [] [ConnClose (descriptorConnection_ (links_ c));
      ConnClose (completionConnection_ (links_ c)); CtxUnenroll] c c)
    as (l1 & evs1 & l2 & evs2 & Hrun1 & Hrun2 & _ & Hpost); try done.
  - by eapply (sides_at_error _ _ _ _ _ _ copy_laws).
  - intros _. by apply copy_send_front_ok.
  - intros _. by apply copy_recv_front_ok.
  - by repeat constructor.
  - rewrite Hrun1, bind_done. cbv beta iota. rewrite Hrun2, bind_done. cbv beta iota.
    rewrite <- app_assoc in Hpost. exact Hpost.
Qed.

#[export] Instance copy_safe : ChannelSafe ChannelImpl Descriptor cb Descriptor.
Proof.
  refine {|
    ch_inv := copy_inv;
    ch_view := copy_view;
    ch_fits _ _ _ := True;
    ch_asks _ _ _ _ := True;
    ch_initial c _ := exists links, c = newChannelImpl links;
  |}.
  - intros c d [links ->]. assert (forall e, copy_inv e [] [] None [] (newChannelImpl links)) as Hi.
    { intros e. split; simpl; try done; try (by intros ? ?). split; [by exists 0; split; [apply side_ok_nil|]..|done]. }
    by split_and!.
  - intros ns nr out ptr len f c Hi Hb _. by apply copy_send.
  - intros ns nr out ptr len f c Hi Hb _. by apply copy_recv.
  - intros e ns nr out a c Hi He. by apply (sides_skip _ _ _ _ _ _ copy_laws).
  - intros e ns nr cur out c Hi He. by apply copy_error.
  - intros e ns nr out i k c Hi Hk. by apply sides_take.
  - intros e ns nr out k d c Hi _. by apply copy_body.
Defined.

Lemma copy_send_live : side_live sends_side.
Proof.
  intros e f reqs o [Hg _ _] Hs Hr Hf. simpl in *. unfold op_at_rest, advanceSendOperation, send_pend in *.
  rewrite !Forall_cons in Hr. destruct Hr as (H1 & H2 & H3 & _). simpl in *.
  destruct (so_state o) as [|[|[|s]]]; simpl in *; [by destruct (is_error e) | | done | lia].
  by destruct (so_doneReadingCompletion o).
Qed.

Lemma copy_recv_live : side_live recvs_side.
Proof.
  intros e f reqs o [Hg _ _ _] Hs Hr Hf. simpl in *. unfold op_at_rest, advanceRecvOperation, recv_pend in *.
  rewrite !Forall_cons in Hr. destruct Hr as (H1 & H2 & H3 & H4 & H5 & H6 & _). simpl in *.
  destruct (ro_state o) as [|[|[|[|s]]]]; simpl in *; [by destruct (is_error e) | | | done | lia].
  - by destruct (ro_doneReadingDescriptor o), (is_error e).
  - by destruct (ro_doneCopying o), (is_error e).
Qed.

#[export] Instance copy_live : ChannelLive ChannelImpl Descriptor cb Descriptor.
Proof.
  refine {| awaited _ := awaits; live_ok _ _ _ := True |}. intros e ns nr out c Hi _ Hq.
  assert (flow_if (negb (is_error e)) <> Stopped \/ is_error e = true) as Hf by (destruct (is_error e); [by right | by left]).
  assert (Forall (fun k => key k = None) out) as Hq' by (eapply Forall_impl; [exact Hq|]; unfold key; by intros k ->).
  destruct (sides_quiet sends_side recvs_side key _ e ns nr out c copy_send_live copy_recv_live I I Hf Hf Hi Hq')
    as [HS HR]. unfold sends_of, recvs_of in *. simpl in *. by rewrite HS, HR.
Defined.
