(* ===== verification/Chunks.v ===== *)
(** * Tensors cut into chunks

    The chunks of a fixed size into which [cuda_basic] and [cuda_ipc] channels cut
    tensors, and the arithmetic of their loops. *)

From S2P Require Import Prelude.

Section Chunks.
Variable slot : Z.
Hypothesis Hslot : 0 < slot < 2 ^ 32.

(** The number of chunks of a tensor, and their offsets and lengths. *)
Definition num_chunks (len : Z) : nat := Z.to_nat ((len + slot - 1) / slot).
Definition chunk (len : Z) (i : nat) : Z * Z := (Z.of_nat i * slot, Z.min (len - Z.of_nat i * slot) slot).
Definition chunks (a : Z * Z) : list (Z * Z) := chunk a.2 <$> seq 0 (num_chunks a.2).

(** The callback of the user goes with the last of [k] chunks. *)
Definition callbacks_left {F} (k : nat) (f : F) : list F := match k with O => [] | _ => [f] end.

Lemma num_chunks_spec len i : 0 <= len -> (i < num_chunks len)%nat <-> Z.of_nat i * slot < len.
Proof using Hslot.
  intros Hl. unfold num_chunks.
  pose proof (Z.div_mod (len + slot - 1) slot ltac:(lia)) as Hd.
  pose proof (Z.mod_pos_bound (len + slot - 1) slot ltac:(lia)) as Hm.
  assert (0 <= (len + slot - 1) / slot) by (apply Z.div_pos; lia). nia.
Qed.

Lemma num_chunks_zero : num_chunks 0 = 0%nat.
Proof using Hslot. destruct (num_chunks 0) eqn:Hn; [done|]. assert (0 < num_chunks 0)%nat as H by lia. apply num_chunks_spec in H; lia. Qed.

Lemma num_chunks_le len : 0 <= len -> Z.of_nat (num_chunks len) <= len.
Proof using Hslot.
  intros Hl. destruct (num_chunks len) as [|n] eqn:Hn; [lia|].
  assert (n < num_chunks len)%nat as H by lia. apply num_chunks_spec in H; nia.
Qed.

Lemma ceil_chunks len : 0 <= len -> len + slot <= 2 ^ 64 -> u64 (len + slot - 1) / slot = Z.of_nat (num_chunks len).
Proof using Hslot.
  intros Hl Hb. unfold num_chunks. rewrite u64_small by (unfold is_u64; lia).
  rewrite Z2Nat.id; [done|]. apply Z.div_pos; lia.
Qed.

(** The loops count offsets, or chunks. *)
Lemma last_chunk_offset len i k :
  (num_chunks len = i + S k)%nat -> 0 <= len -> len + slot <= 2 ^ 64 ->
  (Z.of_nat i * slot / slot =? u64 (Z.of_nat (num_chunks len) - 1)) = (k =? 0)%nat /\
  (Z.of_nat i * slot <? len) = true /\ u64 (Z.of_nat i * slot + slot) = Z.of_nat (S i) * slot.
Proof using Hslot.
  intros Hk Hl Hb. pose proof (num_chunks_le len Hl).
  assert (Z.of_nat i * slot < len) as Hlt by (apply num_chunks_spec; lia). rewrite Z.div_mul by lia. split_and!.
  - rewrite u64_small by (unfold is_u64; lia). apply eq_true_iff_eq. rewrite Z.eqb_eq, Nat.eqb_eq. lia.
  - by apply Z.ltb_lt.
  - rewrite u64_small by (unfold is_u64; nia). lia.
Qed.

Lemma last_chunk_index len i k :
  (num_chunks len = i + S k)%nat -> 0 <= len -> len + slot <= 2 ^ 64 ->
  (Z.of_nat i =? u64 (Z.of_nat (num_chunks len) - 1)) = (k =? 0)%nat /\
  (Z.of_nat i <? Z.of_nat (num_chunks len)) = true /\
  u64 (Z.of_nat i * slot) = Z.of_nat i * slot /\ u64 (Z.of_nat i + 1) = Z.of_nat (S i).
Proof using Hslot.
  intros Hk Hl Hb. destruct (last_chunk_offset len i k Hk Hl Hb) as (H1 & H2 & H3). rewrite Z.div_mul in H1 by lia.
  apply Z.ltb_lt in H2. split_and!; [done | apply Z.ltb_lt; lia | |]; rewrite u64_small by (unfold is_u64; nia); lia.
Qed.

(** ** The bytes of chunks *)

Definition bytes_of {A} (data : list A) (c : Z * Z) : list A := take (Z.to_nat c.2) (drop (Z.to_nat c.1) data).

Lemma chunks_cover {A} (data : list A) k :
  (k <= num_chunks (Z.of_nat (length data)))%nat ->
  concat (bytes_of data <$> (chunk (Z.of_nat (length data)) <$> seq 0 k)) = take (Z.to_nat (Z.of_nat k * slot)) data.
Proof using Hslot.
  intros Hk. induction k as [|k IH]; [done|].
  assert (Z.of_nat k * slot < Z.of_nat (length data)) as Hlt by (apply num_chunks_spec; lia).
  rewrite seq_S, !fmap_app, concat_app, IH by lia. cbn [fmap list_fmap concat]. rewrite app_nil_r, Nat.add_0_l.
  unfold bytes_of, chunk. cbn [fst snd]. rewrite take_take_drop.
  destruct (Z.le_gt_cases (Z.of_nat (length data)) (Z.of_nat (S k) * slot)) as [Hle|Hgt].
  - rewrite (firstn_all2 (n := Z.to_nat (Z.of_nat (S k) * slot))) by lia. apply firstn_all2. nia.
  - f_equal. nia.
Qed.

(** The chunks of a tensor cover it: put together in their order they are the
    tensor, and no chunk is empty, larger than a slot, or reaches beyond the end. *)
Lemma chunks_tile {A} (data : list A) (buffer : Z) :
  concat (bytes_of data <$> chunks (buffer, Z.of_nat (length data))) = data /\
  Forall (fun c => 0 <= c.1 /\ 0 < c.2 <= slot /\ c.1 + c.2 <= Z.of_nat (length data)) (chunks (buffer, Z.of_nat (length data))).
Proof using Hslot.
  unfold chunks. cbn [snd]. set (n := num_chunks (Z.of_nat (length data))). split.
  - rewrite chunks_cover by done. apply firstn_all2.
    assert (~ Z.of_nat n * slot < Z.of_nat (length data)) as Hn by (intros H%num_chunks_spec; lia). lia.
  - apply Forall_fmap, Forall_seq. intros i [_ Hi]. assert (Z.of_nat i * slot < Z.of_nat (length data)) as Hlt by (apply num_chunks_spec; lia).
    unfold chunk. simpl. nia.
Qed.
End Chunks.
