(* ===== verification/CudaBasicChannel.v ===== *)
(** * The channel that stages CUDA tensors through CPU memory

    Models [channel/cuda_basic/channel_impl.cc]: a tensor is cut into chunks of
    [kSlotSize] bytes, each an operation of its own.  The sender copies a chunk that
    lives on a device to a staging buffer, announces it on a connection, and sends it
    over a channel between CPUs; the receiver waits for the announcement and does the
    converse.  Chunks in CPU memory skip the staging buffer.

    The calls of CUDA, of the allocators of staging buffers and of the CPU channel
    are among the calls that the channel makes. *)

From S2P Require Import Prelude Messages OpsStateMachine LocalOps ChannelBase ChannelSides.

Definition kSlotSize : Z := 1024 * 1024.

Definition ceilOfRatio (n d : Z) : Z := u64 (n + d - 1) / d.

Definition UNINITIALIZED : nat := 0.
Definition ALLOCATING_CPU_BUFFER : nat := 1.
Definition COPYING_FROM_GPU_TO_CPU : nat := 2.
Definition INVOKED_CALLBACK : nat := 3.
Definition SENDING_CPU_BUFFER : nat := 4.
Definition SEND_FINISHED : nat := 5.
Definition READING_READY_TO_SEND : nat := 1.
Definition RECV_ALLOCATING_CPU_BUFFER : nat := 2.
Definition RECEIVING_CPU_BUFFER : nat := 3.
Definition COPYING_FROM_CPU_TO_GPU : nat := 4.
Definition COPYING_FROM_CPU_TO_GPU_AND_INVOKED_CALLBACK : nat := 5.
Definition RECV_FINISHED : nat := 6.

(** The buffers ([Buffer]) that the user names by numbers. *)
Inductive Device := CpuDevice | CudaDevice (index : Z) | OtherDevice.
Record Buffers := mkBuffers {
  buffer_device : Z -> Device;
  buffer_ptr : Z -> Z;
  buffer_stream : Z -> Z;
}.

Record ChunkSendOperation := mkChunkSendOperation {
  so_sequenceNumber : Z;
  so_state : nat;
  so_bufferSequenceNumber : Z;
  so_isCpuBuffer : bool;
  so_devicePtr : Z;
  so_chunkId : Z;
  so_numChunks : Z;
  so_length : Z;
  so_callback : option callback;
  so_stream : Z;
  so_deviceIdx : Z;
  so_tmpBuffer : option Z;
  so_doneAllocatingCpuStagingBuffer : bool;
  so_doneCopyingFromGpuToCpu : bool;
  so_doneSendingCpuBuffer : bool;
}.
#[export] Instance eta_ChunkSendOperation : Eta ChunkSendOperation := fun o =>
  mkChunkSendOperation (so_sequenceNumber o) (so_state o) (so_bufferSequenceNumber o) (so_isCpuBuffer o) (so_devicePtr o)
    (so_chunkId o) (so_numChunks o) (so_length o) (so_callback o) (so_stream o) (so_deviceIdx o) (so_tmpBuffer o)
    (so_doneAllocatingCpuStagingBuffer o) (so_doneCopyingFromGpuToCpu o) (so_doneSendingCpuBuffer o).

Record ChunkRecvOperation := mkChunkRecvOperation {
  ro_sequenceNumber : Z;
  ro_state : nat;
  ro_bufferSequenceNumber : Z;
  ro_isCpuBuffer : bool;
  ro_devicePtr : Z;
  ro_chunkId : Z;
  ro_numChunks : Z;
  ro_length : Z;
  ro_callback : option callback;
  ro_stream : Z;
  ro_deviceIdx : Z;
  ro_tmpBuffer : option Z;
  ro_doneReadingReadyToSend : bool;
  ro_doneAllocatingCpuStagingBuffer : bool;
  ro_doneReceivingCpuBuffer : bool;
  ro_doneCopyingFromCpuToGpu : bool;
}.
#[export] Instance eta_ChunkRecvOperation : Eta ChunkRecvOperation := fun o =>
  mkChunkRecvOperation (ro_sequenceNumber o) (ro_state o) (ro_bufferSequenceNumber o) (ro_isCpuBuffer o) (ro_devicePtr o)
    (ro_chunkId o) (ro_numChunks o) (ro_length o) (ro_callback o) (ro_stream o) (ro_deviceIdx o) (ro_tmpBuffer o)
    (ro_doneReadingReadyToSend o) (ro_doneAllocatingCpuStagingBuffer o) (ro_doneReceivingCpuBuffer o)
    (ro_doneCopyingFromCpuToGpu o).

(** What never changes: the connection and the buffers of the user. *)
Record Links := mkLinks { connection_ : conn; buffers_ : Buffers }.

Record ChannelImpl := mkChannelImpl {
  links_ : Links;
  nextChunkBeingSent_ : Z;
  nextChunkBeingReceived_ : Z;
  chunkSendOps_ : list ChunkSendOperation;
  chunkRecvOps_ : list ChunkRecvOperation;
}.
#[export] Instance eta_ChannelImpl : Eta ChannelImpl := fun c =>
  mkChannelImpl (links_ c) (nextChunkBeingSent_ c) (nextChunkBeingReceived_ c) (chunkSendOps_ c) (chunkRecvOps_ c).
Definition newChannelImpl (l : Links) : ChannelImpl := mkChannelImpl l 0 0 [] [].

#[export] Instance send_operation : Operation ChunkSendOperation := {
  op_seq := so_sequenceNumber;
  op_state := so_state;
  op_put_state n o := o <| so_state := n |>;
  FINISHED := SEND_FINISHED;
}.
#[export] Instance recv_operation : Operation ChunkRecvOperation := {
  op_seq := ro_sequenceNumber;
  op_state := ro_state;
  op_put_state n o := o <| ro_state := n |>;
  FINISHED := RECV_FINISHED;
}.
#[export] Instance send_machine : OpsMachine ChannelImpl ChunkSendOperation := {
  get_ops := chunkSendOps_;
  put_ops l c := c <| chunkSendOps_ := l |>;
}.
#[export] Instance recv_machine : OpsMachine ChannelImpl ChunkRecvOperation := {
  get_ops := chunkRecvOps_;
  put_ops l c := c <| chunkRecvOps_ := l |>;
}.
#[export] Instance send_laws : OpsMachineLaws ChannelImpl ChunkSendOperation.
Proof. split; try done. by intros []. Qed.
#[export] Instance recv_laws : OpsMachineLaws ChannelImpl ChunkRecvOperation.
Proof. split; try done. by intros []. Qed.

(** The callbacks: the first does nothing but pass on an error. *)
Inductive cb :=
| CbReadyToSendWritten (bufferSequenceNumber chunkId numChunks : Z)
| CbSendAllocated (it : Z)
| CbCopiedToCpu (it : Z)
| CbCpuSent (it : Z)
| CbReadyToSendRead (it : Z)
| CbRecvAllocated (it : Z)
| CbCpuReceived (it : Z)
| CbCopiedToGpu (it : Z).

Definition awaits (k : cb) : bool := match k with CbReadyToSendWritten _ _ _ => false | _ => true end.
Definition key (k : cb) : option cb := if awaits k then Some k else None.

Abbreviation call := (ccall Empty_set cb).

(** A null pointer must not be given to a copy or to the CPU channel. *)
Definition get_staging (p : option Z) : outcome Z :=
  match p with Some a => Done a | None => Throw ExDangling end.

Definition cudaCopy (dst src length deviceIdx stream : Z) (k : cb) : list call :=
  [CudaCall (CudaMemcpyAsync deviceIdx dst src length stream); CudaLoopCallback deviceIdx stream k].

(** ** Operations *)

Section Transitions.
Variable error_ : Error.
Variable links : Links.

Definition allocateSendCpuBuffer : @local_action ChunkSendOperation call := fun op =>
  Done (op, [StagingAlloc true (so_deviceIdx op) (so_length op) (CbSendAllocated (so_sequenceNumber op))]).

Definition writeReadyToSend : @local_action ChunkSendOperation call := fun op =>
  Done (op, [ConnWrite (connection_ links) 0 0
               (CbReadyToSendWritten (so_bufferSequenceNumber op) (so_chunkId op) (so_numChunks op))]).

Definition copyFromGpuToCpu : @local_action ChunkSendOperation call := fun op =>
  tmp ← get_staging (so_tmpBuffer op);
  Done (op, cudaCopy tmp (so_devicePtr op) (so_length op) (so_deviceIdx op) (so_stream op) (CbCopiedToCpu (so_sequenceNumber op))).

Definition sendCpuBuffer : @local_action ChunkSendOperation call := fun op =>
  ptr ← if so_isCpuBuffer op then Done (so_devicePtr op) else get_staging (so_tmpBuffer op);
  Done (op, [CpuChannelSend ptr (so_length op) (CbCpuSent (so_sequenceNumber op))]).

Definition callSendCallback : @local_action ChunkSendOperation call := fun op =>
  match so_callback op with
  | Some f => Done (op <| so_callback := None |>, [UserSend f error_])
  | None => Done (op, [])
  end.

(** The deleter of the pointer gives the buffer back. *)
Definition returnSendCpuBuffer : @local_action ChunkSendOperation call := fun op =>
  Done (op <| so_tmpBuffer := None |>, StagingFree <$> option_list (so_tmpBuffer op)).

Definition advanceChunkSendOperation : list (@row ChunkSendOperation call) := [
    mkRow UNINITIALIZED SEND_FINISHED
      (fun op prev => is_error error_ && (INVOKED_CALLBACK <=? prev)%nat) [callSendCallback];
    mkRow UNINITIALIZED SENDING_CPU_BUFFER
      (fun op prev => negb (is_error error_) && so_isCpuBuffer op && (SENDING_CPU_BUFFER <=? prev)%nat)
      [writeReadyToSend; sendCpuBuffer];
    mkRow UNINITIALIZED ALLOCATING_CPU_BUFFER
      (fun op prev => negb (is_error error_) && negb (so_isCpuBuffer op) && (ALLOCATING_CPU_BUFFER <=? prev)%nat)
      [allocateSendCpuBuffer];
    mkRow ALLOCATING_CPU_BUFFER SEND_FINISHED
      (fun op prev => is_error error_ && so_doneAllocatingCpuStagingBuffer op && (INVOKED_CALLBACK <=? prev)%nat)
      [callSendCallback; returnSendCpuBuffer];
    mkRow ALLOCATING_CPU_BUFFER COPYING_FROM_GPU_TO_CPU
      (fun op prev => negb (is_error error_) && so_doneAllocatingCpuStagingBuffer op && (COPYING_FROM_GPU_TO_CPU <=? prev)%nat)
      [writeReadyToSend; copyFromGpuToCpu];
    mkRow COPYING_FROM_GPU_TO_CPU SEND_FINISHED
      (fun op prev => is_error error_ && so_doneCopyingFromGpuToCpu op && (INVOKED_CALLBACK <=? prev)%nat)
      [callSendCallback; returnSendCpuBuffer];
    mkRow COPYING_FROM_GPU_TO_CPU INVOKED_CALLBACK
      (fun op prev => negb (is_error error_) && so_doneCopyingFromGpuToCpu op && (INVOKED_CALLBACK <=? prev)%nat)
      [callSendCallback];
    mkRow INVOKED_CALLBACK SEND_FINISHED
      (fun op prev => is_error error_) [returnSendCpuBuffer];
    mkRow INVOKED_CALLBACK SENDING_CPU_BUFFER
      (fun op prev => negb (is_error error_) && (SENDING_CPU_BUFFER <=? prev)%nat) [sendCpuBuffer];
    mkRow SENDING_CPU_BUFFER SEND_FINISHED
      (fun op prev => so_doneSendingCpuBuffer op && so_isCpuBuffer op) [callSendCallback];
    mkRow SENDING_CPU_BUFFER SEND_FINISHED
      (fun op prev => so_doneSendingCpuBuffer op && negb (so_isCpuBuffer op)) [returnSendCpuBuffer]
  ].

Definition readReadyToSend : @local_action ChunkRecvOperation call := fun op =>
  Done (op, [ConnRead (connection_ links) 0 0 (CbReadyToSendRead (ro_sequenceNumber op))]).

Definition allocateRecvCpuBuffer : @local_action ChunkRecvOperation call := fun op =>
  Done (op, [StagingAlloc false (ro_deviceIdx op) (ro_length op) (CbRecvAllocated (ro_sequenceNumber op))]).

Definition receiveCpuBuffer : @local_action ChunkRecvOperation call := fun op =>
  ptr ← if ro_isCpuBuffer op then Done (ro_devicePtr op) else get_staging (ro_tmpBuffer op);
  Done (op, [CpuChannelRecv ptr (ro_length op) (CbCpuReceived (ro_sequenceNumber op))]).

Definition copyFromCpuToGpu : @local_action ChunkRecvOperation call := fun op =>
  tmp ← get_staging (ro_tmpBuffer op);
  Done (op, cudaCopy (ro_devicePtr op) tmp (ro_length op) (ro_deviceIdx op) (ro_stream op) (CbCopiedToGpu (ro_sequenceNumber op))).

Definition callRecvCallback : @local_action ChunkRecvOperation call := fun op =>
  match ro_callback op with
  | Some f => Done (op <| ro_callback := None |>, [UserRecv f error_])
  | None => Done (op, [])
  end.

Definition returnRecvCpuBuffer : @local_action ChunkRecvOperation call := fun op =>
  Done (op <| ro_tmpBuffer := None |>, StagingFree <$> option_list (ro_tmpBuffer op)).

Definition advanceChunkRecvOperation : list (@row ChunkRecvOperation call) := [
    mkRow UNINITIALIZED RECV_FINISHED
      (fun op prev => is_error error_ && (COPYING_FROM_CPU_TO_GPU_AND_INVOKED_CALLBACK <=? prev)%nat) [callRecvCallback];
    mkRow UNINITIALIZED READING_READY_TO_SEND
      (fun op prev => negb (is_error error_) && (READING_READY_TO_SEND <=? prev)%nat) [readReadyToSend];
    mkRow READING_READY_TO_SEND RECV_FINISHED
      (fun op prev => is_error error_ && ro_doneReadingReadyToSend op &&
         (COPYING_FROM_CPU_TO_GPU_AND_INVOKED_CALLBACK <=? prev)%nat) [callRecvCallback];
    mkRow READING_READY_TO_SEND RECEIVING_CPU_BUFFER
      (fun op prev => negb (is_error error_) && ro_doneReadingReadyToSend op && ro_isCpuBuffer op &&
         (RECEIVING_CPU_BUFFER <=? prev)%nat) [receiveCpuBuffer];
    mkRow READING_READY_TO_SEND RECV_ALLOCATING_CPU_BUFFER
      (fun op prev => negb (is_error error_) && ro_doneReadingReadyToSend op && negb (ro_isCpuBuffer op) &&
         (RECV_ALLOCATING_CPU_BUFFER <=? prev)%nat) [allocateRecvCpuBuffer];
    mkRow RECV_ALLOCATING_CPU_BUFFER RECV_FINISHED
      (fun op prev => is_error error_ && ro_doneAllocatingCpuStagingBuffer op &&
         (COPYING_FROM_CPU_TO_GPU_AND_INVOKED_CALLBACK <=? prev)%nat) [callRecvCallback; returnRecvCpuBuffer];
    mkRow RECV_ALLOCATING_CPU_BUFFER RECEIVING_CPU_BUFFER
      (fun op prev => negb (is_error error_) && ro_doneAllocatingCpuStagingBuffer op && (RECEIVING_CPU_BUFFER <=? prev)%nat)
      [receiveCpuBuffer];
    mkRow RECEIVING_CPU_BUFFER RECV_FINISHED
      (fun op prev => is_error error_ && ro_doneReceivingCpuBuffer op && negb (ro_isCpuBuffer op) &&
         (COPYING_FROM_CPU_TO_GPU_AND_INVOKED_CALLBACK <=? prev)%nat) [callRecvCallback; returnRecvCpuBuffer];
    mkRow RECEIVING_CPU_BUFFER RECV_FINISHED
      (fun op prev => ro_doneReceivingCpuBuffer op && ro_isCpuBuffer op) [callRecvCallback];
    mkRow RECEIVING_CPU_BUFFER COPYING_FROM_CPU_TO_GPU
      (fun op prev => negb (is_error error_) && ro_doneReceivingCpuBuffer op && negb (ro_isCpuBuffer op)) [copyFromCpuToGpu];
    mkRow COPYING_FROM_CPU_TO_GPU COPYING_FROM_CPU_TO_GPU_AND_INVOKED_CALLBACK
      (fun op prev => (COPYING_FROM_CPU_TO_GPU_AND_INVOKED_CALLBACK <=? prev)%nat) [callRecvCallback];
    mkRow COPYING_FROM_CPU_TO_GPU_AND_INVOKED_CALLBACK RECV_FINISHED
      (fun op prev => ro_doneCopyingFromCpuToGpu op) [returnRecvCpuBuffer]
  ].
End Transitions.

(** ** The channel *)

Definition sends (error_ : Error) (c : ChannelImpl) : list (@transition ChannelImpl ChunkSendOperation call) :=
  table (advanceChunkSendOperation error_ (links_ c)).
Definition recvs (error_ : Error) (c : ChannelImpl) : list (@transition ChannelImpl ChunkRecvOperation call) :=
  table (advanceChunkRecvOperation error_ (links_ c)).

Definition initImplFromLoop (d : Z) (c : ChannelImpl) : outcome (ChannelImpl * list call) := Done (c, [CtxEnroll]).

(** Where a buffer lives: whether on the CPU, its stream and its device. *)
Definition unwrap (b : Buffers) (buffer : Z) : outcome (bool * Z * Z) :=
  match buffer_device b buffer with
  | CpuDevice => Done (true, 0, 0)
  | CudaDevice index => Done (false, buffer_stream b buffer, index)
  | OtherDevice => Throw ExAssert
  end.

(** The loop over the chunks; [fuel] is a bound on its rounds. *)
Fixpoint send_chunks (fuel : nat) (error_ : Error) (sequenceNumber buffer length numChunks offset : Z) (f : option callback)
    (c : ChannelImpl) : outcome (ChannelImpl * list call) :=
  if negb (offset <? length) then Done (c, [])
  else match fuel with
  | O => Throw ExAssert
  | S fuel =>
      let b := buffers_ (links_ c) in
      let n := nextChunkBeingSent_ c in
      let c := c <| nextChunkBeingSent_ := u64 (n + 1) |> in
      let chunkId := offset / kSlotSize in
      let last := chunkId =? u64 (numChunks - 1) in
      '(isCpu, stream, deviceIdx) ← unwrap b buffer;
      let op := mkChunkSendOperation n UNINITIALIZED sequenceNumber isCpu (buffer_ptr b buffer + offset) chunkId numChunks
                  (Z.min (length - offset) kSlotSize) (if last then f else None) stream deviceIdx None false false false in
      '(c, calls1) ← advanceOperation (sends error_ c) n (emplaceBack op c);
      '(c, calls2) ← send_chunks fuel error_ sequenceNumber buffer length numChunks (u64 (offset + kSlotSize)) (if last then None else f) c;
      Done (c, calls1 ++ calls2)
  end.

Definition sendImplFromLoop (error_ : Error) (sequenceNumber buffer length : Z) (f : callback) (c : ChannelImpl)
    : outcome (ChannelImpl * list call) :=
  if length =? 0 then Done (c, [UserSend f error_])
  else
    let numChunks := ceilOfRatio length kSlotSize in
    send_chunks (Z.to_nat numChunks) error_ sequenceNumber buffer length numChunks 0 (Some f) c.

Fixpoint recv_chunks (fuel : nat) (error_ : Error) (sequenceNumber buffer length numChunks offset : Z) (f : option callback)
    (c : ChannelImpl) : outcome (ChannelImpl * list call) :=
  if negb (offset <? length) then Done (c, [])
  else match fuel with
  | O => Throw ExAssert
  | S fuel =>
      let b := buffers_ (links_ c) in
      let n := nextChunkBeingReceived_ c in
      let c := c <| nextChunkBeingReceived_ := u64 (n + 1) |> in
      let chunkId := offset / kSlotSize in
      let last := chunkId =? u64 (numChunks - 1) in
      '(isCpu, stream, deviceIdx) ← unwrap b buffer;
      let op := mkChunkRecvOperation n UNINITIALIZED sequenceNumber isCpu (buffer_ptr b buffer + offset) chunkId numChunks
                  (Z.min (length - offset) kSlotSize) (if last then f else None) stream deviceIdx None false false false false in
      '(c, calls1) ← advanceOperation (recvs error_ c) n (emplaceBack op c);
      '(c, calls2) ← recv_chunks fuel error_ sequenceNumber buffer length numChunks (u64 (offset + kSlotSize)) (if last then None else f) c;
      Done (c, calls1 ++ calls2)
  end.

Definition recvImplFromLoop (error_ : Error) (sequenceNumber buffer length : Z) (f : callback) (c : ChannelImpl)
    : outcome (ChannelImpl * list call) :=
  if length =? 0 then Done (c, [UserRecv f error_])
  else
    let numChunks := ceilOfRatio length kSlotSize in
    recv_chunks (Z.to_nat numChunks) error_ sequenceNumber buffer length numChunks 0 (Some f) c.

(** The callbacks; [d] is the buffer that an allocator gives, which goes back when the
    callback returns if the channel has an error. *)
Definition on_send (error_ : Error) (it : Z) (f : ChunkSendOperation -> ChunkSendOperation) (c : ChannelImpl) :=
  c1 ← update_op it f c; advanceOperation (sends error_ c) it c1.
Definition on_recv (error_ : Error) (it : Z) (f : ChunkRecvOperation -> ChunkRecvOperation) (c : ChannelImpl) :=
  c1 ← update_op it f c; advanceOperation (recvs error_ c) it c1.

Definition drop_buffer (error_ : Error) (d : Z) : list call := if is_error error_ then [StagingFree d] else [].

Definition callback_body (error_ : Error) (k : cb) (d : Z) (c : ChannelImpl) : outcome (ChannelImpl * list call) :=
  match k with
  | CbReadyToSendWritten _ _ _ => Done (c, [])
  | CbSendAllocated it =>
      '(c, calls) ← on_send error_ it (fun op =>
        let op := op <| so_doneAllocatingCpuStagingBuffer := true |> in
        if is_error error_ then op else op <| so_tmpBuffer := Some d |>) c;
      Done (c, calls ++ drop_buffer error_ d)
  | CbCopiedToCpu it => on_send error_ it (fun op => op <| so_doneCopyingFromGpuToCpu := true |>) c
  | CbCpuSent it => on_send error_ it (fun op => op <| so_doneSendingCpuBuffer := true |>) c
  | CbReadyToSendRead it => on_recv error_ it (fun op => op <| ro_doneReadingReadyToSend := true |>) c
  | CbRecvAllocated it =>
      '(c, calls) ← on_recv error_ it (fun op =>
        let op := op <| ro_doneAllocatingCpuStagingBuffer := true |> in
        if is_error error_ then op else op <| ro_tmpBuffer := Some d |>) c;
      Done (c, calls ++ drop_buffer error_ d)
  | CbCpuReceived it => on_recv error_ it (fun op => op <| ro_doneReceivingCpuBuffer := true |>) c
  | CbCopiedToGpu it => on_recv error_ it (fun op => op <| ro_doneCopyingFromCpuToGpu := true |>) c
  end.

Definition handleErrorImpl (error_ : Error) (c : ChannelImpl) : outcome (ChannelImpl * list call) :=
  '(c1, calls1) ← advanceAllOperations (sends error_ c) c;
  '(c2, calls2) ← advanceAllOperations (recvs error_ c) c1;
  Done (c2, calls1 ++ calls2 ++ [ConnClose (connection_ (links_ c)); CpuChannelClose; CtxUnenroll]).

#[export] Instance cuda_basic_channel : ChannelBase.ChannelImpl ChannelImpl Empty_set cb Z := {
  initImplFromLoop := initImplFromLoop;
  sendImplFromLoop := sendImplFromLoop;
  recvImplFromLoop := recvImplFromLoop;
  handleErrorImpl := handleErrorImpl;
  callback_body := callback_body;
}.

(** ** Single operations *)

Record send_good (e : Error) (o : ChunkSendOperation) : Prop := {
  sg_state : (so_state o <= SEND_FINISHED)%nat;
  sg_cpu : so_isCpuBuffer o = true -> so_state o = UNINITIALIZED \/ (SENDING_CPU_BUFFER <= so_state o)%nat;
  sg_callback : is_Some (so_callback o) -> (so_state o < if so_isCpuBuffer o then SEND_FINISHED else INVOKED_CALLBACK)%nat;
  sg_staging : so_isCpuBuffer o = false -> (COPYING_FROM_GPU_TO_CPU <= so_state o < SEND_FINISHED)%nat -> is_Some (so_tmpBuffer o);
  sg_allocated : so_doneAllocatingCpuStagingBuffer o = true ->
    (ALLOCATING_CPU_BUFFER <= so_state o)%nat /\ (so_state o = ALLOCATING_CPU_BUFFER -> is_error e = false -> is_Some (so_tmpBuffer o));
  sg_copied : so_doneCopyingFromGpuToCpu o = true -> (COPYING_FROM_GPU_TO_CPU <= so_state o)%nat;
  sg_sent : so_doneSendingCpuBuffer o = true -> (SENDING_CPU_BUFFER <= so_state o)%nat;
}.
Definition send_owed (o : ChunkSendOperation) : list callback := option_list (so_callback o).
Definition send_pend (o : ChunkSendOperation) : list cb :=
  match so_state o with
  | 1%nat => if so_doneAllocatingCpuStagingBuffer o then [] else [CbSendAllocated (so_sequenceNumber o)]
  | 2%nat => if so_doneCopyingFromGpuToCpu o then [] else [CbCopiedToCpu (so_sequenceNumber o)]
  | 4%nat => if so_doneSendingCpuBuffer o then [] else [CbCpuSent (so_sequenceNumber o)]
  | _ => []
  end.
Definition send_unstarted (o : ChunkSendOperation) : list piece :=
  if (so_state o <? SENDING_CPU_BUFFER)%nat then [mkPiece 0 0 (so_length o) 0] else [].
(** A chunk is sent when it is given to the CPU channel. *)
Definition send_start (c : call) : option piece :=
  match c with CpuChannelSend _ len _ => Some (mkPiece 0 0 len 0) | _ => None end.

Record recv_good (e : Error) (o : ChunkRecvOperation) : Prop := {
  rg_state : (ro_state o <= RECV_FINISHED)%nat;
  rg_cpu : ro_isCpuBuffer o = true ->
    ro_state o <> RECV_ALLOCATING_CPU_BUFFER /\ ~ (RECEIVING_CPU_BUFFER < ro_state o < RECV_FINISHED)%nat;
  rg_callback : is_Some (ro_callback o) -> (ro_state o < COPYING_FROM_CPU_TO_GPU_AND_INVOKED_CALLBACK)%nat;
  rg_staging : ro_isCpuBuffer o = false -> (RECEIVING_CPU_BUFFER <= ro_state o < RECV_FINISHED)%nat -> is_Some (ro_tmpBuffer o);
  rg_read : ro_doneReadingReadyToSend o = true -> (READING_READY_TO_SEND <= ro_state o)%nat;
  rg_allocated : ro_doneAllocatingCpuStagingBuffer o = true ->
    (RECV_ALLOCATING_CPU_BUFFER <= ro_state o)%nat /\ (ro_state o = RECV_ALLOCATING_CPU_BUFFER -> is_error e = false -> is_Some (ro_tmpBuffer o));
  rg_received : ro_doneReceivingCpuBuffer o = true -> (RECEIVING_CPU_BUFFER <= ro_state o)%nat;
  rg_copied : ro_doneCopyingFromCpuToGpu o = true -> (COPYING_FROM_CPU_TO_GPU <= ro_state o)%nat;
}.
Definition recv_owed (o : ChunkRecvOperation) : list callback := option_list (ro_callback o).
Definition recv_pend (o : ChunkRecvOperation) : list cb :=
  match ro_state o with
  | 1%nat => if ro_doneReadingReadyToSend o then [] else [CbReadyToSendRead (ro_sequenceNumber o)]
  | 2%nat => if ro_doneAllocatingCpuStagingBuffer o then [] else [CbRecvAllocated (ro_sequenceNumber o)]
  | 3%nat => if ro_doneReceivingCpuBuffer o then [] else [CbCpuReceived (ro_sequenceNumber o)]
  | 4%nat | 5%nat => if ro_doneCopyingFromCpuToGpu o then [] else [CbCopiedToGpu (ro_sequenceNumber o)]
  | _ => []
  end.
Definition recv_unstarted (o : ChunkRecvOperation) : list piece :=
  if (ro_state o <? RECEIVING_CPU_BUFFER)%nat then [mkPiece 0 0 (ro_length o) 0] else [].
Definition recv_start (c : call) : option piece :=
  match c with CpuChannelRecv _ len _ => Some (mkPiece 0 0 len 0) | _ => None end.

(** To the two queues, each chunk is a request. *)
Definition one_chunk (n : Z) (a : Z * Z) : list piece := [mkPiece 0 0 a.2 0].
Definition flows (e : Error) (l : Links) : flow := if is_error e then Stopped else Chained.

Definition sends_side : side ChunkSendOperation Links Empty_set cb cb :=
  mkSide advanceChunkSendOperation (fun e _ _ => send_good e) send_owed send_pend (fun _ => send_unstarted) send_start
    (fun _ => one_chunk) flows SENDING_CPU_BUFFER (fun _ _ _ => True).
Definition recvs_side : side ChunkRecvOperation Links Empty_set cb cb :=
  mkSide advanceChunkRecvOperation (fun e _ _ => recv_good e) recv_owed recv_pend (fun _ => recv_unstarted) recv_start
    (fun _ => one_chunk) flows RECEIVING_CPU_BUFFER (fun _ _ _ => True).

#[export] Instance bcuda_sides : TwoSides ChannelImpl ChunkSendOperation ChunkRecvOperation Links.
Proof. by refine {| frame := links_ |}. Defined.
