(* ===== verification/CudaBasicSteps.v ===== *)
(** * Single chunks of the channel of [CudaBasicChannel]

    What one step of a chunk that is sent or received does: each of its states,
    with and without an error. *)

From S2P Require Import Prelude Messages OpsStateMachine LocalOps ChannelBase ChannelSides CudaBasicChannel.

#[local] Arguments SEND_FINISHED /.
#[local] Arguments RECV_FINISHED /.
#[local] Arguments UNINITIALIZED /.
#[local] Arguments ALLOCATING_CPU_BUFFER /.
#[local] Arguments COPYING_FROM_GPU_TO_CPU /.
#[local] Arguments INVOKED_CALLBACK /.
#[local] Arguments SENDING_CPU_BUFFER /.
#[local] Arguments READING_READY_TO_SEND /.
#[local] Arguments RECV_ALLOCATING_CPU_BUFFER /.
#[local] Arguments RECEIVING_CPU_BUFFER /.
#[local] Arguments COPYING_FROM_CPU_TO_GPU /.
#[local] Arguments COPYING_FROM_CPU_TO_GPU_AND_INVOKED_CALLBACK /.

Ltac chunk_good := split; simpl; intros; try done; try lia; try (split; intros; try done; try lia); try congruence; try (by eauto); try (by right; lia); try (by left).

Lemma bcuda_send_step e links p o :
  send_good e o -> exists o' evs, step_op (advanceChunkSendOperation e links) p o = Done (o', evs) /\
    step_post (advanceChunkSendOperation e links) (send_good e) send_owed send_pend (unstarted_if e send_unstarted)
      user_send (awaited_of key) send_start (flows e links) SENDING_CPU_BUFFER (sends_only recvs_side (fun _ => True)) p o o' evs.
Proof.
  destruct o as [n s bs cpu dptr cid nch len f st dev tmp da dc ds]. intros [G1 G2 G3 G4 G5 G6 G7]. simpl in *.
  destruct s as [|[|[|[|[|[|s]]]]]]; [..|lia].
  - assert (da = false /\ dc = false /\ ds = false) as (-> & -> & ->).
    { split_and!; [destruct da | destruct dc | destruct ds]; try done; exfalso; [destruct (G5 eq_refl) | specialize (G6 eq_refl) | specialize (G7 eq_refl)]; lia. }
    unfold send_unstarted, sends_only, step_op, attempt_local, send_owed, send_pend, unstarted_if, flows; simpl.
    destruct (is_error e) eqn:He, cpu, f as [f|], p as [|[|[|[|p]]]]; simpl.
    all: local_step chunk_good.
  - assert (cpu = false /\ dc = false /\ ds = false) as (-> & -> & ->).
    { split_and!; [destruct cpu | destruct dc | destruct ds]; try done; exfalso; [destruct (G2 eq_refl) | specialize (G6 eq_refl) | specialize (G7 eq_refl)]; lia. }
    unfold send_unstarted, sends_only, step_op, attempt_local, send_owed, send_pend, unstarted_if, flows; simpl.
    destruct (is_error e) eqn:He, da, f as [f|], tmp as [tmp|], p as [|[|[|[|p]]]]; simpl; try (by destruct (proj2 (G5 eq_refl) eq_refl eq_refl)).
    all: local_step chunk_good.
  - assert (cpu = false /\ ds = false) as (-> & ->).
    { split_and!; [destruct cpu | destruct ds]; try done; exfalso; [destruct (G2 eq_refl) | specialize (G7 eq_refl)]; lia. }
    destruct (G4 eq_refl) as [t ->]; [lia|].
    unfold send_unstarted, sends_only, step_op, attempt_local, send_owed, send_pend, unstarted_if, flows; simpl.
    destruct (is_error e) eqn:He, dc, f as [f|], p as [|[|[|[|p]]]]; simpl.
    all: local_step chunk_good.
  - assert (cpu = false /\ ds = false) as (-> & ->).
    { split_and!; [destruct cpu | destruct ds]; try done; exfalso; [destruct (G2 eq_refl) | specialize (G7 eq_refl)]; lia. }
    destruct (G4 eq_refl) as [t ->]; [lia|]. destruct f as [f|]; [specialize (G3 ltac:(by eexists)); simpl in G3; lia|].
    unfold send_unstarted, sends_only, step_op, attempt_local, send_owed, send_pend, unstarted_if, flows; simpl.
    destruct (is_error e) eqn:He, p as [|[|[|[|p]]]]; simpl.
    all: local_step chunk_good.
  - unfold send_unstarted, sends_only, step_op, attempt_local, send_owed, send_pend, unstarted_if, flows; simpl.
    destruct (is_error e) eqn:He, ds, cpu, f as [f|], tmp as [tmp|]; simpl; try (specialize (G3 ltac:(by eexists)); simpl in G3; lia);
      try (by destruct (G4 eq_refl ltac:(lia))).
    all: local_step chunk_good.
  - unfold send_unstarted, sends_only, step_op, attempt_local, send_owed, send_pend, unstarted_if, flows; simpl.
    destruct f as [f|]; [specialize (G3 ltac:(by eexists)); simpl in G3; destruct cpu; lia|].
    destruct (is_error e) eqn:He; local_step chunk_good.
Qed.

Lemma bcuda_recv_step e links p o :
  recv_good e o -> exists o' evs, step_op (advanceChunkRecvOperation e links) p o = Done (o', evs) /\
    step_post (advanceChunkRecvOperation e links) (recv_good e) recv_owed recv_pend (unstarted_if e recv_unstarted)
      user_recv (awaited_of key) recv_start (flows e links) RECEIVING_CPU_BUFFER (recvs_only sends_side (fun _ => True)) p o o' evs.
Proof.
  destruct o as [n s bs cpu dptr cid nch len f st dev tmp dr da dv dc]. intros [G1 G2 G3 G4 G5 G6 G7 G8]. simpl in *.
  assert (dr = true -> (1 <= s)%nat) as K5 by done. clear G5.
  destruct s as [|[|[|[|[|[|[|s]]]]]]]; [..|lia].
  - assert (dr = false /\ da = false /\ dv = false /\ dc = false) as (-> & -> & -> & ->).
    { split_and!; [destruct dr | destruct da | destruct dv | destruct dc]; try done; exfalso;
        [specialize (K5 eq_refl) | destruct (G6 eq_refl) | specialize (G7 eq_refl) | specialize (G8 eq_refl)]; lia. }
    unfold recv_unstarted, recvs_only, step_op, attempt_local, recv_owed, recv_pend, unstarted_if, flows; simpl.
    destruct (is_error e) eqn:He, cpu, f as [f|], p as [|[|[|[|[|p]]]]]; simpl.
    all: local_step chunk_good.
  - assert (da = false /\ dv = false /\ dc = false) as (-> & -> & ->).
    { split_and!; [destruct da | destruct dv | destruct dc]; try done; exfalso;
        [destruct (G6 eq_refl) | specialize (G7 eq_refl) | specialize (G8 eq_refl)]; lia. }
    unfold recv_unstarted, recvs_only, step_op, attempt_local, recv_owed, recv_pend, unstarted_if, flows; simpl.
    destruct (is_error e) eqn:He, dr, cpu, f as [f|], p as [|[|[|[|[|p]]]]]; simpl.
    all: local_step chunk_good.
  - assert (cpu = false /\ dv = false /\ dc = false) as (-> & -> & ->).
    { split_and!; [destruct cpu | destruct dv | destruct dc]; try done; exfalso;
        [destruct (G2 eq_refl) | specialize (G7 eq_refl) | specialize (G8 eq_refl)]; lia. }
    unfold recv_unstarted, recvs_only, step_op, attempt_local, recv_owed, recv_pend, unstarted_if, flows; simpl.
    destruct (is_error e) eqn:He, da, f as [f|], tmp as [tmp|], p as [|[|[|[|[|p]]]]]; simpl;
      try (by destruct (proj2 (G6 eq_refl) eq_refl eq_refl)).
    all: local_step chunk_good.
  - assert (dc = false) as ->. { destruct dc; [specialize (G8 eq_refl); lia | done]. }
    unfold recv_unstarted, recvs_only, step_op, attempt_local, recv_owed, recv_pend, unstarted_if, flows; simpl.
    destruct cpu; [|destruct (G4 eq_refl) as [t ->]; [lia|]].
    + destruct (is_error e) eqn:He, dv, f as [f|]; simpl. all: local_step chunk_good.
    + destruct (is_error e) eqn:He, dv, f as [f|], p as [|[|[|[|[|p]]]]]; simpl. all: local_step chunk_good.
  - assert (cpu = false) as ->. { destruct cpu; [destruct (G2 eq_refl); lia | done]. }
    destruct (G4 eq_refl) as [t ->]; [lia|].
    unfold recv_unstarted, recvs_only, step_op, attempt_local, recv_owed, recv_pend, unstarted_if, flows; simpl.
    destruct (is_error e) eqn:He, dc, f as [f|], p as [|[|[|[|[|p]]]]]; simpl.
    all: local_step chunk_good.
  - assert (cpu = false) as ->. { destruct cpu; [destruct (G2 eq_refl); lia | done]. }
    destruct (G4 eq_refl) as [t ->]; [lia|]. destruct f as [f|]; [specialize (G3 ltac:(by eexists)); lia|].
    unfold recv_unstarted, recvs_only, step_op, attempt_local, recv_owed, recv_pend, unstarted_if, flows; simpl.
    destruct (is_error e) eqn:He, dc; simpl.
    all: local_step chunk_good.
  - unfold recv_unstarted, recvs_only, step_op, attempt_local, recv_owed, recv_pend, unstarted_if, flows; simpl.
    destruct f as [f|]; [specialize (G3 ltac:(by eexists)); lia|].
    destruct (is_error e) eqn:He; local_step chunk_good.
Qed.
