(* ===== verification/CudaBasicSafe.v ===== *)
(** * The promises of the channel of [CudaBasicChannel]

    Its chunks are the operations of two queues ([ChannelSides]); a tensor is
    several of them, of which the last one has the callback of the user. *)

From S2P Require Import Prelude Messages OpsStateMachine LocalOps ChannelBase ChannelSides CudaBasicChannel.
From S2P Require Import CudaBasicSteps.

#[local] Arguments SEND_FINISHED /.
#[local] Arguments RECV_FINISHED /.
#[local] Arguments UNINITIALIZED /.
#[local] Arguments ALLOCATING_CPU_BUFFER /.
#[local] Arguments COPYING_FROM_GPU_TO_CPU /.
#[local] Arguments INVOKED_CALLBACK /.
#[local] Arguments SENDING_CPU_BUFFER /.
#[local] Arguments READING_READY_TO_SEND /.
#[local] Arguments RECV_ALLOCATING_CPU_BUFFER /.
#[local] Arguments RECEIVING_CPU_BUFFER /.
#[local] Arguments COPYING_FROM_CPU_TO_GPU /.
#[local] Arguments COPYING_FROM_CPU_TO_GPU_AND_INVOKED_CALLBACK /.

Lemma flows_not_flowing e l : flows e l <> Flowing.
Proof. unfold flows. by destruct (is_error e). Qed.

Lemma bcuda_send_local_ok : sends_local sends_side recvs_side key (fun _ => True) (fun _ => True).
Proof.
  intros e links ns _. unfold sends_side. simpl. split.
  - repeat constructor; intros o o' evs Ho;
      unfold callSendCallback, copyFromGpuToCpu, sendCpuBuffer, allocateSendCpuBuffer, writeReadyToSend, returnSendCpuBuffer in Ho;
      repeat (first [apply done_inj in Ho as [= <- _]; done | inv_bind Ho | destruct (so_callback o)]).
  - intros p o. apply bcuda_send_step.
  - intros [n s bs cpu dptr cid nch len f st dev tmp da dc ds] [G1 G2 G3 G4 G5 G6 G7] Ho. simpl in *. subst s.
    destruct f as [f|]; [specialize (G3 ltac:(by eexists)); destruct cpu; lia|]. unfold unstarted_if. by destruct (is_error e).
  - simpl. repeat constructor.
  - intros Hf. by destruct (flows_not_flowing e links).
  - intros o _ Ho. unfold unstarted_if, send_unstarted. simpl in *. destruct (is_error e); [done|].
    by replace (so_state o <? 4)%nat with false by (symmetry; apply Nat.ltb_ge; lia).
  - simpl. lia.
  - done.
Qed.

Lemma bcuda_recv_local_ok : recvs_local sends_side recvs_side key (fun _ => True) (fun _ => True).
Proof.
  intros e links nr _. unfold recvs_side. simpl. split.
  - repeat constructor; intros o o' evs Ho;
      unfold callRecvCallback, copyFromCpuToGpu, receiveCpuBuffer, allocateRecvCpuBuffer, readReadyToSend, returnRecvCpuBuffer in Ho;
      repeat (first [apply done_inj in Ho as [= <- _]; done | inv_bind Ho | destruct (ro_callback o)]).
  - intros p o. apply bcuda_recv_step.
  - intros [n s bs cpu dptr cid nch len f st dev tmp dr da dv dc] [G1 G2 G3 G4 G5 G6 G7 G8] Ho. simpl in *. subst s.
    destruct f as [f|]; [specialize (G3 ltac:(by eexists)); lia|]. unfold unstarted_if. by destruct (is_error e).
  - simpl. repeat constructor.
  - intros Hf. by destruct (flows_not_flowing e links).
  - intros o _ Ho. unfold unstarted_if, recv_unstarted. simpl in *. destruct (is_error e); [done|].
    by replace (ro_state o <? 3)%nat with false by (symmetry; apply Nat.ltb_ge; lia).
  - simpl. lia.
  - done.
Qed.

Lemma bcuda_laws : sides_laws sends_side recvs_side key (fun _ => True) (fun _ => True) (fun _ _ _ _ => True).
Proof.
  split; try done.
  - apply bcuda_send_local_ok.
  - apply bcuda_recv_local_ok.
  - intros e l He. simpl. unfold flows. by rewrite He.
  - intros e l He. simpl. unfold flows. by rewrite He.
  - intros e0 e l ns o He [G1 G2 G3 G4 G5 G6 G7]. split; try done. intros Ha. destruct (G5 Ha). split; [done|]. intros _ Hx. congruence.
  - intros e0 e l ns o He [G1 G2 G3 G4 G5 G6 G7 G8]. split; try done. intros Ha. destruct (G6 Ha). split; [done|]. intros _ Hx. congruence.
Qed.

(** The first chunk waits for a callback, so an error does not let it finish. *)
Lemma bcuda_send_front_ok e links l :
  all_at_rest (advanceChunkSendOperation kSuccess links) True l -> front_ok (advanceChunkSendOperation e links) l.
Proof.
  destruct l as [|o l]; [done|]. intros Hr. left. specialize (Hr I 0%nat o eq_refl I).
  unfold op_at_rest, advanceChunkSendOperation in *. rewrite !Forall_cons in *. simpl in *.
  destruct o as [n s bs cpu dptr cid nch len f st dev tmp da dc ds]. simpl in *.
  destruct s as [|[|[|[|[|s]]]]]; destruct Hr as (H1 & H2 & H3 & H4 & H5 & H6 & H7 & H8 & H9 & H10 & H11 & _); simpl in *;
    destruct cpu, da, dc, ds; simpl in *; try done; rewrite ?andb_false_r; by split_and!; [..|constructor].
Qed.

Lemma bcuda_recv_front_ok e links l :
  all_at_rest (advanceChunkRecvOperation kSuccess links) True l -> front_ok (advanceChunkRecvOperation e links) l.
Proof.
  destruct l as [|o l]; [done|]. intros Hr. left. specialize (Hr I 0%nat o eq_refl I).
  unfold op_at_rest, advanceChunkRecvOperation in *. rewrite !Forall_cons in *. simpl in *.
  destruct o as [n s bs cpu dptr cid nch len f st dev tmp dr da dv dc]. simpl in *.
  destruct s as [|[|[|[|[|[|s]]]]]]; destruct Hr as (H1 & H2 & H3 & H4 & H5 & H6 & H7 & H8 & H9 & H10 & H11 & H12 & _); simpl in *;
    destruct cpu, dr, da, dv, dc; simpl in *; try done; rewrite ?andb_false_r; by split_and!; [..|constructor].
Qed.

Lemma bcuda_send_live : side_live sends_side.
Proof.
  intros e f reqs o [G1 _ _ _ _ _ _] Hs Hr Hf. simpl in *. unfold op_at_rest, advanceChunkSendOperation, send_pend in *.
  rewrite !Forall_cons in Hr. destruct Hr as (H1 & H2 & H3 & H4 & H5 & H6 & H7 & H8 & H9 & H10 & H11 & _). simpl in *.
  destruct (so_state o) as [|[|[|[|[|[|s]]]]]]; simpl in *; try lia; destruct (is_error e), (so_isCpuBuffer o); simpl in *; try done;
    try (by destruct (so_doneAllocatingCpuStagingBuffer o)); try (by destruct (so_doneCopyingFromGpuToCpu o));
    by destruct (so_doneSendingCpuBuffer o).
Qed.

Lemma bcuda_recv_live : side_live recvs_side.
Proof.
  intros e f reqs o [G1 _ _ _ _ _ _ _] Hs Hr Hf. simpl in *. unfold op_at_rest, advanceChunkRecvOperation, recv_pend in *.
  rewrite !Forall_cons in Hr. destruct Hr as (H1 & H2 & H3 & H4 & H5 & H6 & H7 & H8 & H9 & H10 & H11 & H12 & _). simpl in *.
  destruct (ro_state o) as [|[|[|[|[|[|[|s]]]]]]]; simpl in *; try lia; destruct (is_error e), (ro_isCpuBuffer o); simpl in *; try done;
    try (by destruct (ro_doneReadingReadyToSend o)); try (by destruct (ro_doneAllocatingCpuStagingBuffer o));
    try (by destruct (ro_doneReceivingCpuBuffer o)); by destruct (ro_doneCopyingFromCpuToGpu o).
Qed.
