(* ===== verification/CudaBasicTensors.v ===== *)
(** * Tensors of the channel of [CudaBasicChannel]

    A tensor is a sequence of chunks: this file shows that the loops that start
    them cover the tensor, and that the channel keeps the promises of
    [ChannelBase]. *)

From S2P Require Import Prelude Messages OpsStateMachine LocalOps ChannelBase ChannelSides CudaBasicChannel.
From S2P Require Import Chunks CudaBasicSteps CudaBasicSafe.

Abbreviation num_chunks := (Chunks.num_chunks kSlotSize).
Abbreviation chunk := (Chunks.chunk kSlotSize).
Abbreviation chunks := (Chunks.chunks kSlotSize).
Lemma bcuda_slot : 0 < kSlotSize < 2 ^ 32.
Proof. done. Qed.

(** What the channel is consistent with, in terms of chunks, and of tensors. *)
Definition chunks_inv (e : Error) (ns nr : list (Z * Z)) (cur : option cb) (out : list cb) (c : ChannelImpl) : Prop :=
  sides_inv sends_side recvs_side key (fun _ _ _ _ => True) e ns nr cur out c /\
  (is_error e = false -> nextChunkBeingSent_ c = Z.of_nat (length ns) /\ nextChunkBeingReceived_ c = Z.of_nat (length nr)).
Definition bcuda_inv (e : Error) (ns nr : list (Z * Z)) : option cb -> list cb -> ChannelImpl -> Prop :=
  chunks_inv e (ns ≫= chunks) (nr ≫= chunks).

Definition tensor_pieces (n : Z) (a : Z * Z) : list piece := (fun c => mkPiece 0 0 c.2 0) <$> chunks a.

Definition bcuda_view : chan_view ChannelImpl Empty_set cb := {|
  owed_sends c := chunkSendOps_ c ≫= send_owed;
  owed_recvs c := chunkRecvOps_ c ≫= recv_owed;
  start_send := send_start;
  start_recv := recv_start;
  send_starts _ := tensor_pieces;
  recv_starts _ := tensor_pieces;
  unstarted_sends c := chunkSendOps_ c ≫= send_unstarted;
  unstarted_recvs c := chunkRecvOps_ c ≫= recv_unstarted;
|}.

(** What the user may ask for: memory that the channel can handle, whose end is not
    at the end of the address space, and no more chunks than can be numbered. *)
Definition bcuda_asks (c : ChannelImpl) (l : list (Z * Z)) (buffer len : Z) : Prop :=
  0 <= len /\ len + kSlotSize <= 2 ^ 64 /\ buffer_device (buffers_ (links_ c)) buffer <> OtherDevice /\
  Z.of_nat (length ((l ++ [(buffer, len)]) ≫= chunks)) < 2 ^ 63.

(** ** The loops over the chunks *)

Lemma bcuda_ceil len : 0 <= len -> len + kSlotSize <= 2 ^ 64 -> ceilOfRatio len kSlotSize = Z.of_nat (num_chunks len).
Proof. apply (ceil_chunks kSlotSize bcuda_slot). Qed.

(** Starting a chunk, up to the counters, is adding an operation to a queue. *)
Lemma without_update_run {Op A} `{!Operation Op, !OpsMachine C Op, !OpsMachineLaws C Op} n (x : C) (m : C -> outcome A) r :
  (x1 ← update_op n (fun o => o) x; m x1) = Done r -> m x = Done r.
Proof. destruct (update_op n (fun o => o) x) as [x1|] eqn:Hu; [|done]. by rewrite (update_op_same n x x1 Hu). Qed.

(** The round of the loop of chunk [i], for an operation [op] with its data. *)
Lemma send_chunk ns nr out n op a c :
  chunks_inv kSuccess ns nr None out c -> n = nextChunkBeingSent_ c -> n + 1 < 2 ^ 63 ->
  send_good kSuccess op -> so_sequenceNumber op = n -> so_state op = UNINITIALIZED ->
  let c1 := c <| nextChunkBeingSent_ := u64 (n + 1) |> in
  exists c' evs, advanceOperation (sends kSuccess c1) n (emplaceBack op c1) = Done (c', evs) /\ links_ c' = links_ c /\
    chan_post bcuda_view chunks_inv kSuccess (ns ++ [a]) nr None out (send_owed op) [] [mkPiece 0 0 (so_length op) 0] [] c (c', evs).
Proof.
  intros [Hi Hn] -> Hb Hg Hs Hu c1. destruct (Hn eq_refl) as [Hn1 Hn2].
  assert (send_pend op = []) as Hp by (unfold send_pend; by rewrite Hu).
  assert (send_unstarted op = [mkPiece 0 0 (so_length op) 0]) as Hun by (unfold send_unstarted; by rewrite Hu).
  destruct (sides_send_run sends_side recvs_side key (fun _ => True) (fun _ => True) (fun _ _ _ _ => True) bcuda_laws
    kSuccess ns nr out (nextChunkBeingSent_ c) op (fun o => o) a c1 (sides_inv_same _ _ _ _ _ _ _ _ _ c c1 Hi eq_refl eq_refl eq_refl) eq_refl Hn1 Hb Hg Hs Hs) as (l & evs & Hrun & [Hpi Hps Hpr Hpu Hpst]).
  { change (so_state op < SENDING_CPU_BUFFER)%nat. rewrite Hu. by apply Nat.ltb_lt. }
  { exact Hp. }
  exists (put_ops l c1), evs. split; [by apply without_update_run in Hrun|]. split; [done|].
  split; [|exact Hps | exact Hpr | | done].
  - split; [exact Hpi|]. intros _. simpl. rewrite Hn1, u64_small, length_app by (unfold is_u64; lia). simpl. split; [lia|done].
  - intros He. rewrite <- Hun. exact (Hpu He).
Qed.

Lemma recv_chunk ns nr out n op a c :
  chunks_inv kSuccess ns nr None out c -> n = nextChunkBeingReceived_ c -> n + 1 < 2 ^ 63 ->
  recv_good kSuccess op -> ro_sequenceNumber op = n -> ro_state op = UNINITIALIZED ->
  let c1 := c <| nextChunkBeingReceived_ := u64 (n + 1) |> in
  exists c' evs, advanceOperation (recvs kSuccess c1) n (emplaceBack op c1) = Done (c', evs) /\ links_ c' = links_ c /\
    chan_post bcuda_view chunks_inv kSuccess ns (nr ++ [a]) None out [] (recv_owed op) [] [mkPiece 0 0 (ro_length op) 0] c (c', evs).
Proof.
  intros [Hi Hn] -> Hb Hg Hs Hu c1. destruct (Hn eq_refl) as [Hn1 Hn2].
  assert (recv_pend op = []) as Hp by (unfold recv_pend; by rewrite Hu).
  assert (recv_unstarted op = [mkPiece 0 0 (ro_length op) 0]) as Hun by (unfold recv_unstarted; by rewrite Hu).
  destruct (sides_recv_run sends_side recvs_side key (fun _ => True) (fun _ => True) (fun _ _ _ _ => True) bcuda_laws
    kSuccess ns nr out (nextChunkBeingReceived_ c) op (fun o => o) a c1 (sides_inv_same _ _ _ _ _ _ _ _ _ c c1 Hi eq_refl eq_refl eq_refl) eq_refl Hn2 Hb Hg Hs Hs) as (l & evs & Hrun & [Hpi Hps Hpr Hpu Hpst]).
  { change (ro_state op < RECEIVING_CPU_BUFFER)%nat. rewrite Hu. by apply Nat.ltb_lt. }
  { exact Hp. }
  exists (put_ops l c1), evs. split; [by apply without_update_run in Hrun|]. split; [done|].
  split; [|exact Hps | exact Hpr | | done].
  - split; [exact Hpi|]. intros _. simpl. rewrite Hn2, u64_small, length_app by (unfold is_u64; lia). simpl. split; [done|lia].
  - intros He. rewrite <- Hun. exact (Hpu He).
Qed.

Lemma unwrap_ok b buffer : buffer_device b buffer <> OtherDevice -> exists r, unwrap b buffer = Done r.
Proof. unfold unwrap. destruct (buffer_device b buffer); [by eexists..|done]. Qed.

Lemma send_chunks_ok s buffer len f links :
  0 <= len -> len + kSlotSize <= 2 ^ 64 -> buffer_device (buffers_ links) buffer <> OtherDevice ->
  forall k i ns nr out g c, num_chunks len = (i + k)%nat -> chunks_inv kSuccess ns nr None out c -> links_ c = links ->
  Z.of_nat (length ns) + Z.of_nat k < 2 ^ 63 -> (k <> O -> g = Some f) ->
  exists c' evs, send_chunks k kSuccess s buffer len (Z.of_nat (num_chunks len)) (Z.of_nat i * kSlotSize) g c = Done (c', evs) /\
    chan_post bcuda_view chunks_inv kSuccess (ns ++ (chunk len <$> seq i k)) nr None out (callbacks_left k f) []
      ((fun a => mkPiece 0 0 a.2 0) <$> (chunk len <$> seq i k)) [] c (c', evs).
Proof.
  intros Hl Hlb Hdev. induction k as [|k IH]; intros i ns nr out g c Hk Hi Hlinks Hb Hg.
  - exists c, []. split; [|rewrite app_nil_r; by apply chan_post_refl].
    simpl. destruct (Z.ltb_spec (Z.of_nat i * kSlotSize) len) as [Hlt|]; [|done]. apply (num_chunks_spec kSlotSize bcuda_slot) in Hlt; [lia|done].
  - rewrite Hg by done. destruct (last_chunk_offset kSlotSize bcuda_slot len i k Hk Hl Hlb) as (Hlast & Hlt & Hnext). cbn [send_chunks]. rewrite Hlt, Hlast. cbn [negb].
    cbn [links_ field_update]. destruct (unwrap_ok _ _ Hdev) as [[[isCpu stream] dev] Hun]. simpl links_. rewrite Hlinks, Hun, bind_done. cbv beta iota.
    set (op := mkChunkSendOperation _ _ _ _ _ _ _ _ _ _ _ _ _ _ _).
    assert (nextChunkBeingSent_ c = Z.of_nat (length ns)) as Hn by (by apply Hi).
    destruct (send_chunk ns nr out (nextChunkBeingSent_ c) op (chunk len i) c Hi eq_refl ltac:(lia)) as (c1 & evs1 & Hrun & Hl1 & Hp1); [|done..|].
    { split; simpl; [by apply Nat.leb_le | by left | by destruct isCpu; intros _; apply Nat.ltb_lt | | done..]. intros _ [? _]. by apply Nat.leb_le in H. }
    rewrite Hrun, bind_done. cbv beta iota. rewrite Hnext.
    destruct (IH (S i) (ns ++ [chunk len i]) nr (outstanding out evs1) (if (k =? 0)%nat then None else Some f) c1)
      as (c2 & evs2 & -> & Hp2); [lia | apply Hp1 | congruence | rewrite length_app; simpl; lia | by destruct k|].
    exists c2, (evs1 ++ evs2). split; [done|]. pose proof (chan_post_seq _ _ _ _ _ _ _ _ _ _ _ _ _ _ _ _ _ _ _ _ _ _ Hp1 Hp2) as Hp.
    rewrite <- app_assoc in Hp. simpl in Hp. by destruct k.
Qed.

Lemma recv_chunks_ok s buffer len f links :
  0 <= len -> len + kSlotSize <= 2 ^ 64 -> buffer_device (buffers_ links) buffer <> OtherDevice ->
  forall k i ns nr out g c, num_chunks len = (i + k)%nat -> chunks_inv kSuccess ns nr None out c -> links_ c = links ->
  Z.of_nat (length nr) + Z.of_nat k < 2 ^ 63 -> (k <> O -> g = Some f) ->
  exists c' evs, recv_chunks k kSuccess s buffer len (Z.of_nat (num_chunks len)) (Z.of_nat i * kSlotSize) g c = Done (c', evs) /\
    chan_post bcuda_view chunks_inv kSuccess ns (nr ++ (chunk len <$> seq i k)) None out [] (callbacks_left k f)
      [] ((fun a => mkPiece 0 0 a.2 0) <$> (chunk len <$> seq i k)) c (c', evs).
Proof.
  intros Hl Hlb Hdev. induction k as [|k IH]; intros i ns nr out g c Hk Hi Hlinks Hb Hg.
  - exists c, []. split; [|rewrite app_nil_r; by apply chan_post_refl].
    simpl. destruct (Z.ltb_spec (Z.of_nat i * kSlotSize) len) as [Hlt|]; [|done]. apply (num_chunks_spec kSlotSize bcuda_slot) in Hlt; [lia|done].
  - rewrite Hg by done. destruct (last_chunk_offset kSlotSize bcuda_slot len i k Hk Hl Hlb) as (Hlast & Hlt & Hnext). cbn [recv_chunks]. rewrite Hlt, Hlast. cbn [negb].
    cbn [links_ field_update]. destruct (unwrap_ok _ _ Hdev) as [[[isCpu stream] dev] Hun]. simpl links_. rewrite Hlinks, Hun, bind_done. cbv beta iota.
    set (op := mkChunkRecvOperation _ _ _ _ _ _ _ _ _ _ _ _ _ _ _ _).
    assert (nextChunkBeingReceived_ c = Z.of_nat (length nr)) as Hn by (by apply Hi).
    destruct (recv_chunk ns nr out (nextChunkBeingReceived_ c) op (chunk len i) c Hi eq_refl ltac:(lia)) as (c1 & evs1 & Hrun & Hl1 & Hp1); [|done..|].
    { split; simpl; [by apply Nat.leb_le | by intros _; split; [|intros [?%Nat.ltb_lt ?]] | by intros _; apply Nat.ltb_lt | | done..].
      intros _ [? _]. by apply Nat.leb_le in H. }
    rewrite Hrun, bind_done. cbv beta iota. rewrite Hnext.
    destruct (IH (S i) ns (nr ++ [chunk len i]) (outstanding out evs1) (if (k =? 0)%nat then None else Some f) c1)
      as (c2 & evs2 & -> & Hp2); [lia | apply Hp1 | congruence | rewrite length_app; simpl; lia | by destruct k|].
    exists c2, (evs1 ++ evs2). split; [done|]. pose proof (chan_post_seq _ _ _ _ _ _ _ _ _ _ _ _ _ _ _ _ _ _ _ _ _ _ Hp1 Hp2) as Hp.
    rewrite <- app_assoc in Hp. simpl in Hp. by destruct k.
Qed.

(** ** The promises *)

Lemma bcuda_send ns nr out buffer len f c :
  bcuda_inv kSuccess ns nr None out c -> bcuda_asks c ns buffer len ->
  wp (sendImplFromLoop kSuccess (Z.of_nat (length ns)) buffer len f c) (fun _ => False)
    (chan_post bcuda_view bcuda_inv kSuccess (ns ++ [(buffer, len)]) nr None out [f] []
       (tensor_pieces (Z.of_nat (length ns)) (buffer, len)) [] c).
Proof.
  intros Hi (Hl & Hlb & Hdev & Hn). unfold sendImplFromLoop. destruct (Z.eqb_spec len 0) as [->|Hnz].
  - change (tensor_pieces _ _) with (@nil piece). unfold wp. split; cbn [fst snd]; [|done|done| |done].
    + unfold bcuda_inv. rewrite outstanding_nil, bind_app by done. change ([(buffer, 0)] ≫= chunks) with (@nil (Z * Z)). by rewrite app_nil_r.
    + intros _. by rewrite !app_nil_r.
  - rewrite bcuda_ceil, Nat2Z.id by done. rewrite bind_app, length_app in Hn. simpl in Hn. rewrite app_nil_r in Hn.
    unfold Chunks.chunks at 2 in Hn. simpl in Hn. rewrite length_fmap, length_seq in Hn.
    destruct (send_chunks_ok (Z.of_nat (length ns)) buffer len f (links_ c) Hl Hlb Hdev (num_chunks len) 0 (ns ≫= chunks) (nr ≫= chunks) out (Some f) c)
      as (c' & evs & Hrun & [Hi' HS HR Hu Hst]); [done..|lia|done|]. change (Z.of_nat 0 * kSlotSize) with 0 in Hrun. rewrite Hrun.
    assert (0 < num_chunks len)%nat as Hpos by (apply (num_chunks_spec kSlotSize bcuda_slot); lia).
    split; [|by destruct (num_chunks len); [lia|] | done..].
    unfold bcuda_inv. rewrite bind_app. simpl. rewrite app_nil_r. exact Hi'.
Qed.

Lemma bcuda_recv ns nr out buffer len f c :
  bcuda_inv kSuccess ns nr None out c -> bcuda_asks c nr buffer len ->
  wp (recvImplFromLoop kSuccess (Z.of_nat (length nr)) buffer len f c) (fun _ => False)
    (chan_post bcuda_view bcuda_inv kSuccess ns (nr ++ [(buffer, len)]) None out [] [f] []
       (tensor_pieces (Z.of_nat (length nr)) (buffer, len)) c).
Proof.
  intros Hi (Hl & Hlb & Hdev & Hn). unfold recvImplFromLoop. destruct (Z.eqb_spec len 0) as [->|Hnz].
  - change (tensor_pieces _ _) with (@nil piece). unfold wp. split; cbn [fst snd]; [|done|done| |done].
    + unfold bcuda_inv. rewrite outstanding_nil, bind_app by done. change ([(buffer, 0)] ≫= chunks) with (@nil (Z * Z)). by rewrite app_nil_r.
    + intros _. by rewrite !app_nil_r.
  - rewrite bcuda_ceil, Nat2Z.id by done. rewrite bind_app, length_app in Hn. simpl in Hn. rewrite app_nil_r in Hn.
    unfold Chunks.chunks at 2 in Hn. simpl in Hn. rewrite length_fmap, length_seq in Hn.
    destruct (recv_chunks_ok (Z.of_nat (length nr)) buffer len f (links_ c) Hl Hlb Hdev (num_chunks len) 0 (ns ≫= chunks) (nr ≫= chunks) out (Some f) c)
      as (c' & evs & Hrun & [Hi' HS HR Hu Hst]); [done..|lia|done|]. change (Z.of_nat 0 * kSlotSize) with 0 in Hrun. rewrite Hrun.
    assert (0 < num_chunks len)%nat as Hpos by (apply (num_chunks_spec kSlotSize bcuda_slot); lia).
    split; [|done|by destruct (num_chunks len); [lia|] | done..].
    unfold bcuda_inv. rewrite (bind_app chunks nr). simpl. rewrite app_nil_r. exact Hi'.
Qed.

(** After an error, chunks are not queued. *)
Lemma sides_skip_many e NS NR l out c :
  is_error e = true -> sides_inv sends_side recvs_side key (fun _ _ _ _ => True) e NS NR None out c ->
  sides_inv sends_side recvs_side key (fun _ _ _ _ => True) e (NS ++ l) NR None out c /\
  sides_inv sends_side recvs_side key (fun _ _ _ _ => True) e NS (NR ++ l) None out c.
Proof.
  intros He Hi. induction l as [|a l [IH1 IH2]] using rev_ind; [by rewrite !app_nil_r|]. rewrite !app_assoc. split.
  - apply (sides_skip _ _ _ _ _ _ bcuda_laws e (NS ++ l) NR out a c IH1 He).
  - apply (sides_skip _ _ _ _ _ _ bcuda_laws e NS (NR ++ l) out a c IH2 He).
Qed.

Lemma bcuda_skip e ns nr out a c :
  bcuda_inv e ns nr None out c -> is_error e = true ->
  bcuda_inv e (ns ++ [a]) nr None out c /\ bcuda_inv e ns (nr ++ [a]) None out c.
Proof.
  intros [Hi _] He. unfold bcuda_inv. rewrite !bind_app. simpl. rewrite !app_nil_r.
  destruct (sides_skip_many e _ _ (chunks a) out c He Hi) as [H1 H2]. split; (split; [done | congruence]).
Qed.

Lemma bcuda_error e ns nr cur out c :
  bcuda_inv kSuccess ns nr cur out c -> is_error e = true ->
  wp (handleErrorImpl e c) (fun _ => False) (chan_post bcuda_view bcuda_inv e ns nr cur out [] [] [] [] c).
Proof.
  intros [[Hs Hsr Hrr _] _] He. unfold handleErrorImpl. change (sends e c) with (send_table sends_side e c).
  destruct (sides_advance_both _ _ _ _ _ _ bcuda_laws e (ns ≫= chunks) (nr ≫= chunks) cur cur out [] [ConnClose (connection_ (links_ c)); CpuChannelClose; CtxUnenroll] c c)
    as (l1 & evs1 & l2 & evs2 & Hrun1 & Hrun2 & _ & [Hi HS HR Hu Hst]); try done.
  - by eapply (sides_at_error _ _ _ _ _ _ bcuda_laws).
  - intros _. by apply bcuda_send_front_ok.
  - intros _. by apply bcuda_recv_front_ok.
  - by repeat constructor.
  - rewrite Hrun1, bind_done. cbv beta iota. change (recvs e c) with (recv_table recvs_side e c).
    rewrite Hrun2, bind_done. cbv beta iota. cbn [app] in *. rewrite <- app_assoc in *.
    split; try done. split; [exact Hi | congruence].
Qed.


(** What an operation in each state waits for. *)
Inductive send_waits (o : ChunkSendOperation) : cb -> Prop :=
| waits_send_allocated : so_state o = 1%nat -> so_doneAllocatingCpuStagingBuffer o = false -> send_waits o (CbSendAllocated (so_sequenceNumber o))
| waits_copied_to_cpu : so_state o = 2%nat -> so_doneCopyingFromGpuToCpu o = false -> send_waits o (CbCopiedToCpu (so_sequenceNumber o))
| waits_sent : so_state o = 4%nat -> so_doneSendingCpuBuffer o = false -> send_waits o (CbCpuSent (so_sequenceNumber o)).
Inductive recv_waits (o : ChunkRecvOperation) : cb -> Prop :=
| waits_read : ro_state o = 1%nat -> ro_doneReadingReadyToSend o = false -> recv_waits o (CbReadyToSendRead (ro_sequenceNumber o))
| waits_recv_allocated : ro_state o = 2%nat -> ro_doneAllocatingCpuStagingBuffer o = false -> recv_waits o (CbRecvAllocated (ro_sequenceNumber o))
| waits_received : ro_state o = 3%nat -> ro_doneReceivingCpuBuffer o = false -> recv_waits o (CbCpuReceived (ro_sequenceNumber o))
| waits_copied_to_gpu : ro_state o = 4%nat \/ ro_state o = 5%nat -> ro_doneCopyingFromCpuToGpu o = false ->
    recv_waits o (CbCopiedToGpu (ro_sequenceNumber o)).

Ltac pend_waits :=
  intros Hb; repeat (case_match; try (by apply not_elem_of_nil in Hb)); apply list_elem_of_singleton in Hb; subst; constructor; auto.
Lemma send_pend_waits o b : b ∈ send_pend o -> send_waits o b.
Proof. unfold send_pend. pend_waits. Qed.
Lemma recv_pend_waits o b : b ∈ recv_pend o -> recv_waits o b.
Proof. unfold recv_pend. pend_waits. Qed.

(** Each callback takes what it is for from the operation that waits for it. *)
Ltac chunk_takes lem :=
  intros fr reqs o Hg Hb; apply lem in Hb; destruct o; destruct Hg; unfold send_pend, recv_pend, send_owed, recv_owed, send_unstarted, recv_unstarted;
  inversion Hb as [Hs Hd|Hs Hd|Hs Hd|[Hs|Hs] Hd] || inversion Hb as [Hs Hd|Hs Hd|Hs Hd];
  simpl in *; subst; split_and!; simpl; try done; split; simpl; try done; try lia;
  try (by intros _; apply Nat.leb_le); (intros _; split; [by apply Nat.leb_le | intros _ ?; first [congruence | by eexists]]).

Lemma bcuda_takes_allocated e it d :
  takes_at sends_side e it (CbSendAllocated it) (fun op =>
    let op := op <| so_doneAllocatingCpuStagingBuffer := true |> in
    if is_error e then op else op <| so_tmpBuffer := Some d |>).
Proof. destruct (is_error e) eqn:He; chunk_takes send_pend_waits. Qed.

Lemma bcuda_takes_copied e it :
  takes_at sends_side e it (CbCopiedToCpu it) (fun op => op <| so_doneCopyingFromGpuToCpu := true |>).
Proof. chunk_takes send_pend_waits. Qed.
Lemma bcuda_takes_sent e it :
  takes_at sends_side e it (CbCpuSent it) (fun op => op <| so_doneSendingCpuBuffer := true |>).
Proof. chunk_takes send_pend_waits. Qed.
Lemma bcuda_takes_read e it :
  takes_at recvs_side e it (CbReadyToSendRead it) (fun op => op <| ro_doneReadingReadyToSend := true |>).
Proof. chunk_takes recv_pend_waits. Qed.
Lemma bcuda_takes_recv_allocated e it d :
  takes_at recvs_side e it (CbRecvAllocated it) (fun op =>
    let op := op <| ro_doneAllocatingCpuStagingBuffer := true |> in
    if is_error e then op else op <| ro_tmpBuffer := Some d |>).
Proof. destruct (is_error e) eqn:He; chunk_takes recv_pend_waits. Qed.
Lemma bcuda_takes_received e it :
  takes_at recvs_side e it (CbCpuReceived it) (fun op => op <| ro_doneReceivingCpuBuffer := true |>).
Proof. chunk_takes recv_pend_waits. Qed.
Lemma bcuda_takes_copied_back e it :
  takes_at recvs_side e it (CbCopiedToGpu it) (fun op => op <| ro_doneCopyingFromCpuToGpu := true |>).
Proof. chunk_takes recv_pend_waits. Qed.

Lemma bcuda_post e ns nr cur0 cur out0 out c c' evs :
  bcuda_inv e ns nr cur0 out0 c ->
  nextChunkBeingSent_ c' = nextChunkBeingSent_ c -> nextChunkBeingReceived_ c' = nextChunkBeingReceived_ c ->
  chan_post (sides_view sends_side recvs_side) (sides_inv sends_side recvs_side key (fun _ _ _ _ => True))
    e (ns ≫= chunks) (nr ≫= chunks) cur out [] [] [] [] c (c', evs) ->
  chan_post bcuda_view bcuda_inv e ns nr cur out [] [] [] [] c (c', evs).
Proof. intros [_ Hn] H1 H2 [Hi HS HR Hu Hst]. split; try done. split; [exact Hi|]. simpl. by rewrite H1, H2. Qed.

Lemma bcuda_sent e ns nr out it k f c :
  bcuda_inv e ns nr (Some k) out c -> key k = Some k -> (forall o, ~ recv_waits o k) -> takes_at sends_side e it k f ->
  wp (on_send e it f c) (fun _ => False) (chan_post bcuda_view bcuda_inv e ns nr None out [] [] [] [] c).
Proof.
  intros Hi Hk Ho Hf. unfold on_send. change (sends e c) with (send_table sends_side e c).
  destruct (sides_sent_run sends_side recvs_side key (fun _ => True) (fun _ => True) (fun _ _ _ _ => True) bcuda_laws e
    (ns ≫= chunks) (nr ≫= chunks) out it k k f c (proj1 Hi) Hk) as (l & evs & -> & Hp); [|done|].
  - intros o Hb. by eapply Ho, recv_pend_waits.
  - by eapply bcuda_post.
Qed.

Lemma bcuda_received e ns nr out it k f c :
  bcuda_inv e ns nr (Some k) out c -> key k = Some k -> (forall o, ~ send_waits o k) -> takes_at recvs_side e it k f ->
  wp (on_recv e it f c) (fun _ => False) (chan_post bcuda_view bcuda_inv e ns nr None out [] [] [] [] c).
Proof.
  intros Hi Hk Ho Hf. unfold on_recv. change (recvs e c) with (recv_table recvs_side e c).
  destruct (sides_received_run sends_side recvs_side key (fun _ => True) (fun _ => True) (fun _ _ _ _ => True) bcuda_laws e
    (ns ≫= chunks) (nr ≫= chunks) out it k k f c (proj1 Hi) Hk) as (l & evs & -> & Hp); [|done|].
  - intros o Hb. by eapply Ho, send_pend_waits.
  - by eapply bcuda_post.
Qed.

(** The buffer of an allocator goes back after the callback. *)
Lemma bcuda_dropped e e' d ns nr out c m :
  wp m (fun _ => False) (chan_post bcuda_view bcuda_inv e ns nr None out [] [] [] [] c) ->
  wp ('(c1, calls) ← m; Done (c1, calls ++ drop_buffer e' d)) (fun _ => False)
    (chan_post bcuda_view bcuda_inv e ns nr None out [] [] [] [] c).
Proof.
  intros Hm. apply wp_bind. eapply wp_mono; [exact Hm|]. intros [c1 calls] Hp. apply wp_done.
  refine (chan_post_after _ _ _ _ _ _ _ _ _ _ _ _ (c1, calls) _ Hp _). unfold drop_buffer. destruct (is_error e'); by repeat constructor.
Qed.

Lemma bcuda_body e ns nr out k d c :
  bcuda_inv e ns nr (Some k) out c ->
  wp (callback_body e k d c) (fun _ => False) (chan_post bcuda_view bcuda_inv e ns nr None out [] [] [] [] c).
Proof.
  intros Hi. destruct k as [b i n|it|it|it|it|it|it|it]; cbn [callback_body].
  - apply wp_done. eapply bcuda_post; [done..|]. refine (sides_ignored sends_side recvs_side key _ e _ _ _ out c (proj1 Hi) _ _); done.
  - apply bcuda_dropped, (bcuda_sent _ _ _ _ _ (CbSendAllocated it)); [done..|by intros o Hw; inversion Hw|]. apply bcuda_takes_allocated.
  - apply (bcuda_sent _ _ _ _ _ (CbCopiedToCpu it)); [done..|by intros o Hw; inversion Hw|]. apply bcuda_takes_copied.
  - apply (bcuda_sent _ _ _ _ _ (CbCpuSent it)); [done..|by intros o Hw; inversion Hw|]. apply bcuda_takes_sent.
  - apply (bcuda_received _ _ _ _ _ (CbReadyToSendRead it)); [done..|by intros o Hw; inversion Hw|]. apply bcuda_takes_read.
  - apply bcuda_dropped, (bcuda_received _ _ _ _ _ (CbRecvAllocated it)); [done..|by intros o Hw; inversion Hw|]. apply bcuda_takes_recv_allocated.
  - apply (bcuda_received _ _ _ _ _ (CbCpuReceived it)); [done..|by intros o Hw; inversion Hw|]. apply bcuda_takes_received.
  - apply (bcuda_received _ _ _ _ _ (CbCopiedToGpu it)); [done..|by intros o Hw; inversion Hw|]. apply bcuda_takes_copied_back.
Qed.

#[export] Instance bcuda_safe : ChannelSafe ChannelImpl Empty_set cb Z.
Proof.
  refine {|
    ch_inv := bcuda_inv;
    ch_view := bcuda_view;
    ch_fits _ _ _ := True;
    ch_asks := bcuda_asks;
    ch_initial c _ := exists links, c = newChannelImpl links;
  |}.
  - intros c d [links ->]. assert (forall e, bcuda_inv e [] [] None [] (newChannelImpl links)) as Hi.
    { intros e. split; [|done]. split; simpl; try done; try (by intros ? ?). split; [by exists 0; split; [apply side_ok_nil|]..|done]. }
    by split_and!.
  - intros ns nr out ptr len f c Hi _ Ha. by apply bcuda_send.
  - intros ns nr out ptr len f c Hi _ Ha. by apply bcuda_recv.
  - intros e ns nr out a c Hi He. by apply bcuda_skip.
  - intros e ns nr cur out c Hi He. by apply bcuda_error.
  - intros e ns nr out i k c [Hi Hn] Hk. split; [|done]. by apply sides_take.
  - intros e ns nr out k d c Hi _. by apply bcuda_body.
Defined.

(** When nothing is awaited, the queues are empty. *)
Lemma bcuda_quiet e ns nr out c :
  bcuda_inv e ns nr None out c -> Forall (fun k => awaits k = false) out -> chunkSendOps_ c = [] /\ chunkRecvOps_ c = [].
Proof.
  intros [Hi _] Hq.
  assert (forall l : Links, flows e l <> Stopped \/ is_error e = true) as Hf
    by (intros l; unfold flows; destruct (is_error e); [by right | by left]).
  assert (Forall (fun k => key k = None) out) as Hq' by (eapply Forall_impl; [exact Hq|]; unfold key; by intros k ->).
  exact (sides_quiet sends_side recvs_side key _ e _ _ out c bcuda_send_live bcuda_recv_live I I (Hf _) (Hf _) Hi Hq').
Qed.

#[export] Instance bcuda_live : ChannelLive ChannelImpl Empty_set cb Z.
Proof.
  refine {| awaited _ := awaits; live_ok _ _ _ := True |}. intros e ns nr out c Hi _ Hq.
  destruct (bcuda_quiet e ns nr out c Hi Hq) as [HS HR]. simpl. by rewrite HS, HR.
Defined.
