(* ===== verification/MptChannel.v ===== *)
(** * A channel over several connections

    Models [channel/mpt/channel_impl.cc] and [channel/mpt/nop_types.h]: two
    endpoints agree on a number of connections, the lanes, and then every tensor
    is cut into as many chunks, one for each lane. *)

From S2P Require Import Prelude Messages OpsStateMachine LocalOps ChannelBase ChannelSides.

Definition UNINITIALIZED : nat := 0.
Definition WRITING_CHUNKS : nat := 1.
Definition READING_CHUNKS : nat := 1.
Definition OP_FINISHED : nat := 2.

Record SendOperation := mkSendOperation {
  so_sequenceNumber : Z;
  so_state : nat;
  so_numChunksBeingWritten : Z;
  so_ptr : Z;
  so_length : Z;
  so_callback : option callback;
}.
#[export] Instance eta_SendOperation : Eta SendOperation := fun o =>
  mkSendOperation (so_sequenceNumber o) (so_state o) (so_numChunksBeingWritten o) (so_ptr o) (so_length o) (so_callback o).
Definition newSendOperation (seq : Z) : SendOperation := mkSendOperation seq UNINITIALIZED 0 0 0 None.

Record RecvOperation := mkRecvOperation {
  ro_sequenceNumber : Z;
  ro_state : nat;
  ro_numChunksBeingRead : Z;
  ro_ptr : Z;
  ro_length : Z;
  ro_callback : option callback;
}.
#[export] Instance eta_RecvOperation : Eta RecvOperation := fun o =>
  mkRecvOperation (ro_sequenceNumber o) (ro_state o) (ro_numChunksBeingRead o) (ro_ptr o) (ro_length o) (ro_callback o).
Definition newRecvOperation (seq : Z) : RecvOperation := mkRecvOperation seq UNINITIALIZED 0 0 0 None.

(** [nop_types.h]. *)
Record LaneAdvertisement := mkLaneAdvertisement { la_address : string; la_registrationId : Z }.
Inductive Packet :=
| ServerHello (laneAdvertisements : list LaneAdvertisement)
| ClientHello (registrationId : Z).

Inductive Endpoint := kConnect | kListen.
Inductive State := CH_UNINITIALIZED | CLIENT_READING_HELLO | SERVER_ACCEPTING_LANES | ESTABLISHED.
#[export] Instance State_eq_dec : EqDecision State.
Proof. solve_decision. Defined.

(** All the fields but the operations. *)
Record Links := mkLinks {
  connection_ : conn;
  endpoint_ : Endpoint;
  state_ : State;
  numLanes_ : nat;
  numLanesBeingAccepted_ : Z;
  lanes_ : list (option conn);
  laneRegistrationIds_ : gmap nat Z;
}.
#[export] Instance eta_Links : Eta Links := fun l =>
  mkLinks (connection_ l) (endpoint_ l) (state_ l) (numLanes_ l) (numLanesBeingAccepted_ l) (lanes_ l)
    (laneRegistrationIds_ l).

Record ChannelImpl := mkChannelImpl {
  links_ : Links;
  sendOps_ : list SendOperation;
  recvOps_ : list RecvOperation;
}.
#[export] Instance eta_ChannelImpl : Eta ChannelImpl := fun c =>
  mkChannelImpl (links_ c) (sendOps_ c) (recvOps_ c).

Definition newChannelImpl (connection : conn) (endpoint : Endpoint) (numLanes : nat) : ChannelImpl :=
  mkChannelImpl (mkLinks connection endpoint CH_UNINITIALIZED numLanes 0 (replicate numLanes None) ∅) [] [].

#[export] Instance send_operation : Operation SendOperation := {
  op_seq := so_sequenceNumber;
  op_state := so_state;
  op_put_state n o := o <| so_state := n |>;
  FINISHED := OP_FINISHED;
}.
#[export] Instance recv_operation : Operation RecvOperation := {
  op_seq := ro_sequenceNumber;
  op_state := ro_state;
  op_put_state n o := o <| ro_state := n |>;
  FINISHED := OP_FINISHED;
}.
#[export] Instance send_machine : OpsMachine ChannelImpl SendOperation := {
  get_ops := sendOps_;
  put_ops l c := c <| sendOps_ := l |>;
}.
#[export] Instance recv_machine : OpsMachine ChannelImpl RecvOperation := {
  get_ops := recvOps_;
  put_ops l c := c <| recvOps_ := l |>;
}.
#[export] Instance send_laws : OpsMachineLaws ChannelImpl SendOperation.
Proof. split; try done. by intros []. Qed.
#[export] Instance recv_laws : OpsMachineLaws ChannelImpl RecvOperation.
Proof. split; try done. by intros []. Qed.

(** The callbacks: those of hellos that were written do nothing but pass on an
    error. *)
Inductive cb :=
| CbHelloRead
| CbHelloWritten
| CbClientHelloWritten (laneIdx : nat)
| CbLane (laneIdx : nat)
| CbChunkWritten (it : Z) (laneIdx : nat)
| CbChunkRead (it : Z) (laneIdx : nat).

(** What an operation waits for: any of its chunks. *)
Inductive chunk := SendChunk (it : Z) | RecvChunk (it : Z).
Definition key (k : cb) : option chunk :=
  match k with
  | CbChunkWritten it _ => Some (SendChunk it)
  | CbChunkRead it _ => Some (RecvChunk it)
  | _ => None
  end.

Abbreviation call := (ccall Packet cb).

(** What the context and the connections return: the addresses of the lanes and
    the tokens of the registrations; the object read; the connections opened;
    the connection accepted. *)
Record Data := mkData {
  md_addresses : list string;
  md_token : nat -> Z;
  md_packet : Packet;
  md_conn : nat -> conn;
  md_accepted : option conn;
}.

(** A null callback or connection must not be used. *)
Definition get {A} (o : option A) : outcome A :=
  match o with Some a => Done a | None => Throw ExDangling end.

(** The offset of the [i]-th of [n] cutpoints, in [uint64_t]. *)
Definition cutpoint (length : Z) (n i : nat) : Z := u64 (length * Z.of_nat i) / Z.of_nat n.
Definition chunk_length (length : Z) (n i : nat) : Z := u64 (cutpoint length n (S i) - cutpoint length n i).

Section Transitions.
Variable error_ : Error.
Variable links : Links.

Fixpoint write_lanes (laneIdx : nat) (rest : list (option conn)) (op : SendOperation) : outcome (SendOperation * list call) :=
  match rest with
  | [] => Done (op, [])
  | lane :: rest =>
      c ← get lane;
      r ← write_lanes (S laneIdx) rest (op <| so_numChunksBeingWritten := s64 (so_numChunksBeingWritten op + 1) |>);
      Done (r.1, ConnWrite c (so_ptr op + cutpoint (so_length op) (length (lanes_ links)) laneIdx)
                   (chunk_length (so_length op) (length (lanes_ links)) laneIdx)
                   (CbChunkWritten (so_sequenceNumber op) laneIdx) :: r.2)
  end.
Definition writeChunks : @local_action SendOperation call := write_lanes 0 (lanes_ links).

Definition callSendCallback : @local_action SendOperation call := fun op =>
  f ← get (so_callback op);
  Done (op <| so_callback := None |>, [UserSend f error_]).

Definition advanceSendOperation : list (@row SendOperation call) := [
    mkRow UNINITIALIZED OP_FINISHED
      (fun op prev => is_error error_ || (so_length op =? 0)) [callSendCallback];
    mkRow UNINITIALIZED WRITING_CHUNKS
      (fun op prev => negb (is_error error_) && bool_decide (state_ links = ESTABLISHED) && (WRITING_CHUNKS <=? prev)%nat)
      [writeChunks];
    mkRow WRITING_CHUNKS OP_FINISHED
      (fun op prev => so_numChunksBeingWritten op =? 0) [callSendCallback]
  ].

Fixpoint read_lanes (laneIdx : nat) (rest : list (option conn)) (op : RecvOperation) : outcome (RecvOperation * list call) :=
  match rest with
  | [] => Done (op, [])
  | lane :: rest =>
      c ← get lane;
      r ← read_lanes (S laneIdx) rest (op <| ro_numChunksBeingRead := s64 (ro_numChunksBeingRead op + 1) |>);
      Done (r.1, ConnRead c (ro_ptr op + cutpoint (ro_length op) (length (lanes_ links)) laneIdx)
                   (chunk_length (ro_length op) (length (lanes_ links)) laneIdx)
                   (CbChunkRead (ro_sequenceNumber op) laneIdx) :: r.2)
  end.
Definition readChunks : @local_action RecvOperation call := read_lanes 0 (lanes_ links).

Definition callRecvCallback : @local_action RecvOperation call := fun op =>
  f ← get (ro_callback op);
  Done (op <| ro_callback := None |>, [UserRecv f error_]).

Definition advanceRecvOperation : list (@row RecvOperation call) := [
    mkRow UNINITIALIZED OP_FINISHED
      (fun op prev => is_error error_ || (ro_length op =? 0)) [callRecvCallback];
    mkRow UNINITIALIZED READING_CHUNKS
      (fun op prev => negb (is_error error_) && bool_decide (state_ links = ESTABLISHED) && (READING_CHUNKS <=? prev)%nat)
      [readChunks];
    mkRow READING_CHUNKS OP_FINISHED
      (fun op prev => ro_numChunksBeingRead op =? 0) [callRecvCallback]
  ].
End Transitions.

Definition sends (error_ : Error) (c : ChannelImpl) : list (@transition ChannelImpl SendOperation call) :=
  table (advanceSendOperation error_ (links_ c)).
Definition recvs (error_ : Error) (c : ChannelImpl) : list (@transition ChannelImpl RecvOperation call) :=
  table (advanceRecvOperation error_ (links_ c)).

(** The loop over lanes of [initImplFromLoop], for the endpoint that listens:
    [todo] lanes from [laneIdx] on; the advertisements come out too. *)
Fixpoint register_lanes (d : Data) (laneIdx todo : nat) (l : Links) : outcome (Links * list LaneAdvertisement * list call) :=
  match todo with
  | O => Done (l, [], [])
  | S todo =>
      address ← get (md_addresses d !! laneIdx);
      let token := md_token d laneIdx in
      let l := l <| laneRegistrationIds_ := <[laneIdx := token]> (laneRegistrationIds_ l) |>
                 <| numLanesBeingAccepted_ := u64 (numLanesBeingAccepted_ l + 1) |> in
      '(l, ads, calls) ← register_lanes d (S laneIdx) todo l;
      Done (l, mkLaneAdvertisement address token :: ads, CtxRegister laneIdx token (CbLane laneIdx) :: calls)
  end.

Definition initImplFromLoop (d : Data) (c : ChannelImpl) : outcome (ChannelImpl * list call) :=
  match endpoint_ (links_ c) with
  | kConnect =>
      Done (c <| links_ := links_ c <| state_ := CLIENT_READING_HELLO |> |>,
            [CtxEnroll; ConnReadNop (connection_ (links_ c)) CbHelloRead])
  | kListen =>
      '(l, ads, calls) ← register_lanes d 0 (numLanes_ (links_ c))
                           (links_ c <| state_ := SERVER_ACCEPTING_LANES |>);
      Done (c <| links_ := l |>,
            CtxEnroll :: calls ++ [ConnWriteNop (connection_ l) (ServerHello ads) CbHelloWritten])
  end.

(** [sendOps_.advanceAllOperations(); recvOps_.advanceAllOperations();] *)
Definition advance_both (error_ : Error) (c : ChannelImpl) : outcome (ChannelImpl * list call) :=
  '(c1, calls1) ← advanceAllOperations (sends error_ c) c;
  '(c2, calls2) ← advanceAllOperations (recvs error_ c) c1;
  Done (c2, calls1 ++ calls2).

(** The loop of [onClientReadHelloOnConnection]. *)
Fixpoint connect_lanes (d : Data) (ads : list LaneAdvertisement) (laneIdx todo : nat) (lanes : list (option conn))
    : outcome (list (option conn) * list call) :=
  match todo with
  | O => Done (lanes, [])
  | S todo =>
      ad ← get (ads !! laneIdx);
      let lane := md_conn d laneIdx in
      '(lanes, calls) ← connect_lanes d ads (S laneIdx) todo (<[laneIdx := Some lane]> lanes);
      Done (lanes, [CtxConnect laneIdx (la_address ad) lane;
                    ConnWriteNop lane (ClientHello (la_registrationId ad)) (CbClientHelloWritten laneIdx)] ++ calls)
  end.

(** [std::vector::resize]. *)
Definition resize (n : nat) (l : list (option conn)) : list (option conn) := take n l ++ replicate (n - length l) None.

Definition onClientReadHelloOnConnection (error_ : Error) (d : Data) (c : ChannelImpl) : outcome (ChannelImpl * list call) :=
  match md_packet d with
  | ServerHello ads =>
      let l := links_ c in
      '(lanes, calls) ← connect_lanes d ads 0 (numLanes_ l) (resize (numLanes_ l) (lanes_ l));
      '(c, calls') ← advance_both error_ (c <| links_ := l <| lanes_ := lanes |> <| state_ := ESTABLISHED |> |>);
      Done (c, calls ++ calls')
  | ClientHello _ => Throw ExDangling     (* [get<ServerHello>()] is null *)
  end.

Definition onServerAcceptOfLane (error_ : Error) (laneIdx : nat) (d : Data) (c : ChannelImpl)
    : outcome (ChannelImpl * list call) :=
  let l := links_ c in
  token ← get (laneRegistrationIds_ l !! laneIdx);
  let l := l <| lanes_ := <[laneIdx := md_accepted d]> (lanes_ l) |>
             <| laneRegistrationIds_ := delete laneIdx (laneRegistrationIds_ l) |>
             <| numLanesBeingAccepted_ := u64 (numLanesBeingAccepted_ l - 1) |> in
  if numLanesBeingAccepted_ l =? 0 then
    '(c, calls) ← advance_both error_ (c <| links_ := l <| state_ := ESTABLISHED |> |>);
    Done (c, CtxUnregister token :: calls)
  else Done (c <| links_ := l |>, [CtxUnregister token]).

Definition sendImplFromLoop (error_ : Error) (sequenceNumber ptr length : Z) (f : callback) (c : ChannelImpl)
    : outcome (ChannelImpl * list call) :=
  c1 ← update_op sequenceNumber
        (fun op => op <| so_ptr := ptr |> <| so_length := length |> <| so_callback := Some f |>)
        (emplaceBack (newSendOperation sequenceNumber) c);
  advanceOperation (sends error_ c) sequenceNumber c1.

Definition recvImplFromLoop (error_ : Error) (sequenceNumber ptr length : Z) (f : callback) (c : ChannelImpl)
    : outcome (ChannelImpl * list call) :=
  c1 ← update_op sequenceNumber
        (fun op => op <| ro_ptr := ptr |> <| ro_length := length |> <| ro_callback := Some f |>)
        (emplaceBack (newRecvOperation sequenceNumber) c);
  advanceOperation (recvs error_ c) sequenceNumber c1.

Definition onChunkWritten (error_ : Error) (it : Z) (c : ChannelImpl) : outcome (ChannelImpl * list call) :=
  c1 ← update_op it (fun op => op <| so_numChunksBeingWritten := s64 (so_numChunksBeingWritten op - 1) |>) c;
  advanceOperation (sends error_ c) it c1.

Definition onChunkRead (error_ : Error) (it : Z) (c : ChannelImpl) : outcome (ChannelImpl * list call) :=
  c1 ← update_op it (fun op => op <| ro_numChunksBeingRead := s64 (ro_numChunksBeingRead op - 1) |>) c;
  advanceOperation (recvs error_ c) it c1.

Definition callback_body (error_ : Error) (k : cb) (d : Data) (c : ChannelImpl) : outcome (ChannelImpl * list call) :=
  match k with
  | CbHelloRead => if is_error error_ then Done (c, []) else onClientReadHelloOnConnection error_ d c
  | CbLane laneIdx => if is_error error_ then Done (c, []) else onServerAcceptOfLane error_ laneIdx d c
  | CbHelloWritten | CbClientHelloWritten _ => Done (c, [])
  | CbChunkWritten it _ => onChunkWritten error_ it c
  | CbChunkRead it _ => onChunkRead error_ it c
  end.

(** The order of the registrations in their hash table is not specified: it is
    that of [map_to_list] here. *)
Definition handleErrorImpl (error_ : Error) (c : ChannelImpl) : outcome (ChannelImpl * list call) :=
  '(c2, calls) ← advance_both error_ c;
  Done (c2, calls ++ ConnClose (connection_ (links_ c2)) :: (ConnClose <$> omap id (lanes_ (links_ c2))) ++
              ((fun p => CtxUnregister p.2) <$> map_to_list (laneRegistrationIds_ (links_ c2))) ++ [CtxUnenroll]).

#[export] Instance mpt_channel : ChannelBase.ChannelImpl ChannelImpl Packet cb Data := {
  initImplFromLoop := initImplFromLoop;
  sendImplFromLoop := sendImplFromLoop;
  recvImplFromLoop := recvImplFromLoop;
  handleErrorImpl := handleErrorImpl;
  callback_body := callback_body;
}.

(** ** Chunks *)

(** The chunks of a tensor. *)
Definition chunks (n : nat) (it ptr len : Z) : list piece :=
  (fun i => mkPiece i (ptr + cutpoint len n i) (chunk_length len n i) it) <$> seq 0 n.
Definition all_chunks (l : Links) (it : Z) (a : Z * Z) : list piece :=
  if a.2 =? 0 then [] else chunks (numLanes_ l) it a.1 a.2.

Definition links_ok (l : Links) : Prop :=
  length (lanes_ l) = numLanes_ l /\ 0 < Z.of_nat (numLanes_ l) < 2 ^ 63 /\
  (state_ l = ESTABLISHED -> Forall is_Some (lanes_ l)).

(** The calls on the connections [rest], from lane [i] on. *)
Definition chunk_calls (f : conn -> Z -> Z -> nat -> call) (ptr len : Z) (n : nat) (i : nat) (rest : list (option conn)) : list call :=
  imap (fun j c => f (default 0 c) (ptr + cutpoint len n (i + j)) (chunk_length len n (i + j)) (i + j)%nat) rest.

Lemma chunk_calls_cons f ptr len n i c rest :
  chunk_calls f ptr len n i (c :: rest) =
  f (default 0 c) (ptr + cutpoint len n i) (chunk_length len n i) i :: chunk_calls f ptr len n (S i) rest.
Proof.
  unfold chunk_calls. simpl. rewrite Nat.add_0_r. f_equal. apply imap_ext. intros j o _. simpl.
  by rewrite Nat.add_succ_r.
Qed.

Lemma write_lanes_ok l rest : forall i op,
  Forall is_Some rest -> 0 <= so_numChunksBeingWritten op -> so_numChunksBeingWritten op + Z.of_nat (length rest) < 2 ^ 63 ->
  write_lanes l i rest op =
    Done (op <| so_numChunksBeingWritten := so_numChunksBeingWritten op + Z.of_nat (length rest) |>,
          chunk_calls (fun c p n j => ConnWrite c p n (CbChunkWritten (so_sequenceNumber op) j)) (so_ptr op) (so_length op)
            (length (lanes_ l)) i rest).
Proof.
  induction rest as [|c rest IH]; intros i op Hs Hn Hb; simpl in *.
  - rewrite Z.add_0_r. by destruct op.
  - apply Forall_cons in Hs as [[c' ->] Hs]. rewrite IH; simpl; rewrite ?s64_small by lia; [|done|lia..].
    rewrite chunk_calls_cons. simpl.
    replace (so_numChunksBeingWritten op + Z.of_nat (S (length rest))) with (so_numChunksBeingWritten op + 1 + Z.of_nat (length rest)) by lia. by destruct op.
Qed.

Lemma read_lanes_ok l rest : forall i op,
  Forall is_Some rest -> 0 <= ro_numChunksBeingRead op -> ro_numChunksBeingRead op + Z.of_nat (length rest) < 2 ^ 63 ->
  read_lanes l i rest op =
    Done (op <| ro_numChunksBeingRead := ro_numChunksBeingRead op + Z.of_nat (length rest) |>,
          chunk_calls (fun c p n j => ConnRead c p n (CbChunkRead (ro_sequenceNumber op) j)) (ro_ptr op) (ro_length op)
            (length (lanes_ l)) i rest).
Proof.
  induction rest as [|c rest IH]; intros i op Hs Hn Hb; simpl in *.
  - rewrite Z.add_0_r. by destruct op.
  - apply Forall_cons in Hs as [[c' ->] Hs]. rewrite IH; simpl; rewrite ?s64_small by lia; [|done|lia..].
    rewrite chunk_calls_cons. simpl.
    replace (ro_numChunksBeingRead op + Z.of_nat (S (length rest))) with (ro_numChunksBeingRead op + 1 + Z.of_nat (length rest)) by lia. by destruct op.
Qed.

Lemma omap_imap_seq {X} (g : call -> option X) (h : nat -> X) f ptr len n rest : forall i,
  (forall c j, g (f c (ptr + cutpoint len n j) (chunk_length len n j) j) = Some (h j)) ->
  omap g (chunk_calls f ptr len n i rest) = h <$> seq i (length rest).
Proof.
  intros i Hg. revert i. induction rest as [|c rest IH]; intros i; [done|].
  rewrite chunk_calls_cons. simpl. by rewrite Hg, IH.
Qed.

Lemma omap_imap_none {X} (g : call -> option X) f ptr len n rest i :
  (forall c p m j, g (f c p m j) = None) -> omap g (chunk_calls f ptr len n i rest) = [].
Proof.
  intros Hg. apply omap_none. unfold chunk_calls. apply Forall_lookup. intros j c Hj.
  rewrite list_lookup_imap in Hj. apply fmap_Some in Hj as (o & _ & ->). apply Hg.
Qed.

Lemma chunk_calls_all (P : call -> Prop) f ptr len n rest i :
  (forall c p m j, P (f c p m j)) -> Forall P (chunk_calls f ptr len n i rest).
Proof.
  intros Hg. unfold chunk_calls. apply Forall_lookup. intros j c Hj.
  rewrite list_lookup_imap in Hj. apply fmap_Some in Hj as (o & _ & ->). apply Hg.
Qed.

(** ** Single operations *)

Definition requested (reqs : list (Z * Z)) (seq ptr len : Z) : Prop := reqs !! Z.to_nat seq = Some (ptr, len).

Record send_good (e : Error) (l : Links) (reqs : list (Z * Z)) (o : SendOperation) : Prop := {
  sg_state : (so_state o <= OP_FINISHED)%nat;
  sg_callback : is_Some (so_callback o) <-> (so_state o < OP_FINISHED)%nat;
  sg_num : 0 <= so_numChunksBeingWritten o < 2 ^ 63;
  sg_idle : so_state o <> WRITING_CHUNKS -> so_numChunksBeingWritten o = 0;
  sg_request : requested reqs (so_sequenceNumber o) (so_ptr o) (so_length o);
  sg_early : is_error e = false -> state_ l <> ESTABLISHED ->
    so_state o = UNINITIALIZED \/ so_state o = OP_FINISHED /\ so_length o = 0;
}.
Definition send_owed (o : SendOperation) : list callback := option_list (so_callback o).
Definition send_pend (o : SendOperation) : list chunk :=
  replicate (Z.to_nat (so_numChunksBeingWritten o)) (SendChunk (so_sequenceNumber o)).
Definition send_unstarted (l : Links) (o : SendOperation) : list piece :=
  if negb (so_state o =? UNINITIALIZED)%nat then [] else all_chunks l (so_sequenceNumber o) (so_ptr o, so_length o).
(** A send starts by writing its chunks. *)
Definition send_start (c : call) : option piece :=
  match c with ConnWrite _ p n (CbChunkWritten it i) => Some (mkPiece i p n it) | _ => None end.

Record recv_good (e : Error) (l : Links) (reqs : list (Z * Z)) (o : RecvOperation) : Prop := {
  rg_state : (ro_state o <= OP_FINISHED)%nat;
  rg_callback : is_Some (ro_callback o) <-> (ro_state o < OP_FINISHED)%nat;
  rg_num : 0 <= ro_numChunksBeingRead o < 2 ^ 63;
  rg_idle : ro_state o <> READING_CHUNKS -> ro_numChunksBeingRead o = 0;
  rg_request : requested reqs (ro_sequenceNumber o) (ro_ptr o) (ro_length o);
  rg_early : is_error e = false -> state_ l <> ESTABLISHED ->
    ro_state o = UNINITIALIZED \/ ro_state o = OP_FINISHED /\ ro_length o = 0;
}.
Definition recv_owed (o : RecvOperation) : list callback := option_list (ro_callback o).
Definition recv_pend (o : RecvOperation) : list chunk :=
  replicate (Z.to_nat (ro_numChunksBeingRead o)) (RecvChunk (ro_sequenceNumber o)).
Definition recv_unstarted (l : Links) (o : RecvOperation) : list piece :=
  if negb (ro_state o =? UNINITIALIZED)%nat then [] else all_chunks l (ro_sequenceNumber o) (ro_ptr o, ro_length o).
(** A receive starts by reading its chunks. *)
Definition recv_start (c : call) : option piece :=
  match c with ConnRead _ p n (CbChunkRead it i) => Some (mkPiece i p n it) | _ => None end.

Definition flows (e : Error) (l : Links) : bool := negb (is_error e) && bool_decide (state_ l = ESTABLISHED).
(** When every operation that could go on does: not after an error that came
    before the lanes were there, when some tensor is empty. *)
Definition unskipped (e : Error) (l : Links) (reqs : list (Z * Z)) : Prop :=
  is_error e = false \/ state_ l = ESTABLISHED \/ Forall (fun a => a.2 <> 0) reqs.

(** The calls of operations. *)
Definition plain (c : call) : Prop :=
  match cb_of c with None | Some (CbChunkWritten _ _ | CbChunkRead _ _) => True | Some _ => False end.

Definition sends_side : side SendOperation Links Packet cb chunk :=
  mkSide advanceSendOperation send_good send_owed send_pend send_unstarted send_start
    all_chunks (fun e l => flow_if (flows e l)) WRITING_CHUNKS unskipped.
Definition recvs_side : side RecvOperation Links Packet cb chunk :=
  mkSide advanceRecvOperation recv_good recv_owed recv_pend recv_unstarted recv_start
    all_chunks (fun e l => flow_if (flows e l)) READING_CHUNKS unskipped.

#[export] Instance mpt_sides : TwoSides ChannelImpl SendOperation RecvOperation Links.
Proof. by refine {| frame := links_ |}. Defined.

#[local] Arguments OP_FINISHED /.
#[local] Arguments WRITING_CHUNKS /.
#[local] Arguments READING_CHUNKS /.
#[local] Arguments UNINITIALIZED /.

Ltac callback_tac := split; [first [by intros [? [=]] | by intros _; lia] | first [by eauto | lia]].

Lemma write_lanes_seq l rest : forall i o o' evs, write_lanes l i rest o = Done (o', evs) -> so_sequenceNumber o' = so_sequenceNumber o.
Proof.
  induction rest as [|c rest IH]; intros i o o' evs Ho; simpl in Ho; [by apply done_inj in Ho as [= <- _]|].
  inv_bind Ho. inv_bind Ho. apply done_inj in Ho as [= <- _]. destruct a0 as [o1 e1]. simpl. by apply IH in Ha0.
Qed.

Lemma read_lanes_seq l rest : forall i o o' evs, read_lanes l i rest o = Done (o', evs) -> ro_sequenceNumber o' = ro_sequenceNumber o.
Proof.
  induction rest as [|c rest IH]; intros i o o' evs Ho; simpl in Ho; [by apply done_inj in Ho as [= <- _]|].
  inv_bind Ho. inv_bind Ho. apply done_inj in Ho as [= <- _]. destruct a0 as [o1 e1]. simpl. by apply IH in Ha0.
Qed.

Lemma all_chunks_zero l it ptr len : (len =? 0) = true -> all_chunks l it (ptr, len) = [].
Proof. unfold all_chunks. simpl. by intros ->. Qed.

Lemma replicate_seq {X} (a : X) n i : replicate n a = (fun _ => a) <$> seq i n.
Proof. revert i. induction n as [|n IH]; intros i; [done|]. simpl. by rewrite (IH (S i)). Qed.

Lemma mpt_send_start_step e l reqs n p len ptr f :
  links_ok l -> is_error e = false -> state_ l = ESTABLISHED -> (len =? 0) = false -> p <> 0%nat ->
  requested reqs n ptr len ->
  let o := mkSendOperation n 0 0 ptr len (Some f) in
  let o' := mkSendOperation n 1 (Z.of_nat (numLanes_ l)) ptr len (Some f) in
  exists evs, step_op (advanceSendOperation e l) p o = Done (o', evs) /\
    step_post (advanceSendOperation e l) (send_good e l reqs) send_owed send_pend
      (unstarted_if e (send_unstarted l)) user_send (awaited_of key) send_start (flow_if (flows e l)) WRITING_CHUNKS
      (sends_only recvs_side plain) p o o' evs.
Proof.
  intros (Hlen & [Hpos Hmax] & Hsome) He Hst Hl Hp Hreq o o'. specialize (Hsome Hst).
  assert (writeChunks l o = Done (mkSendOperation n 0 (Z.of_nat (numLanes_ l)) ptr len (Some f),
    chunk_calls (fun c p m j => ConnWrite c p m (CbChunkWritten n j)) ptr len (length (lanes_ l)) 0 (lanes_ l))) as Hw.
  { unfold writeChunks. rewrite write_lanes_ok; [by rewrite Hlen | done | simpl; lia | simpl; lia]. }
  set (calls := chunk_calls _ _ _ _ _ _) in Hw.
  exists calls.
  assert ((Z.of_nat (numLanes_ l) =? 0) = false) as Hnz by (apply Z.eqb_neq; lia).
  assert (p = S (pred p)) as -> by lia.
  unfold step_op, advanceSendOperation, attempt_local. subst o o'. simpl. rewrite He, Hst, Hl. simpl.
  rewrite Hw. simpl. rewrite Hnz. simpl. rewrite app_nil_r. split; [by rewrite !app_nil_r|]. split; simpl.
  - split; simpl; try done; try lia; [by split; [lia | eauto]].
  - lia.
  - done.
  - unfold op_at_rest. repeat (apply Forall_cons; split); [..|by apply Forall_nil]; simpl; by rewrite ?Hnz.
  - unfold calls, send_owed. by rewrite omap_imap_none.
  - unfold send_pend. simpl. rewrite app_nil_r, Nat2Z.id. unfold calls.
    rewrite (omap_imap_seq _ (fun _ => SendChunk n)), Hlen by done.
    by rewrite (replicate_seq _ _ 0).
  - right. unfold flows. rewrite He, Hst. split_and!; [done | lia | | by unfold unstarted_if, send_unstarted; rewrite He].
    unfold unstarted_if, send_unstarted, all_chunks. rewrite He. simpl. rewrite Hl. unfold calls, chunks.
    rewrite (omap_imap_seq _ (fun i => mkPiece i (ptr + cutpoint len (numLanes_ l) i) (chunk_length len (numLanes_ l) i) n))
      by (intros; by rewrite Hlen). by rewrite Hlen.
  - intros Hx. by destruct (flow_if_chained _ Hx).
  - apply chunk_calls_all. done.
Qed.

Lemma mpt_recv_start_step e l reqs n p len ptr f :
  links_ok l -> is_error e = false -> state_ l = ESTABLISHED -> (len =? 0) = false -> p <> 0%nat ->
  requested reqs n ptr len ->
  let o := mkRecvOperation n 0 0 ptr len (Some f) in
  let o' := mkRecvOperation n 1 (Z.of_nat (numLanes_ l)) ptr len (Some f) in
  exists evs, step_op (advanceRecvOperation e l) p o = Done (o', evs) /\
    step_post (advanceRecvOperation e l) (recv_good e l reqs) recv_owed recv_pend
      (unstarted_if e (recv_unstarted l)) user_recv (awaited_of key) recv_start (flow_if (flows e l)) READING_CHUNKS
      (recvs_only sends_side plain) p o o' evs.
Proof.
  intros (Hlen & [Hpos Hmax] & Hsome) He Hst Hl Hp Hreq o o'. specialize (Hsome Hst).
  assert (readChunks l o = Done (mkRecvOperation n 0 (Z.of_nat (numLanes_ l)) ptr len (Some f),
    chunk_calls (fun c p m j => ConnRead c p m (CbChunkRead n j)) ptr len (length (lanes_ l)) 0 (lanes_ l))) as Hw.
  { unfold readChunks. rewrite read_lanes_ok; [by rewrite Hlen | done | simpl; lia | simpl; lia]. }
  set (calls := chunk_calls _ _ _ _ _ _) in Hw.
  exists calls.
  assert ((Z.of_nat (numLanes_ l) =? 0) = false) as Hnz by (apply Z.eqb_neq; lia).
  assert (p = S (pred p)) as -> by lia.
  unfold step_op, advanceRecvOperation, attempt_local. subst o o'. simpl. rewrite He, Hst, Hl. simpl.
  rewrite Hw. simpl. rewrite Hnz. simpl. rewrite app_nil_r. split; [by rewrite !app_nil_r|]. split; simpl.
  - split; simpl; try done; try lia; [by split; [lia | eauto]].
  - lia.
  - done.
  - unfold op_at_rest. repeat (apply Forall_cons; split); [..|by apply Forall_nil]; simpl; by rewrite ?Hnz.
  - unfold calls, recv_owed. by rewrite omap_imap_none.
  - unfold recv_pend. simpl. rewrite app_nil_r, Nat2Z.id. unfold calls.
    rewrite (omap_imap_seq _ (fun _ => RecvChunk n)), Hlen by done.
    by rewrite (replicate_seq _ _ 0).
  - right. unfold flows. rewrite He, Hst. split_and!; [done | lia | | by unfold unstarted_if, recv_unstarted; rewrite He].
    unfold unstarted_if, recv_unstarted, all_chunks. rewrite He. simpl. rewrite Hl. unfold calls, chunks.
    rewrite (omap_imap_seq _ (fun i => mkPiece i (ptr + cutpoint len (numLanes_ l) i) (chunk_length len (numLanes_ l) i) n))
      by (intros; by rewrite Hlen). by rewrite Hlen.
  - intros Hx. by destruct (flow_if_chained _ Hx).
  - apply chunk_calls_all. done.
Qed.

Ltac mpt_good := split; simpl; [ lia | callback_tac | lia | first [done | by intros; lia] | done
  | first [done | by intros; left | by intros; right | by intros; congruence ] ].

Lemma mpt_send_local_ok : sends_local sends_side recvs_side key links_ok plain.
Proof.
  intros e l ns Hval. unfold sends_side. simpl. split.
  - repeat constructor; intros o o' evs Ho.
    + unfold callSendCallback in Ho. inv_bind Ho. by apply done_inj in Ho as [= <- _].
    + unfold writeChunks in Ho. by eapply write_lanes_seq.
    + unfold callSendCallback in Ho. inv_bind Ho. by apply done_inj in Ho as [= <- _].
  - intros p [n s num ptr len f] [Hs Hf Hn Hid Hreq Hea]. simpl in *. apply is_Some_iff in Hf.
    assert (s = 0 \/ s = 1 \/ s = 2)%nat as Hs' by lia.
    destruct (decide (s = 0%nat /\ is_error e = false /\ state_ l = ESTABLISHED /\ (len =? 0) = false /\ p <> 0%nat))
      as [(-> & He & Hest & Hl & Hp)|Hno].
    { destruct Hf as [(g & -> & _)|[_ Hf]]; [|lia]. rewrite Hid by done. eexists. by apply mpt_send_start_step. }
    destruct (is_error e) eqn:He; [|destruct (bool_decide (state_ l = ESTABLISHED)) eqn:Hest;
      [apply bool_decide_eq_true in Hest as Hest' | apply bool_decide_eq_false in Hest as Hest']];
      destruct Hs' as [-> | [-> | ->]], Hf as [(g & -> & Hf)|[-> Hf]]; try lia; try (rewrite Hid in * by lia; clear Hid);
      destruct (num =? 0) eqn:Hnum; try (apply Z.eqb_eq in Hnum as ->); try done;
      destruct (len =? 0) eqn:Hl; try (apply Z.eqb_eq in Hl as ->); destruct p as [|p];
      try (exfalso; apply Hno; by split_and!); clear Hno;
      try (exfalso; destruct (Hea eq_refl Hest') as [?|[? ?]]; lia);
      unfold unstarted_if, send_unstarted, all_chunks, flows, sends_only, step_op, attempt_local, send_owed, send_pend;
      simpl; rewrite ?He, ?Hest; simpl; rewrite ?Hl, ?Hnum; simpl; rewrite ?Hnum; simpl.
    all: local_step mpt_good.
  - intros [n s num ptr len f] [Hs Hf Hn Hid Hreq Hea] Ho. simpl in *. subst s. apply is_Some_iff in Hf.
    destruct Hf as [(g & -> & Hf)|[-> _]]; [lia|]. unfold unstarted_if, send_unstarted, send_pend. simpl.
    rewrite Hid by lia. by destruct (is_error e).
  - repeat constructor.
  - intros Hfl%flow_if_flowing p o [Hs Hf Hn Hid Hreq Hea] Hr Hp. unfold flows in Hfl. apply andb_prop in Hfl as [He Hest].
    apply negb_true_iff in He. simpl in *.
    destruct (Nat.eq_dec (so_state o) 0) as [H0|]; [|lia]. exfalso. unfold op_at_rest, advanceSendOperation in Hr.
    rewrite !Forall_cons in Hr. destruct Hr as (Hr1 & Hr2 & _). simpl in *. rewrite H0, He, Hest in Hr2. simpl in Hr2.
    by destruct p; [lia|].
  - intros o _ Ho. unfold unstarted_if, send_unstarted. simpl in *. destruct (so_state o); [lia|]. by destruct (is_error e).
  - simpl. lia.
  - unfold flows. intros Hfl%flow_if_flowing. apply andb_prop in Hfl as [He _]. left. by apply negb_true_iff in He.
Qed.

Lemma mpt_recv_local_ok : recvs_local sends_side recvs_side key links_ok plain.
Proof.
  intros e l ns Hval. unfold recvs_side. simpl. split.
  - repeat constructor; intros o o' evs Ho.
    + unfold callRecvCallback in Ho. inv_bind Ho. by apply done_inj in Ho as [= <- _].
    + unfold readChunks in Ho. by eapply read_lanes_seq.
    + unfold callRecvCallback in Ho. inv_bind Ho. by apply done_inj in Ho as [= <- _].
  - intros p [n s num ptr len f] [Hs Hf Hn Hid Hreq Hea]. simpl in *. apply is_Some_iff in Hf.
    assert (s = 0 \/ s = 1 \/ s = 2)%nat as Hs' by lia.
    destruct (decide (s = 0%nat /\ is_error e = false /\ state_ l = ESTABLISHED /\ (len =? 0) = false /\ p <> 0%nat))
      as [(-> & He & Hest & Hl & Hp)|Hno].
    { destruct Hf as [(g & -> & _)|[_ Hf]]; [|lia]. rewrite Hid by done. eexists. by apply mpt_recv_start_step. }
    destruct (is_error e) eqn:He; [|destruct (bool_decide (state_ l = ESTABLISHED)) eqn:Hest;
      [apply bool_decide_eq_true in Hest as Hest' | apply bool_decide_eq_false in Hest as Hest']];
      destruct Hs' as [-> | [-> | ->]], Hf as [(g & -> & Hf)|[-> Hf]]; try lia; try (rewrite Hid in * by lia; clear Hid);
      destruct (num =? 0) eqn:Hnum; try (apply Z.eqb_eq in Hnum as ->); try done;
      destruct (len =? 0) eqn:Hl; try (apply Z.eqb_eq in Hl as ->); destruct p as [|p];
      try (exfalso; apply Hno; by split_and!); clear Hno;
      try (exfalso; destruct (Hea eq_refl Hest') as [?|[? ?]]; lia);
      unfold unstarted_if, recv_unstarted, all_chunks, flows, recvs_only, step_op, attempt_local, recv_owed, recv_pend;
      simpl; rewrite ?He, ?Hest; simpl; rewrite ?Hl, ?Hnum; simpl; rewrite ?Hnum; simpl.
    all: local_step mpt_good.
  - intros [n s num ptr len f] [Hs Hf Hn Hid Hreq Hea] Ho. simpl in *. subst s. apply is_Some_iff in Hf.
    destruct Hf as [(g & -> & Hf)|[-> _]]; [lia|]. unfold unstarted_if, recv_unstarted, recv_pend. simpl.
    rewrite Hid by lia. by destruct (is_error e).
  - repeat constructor.
  - intros Hfl%flow_if_flowing p o [Hs Hf Hn Hid Hreq Hea] Hr Hp. unfold flows in Hfl. apply andb_prop in Hfl as [He Hest].
    apply negb_true_iff in He. simpl in *.
    destruct (Nat.eq_dec (ro_state o) 0) as [H0|]; [|lia]. exfalso. unfold op_at_rest, advanceRecvOperation in Hr.
    rewrite !Forall_cons in Hr. destruct Hr as (Hr1 & Hr2 & _). simpl in *. rewrite H0, He, Hest in Hr2. simpl in Hr2.
    by destruct p; [lia|].
  - intros o _ Ho. unfold unstarted_if, recv_unstarted. simpl in *. destruct (ro_state o); [lia|]. by destruct (is_error e).
  - simpl. lia.
  - unfold flows. intros Hfl%flow_if_flowing. apply andb_prop in Hfl as [He _]. left. by apply negb_true_iff in He.
Qed.

(** ** The channel *)

Definition hello_of (k : cb) : option unit := match k with CbHelloRead => Some tt | _ => None end.
Definition lane_of (k : cb) : option nat := match k with CbLane i => Some i | _ => None end.

(** The callbacks that set the channel up are those its state is waiting for. *)
Record mpt_extra (e : Error) (cur : option cb) (out : list cb) (l : Links) : Prop := {
  mx_links : links_ok l;
  mx_hello : is_error e = false ->
    omap hello_of (option_list cur ++ out) ≡ₚ if decide (state_ l = CLIENT_READING_HELLO) then [tt] else [];
  mx_lanes : is_error e = false -> omap lane_of (option_list cur ++ out) ≡ₚ (map_to_list (laneRegistrationIds_ l)).*1;
  mx_begun : is_error e = false -> state_ l <> CH_UNINITIALIZED;
  mx_registered : is_error e = false -> laneRegistrationIds_ l <> ∅ <-> state_ l = SERVER_ACCEPTING_LANES;
  mx_count : is_error e = false ->
    numLanesBeingAccepted_ l = Z.of_nat (size (laneRegistrationIds_ l)) /\ Z.of_nat (size (laneRegistrationIds_ l)) < 2 ^ 63;
  mx_accepted : is_error e = false -> state_ l = SERVER_ACCEPTING_LANES ->
    forall i, (i < numLanes_ l)%nat -> laneRegistrationIds_ l !! i = None -> exists c, lanes_ l !! i = Some (Some c);
}.

Definition mpt_inv := sides_inv sends_side recvs_side key mpt_extra.
Definition mpt_view : chan_view ChannelImpl Packet cb := sides_view sends_side recvs_side.

Lemma plain_setup evs : Forall plain evs -> omap hello_of (omap cb_of evs) = [] /\ omap lane_of (omap cb_of evs) = [].
Proof.
  intros Hp. induction Hp as [|c evs Hc _ [IH1 IH2]]; [done|]. unfold plain in Hc. simpl.
  destruct (cb_of c) as [[]|]; simpl; try done; by rewrite ?IH1, ?IH2.
Qed.

(** The same callbacks are outstanding, as far as setting up is concerned. *)
Lemma mpt_extra_same e cur out cur' out' l :
  mpt_extra e cur out l ->
  omap hello_of (option_list cur' ++ out') ≡ₚ omap hello_of (option_list cur ++ out) ->
  omap lane_of (option_list cur' ++ out') ≡ₚ omap lane_of (option_list cur ++ out) ->
  mpt_extra e cur' out' l.
Proof.
  intros [X1 X2 X3 X4 X5 X6 X7] Hh Hl. split; try done.
  - intros He. by rewrite Hh, X2.
  - intros He. by rewrite Hl, X3.
Qed.

Lemma requested_snoc reqs a seq ptr len : requested reqs seq ptr len -> requested (reqs ++ [a]) seq ptr len.
Proof. unfold requested. intros Hr. by rewrite lookup_app_l by (by eapply lookup_lt_Some). Qed.

Lemma unskipped_snoc e l reqs a : unskipped e l (reqs ++ [a]) -> unskipped e l reqs.
Proof. intros [?|[?|Hr]]; [by left | by right; left | right; right]. by apply Forall_app in Hr as [? _]. Qed.

Lemma mpt_laws : sides_laws sends_side recvs_side key links_ok plain mpt_extra.
Proof.
  split.
  - apply mpt_send_local_ok.
  - apply mpt_recv_local_ok.
  - intros e cur out l evs Hx Hp. destruct (plain_setup _ Hp) as [H1 H2].
    apply (mpt_extra_same e cur out); [done|..]; unfold outstanding; by rewrite app_assoc, (omap_app _ (_ ++ _)), ?H1, ?H2, app_nil_r.
  - intros e k out l Hx Hk. apply (mpt_extra_same e (Some k) out); [done|..]; simpl; destruct k; simpl; try done;
      by apply is_Some_None in Hk.
  - by intros e cur out l [].
  - intros e l ns a o [S1 S2 S3 S4 S5 S6]. split; try done. by apply requested_snoc.
  - intros e l nr a o [S1 S2 S3 S4 S5 S6]. split; try done. by apply requested_snoc.
  - intros e l _. apply flow_if_chained.
  - intros e l _. apply flow_if_chained.
  - intros e0 e l ns o He [S1 S2 S3 S4 S5 S6]. split; try done. congruence.
  - intros e0 e l ns o He [S1 S2 S3 S4 S5 S6]. split; try done. congruence.
  - intros e l ns a. apply unskipped_snoc.
  - intros e l nr a. apply unskipped_snoc.
Qed.

(** An error does not let the first operation finish, once there are lanes; and
    before that no operation is finished, unless its tensor is empty. *)
Lemma mpt_send_front_ok e l ns ops :
  all_at_rest (advanceSendOperation kSuccess l) True ops -> Forall (send_good kSuccess l ns) ops -> unskipped e l ns ->
  is_error e = true -> front_ok (advanceSendOperation e l) ops.
Proof.
  intros Hr Hg Hu He. destruct (decide (state_ l = ESTABLISHED)) as [Hest|Hest].
  - destruct ops as [|o ops]; [done|]. left. specialize (Hr I 0%nat o eq_refl I).
    unfold op_at_rest, advanceSendOperation in *. rewrite !Forall_cons in *. destruct Hr as (Hr1 & Hr2 & Hr3 & _). simpl in *.
    rewrite bool_decide_eq_true_2 in * by done.
    destruct (so_state o) as [|[|s]]; [done | split_and!; [done..| |constructor] | split_and!; [done..|constructor]]. done.
  - destruct ops as [|o ops]; [done|]. right. left. eapply Forall_impl; [exact Hg|]. simpl. intros q Hq.
    destruct Hu as [Hu|[Hu|Hu]]; [congruence | done|]. pose proof (sg_early _ _ _ _ Hq eq_refl Hest) as [Hs|[_ Hz]].
    + rewrite Hs. done.
    + by destruct (proj1 (Forall_forall _ _) Hu _ (list_elem_of_lookup_2 _ _ _ (sg_request _ _ _ _ Hq))).
Qed.

(** When the lanes are there, the first operation writes its chunks, and waits. *)
Lemma mpt_send_establish_front l l' ns ops :
  all_at_rest (advanceSendOperation kSuccess l) True ops -> Forall (send_good kSuccess l ns) ops -> settled ops ->
  state_ l <> ESTABLISHED -> state_ l' = ESTABLISHED -> links_ok l' -> front_ok (advanceSendOperation kSuccess l') ops.
Proof.
  intros Hr Hg Hs Hst Hst' Hl'. destruct ops as [|o ops]; [done|]. right. right. specialize (Hr I 0%nat o eq_refl I).
  apply Forall_cons in Hg as [[S1 S2 S3 S4 S5 S6] _]. destruct (S6 eq_refl Hst) as [H0|[H2 _]]; [|done].
  unfold op_at_rest, advanceSendOperation in Hr. rewrite !Forall_cons in Hr. destruct Hr as (Hr & _). simpl in Hr.
  rewrite H0 in *. simpl in Hr. destruct o as [n s num ptr len f]. simpl in *. subst s.
  destruct (proj2 S2) as [g ->]; [lia|]. rewrite S4 by done.
  destruct (mpt_send_start_step kSuccess l' ns n OP_FINISHED len ptr g) as (evs & Hrun & _); try done.
  intros o' evs' Ho. simpl in Ho. simpl in Hrun. rewrite Hrun in Ho. by apply done_inj in Ho as [= <- _].
Qed.

Lemma mpt_send_takes it :
  takes sends_side it (SendChunk it) (fun op => op <| so_numChunksBeingWritten := s64 (so_numChunksBeingWritten op - 1) |>).
Proof.
  intros e l reqs o [S1 S2 S3 S4 S5 S6] Ho. simpl in *. unfold send_pend in Ho.
  destruct (Z.to_nat (so_numChunksBeingWritten o)) as [|n] eqn:Hn; [by apply not_elem_of_nil in Ho|].
  apply elem_of_replicate in Ho as [[= ->] _].
  assert (so_state o = 1%nat) as H1 by (destruct (decide (so_state o = WRITING_CHUNKS)); [done | rewrite S4 in Hn by done; done]).
  rewrite s64_small by lia. split_and!; try done.
  - split; simpl; first [done | lia].
  - unfold send_pend. simpl. rewrite Hn. replace (Z.to_nat (so_numChunksBeingWritten o - 1)) with n by lia. done.
Qed.

Lemma mpt_send_pend_kind o b : b ∈ send_pend o -> exists it, b = SendChunk it.
Proof. unfold send_pend. intros [-> _]%elem_of_replicate. eauto. Qed.

(** An error does not let the first operation finish, once there are lanes; and
    before that no operation is finished, unless its tensor is empty. *)
Lemma mpt_recv_front_ok e l ns ops :
  all_at_rest (advanceRecvOperation kSuccess l) True ops -> Forall (recv_good kSuccess l ns) ops -> unskipped e l ns ->
  is_error e = true -> front_ok (advanceRecvOperation e l) ops.
Proof.
  intros Hr Hg Hu He. destruct (decide (state_ l = ESTABLISHED)) as [Hest|Hest].
  - destruct ops as [|o ops]; [done|]. left. specialize (Hr I 0%nat o eq_refl I).
    unfold op_at_rest, advanceRecvOperation in *. rewrite !Forall_cons in *. destruct Hr as (Hr1 & Hr2 & Hr3 & _). simpl in *.
    rewrite bool_decide_eq_true_2 in * by done.
    destruct (ro_state o) as [|[|s]]; [done | split_and!; [done..| |constructor] | split_and!; [done..|constructor]]. done.
  - destruct ops as [|o ops]; [done|]. right. left. eapply Forall_impl; [exact Hg|]. simpl. intros q Hq.
    destruct Hu as [Hu|[Hu|Hu]]; [congruence | done|]. pose proof (rg_early _ _ _ _ Hq eq_refl Hest) as [Hs|[_ Hz]].
    + rewrite Hs. done.
    + by destruct (proj1 (Forall_forall _ _) Hu _ (list_elem_of_lookup_2 _ _ _ (rg_request _ _ _ _ Hq))).
Qed.

(** When the lanes are there, the first operation writes its chunks, and waits. *)
Lemma mpt_recv_establish_front l l' ns ops :
  all_at_rest (advanceRecvOperation kSuccess l) True ops -> Forall (recv_good kSuccess l ns) ops -> settled ops ->
  state_ l <> ESTABLISHED -> state_ l' = ESTABLISHED -> links_ok l' -> front_ok (advanceRecvOperation kSuccess l') ops.
Proof.
  intros Hr Hg Hs Hst Hst' Hl'. destruct ops as [|o ops]; [done|]. right. right. specialize (Hr I 0%nat o eq_refl I).
  apply Forall_cons in Hg as [[S1 S2 S3 S4 S5 S6] _]. destruct (S6 eq_refl Hst) as [H0|[H2 _]]; [|done].
  unfold op_at_rest, advanceRecvOperation in Hr. rewrite !Forall_cons in Hr. destruct Hr as (Hr & _). simpl in Hr.
  rewrite H0 in *. simpl in Hr. destruct o as [n s num ptr len f]. simpl in *. subst s.
  destruct (proj2 S2) as [g ->]; [lia|]. rewrite S4 by done.
  destruct (mpt_recv_start_step kSuccess l' ns n OP_FINISHED len ptr g) as (evs & Hrun & _); try done.
  intros o' evs' Ho. simpl in Ho. simpl in Hrun. rewrite Hrun in Ho. by apply done_inj in Ho as [= <- _].
Qed.

Lemma mpt_recv_takes it :
  takes recvs_side it (RecvChunk it) (fun op => op <| ro_numChunksBeingRead := s64 (ro_numChunksBeingRead op - 1) |>).
Proof.
  intros e l reqs o [S1 S2 S3 S4 S5 S6] Ho. simpl in *. unfold recv_pend in Ho.
  destruct (Z.to_nat (ro_numChunksBeingRead o)) as [|n] eqn:Hn; [by apply not_elem_of_nil in Ho|].
  apply elem_of_replicate in Ho as [[= ->] _].
  assert (ro_state o = 1%nat) as H1 by (destruct (decide (ro_state o = READING_CHUNKS)); [done | rewrite S4 in Hn by done; done]).
  rewrite s64_small by lia. split_and!; try done.
  - split; simpl; first [done | lia].
  - unfold recv_pend. simpl. rewrite Hn. replace (Z.to_nat (ro_numChunksBeingRead o - 1)) with n by lia. done.
Qed.

Lemma mpt_recv_pend_kind o b : b ∈ recv_pend o -> exists it, b = RecvChunk it.
Proof. unfold recv_pend. intros [-> _]%elem_of_replicate. eauto. Qed.

Lemma mpt_send ns nr out ptr len f c :
  mpt_inv kSuccess ns nr None out c -> Z.of_nat (length ns) + 1 < 2 ^ 63 ->
  wp (sendImplFromLoop kSuccess (Z.of_nat (length ns)) ptr len f c) (fun _ => False)
     (chan_post mpt_view mpt_inv kSuccess (ns ++ [(ptr, len)]) nr None out [f] []
        (all_chunks (links_ c) (Z.of_nat (length ns)) (ptr, len)) [] c).
Proof.
  intros Hi Hb. unfold sendImplFromLoop. change (sends kSuccess c) with (send_table sends_side kSuccess c).
  refine (sides_send _ _ _ _ _ _ mpt_laws kSuccess ns nr out _ (newSendOperation (Z.of_nat (length ns)))
    (fun op => op <| so_ptr := ptr |> <| so_length := len |> <| so_callback := Some f |>) (ptr, len) c Hi eq_refl eq_refl Hb _ eq_refl eq_refl _ eq_refl); [|simpl; lia].
  split; simpl; [lia | callback_tac | lia | done | unfold requested; by rewrite Nat2Z.id, lookup_app_r, Nat.sub_diag by lia | by left].
Qed.

Lemma mpt_recv ns nr out ptr len f c :
  mpt_inv kSuccess ns nr None out c -> Z.of_nat (length nr) + 1 < 2 ^ 63 ->
  wp (recvImplFromLoop kSuccess (Z.of_nat (length nr)) ptr len f c) (fun _ => False)
     (chan_post mpt_view mpt_inv kSuccess ns (nr ++ [(ptr, len)]) None out [] [f] []
        (all_chunks (links_ c) (Z.of_nat (length nr)) (ptr, len)) c).
Proof.
  intros Hi Hb. unfold recvImplFromLoop. change (recvs kSuccess c) with (recv_table recvs_side kSuccess c).
  refine (sides_recv _ _ _ _ _ _ mpt_laws kSuccess ns nr out _ (newRecvOperation (Z.of_nat (length nr)))
    (fun op => op <| ro_ptr := ptr |> <| ro_length := len |> <| ro_callback := Some f |>) (ptr, len) c Hi eq_refl eq_refl Hb _ eq_refl eq_refl _ eq_refl); [|simpl; lia].
  split; simpl; [lia | callback_tac | lia | done | unfold requested; by rewrite Nat2Z.id, lookup_app_r, Nat.sub_diag by lia | by left].
Qed.

Lemma mpt_chunk_written e ns nr out it i c :
  mpt_inv e ns nr (Some (CbChunkWritten it i)) out c ->
  wp (onChunkWritten e it c) (fun _ => False) (chan_post mpt_view mpt_inv e ns nr None out [] [] [] [] c).
Proof.
  intros Hi. unfold onChunkWritten. change (sends e c) with (send_table sends_side e c).
  refine (sides_sent _ _ _ _ _ _ mpt_laws e ns nr out it (CbChunkWritten it i) (SendChunk it) _ c Hi eq_refl _ (mpt_send_takes it)).
  intros o Ho. by destruct (mpt_recv_pend_kind _ _ Ho).
Qed.

Lemma mpt_chunk_read e ns nr out it i c :
  mpt_inv e ns nr (Some (CbChunkRead it i)) out c ->
  wp (onChunkRead e it c) (fun _ => False) (chan_post mpt_view mpt_inv e ns nr None out [] [] [] [] c).
Proof.
  intros Hi. unfold onChunkRead. change (recvs e c) with (recv_table recvs_side e c).
  refine (sides_received _ _ _ _ _ _ mpt_laws e ns nr out it (CbChunkRead it i) (RecvChunk it) _ c Hi eq_refl _ (mpt_recv_takes it)).
  intros o Ho. by destruct (mpt_send_pend_kind _ _ Ho).
Qed.

(** ** Setting up *)

Local Abbreviation quiet_setup evs := (omap hello_of (omap cb_of evs) = [] /\ omap lane_of (omap cb_of evs) = []).

Lemma send_good_established l l' ns o : send_good kSuccess l ns o -> state_ l' = ESTABLISHED -> send_good kSuccess l' ns o.
Proof. intros [S1 S2 S3 S4 S5 S6] Hst. by split. Qed.
Lemma recv_good_established l l' nr o : recv_good kSuccess l nr o -> state_ l' = ESTABLISHED -> recv_good kSuccess l' nr o.
Proof. intros [S1 S2 S3 S4 S5 S6] Hst. by split. Qed.

Lemma unstarted_same l l' :
  numLanes_ l' = numLanes_ l ->
  all_chunks l' = all_chunks l /\ send_unstarted l' = send_unstarted l /\ recv_unstarted l' = recv_unstarted l.
Proof. intros Hn. unfold send_unstarted, recv_unstarted, all_chunks. by rewrite Hn. Qed.

(** The lanes are there: all operations are advanced. *)
Lemma mpt_establish ns nr k out c l' pre :
  mpt_inv kSuccess ns nr (Some k) out c -> key k = None -> state_ (links_ c) <> ESTABLISHED ->
  state_ l' = ESTABLISHED -> links_ok l' -> numLanes_ l' = numLanes_ (links_ c) ->
  laneRegistrationIds_ l' = ∅ -> numLanesBeingAccepted_ l' = 0 ->
  Forall (silent sends_side recvs_side key) pre -> quiet_setup pre ->
  omap hello_of out = [] -> omap lane_of out = [] ->
  exists c' calls, advance_both kSuccess (c <| links_ := l' |>) = Done (c', calls) /\
    chan_post mpt_view mpt_inv kSuccess ns nr None out [] [] [] [] c (c', pre ++ calls).
Proof.
  intros [[(n & Hs & Hn) (m & Hr & Hm) Hp] Hsr Hrr Hx] Hk Hst Hst' Hl' Hnl Hreg Hnum Hpre [Hp1 Hp2] Ho1 Ho2.
  set (x := c <| links_ := l' |>). destruct (unstarted_same (links_ c) l' Hnl) as (Hu1 & Hu2 & Hu3).
  destruct (sides_advance_both _ _ _ _ _ _ mpt_laws kSuccess ns nr None None out pre [] c x)
    as (l1 & evs1 & l2 & evs2 & Hrun1 & Hrun2 & _ & Hpost); try done.
  - rewrite (unawaited key) in Hp by done. split; [exists n; split; [|done] | exists m; split; [|done] | done].
    + eapply (side_ok_mono _ _ _ _ _ _ _ Hs); [by intros Hc; destruct (flow_if_chained _ Hc)|]. intros o Ho. by eapply send_good_established.
    + eapply (side_ok_mono _ _ _ _ _ _ _ Hr); [by intros Hc; destruct (flow_if_chained _ Hc)|]. intros o Ho. by eapply recv_good_established.
  - intros _. destruct Hs as (first & [_ Hg Hset _] & _). simpl.
    apply (mpt_send_establish_front (links_ c) l' ns); try done. intros _. apply Hsr. by left.
  - intros _. destruct Hr as (first & [_ Hg Hset _] & _). simpl.
    apply (mpt_recv_establish_front (links_ c) l' nr); try done. intros _. apply Hrr. by left.
  - intros evs Hpl. destruct (plain_setup _ Hpl) as [E1 E2]. unfold outstanding. rewrite app_nil_r.
    split; simpl; try done; rewrite ?Hst', ?Hreg, ?Hnum, ?map_to_list_empty, ?omap_app, ?Hp1, ?Hp2, ?E1, ?E2, ?Ho1, ?Ho2; try done.
  - exists (put_ops l2 (put_ops l1 x)), (evs1 ++ evs2). split.
    + unfold advance_both. change (sends kSuccess x) with (send_table sends_side kSuccess x). rewrite Hrun1, bind_done. cbv beta iota.
      change (recvs kSuccess x) with (recv_table recvs_side kSuccess x). by rewrite Hrun2, bind_done.
    + by rewrite app_nil_r in Hpost.
Qed.

Lemma resize_self l : resize (length l) l = l.
Proof. unfold resize. by rewrite take_ge, Nat.sub_diag, app_nil_r. Qed.

Lemma connect_lanes_ok d ads todo : forall i lanes,
  length lanes = (i + todo)%nat -> length ads = (i + todo)%nat -> Forall is_Some (take i lanes) ->
  exists lanes' calls, connect_lanes d ads i todo lanes = Done (lanes', calls) /\
    length lanes' = (i + todo)%nat /\ Forall is_Some lanes' /\
    Forall (silent sends_side recvs_side key) calls /\ quiet_setup calls.
Proof.
  induction todo as [|todo IH]; intros i lanes Hl Ha Hs; cbn [connect_lanes].
  - exists lanes, []. split_and!; try done. rewrite Nat.add_0_r in Hl. by rewrite take_ge in Hs by lia.
  - destruct (lookup_lt_is_Some_2 ads i) as [ad Had]; [lia|]. rewrite Had. cbn [get]. rewrite bind_done.
    destruct (IH (S i) (<[i := Some (md_conn d i)]> lanes)) as (lanes' & calls & Hrun & Hl' & Hs' & Hc & H1 & H2).
    + rewrite length_insert. lia.
    + lia.
    + rewrite (take_S_r _ _ (Some (md_conn d i))) by (apply list_lookup_insert_eq; lia).
      rewrite take_insert_ge by done. apply Forall_app. split; [done|]. constructor; [by eexists | constructor].
    + exists lanes', ([CtxConnect i (la_address ad) (md_conn d i);
        ConnWriteNop (md_conn d i) (ClientHello (la_registrationId ad)) (CbClientHelloWritten i)] ++ calls).
      rewrite Hrun, bind_done. split_and!; try done; [lia|]. by repeat (constructor; [done|]).
Qed.

Lemma hello_pending e k out l :
  mpt_extra e (Some k) out l -> is_error e = false -> hello_of k = Some tt ->
  state_ l = CLIENT_READING_HELLO /\ omap hello_of out = [] /\ omap lane_of out = [] /\
  laneRegistrationIds_ l = ∅ /\ numLanesBeingAccepted_ l = 0.
Proof.
  intros [X1 X2 X3 X4 X5 X6 X7] He Hk. specialize (X2 He). specialize (X3 He). specialize (X5 He). destruct (X6 He) as [X6' _].
  simpl in X2, X3. rewrite Hk in X2. destruct (decide _) as [Hst|]; [|by apply Permutation_nil_r in X2].
  apply Permutation_singleton_r in X2. injection X2 as X2.
  assert (laneRegistrationIds_ l = ∅) as Hemp.
  { destruct (decide (laneRegistrationIds_ l = ∅)) as [|Hne]; [done|]. apply X5 in Hne. congruence. }
  split_and!; try done.
  - rewrite Hemp, map_to_list_empty in X3. destruct (lane_of k); [by apply Permutation_nil_r in X3|]. by apply Permutation_nil_r in X3.
  - by rewrite X6', Hemp, map_size_empty.
Qed.

Lemma mpt_client_hello ns nr out d ads c :
  mpt_inv kSuccess ns nr (Some CbHelloRead) out c -> md_packet d = ServerHello ads -> length ads = numLanes_ (links_ c) ->
  wp (onClientReadHelloOnConnection kSuccess d c) (fun _ => False) (chan_post mpt_view mpt_inv kSuccess ns nr None out [] [] [] [] c).
Proof.
  intros Hi Hd Ha. destruct (hello_pending kSuccess CbHelloRead out (links_ c) (si_extra _ _ _ _ _ _ _ _ _ _ Hi) eq_refl eq_refl)
    as (Hst & Ho1 & Ho2 & Hreg & Hnum).
  pose proof (mx_links _ _ _ _ (si_extra _ _ _ _ _ _ _ _ _ _ Hi)) as Hlk. destruct Hlk as (Hlen & Hpos & _).
  unfold onClientReadHelloOnConnection. rewrite Hd. rewrite <- Hlen at 2. rewrite resize_self.
  destruct (connect_lanes_ok d ads (numLanes_ (links_ c)) 0 (lanes_ (links_ c))) as (lanes & calls & Hrun & Hl & Hs & Hc & Hq);
    [done | done | constructor |].
  rewrite Hrun, bind_done. cbv beta iota.
  destruct (mpt_establish ns nr CbHelloRead out c (links_ c <| lanes_ := lanes |> <| state_ := ESTABLISHED |>) calls)
    as (c' & calls' & Hrun' & Hpost); try done; [by rewrite Hst|].
  rewrite Hrun', bind_done. done.
Qed.

Lemma send_rest_same e l l' o p :
  state_ l' = state_ l -> op_at_rest (advanceSendOperation e l) o p -> op_at_rest (advanceSendOperation e l') o p.
Proof. intros Hst. unfold op_at_rest, advanceSendOperation. rewrite !Forall_cons. simpl. by rewrite Hst. Qed.
Lemma recv_rest_same e l l' o p :
  state_ l' = state_ l -> op_at_rest (advanceRecvOperation e l) o p -> op_at_rest (advanceRecvOperation e l') o p.
Proof. intros Hst. unfold op_at_rest, advanceRecvOperation. rewrite !Forall_cons. simpl. by rewrite Hst. Qed.

Lemma send_good_same e l l' ns o : state_ l' = state_ l -> send_good e l ns o -> send_good e l' ns o.
Proof. intros Hst [S1 S2 S3 S4 S5 S6]. split; try done. by rewrite Hst. Qed.
Lemma recv_good_same e l l' nr o : state_ l' = state_ l -> recv_good e l nr o -> recv_good e l' nr o.
Proof. intros Hst [S1 S2 S3 S4 S5 S6]. split; try done. by rewrite Hst. Qed.

Lemma lane_pending i out l :
  mpt_extra kSuccess (Some (CbLane i)) out l ->
  state_ l = SERVER_ACCEPTING_LANES /\ omap hello_of out = [] /\
  exists token, laneRegistrationIds_ l !! i = Some token /\
    omap lane_of out ≡ₚ (map_to_list (delete i (laneRegistrationIds_ l))).*1 /\
    size (laneRegistrationIds_ l) = S (size (delete i (laneRegistrationIds_ l))).
Proof.
  intros [X1 X2 X3 X4 X5 X6 X7]. specialize (X2 eq_refl). specialize (X3 eq_refl). specialize (X5 eq_refl). simpl in X2, X3.
  assert (i ∈ (map_to_list (laneRegistrationIds_ l)).*1) as Hi by (rewrite <- X3; left).
  apply list_elem_of_fmap in Hi as ([j token] & -> & Hi). apply elem_of_map_to_list in Hi. simpl in *.
  assert (state_ l = SERVER_ACCEPTING_LANES) as Hst by (apply X5; intros He; by rewrite He in Hi).
  split_and!; [done | |].
  - rewrite Hst, decide_False in X2 by done. by apply Permutation_nil_r in X2.
  - exists token. split_and!; [done | |].
    + pose proof (fmap_Permutation fst _ _ (map_to_list_delete _ _ _ Hi)) as Hd.
      apply (Permutation_cons_inv (a := j)). etrans; [exact X3 | by symmetry].
    + rewrite map_size_delete, Hi. assert (size (laneRegistrationIds_ l) <> 0)%nat; [|lia].
      apply (map_size_ne_0_lookup_2 _ j). by exists token.
Qed.

(** Another lane was accepted, and the channel waits for more. *)
Lemma mpt_lane_more ns nr out i token c l' :
  mpt_inv kSuccess ns nr (Some (CbLane i)) out c ->
  state_ l' = state_ (links_ c) -> numLanes_ l' = numLanes_ (links_ c) -> mpt_extra kSuccess None out l' ->
  chan_post mpt_view mpt_inv kSuccess ns nr None out [] [] [] [] c (c <| links_ := l' |>, [CtxUnregister token]).
Proof.
  intros [[(n & Hs & Hn) (m & Hr & Hm) Hp] Hsr Hrr Hx] Hst Hnl Hx'.
  destruct (unstarted_same (links_ c) l' Hnl) as (Hu1 & Hu2 & Hu3).
  split; simpl; try done; unfold outstanding; simpl; rewrite ?app_nil_r.
  - split; [split; [exists n; split; [|done] | exists m; split; [|done] | done]|..]; try done.
    + eapply (side_ok_mono _ _ _ _ _ _ _ Hs); [by intros Hc; destruct (flow_if_chained _ Hc)|]. intros o Ho. by eapply send_good_same.
    + eapply (side_ok_mono _ _ _ _ _ _ _ Hr); [by intros Hc; destruct (flow_if_chained _ Hc)|]. intros o Ho. by eapply recv_good_same.
    + intros _ j o Ho _. apply (send_rest_same _ (links_ c)); [done|]. by apply (Hsr (or_introl eq_refl) j o Ho).
    + intros _ j o Ho _. apply (recv_rest_same _ (links_ c)); [done|]. by apply (Hrr (or_introl eq_refl) j o Ho).
  - intros _. change (sends_of (c <| links_ := l' |>)) with (sends_of c). change (recvs_of (c <| links_ := l' |>)) with (recvs_of c).
    by rewrite Hu2, Hu3.
Qed.

Lemma mpt_server_lane ns nr out i d c :
  mpt_inv kSuccess ns nr (Some (CbLane i)) out c -> is_Some (md_accepted d) ->
  wp (onServerAcceptOfLane kSuccess i d c) (fun _ => False) (chan_post mpt_view mpt_inv kSuccess ns nr None out [] [] [] [] c).
Proof.
  intros Hi [a Ha]. pose proof (si_extra _ _ _ _ _ _ _ _ _ _ Hi) as Hx.
  change (frame c) with (links_ c) in Hx. destruct (lane_pending _ _ _ Hx) as (Hst & Hh & token & Htok & Hlanes & Hsize).
  destruct Hx as [(Hlen & Hpos & _) _ _ _ X5 X6 X7]. destruct (X6 eq_refl) as [Hnum Hbound]. specialize (X7 eq_refl Hst).
  unfold onServerAcceptOfLane. rewrite Htok. cbn [get]. rewrite bind_done. cbv zeta. rewrite Ha, Hnum, Hsize in *.
  replace (u64 (Z.of_nat (S (size (delete i (laneRegistrationIds_ (links_ c))))) - 1))
    with (Z.of_nat (size (delete i (laneRegistrationIds_ (links_ c))))) by (rewrite u64_small by (unfold is_u64; lia); lia).
  set (l' := links_ c <| lanes_ := _ |> <| laneRegistrationIds_ := _ |> <| numLanesBeingAccepted_ := _ |>).
  assert (forall j, (j < numLanes_ (links_ c))%nat -> delete i (laneRegistrationIds_ (links_ c)) !! j = None ->
            exists a', lanes_ l' !! j = Some (Some a')) as Hacc.
  { intros j Hj Hd. simpl. destruct (decide (i = j)) as [->|Hne].
    - exists a. apply list_lookup_insert_eq. lia.
    - rewrite list_lookup_insert_ne by done. rewrite lookup_delete_ne in Hd by done. by apply X7. }
  destruct (numLanesBeingAccepted_ l' =? 0) eqn:Hz; simpl in Hz.
  - apply Z.eqb_eq in Hz. assert (delete i (laneRegistrationIds_ (links_ c)) = ∅) as Hemp by (apply map_size_empty_iff; lia).
    destruct (mpt_establish ns nr (CbLane i) out c (l' <| state_ := ESTABLISHED |>) [CtxUnregister token])
      as (c' & calls' & Hrun' & Hpost); try done.
    + by rewrite Hst.
    + split_and!; simpl; [by rewrite length_insert | lia | lia|]. intros _. apply Forall_lookup. intros j o Ho.
      destruct (Hacc j) as [a' Ha']; [|by rewrite Hemp|].
      * apply lookup_lt_Some in Ho. rewrite length_insert in Ho. lia.
      * simpl in Ha'. rewrite Ha' in Ho. injection Ho as <-. by eexists.
    + by repeat constructor.
    + rewrite Hemp, map_to_list_empty in Hlanes. by apply Permutation_nil_r in Hlanes.
    + rewrite Hrun', bind_done. done.
  - apply Z.eqb_neq in Hz. apply (mpt_lane_more ns nr out i token c l' Hi); [done | done|].
    split; simpl; try done; try (intros _).
    + split_and!; simpl; [by rewrite length_insert | lia | lia | by rewrite Hst].
    + by rewrite Hst, Hh.
    + by rewrite Hst.
    + rewrite Hst. split; [done|]. intros _ He. rewrite He, map_size_empty in Hz. done.
    + split; [done | lia].
Qed.

Lemma register_lanes_ok d todo : forall i l,
  (i + todo <= length (md_addresses d))%nat ->
  (forall j, (i <= j)%nat -> laneRegistrationIds_ l !! j = None) ->
  numLanesBeingAccepted_ l = Z.of_nat (size (laneRegistrationIds_ l)) ->
  Z.of_nat (size (laneRegistrationIds_ l)) + Z.of_nat todo < 2 ^ 63 ->
  exists R ads calls,
    register_lanes d i todo l =
      Done (l <| laneRegistrationIds_ := R |> <| numLanesBeingAccepted_ := Z.of_nat (size R) |>, ads, calls) /\
    (map_to_list R).*1 ≡ₚ seq i todo ++ (map_to_list (laneRegistrationIds_ l)).*1 /\
    size R = (size (laneRegistrationIds_ l) + todo)%nat /\ omap cb_of calls = CbLane <$> seq i todo /\
    Forall (silent sends_side recvs_side key) calls /\
    (forall j, is_Some (R !! j) <-> (i <= j < i + todo)%nat \/ is_Some (laneRegistrationIds_ l !! j)).
Proof.
  induction todo as [|todo IH]; intros i l Ha Hno Hnum Hb; cbn [register_lanes].
  - exists (laneRegistrationIds_ l), [], []. rewrite <- Hnum. rewrite Nat.add_0_r. split_and!; try done; [by destruct l|].
    intros j. split; [by right | intros [?|?]; [lia | done]].
  - destruct (lookup_lt_is_Some_2 (md_addresses d) i) as [a Had]; [lia|]. rewrite Had. cbn [get]. rewrite bind_done. cbv zeta.
    assert (laneRegistrationIds_ l !! i = None) as Hi by (by apply Hno).
    set (l1 := l <| laneRegistrationIds_ := _ |> <| numLanesBeingAccepted_ := _ |>).
    assert (size (laneRegistrationIds_ l1) = S (size (laneRegistrationIds_ l))) as Hsz by (simpl; by rewrite map_size_insert_None).
    destruct (IH (S i) l1) as (R & ads & calls & Hrun & H1 & H2 & H3 & H4 & H5).
    + lia.
    + intros j Hj. simpl. rewrite lookup_insert_ne by lia. apply Hno. lia.
    + rewrite Hsz. simpl. rewrite Hnum, u64_small by (unfold is_u64; lia). lia.
    + rewrite Hsz. lia.
    + exists R, (mkLaneAdvertisement a (md_token d i) :: ads), (CtxRegister i (md_token d i) (CbLane i) :: calls).
      rewrite Hrun, bind_done. split_and!; [done | | | | by constructor |].
      * rewrite H1. simpl. rewrite map_to_list_insert by done. simpl. solve_perm.
      * rewrite H2, Hsz. lia.
      * exact (f_equal (cons (CbLane i)) H3).
      * intros j. rewrite H5. simpl. destruct (decide (i = j)) as [->|Hne].
        -- rewrite lookup_insert_eq. split; [intros _; left; lia | right; by eexists].
        -- rewrite lookup_insert_ne by done. split; (intros [?|?]; [left; lia | by right]).
Qed.

Lemma omap_lanes i n : omap lane_of (CbLane <$> seq i n) = seq i n /\ omap hello_of (CbLane <$> seq i n) = [].
Proof. revert i. induction n as [|n IH]; intros i; [done|]. destruct (IH (S i)) as [H1 H2].
  split; [exact (f_equal (cons i) H1) | exact H2].
Qed.

Lemma silent_none (calls : list call) :
  Forall (silent sends_side recvs_side key) calls ->
  omap user_send calls = [] /\ omap user_recv calls = [] /\ omap send_start calls = [] /\ omap recv_start calls = [] /\
  omap key (omap cb_of calls) = [].
Proof.
  induction 1 as [|c calls (H1 & H2 & H3 & H4 & H5) _ (I1 & I2 & I3 & I4 & I5)]; [done|]. simpl in *.
  rewrite H1, H2, H3, H4. split_and!; try done. unfold awaited_of in H5. destruct (cb_of c); simpl; by rewrite ?H5.
Qed.

(** A channel that was just set up has no operations. *)
Lemma mpt_fresh e l calls :
  Forall (silent sends_side recvs_side key) calls ->
  mpt_extra e None (omap cb_of calls) l ->
  mpt_inv e [] [] None (omap cb_of calls) (mkChannelImpl l [] []).
Proof.
  intros Hc Hx. destruct (silent_none _ Hc) as (_ & _ & _ & _ & Hk). split; try done; try (by intros _ ? ?).
  split; [exists 0 | exists 0 | unfold awaited_cbs; simpl in *; by rewrite Hk];
    (split; [apply side_ok_nil | done]).
Qed.

Lemma mpt_init connection endpoint n d :
  0 < Z.of_nat n < 2 ^ 63 -> length (md_addresses d) = n ->
  wp (initImplFromLoop d (newChannelImpl connection endpoint n)) (fun _ => False)
    (chan_post mpt_view mpt_inv kSuccess [] [] None [] [] [] [] [] (newChannelImpl connection endpoint n)).
Proof.
  intros Hn Ha. unfold initImplFromLoop. destruct endpoint; simpl.
  - split; try done. apply (mpt_fresh kSuccess _ [CtxEnroll; ConnReadNop connection CbHelloRead]); [by repeat constructor|].
    split; simpl; try done. split_and!; simpl; [by rewrite length_replicate | lia | lia | done].
  - destruct (register_lanes_ok d n 0 (mkLinks connection kListen SERVER_ACCEPTING_LANES n 0 (replicate n None) ∅))
      as (R & ads & calls & Hrun & H1 & H2 & H3 & H4 & H5); simpl;
      [lia | intros; by rewrite lookup_empty | by rewrite map_size_empty | rewrite map_size_empty; lia |]. simpl in H1, H2.
    rewrite map_to_list_empty, app_nil_r in H1. rewrite map_size_empty in H2. simpl in H2.
    change (newChannelImpl connection kListen n) with (mkChannelImpl (mkLinks connection kListen CH_UNINITIALIZED n 0 (replicate n None) ∅) [] []).
    match goal with |- context [register_lanes d 0 n ?l] =>
      change l with (mkLinks connection kListen SERVER_ACCEPTING_LANES n 0 (replicate n None) ∅) end.
    rewrite Hrun, bind_done. cbv beta iota.
    set (evs := CtxEnroll :: calls ++ [_]).
    assert (omap cb_of evs = (CbLane <$> seq 0 n) ++ [CbHelloWritten]) as Hcb by (simpl; by rewrite omap_app, H3).
    assert (Forall (silent sends_side recvs_side key) evs) as Hsil by (constructor; [done|]; apply Forall_app; split; [done|]; by repeat constructor).
    destruct (omap_lanes 0 n) as [L1 L2]. destruct (silent_none _ Hsil) as (S1 & S2 & S3 & S4 & _).
    split; cbn [fst snd]; rewrite ?S1, ?S2; try done.
    + apply (mpt_fresh kSuccess _ evs); [done|]. rewrite Hcb. split; simpl; rewrite ?omap_app, ?L1, ?L2; simpl; try done; try (intros _).
      * split_and!; simpl; [by rewrite length_replicate | lia | lia | done].
      * by rewrite app_nil_r, H1.
      * split; [done|]. intros _ He. rewrite He, map_size_empty in H2. lia.
      * split; [done | lia].
      * intros _ i Hi Hr. exfalso. destruct (proj2 (H5 i)) as [? Hs]; [by left; lia | congruence].
    + intros _. cbn [mpt_view sides_view start_send start_recv sends_side recvs_side sd_start]. by rewrite S3, S4.
Qed.

Lemma mpt_error e ns nr cur out c :
  mpt_inv kSuccess ns nr cur out c -> is_error e = true ->
  wp (handleErrorImpl e c) (fun _ => False) (chan_post mpt_view mpt_inv e ns nr cur out [] [] [] [] c).
Proof.
  intros [Hs Hsr Hrr Hx] He. unfold handleErrorImpl, advance_both. change (sends e c) with (send_table sends_side e c).
  change (recvs e c) with (recv_table recvs_side e c).
  set (tail := ConnClose (connection_ (links_ c)) :: (ConnClose <$> omap id (lanes_ (links_ c))) ++
      ((fun p => CtxUnregister p.2) <$> map_to_list (laneRegistrationIds_ (links_ c))) ++ [CtxUnenroll] : list call).
  assert (Forall (silent sends_side recvs_side key) tail) as Ht.
  { constructor; [done|]. repeat apply Forall_app_2; [apply Forall_fmap; by apply Forall_true..|by repeat constructor]. }
  pose proof Hs as [(n & (first & [_ Hgs _] & _) & _) (m & (first' & [_ Hgr _] & _) & _) _].
  destruct (sides_advance_both _ _ _ _ _ _ mpt_laws e ns nr cur cur out [] tail c c)
    as (l1 & evs1 & l2 & evs2 & Hrun1 & Hrun2 & Hfr & Hpost); try done.
  - by eapply (sides_at_error _ _ _ _ _ _ mpt_laws).
  - intros Hu. apply (mpt_send_front_ok e (links_ c) ns); try done. intros _. apply Hsr. by left.
  - intros Hu. apply (mpt_recv_front_ok e (links_ c) nr); try done. intros _. apply Hrr. by left.
  - intros evs _. split; try congruence. apply Hx.
  - rewrite Hrun1, bind_done. cbv beta iota. rewrite Hrun2, bind_done. cbv beta iota.
    rewrite bind_done. cbv beta iota. exact Hpost.
Qed.

(** What the peer and the transports may deliver: a hello with an advertisement
    for each lane, and a connection for each lane. *)
Definition mpt_fits (c : ChannelImpl) (k : cb) (d : Data) : Prop :=
  match k with
  | CbHelloRead => exists ads, md_packet d = ServerHello ads /\ length ads = numLanes_ (links_ c)
  | CbLane _ => is_Some (md_accepted d)
  | _ => True
  end.

Lemma mpt_body e ns nr out k d c :
  mpt_inv e ns nr (Some k) out c -> (is_error e = false -> mpt_fits c k d) ->
  wp (callback_body e k d c) (fun _ => False) (chan_post mpt_view mpt_inv e ns nr None out [] [] [] [] c).
Proof.
  intros Hi Hd. pose proof (si_extra _ _ _ _ _ _ _ _ _ _ Hi) as Hx.
  assert (key k = None -> is_error e = true \/ hello_of k = None /\ lane_of k = None ->
    chan_post mpt_view mpt_inv e ns nr None out [] [] [] [] c (c, [])) as Hignore.
  { intros Hk Hno. apply (sides_ignored sends_side recvs_side key mpt_extra e ns nr k out c); [done | done|].
    destruct Hno as [He|[Hh Hl]].
    - split; try congruence. apply Hx.
    - apply (mpt_extra_same e (Some k) out); [done|..]; simpl; by rewrite ?Hh, ?Hl. }
  destruct k as [| |i|i|it i|it i]; cbn [callback_body].
  - destruct (is_error e) eqn:He; [apply Hignore; auto|]. apply no_error_success in He as ->.
    destruct (Hd eq_refl) as (ads & H1 & H2). by eapply mpt_client_hello.
  - apply Hignore; auto.
  - apply Hignore; auto.
  - destruct (is_error e) eqn:He; [apply Hignore; auto|]. apply no_error_success in He as ->.
    apply mpt_server_lane; [done | by apply Hd].
  - by eapply mpt_chunk_written.
  - by eapply mpt_chunk_read.
Qed.

#[export] Instance mpt_safe : ChannelSafe ChannelImpl Packet cb Data.
Proof.
  refine {|
    ch_inv := mpt_inv;
    ch_view := mpt_view;
    ch_fits := mpt_fits;
    ch_asks _ _ _ _ := True;
    ch_initial c d := exists connection endpoint n, c = newChannelImpl connection endpoint n /\
      0 < Z.of_nat n < 2 ^ 63 /\ length (md_addresses d) = n;
  |}.
  - intros c d (connection & endpoint & n & -> & Hn & Ha). split_and!; try done.
    + apply (mpt_fresh ChannelClosedError _ []); [constructor|]. split; try done.
      split_and!; simpl; [by rewrite length_replicate | lia | lia | done].
    + by apply mpt_init.
  - intros ns nr out ptr len f c Hi Hb _. by apply mpt_send.
  - intros ns nr out ptr len f c Hi Hb _. by apply mpt_recv.
  - intros e ns nr out a c Hi He. by apply (sides_skip _ _ _ _ _ _ mpt_laws).
  - intros e ns nr cur out c Hi He. by apply mpt_error.
  - intros e ns nr out i k c Hi Hk. apply sides_take; [done | done|].
    apply (mpt_extra_same e None out); [apply Hi|..]; cbn [option_list app];
      apply omap_Permutation; symmetry; by apply delete_Permutation.
  - intros e ns nr out k d c Hi Hd. by apply mpt_body.
Defined.

(** ** Nothing is left waiting *)

Lemma mpt_send_live : side_live sends_side.
Proof.
  intros e l reqs o [S1 S2 S3 S4 S5 S6] Hs Hr Hf. simpl in *. unfold op_at_rest, advanceSendOperation, send_pend, flows in *.
  rewrite !Forall_cons in Hr. destruct Hr as (H1 & H2 & H3 & _). simpl in *.
  destruct (so_state o) as [|[|[|s]]]; simpl in *; [| | done | lia].
  - destruct (is_error e), (bool_decide (state_ l = ESTABLISHED)); simpl in *; by destruct Hf.
  - apply Z.eqb_neq in H3. intros Hp%(f_equal length). rewrite length_replicate in Hp. simpl in Hp. lia.
Qed.

Lemma mpt_recv_live : side_live recvs_side.
Proof.
  intros e l reqs o [S1 S2 S3 S4 S5 S6] Hs Hr Hf. simpl in *. unfold op_at_rest, advanceRecvOperation, recv_pend, flows in *.
  rewrite !Forall_cons in Hr. destruct Hr as (H1 & H2 & H3 & _). simpl in *.
  destruct (ro_state o) as [|[|[|s]]]; simpl in *; [| | done | lia].
  - destruct (is_error e), (bool_decide (state_ l = ESTABLISHED)); simpl in *; by destruct Hf.
  - apply Z.eqb_neq in H3. intros Hp%(f_equal length). rewrite length_replicate in Hp. simpl in Hp. lia.
Qed.

(** The callbacks that operations wait for, and those that the lanes wait for
    unless there is an error. *)
Definition mpt_awaited (e : Error) (k : cb) : bool :=
  match k with
  | CbChunkWritten _ _ | CbChunkRead _ _ => true
  | CbHelloRead | CbLane _ => negb (is_error e)
  | CbHelloWritten | CbClientHelloWritten _ => false
  end.

(** Every callback is called, unless an error comes before there are lanes and
    some tensor is empty. *)
Definition mpt_live_ok (ns nr : list (Z * Z)) (c : ChannelImpl) : Prop :=
  state_ (links_ c) = ESTABLISHED \/ Forall (fun a => a.2 <> 0) ns /\ Forall (fun a => a.2 <> 0) nr.

Lemma mpt_quiet_ready e ns nr out c :
  mpt_inv e ns nr None out c -> Forall (fun k => mpt_awaited e k = false) out ->
  flow_if (flows e (links_ c)) <> Stopped \/ is_error e = true.
Proof.
  intros Hi Hq. unfold flows. destruct (is_error e) eqn:He; [by right|]. left. simpl.
  enough (state_ (links_ c) = ESTABLISHED) as Hest by by rewrite (bool_decide_eq_true_2 _ Hest).
  destruct (si_extra _ _ _ _ _ _ _ _ _ _ Hi) as [_ X2 X3 X4 X5 X6 _].
  specialize (X2 He). specialize (X3 He). specialize (X4 He). specialize (X5 He). simpl in X2, X3, X4, X5.
  assert (omap hello_of out = [] /\ omap lane_of out = []) as [H1 H2].
  { split; (apply omap_none; eapply Forall_impl; [exact Hq|]); intros []; simpl; by rewrite ?He. }
  rewrite H1 in X2. rewrite H2 in X3. destruct (state_ (links_ c)) eqn:Hst; [done | | |done]; exfalso.
  - by apply Permutation_nil_l in X2.
  - apply (proj2 X5); [done|]. apply Permutation_nil_l, eq_sym, fmap_nil_inv in X3. by apply map_to_list_empty_iff.
Qed.

#[export] Instance mpt_live : ChannelLive ChannelImpl Packet cb Data.
Proof.
  refine {| awaited := mpt_awaited; live_ok := mpt_live_ok |}. intros e ns nr out c Hi Hl Hq.
  pose proof (mpt_quiet_ready e ns nr out c Hi Hq) as Hf.
  assert (unskipped e (links_ c) ns /\ unskipped e (links_ c) nr) as [Hu1 Hu2].
  { destruct Hl as [Hl|[Hl1 Hl2]]; split; right; first [by left | by right]. }
  assert (Forall (fun k => key k = None) out) as Hq' by (eapply Forall_impl; [exact Hq|]; by intros []).
  edestruct (sides_quiet sends_side recvs_side key mpt_extra e ns nr out c mpt_send_live mpt_recv_live) as [HS HR];
    [exact Hu1 | exact Hu2 | exact Hf | exact Hf | exact Hi | exact Hq' |]. unfold sends_of, recvs_of in *. simpl in *. by rewrite HS, HR.
Defined.
