(* ===== verification/Registrations.v ===== *)
(** * Requests for connections

    A listener and the context of the mpt channel both keep a table of requests,
    numbered as they come: each waits for a connection whose first object names its
    number.  Here is the bookkeeping that the two share. *)

From S2P Require Import Prelude.

Section Table.
Context {Fn : Type}.
Implicit Types (regs : gmap Z Fn) (called withdrawn : list Z).

(** Of the requests numbered so far each is called, waiting or withdrawn; none
    waits after a failure. *)
Record requests_ok (next : Z) regs called withdrawn (failed : bool) : Prop := {
  rq_next : 0 <= next < 2 ^ 63;
  rq_ids : called ++ (map_to_list regs).*1 ++ withdrawn ≡ₚ seqZ 0 next;
  rq_failed : failed = true -> regs = ∅;
}.

Lemma requests_fresh next regs called withdrawn failed :
  requests_ok next regs called withdrawn failed -> regs !! next = None.
Proof.
  intros [Hn Hids _]. destruct (regs !! next) as [f|] eqn:Hf; [|done]. exfalso.
  assert (next ∈ seqZ 0 next) as Hin.
  { rewrite <- Hids. apply elem_of_app. right. apply elem_of_app. left. apply list_elem_of_fmap.
    exists (next, f). split; [done|]. by apply elem_of_map_to_list. }
  apply elem_of_seqZ in Hin. lia.
Qed.

Lemma seqZ_next next : 0 <= next -> seqZ 0 (next + 1) = seqZ 0 next ++ [next].
Proof. intros Hn. rewrite seqZ_app by lia. by rewrite Z.add_0_l. Qed.

(** A new request waits, or is called at once after a failure. *)
Lemma requests_insert f next regs called withdrawn :
  requests_ok next regs called withdrawn false -> next + 1 < 2 ^ 63 ->
  requests_ok (next + 1) (<[next := f]> regs) called withdrawn false.
Proof.
  intros Hi Hb. pose proof (requests_fresh _ _ _ _ _ Hi) as Hf. destruct Hi as [H1 H2 H3]. split; [lia | | done].
  rewrite map_to_list_insert by done. rewrite seqZ_next, <- H2 by lia. simpl. solve_perm.
Qed.

Lemma requests_refuse next regs called withdrawn :
  requests_ok next regs called withdrawn true -> next + 1 < 2 ^ 63 ->
  requests_ok (next + 1) regs (called ++ [next]) withdrawn true.
Proof. intros [H1 H2 H3] Hb. split; [lia | | done]. rewrite seqZ_next, <- H2 by lia. solve_perm. Qed.

Lemma requests_remove next regs called withdrawn failed id f :
  requests_ok next regs called withdrawn failed -> regs !! id = Some f ->
  called ++ id :: (map_to_list (delete id regs)).*1 ++ withdrawn ≡ₚ seqZ 0 next.
Proof.
  intros [_ H2 _] Hf. pose proof (fmap_Permutation fst _ _ (map_to_list_delete _ _ _ Hf)) as Hd. simpl in Hd.
  rewrite <- H2. apply Permutation_app_head. rewrite app_comm_cons. by apply Permutation_app_tail.
Qed.

Lemma requests_call next regs called withdrawn failed id f :
  requests_ok next regs called withdrawn failed -> regs !! id = Some f ->
  requests_ok next (delete id regs) (called ++ [id]) withdrawn failed.
Proof.
  intros Hi Hf. pose proof Hi as [H1 _ H3]. split; [done | |].
  - rewrite <- (requests_remove _ _ _ _ _ _ _ Hi Hf). solve_perm.
  - intros He. by rewrite H3, delete_empty.
Qed.

(** [erase] of a number that waits or not. *)
Definition erased (id : Z) regs : list Z := match regs !! id with Some _ => [id] | None => [] end.

Lemma requests_withdraw next regs called withdrawn failed id :
  requests_ok next regs called withdrawn failed ->
  requests_ok next (delete id regs) called (withdrawn ++ erased id regs) failed.
Proof.
  intros Hi. pose proof Hi as [H1 H2 H3]. unfold erased. split; [done | |].
  - destruct (regs !! id) as [f|] eqn:Hf; [|by rewrite delete_id, app_nil_r].
    rewrite <- (requests_remove _ _ _ _ _ _ _ Hi Hf). solve_perm.
  - intros He. by rewrite H3, delete_empty.
Qed.

(** After a failure all that wait are called. *)
Lemma requests_fail next regs called withdrawn failed :
  requests_ok next regs called withdrawn failed ->
  requests_ok next ∅ (called ++ (map_to_list regs).*1) withdrawn true.
Proof. intros [H1 H2 _]. split; [done | | done]. rewrite map_to_list_empty, <- H2. simpl. solve_perm. Qed.
End Table.
