(* ===== verification/MptContext.v ===== *)
(** * The context of the mpt channel

    Models [channel/mpt/context_impl.cc] with its base
    [channel/context_impl_boilerplate.h]: the context listens on every lane, reads the
    first object of each connection it accepts, and hands the connection to the
    channel whose request that object names.  The transports are parameters; the
    channels are objects that enroll themselves. *)

From stdpp Require Import pretty.
From S2P Require Import Prelude Enrollment Registrations ChannelBase MptChannel.

(** ** Data *)

(** A transport context and a transport listener, as far as they are asked. *)
Record Transport := mkTransport { tr_id : Z; tr_viable : bool; tr_domainDescriptor : string }.
Record LaneListener := mkLaneListener { ll_id : Z; ll_addr : string }.

(** Callbacks given to the transports. *)
Inductive cb :=
| CbLaneAccepted (laneIdx : nat)
| CbHelloRead (connection : Z).

Inductive call {Fn : Type} :=
| CallRequest (registrationId : Z) (f : Fn) (e : Error) (connection : option Z)
| Withdrawn (registrationId : Z)       (* a request erased by its channel *)
| LaneAccept (listener : Z) (k : cb)
| LaneClose (listener : Z)
| TransportConnect (transport : Z) (address : string)
| TransportClose (transport : Z)
| TransportJoin (transport : Z)
| LaneRead (connection : Z) (k : cb)
| LaneDrop (connection : Z).          (* [close] of a connection *)
Arguments call : clear implicits.

(** ** Domain descriptors *)

Definition generateDomainDescriptor (contexts : list Transport) : string :=
  (pretty (N.of_nat (length contexts)) +:+ String.concat "" ((fun c => ":" +:+ tr_domainDescriptor c) <$> contexts))%string.

Definition canCommunicateWithRemote (localDeviceDescriptor remoteDeviceDescriptor : string) : bool :=
  bool_decide (localDeviceDescriptor = remoteDeviceDescriptor).

(** Channels as this context sees them: closing one, if it is live, withdraws the
    requests that it made. *)
Class LaneClient (O : Type) := lc_withdraws : O -> list Z.

Section Context.
Context {Fn : Type}.      (* functions registered by channels *)
Context {O : Type} `{EnrolleeLaws O} `{!LaneClient O}.

Record ContextImpl := mkContextImpl {
  error_ : Error;
  deviceDescriptor_ : string;
  contexts_ : list Transport;
  listeners_ : list LaneListener;
  numLanes_ : nat;
  addresses_ : list string;
  nextConnectionRequestRegistrationId_ : Z;
  connectionsWaitingForHello_ : gset Z;
  connectionRequestRegistrations_ : gmap Z Fn;
  joined_ : bool;
  channelCounter_ : Z;
  channels_ : gset Z;
  channel_heap : gmap Z O;
}.
#[export] Instance eta_MptContext : Eta ContextImpl := fun c =>
  mkContextImpl (error_ c) (deviceDescriptor_ c) (contexts_ c) (listeners_ c) (numLanes_ c) (addresses_ c)
    (nextConnectionRequestRegistrationId_ c) (connectionsWaitingForHello_ c) (connectionRequestRegistrations_ c)
    (joined_ c) (channelCounter_ c) (channels_ c) (channel_heap c).

Local Abbreviation result := (outcome (ContextImpl * list (call Fn))).

(** ** Creation *)

Definition newContextImpl (contexts : list Transport) (listeners : list LaneListener) (deviceDescriptor : string) : outcome ContextImpl :=
  _ ← tp_check (length contexts =? length listeners)%nat;
  Done (mkContextImpl kSuccess deviceDescriptor contexts listeners (length contexts) (ll_addr <$> listeners) 0 ∅ ∅ false 0 ∅ ∅).

(** [None]: no context. *)
Definition create (contexts : list Transport) (listeners : list LaneListener) : outcome (option ContextImpl) :=
  if forallb tr_viable contexts then
    c ← newContextImpl contexts listeners (generateDomainDescriptor contexts); Done (Some c)
  else Done None.

Definition closed (c : ContextImpl) : bool := is_error (error_ c).

Definition createChannel (id : Z) (channel : O) (c : ContextImpl) : ContextImpl :=
  c <| channelCounter_ := u64 (channelCounter_ c + 1) |> <| channel_heap ::= insert id channel |>.

Definition channel_task (id : Z) (f : O -> outcome (O * list bool)) (c : ContextImpl) : outcome ContextImpl :=
  '(s, h) ← on_object id f (channels_ c, channel_heap c); Done (c <| channels_ := s |> <| channel_heap := h |>).

(** ** Requests of channels *)

Definition registerConnectionRequest (fn : Fn) (c : ContextImpl) : outcome (ContextImpl * Z * list (call Fn)) :=
  let registrationId := nextConnectionRequestRegistrationId_ c in
  let c := c <| nextConnectionRequestRegistrationId_ := u64 (registrationId + 1) |> in
  if is_error (error_ c) then Done (c, registrationId, [CallRequest registrationId fn (error_ c) None])
  else Done (c <| connectionRequestRegistrations_ :=
                    match connectionRequestRegistrations_ c !! registrationId with
                    | Some _ => connectionRequestRegistrations_ c
                    | None => <[registrationId := fn]> (connectionRequestRegistrations_ c)
                    end |>, registrationId, []).

Definition unregisterConnectionRequest (registrationId : Z) (c : ContextImpl) : ContextImpl * list (call Fn) :=
  (c <| connectionRequestRegistrations_ ::= delete registrationId |>,
   Withdrawn <$> erased registrationId (connectionRequestRegistrations_ c)).

Fixpoint unregister_all (ids : list Z) (c : ContextImpl) : ContextImpl * list (call Fn) :=
  match ids with
  | [] => (c, [])
  | id :: ids =>
      let '(c, calls1) := unregisterConnectionRequest id c in
      let '(c, calls2) := unregister_all ids c in
      (c, calls1 ++ calls2)
  end.

Definition connect (laneIdx : nat) (address : string) (c : ContextImpl) : result :=
  match contexts_ c !! laneIdx with
  | None => Throw ExDangling
  | Some context => Done (c, [TransportConnect (tr_id context) address])
  end.

(** ** Errors *)

(** [closeFromLoop] of a channel, with the requests that it withdraws. *)
Definition close_channel (id : Z) (c : ContextImpl) : result :=
  match channel_heap c !! id with
  | None => Throw ExDangling
  | Some o =>
      c ← channel_task id en_close c;
      Done (if decide (en_phase o = Live) then unregister_all (lc_withdraws o) c else (c, []))
  end.

Fixpoint close_channels (ids : list Z) (c : ContextImpl) : result :=
  match ids with
  | [] => Done (c, [])
  | id :: ids =>
      '(c, calls1) ← close_channel id c;
      '(c, calls2) ← close_channels ids c;
      Done (c, calls1 ++ calls2)
  end.

Definition handleErrorImpl (c : ContextImpl) : ContextImpl * list (call Fn) :=
  (c <| connectionRequestRegistrations_ := ∅ |> <| connectionsWaitingForHello_ := ∅ |>,
   ((fun p => CallRequest p.1 p.2 (error_ c) None) <$> map_to_list (connectionRequestRegistrations_ c)) ++
   (LaneDrop <$> elements (connectionsWaitingForHello_ c)) ++
   ((fun l => LaneClose (ll_id l)) <$> listeners_ c) ++
   ((fun x => TransportClose (tr_id x)) <$> contexts_ c)).

Definition handleError (c : ContextImpl) : result :=
  '(c, calls1) ← close_channels (elements (channels_ c)) c;
  let '(c, calls2) := handleErrorImpl c in
  Done (c, calls1 ++ calls2).

Definition setError (error : Error) (c : ContextImpl) : result :=
  if is_error (error_ c) || negb (is_error error) then Done (c, [])
  else handleError (c <| error_ := error |>).

Definition closeFromLoop (c : ContextImpl) : result := setError ContextClosedError c.

Definition joinImpl (c : ContextImpl) : list (call Fn) := (fun x => TransportJoin (tr_id x)) <$> contexts_ c.

(** What [join] does once the context is closed. *)
Definition join (c : ContextImpl) : ContextImpl * list (call Fn) :=
  if joined_ c then (c, []) else (c <| joined_ := true |>, joinImpl c).

(** ** Connections *)

Definition acceptLane (laneIdx : nat) (c : ContextImpl) : result :=
  match listeners_ c !! laneIdx with
  | None => Throw ExDangling
  | Some listener => Done (c, [LaneAccept (ll_id listener) (CbLaneAccepted laneIdx)])
  end.

Fixpoint accept_lanes (lanes : list nat) (c : ContextImpl) : result :=
  match lanes with
  | [] => Done (c, [])
  | laneIdx :: lanes =>
      '(c, calls1) ← acceptLane laneIdx c;
      '(c, calls2) ← accept_lanes lanes c;
      Done (c, calls1 ++ calls2)
  end.

Definition initImplFromLoop (c : ContextImpl) : result := accept_lanes (seq 0 (numLanes_ c)) c.

Definition initFromLoop (c : ContextImpl) : result :=
  _ ← tp_check (negb (is_error (error_ c))); initImplFromLoop c.

Definition onAcceptOfLane (connection : Z) (c : ContextImpl) : ContextImpl * list (call Fn) :=
  (c <| connectionsWaitingForHello_ ::= fun s => {[connection]} ∪ s |>, [LaneRead connection (CbHelloRead connection)]).

Definition onReadClientHelloOnLane (connection : Z) (nopPacketIn : Packet) (c : ContextImpl) : result :=
  match nopPacketIn with
  | ServerHello _ => Throw ExAssert
  | ClientHello registrationId =>
      match connectionRequestRegistrations_ c !! registrationId with
      | Some fn =>
          Done (c <| connectionRequestRegistrations_ ::= delete registrationId |>,
                [CallRequest registrationId fn kSuccess (Some connection)])
      | None => Done (c, [])
      end
  end.

(** What a transport passes to a callback: the connection accepted, or the object
    read. *)
Record Data := mkData { d_connection : Z; d_packet : Packet }.

Definition callback_body (k : cb) (d : Data) (c : ContextImpl) : result :=
  if is_error (error_ c) then Done (c, [])
  else match k with
  | CbLaneAccepted laneIdx =>
      let '(c, calls1) := onAcceptOfLane (d_connection d) c in
      '(c, calls2) ← acceptLane laneIdx c;
      Done (c, calls1 ++ calls2)
  | CbHelloRead connection =>
      let c := c <| connectionsWaitingForHello_ ::= fun s => s ∖ {[connection]} |> in
      onReadClientHelloOnLane connection (d_packet d) c
  end.

(** [CallbackWrapper::entryPointFromLoop]. *)
Definition entryPointFromLoop (k : cb) (e : Error) (d : Data) (c : ContextImpl) : result :=
  '(c, calls1) ← setError e c;
  '(c, calls2) ← callback_body k d c;
  Done (c, calls1 ++ calls2).
End Context.
Arguments ContextImpl : clear implicits.

(** ** The world of a context *)

(** [mw_hellos] are the first objects read, without an error. *)
Record MWorld (Fn O : Type) := mkMWorld {
  mw_context : ContextImpl Fn O;
  mw_out : list cb;
  mw_trace : list (call Fn);
  mw_hellos : list (Z * Packet);
}.
Arguments mkMWorld {Fn O}.
Arguments mw_context {Fn O}.
Arguments mw_out {Fn O}.
Arguments mw_trace {Fn O}.
Arguments mw_hellos {Fn O}.

Inductive mevent (Fn O : Type) :=
| EvCreate (id : Z) (channel : O)
| EvInit (id : Z)
| EvTask (id : Z) (channel : O) (calls : list bool)
| EvRegister (f : Fn)
| EvUnregister (registrationId : Z)
| EvConnect (laneIdx : nat) (address : string)
| EvClose
| EvJoin
| EvDeliver (i : nat) (e : Error) (d : Data).
Arguments EvCreate {Fn O}.
Arguments EvInit {Fn O}.
Arguments EvTask {Fn O}.
Arguments EvRegister {Fn O}.
Arguments EvUnregister {Fn O}.
Arguments EvConnect {Fn O}.
Arguments EvClose {Fn O}.
Arguments EvJoin {Fn O}.
Arguments EvDeliver {Fn O}.

Section World.
Context {Fn : Type}.
Context {O : Type} `{EnrolleeLaws O} `{!LaneClient O}.
Implicit Types (c : ContextImpl Fn O) (evs : list (call Fn)).

Definition cb_of (x : call Fn) : option cb := match x with LaneAccept _ k | LaneRead _ k => Some k | _ => None end.

Definition mw_after (w : MWorld Fn O) (out : list cb) (hellos : list (Z * Packet))
    (m : outcome (ContextImpl Fn O * list (call Fn))) : outcome (MWorld Fn O) :=
  r ← m; Done (mkMWorld r.1 (out ++ omap cb_of r.2) (mw_trace w ++ r.2) hellos).

(** The hello that a callback delivers, if the context has no error by then. *)
Definition hello_of (k : cb) (e : Error) (d : Data) c : list (Z * Packet) :=
  match k with
  | CbHelloRead conn => if is_error (error_ c) || is_error e then [] else [(conn, d_packet d)]
  | CbLaneAccepted _ => []
  end.

Definition mstep (w : MWorld Fn O) (ev : mevent Fn O) : outcome (MWorld Fn O) :=
  let c := mw_context w in
  let run := mw_after w (mw_out w) (mw_hellos w) in
  match ev with
  | EvCreate id o => run (Done (createChannel id o c, []))
  | EvInit id => run (c ← channel_task id (en_init (closed c)) c; Done (c, []))
  | EvTask id o bs => run (c ← channel_task id (fun _ => Done (o, bs)) c; Done (c, []))
  | EvRegister f => run ('(c, _, calls) ← registerConnectionRequest f c; Done (c, calls))
  | EvUnregister id => run (Done (unregisterConnectionRequest id c))
  | EvConnect laneIdx address => run (connect laneIdx address c)
  | EvClose => run (closeFromLoop c)
  | EvJoin => run (Done (join c))
  | EvDeliver i e d =>
      match mw_out w !! i with
      | None => Done w
      | Some k => mw_after w (delete i (mw_out w)) (mw_hellos w ++ hello_of k e d c) (entryPointFromLoop k e d c)
      end
  end.

(** What happened, in the trace. *)
Definition request_call (x : call Fn) : option (Z * (Error * option Z)) :=
  match x with CallRequest id _ e k => Some (id, (e, k)) | _ => None end.
Definition withdrawn (x : call Fn) : option Z := match x with Withdrawn id => Some id | _ => None end.
Definition conn_read (x : call Fn) : option Z := match x with LaneRead k _ => Some k | _ => None end.
Definition conn_dropped (x : call Fn) : option Z := match x with LaneDrop k => Some k | _ => None end.
Definition lane_closed (x : call Fn) : option Z := match x with LaneClose k => Some k | _ => None end.
Definition transport_closed (x : call Fn) : option Z := match x with TransportClose k => Some k | _ => None end.
Definition transport_joined (x : call Fn) : option Z := match x with TransportJoin k => Some k | _ => None end.

Definition granted (x : Z * (Error * option Z)) : option (Z * Z) :=
  match x with (id, (kSuccess, Some k)) => Some (id, k) | _ => None end.
Definition requested (h : Z * Packet) : option (Z * Z) :=
  match h with (k, ClientHello id) => Some (id, k) | _ => None end.
Definition accepting (k : cb) : option nat := match k with CbLaneAccepted laneIdx => Some laneIdx | _ => None end.
Definition reading (k : cb) : option Z := match k with CbHelloRead conn => Some conn | _ => None end.

(** What the environment promises: counters do not wrap; a transport does not accept
    the same connection twice; a first object is the hello of a client; channels
    follow the protocol of enrolled objects. *)
Definition mevent_ok (w : MWorld Fn O) (ev : mevent Fn O) : Prop :=
  let c := mw_context w in
  match ev with
  | EvCreate id o => channel_heap c !! id = None /\ en_ok o /\ en_phase o = New
  | EvInit id => exists o, channel_heap c !! id = Some o /\ en_phase o = New
  | EvTask id o' bs => exists o, channel_heap c !! id = Some o /\ en_phase o <> New /\ en_task o o' bs
  | EvRegister _ => nextConnectionRequestRegistrationId_ c + 1 < 2 ^ 63
  | EvConnect laneIdx _ => (laneIdx < numLanes_ c)%nat
  | EvUnregister _ | EvClose => True
  | EvJoin => closed c = true
  | EvDeliver i e d =>
      match mw_out w !! i with
      | Some (CbLaneAccepted _) => is_error e = true \/ d_connection d ∉ omap conn_read (mw_trace w)
      | Some (CbHelloRead _) => exists id, d_packet d = ClientHello id
      | None => False
      end
  end.

(** ** The invariant *)

Record channels_inv c : Prop := {
  mi_table : table_ok (channels_ c, channel_heap c);
  mi_live : closed c = true -> forall id o, channel_heap c !! id = Some o -> en_phase o <> Live;
}.

Record requests_inv c evs (hellos : list (Z * Packet)) : Prop := {
  mi_requests : requests_ok (nextConnectionRequestRegistrationId_ c) (connectionRequestRegistrations_ c)
    (omap request_call evs).*1 (omap withdrawn evs) (closed c);
  mi_granted : omap granted (omap request_call evs) `sublist_of` omap requested hellos;
}.

Record lanes_inv c (out : list cb) evs (hellos : list (Z * Packet)) : Prop := {
  mi_lanes : length (listeners_ c) = numLanes_ c /\ length (contexts_ c) = numLanes_ c;
  mi_accepting : closed c = false -> omap accepting out ≡ₚ seq 0 (numLanes_ c);
  mi_reading : closed c = false -> omap reading out ≡ₚ elements (connectionsWaitingForHello_ c);
  mi_waiting : closed c = true -> connectionsWaitingForHello_ c = ∅;
  mi_conns : omap conn_read evs ≡ₚ hellos.*1 ++ elements (connectionsWaitingForHello_ c) ++ omap conn_dropped evs;
  mi_closed : omap lane_closed evs = (if closed c then ll_id <$> listeners_ c else []) /\
              omap transport_closed evs = if closed c then tr_id <$> contexts_ c else [];
  mi_joined : omap transport_joined evs = (if joined_ c then tr_id <$> contexts_ c else []) /\
              (joined_ c = true -> closed c = true);
}.

Record minv c (out : list cb) evs (hellos : list (Z * Packet)) : Prop := {
  mo_channels : channels_inv c;
  mo_requests : requests_inv c evs hellos;
  mo_lanes : lanes_inv c out evs hellos;
}.

(** Tasks of channels and the like leave the requests and the lanes alone. *)
Lemma requests_inv_same c c' evs hellos :
  requests_inv c evs hellos -> nextConnectionRequestRegistrationId_ c' = nextConnectionRequestRegistrationId_ c ->
  connectionRequestRegistrations_ c' = connectionRequestRegistrations_ c -> error_ c' = error_ c -> requests_inv c' evs hellos.
Proof. intros [H1 H2] E1 E2 E3. unfold closed in *. split; unfold closed; by rewrite ?E1, ?E2, ?E3. Qed.

Lemma lanes_inv_same c c' out evs hellos :
  lanes_inv c out evs hellos -> contexts_ c' = contexts_ c -> listeners_ c' = listeners_ c -> numLanes_ c' = numLanes_ c ->
  connectionsWaitingForHello_ c' = connectionsWaitingForHello_ c -> joined_ c' = joined_ c -> error_ c' = error_ c ->
  lanes_inv c' out evs hellos.
Proof.
  intros [L1 L2 L3 L4 L5 L6 L7] E1 E2 E3 E4 E5 E6. unfold closed in *.
  split; unfold closed; by rewrite ?E1, ?E2, ?E3, ?E4, ?E5, ?E6.
Qed.

(** Calls that concern neither requests nor the transports. *)
Lemma lanes_inv_app c out evs evs' hellos :
  lanes_inv c out evs hellos -> omap conn_read evs' = [] -> omap conn_dropped evs' = [] -> omap lane_closed evs' = [] ->
  omap transport_closed evs' = [] -> omap transport_joined evs' = [] -> lanes_inv c out (evs ++ evs') hellos.
Proof.
  intros [L1 L2 L3 L4 L5 L6 L7] E1 E2 E3 E4 E5.
  split; rewrite ?omap_app, ?E1, ?E2, ?E3, ?E4, ?E5, ?app_nil_r; done.
Qed.

Lemma channels_inv_same c c' :
  channels_inv c -> channels_ c' = channels_ c -> channel_heap c' = channel_heap c -> error_ c' = error_ c -> channels_inv c'.
Proof. intros [H1 H2] E1 E2 E3. unfold closed in *. split; unfold closed; by rewrite ?E1, ?E2, ?E3. Qed.

(** ** Channels *)

Lemma create_ok id o c :
  channels_inv c -> channel_heap c !! id = None -> en_ok o -> en_phase o = New -> channels_inv (createChannel id o c).
Proof.
  intros [[T1 T2] Hl] Hn Ho Hp. split; simpl.
  - split; simpl in *; intros i; destruct (decide (i = id)) as [->|Hne].
    + rewrite lookup_insert_eq, T1, Hn. split; [by intros (? & ? & _) | intros (o1 & [= <-] & Hh)]. by rewrite Hp in Hh.
    + by rewrite lookup_insert_ne.
    + intros o1. rewrite lookup_insert_eq. by intros [= <-].
    + intros o1. rewrite lookup_insert_ne by done. apply T2.
  - intros Hc i o1. destruct (decide (i = id)) as [->|Hne]; [rewrite lookup_insert_eq; intros [= <-]; by rewrite Hp|].
    rewrite lookup_insert_ne by done. by apply Hl.
Qed.

(** The phase a task leaves its channel in is no problem if the context is closed. *)
Lemma channel_task_inv id f c s h o o' :
  channels_inv c -> on_object id f (channels_ c, channel_heap c) = Done (s, h) -> table_ok (s, h) ->
  channel_heap c !! id = Some o -> h = <[id := o']> (channel_heap c) -> (closed c = true -> en_phase o' <> Live) ->
  exists c', channel_task id f c = Done c' /\ c' = c <| channels_ := s |> <| channel_heap := h |> /\ channels_inv c'.
Proof.
  intros [_ Hl] Hs Ht Ho -> Hp. eexists. split_and!; [unfold channel_task; by rewrite Hs | done|]. split; [done|]. simpl.
  intros Hc i o1. destruct (decide (i = id)) as [->|Hne]; [rewrite lookup_insert_eq; intros [= <-]; by apply Hp|].
  rewrite lookup_insert_ne by done. by apply Hl.
Qed.

Lemma mpt_init_ok id c :
  channels_inv c -> (exists o, channel_heap c !! id = Some o /\ en_phase o = New) ->
  exists c', channel_task id (en_init (closed c)) c = Done c' /\ channels_inv c' /\
    exists s h, c' = c <| channels_ := s |> <| channel_heap := h |>.
Proof.
  intros Hi (o & Ho & Hn). destruct (object_init_ok (closed c) id _ o (mi_table _ Hi) Ho Hn) as (s' & o' & Hs & Ht & _ & Hcl & _).
  destruct (channel_task_inv _ _ _ _ _ _ o' Hi Hs Ht Ho eq_refl) as (c' & Hc' & Heq & Hi').
  { intros Hc. by destruct (Hcl Hc) as [_ ->]. }
  exists c'. split_and!; try done. by eexists _, _.
Qed.

Lemma mpt_task_ok id o' bs c :
  channels_inv c -> (exists o, channel_heap c !! id = Some o /\ en_phase o <> New /\ en_task o o' bs) ->
  exists c', channel_task id (fun _ => Done (o', bs)) c = Done c' /\ channels_inv c' /\
    exists s h, c' = c <| channels_ := s |> <| channel_heap := h |>.
Proof.
  intros Hi (o & Ho & Hn & Ht). destruct (law_task o o' bs (tb_ok _ (mi_table _ Hi) _ _ Ho) Hn Ht) as [Ho' Hp].
  destruct (step_object id (fun _ => Done (o', bs)) _ o o' bs (mi_table _ Hi) Ho eq_refl Ho' Hp) as (s' & Hs & Ht').
  destruct (channel_task_inv _ _ _ _ _ _ o' Hi Hs Ht' Ho eq_refl) as (c' & Hc' & Heq & Hi').
  { intros Hc He. apply phase_step_later in Hp. rewrite He in Hp. by apply (mi_live _ Hi Hc id o Ho); destruct (en_phase o). }
  exists c'. split_and!; try done. by eexists _, _.
Qed.

(** ** Closing the channels *)

Lemma unregister_all_ok ids : forall c called ws failed,
  requests_ok (nextConnectionRequestRegistrationId_ c) (connectionRequestRegistrations_ c) called ws failed ->
  exists regs ws', unregister_all ids c = (c <| connectionRequestRegistrations_ := regs |>, Withdrawn <$> ws') /\
    requests_ok (nextConnectionRequestRegistrationId_ c) regs called (ws ++ ws') failed.
Proof.
  induction ids as [|id ids IH]; intros c called ws failed Hr; simpl.
  { exists (connectionRequestRegistrations_ c), []. rewrite app_nil_r. split; [by destruct c | done]. }
  pose proof (requests_withdraw _ _ _ _ _ id Hr) as Hr1.
  specialize (IH (c <| connectionRequestRegistrations_ ::= delete id |>) called (ws ++ erased id (connectionRequestRegistrations_ c)) failed).
  simpl in IH. destruct (IH Hr1) as (regs & ws' & -> & Hr').
  exists regs, (erased id (connectionRequestRegistrations_ c) ++ ws'). rewrite app_assoc, fmap_app. split; [by destruct c | done].
Qed.

Lemma close_channel_ok id c s h called ws failed :
  on_object id en_close (channels_ c, channel_heap c) = Done (s, h) ->
  requests_ok (nextConnectionRequestRegistrationId_ c) (connectionRequestRegistrations_ c) called ws failed ->
  exists regs ws', close_channel id c =
      Done (c <| channels_ := s |> <| channel_heap := h |> <| connectionRequestRegistrations_ := regs |>, Withdrawn <$> ws') /\
    requests_ok (nextConnectionRequestRegistrationId_ c) regs called (ws ++ ws') failed.
Proof.
  intros Hs Hr. unfold close_channel. unfold on_object in Hs. cbn [snd] in Hs. destruct (channel_heap c !! id) as [o|] eqn:Ho; [|done].
  assert (channel_task id en_close c = Done (c <| channels_ := s |> <| channel_heap := h |>)) as ->.
  { unfold channel_task, on_object. cbn [snd]. by rewrite Ho, Hs. }
  rewrite bind_done. case_decide.
  - pose proof (unregister_all_ok (lc_withdraws o) (c <| channels_ := s |> <| channel_heap := h |>) called ws failed) as Hu.
    simpl in Hu. destruct (Hu Hr) as (regs & ws' & -> & Hr'). by exists regs, ws'.
  - exists (connectionRequestRegistrations_ c), []. rewrite app_nil_r. split; [by destruct c | done].
Qed.

Lemma close_channels_ok ids : forall c s h called ws failed,
  close_all ids (channels_ c, channel_heap c) = Done (s, h) ->
  requests_ok (nextConnectionRequestRegistrationId_ c) (connectionRequestRegistrations_ c) called ws failed ->
  exists regs ws', close_channels ids c =
      Done (c <| channels_ := s |> <| channel_heap := h |> <| connectionRequestRegistrations_ := regs |>, Withdrawn <$> ws') /\
    requests_ok (nextConnectionRequestRegistrationId_ c) regs called (ws ++ ws') failed.
Proof.
  induction ids as [|id ids IH]; intros c s h called ws failed Hs Hr; simpl.
  { unfold close_all in Hs. simpl in Hs. inversion Hs; subst. exists (connectionRequestRegistrations_ c), [].
    rewrite app_nil_r. split; [by destruct c | done]. }
  unfold close_all in Hs. simpl in Hs. destruct (on_object id en_close (channels_ c, channel_heap c)) as [[s1 h1]|] eqn:H1; [|done].
  rewrite bind_done in Hs. destruct (close_channel_ok _ _ _ _ _ _ _ H1 Hr) as (regs1 & ws1 & -> & Hr1). rewrite bind_done. cbv beta iota.
  specialize (IH (c <| channels_ := s1 |> <| channel_heap := h1 |> <| connectionRequestRegistrations_ := regs1 |>) s h called (ws ++ ws1) failed).
  simpl in IH. destruct (IH Hs Hr1) as (regs & ws' & -> & Hr'). rewrite bind_done. cbv beta iota.
  exists regs, (ws1 ++ ws'). rewrite fmap_app, app_assoc. split; [by destruct c | done].
Qed.

(** ** Requests *)

Lemma mpt_register_ok f c out evs hellos :
  minv c out evs hellos -> nextConnectionRequestRegistrationId_ c + 1 < 2 ^ 63 ->
  exists c' id evs', registerConnectionRequest f c = Done (c', id, evs') /\ omap cb_of evs' = [] /\ minv c' out (evs ++ evs') hellos.
Proof.
  intros [Hc [Hr Hg] Hl] Hb. pose proof (requests_fresh _ _ _ _ _ Hr) as Hf. pose proof (rq_next _ _ _ _ _ Hr) as Hn.
  unfold registerConnectionRequest. rewrite u64_small by (unfold is_u64; lia). cbv zeta.
  change (error_ (c <| nextConnectionRequestRegistrationId_ := nextConnectionRequestRegistrationId_ c + 1 |>)) with (error_ c).
  unfold closed in Hr. destruct (is_error (error_ c)) eqn:He; eexists _, _, _; (split; [reflexivity|]; split; [done|]; split).
  - by apply (channels_inv_same c).
  - split; unfold closed; simpl; rewrite !omap_app; simpl.
    + rewrite fmap_app, He, app_nil_r. by apply requests_refuse.
    + destruct (error_ c); try done; by rewrite app_nil_r.
  - apply lanes_inv_app; try done. by apply (lanes_inv_same c).
  - by apply (channels_inv_same c).
  - split; unfold closed; simpl; rewrite app_nil_r; [|done]. rewrite Hf, He. by apply requests_insert.
  - rewrite app_nil_r. by apply (lanes_inv_same c).
Qed.

Lemma mpt_unregister_ok id c out evs hellos :
  minv c out evs hellos ->
  let '(c', evs') := unregisterConnectionRequest id c in omap cb_of evs' = [] /\ minv c' out (evs ++ evs') hellos.
Proof.
  intros [Hc [Hr Hg] Hl]. unfold unregisterConnectionRequest. split; [by apply calls_none|]. split.
  - by apply (channels_inv_same c).
  - split; simpl; rewrite !omap_app, (calls_none request_call), app_nil_r by done; [|done].
    rewrite (calls_some withdrawn _ (fun id => id)), list_fmap_id by done. by apply requests_withdraw.
  - apply lanes_inv_app; try (by apply calls_none). by apply (lanes_inv_same c).
Qed.

(** ** Errors *)

(** The calls of [handleError], by kind. *)
Definition error_calls (ws : list Z) (regs : list (Z * Fn)) (e : Error) (conns : list Z) (ls : list LaneListener)
    (ts : list Transport) : list (call Fn) :=
  (Withdrawn <$> ws) ++ ((fun p => CallRequest p.1 p.2 e None) <$> regs) ++ (LaneDrop <$> conns) ++
  ((fun l => LaneClose (ll_id l)) <$> ls) ++ ((fun x => TransportClose (tr_id x)) <$> ts).

Ltac kind_of_calls :=
  unfold error_calls; rewrite !omap_app;
  repeat first
    [ rewrite (calls_none _ Withdrawn) by done
    | rewrite (calls_none _ LaneDrop) by done
    | rewrite (calls_none _ (fun p : Z * Fn => CallRequest p.1 p.2 _ None)) by done
    | rewrite (calls_none _ (fun l => LaneClose (ll_id l))) by done
    | rewrite (calls_none _ (fun x => TransportClose (tr_id x))) by done ];
  cbn [app]; rewrite ?app_nil_r.

Lemma error_calls_kinds ws regs e conns ls ts :
  let E := error_calls ws regs e conns ls ts in
  omap cb_of E = [] /\ omap request_call E = (fun p => (p.1, (e, None))) <$> regs /\ omap withdrawn E = ws /\
  omap conn_read E = [] /\ omap conn_dropped E = conns /\ omap lane_closed E = ll_id <$> ls /\
  omap transport_closed E = tr_id <$> ts /\ omap transport_joined E = [].
Proof.
  cbv zeta. split_and!; kind_of_calls; try done.
  - by apply calls_some.
  - rewrite (calls_some _ _ (fun x => x)) by done. apply list_fmap_id.
  - rewrite (calls_some _ _ (fun x => x)) by done. apply list_fmap_id.
  - by apply calls_some.
  - by apply calls_some.
Qed.

Lemma mpt_granted_none e (regs : list (Z * Fn)) :
  is_error e = true -> omap granted ((fun p => (p.1, (e, None : option Z))) <$> regs) = [].
Proof. intros He. apply calls_none. intros y. simpl. by destruct e. Qed.

Lemma mpt_handleError_ok c out out' evs hellos e :
  minv c out evs hellos -> closed c = false -> is_error e = true ->
  exists c' evs', handleError (c <| error_ := e |>) = Done (c', evs') /\ omap cb_of evs' = [] /\ closed c' = true /\
    minv c' out' (evs ++ evs') hellos.
Proof.
  intros [Hc [Hr Hg] Hl] Hcl He. rewrite Hcl in Hr.
  destruct (close_table_ok _ (mi_table _ Hc)) as ([s h] & Hs & Ht & Hall). cbn [fst] in Hs.
  pose proof (close_channels_ok (elements (channels_ c)) (c <| error_ := e |>) s h (omap request_call evs).*1 (omap withdrawn evs) false) as Hcc.
  simpl in Hcc. destruct (Hcc Hs Hr) as (regs & ws & Hrun & Hr'). unfold handleError. simpl. rewrite Hrun, bind_done. cbv beta iota.
  set (E := error_calls ws (map_to_list regs) e (elements (connectionsWaitingForHello_ c)) (listeners_ c) (contexts_ c)).
  eexists _, E. split; [reflexivity|].
  destruct (error_calls_kinds ws (map_to_list regs) e (elements (connectionsWaitingForHello_ c)) (listeners_ c) (contexts_ c))
    as (E1 & E2 & E3 & E4 & E5 & E6 & E7 & E8). fold E in E1, E2, E3, E4, E5, E6, E7, E8. clearbody E.
  split_and!; [done | done |].
  destruct Hl as [L1 L2 L3 L4 L5 [L6 L6'] [L7 L7']]. rewrite Hcl in L6, L6'.
  assert (joined_ c = false) as Hj by (destruct (joined_ c); [by rewrite L7' in Hcl | done]). rewrite Hj in L7.
  split.
  - split; simpl; [done|]. intros _ id o Ho. by destruct (Hall id o Ho) as (_ & _ & _ & Hlive & _).
  - split; unfold closed; simpl; rewrite !omap_app, ?E2, ?E3.
    + rewrite fmap_app, <- list_fmap_compose, He. exact (requests_fail _ _ _ _ _ Hr').
    + by rewrite mpt_granted_none, app_nil_r.
  - split; unfold closed; simpl; rewrite ?He, ?Hj, ?omap_app, ?E4, ?E5, ?E6, ?E7, ?E8, ?L6, ?L6', ?L7; try done.
    rewrite L5, elements_empty. simpl. solve_perm.
Qed.

(** After an error the callbacks that are outstanding do not matter. *)
Lemma minv_out c out out' evs hellos : minv c out evs hellos -> closed c = true -> minv c out' evs hellos.
Proof.
  intros [Hc Hr [L1 L2 L3 L4 L5 L6 L7]] Hcl. split; try done. split; try done; by rewrite Hcl.
Qed.

Lemma mpt_setError_ok c out evs hellos e :
  minv c out evs hellos ->
  exists c' evs', setError e c = Done (c', evs') /\ omap cb_of evs' = [] /\ minv c' out (evs ++ evs') hellos /\
    closed c' = closed c || is_error e /\ (closed c' = false -> c' = c /\ evs' = []).
Proof.
  intros Hi. unfold setError. fold (closed c). destruct (closed c) eqn:Hcl; simpl.
  { eexists _, _. split; [reflexivity|]. by rewrite app_nil_r, Hcl. }
  destruct (is_error e) eqn:He; simpl.
  - destruct (mpt_handleError_ok c out out evs hellos e Hi Hcl He) as (c' & evs' & -> & Hcb & Hcl' & Hi').
    eexists _, _. split; [reflexivity|]. by rewrite Hcl'.
  - eexists _, _. split; [reflexivity|]. by rewrite app_nil_r, Hcl.
Qed.

(** ** Callbacks *)

(** A lane accepted a connection. *)
Lemma lane_accepted_ok c out i laneIdx d evs hellos :
  minv c out evs hellos -> closed c = false -> out !! i = Some (CbLaneAccepted laneIdx) ->
  d_connection d ∉ omap conn_read evs ->
  exists c' evs', callback_body (CbLaneAccepted laneIdx) d c = Done (c', evs') /\
    minv c' (delete i out ++ omap cb_of evs') (evs ++ evs') hellos.
Proof.
  intros [Hc Hr [[L1 L1'] L2 L3 L4 L5 L6 L7]] Hcl Hout Hfresh. specialize (L2 Hcl). specialize (L3 Hcl).
  pose proof (delete_Permutation _ _ _ Hout) as Hd. rewrite Hd in L2, L3. simpl in L2, L3.
  destruct (lookup_lt_is_Some_2 (listeners_ c) laneIdx) as (l & Hl).
  { rewrite L1. assert (laneIdx ∈ seq 0 (numLanes_ c)) as Hin by (rewrite <- L2; by constructor).
    apply elem_of_seq in Hin. lia. }
  assert (d_connection d ∉ connectionsWaitingForHello_ c) as Hw.
  { intros Hw. apply Hfresh. rewrite L5. apply elem_of_app. right. apply elem_of_app. left. by apply elem_of_elements. }
  unfold callback_body. fold (closed c). rewrite Hcl. unfold onAcceptOfLane, acceptLane. simpl. rewrite Hl, bind_done. cbv beta iota.
  eexists _, _. split; [reflexivity|]. split.
  - by apply (channels_inv_same c).
  - destruct Hr as [Hr Hg]. split; rewrite !omap_app; simpl; rewrite !app_nil_r; done.
  - unfold closed in *. split; unfold closed; simpl; rewrite ?Hcl, ?omap_app in *; simpl; rewrite ?app_nil_r; try done.
    + intros _. rewrite <- L2. solve_perm.
    + intros _. rewrite elements_union_singleton, <- L3 by done. solve_perm.
    + rewrite elements_union_singleton, L5 by done. solve_perm.
Qed.

(** A connection said which request it is for. *)
Lemma lane_hello_ok c out i conn id d evs hellos :
  minv c out evs hellos -> closed c = false -> out !! i = Some (CbHelloRead conn) -> d_packet d = ClientHello id ->
  exists c' evs', callback_body (CbHelloRead conn) d c = Done (c', evs') /\ omap cb_of evs' = [] /\
    minv c' (delete i out) (evs ++ evs') (hellos ++ [(conn, d_packet d)]).
Proof.
  intros [Hc [Hr Hg] [L1 L2 L3 L4 L5 L6 L7]] Hcl Hout Hp. specialize (L2 Hcl). specialize (L3 Hcl).
  pose proof (delete_Permutation _ _ _ Hout) as Hd. rewrite Hd in L2, L3. simpl in L2, L3.
  assert (conn ∈ connectionsWaitingForHello_ c) as Hin. { apply elem_of_elements. rewrite <- L3. by constructor. }
  assert (elements (connectionsWaitingForHello_ c) ≡ₚ conn :: elements (connectionsWaitingForHello_ c ∖ {[conn]})) as Hel.
  { rewrite <- elements_union_singleton by set_solver. by rewrite <- union_difference_singleton_L. }
  unfold callback_body. fold (closed c). rewrite Hcl. unfold onReadClientHelloOnLane. rewrite Hp. simpl.
  assert (forall c' evs', contexts_ c' = contexts_ c -> listeners_ c' = listeners_ c -> numLanes_ c' = numLanes_ c ->
    connectionsWaitingForHello_ c' = connectionsWaitingForHello_ c ∖ {[conn]} -> joined_ c' = joined_ c -> error_ c' = error_ c ->
    omap conn_read evs' = [] -> omap conn_dropped evs' = [] -> omap lane_closed evs' = [] -> omap transport_closed evs' = [] ->
    omap transport_joined evs' = [] -> lanes_inv c' (delete i out) (evs ++ evs') (hellos ++ [(conn, ClientHello id)])) as Hlanes.
  { intros c' evs' E1 E2 E3 E4 E5 E6 F1 F2 F3 F4 F5. apply lanes_inv_app; [|done..]. unfold closed in *.
    split; unfold closed; rewrite ?E1, ?E2, ?E3, ?E4, ?E5, ?E6, ?Hcl in *; try done.
    - intros _. rewrite Hel in L3. by apply (Permutation_cons_inv (a:=conn)).
    - rewrite L5, Hel, fmap_app. simpl. solve_perm. }
  destruct (connectionRequestRegistrations_ c !! id) as [f|] eqn:Hf; eexists _, _; (split; [reflexivity|]; split; [done|]; split).
  - by apply (channels_inv_same c).
  - split; simpl; rewrite !omap_app; simpl.
    + rewrite fmap_app, app_nil_r. by apply (requests_call _ _ _ _ _ _ f).
    + by apply sublist_app.
  - by apply Hlanes.
  - by apply (channels_inv_same c).
  - split; simpl; rewrite app_nil_r; [done|]. rewrite omap_app. by apply sublist_inserts_r.
  - by apply Hlanes.
Qed.

Definition mworld_ok (w : MWorld Fn O) : Prop := minv (mw_context w) (mw_out w) (mw_trace w) (mw_hellos w).

Lemma mpt_deliver_ok w i e d :
  mworld_ok w -> mevent_ok w (EvDeliver i e d) -> exists w', mstep w (EvDeliver i e d) = Done w' /\ mworld_ok w'.
Proof.
  intros Hw Hok. simpl in *. destruct (mw_out w !! i) as [k|] eqn:Hout; [|done].
  destruct (mpt_setError_ok _ _ _ _ e Hw) as (c1 & evs1 & Hrun & Hcb & Hi1 & Hcl & Hsame).
  unfold entryPointFromLoop. rewrite Hrun, bind_done. cbv beta iota. destruct (closed c1) eqn:Hc1.
  - unfold callback_body. fold (closed c1). rewrite Hc1. eexists. split; [reflexivity|]. unfold mworld_ok. simpl.
    rewrite app_nil_r, Hcb, app_nil_r.
    assert (hello_of k e d (mw_context w) = []) as -> by (destruct k; simpl; [done|]; fold (closed (mw_context w)); by rewrite <- Hcl).
    rewrite app_nil_r. by apply (minv_out _ (mw_out w)).
  - destruct (Hsame eq_refl) as [-> ->]. symmetry in Hcl. apply orb_false_iff in Hcl as [Hcl Hee]. destruct k as [laneIdx|conn].
    + destruct Hok as [Hok|Hok]; [by rewrite Hok in Hee|].
      destruct (lane_accepted_ok _ _ _ laneIdx d _ _ Hw Hcl Hout Hok) as (c' & evs' & -> & Hi').
      eexists. split; [reflexivity|]. unfold mworld_ok. simpl. by rewrite app_nil_r.
    + destruct Hok as (id & Hp). destruct (lane_hello_ok _ _ _ conn id d _ _ Hw Hcl Hout Hp) as (c' & evs' & -> & Hcb' & Hi').
      eexists. split; [reflexivity|]. unfold mworld_ok. simpl. unfold closed in Hcl. by rewrite Hcb', app_nil_r, Hcl, Hee.
Qed.

(** ** Every event *)

Lemma mpt_join_ok c out evs hellos :
  minv c out evs hellos -> closed c = true -> let '(c', evs') := join c in omap cb_of evs' = [] /\ minv c' out (evs ++ evs') hellos.
Proof.
  intros Hi Hcl. unfold join. destruct (joined_ c) eqn:Hj; [by rewrite app_nil_r|]. unfold joinImpl.
  destruct Hi as [Hc [Hr Hg] [L1 L2 L3 L4 L5 L6 [L7 L7']]]. rewrite Hj in L7. split; [by apply calls_none|]. split.
  - by apply (channels_inv_same c).
  - split; rewrite !omap_app, !(calls_none _ (fun x => TransportJoin _)), !app_nil_r by done; done.
  - split; unfold closed in *; simpl; rewrite ?omap_app, ?L7, ?app_nil_r; rewrite ?(calls_none _ (fun x => TransportJoin _)), ?app_nil_r by done; try done.
    split; [by apply calls_some | done].
Qed.

Lemma mstep_ok w ev : mworld_ok w -> mevent_ok w ev -> exists w', mstep w ev = Done w' /\ mworld_ok w'.
Proof.
  intros Hw Hok. destruct ev as [id o|id|id o' bs|f|id|laneIdx a| | |i e d]; [| | | | | | | |by apply mpt_deliver_ok];
    unfold mworld_ok, mstep, mw_after in *; simpl in Hok.
  - eexists. split; [reflexivity|]. simpl. rewrite !app_nil_r. destruct Hw as [Hc Hr Hl]. destruct Hok as (H1 & H2 & H3).
    split; [by apply create_ok | by apply (requests_inv_same (mw_context w)) | by apply (lanes_inv_same (mw_context w))].
  - destruct Hw as [Hc Hr Hl]. destruct (mpt_init_ok id _ Hc Hok) as (c' & -> & Hc' & s & h & ->). eexists. split; [reflexivity|].
    simpl. rewrite !app_nil_r. split; [done | by apply (requests_inv_same (mw_context w)) | by apply (lanes_inv_same (mw_context w))].
  - destruct Hw as [Hc Hr Hl]. destruct (mpt_task_ok id o' bs _ Hc Hok) as (c' & -> & Hc' & s & h & ->). eexists. split; [reflexivity|].
    simpl. rewrite !app_nil_r. split; [done | by apply (requests_inv_same (mw_context w)) | by apply (lanes_inv_same (mw_context w))].
  - destruct (mpt_register_ok f _ _ _ _ Hw Hok) as (c' & id & evs' & -> & Hcb & Hi). eexists. split; [reflexivity|]. simpl.
    by rewrite Hcb, app_nil_r.
  - pose proof (mpt_unregister_ok id _ _ _ _ Hw) as Hu. destruct (unregisterConnectionRequest id (mw_context w)) as [c' evs'].
    destruct Hu as [Hcb Hi]. eexists. split; [reflexivity|]. simpl. by rewrite Hcb, app_nil_r.
  - destruct Hw as [Hc [Hr Hg] Hl]. destruct (lookup_lt_is_Some_2 (contexts_ (mw_context w)) laneIdx) as (x & Hx).
    { destruct (mi_lanes _ _ _ _ Hl) as [_ ->]. done. }
    unfold connect. rewrite Hx. eexists. split; [reflexivity|]. simpl. rewrite !app_nil_r.
    split; [done | split; rewrite !omap_app; simpl; rewrite !app_nil_r; done | by apply lanes_inv_app].
  - destruct (mpt_setError_ok _ _ _ _ ContextClosedError Hw) as (c' & evs' & Hrun & Hcb & Hi & _). unfold closeFromLoop. rewrite Hrun.
    eexists. split; [reflexivity|]. simpl. by rewrite Hcb, app_nil_r.
  - pose proof (mpt_join_ok _ _ _ _ Hw Hok) as Hj. destruct (join (mw_context w)) as [c' evs']. destruct Hj as [Hcb Hi].
    eexists. split; [reflexivity|]. simpl. by rewrite Hcb, app_nil_r.
Qed.

(** ** Reachable worlds *)

Definition minit (contexts : list Transport) (listeners : list LaneListener) : outcome (option (MWorld Fn O)) :=
  m ← create contexts listeners;
  match m with
  | None => Done None
  | Some c => '(c, calls) ← initFromLoop c; Done (Some (mkMWorld c (omap cb_of calls) calls []))
  end.

Inductive mreach (contexts : list Transport) (listeners : list LaneListener) : MWorld Fn O -> Prop :=
| mreach_init w : minit contexts listeners = Done (Some w) -> mreach contexts listeners w
| mreach_step w ev w' : mreach contexts listeners w -> mevent_ok w ev -> mstep w ev = Done w' -> mreach contexts listeners w'.

Lemma accept_lanes_ok ls : forall c,
  (forall i, i ∈ ls -> (i < length (listeners_ c))%nat) ->
  exists ks, accept_lanes ls c = Done (c, (fun p => LaneAccept p.1 (CbLaneAccepted p.2)) <$> zip ks ls) /\ length ks = length ls.
Proof.
  induction ls as [|i ls IH]; intros c Hin; simpl; [by exists []|].
  destruct (lookup_lt_is_Some_2 (listeners_ c) i) as (l & Hl); [apply Hin; by constructor|].
  unfold acceptLane. rewrite Hl, bind_done. cbv beta iota. destruct (IH c) as (ks & -> & Hk). { intros j Hj. apply Hin. by constructor. }
  rewrite bind_done. exists (ll_id l :: ks). simpl. by rewrite Hk.
Qed.

Lemma minit_ok contexts listeners w : minit contexts listeners = Done (Some w) -> mworld_ok w.
Proof.
  unfold minit, create. destruct (forallb tr_viable contexts); [|done]. unfold newContextImpl.
  destruct (length contexts =? length listeners)%nat eqn:Hlen; [|done]. apply Nat.eqb_eq in Hlen. simpl.
  unfold initFromLoop, initImplFromLoop. simpl.
  set (c := mkContextImpl kSuccess _ contexts listeners _ _ 0 ∅ ∅ false 0 ∅ ∅).
  destruct (accept_lanes_ok (seq 0 (length contexts)) c) as (ks & -> & Hk). { intros i Hi. apply elem_of_seq in Hi. simpl. lia. }
  simpl. intros [= <-]. unfold mworld_ok. simpl.
  set (evs := (fun p => LaneAccept p.1 (CbLaneAccepted p.2)) <$> zip ks (seq 0 (length contexts))).
  assert (omap cb_of evs = CbLaneAccepted <$> seq 0 (length contexts)) as Hcb.
  { unfold evs. rewrite (calls_some _ _ (fun p => CbLaneAccepted p.2)) by done.
    rewrite <- (snd_zip ks (seq 0 (length contexts))) at 2 by (by rewrite Hk). by rewrite <- list_fmap_compose. }
  assert (forall X (f : call Fn -> option X), (forall k i, f (LaneAccept k (CbLaneAccepted i)) = None) -> omap f evs = []) as Hno
    by (intros X f Hf; by apply calls_none).
  split.
  - split; [apply table_ok_empty | done].
  - split; rewrite !Hno by done; done.
  - split; rewrite ?Hno by done; try done.
    + intros _. rewrite Hcb. rewrite (calls_some accepting _ (fun i => i)) by done. by rewrite list_fmap_id.
    + intros _. rewrite Hcb. by rewrite calls_none.
Qed.

Lemma mreach_ok contexts listeners w : mreach contexts listeners w -> mworld_ok w.
Proof.
  induction 1 as [w Hw | w ev w' _ IH Hok Hw]; [by eapply minit_ok|].
  destruct (mstep_ok _ _ IH Hok) as (w0 & Hw0 & Hi). rewrite Hw0 in Hw. by inversion Hw; subst.
Qed.
End World.

(** ** What the context guarantees *)

(** A request that a channel registered is in exactly one place: called, still
    registered, or withdrawn by its channel; none stays registered after an error;
    and a connection is given to a request only for a hello that names it. *)
Lemma mpt_context_requests {Fn O} `{EnrolleeLaws O} `{!LaneClient O} contexts listeners (w : MWorld Fn O) :
  mreach contexts listeners w ->
  let c := mw_context w in
  (omap request_call (mw_trace w)).*1 ++ (map_to_list (connectionRequestRegistrations_ c)).*1 ++ omap withdrawn (mw_trace w)
    ≡ₚ seqZ 0 (nextConnectionRequestRegistrationId_ c) /\
  (closed c = true -> connectionRequestRegistrations_ c = ∅) /\
  omap granted (omap request_call (mw_trace w)) `sublist_of` omap requested (mw_hellos w).
Proof. intros Hw. apply mreach_ok in Hw as [_ [[_ H1 H2] H3] _]. done. Qed.

(** C32: In any reachable world no event makes the context throw.  While it has no
    error, exactly one [accept] is outstanding on each lane and one read on each
    connection whose hello is awaited; every connection accepted has had its hello
    read, awaits it, or was closed.  After an error none awaits, no channel is
    live, and each listener and transport context was closed exactly once; and the
    transport contexts are joined at most once, after that. *)
Theorem mpt_context_lanes {Fn O} `{EnrolleeLaws O} `{!LaneClient O} contexts listeners (w : MWorld Fn O) :
  mreach contexts listeners w ->
  let c := mw_context w in
  (forall ev, mevent_ok w ev -> exists w', mstep w ev = Done w') /\
  (closed c = false ->
     omap accepting (mw_out w) ≡ₚ seq 0 (numLanes_ c) /\ omap reading (mw_out w) ≡ₚ elements (connectionsWaitingForHello_ c)) /\
  omap conn_read (mw_trace w) ≡ₚ (mw_hellos w).*1 ++ elements (connectionsWaitingForHello_ c) ++ omap conn_dropped (mw_trace w) /\
  (closed c = true ->
     connectionsWaitingForHello_ c = ∅ /\ (forall id o, channel_heap c !! id = Some o -> en_phase o <> Live)) /\
  omap lane_closed (mw_trace w) = (if closed c then ll_id <$> listeners_ c else []) /\
  omap transport_closed (mw_trace w) = (if closed c then tr_id <$> contexts_ c else []) /\
  omap transport_joined (mw_trace w) = (if joined_ c then tr_id <$> contexts_ c else []) /\
  (joined_ c = true -> closed c = true).
Proof.
  intros Hw. apply mreach_ok in Hw as Hi. split.
  { intros ev Hok. destruct (mstep_ok _ _ Hi Hok) as (w' & Hs & _). by exists w'. }
  destruct Hi as [[_ Hl] _ [_ L2 L3 L4 L5 [L6 L6'] [L7 L7']]].
  split_and!; try done; intros Hcl; (split; [by apply L2 || by apply L4 | by apply L3 || by apply Hl]).
Qed.

(** ** A run *)

(** A channel that only has a phase and the requests it made. *)
Record LaneChannel := mkLaneChannel { lc_phase : Phase; lc_requests : list Z }.

#[export] Instance lane_channel : Enrollee LaneChannel := {|
  en_init contextClosed o :=
    Done (if contextClosed : bool then (mkLaneChannel Gone [], []) else (mkLaneChannel Live (lc_requests o), [true]));
  en_close o := Done (match lc_phase o with Live => (mkLaneChannel Gone [], [false]) | _ => (o, []) end);
  en_task o o' bs := phase_step (lc_phase o) bs (lc_phase o');
  en_phase := lc_phase;
  en_ok _ := True;
|}.
#[export] Instance lane_channel_laws : EnrolleeLaws LaneChannel.
Proof.
  split.
  - intros o _ _. by exists (mkLaneChannel Gone []).
  - intros o _ _. exists (mkLaneChannel Live (lc_requests o)), []. split_and!; try done. constructor.
  - intros [p ids] _ Hn. destruct p; try done; eexists _, _; (split; [reflexivity|]); split_and!; try done; constructor.
  - by intros [p ids] [q ids'] bs _ _ Hs.
Qed.
#[export] Instance lane_client : LaneClient LaneChannel := lc_requests.

Definition demo_contexts : list Transport := [mkTransport 1 true "here"; mkTransport 2 true "there"].
Definition demo_listeners : list LaneListener := [mkLaneListener 11 "a:1"; mkLaneListener 12 "b:2"].

Definition mnext (w : MWorld nat LaneChannel) (ev : mevent nat LaneChannel) : MWorld nat LaneChannel :=
  match mstep w ev with Done w' => w' | Throw _ => w end.

Lemma mnext_reach w ev : mreach demo_contexts demo_listeners w -> mevent_ok w ev -> mreach demo_contexts demo_listeners (mnext w ev).
Proof.
  intros Hw Hok. destruct (mstep_ok w ev (mreach_ok _ _ _ Hw) Hok) as (w' & Hs & _). unfold mnext. rewrite Hs. by eapply mreach_step.
Qed.

Definition mdemo_start : MWorld nat LaneChannel :=
  match minit demo_contexts demo_listeners with
  | Done (Some w) => w
  | _ => mkMWorld (mkContextImpl kSuccess "" [] [] 0 [] 0 ∅ ∅ false 0 ∅ ∅) [] [] []
  end.

(** Of three requests one gets its connection, one is withdrawn when the channel that
    made it is closed, and the last is called with the error. *)
Definition mdemo_events : list (mevent nat LaneChannel) :=
  [EvCreate 5 (mkLaneChannel New []); EvInit 5; EvRegister 7%nat; EvRegister 8%nat; EvRegister 9%nat;
   EvTask 5 (mkLaneChannel Live [0; 1]) [];
   EvDeliver 0 kSuccess (mkData 100 (ServerHello [])); EvDeliver 0 kSuccess (mkData 101 (ServerHello []));
   EvDeliver 0 kSuccess (mkData 0 (ClientHello 0)); EvConnect 1 "c:3"; EvClose; EvJoin].
Definition mdemo_end : MWorld nat LaneChannel := foldl mnext mdemo_start mdemo_events.

Fixpoint mevents_ok (w : MWorld nat LaneChannel) (evs : list (mevent nat LaneChannel)) : Prop :=
  match evs with [] => True | ev :: evs => mevent_ok w ev /\ mevents_ok (mnext w ev) evs end.

Lemma mrun_reach evs : forall w,
  mreach demo_contexts demo_listeners w -> mevents_ok w evs -> mreach demo_contexts demo_listeners (foldl mnext w evs).
Proof.
  induction evs as [|ev evs IH]; intros w Hw Hok; simpl in *; [done|]. destruct Hok. apply IH; [by apply mnext_reach | done].
Qed.

Lemma accept_event_ok (w : MWorld nat LaneChannel) i k d :
  mw_out w !! i = Some (CbLaneAccepted k) -> bool_decide (d_connection d ∉ omap conn_read (mw_trace w)) = true ->
  mevent_ok w (EvDeliver i kSuccess d).
Proof. intros Hi Hd. simpl. rewrite Hi. right. by apply bool_decide_eq_true in Hd. Qed.

Lemma hello_event_ok (w : MWorld nat LaneChannel) i k e id n :
  mw_out w !! i = Some (CbHelloRead k) -> mevent_ok w (EvDeliver i e (mkData n (ClientHello id))).
Proof. intros Hi. simpl. rewrite Hi. by exists id. Qed.

Lemma mdemo_reach : mreach demo_contexts demo_listeners mdemo_end.
Proof.
  apply mrun_reach; [apply mreach_init; by vm_compute|]. unfold mdemo_events. cbn [mevents_ok]. split_and!; try by vm_compute.
  - exists (mkLaneChannel New []). by vm_compute.
  - exists (mkLaneChannel Live []). split_and!; [by vm_compute | done | constructor].
  - eapply accept_event_ok; by vm_compute.
  - eapply accept_event_ok; by vm_compute.
  - eapply hello_event_ok; by vm_compute.
Qed.

Lemma mpt_context_requests_witness :
  omap request_call (mw_trace mdemo_end) = [(0, (kSuccess, Some 100)); (2, (ContextClosedError, None))] /\
  omap withdrawn (mw_trace mdemo_end) = [1] /\
  omap granted (omap request_call (mw_trace mdemo_end)) `sublist_of` omap requested (mw_hellos mdemo_end).
Proof. split; [by vm_compute|]. split; [by vm_compute|]. apply (mpt_context_requests _ _ _ mdemo_reach). Defined.

Lemma mpt_context_lanes_witness :
  omap conn_read (mw_trace mdemo_end) = [100; 101] /\ omap conn_dropped (mw_trace mdemo_end) = [101] /\
  omap transport_joined (mw_trace mdemo_end) = [1; 2] /\
  omap lane_closed (mw_trace mdemo_end) = (if closed (mw_context mdemo_end) then ll_id <$> listeners_ (mw_context mdemo_end) else []).
Proof.
  split; [by vm_compute|]. split; [by vm_compute|]. split; [by vm_compute|].
  apply (mpt_context_lanes _ _ _ mdemo_reach).
Defined.
