(* ===== verification/ChannelTheorems.v ===== *)
(** * What the channels of [BasicChannel], [CopyChannel], [CudaXthChannel],
    [CudaBasicChannel] and [MptChannel] guarantee

    The theorems about every reachable world of these channels, and concrete
    worlds that they apply to. *)

From S2P Require Import Prelude Messages OpsStateMachine LocalOps ChannelBase ChannelSides BasicChannel.
From S2P Require Import CopyChannel CudaXthChannel CudaBasicChannel CudaBasicTensors MptChannel.

Abbreviation BasicWorld := (CWorld BasicChannel.ChannelImpl Empty_set BasicChannel.cb).
Abbreviation CopyWorld := (CWorld CopyChannel.ChannelImpl CopyChannel.Descriptor CopyChannel.cb).
Abbreviation XCudaWorld := (CWorld CudaXthChannel.ChannelImpl CudaXthChannel.Descriptor CudaXthChannel.cb).
Abbreviation BCudaWorld := (CWorld CudaBasicChannel.ChannelImpl Empty_set CudaBasicChannel.cb).
Abbreviation MptWorld := (CWorld MptChannel.ChannelImpl MptChannel.Packet MptChannel.cb).

(** What the user was told: the callbacks of sends and of receives. *)
Definition sends_done {I Pkt Cb} (w : CWorld I Pkt Cb) : list callback := omap user_send (cw_trace w).
Definition recvs_done {I Pkt Cb} (w : CWorld I Pkt Cb) : list callback := omap user_recv (cw_trace w).

(** No callback is called twice, or for a request that was not made. *)
Definition at_most_once {I Pkt Cb} (w : CWorld I Pkt Cb) : Prop :=
  NoDup (sends_done w) /\ sends_done w ⊆+ requests (length (cw_sends w)) /\
  NoDup (recvs_done w) /\ recvs_done w ⊆+ requests (length (cw_recvs w)).
(** Each request was answered once. *)
Definition exactly_once {I Pkt Cb} (w : CWorld I Pkt Cb) : Prop :=
  sends_done w ≡ₚ requests (length (cw_sends w)) /\ recvs_done w ≡ₚ requests (length (cw_recvs w)).

(** ** Order on the connections *)

Section Order.
Context {X : Type}.
Variable h : piece -> option X.    (* what both ends of a connection see *)

Lemma starts_app f n l1 l2 : starts_from f n (l1 ++ l2) = starts_from f n l1 ++ starts_from f (n + Z.of_nat (length l1)) l2.
Proof.
  revert n. induction l1 as [|a l1 IH]; intros n; simpl; [by rewrite Z.add_0_r|].
  rewrite IH, <- app_assoc. do 3 f_equal. lia.
Qed.

Lemma starts_agree f g n l1 l2 :
  (forall n a b, a.2 = b.2 -> omap h (f n a) = omap h (g n b)) -> l1.*2 `prefix_of` l2.*2 ->
  omap h (starts_from f n l1) `prefix_of` omap h (starts_from g n l2).
Proof.
  intros Hfg. revert n l2. induction l1 as [|a l1 IH]; intros n l2 [l Hl]; [apply prefix_nil|].
  destruct l2 as [|b l2]; [done|]. injection Hl as Hb Hl. simpl. rewrite !omap_app, (Hfg n a b) by done.
  apply prefix_app, IH. by exists l.
Qed.

Lemma omap_prefix (l1 l2 : list piece) : l1 `prefix_of` l2 -> omap h l1 `prefix_of` omap h l2.
Proof. intros [l ->]. rewrite omap_app. by eexists. Qed.
End Order.

(** A receiver reads what a sender writes: the same sizes in the same order. *)
Lemma ends_agree {X} (h : piece -> option X) f g ls lr writes reads rest :
  (forall n a b, a.2 = b.2 -> omap h (f n a) = omap h (g n b)) ->
  starts_from f 0 ls = writes -> starts_from g 0 lr = reads ++ rest -> lr.*2 `prefix_of` ls.*2 ->
  omap h reads `prefix_of` omap h writes.
Proof.
  intros Hfg <- Hr Hp. transitivity (omap h (starts_from g 0 lr)).
  - apply omap_prefix. rewrite Hr. by eexists.
  - apply starts_agree; [|done]. intros n a b Hab. by rewrite (Hfg n b a).
Qed.

(** The number of the tensor and the size, of writes and reads on a connection. *)
Definition seen (i : nat) (p : piece) : option (Z * Z) :=
  if decide (pc_lane p = i) then Some (pc_it p, pc_len p) else None.
Definition writes_on {I Pkt Cb Data} `{ChannelSafe I Pkt Cb Data} (i : nat) (w : CWorld I Pkt Cb) : list (Z * Z) :=
  omap (seen i) (omap (start_send ch_view) (cw_trace w)).
Definition reads_on {I Pkt Cb Data} `{ChannelSafe I Pkt Cb Data} (i : nat) (w : CWorld I Pkt Cb) : list (Z * Z) :=
  omap (seen i) (omap (start_recv ch_view) (cw_trace w)).

(** In a world without errors, what started is what was requested, but for what
    could not start yet. *)
Section Started.
Context {I Pkt Cb Data : Type} `{!ChannelBase.ChannelImpl I Pkt Cb Data, !ChannelSafe I Pkt Cb Data}.

Lemma started_sends (w : CWorld I Pkt Cb) f :
  chan_reach w -> is_error (ch_error_ (cw_chan w)) = false -> send_starts ch_view (ch_impl (cw_chan w)) = f ->
  unstarted_sends ch_view (ch_impl (cw_chan w)) = [] ->
  omap (start_send ch_view) (cw_trace w) = starts_from f 0 (cw_sends w).
Proof.
  intros Hw He <- Hu. destruct (ck_starts _ (chan_reach_ok w Hw) He) as [Hs _]. unfold starts_ok in Hs.
  by rewrite Hu, app_nil_r in Hs.
Qed.

Lemma started_recvs (w : CWorld I Pkt Cb) f :
  chan_reach w -> is_error (ch_error_ (cw_chan w)) = false -> recv_starts ch_view (ch_impl (cw_chan w)) = f ->
  exists rest, starts_from f 0 (cw_recvs w) = omap (start_recv ch_view) (cw_trace w) ++ rest.
Proof. intros Hw He <-. destruct (ck_starts _ (chan_reach_ok w Hw) He) as [_ Hr]. by eexists. Qed.

Lemma step_safe (w : CWorld I Pkt Cb) (ev : chan_event Data) :
  chan_reach w -> chan_event_ok w ev -> exists w', chan_step w ev = Done w' /\ at_most_once w'.
Proof.
  intros Hw Hev. pose proof (chan_step_ok w ev (chan_reach_ok w Hw) Hev) as Hs.
  destruct (chan_step w ev) as [w'|] eqn:Hst; [|done]. exists w'. split; [done|].
  apply chan_at_most_once. by eapply chan_next.
Qed.
End Started.

(** ** Safety *)

(** C36: in every reachable world of a basic, xth, cma, cuda_xth, cuda_basic or mpt channel,
    whatever the user, the peer and the transports do next is handled without any undefined
    behaviour (a reset callback called, an operation looked up after its removal, a
    staging buffer used that was not allocated), and no callback of the user is called twice or for a request not made. *)
Theorem channels_no_throw :
  (forall (w : BasicWorld) (ev : chan_event unit),
     chan_reach w -> chan_event_ok w ev -> exists w', chan_step w ev = Done w' /\ at_most_once w') /\
  (forall (w : CopyWorld) (ev : chan_event CopyChannel.Descriptor),
     chan_reach w -> chan_event_ok w ev -> exists w', chan_step w ev = Done w' /\ at_most_once w') /\
  (forall (w : XCudaWorld) (ev : chan_event CudaXthChannel.Descriptor),
     chan_reach w -> chan_event_ok w ev -> exists w', chan_step w ev = Done w' /\ at_most_once w') /\
  (forall (w : BCudaWorld) (ev : chan_event Z),
     chan_reach w -> chan_event_ok w ev -> exists w', chan_step w ev = Done w' /\ at_most_once w') /\
  (forall (w : MptWorld) (ev : chan_event MptChannel.Data),
     chan_reach w -> chan_event_ok w ev -> exists w', chan_step w ev = Done w' /\ at_most_once w').
Proof. split_and!; intros w ev; apply step_safe. Qed.

(** ** Every request is answered *)

(** C35: the channels call the callback of every send and of every receive exactly
    once: for a basic channel, whenever all the callbacks it gave to its connection
    were called, none of its own is left; for an xth, cma, cuda_xth or cuda_basic
    channel, whenever none of the reads, copies, allocations and transfers of chunks
    it started is outstanding. *)
Theorem channels_exactly_once :
  (forall w : BasicWorld, chan_reach w -> cw_out w = [] -> exactly_once w) /\
  (forall w : CopyWorld,
     chan_reach w -> Forall (fun k => CopyChannel.awaits k = false) (cw_out w) -> exactly_once w) /\
  (forall w : XCudaWorld,
     chan_reach w -> Forall (fun k => CudaXthChannel.awaits k = false) (cw_out w) -> exactly_once w) /\
  (forall w : BCudaWorld,
     chan_reach w -> Forall (fun k => CudaBasicChannel.awaits k = false) (cw_out w) -> exactly_once w).
Proof.
  split_and!; intros w Hw Ho; (apply chan_exactly_once; [done | done|]); [|done..].
  unfold quiet. rewrite Ho. constructor.
Qed.

(** C33: an mpt channel calls the callback of every send and of every receive
    exactly once, if it has its lanes or all tensors have bytes: whenever no chunk
    is outstanding, and no hello or lane either unless the channel has an error,
    none of its callbacks is left. *)
Theorem mpt_exactly_once (w : MptWorld) :
  chan_reach w -> MptChannel.mpt_live_ok (cw_sends w) (cw_recvs w) (ch_impl (cw_chan w)) ->
  Forall (fun k => MptChannel.mpt_awaited (ch_error_ (cw_chan w)) k = false) (cw_out w) -> exactly_once w.
Proof. intros Hw Hl Hq. by apply chan_exactly_once. Qed.

(** ** Framing *)

(** A basic channel without an error has written exactly the tensors that the
    user sent, in order and but for empty ones; and a peer whose user asked for
    the same sizes, or for fewer tensors, reads the same sizes in the same order. *)
Theorem basic_framing_agrees (ws wr : BasicWorld) :
  chan_reach (Data := unit) ws -> chan_reach (Data := unit) wr ->
  is_error (ch_error_ (cw_chan ws)) = false -> is_error (ch_error_ (cw_chan wr)) = false ->
  (cw_recvs wr).*2 `prefix_of` (cw_sends ws).*2 ->
  omap BasicChannel.send_start (cw_trace ws) = starts_from BasicChannel.one_piece 0 (cw_sends ws) /\
  reads_on (Data := unit) 0 wr `prefix_of` writes_on (Data := unit) 0 ws.
Proof.
  intros Hs Hr Hes Her Hp. pose proof (ck_inv _ (chan_reach_ok (Data := unit) ws Hs)) as Hi.
  assert (omap BasicChannel.send_start (cw_trace ws) = starts_from BasicChannel.one_piece 0 (cw_sends ws)) as HS.
  { refine (started_sends (Data := unit) ws BasicChannel.one_piece Hs Hes eq_refl _).
    refine (proj1 (sides_started BasicChannel.sends_side BasicChannel.recvs_side (@Some BasicChannel.cb) (fun _ => True) (fun _ => True)
      (fun _ _ _ _ => True) BasicChannel.basic_laws _ _ _ _ _ _ Hi Hes _ _)); simpl; by rewrite Hes. }
  split; [done|]. destruct (started_recvs (Data := unit) wr BasicChannel.one_piece Hr Her eq_refl) as [rest HR].
  eapply ends_agree; [|symmetry; exact HS | exact HR | exact Hp].
  intros n [p l] [q m] Hab. simpl in Hab. subst m. unfold BasicChannel.one_piece. simpl. by destruct (l =? 0).
Qed.

(** An xth or cma channel without an error has written a descriptor with the
    address of each tensor that the user sent, in order and but for empty ones; and
    a peer whose user asked for the same sizes, or for fewer tensors, reads the
    descriptors of the tensors with the same numbers. *)
Lemma copy_framing_agrees (ws wr : CopyWorld) :
  chan_reach (Data := CopyChannel.Descriptor) ws -> chan_reach (Data := CopyChannel.Descriptor) wr ->
  is_error (ch_error_ (cw_chan ws)) = false -> is_error (ch_error_ (cw_chan wr)) = false ->
  (cw_recvs wr).*2 `prefix_of` (cw_sends ws).*2 ->
  omap CopyChannel.send_start (cw_trace ws) = starts_from CopyChannel.one_descriptor 0 (cw_sends ws) /\
  reads_on (Data := CopyChannel.Descriptor) 0 wr `prefix_of` writes_on (Data := CopyChannel.Descriptor) 0 ws.
Proof.
  intros Hs Hr Hes Her Hp. pose proof (ck_inv _ (chan_reach_ok (Data := CopyChannel.Descriptor) ws Hs)) as Hi.
  assert (omap CopyChannel.send_start (cw_trace ws) = starts_from CopyChannel.one_descriptor 0 (cw_sends ws)) as HS.
  { refine (started_sends (Data := CopyChannel.Descriptor) ws CopyChannel.one_descriptor Hs Hes eq_refl _).
    refine (proj1 (sides_started CopyChannel.sends_side CopyChannel.recvs_side CopyChannel.key (fun _ => True) (fun _ => True)
      (fun _ _ _ _ => True) CopyChannel.copy_laws _ _ _ _ _ _ Hi Hes _ _)); simpl; by rewrite Hes. }
  split; [done|]. destruct (started_recvs (Data := CopyChannel.Descriptor) wr CopyChannel.one_read Hr Her eq_refl) as [rest HR].
  eapply ends_agree; [|symmetry; exact HS | exact HR | exact Hp].
  intros n [p l] [q m] Hab. simpl in Hab. subst m. unfold CopyChannel.one_descriptor, CopyChannel.one_read. simpl. by destruct (l =? 0).
Qed.

(** A cuda_xth channel without an error has written a descriptor with the
    address of each tensor that the user sent, in order and but for empty ones; and
    a peer whose user asked for the same sizes, or for fewer tensors, reads the
    descriptors of the tensors with the same numbers. *)
Lemma cuda_xth_framing_agrees (ws wr : XCudaWorld) :
  chan_reach (Data := CudaXthChannel.Descriptor) ws -> chan_reach (Data := CudaXthChannel.Descriptor) wr ->
  is_error (ch_error_ (cw_chan ws)) = false -> is_error (ch_error_ (cw_chan wr)) = false ->
  (cw_recvs wr).*2 `prefix_of` (cw_sends ws).*2 ->
  omap CudaXthChannel.send_start (cw_trace ws) =
    starts_from (CudaXthChannel.one_descriptor (CudaXthChannel.links_ (ch_impl (cw_chan ws)))) 0 (cw_sends ws) /\
  reads_on (Data := CudaXthChannel.Descriptor) 0 wr `prefix_of` writes_on (Data := CudaXthChannel.Descriptor) 0 ws.
Proof.
  intros Hs Hr Hes Her Hp. pose proof (ck_inv _ (chan_reach_ok (Data := CudaXthChannel.Descriptor) ws Hs)) as Hi.
  set (links := CudaXthChannel.links_ (ch_impl (cw_chan ws))).
  assert (omap CudaXthChannel.send_start (cw_trace ws) = starts_from (CudaXthChannel.one_descriptor links) 0 (cw_sends ws)) as HS.
  { refine (started_sends (Data := CudaXthChannel.Descriptor) ws (CudaXthChannel.one_descriptor links) Hs Hes eq_refl _).
    refine (proj1 (sides_started CudaXthChannel.sends_side CudaXthChannel.recvs_side CudaXthChannel.key (fun _ => True) (fun _ => True)
      (fun _ _ _ _ => True) CudaXthChannel.xcuda_laws _ _ _ _ _ _ Hi Hes _ _)); simpl; by rewrite Hes. }
  split; [done|]. destruct (started_recvs (Data := CudaXthChannel.Descriptor) wr CudaXthChannel.one_read Hr Her eq_refl) as [rest HR].
  eapply ends_agree; [|symmetry; exact HS | exact HR | exact Hp].
  intros n [p l] [q m] Hab. simpl in Hab. subst m. unfold CudaXthChannel.one_descriptor, CudaXthChannel.one_read. simpl. by destruct (l =? 0).
Qed.


(** ** Chunks *)

Lemma cutpoint_exact len n i :
  0 <= len -> (i <= n)%nat -> (0 < n)%nat -> len * Z.of_nat n < 2 ^ 64 ->
  MptChannel.cutpoint len n i = len * Z.of_nat i / Z.of_nat n.
Proof. intros H0 Hi Hn Hb. unfold MptChannel.cutpoint. rewrite u64_small; [done|]. unfold is_u64. nia. Qed.

Lemma cutpoint_bounds len n i :
  0 <= len -> (i < n)%nat -> len * Z.of_nat n < 2 ^ 64 ->
  0 <= MptChannel.cutpoint len n i <= MptChannel.cutpoint len n (S i) /\ MptChannel.cutpoint len n (S i) <= len.
Proof.
  intros H0 Hi Hb. rewrite !cutpoint_exact by (lia || done).
  assert (0 < Z.of_nat n) as Hn by lia. split_and!.
  - apply Z.div_pos; nia.
  - apply Z.div_le_mono; nia.
  - apply Z.div_le_upper_bound; nia.
Qed.

Lemma chunk_length_exact len n i :
  0 <= len -> (i < n)%nat -> len * Z.of_nat n < 2 ^ 64 ->
  MptChannel.chunk_length len n i = MptChannel.cutpoint len n (S i) - MptChannel.cutpoint len n i.
Proof.
  intros H0 Hi Hb. destruct (cutpoint_bounds len n i) as [[? ?] ?]; [done..|].
  unfold MptChannel.chunk_length. rewrite u64_small; [done|]. unfold is_u64. nia.
Qed.

(** The bytes of a chunk. *)
Definition chunk_of {A} (data : list A) (n i : nat) : list A :=
  take (Z.to_nat (MptChannel.chunk_length (Z.of_nat (length data)) n i))
    (drop (Z.to_nat (MptChannel.cutpoint (Z.of_nat (length data)) n i)) data).

Lemma chunks_prefix {A} (data : list A) n k :
  (k <= n)%nat -> (0 < n)%nat -> Z.of_nat (length data) * Z.of_nat n < 2 ^ 64 ->
  concat (chunk_of data n <$> seq 0 k) = take (Z.to_nat (MptChannel.cutpoint (Z.of_nat (length data)) n k)) data.
Proof.
  intros Hk Hn Hb. induction k as [|k IH].
  - rewrite cutpoint_exact by lia. by rewrite Z.mul_0_r, Z.div_0_l by lia.
  - rewrite seq_S, fmap_app, concat_app, IH by lia. cbn [fmap list_fmap concat]. rewrite app_nil_r. unfold chunk_of.
    destruct (cutpoint_bounds (Z.of_nat (length data)) n k) as [[? ?] ?]; [lia..|].
    rewrite chunk_length_exact by lia. rewrite Nat.add_0_l, take_take_drop. f_equal. lia.
Qed.

(** The chunks of a tensor, one for each of the [n] lanes, cover it: put
    together in the order of the lanes they are the tensor, and no chunk reaches
    beyond its end.  The only bound is that [length * n] fits in 64 bits. *)
Lemma mpt_chunks_tile {A} (data : list A) (n : nat) :
  (0 < n)%nat -> Z.of_nat (length data) * Z.of_nat n < 2 ^ 64 ->
  concat (chunk_of data n <$> seq 0 n) = data /\
  (forall i, (i < n)%nat ->
     0 <= MptChannel.cutpoint (Z.of_nat (length data)) n i /\ 0 <= MptChannel.chunk_length (Z.of_nat (length data)) n i /\
     MptChannel.cutpoint (Z.of_nat (length data)) n i + MptChannel.chunk_length (Z.of_nat (length data)) n i <=
       Z.of_nat (length data)).
Proof.
  intros Hn Hb. split.
  - rewrite chunks_prefix by done. rewrite cutpoint_exact, Z.div_mul by lia. rewrite Nat2Z.id. by apply firstn_all.
  - intros i Hi. destruct (cutpoint_bounds (Z.of_nat (length data)) n i) as [[? ?] ?]; [lia..|].
    rewrite chunk_length_exact by lia. lia.
Qed.

(** ** Concrete worlds *)

Section Run.
Context {I Pkt Cb Data : Type} `{!ChannelBase.ChannelImpl I Pkt Cb Data, !ChannelSafe I Pkt Cb Data}.

Fixpoint run (w : CWorld I Pkt Cb) (evs : list (chan_event Data)) : outcome (CWorld I Pkt Cb) :=
  match evs with
  | [] => Done w
  | ev :: evs => w' ← chan_step w ev; run w' evs
  end.

Fixpoint all_ok (w : CWorld I Pkt Cb) (evs : list (chan_event Data)) : Prop :=
  match evs with
  | [] => True
  | ev :: evs => chan_event_ok w ev /\ match chan_step w ev with Done w' => all_ok w' evs | Throw _ => False end
  end.

Lemma chan_run_reach w evs w' : chan_reach w -> all_ok w evs -> run w evs = Done w' -> chan_reach w'.
Proof.
  revert w. induction evs as [|ev evs IH]; intros w Hw Hok Hrun; simpl in *; [by apply done_inj in Hrun as <-|].
  destruct Hok as [Hev Hok]. destruct (chan_step w ev) as [w1|] eqn:Hst; [|done].
  apply (IH w1); [by eapply chan_next | done | done].
Qed.
End Run.

Definition get_world {I Pkt Cb} (w : CWorld I Pkt Cb) (m : outcome (CWorld I Pkt Cb)) : CWorld I Pkt Cb :=
  match m with Done w => w | Throw _ => w end.

(** An mpt channel that is closed before its lanes are there. *)
Definition mpt_start : MptWorld :=
  mkCWorld (mkChannel kSuccess 0 0
    (MptChannel.mkChannelImpl (MptChannel.mkLinks 7 kConnect CLIENT_READING_HELLO 2 0 [None; None] ∅) [] []))
    [CbHelloRead] [CtxEnroll; ConnReadNop 7 CbHelloRead] [] [].
Definition mpt_data : MptChannel.Data :=
  mkData ["a"; "b"]%string (fun _ => 0) (ServerHello [mkLaneAdvertisement "a" 3; mkLaneAdvertisement "b" 4])
    (fun i => 10 + Z.of_nat i) None.
Definition mpt_lost_events : list (chan_event MptChannel.Data) :=
  [CSend 100 4; CSend 200 0; CSend 300 4; CClose; CDeliver 0 ChannelClosedError mpt_data].
Definition mpt_lost : MptWorld := get_world mpt_start (run mpt_start mpt_lost_events).

Lemma mpt_start_reach : chan_reach (Data := MptChannel.Data) mpt_start.
Proof.
  apply (chan_start false mpt_data (MptChannel.newChannelImpl 7 kConnect 2)); [|vm_compute; reflexivity].
  exists 7, kConnect, 2%nat. split_and!; [done | lia..| done].
Qed.

(** Proves that the next event of a concrete run is allowed. *)
Ltac next_ok :=
  cbn [all_ok]; split;
  [ cbn [chan_event_ok cw_sends cw_recvs cw_out cw_chan length];
    lazymatch goal with
    | |- True => exact I
    | |- _ /\ _ => split; [vm_compute; reflexivity | first [exact I | vm_compute; repeat split; discriminate]]
    | |- ex _ => eexists; split;
        [reflexivity | first [by intros | intros _ _; exact I | intros _ _; eexists; split; reflexivity]]
    | |- _ => vm_compute; reflexivity
    end
  | match goal with |- match ?m with Done _ => _ | Throw _ => _ end =>
      let v := eval vm_compute in m in replace m with v by (vm_compute; reflexivity)
    end ].

(** C34: it is not enough to close an mpt channel: when it has no lanes yet, a tensor
    without bytes that was sent between two others makes [advanceAllOperations]
    stop early, and the callback of the last one is never called, although
    nothing is outstanding any more. *)
Theorem mpt_lost_callback :
  chan_reach (Data := MptChannel.Data) mpt_lost /\ cw_out mpt_lost = [] /\ length (cw_sends mpt_lost) = 3%nat /\
  is_error (ch_error_ (cw_chan mpt_lost)) = true /\
  sends_done mpt_lost = [mkCallback 1 1; mkCallback 0 0] /\ ~ exactly_once mpt_lost.
Proof.
  split_and!; [|vm_compute; reflexivity..|].
  - apply (chan_run_reach mpt_start mpt_lost_events); [apply mpt_start_reach | unfold mpt_lost_events, mpt_start; repeat next_ok; exact I | vm_compute; reflexivity].
  - intros [Hs _]. apply Permutation_length in Hs. vm_compute in Hs. discriminate.
Qed.

Ltac reach_by evs lem :=
  apply (chan_run_reach _ evs _ lem);
  [ unfold evs;
    match goal with |- all_ok ?w _ => let v := eval vm_compute in w in replace w with v by (vm_compute; reflexivity) end;
    repeat next_ok; exact I
  | vm_compute; reflexivity ].

Definition basic_start : BasicWorld := get_world
  (mkCWorld (newChannel (BasicChannel.newChannelImpl 7)) [] [] [] [])
  (chan_init (Data := unit) false tt (BasicChannel.newChannelImpl 7)).
Lemma basic_start_reach : chan_reach (Data := unit) basic_start.
Proof. by apply (chan_start false tt (BasicChannel.newChannelImpl 7)); [exists 7|]. Qed.

Definition basic_quiet_events : list (chan_event unit) :=
  [CSend 100 4; CSend 200 0; CDeliver 0 kSuccess tt; CRecv 300 8; CDeliver 0 EOFError tt].
Definition basic_quiet : BasicWorld := get_world basic_start (run basic_start basic_quiet_events).
Lemma basic_quiet_reach : chan_reach (Data := unit) basic_quiet.
Proof. reach_by basic_quiet_events basic_start_reach. Qed.

Definition basic_sender_events : list (chan_event unit) :=
  [CSend 100 4; CSend 200 0; CSend 300 8; CDeliver 0 kSuccess tt].
Definition basic_sender : BasicWorld := get_world basic_start (run basic_start basic_sender_events).
Lemma basic_sender_reach : chan_reach (Data := unit) basic_sender.
Proof. reach_by basic_sender_events basic_start_reach. Qed.

Definition basic_receiver_events : list (chan_event unit) :=
  [CRecv 500 4; CRecv 600 0].
Definition basic_receiver : BasicWorld := get_world basic_start (run basic_start basic_receiver_events).
Lemma basic_receiver_reach : chan_reach (Data := unit) basic_receiver.
Proof. reach_by basic_receiver_events basic_start_reach. Qed.

Definition copy_links : CopyChannel.Links := CopyChannel.mkLinks 7 8 (Some 1234).
Definition copy_descriptor : CopyChannel.Descriptor := CopyChannel.mkDescriptor (Some 4321) 100.
Definition copy_start : CopyWorld := get_world
  (mkCWorld (newChannel (CopyChannel.newChannelImpl copy_links)) [] [] [] [])
  (chan_init (Data := CopyChannel.Descriptor) false copy_descriptor (CopyChannel.newChannelImpl copy_links)).
Lemma copy_start_reach : chan_reach (Data := CopyChannel.Descriptor) copy_start.
Proof. by apply (chan_start false copy_descriptor (CopyChannel.newChannelImpl copy_links)); [exists copy_links|]. Qed.

Definition copy_quiet_events : list (chan_event CopyChannel.Descriptor) :=
  [CSend 100 4; CRecv 200 4; CRecv 300 0; CDeliver 1 kSuccess copy_descriptor; CDeliver 1 kSuccess copy_descriptor;
   CDeliver 1 kSuccess copy_descriptor].
Definition copy_quiet : CopyWorld := get_world copy_start (run copy_start copy_quiet_events).
Lemma copy_quiet_reach : chan_reach (Data := CopyChannel.Descriptor) copy_quiet.
Proof. reach_by copy_quiet_events copy_start_reach. Qed.

Definition copy_sender_events : list (chan_event CopyChannel.Descriptor) :=
  [CSend 100 4; CSend 200 0; CSend 300 8; CDeliver 1 kSuccess copy_descriptor].
Definition copy_sender : CopyWorld := get_world copy_start (run copy_start copy_sender_events).
Lemma copy_sender_reach : chan_reach (Data := CopyChannel.Descriptor) copy_sender.
Proof. reach_by copy_sender_events copy_start_reach. Qed.

Definition copy_receiver_events : list (chan_event CopyChannel.Descriptor) :=
  [CRecv 500 4; CRecv 600 0; CDeliver 0 kSuccess copy_descriptor].
Definition copy_receiver : CopyWorld := get_world copy_start (run copy_start copy_receiver_events).
Lemma copy_receiver_reach : chan_reach (Data := CopyChannel.Descriptor) copy_receiver.
Proof. reach_by copy_receiver_events copy_start_reach. Qed.

Definition xcuda_links : CudaXthChannel.Links :=
  CudaXthChannel.mkLinks 7 8 (CudaXthChannel.mkCuda (fun _ => 1) (fun n => n) (fun n => n) (fun b => b) (fun _ => 0)).
Definition xcuda_descriptor : CudaXthChannel.Descriptor := CudaXthChannel.mkDescriptor 500 100 1 2.
Definition xcuda_start : XCudaWorld := get_world
  (mkCWorld (newChannel (CudaXthChannel.newChannelImpl xcuda_links)) [] [] [] [])
  (chan_init (Data := CudaXthChannel.Descriptor) false xcuda_descriptor (CudaXthChannel.newChannelImpl xcuda_links)).
Lemma xcuda_start_reach : chan_reach (Data := CudaXthChannel.Descriptor) xcuda_start.
Proof. by apply (chan_start false xcuda_descriptor (CudaXthChannel.newChannelImpl xcuda_links)); [exists xcuda_links|]. Qed.

Definition xcuda_quiet_events : list (chan_event CudaXthChannel.Descriptor) :=
  [CSend 1 4; CRecv 2 4; CRecv 3 0; CDeliver 1 kSuccess xcuda_descriptor; CDeliver 1 kSuccess xcuda_descriptor].
Definition xcuda_quiet : XCudaWorld := get_world xcuda_start (run xcuda_start xcuda_quiet_events).
Lemma xcuda_quiet_reach : chan_reach (Data := CudaXthChannel.Descriptor) xcuda_quiet.
Proof. reach_by xcuda_quiet_events xcuda_start_reach. Qed.

Definition xcuda_sender_events : list (chan_event CudaXthChannel.Descriptor) :=
  [CSend 1 4; CSend 2 0; CSend 3 8; CDeliver 1 kSuccess xcuda_descriptor].
Definition xcuda_sender : XCudaWorld := get_world xcuda_start (run xcuda_start xcuda_sender_events).
Lemma xcuda_sender_reach : chan_reach (Data := CudaXthChannel.Descriptor) xcuda_sender.
Proof. reach_by xcuda_sender_events xcuda_start_reach. Qed.

Definition xcuda_receiver_events : list (chan_event CudaXthChannel.Descriptor) :=
  [CRecv 5 4; CRecv 6 0; CDeliver 0 kSuccess xcuda_descriptor].
Definition xcuda_receiver : XCudaWorld := get_world xcuda_start (run xcuda_start xcuda_receiver_events).
Lemma xcuda_receiver_reach : chan_reach (Data := CudaXthChannel.Descriptor) xcuda_receiver.
Proof. reach_by xcuda_receiver_events xcuda_start_reach. Qed.

Definition mpt_quiet_events : list (chan_event MptChannel.Data) :=
  [CSend 100 5; CDeliver 0 kSuccess mpt_data; CDeliver 2 kSuccess mpt_data; CDeliver 2 kSuccess mpt_data].
Definition mpt_quiet : MptWorld := get_world mpt_start (run mpt_start mpt_quiet_events).
Lemma mpt_quiet_reach : chan_reach (Data := MptChannel.Data) mpt_quiet.
Proof. reach_by mpt_quiet_events mpt_start_reach. Qed.

Definition mpt_sender_events : list (chan_event MptChannel.Data) :=
  [CSend 100 5; CDeliver 0 kSuccess mpt_data; CSend 200 0; CSend 300 9].
Definition mpt_sender : MptWorld := get_world mpt_start (run mpt_start mpt_sender_events).
Lemma mpt_sender_reach : chan_reach (Data := MptChannel.Data) mpt_sender.
Proof. reach_by mpt_sender_events mpt_start_reach. Qed.

Definition mpt_receiver_events : list (chan_event MptChannel.Data) :=
  [CRecv 500 5; CRecv 600 0; CDeliver 0 kSuccess mpt_data].
Definition mpt_receiver : MptWorld := get_world mpt_start (run mpt_start mpt_receiver_events).
Lemma mpt_receiver_reach : chan_reach (Data := MptChannel.Data) mpt_receiver.
Proof. reach_by mpt_receiver_events mpt_start_reach. Qed.

(** ** Witnesses *)

Lemma channels_no_throw_witness :
  exists w', chan_step (Data := unit) basic_sender (CDeliver 0 kSuccess tt) = Done w' /\ at_most_once w'.
Proof.
  apply (proj1 channels_no_throw basic_sender (CDeliver 0 kSuccess tt) basic_sender_reach).
  eexists. split; [vm_compute; reflexivity | intros _ _; exact I].
Defined.

Lemma channels_exactly_once_witness :
  (length (cw_sends basic_quiet) = 2%nat /\ exactly_once basic_quiet) /\
  length (cw_recvs xcuda_quiet) = 2%nat /\ exactly_once xcuda_quiet.
Proof.
  split; split; [reflexivity | | reflexivity|].
  - apply (proj1 channels_exactly_once basic_quiet basic_quiet_reach). vm_compute. reflexivity.
  - apply (proj1 (proj2 (proj2 channels_exactly_once)) xcuda_quiet xcuda_quiet_reach).
    replace (cw_out xcuda_quiet) with [CudaXthChannel.CbDescriptorWritten 0; CudaXthChannel.CbCompletionWritten 0]
      by (vm_compute; reflexivity). repeat constructor.
Defined.

Lemma mpt_exactly_once_witness : length (cw_sends mpt_quiet) = 1%nat /\ exactly_once mpt_quiet.
Proof.
  split; [reflexivity | apply (mpt_exactly_once mpt_quiet mpt_quiet_reach)].
  - left. vm_compute. reflexivity.
  - replace (cw_out mpt_quiet) with [CbClientHelloWritten 0; CbClientHelloWritten 1] by (vm_compute; reflexivity).
    repeat constructor.
Defined.

Lemma basic_framing_agrees_witness :
  reads_on (Data := unit) 0 basic_receiver = [(0, 4)] /\ writes_on (Data := unit) 0 basic_sender = [(0, 4); (2, 8)] /\
  reads_on (Data := unit) 0 basic_receiver `prefix_of` writes_on (Data := unit) 0 basic_sender.
Proof.
  split; [reflexivity|]. split; [reflexivity|].
  apply (basic_framing_agrees basic_sender basic_receiver basic_sender_reach basic_receiver_reach eq_refl eq_refl).
  exists [8]. reflexivity.
Defined.

Lemma copy_framing_agrees_witness :
  reads_on (Data := CopyChannel.Descriptor) 0 copy_receiver = [(0, 0)] /\
  reads_on (Data := CopyChannel.Descriptor) 0 copy_receiver `prefix_of`
    writes_on (Data := CopyChannel.Descriptor) 0 copy_sender.
Proof.
  split; [reflexivity|].
  apply (copy_framing_agrees copy_sender copy_receiver copy_sender_reach copy_receiver_reach eq_refl eq_refl).
  exists [8]. reflexivity.
Defined.

Lemma cuda_xth_framing_agrees_witness :
  reads_on (Data := CudaXthChannel.Descriptor) 0 xcuda_receiver = [(0, 0)] /\
  reads_on (Data := CudaXthChannel.Descriptor) 0 xcuda_receiver `prefix_of`
    writes_on (Data := CudaXthChannel.Descriptor) 0 xcuda_sender.
Proof.
  split; [reflexivity|].
  apply (cuda_xth_framing_agrees xcuda_sender xcuda_receiver xcuda_sender_reach xcuda_receiver_reach eq_refl eq_refl).
  exists [8]. reflexivity.
Defined.


Lemma mpt_chunks_tile_witness :
  chunk_of [1; 2; 3; 4; 5] 2 0 = [1; 2] /\ concat (chunk_of [1; 2; 3; 4; 5] 2 <$> seq 0 2) = [1; 2; 3; 4; 5].
Proof. split; [reflexivity | apply (mpt_chunks_tile [1; 2; 3; 4; 5] 2); simpl; lia]. Defined.
