(* ===== verification/CudaBasicTheorems.v ===== *)
(** * What the channel of [CudaBasicChannel] guarantees about chunks

    Besides the theorems of [ChannelTheorems]: the chunks cover the tensors, both
    ends agree on them, and what is known when nothing is outstanding any more. *)

From S2P Require Import Prelude Messages OpsStateMachine LocalOps ChannelBase ChannelSides CudaBasicChannel.
From S2P Require Import CudaBasicSafe.
From S2P Require Import Chunks CudaBasicTensors ChannelTheorems.

(** The sizes of chunks given to the CPU channel, and of the chunks of a tensor. *)
Definition sent_sizes (w : BCudaWorld) : list Z := pc_len <$> omap send_start (cw_trace w).
Definition received_sizes (w : BCudaWorld) : list Z := pc_len <$> omap recv_start (cw_trace w).
Definition chunk_sizes (len : Z) : list Z := (chunks (0, len)).*2.

Lemma starts_sizes n l : pc_len <$> starts_from tensor_pieces n l = l.*2 ≫= chunk_sizes.
Proof.
  revert n. induction l as [|a l IH]; intros n; [done|]. simpl. rewrite fmap_app, IH. f_equal.
  unfold tensor_pieces, chunk_sizes, Chunks.chunks. simpl. by rewrite <- !list_fmap_compose.
Qed.

(** [all_done]: nothing that an operation waits for is outstanding. *)
Definition all_done (w : BCudaWorld) : Prop := Forall (fun k => awaits k = false) (cw_out w).

Lemma sizes_started (w : BCudaWorld) :
  chan_reach (Data := Z) w -> is_error (ch_error_ (cw_chan w)) = false ->
  (exists rest, (cw_sends w).*2 ≫= chunk_sizes = sent_sizes w ++ rest /\ (all_done w -> rest = [])) /\
  (exists rest, (cw_recvs w).*2 ≫= chunk_sizes = received_sizes w ++ rest /\ (all_done w -> rest = [])).
Proof.
  intros Hw He. pose proof (chan_reach_ok (Data := Z) w Hw) as Hok. destruct (ck_starts _ Hok He) as [HS HR].
  change (starts_from tensor_pieces 0 (cw_sends w) = omap send_start (cw_trace w) ++ (chunkSendOps_ (ch_impl (cw_chan w)) ≫= send_unstarted)) in HS.
  change (starts_from tensor_pieces 0 (cw_recvs w) = omap recv_start (cw_trace w) ++ (chunkRecvOps_ (ch_impl (cw_chan w)) ≫= recv_unstarted)) in HR.
  split; eexists; (split; [rewrite <- (starts_sizes 0), ?HS, ?HR; apply fmap_app|]);
    intros Hq; destruct (bcuda_quiet _ _ _ _ _ (ck_inv _ Hok) Hq) as [HS0 HR0]; simpl; by rewrite ?HS0, ?HR0.
Qed.


(** ** Concrete worlds *)

(** Buffers 0 and 1 live in CPU memory, others on the device 3. *)
Definition bcuda_links : Links :=
  mkLinks 7 (mkBuffers (fun b => if b <? 2 then CpuDevice else CudaDevice 3) (fun b => b * 2 ^ 32) (fun b => b)).
Definition bcuda_start : BCudaWorld := get_world
  (mkCWorld (newChannel (newChannelImpl bcuda_links)) [] [] [] [])
  (chan_init (Data := Z) false 0 (newChannelImpl bcuda_links)).
Lemma bcuda_start_reach : chan_reach (Data := Z) bcuda_start.
Proof. by apply (chan_start false 0 (newChannelImpl bcuda_links)); [exists bcuda_links|]. Qed.

(** A tensor on a device, of two chunks; all is allocated, copied and sent. *)
Definition bcuda_sender_events : list (chan_event Z) :=
  [CSend 5 (kSlotSize + 100); CDeliver 0 kSuccess 9; CDeliver 0 kSuccess 8; CDeliver 1 kSuccess 0; CDeliver 2 kSuccess 0;
   CDeliver 2 kSuccess 0; CDeliver 2 kSuccess 0].
Definition bcuda_sender : BCudaWorld := get_world bcuda_start (run bcuda_start bcuda_sender_events).
Lemma bcuda_sender_reach : chan_reach (Data := Z) bcuda_sender.
Proof. reach_by bcuda_sender_events bcuda_start_reach. Qed.

(** Its first chunk is received in CPU memory. *)
Definition bcuda_receiver_events : list (chan_event Z) :=
  [CRecv 1 (kSlotSize + 100); CDeliver 0 kSuccess 0; CDeliver 1 kSuccess 0].
Definition bcuda_receiver : BCudaWorld := get_world bcuda_start (run bcuda_start bcuda_receiver_events).
Lemma bcuda_receiver_reach : chan_reach (Data := Z) bcuda_receiver.
Proof. reach_by bcuda_receiver_events bcuda_start_reach. Qed.

(** The last chunk of a tensor in CPU memory, sent before the first one: the user
    is told that the tensor was sent while its memory is still in use. *)
Definition bcuda_early_events : list (chan_event Z) := [CSend 1 (kSlotSize + 100); CDeliver 3 kSuccess 0].
Definition bcuda_early : BCudaWorld := get_world bcuda_start (run bcuda_start bcuda_early_events).
Lemma bcuda_early_reach : chan_reach (Data := Z) bcuda_early.
Proof. reach_by bcuda_early_events bcuda_start_reach. Qed.

Lemma cuda_basic_last_chunk_first :
  chan_reach (Data := Z) bcuda_early /\ ch_error_ (cw_chan bcuda_early) = kSuccess /\
  sends_done bcuda_early = [mkCallback 0 0] /\ cw_out bcuda_early = [CbReadyToSendWritten 0 0 2; CbCpuSent 0; CbReadyToSendWritten 0 1 2].
Proof. split; [exact bcuda_early_reach|]. split_and!; vm_compute; reflexivity. Qed.

(** ** Witnesses *)

