(* ===== verification/CopyContext.v ===== *)
(** * Contexts that copy memory

    Models [channel/cma/context_impl.cc] and [channel/xth/context_impl.cc], with
    [common/queue.h] and the base [channel/context_impl_boilerplate.h]: channels
    request copies, a thread performs them one at a time; closing the context
    closes its channels, then tells the thread to stop.  The system call
    [process_vm_readv] is a parameter. *)

From S2P Require Import Prelude Enrollment Messages ChannelBase.

(** ** Memory *)

(** The byte at each address. *)
Definition Memory : Type := Z -> Z.

(** [length] bytes of [src] from [remotePtr], at [localPtr]. *)
Definition write_range (localPtr remotePtr length : Z) (src m : Memory) : Memory :=
  fun a => if (localPtr <=? a) && (a <? localPtr + length) then src (remotePtr + (a - localPtr)) else m a.

(** ** Copies across processes *)

Section Copy.
(** [process_vm_readv] for one piece: the local memory, the addresses, the length and
    the process; it returns the number of bytes read, or the opposite of [errno]. *)
Variable process_vm_readv : Memory -> Z -> Z -> Z -> Z -> Z * Memory.
(** The memory of another process. *)
Variable remote : Z -> Memory.

Definition callProcessVmReadv (localPtr remotePtr length pid : Z) (m : Memory) : Error * Memory :=
  let '(nread, m) := process_vm_readv m localPtr remotePtr length pid in
  if nread <? 0 then (SystemError (- nread), m)
  else if negb (nread =? length) then (ShortReadError length nread, m)
  else (kSuccess, m).

Definition kMaxBytesReadableAtOnce : Z := 0x7ffff000.

(** The loop, with [fuel] rounds at most. *)
Fixpoint performCopy_loop (fuel : nat) (offset localPtr remotePtr length remotePid : Z) (m : Memory) : option (Error * Memory) :=
  if negb (offset <? length) then Some (kSuccess, m)
  else
    match fuel with
    | O => None
    | S fuel =>
        let '(error, m) :=
          callProcessVmReadv (localPtr + offset) (remotePtr + offset) (Z.min (length - offset) kMaxBytesReadableAtOnce) remotePid m in
        if is_error error then Some (error, m)
        else performCopy_loop fuel (u64 (offset + kMaxBytesReadableAtOnce)) localPtr remotePtr length remotePid m
    end.

Definition performCopy (fuel : nat) (localPtr remotePtr length remotePid : Z) (m : Memory) : option (Error * Memory) :=
  performCopy_loop fuel 0 localPtr remotePtr length remotePid m.

(** The number of rounds. *)
Definition copy_rounds (length : Z) : nat := Z.to_nat ((length + kMaxBytesReadableAtOnce - 1) / kMaxBytesReadableAtOnce).

(** The system call only writes in the region given, and when it has read all of it
    the region holds what it was asked to read. *)
Definition readv_law : Prop := forall m l r n pid,
  let '(nread, m') := process_vm_readv m l r n pid in
  (forall a, ~ l <= a < l + n -> m' a = m a) /\
  (nread = n -> forall i, 0 <= i < n -> m' (l + i) = remote pid (r + i)).

(** It transfers as much as is asked for, up to its limit. *)
Definition readv_complete (pid : Z) : Prop := forall m l r n,
  0 <= n -> (process_vm_readv m l r n pid).1 = Z.min n kMaxBytesReadableAtOnce.

Lemma callProcessVmReadv_ok l r n pid m e m' :
  readv_law -> callProcessVmReadv l r n pid m = (e, m') ->
  (forall a, ~ l <= a < l + n -> m' a = m a) /\ (e = kSuccess -> forall i, 0 <= i < n -> m' (l + i) = remote pid (r + i)).
Proof.
  intros Hlaw. unfold callProcessVmReadv. specialize (Hlaw m l r n pid). destruct (process_vm_readv m l r n pid) as [nread m1].
  destruct Hlaw as [H1 H2]. destruct (nread <? 0); [by intros [= <- <-]|].
  destruct (nread =? n) eqn:Hn; simpl; intros [= <- <-]; split; try done. intros _. apply H2. by apply Z.eqb_eq.
Qed.

Lemma callProcessVmReadv_success l r n pid m :
  readv_complete pid -> 0 <= n <= kMaxBytesReadableAtOnce -> (callProcessVmReadv l r n pid m).1 = kSuccess.
Proof.
  intros Hc Hn. specialize (Hc m l r n ltac:(lia)). unfold callProcessVmReadv. destruct (process_vm_readv m l r n pid) as [nread m1].
  simpl in Hc. rewrite Z.min_l in Hc by lia. subst nread. replace (n <? 0) with false by lia. by rewrite Z.eqb_refl.
Qed.

(** What the loop has done when it stops, from any multiple of the limit. *)
Lemma performCopy_loop_ok fuel : forall offset l r n pid m,
  readv_law -> 0 <= offset -> 0 <= n -> n + kMaxBytesReadableAtOnce <= 2 ^ 64 ->
  n <= offset + Z.of_nat fuel * kMaxBytesReadableAtOnce ->
  exists e m', performCopy_loop fuel offset l r n pid m = Some (e, m') /\
    (forall a, ~ l + offset <= a < l + n -> m' a = m a) /\
    (e = kSuccess -> forall i, offset <= i < n -> m' (l + i) = remote pid (r + i)) /\
    (readv_complete pid -> e = kSuccess).
Proof.
  assert (kMaxBytesReadableAtOnce = 0x7ffff000) as Hk by done.
  induction fuel as [|fuel IH]; intros offset l r n pid m Hlaw Ho Hn Hb Hf; simpl; destruct (offset <? n) eqn:Hlt; simpl.
  - lia.
  - eexists _, _. split; [reflexivity|]. split_and!; try done. lia.
  - destruct (callProcessVmReadv (l + offset) (r + offset) (Z.min (n - offset) kMaxBytesReadableAtOnce) pid m) as [e1 m1] eqn:Hcall.
    destruct (callProcessVmReadv_ok _ _ _ _ _ _ _ Hlaw Hcall) as [C1 C2].
    destruct (is_error e1) eqn:He.
    { eexists _, _. split; [reflexivity|]. split_and!; [intros a Ha; apply C1; lia | by intros -> |].
      intros Hc. pose proof (callProcessVmReadv_success (l + offset) (r + offset) (Z.min (n - offset) kMaxBytesReadableAtOnce) pid m Hc) as Hs.
      rewrite Hcall in Hs. apply Hs. lia. }
    assert (e1 = kSuccess) as -> by by destruct e1. rewrite u64_small by (unfold is_u64; lia).
    destruct (IH (offset + kMaxBytesReadableAtOnce) l r n pid m1 Hlaw) as (e & m' & Hr & I1 & I2 & I3); [lia..|].
    exists e, m'. split; [done|]. split_and!; [| |done].
    + intros a Ha. rewrite I1, C1 by lia. done.
    + intros -> i Hi. destruct (Z_lt_le_dec i (offset + kMaxBytesReadableAtOnce)).
      * rewrite I1 by lia. replace (l + i) with (l + offset + (i - offset)) by lia. rewrite C2 by (done || lia). f_equal. lia.
      * apply I2; [done | lia].
  - eexists _, _. split; [reflexivity|]. split_and!; try done. lia.
Qed.

Lemma copy_rounds_enough n : 0 <= n -> n <= 0 + Z.of_nat (copy_rounds n) * kMaxBytesReadableAtOnce.
Proof.
  intros Hn. unfold copy_rounds. assert (kMaxBytesReadableAtOnce = 0x7ffff000) as -> by done.
  rewrite Z2Nat.id by (apply Z.div_pos; lia). pose proof (Z.div_mod (n + 0x7ffff000 - 1) 0x7ffff000). pose proof (Z.mod_pos_bound (n + 0x7ffff000 - 1) 0x7ffff000). lia.
Qed.

(** C31: [performCopy] ends after as many rounds as there are pieces of
    [kMaxBytesReadableAtOnce] bytes, for any length for which the offset does not
    wrap.  It writes nothing outside the destination; when it succeeds the
    destination holds the region read; and it succeeds if the system call
    transfers all it can at once. *)
Theorem performCopy_terminates l r n pid m :
  readv_law -> 0 <= n -> n + kMaxBytesReadableAtOnce <= 2 ^ 64 ->
  exists e m', performCopy (copy_rounds n) l r n pid m = Some (e, m') /\
    (forall a, ~ l <= a < l + n -> m' a = m a) /\
    (e = kSuccess -> forall i, 0 <= i < n -> m' (l + i) = remote pid (r + i)) /\
    (readv_complete pid -> e = kSuccess).
Proof.
  intros Hlaw Hn Hb.
  destruct (performCopy_loop_ok (copy_rounds n) 0 l r n pid m Hlaw ltac:(lia) Hn Hb (copy_rounds_enough n Hn)) as (e & m' & Hr & H1 & H2 & H3).
  exists e, m'. split_and!; try done. intros a Ha. apply H1. lia.
Qed.
End Copy.

(** A system call that transfers up to its limit. *)
Definition ideal_readv (remote : Z -> Memory) (m : Memory) (l r n pid : Z) : Z * Memory :=
  let k := Z.min n kMaxBytesReadableAtOnce in (k, write_range l r k (remote pid) m).

Lemma ideal_readv_law remote : readv_law (ideal_readv remote) remote.
Proof.
  intros m l r n pid. unfold ideal_readv, write_range. split.
  - intros a Ha. destruct (l <=? a) eqn:H1, (a <? l + Z.min n kMaxBytesReadableAtOnce) eqn:H2; simpl; try done. lia.
  - intros Hk i Hi. rewrite Hk. replace (l <=? l + i) with true by lia. replace (l + i <? l + n) with true by lia. simpl. f_equal. lia.
Qed.

Lemma performCopy_terminates_witness :
  copy_rounds 0x100000000 = 3%nat /\
  exists e m', performCopy (ideal_readv (fun pid a => pid + a)) 3 100 7000 0x100000000 42 (fun _ => 0) = Some (e, m') /\
    (forall a, ~ 100 <= a < 100 + 0x100000000 -> m' a = 0) /\
    (e = kSuccess -> forall i, 0 <= i < 0x100000000 -> m' (100 + i) = 42 + (7000 + i)) /\
    (readv_complete (ideal_readv (fun pid a => pid + a)) 42 -> e = kSuccess).
Proof.
  split; [by vm_compute|].
  apply (performCopy_terminates (ideal_readv (fun pid a => pid + a)) (fun pid a => pid + a) 100 7000 0x100000000 42 (fun _ => 0));
    [apply ideal_readv_law | lia | by vm_compute].
Defined.

(** ** Queues *)

Record Queue (A : Type) := mkQueue { items_ : list A; capacity_ : Z }.
Arguments mkQueue {A}.
Arguments items_ {A}.
Arguments capacity_ {A}.

(** [push] and [pop], unless they have to wait. *)
Definition push {A} (t : A) (q : Queue A) : option (Queue A) :=
  if capacity_ q <=? Z.of_nat (length (items_ q)) then None else Some (mkQueue (items_ q ++ [t]) (capacity_ q)).
Definition pop {A} (q : Queue A) : option (A * Queue A) :=
  match items_ q with [] => None | t :: items => Some (t, mkQueue items (capacity_ q)) end.

Definition kMaxInt : Z := 2 ^ 31 - 1.

(** ** The context *)

(** Channels as their context sees them: a task may also request copies, but not
    after an error. *)
Class CopyClient (O : Type) `{Enrollee O} := {
  ct_requests : O -> O -> list bool -> list CopyRequest -> Prop;
}.
Class CopyClientLaws (O : Type) `{CopyClient O} : Prop := {
  law_requests_task o o' bs rs : ct_requests o o' bs rs -> en_task o o' bs;
  law_requests_live o o' bs rs : en_ok o -> ct_requests o o' bs rs -> en_phase o <> Live -> rs = [];
}.

(** A request with its callback, known by the number it got. *)
Record Request := mkRequest { rq_id : Z; rq_copy : CopyRequest }.

Section Context.
Context {O : Type} `{EnrolleeLaws O} `{!CopyClient O} `{!CopyClientLaws O}.

(** What a context does to perform a request: [memcpy] for xth, [performCopy] for cma. *)
Variable perform : CopyRequest -> Memory -> Error * Memory.

Record ContextImpl := mkContextImpl {
  error_ : Error;
  channelCounter_ : Z;
  channels_ : gset Z;
  requests_ : Queue (option Request);
  nextRequestId_ : Z;
  channel_heap : gmap Z O;
}.
#[export] Instance eta_CopyContext : Eta ContextImpl := fun c =>
  mkContextImpl (error_ c) (channelCounter_ c) (channels_ c) (requests_ c) (nextRequestId_ c) (channel_heap c).

Definition newContextImpl : ContextImpl := mkContextImpl kSuccess 0 ∅ (mkQueue [] kMaxInt) 0 ∅.

(** Waiting for a place in the queue blocks the loop: [None]. *)
Definition push_request (r : option Request) (c : ContextImpl) : option ContextImpl :=
  q ← push r (requests_ c); Some (c <| requests_ := q |>).

Definition requestCopy (r : CopyRequest) (c : ContextImpl) : option ContextImpl :=
  let requestId := nextRequestId_ c in
  push_request (Some (mkRequest requestId r)) (c <| nextRequestId_ := u64 (requestId + 1) |>).

Fixpoint request_copies (rs : list CopyRequest) (c : ContextImpl) : option ContextImpl :=
  match rs with [] => Some c | r :: rs => c ← requestCopy r c; request_copies rs c end.

Definition createChannel (id : Z) (channel : O) (c : ContextImpl) : ContextImpl :=
  c <| channelCounter_ := u64 (channelCounter_ c + 1) |> <| channel_heap ::= insert id channel |>.

Definition closed (c : ContextImpl) : bool := is_error (error_ c).

Definition channel_task (id : Z) (f : O -> outcome (O * list bool)) (c : ContextImpl) : outcome ContextImpl :=
  '(s, h) ← on_object id f (channels_ c, channel_heap c); Done (c <| channels_ := s |> <| channel_heap := h |>).

Definition handleErrorImpl (c : ContextImpl) : option ContextImpl := push_request None c.

Definition handleError (c : ContextImpl) : outcome (option ContextImpl) :=
  let channelsCopy := elements (channels_ c) in
  '(s, h) ← close_all channelsCopy (channels_ c, channel_heap c);
  Done (handleErrorImpl (c <| channels_ := s |> <| channel_heap := h |>)).

Definition setError (error : Error) (c : ContextImpl) : outcome (option ContextImpl) :=
  if is_error (error_ c) || negb (is_error error) then Done (Some c)
  else handleError (c <| error_ := error |>).

Definition closeFromLoop (c : ContextImpl) : outcome (option ContextImpl) := setError ContextClosedError c.

(** ** The thread *)

(** One round of [handleCopyRequests]: [None] when it has to wait.  It returns the
    request and the error that its callback is called with, or [None] when the thread
    ends. *)
Definition handleCopyRequest (c : ContextImpl) (m : Memory) : option (ContextImpl * Memory * option (Request * Error)) :=
  '(maybeRequest, q) ← pop (requests_ c);
  let c := c <| requests_ := q |> in
  match maybeRequest with
  | None => Some (c, m, None)
  | Some request => let '(error, m) := perform (rq_copy request) m in Some (c, m, Some (request, error))
  end.

(** ** The world of a context

    [cp_requested] are the requests in the order of the calls, [cp_answered] the
    callbacks called by the thread; [cp_running] until the thread ends. *)
Record PWorld := mkPWorld {
  cp_context : ContextImpl;
  cp_memory : Memory;
  cp_running : bool;
  cp_requested : list CopyRequest;
  cp_answered : list (Request * Error);
}.

Inductive pevent :=
| PvCreate (id : Z) (channel : O)
| PvInit (id : Z)
| PvTask (id : Z) (channel : O) (calls : list bool) (rs : list CopyRequest)
| PvClose
| PvThread.

(** [Done None] when the step has to wait. *)
Definition pstep (w : PWorld) (ev : pevent) : outcome (option PWorld) :=
  let c := cp_context w in
  let set c requested := mkPWorld c (cp_memory w) (cp_running w) requested (cp_answered w) in
  match ev with
  | PvCreate id o => Done (Some (set (createChannel id o c) (cp_requested w)))
  | PvInit id => c ← channel_task id (en_init (closed c)) c; Done (Some (set c (cp_requested w)))
  | PvTask id o bs rs =>
      c ← channel_task id (fun _ => Done (o, bs)) c;
      Done (c ← request_copies rs c; Some (set c (cp_requested w ++ rs)))
  | PvClose => m ← closeFromLoop c; Done (c ← m; Some (set c (cp_requested w)))
  | PvThread =>
      Done ('(c, m, r) ← handleCopyRequest c (cp_memory w);
            Some (mkPWorld c m (match r with Some _ => true | None => false end) (cp_requested w)
                    (cp_answered w ++ match r with Some r => [r] | None => [] end)))
  end.

(** What may happen; the queue does not fill up, nor the counter wrap. *)
Definition pevent_ok (w : PWorld) (ev : pevent) : Prop :=
  let c := cp_context w in
  match ev with
  | PvCreate id o => channel_heap c !! id = None /\ en_ok o /\ en_phase o = New
  | PvInit id => exists o, channel_heap c !! id = Some o /\ en_phase o = New
  | PvTask id o' bs rs =>
      (exists o, channel_heap c !! id = Some o /\ en_phase o <> New /\ ct_requests o o' bs rs) /\
      Z.of_nat (length (items_ (requests_ c)) + length rs) < kMaxInt /\ Z.of_nat (length (cp_requested w) + length rs) < 2 ^ 63
  | PvClose => Z.of_nat (length (items_ (requests_ c))) < kMaxInt
  | PvThread => cp_running w = true /\ items_ (requests_ c) <> []
  end.

Inductive preach (m : Memory) : PWorld -> Prop :=
| preach_init : preach m (mkPWorld newContextImpl m true [] [])
| preach_step w ev w' : preach m w -> pevent_ok w ev -> pstep w ev = Done (Some w') -> preach m w'.

(** ** The invariant *)

(** The requests with the numbers they got. *)
Definition numbered (rs : list CopyRequest) : list Request := imap (fun i r => mkRequest (Z.of_nat i) r) rs.

(** The queue holds the requests that are not answered yet, in order; after the
    context is closed there comes what tells the thread to stop, until it does. *)
Record pinv (w : PWorld) : Prop := {
  po_channels : table_ok (channels_ (cp_context w), channel_heap (cp_context w));
  po_closed : closed (cp_context w) = true -> forall id o, channel_heap (cp_context w) !! id = Some o -> en_phase o <> Live;
  po_queue : exists pending,
    numbered (cp_requested w) = (cp_answered w).*1 ++ pending /\
    items_ (requests_ (cp_context w)) = (Some <$> pending) ++ (if closed (cp_context w) && cp_running w then [None] else []) /\
    (cp_running w = false -> pending = [] /\ closed (cp_context w) = true);
  po_capacity : capacity_ (requests_ (cp_context w)) = kMaxInt;
  po_next : nextRequestId_ (cp_context w) = Z.of_nat (length (cp_requested w));
}.

Lemma numbered_requests_snoc rs r : numbered (rs ++ [r]) = numbered rs ++ [mkRequest (Z.of_nat (length rs)) r].
Proof. unfold numbered. rewrite imap_app. simpl. by rewrite Nat.add_0_r. Qed.

Lemma push_request_ok r c :
  capacity_ (requests_ c) = kMaxInt -> Z.of_nat (length (items_ (requests_ c))) < kMaxInt ->
  push_request r c = Some (c <| requests_ := mkQueue (items_ (requests_ c) ++ [r]) kMaxInt |>).
Proof. intros Hc Hl. unfold push_request, push. rewrite Hc. by replace (kMaxInt <=? _) with false by lia. Qed.

(** Requests while the context is open. *)
Lemma request_copies_ok rs : forall c rs0,
  capacity_ (requests_ c) = kMaxInt -> Z.of_nat (length (items_ (requests_ c)) + length rs) < kMaxInt ->
  nextRequestId_ c = Z.of_nat (length rs0) -> Z.of_nat (length rs0 + length rs) < 2 ^ 63 ->
  exists more, request_copies rs c = Some (c <| requests_ := mkQueue (items_ (requests_ c) ++ (Some <$> more)) kMaxInt |>
                                              <| nextRequestId_ := Z.of_nat (length (rs0 ++ rs)) |>) /\
    numbered (rs0 ++ rs) = numbered rs0 ++ more.
Proof.
  induction rs as [|r rs IH]; intros c rs0 Hc Hl Hn Hb; simpl in *.
  { exists []. rewrite !app_nil_r. split; [|done]. destruct c as [? ? ? [its cap] nxt ?]; simpl in *. by subst. }
  unfold requestCopy. rewrite push_request_ok by (simpl; done || lia). simpl. rewrite Hn, u64_small by (unfold is_u64; lia).
  destruct (IH (c <| nextRequestId_ := Z.of_nat (length rs0) + 1 |> <| requests_ := mkQueue (items_ (requests_ c) ++ [Some (mkRequest (Z.of_nat (length rs0)) r)]) kMaxInt |>)
    (rs0 ++ [r])) as (more & Hr & Hm); simpl; rewrite ?length_app; simpl; [done | lia | lia | lia |].
  exists (mkRequest (Z.of_nat (length rs0)) r :: more). split.
  - etrans; [exact Hr|]. simpl. rewrite !length_app, <- app_assoc. simpl.
    replace (length rs0 + 1 + length rs)%nat with (length rs0 + S (length rs))%nat by lia. by destruct c.
  - rewrite <- (app_assoc rs0 [r] rs) in Hm. simpl in Hm. by rewrite Hm, numbered_requests_snoc, <- app_assoc.
Qed.

(** A task of a channel leaves the rest of the context alone. *)
Lemma channel_task_ok id f c s h :
  on_object id f (channels_ c, channel_heap c) = Done (s, h) ->
  channel_task id f c = Done (c <| channels_ := s |> <| channel_heap := h |>).
Proof. intros Ho. unfold channel_task. by rewrite Ho. Qed.

Lemma no_live_insert (h : gmap Z O) id o :
  (forall id o, h !! id = Some o -> en_phase o <> Live) -> en_phase o <> Live ->
  forall id' o', <[id := o]> h !! id' = Some o' -> en_phase o' <> Live.
Proof.
  intros Hn Ho id' o'. destruct (decide (id' = id)) as [->|Hne]; [rewrite lookup_insert_eq; by intros [= <-]|].
  rewrite lookup_insert_ne by done. apply Hn.
Qed.

Lemma queue_bound w pending :
  numbered (cp_requested w) = (cp_answered w).*1 ++ pending -> length (cp_requested w) = (length (cp_answered w) + length pending)%nat.
Proof. intros Hn. apply (f_equal length) in Hn. unfold numbered in Hn. rewrite length_imap, length_app, length_fmap in Hn. done. Qed.

Lemma pclose_ok w :
  pinv w -> Z.of_nat (length (items_ (requests_ (cp_context w)))) < kMaxInt ->
  exists w', pstep w PvClose = Done (Some w') /\ pinv w' /\ closed (cp_context w') = true /\
    cp_requested w' = cp_requested w /\ cp_answered w' = cp_answered w /\ cp_running w' = cp_running w.
Proof.
  intros Hi Hb. pose proof Hi as [P1 P2 (pending & P3 & P4 & P5) P6 P7]. unfold pstep, closeFromLoop, setError.
  fold (closed (cp_context w)). destruct (closed (cp_context w)) eqn:Hc.
  { eexists. split; [reflexivity|]. by destruct w. }
  change (false || negb (is_error ContextClosedError)) with false. cbv iota. unfold handleError.
  destruct (close_table_ok _ P1) as ([s h] & Hcl & Ht & Hall). cbn [fst snd] in Hcl.
  change (channels_ (cp_context w <| error_ := ContextClosedError |>)) with (channels_ (cp_context w)).
  change (channel_heap (cp_context w <| error_ := ContextClosedError |>)) with (channel_heap (cp_context w)).
  rewrite Hcl, bind_done. cbv beta iota zeta. unfold handleErrorImpl. rewrite push_request_ok by done. simpl.
  eexists. split; [reflexivity|]. split_and!; try done. split; simpl; try done.
  - intros _ id o Ho. destruct (Hall id o Ho) as (o0 & _ & _ & Hl & _). exact Hl.
  - exists pending. split_and!; try done.
    + rewrite P4. simpl. rewrite app_nil_r. by destruct (cp_running w) eqn:Hr; [|destruct (P5 eq_refl)].
    + intros Hr. by destruct (P5 Hr).
Qed.

Lemma pstep_ok w ev : pinv w -> pevent_ok w ev -> exists w', pstep w ev = Done (Some w') /\ pinv w'.
Proof.
  intros Hi Hok. pose proof Hi as [P1 P2 (pending & P3 & P4 & P5) P6 P7]. destruct ev as [id o|id|id o' bs rs| |].
  - destruct Hok as (Hn & Ho & Hp). eexists. split; [reflexivity|]. split; simpl; try done.
    + destruct P1 as [T1 T2]. split; simpl in *; intros id'; destruct (decide (id' = id)) as [->|Hne].
      * rewrite lookup_insert_eq, T1, Hn. split; [by intros (? & ? & _) | intros (o1 & [= <-] & Hh)]. by rewrite Hp in Hh.
      * by rewrite lookup_insert_ne.
      * intros o1. rewrite lookup_insert_eq. by intros [= <-].
      * intros o1. rewrite lookup_insert_ne by done. apply T2.
    + intros Hc. apply no_live_insert; [by apply P2 | by rewrite Hp].
    + by exists pending.
  - destruct Hok as (o & Ho & Hn). destruct (object_init_ok (closed (cp_context w)) id _ o P1 Ho Hn) as (s' & o' & Hs & Ht & _ & Hcl & _).
    unfold pstep. rewrite (channel_task_ok _ _ _ _ _ Hs), bind_done. eexists. split; [reflexivity|]. split; simpl; try done.
    + intros Hc. apply no_live_insert; [by apply P2|]. by destruct (Hcl Hc) as [_ ->].
    + by exists pending.
  - destruct Hok as ((o & Ho & Hn & Ht) & Hb & Hb2). pose proof (tb_ok _ P1 _ _ Ho) as Hoko.
    destruct (law_task o o' bs Hoko Hn (law_requests_task _ _ _ _ Ht)) as [Ho' Hp].
    destruct (step_object id (fun _ => Done (o', bs)) _ o o' bs P1 Ho eq_refl Ho' Hp) as (s' & Hs & Ht').
    unfold pstep. rewrite (channel_task_ok _ _ _ _ _ Hs), bind_done.
    assert (closed (cp_context w) = true -> rs = []) as Hrs.
    { intros Hc. by apply (law_requests_live o o' bs rs Hoko Ht), (P2 Hc id). }
    destruct (request_copies_ok rs (cp_context w <| channels_ := s' |> <| channel_heap := <[id := o']> (channel_heap (cp_context w)) |>)
      (cp_requested w)) as (more & Hr & Hm); [done..|]. cbn [fst snd]. rewrite Hr.
    eexists. split; [reflexivity|]. split; simpl; try done.
    + intros Hc. apply no_live_insert; [by apply P2|]. apply phase_step_later in Hp. intros He. rewrite He in Hp.
      by apply (P2 Hc id o Ho); destruct (en_phase o).
    + change (closed (cp_context w <| channels_ := s' |> <| channel_heap := <[id:=o']> (channel_heap (cp_context w)) |>
        <| requests_ := mkQueue (items_ (requests_ (cp_context w)) ++ (Some <$> more)) kMaxInt |>
        <| nextRequestId_ := Z.of_nat (length (cp_requested w ++ rs)) |>)) with (closed (cp_context w)).
      destruct (closed (cp_context w)) eqn:Hc.
      * specialize (Hrs eq_refl). subst rs. rewrite app_nil_r in Hm |- *. exists pending.
        assert (more = []) as -> by (apply (f_equal length) in Hm; rewrite length_app in Hm; destruct more; [done | simpl in Hm; lia]).
        by rewrite app_nil_r.
      * exists (pending ++ more). rewrite Hm, P3, P4, fmap_app, !app_nil_r, app_assoc. split_and!; try done.
        intros Hr2. by destruct (P5 Hr2).
  - destruct (pclose_ok w Hi Hok) as (w' & Hw & Hi' & _). by exists w'.
  - destruct Hok as [Hrun Hne]. unfold pstep, handleCopyRequest, pop. rewrite P4 in Hne |- *. rewrite Hrun, andb_true_r in Hne |- *.
    destruct pending as [|r pending].
    + destruct (closed (cp_context w)) eqn:Hc; [|done]. simpl. eexists. split; [reflexivity|]. split; simpl; try done; [intros _; by apply P2|].
      exists []. rewrite !app_nil_r in *. split_and!; try done. by rewrite andb_false_r.
    + simpl. destruct (perform (rq_copy r) (cp_memory w)) as [e m]. eexists. split; [reflexivity|]. split; simpl; try done.
      exists pending. rewrite P3, fmap_app, <- app_assoc. split_and!; try done.
      by change (closed (cp_context w <| requests_ := _ |>)) with (closed (cp_context w)); rewrite andb_true_r.
Qed.

Lemma preach_ok m w : preach m w -> pinv w.
Proof.
  induction 1 as [|w ev w' _ IH Hok Hw].
  - split; simpl; try done; [apply table_ok_empty | exists []; by split_and!].
  - destruct (pstep_ok _ _ IH Hok) as (w0 & Hw0 & Hi). rewrite Hw0 in Hw. by inversion Hw; subst.
Qed.

(** The thread alone: as many rounds as there are items in the queue. *)
Fixpoint thread_rounds (n : nat) (w : PWorld) : outcome (option PWorld) :=
  match n with
  | 0%nat => Done (Some w)
  | S n => m ← pstep w PvThread; match m with Some w => thread_rounds n w | None => Done None end
  end.

Lemma thread_rounds_ok n : forall w,
  pinv w -> closed (cp_context w) = true -> cp_running w = true -> length (items_ (requests_ (cp_context w))) = n ->
  exists w', thread_rounds n w = Done (Some w') /\ pinv w' /\ cp_running w' = false /\ cp_requested w' = cp_requested w.
Proof.
  induction n as [|n IH]; intros w Hi Hc Hr Hl.
  { exfalso. destruct (po_queue _ Hi) as (pending & _ & Hq & _). rewrite Hq, Hc, Hr, length_app in Hl. simpl in Hl. lia. }
  assert (items_ (requests_ (cp_context w)) <> []) as Hne by by intros He; rewrite He in Hl.
  destruct (pstep_ok w PvThread Hi (conj Hr Hne)) as (w1 & Hs & Hi1). cbn [thread_rounds]. rewrite Hs, bind_done. cbv beta iota.
  assert (length (items_ (requests_ (cp_context w1))) = n /\ cp_requested w1 = cp_requested w /\ closed (cp_context w1) = true) as (Hl1 & Hq1 & Hc1).
  { clear IH. unfold pstep, handleCopyRequest, pop in Hs. destruct (items_ (requests_ (cp_context w))) as [|x q] eqn:Hit; [done|].
    simpl in Hs, Hl. destruct x as [r|]; [destruct (perform (rq_copy r) (cp_memory w))|]; injection Hs as <-; simpl; split_and!; try done; lia. }
  destruct (cp_running w1) eqn:Hr1.
  - destruct (IH w1 Hi1 Hc1 Hr1 Hl1) as (w' & Ht & Hi' & Hr' & Hq'). exists w'. split_and!; try done. by rewrite Hq', Hq1.
  - destruct (po_queue _ Hi1) as (pending & _ & Hq & He). rewrite Hr1, andb_false_r, app_nil_r in Hq. destruct (He Hr1) as [-> _].
    rewrite Hq in Hl1. simpl in Hl1. subst n. by exists w1.
Qed.
End Context.

(** ** xth and cma *)

(** The thread of an xth context copies within the process, and does not call
    [memcpy] for nothing. *)
Definition xth_perform (r : CopyRequest) (m : Memory) : Error * Memory :=
  (kSuccess, if 0 <? cr_length r then write_range (cr_localPtr r) (cr_remotePtr r) (cr_length r) m m else m).

(** That of a cma context; the fuel is that of [performCopy_terminates]. *)
Definition cma_perform (process_vm_readv : Memory -> Z -> Z -> Z -> Z -> Z * Memory) (r : CopyRequest) (m : Memory) : Error * Memory :=
  match performCopy process_vm_readv (copy_rounds (cr_length r)) (cr_localPtr r) (cr_remotePtr r) (cr_length r)
          (default 0 (cr_remotePid r)) m with
  | Some x => x
  | None => (LogicError, m)
  end.

(** C30: The requests of the channels of an xth or cma context are answered in order,
    each once, whatever the channels do and whenever the context is closed; no step
    fails.  Once the context is closed, the thread ends after as many rounds as the
    queue has items, and by then every request was answered. *)
Theorem copies_answered {O} `{EnrolleeLaws O} `{!CopyClient O} `{!CopyClientLaws O} perform m (w : PWorld (O:=O)) :
  preach perform m w ->
  (forall ev, pevent_ok w ev -> exists w', pstep perform w ev = Done (Some w')) /\
  (exists pending, numbered (cp_requested w) = (cp_answered w).*1 ++ pending) /\
  (cp_running w = false -> (cp_answered w).*1 = numbered (cp_requested w)) /\
  (closed (cp_context w) = true -> cp_running w = true ->
     exists w', thread_rounds perform (length (items_ (requests_ (cp_context w)))) w = Done (Some w') /\
       cp_running w' = false /\ cp_requested w' = cp_requested w /\ (cp_answered w').*1 = numbered (cp_requested w)).
Proof.
  intros Hw. pose proof (preach_ok _ _ _ Hw) as Hi.
  assert (forall w0 : PWorld (O:=O), pinv w0 -> cp_running w0 = false -> (cp_answered w0).*1 = numbered (cp_requested w0)) as Hend.
  { intros w0 Hi0 Hr0. destruct (po_queue _ Hi0) as (pending & Hn & _ & He). destruct (He Hr0) as [-> _]. by rewrite Hn, app_nil_r. }
  split_and!.
  - intros ev Hok. destruct (pstep_ok perform w ev Hi Hok) as (w' & Hs & _). by exists w'.
  - destruct (po_queue _ Hi) as (pending & Hn & _). by exists pending.
  - by apply Hend.
  - intros Hc Hr. destruct (thread_rounds_ok perform _ w Hi Hc Hr eq_refl) as (w' & Ht & Hi' & Hr' & Hq).
    exists w'. split_and!; try done. by rewrite <- Hq, Hend.
Qed.

(** ** A run *)

(** A channel that only has a phase, and requests any copies while it is live. *)
Inductive DemoChannel := mkDemoChannel (p : Phase).

#[export] Instance demo_channel : Enrollee DemoChannel := {|
  en_init contextClosed _ := Done (if contextClosed : bool then (mkDemoChannel Gone, []) else (mkDemoChannel Live, [true]));
  en_close o := Done (match o with mkDemoChannel Live => (mkDemoChannel Gone, [false]) | _ => (o, []) end);
  en_task o o' bs := match o, o' with mkDemoChannel p, mkDemoChannel q => phase_step p bs q end;
  en_phase o := match o with mkDemoChannel p => p end;
  en_ok _ := True;
|}.
#[export] Instance demo_channel_laws : EnrolleeLaws DemoChannel.
Proof.
  split.
  - intros o _ _. by exists (mkDemoChannel Gone).
  - intros o _ _. exists (mkDemoChannel Live), []. split_and!; try done. constructor.
  - intros [p] _ Hn. destruct p; try done; eexists _, _; (split; [reflexivity|]); split_and!; try done; constructor.
  - by intros [p] [q] bs _ _ Hs.
Qed.
#[export] Instance demo_client : CopyClient DemoChannel := {|
  ct_requests o o' bs rs := en_task o o' bs /\ (en_phase o <> Live -> rs = []);
|}.
#[export] Instance demo_client_laws : CopyClientLaws DemoChannel.
Proof. split; [by intros o o' bs rs [? ?] | intros o o' bs rs _ [_ Hr]; apply Hr]. Qed.

Definition demo_requests : list CopyRequest := [mkCopyRequest None 1000 2000 16; mkCopyRequest None 0 0 0; mkCopyRequest None 2000 3000 8].
Definition demo_memory : Memory := fun a => a mod 256.

Definition pnext (w : PWorld (O:=DemoChannel)) (ev : pevent) : PWorld :=
  match pstep xth_perform w ev with Done (Some w') => w' | _ => w end.

Lemma pnext_reach w ev : preach xth_perform demo_memory w -> pevent_ok w ev -> preach xth_perform demo_memory (pnext w ev).
Proof.
  intros Hw Hok. destruct (pstep_ok xth_perform w ev (preach_ok _ _ _ Hw) Hok) as (w' & Hs & _). unfold pnext. rewrite Hs.
  by eapply preach_step.
Qed.

Definition copies_start : PWorld (O:=DemoChannel) :=
  pnext (pnext (mkPWorld newContextImpl demo_memory true [] []) (PvCreate 5 (mkDemoChannel New))) (PvInit 5).
Definition copies_closed : PWorld (O:=DemoChannel) :=
  pnext (pnext (pnext copies_start (PvTask 5 (mkDemoChannel Live) [] demo_requests)) PvThread) PvClose.

Lemma copies_closed_reach : preach xth_perform demo_memory copies_closed.
Proof.
  apply pnext_reach; [apply pnext_reach; [apply pnext_reach; [apply pnext_reach; [apply pnext_reach; [apply preach_init|]|]|]|]|].
  - by split_and!.
  - exists (mkDemoChannel New). by split.
  - split; [|by vm_compute]. exists (mkDemoChannel Live). split_and!; [done | done | split; [constructor | by intros []]].
  - by vm_compute.
  - by vm_compute.
Qed.

Lemma copies_answered_witness :
  length (cp_answered copies_closed) = 1%nat /\ closed (cp_context copies_closed) = true /\
  exists w', thread_rounds xth_perform (length (items_ (requests_ (cp_context copies_closed)))) copies_closed = Done (Some w') /\
    cp_running w' = false /\ cp_requested w' = cp_requested copies_closed /\
    (cp_answered w').*1 = numbered (cp_requested copies_closed).
Proof.
  split; [by vm_compute|]. split; [by vm_compute|].
  destruct (copies_answered xth_perform demo_memory copies_closed copies_closed_reach) as (_ & _ & _ & Hend).
  apply Hend; by vm_compute.
Defined.
