(* ===== verification/Listener.v ===== *)
(** * Listeners

    Models [core/listener_impl.cc] and [common/address.cc]: a listener accepts
    connections on several transports, reads the first object of each, and either
    opens a pipe for the user or hands the connection to the pipe that asked for
    it.  The world of a listener is a user who accepts pipes, pipes that register
    requests, and transports that call back in any order. *)

From S2P Require Import Prelude Callback Registrations.

(** ** Addresses *)

Definition splitSchemeOfURL (url : string) : outcome (string * string) :=
  match String.index 0 "://" url with
  | None => Throw ExInvalidArgument
  | Some endOfScheme =>
      Done (String.substring 0 endOfScheme url,
            String.substring (endOfScheme + 3) (String.length url - (endOfScheme + 3)) url)
  end.

(** ** Data *)

(** The first object of a connection ([core/nop_types.h]); the index of any other
    packet. *)
Inductive Packet :=
| SpontaneousConnection (contextName : string)
| RequestedConnection (registrationId : Z)
| OtherPacket (index : nat).

(** A pipe opened by a listener: the arguments of its constructor. *)
Record NewPipe := mkNewPipe {
  np_number : Z;
  np_remoteContextName : string;
  np_transport : string;
  np_connection : Z;
}.

(** A function given to [accept], with the number the listener gave it. *)
Record AcceptCallback := mkAcceptCallback { ac_sequenceNumber : Z; ac_fn : nat }.

(** Callbacks given to transports. *)
Inductive cb :=
| CbAccepted (transport : string)
| CbHelloRead (transport : string) (connection : Z).

(** A transport context can listen on an address: it returns a listener and the
    address it is bound to. *)
Record TransportContext := mkTransportContext { tc_listen : string -> Z * string }.

Section Listener.
Context {Req : Type}.    (* functions registered by pipes *)

Inductive call :=
| UserAccept (f : AcceptCallback) (e : Error) (pipe : option NewPipe)
| CallRequest (registrationId : Z) (f : Req) (e : Error) (transport : string) (connection : option Z)
| NewPipeInit (pipe : NewPipe)
| TrAccept (listener : Z) (k : cb)
| TrClose (listener : Z)
| ConnRead (connection : Z) (k : cb)
| ConnClose (connection : Z)
| CtxEnroll
| CtxUnenroll.

Record ListenerImpl := mkListenerImpl {
  error_ : Error;
  listeners_ : list (string * Z);           (* a hash table, whose order is not specified *)
  addresses_ : gmap string string;
  nextPipeBeingAccepted_ : Z;
  nextAcceptCallbackToCall_ : Z;
  acceptCallback_ : @RearmableCallback AcceptCallback (Error * option NewPipe);
  connectionsWaitingForHello_ : gset Z;
  nextConnectionRequestRegistrationId_ : Z;
  connectionRequestRegistrations_ : gmap Z Req;
  pipeCounter_ : Z;
}.
#[export] Instance eta_ListenerImpl : Eta ListenerImpl := fun l =>
  mkListenerImpl (error_ l) (listeners_ l) (addresses_ l) (nextPipeBeingAccepted_ l) (nextAcceptCallbackToCall_ l)
    (acceptCallback_ l) (connectionsWaitingForHello_ l) (nextConnectionRequestRegistrationId_ l)
    (connectionRequestRegistrations_ l) (pipeCounter_ l).

Local Abbreviation result := (outcome (ListenerImpl * list call)).

(** ** The constructor *)

Definition find_listener (transport : string) (l : list (string * Z)) : option Z :=
  match list_find (fun p => p.1 = transport) l with Some (_, p) => Some p.2 | None => None end.

(** One round of the loop of the constructor.  [emplace] does not replace what is
    there already. *)
Definition open_url (transports : gmap string TransportContext) (url : string) (l : ListenerImpl) : outcome ListenerImpl :=
  '(transport, address) ← splitSchemeOfURL url;
  context ← match transports !! transport with Some c => Done c | None => Throw ExInvalidArgument end;
  let '(listener, addr) := tc_listen context address in
  Done (l <| addresses_ := match addresses_ l !! transport with
                           | Some _ => addresses_ l
                           | None => <[transport := addr]> (addresses_ l) end |>
          <| listeners_ := if decide (transport ∈ (listeners_ l).*1) then listeners_ l
                           else listeners_ l ++ [(transport, listener)] |>).

Definition newListener (transports : gmap string TransportContext) (urls : list string) : outcome ListenerImpl :=
  fold_outcome (open_url transports) urls (mkListenerImpl kSuccess [] ∅ 0 0 newRearmable ∅ 0 ∅ 0).

Definition address (transport : string) (l : ListenerImpl) : outcome string :=
  match addresses_ l !! transport with Some a => Done a | None => Throw ExAssert end.

Definition url (transport : string) (l : ListenerImpl) : outcome string :=
  a ← address transport l; Done (transport +:+ "://" +:+ a)%string.

(** ** Callbacks of the user *)

(** The function that [acceptFromLoop] wraps around the user's. *)
Definition call_accept (x : AcceptCallback * (Error * option NewPipe)) (l : ListenerImpl) : result :=
  _ ← tp_check (ac_sequenceNumber x.1 =? nextAcceptCallbackToCall_ l);
  Done (l <| nextAcceptCallbackToCall_ := u64 (nextAcceptCallbackToCall_ l + 1) |>,
        [UserAccept x.1 x.2.1 x.2.2]).

Fixpoint call_accepts (l : list (AcceptCallback * (Error * option NewPipe))) (s : ListenerImpl) : result :=
  match l with
  | [] => Done (s, [])
  | x :: l =>
      '(s, calls1) ← call_accept x s;
      '(s, calls2) ← call_accepts l s;
      Done (s, calls1 ++ calls2)
  end.

(** Runs a method of [acceptCallback_]. *)
Definition with_accept
    (m : @RearmableCallback AcceptCallback (Error * option NewPipe) ->
         @RearmableCallback AcceptCallback (Error * option NewPipe) * list (AcceptCallback * (Error * option NewPipe)))
    (l : ListenerImpl) : result :=
  let '(a, calls) := m (acceptCallback_ l) in call_accepts calls (l <| acceptCallback_ := a |>).

Definition acceptFromLoop (fn : nat) (l : ListenerImpl) : result :=
  let sequenceNumber := nextPipeBeingAccepted_ l in
  let l := l <| nextPipeBeingAccepted_ := u64 (sequenceNumber + 1) |> in
  let f := mkAcceptCallback sequenceNumber fn in
  if is_error (error_ l) then call_accept (f, (error_ l, None)) l
  else with_accept (arm f) l.

(** ** Requests of pipes *)

Definition registerConnectionRequest (fn : Req) (l : ListenerImpl) : outcome (ListenerImpl * Z * list call) :=
  let registrationId := nextConnectionRequestRegistrationId_ l in
  let l := l <| nextConnectionRequestRegistrationId_ := u64 (registrationId + 1) |> in
  if is_error (error_ l) then Done (l, registrationId, [CallRequest registrationId fn (error_ l) "" None])
  else Done (l <| connectionRequestRegistrations_ :=
                    match connectionRequestRegistrations_ l !! registrationId with
                    | Some _ => connectionRequestRegistrations_ l
                    | None => <[registrationId := fn]> (connectionRequestRegistrations_ l)
                    end |>, registrationId, []).

Definition unregisterConnectionRequest (registrationId : Z) (l : ListenerImpl) : ListenerImpl :=
  l <| connectionRequestRegistrations_ ::= delete registrationId |>.

(** ** Errors *)

Definition handleError (l : ListenerImpl) : result :=
  '(l, calls1) ← with_accept (triggerAll (fun _ => (error_ l, None))) l;
  let calls2 := (fun p => CallRequest p.1 p.2 (error_ l) "" None) <$> map_to_list (connectionRequestRegistrations_ l) in
  let calls3 := (fun p => TrClose p.2) <$> listeners_ l in
  let calls4 := ConnClose <$> elements (connectionsWaitingForHello_ l) in
  Done (l <| connectionRequestRegistrations_ := ∅ |> <| connectionsWaitingForHello_ := ∅ |>,
        calls1 ++ calls2 ++ calls3 ++ calls4 ++ [CtxUnenroll]).

Definition setError (error : Error) (l : ListenerImpl) : result :=
  if is_error (error_ l) || negb (is_error error) then Done (l, [])
  else handleError (l <| error_ := error |>).

Definition closeFromLoop (l : ListenerImpl) : result := setError ListenerClosedError l.

(** ** Connections *)

Definition armListener (transport : string) (l : ListenerImpl) : result :=
  match find_listener transport (listeners_ l) with
  | None => Throw ExInvalidArgument
  | Some transportListener => Done (l, [TrAccept transportListener (CbAccepted transport)])
  end.

Definition onAccept (transport : string) (connection : Z) (l : ListenerImpl) : result :=
  Done (l <| connectionsWaitingForHello_ ::= fun s => {[connection]} ∪ s |>,
        [ConnRead connection (CbHelloRead transport connection)]).

Definition onConnectionHelloRead (transport : string) (connection : Z) (nopPacketIn : Packet) (l : ListenerImpl) : result :=
  match nopPacketIn with
  | SpontaneousConnection remoteContextName =>
      let pipe := mkNewPipe (pipeCounter_ l) remoteContextName transport connection in
      let l := l <| pipeCounter_ := u64 (pipeCounter_ l + 1) |> in
      '(l, calls) ← with_accept (trigger (kSuccess, Some pipe)) l;
      Done (l, NewPipeInit pipe :: calls)
  | RequestedConnection registrationId =>
      match connectionRequestRegistrations_ l !! registrationId with
      | Some fn =>
          Done (l <| connectionRequestRegistrations_ ::= delete registrationId |>,
                [CallRequest registrationId fn kSuccess transport (Some connection)])
      | None => Done (l, [])
      end
  | OtherPacket _ => Done (l, [])
  end.

(** ** Initialization and callbacks *)

Fixpoint arm_listeners (transports : list string) (l : ListenerImpl) : result :=
  match transports with
  | [] => Done (l, [])
  | t :: transports =>
      '(l, calls1) ← armListener t l;
      '(l, calls2) ← arm_listeners transports l;
      Done (l, calls1 ++ calls2)
  end.

Definition initFromLoop (contextClosed : bool) (l : ListenerImpl) : result :=
  if contextClosed then Done (l <| error_ := ListenerClosedError |>, [])
  else
    '(l, calls) ← arm_listeners (listeners_ l).*1 l;
    Done (l, CtxEnroll :: calls).

(** What a transport passes to a callback: the connection accepted, or the object
    read. *)
Record Data := mkData { d_connection : Z; d_packet : Packet }.

Definition callback_body (k : cb) (d : Data) (l : ListenerImpl) : result :=
  if is_error (error_ l) then Done (l, [])
  else match k with
  | CbAccepted transport =>
      '(l, calls1) ← onAccept transport (d_connection d) l;
      '(l, calls2) ← armListener transport l;
      Done (l, calls1 ++ calls2)
  | CbHelloRead transport connection =>
      let l := l <| connectionsWaitingForHello_ ::= fun s => s ∖ {[connection]} |> in
      onConnectionHelloRead transport connection (d_packet d) l
  end.

(** [CallbackWrapper::entryPointFromLoop]. *)
Definition entryPointFromLoop (k : cb) (e : Error) (d : Data) (l : ListenerImpl) : result :=
  '(l, calls1) ← setError e l;
  '(l, calls2) ← callback_body k d l;
  Done (l, calls1 ++ calls2).
End Listener.
Arguments ListenerImpl : clear implicits.
Arguments call : clear implicits.

(** ** The world of a listener *)

(** [lw_accepts] counts the calls of [accept]: the [n]-th gives the function [n];
    [lw_withdrawn] are the requests unregistered before they were called;
    [lw_hellos] the first objects read, without an error. *)
Record LWorld (Req : Type) := mkLWorld {
  lw_listener : ListenerImpl Req;
  lw_out : list cb;
  lw_trace : list (call Req);
  lw_accepts : nat;
  lw_withdrawn : list Z;
  lw_hellos : list (string * Z * Packet);
}.
Arguments mkLWorld {Req}.
Arguments lw_listener {Req}.
Arguments lw_out {Req}.
Arguments lw_trace {Req}.
Arguments lw_accepts {Req}.
Arguments lw_withdrawn {Req}.
Arguments lw_hellos {Req}.

Inductive levent (Req : Type) :=
| EvAccept
| EvRegister (f : Req)
| EvUnregister (registrationId : Z)
| EvClose
| EvDeliver (i : nat) (e : Error) (d : Data).
Arguments EvAccept {Req}.
Arguments EvRegister {Req}.
Arguments EvUnregister {Req}.
Arguments EvClose {Req}.
Arguments EvDeliver {Req}.

Section World.
Context {Req : Type}.
Implicit Types (l : ListenerImpl Req) (evs : list (call Req)).

Definition cb_of (c : call Req) : option cb :=
  match c with TrAccept _ k | ConnRead _ k => Some k | _ => None end.

Definition lw_after (w : LWorld Req) (out : list cb) (accepts : nat) (withdrawn : list Z) (hellos : list (string * Z * Packet))
    (m : outcome (ListenerImpl Req * list (call Req))) : outcome (LWorld Req) :=
  r ← m; Done (mkLWorld r.1 (out ++ omap cb_of r.2) (lw_trace w ++ r.2) accepts withdrawn hellos).

(** The hello that a callback delivers, if the listener has no error by then. *)
Definition hello_of (k : cb) (e : Error) (d : Data) (l : ListenerImpl Req) : list (string * Z * Packet) :=
  match k with
  | CbHelloRead t c => if is_error (error_ l) || is_error e then [] else [(t, c, d_packet d)]
  | CbAccepted _ => []
  end.

Definition lstep (w : LWorld Req) (ev : levent Req) : outcome (LWorld Req) :=
  let l := lw_listener w in
  match ev with
  | EvAccept => lw_after w (lw_out w) (S (lw_accepts w)) (lw_withdrawn w) (lw_hellos w) (acceptFromLoop (lw_accepts w) l)
  | EvRegister f =>
      lw_after w (lw_out w) (lw_accepts w) (lw_withdrawn w) (lw_hellos w)
        ('(l, _, calls) ← registerConnectionRequest f l; Done (l, calls))
  | EvUnregister id =>
      lw_after w (lw_out w) (lw_accepts w)
        (lw_withdrawn w ++ match connectionRequestRegistrations_ l !! id with Some _ => [id] | None => [] end)
        (lw_hellos w) (Done (unregisterConnectionRequest id l, []))
  | EvClose => lw_after w (lw_out w) (lw_accepts w) (lw_withdrawn w) (lw_hellos w) (closeFromLoop l)
  | EvDeliver i e d =>
      match lw_out w !! i with
      | None => Done w
      | Some k => lw_after w (delete i (lw_out w)) (lw_accepts w) (lw_withdrawn w) (lw_hellos w ++ hello_of k e d l)
                    (entryPointFromLoop k e d l)
      end
  end.

(** What happened, in the trace. *)
Definition accept_call (c : call Req) : option (AcceptCallback * (Error * option NewPipe)) :=
  match c with UserAccept f e p => Some (f, (e, p)) | _ => None end.
Definition request_call (c : call Req) : option (Z * (Error * string * option Z)) :=
  match c with CallRequest id _ e t k => Some (id, (e, t, k)) | _ => None end.

(** The functions of the first [n] calls of [accept]. *)
Definition accepts (n : nat) : list AcceptCallback := (fun i => mkAcceptCallback (Z.of_nat i) i) <$> seq 0 n.

(** The pipes that spontaneous connections open, in the order of their hellos. *)
Definition spontaneous (h : string * Z * Packet) : option (string * string * Z) :=
  match h with (t, c, SpontaneousConnection name) => Some (name, t, c) | _ => None end.
Definition requested (h : string * Z * Packet) : option (Z * string * Z) :=
  match h with (t, c, RequestedConnection id) => Some (id, t, c) | _ => None end.
Definition pipes_of (hellos : list (string * Z * Packet)) : list NewPipe :=
  imap (fun i p => mkNewPipe (Z.of_nat i) p.1.1 p.1.2 p.2) (omap spontaneous hellos).

(** The results given for pipes. *)
Definition given (ps : list NewPipe) : list (Error * option NewPipe) := (fun p => (kSuccess, Some p)) <$> ps.

(** The [k]-th function was called with the [k]-th pipe, as far as there are both;
    after an error the functions left were called with it. *)
Definition accepts_matched (error : Error) (n : nat) (ps : list NewPipe)
    (calls : list (AcceptCallback * (Error * option NewPipe))) : Prop :=
  if is_error error then
    exists j, (j <= n)%nat /\ (j <= length ps)%nat /\
      calls = zip (accepts n) (given (take j ps)) ++ ((fun f => (f, (error, None))) <$> drop j (accepts n))
  else calls = zip (accepts n) (given ps).

Record accept_inv (l : ListenerImpl Req) (n : nat) (ps : list NewPipe)
    (calls : list (AcceptCallback * (Error * option NewPipe))) : Prop := {
  ai_next : nextPipeBeingAccepted_ l = Z.of_nat n;
  ai_called : nextAcceptCallbackToCall_ l = Z.of_nat (length calls);
  ai_matched : accepts_matched (error_ l) n ps calls;
  ai_waiting : if is_error (error_ l) then callbacks_ (acceptCallback_ l) = []
               else acceptCallback_ l = rc_state (accepts n) (given ps);
  ai_bound : Z.of_nat n < 2 ^ 63;
}.

Lemma accepts_length n : length (accepts n) = n.
Proof. unfold accepts. by rewrite length_fmap, length_seq. Qed.

Lemma accepts_lookup n i f : accepts n !! i = Some f -> ac_sequenceNumber f = Z.of_nat i.
Proof.
  unfold accepts. rewrite list_lookup_fmap. intros Hf. apply fmap_Some in Hf as (k & Hk & ->).
  apply lookup_seq in Hk as [-> _]. simpl. lia.
Qed.

Lemma accepts_S n : accepts (S n) = accepts n ++ [mkAcceptCallback (Z.of_nat n) n].
Proof. unfold accepts. by rewrite seq_S, fmap_app. Qed.

Lemma call_accepts_ok xs : forall s,
  0 <= nextAcceptCallbackToCall_ s -> nextAcceptCallbackToCall_ s + Z.of_nat (length xs) < 2 ^ 64 ->
  (forall i x, xs !! i = Some x -> ac_sequenceNumber x.1 = nextAcceptCallbackToCall_ s + Z.of_nat i) ->
  call_accepts xs s =
    Done (s <| nextAcceptCallbackToCall_ := nextAcceptCallbackToCall_ s + Z.of_nat (length xs) |>,
          (fun x => UserAccept x.1 x.2.1 x.2.2 : call Req) <$> xs).
Proof.
  induction xs as [|x xs IH]; intros s H0 Hb Hx; simpl in *.
  - rewrite Z.add_0_r. by destruct s.
  - unfold call_accept. rewrite tp_check_bind by (apply Z.eqb_eq; rewrite (Hx 0%nat x eq_refl); lia).
    rewrite bind_done. cbv beta iota. rewrite u64_small by (unfold is_u64; lia).
    rewrite IH; simpl; [| lia | lia |].
    + replace (nextAcceptCallbackToCall_ s + Z.of_nat (S (length xs)))
        with (nextAcceptCallbackToCall_ s + 1 + Z.of_nat (length xs)) by lia. by destruct s.
    + intros i y Hy. rewrite (Hx (S i) y Hy). lia.
Qed.

(** Nothing changes but what [accept] is about. *)
Definition accept_only l l' : Prop :=
  exists a b c, l' = l <| nextPipeBeingAccepted_ := a |> <| nextAcceptCallbackToCall_ := b |> <| acceptCallback_ := c |>.
Definition user_calls (xs : list (AcceptCallback * (Error * option NewPipe))) : list (call Req) :=
  (fun x => UserAccept x.1 x.2.1 x.2.2) <$> xs.

(** Calls of functions of the user and of pipes, which concern no transport. *)
Definition silent evs : Prop :=
  Forall (fun c => match c with UserAccept _ _ _ | CallRequest _ _ _ _ _ => True | _ => False end) evs.

Lemma silent_omap {X} (f : call Req -> option X) evs :
  silent evs ->
  (forall a e p, f (UserAccept a e p) = None) -> (forall i a e t k, f (CallRequest i a e t k) = None) ->
  omap f evs = [].
Proof.
  intros Hs H1 H2. induction Hs as [|c evs Hc _ IH]; [done|]. simpl.
  destruct c; try done; by rewrite ?H1, ?H2.
Qed.

Lemma user_calls_ok xs :
  omap accept_call (user_calls xs) = xs /\ omap request_call (user_calls xs) = [] /\ silent (user_calls xs).
Proof.
  induction xs as [|[f [e p]] xs (IH1 & IH2 & IH3)]; [by repeat constructor|].
  split_and!; [exact (f_equal (cons (f, (e, p))) IH1) | exact IH2 | by constructor].
Qed.

Lemma zip_accepts_lookup n (ys : list (Error * option NewPipe)) i x : zip (accepts n) ys !! i = Some x -> ac_sequenceNumber x.1 = Z.of_nat i.
Proof.
  intros Hx. apply lookup_zip_with_Some in Hx as (f & y & -> & Hf & _). by apply (accepts_lookup n).
Qed.

(** One call of [arm] or [trigger]. *)
Lemma with_accept_exec x l n n' (ys : list (Error * option NewPipe)) :
  acceptCallback_ l = rc_state (accepts n) ys -> nextAcceptCallbackToCall_ l = Z.of_nat (length (zip (accepts n) ys)) ->
  accepts n ++ armed [x] = accepts n' -> Z.of_nat n' < 2 ^ 63 ->
  let ys' := ys ++ triggered_args [x] in
  exists calls, with_accept (rc_exec x) l =
    Done (l <| acceptCallback_ := rc_state (accepts n') ys' |>
            <| nextAcceptCallbackToCall_ := Z.of_nat (length (zip (accepts n') ys')) |>, user_calls calls) /\
    zip (accepts n) ys ++ calls = zip (accepts n') ys'.
Proof.
  intros Ha Hc Hn Hb ys'. exists (drop (length (zip (accepts n) ys)) (zip (accepts n') ys')).
  assert (zip (accepts n) ys ++ drop (length (zip (accepts n) ys)) (zip (accepts n') ys') = zip (accepts n') ys') as Hz
    by (rewrite <- Hn; apply zip_prefix).
  split; [|done]. unfold with_accept. rewrite Ha, rc_exec_state, Hn. fold ys'. cbv beta iota.
  assert (length (zip (accepts n') ys') <= n')%nat as Hle by (rewrite length_zip_with, accepts_length; lia).
  pose proof (f_equal length Hz) as Hlen. rewrite length_app in Hlen.
  rewrite call_accepts_ok; simpl.
  - rewrite Hc, <- Nat2Z.inj_add, Hlen. by destruct l.
  - rewrite Hc. lia.
  - rewrite Hc. lia.
  - intros i y Hy. rewrite lookup_drop in Hy. rewrite (zip_accepts_lookup _ _ _ _ Hy), Hc. lia.
Qed.

Lemma accept_ok l n ps calls :
  accept_inv l n ps calls -> Z.of_nat (S n) < 2 ^ 63 ->
  exists l' evs, acceptFromLoop n l = Done (l', evs) /\ accept_inv l' (S n) ps (calls ++ omap accept_call evs) /\
    accept_only l l' /\ omap request_call evs = [] /\ silent evs.
Proof.
  intros [H1 H2 H3 H4 H5] Hn. unfold acceptFromLoop. unfold accepts_matched in H3.
  rewrite H1, u64_small by (unfold is_u64; lia). replace (Z.of_nat n + 1) with (Z.of_nat (S n)) by lia.
  change (error_ (l <| nextPipeBeingAccepted_ := Z.of_nat (S n) |>)) with (error_ l).
  destruct (is_error (error_ l)) eqn:He.
  - destruct H3 as (j & Hj1 & Hj2 & H3). pose proof (f_equal length H3) as Hlen.
    rewrite length_app, length_zip_with, length_fmap, length_drop, accepts_length in Hlen.
    unfold given in Hlen. rewrite length_fmap, length_take in Hlen.
    assert (length calls = n) as Hc by lia.
    unfold call_accept. simpl. rewrite H2, Hc, Z.eqb_refl. simpl. rewrite u64_small by (unfold is_u64; lia).
    eexists _, _. split; [reflexivity|]. split_and!; [|exists (Z.of_nat (S n)), (Z.of_nat n + 1), (acceptCallback_ l); by destruct l|done|by repeat constructor].
    split; simpl; rewrite ?He; try done.
    + rewrite length_app. simpl. lia.
    + unfold accepts_matched. rewrite He. exists j. split_and!; [lia | done|].
      rewrite H3, accepts_S, drop_app_le, fmap_app by (rewrite accepts_length; lia). rewrite app_assoc. f_equal. f_equal.
      rewrite (zip_with_app_l _ (accepts n)). unfold given.
      rewrite (drop_ge (_ <$> _)), (take_ge (_ <$> _)) by (rewrite length_fmap, length_take, accepts_length; lia).
      by rewrite zip_with_nil_r, app_nil_r.
  - destruct (with_accept_exec (Arm (mkAcceptCallback (Z.of_nat n) n)) (l <| nextPipeBeingAccepted_ := Z.of_nat (S n) |>)
      n (S n) (given ps)) as (new & Hrun & Hz); simpl; try done; [by rewrite H2, H3 | by rewrite accepts_S|].
    simpl in Hrun. change (rc_exec (Arm (mkAcceptCallback (Z.of_nat n) n))) with
      (fun s : @RearmableCallback AcceptCallback (Error * option NewPipe) => arm (mkAcceptCallback (Z.of_nat n) n) s) in Hrun.
    change (with_accept (arm (mkAcceptCallback (Z.of_nat n) n)) (l <| nextPipeBeingAccepted_ := Z.of_nat (S n) |>))
      with (with_accept (fun s => arm (mkAcceptCallback (Z.of_nat n) n) s) (l <| nextPipeBeingAccepted_ := Z.of_nat (S n) |>)).
    rewrite Hrun. rewrite app_nil_r in *. destruct (user_calls_ok new) as (U1 & U2 & U3).
    eexists _, _. split; [reflexivity|]. rewrite U1, U2. split_and!; [|by eexists _, _, _|done|exact U3].
    split; simpl; rewrite ?He; try done.
    + by rewrite H3, Hz.
    + unfold accepts_matched. rewrite He. by rewrite H3, Hz.
Qed.

(** A pipe was opened for a spontaneous connection. *)
Lemma trigger_ok l n ps calls p :
  accept_inv l n ps calls -> is_error (error_ l) = false ->
  exists l' evs, with_accept (trigger (kSuccess, Some p)) l = Done (l', evs) /\
    accept_inv l' n (ps ++ [p]) (calls ++ omap accept_call evs) /\
    accept_only l l' /\ omap request_call evs = [] /\ silent evs.
Proof.
  intros [H1 H2 H3 H4 H5] He. unfold accepts_matched in H3. rewrite He in *.
  destruct (with_accept_exec (Trigger (kSuccess, Some p)) l n n (given ps)) as (new & Hrun & Hz); simpl; try done;
    [by rewrite H2, H3 | by rewrite app_nil_r|].
  simpl in Hrun. change (rc_exec (Trigger (kSuccess, Some p))) with
    (@trigger AcceptCallback (Error * option NewPipe) (kSuccess, Some p)) in Hrun.
  rewrite Hrun. destruct (user_calls_ok new) as (U1 & U2 & U3).
  assert (given (ps ++ [p]) = given ps ++ [(kSuccess, Some p)]) as Hg by (unfold given; by rewrite fmap_app).
  eexists _, _. split; [reflexivity|]. rewrite U1, U2. split_and!; [|eexists (nextPipeBeingAccepted_ l), _, _; by destruct l|done|exact U3].
  split; simpl; rewrite ?He, ?Hg; try done.
  - by rewrite H3, Hz.
  - unfold accepts_matched. rewrite He, Hg. by rewrite H3, Hz.
Qed.

(** An error answers all the calls of [accept] that wait. *)
Lemma trigger_all_ok l n ps calls e :
  accept_inv l n ps calls -> is_error (error_ l) = false -> is_error e = true ->
  exists l' evs, with_accept (triggerAll (fun _ => (e, None))) (l <| error_ := e |>) = Done (l', evs) /\
    accept_inv l' n ps (calls ++ omap accept_call evs) /\
    accept_only (l <| error_ := e |>) l' /\ omap request_call evs = [] /\ silent evs.
Proof.
  intros [H1 H2 H3 H4 H5] He Hee. unfold accepts_matched in H3. rewrite He in *. unfold with_accept, triggerAll. simpl.
  rewrite H4. simpl.
  assert (forall k (fs : list AcceptCallback), triggerAll_loop k (fun _ => (e, None : option NewPipe)) fs = (fun f => (f, (e, None))) <$> fs) as Hloop.
  { intros k fs. revert k. induction fs as [|f fs IH]; intros k; simpl; [done|]. by rewrite IH. }
  rewrite Hloop. set (xs := (fun f => (f, (e, None))) <$> drop (length (given ps)) (accepts n)).
  assert (length (given ps) = length ps) as Hg by (unfold given; by rewrite length_fmap).
  assert (length calls = Nat.min n (length ps)) as Hc by (rewrite H3, length_zip_with, accepts_length; lia).
  assert (length xs = n - length ps)%nat as Hxs by (unfold xs; rewrite length_fmap, length_drop, accepts_length, Hg; lia).
  rewrite call_accepts_ok; simpl; [| lia | lia |].
  - destruct (user_calls_ok xs) as (U1 & U2 & U3). fold (user_calls xs). eexists _, _. split; [reflexivity|].
    rewrite U1, U2. split_and!; [|eexists (nextPipeBeingAccepted_ l), _, _; by destruct l|done|exact U3].
    split; simpl; rewrite ?Hee; try done.
    + rewrite length_app, H2, Hc, Hxs. lia.
    + unfold accepts_matched. rewrite Hee. exists (Nat.min n (length ps)). split_and!; [lia..|].
      rewrite H3. unfold xs. rewrite Hg. destruct (Nat.le_ge_cases n (length ps)).
      * rewrite Nat.min_l by lia. rewrite !drop_ge by (rewrite accepts_length; lia). simpl. rewrite !app_nil_r.
        rewrite <- (take_drop n ps) at 1. unfold given. rewrite fmap_app, zip_with_app_r, length_fmap, length_take, Nat.min_l by lia.
        rewrite (drop_ge (accepts n)) by (rewrite accepts_length; lia). simpl. rewrite app_nil_r.
        by rewrite take_ge by (rewrite accepts_length; lia).
      * rewrite Nat.min_r by lia. by rewrite take_ge by lia.
  - intros i x Hx. unfold xs in Hx. rewrite list_lookup_fmap, lookup_drop in Hx. apply fmap_Some in Hx as (f & Hf & ->). simpl.
    rewrite (accepts_lookup _ _ _ Hf), H2, Hc, Hg. apply lookup_lt_Some in Hf. rewrite accepts_length in Hf. lia.
Qed.

(** ** Requests *)

Definition granted (x : Z * (Error * string * option Z)) : option (Z * string * Z) :=
  match x with (id, (kSuccess, t, Some c)) => Some (id, t, c) | _ => None end.

(** Each request is called, waiting or withdrawn; none waits after an error; and
    a connection is only given to the request that its hello names. *)
Record request_inv (l : ListenerImpl Req) (withdrawn : list Z) (hellos : list (string * Z * Packet))
    (calls : list (Z * (Error * string * option Z))) : Prop := {
  ri_table : requests_ok (nextConnectionRequestRegistrationId_ l) (connectionRequestRegistrations_ l) calls.*1 withdrawn
    (is_error (error_ l));
  ri_granted : omap granted calls `sublist_of` omap requested hellos;
}.

Lemma sublist_snoc_l (calls : list (Z * (Error * string * option Z))) hellos x :
  omap granted calls `sublist_of` omap requested hellos -> granted x = None ->
  omap granted (calls ++ [x]) `sublist_of` omap requested hellos.
Proof. intros Hs Hx. rewrite omap_app. simpl. by rewrite Hx, app_nil_r. Qed.

Lemma listener_register_ok f l withdrawn hellos calls :
  request_inv l withdrawn hellos calls -> nextConnectionRequestRegistrationId_ l + 1 < 2 ^ 63 ->
  exists l' id evs, registerConnectionRequest f l = Done (l', id, evs) /\
    request_inv l' withdrawn hellos (calls ++ omap request_call evs) /\
    (exists a b, l' = l <| nextConnectionRequestRegistrationId_ := a |> <| connectionRequestRegistrations_ := b |>) /\
    omap accept_call evs = [] /\ silent evs.
Proof.
  intros [Ht Hg] Hb. pose proof (requests_fresh _ _ _ _ _ Ht) as Hfresh. pose proof (rq_next _ _ _ _ _ Ht) as Hn.
  unfold registerConnectionRequest. rewrite u64_small by (unfold is_u64; lia). cbv zeta.
  change (error_ (l <| nextConnectionRequestRegistrationId_ := nextConnectionRequestRegistrationId_ l + 1 |>)) with (error_ l).
  destruct (is_error (error_ l)) eqn:He.
  - eexists _, _, _. split; [reflexivity|]. split_and!;
      [|by exists (nextConnectionRequestRegistrationId_ l + 1), (connectionRequestRegistrations_ l); destruct l|done|by repeat constructor].
    split; simpl.
    + rewrite fmap_app, He. by apply requests_refuse.
    + apply sublist_snoc_l; [done|]. simpl. by destruct (error_ l).
  - eexists _, _, _. split; [reflexivity|]. split_and!; [|by eexists _, _|done|by constructor].
    simpl. rewrite Hfresh, app_nil_r. split; simpl; [|done]. rewrite He. by apply requests_insert.
Qed.

Lemma unregister_ok id l withdrawn hellos calls :
  request_inv l withdrawn hellos calls ->
  request_inv (unregisterConnectionRequest id l)
    (withdrawn ++ match connectionRequestRegistrations_ l !! id with Some _ => [id] | None => [] end) hellos calls.
Proof. intros [Ht Hg]. split; [|done]. by apply requests_withdraw. Qed.

(** The hello of a requested connection. *)
Lemma request_ok l withdrawn hellos calls t c id :
  request_inv l withdrawn hellos calls ->
  exists l' evs, onConnectionHelloRead t c (RequestedConnection id) l = Done (l', evs) /\
    request_inv l' withdrawn (hellos ++ [(t, c, RequestedConnection id)]) (calls ++ omap request_call evs) /\
    (exists b, l' = l <| connectionRequestRegistrations_ := b |>) /\ omap accept_call evs = [] /\ silent evs.
Proof.
  intros [Ht Hg]. simpl.
  destruct (connectionRequestRegistrations_ l !! id) as [f|] eqn:Hf; eexists _, _; (split; [reflexivity|]).
  - split_and!; [|by eexists|done|by repeat constructor]. split; simpl.
    + rewrite fmap_app. by apply (requests_call _ _ _ _ _ _ f).
    + rewrite !omap_app. simpl. by apply sublist_app.
  - split_and!; [|exists (connectionRequestRegistrations_ l); by destruct l|done|by repeat constructor].
    simpl. rewrite app_nil_r. split; simpl; [done|]. rewrite omap_app. by apply sublist_inserts_r.
Qed.

(** ** Errors *)

Lemma accept_inv_same l l' n ps calls :
  accept_inv l n ps calls -> nextPipeBeingAccepted_ l' = nextPipeBeingAccepted_ l ->
  nextAcceptCallbackToCall_ l' = nextAcceptCallbackToCall_ l -> error_ l' = error_ l ->
  acceptCallback_ l' = acceptCallback_ l -> accept_inv l' n ps calls.
Proof. intros [H1 H2 H3 H4 H5] E1 E2 E3 E4. split; by rewrite ?E1, ?E2, ?E3, ?E4. Qed.

Lemma request_inv_same l l' withdrawn hellos calls :
  request_inv l withdrawn hellos calls ->
  nextConnectionRequestRegistrationId_ l' = nextConnectionRequestRegistrationId_ l ->
  connectionRequestRegistrations_ l' = connectionRequestRegistrations_ l ->
  error_ l' = error_ l -> request_inv l' withdrawn hellos calls.
Proof. intros [H1 H2] E1 E2 E3. split; by rewrite ?E1, ?E2, ?E3. Qed.

(** What concerns the transports, in the trace and among the callbacks. *)
Definition accepting (k : cb) : option string := match k with CbAccepted t => Some t | _ => None end.
Definition reading (k : cb) : option Z := match k with CbHelloRead _ c => Some c | _ => None end.
Definition conn_read (c : call Req) : option Z := match c with ConnRead k _ => Some k | _ => None end.
Definition conn_closed (c : call Req) : option Z := match c with ConnClose k => Some k | _ => None end.
Definition listener_closed (c : call Req) : option Z := match c with TrClose k => Some k | _ => None end.
Definition life (c : call Req) : option bool :=
  match c with CtxEnroll => Some true | CtxUnenroll => Some false | _ => None end.
Definition pipe_inited (c : call Req) : option NewPipe := match c with NewPipeInit p => Some p | _ => None end.

(** While there is no error, one [accept] is outstanding on each transport and one
    read on each connection whose hello is awaited; an error closes them all, and
    no connection is forgotten. *)
Record listen_inv (enrolled : bool) (l : ListenerImpl Req) (out : list cb) (evs : list (call Req))
    (hellos : list (string * Z * Packet)) : Prop := {
  li_keys : NoDup (listeners_ l).*1;
  li_accepting : is_error (error_ l) = false -> omap accepting out ≡ₚ (listeners_ l).*1;
  li_reading : is_error (error_ l) = false -> omap reading out ≡ₚ elements (connectionsWaitingForHello_ l);
  li_error : is_error (error_ l) = true -> connectionsWaitingForHello_ l = ∅;
  li_conns : omap conn_read evs ≡ₚ
    (hellos.*1).*2 ++ elements (connectionsWaitingForHello_ l) ++ omap conn_closed evs;
  li_enrolled : enrolled = false -> is_error (error_ l) = true;
  li_life : omap life evs = if enrolled then true :: (if is_error (error_ l) then [false] else []) else [];
  li_closed : omap listener_closed evs = if enrolled && is_error (error_ l) then (listeners_ l).*2 else [];
}.

(** The whole invariant; [n] calls of [accept] were made. *)
Record linv (enrolled : bool) (l : ListenerImpl Req) (out : list cb) (evs : list (call Req)) (n : nat)
    (withdrawn : list Z) (hellos : list (string * Z * Packet)) : Prop := {
  lo_accept : accept_inv l n (pipes_of hellos) (omap accept_call evs);
  lo_request : request_inv l withdrawn hellos (omap request_call evs);
  lo_listen : listen_inv enrolled l out evs hellos;
  lo_pipes : pipeCounter_ l = Z.of_nat (length (omap spontaneous hellos));
  lo_inits : omap pipe_inited evs = pipes_of hellos;
}.

Lemma listen_inv_same enrolled l l' out evs evs' hellos (ps : list NewPipe) :
  listen_inv enrolled l out evs hellos -> listeners_ l' = listeners_ l -> error_ l' = error_ l ->
  connectionsWaitingForHello_ l' = connectionsWaitingForHello_ l -> silent evs' ->
  listen_inv enrolled l' out (evs ++ (NewPipeInit <$> ps) ++ evs') hellos.
Proof.
  intros [L1 L2 L3 L4 L5 L6 L7 L8] E1 E2 E3 Hs.
  split; rewrite ?E1, ?E2, ?E3, ?omap_app, ?(silent_omap _ evs' Hs), ?calls_none, ?app_nil_r; done.
Qed.

(** ** Errors *)

(** The calls that [handleError] makes after those of the user. *)
Definition error_calls (regs : list (Z * Req)) (e : Error) (ls : list (string * Z)) (conns : list Z) : list (call Req) :=
  ((fun p => CallRequest p.1 p.2 e "" None) <$> regs) ++ ((fun p => TrClose p.2) <$> ls) ++ (ConnClose <$> conns) ++ [CtxUnenroll].

Lemma error_calls_none {X} (f : call Req -> option X) regs e ls conns :
  (forall i a e, f (CallRequest i a e "" None) = None) -> (forall k, f (TrClose k) = None) -> (forall k, f (ConnClose k) = None) ->
  f CtxUnenroll = None -> omap f (error_calls regs e ls conns) = [].
Proof.
  intros H1 H2 H3 H4. unfold error_calls. rewrite !omap_app, !calls_none by done. simpl. by rewrite H4.
Qed.

Lemma error_calls_requests regs e ls conns :
  is_error e = true ->
  (omap request_call (error_calls regs e ls conns)).*1 = regs.*1 /\
  omap granted (omap request_call (error_calls regs e ls conns)) = [].
Proof.
  intros He. unfold error_calls. rewrite !omap_app, (calls_some request_call _ (fun p => (p.1, (e, "", None)))) by done.
  rewrite !calls_none by done. simpl. rewrite app_nil_r. split.
  { rewrite <- list_fmap_compose. by apply list_fmap_ext. }
  induction regs as [|[i a] regs IH]; [done|]. simpl. by destruct e.
Qed.

Lemma error_calls_closed regs e ls conns :
  omap conn_closed (error_calls regs e ls conns) = conns /\ omap listener_closed (error_calls regs e ls conns) = ls.*2 /\
  omap life (error_calls regs e ls conns) = [false].
Proof.
  unfold error_calls. rewrite !omap_app, !(calls_none _ (fun p => CallRequest _ _ _ _ _)) by done. split_and!.
  - rewrite (calls_none _ (fun p => TrClose _)), (calls_some _ ConnClose id), list_fmap_id by done. simpl. by rewrite app_nil_r.
  - rewrite (calls_none _ ConnClose), (calls_some _ (fun p => TrClose _) snd) by done. simpl. by rewrite app_nil_r.
  - by rewrite (calls_none _ ConnClose), (calls_none _ (fun p => TrClose _)).
Qed.

Lemma listener_handleError_ok enrolled l out out' evs n withdrawn hellos e :
  linv enrolled l out evs n withdrawn hellos -> is_error (error_ l) = false -> is_error e = true ->
  exists l' evs', handleError (l <| error_ := e |>) = Done (l', evs') /\
    linv enrolled l' out' (evs ++ evs') n withdrawn hellos /\ error_ l' = e /\ omap cb_of evs' = [].
Proof.
  intros [Ha Hr Hl Hp Hi] He Hee.
  destruct (trigger_all_ok _ _ _ _ e Ha He Hee) as (l1 & evs1 & Hrun & Ha1 & (a & b & c & Hl1) & Hq & Hs).
  unfold handleError. change (error_ (l <| error_ := e |>)) with e. rewrite Hrun, bind_done. cbv beta iota zeta.
  assert (error_ l1 = e) as He1 by (by rewrite Hl1). rewrite He1.
  set (evs2 := error_calls (map_to_list (connectionRequestRegistrations_ l1)) e (listeners_ l1)
    (elements (connectionsWaitingForHello_ l1))).
  destruct (error_calls_requests (map_to_list (connectionRequestRegistrations_ l1)) e (listeners_ l1)
    (elements (connectionsWaitingForHello_ l1)) Hee) as [E1 E2].
  destruct (error_calls_closed (map_to_list (connectionRequestRegistrations_ l1)) e (listeners_ l1)
    (elements (connectionsWaitingForHello_ l1))) as (E3 & E4 & E5). 
  pose proof (fun X (f : call Req -> option X) => error_calls_none f (map_to_list (connectionRequestRegistrations_ l1)) e (listeners_ l1)
    (elements (connectionsWaitingForHello_ l1))) as E0. fold evs2 in E0, E1, E2, E3, E4, E5.
  exists (l1 <| connectionRequestRegistrations_ := ∅ |> <| connectionsWaitingForHello_ := ∅ |>), (evs1 ++ evs2).
  split; [reflexivity|]. split_and!; [split| done |].
  - rewrite !omap_app, (E0 _ accept_call), app_nil_r by done. by apply (accept_inv_same l1).
  - destruct Hr as [Ht Hg]. rewrite !omap_app, Hq. simpl. split; simpl.
    + rewrite fmap_app, E1, He1, Hee, Hl1. by apply (requests_fail _ _ _ _ _ Ht).
    + by rewrite omap_app, E2, app_nil_r.
  - destruct Hl as [L1 L2 L3 L4 L5 L6 L7 L8]. split; simpl; rewrite ?He1, ?Hee; try done.
    + by rewrite Hl1.
    + rewrite !omap_app, !(silent_omap _ evs1 Hs), E3, (E0 _ conn_read), L5, elements_empty, Hl1 by done. simpl. solve_perm.
    + rewrite !omap_app, (silent_omap _ evs1 Hs), E5, L7, He by done. destruct enrolled; [done|]. by specialize (L6 eq_refl); rewrite He in L6.
    + rewrite !omap_app, (silent_omap _ evs1 Hs), E4, L8, He, andb_false_r, Hl1 by done. simpl.
      destruct enrolled; [done|]. by specialize (L6 eq_refl); rewrite He in L6.
  - by rewrite Hl1.
  - by rewrite !omap_app, (silent_omap _ evs1 Hs), (E0 _ pipe_inited), !app_nil_r.
  - by rewrite omap_app, (silent_omap _ evs1 Hs), (E0 _ cb_of).
Qed.

(** ** Every event *)

(** After an error the callbacks that are outstanding do not matter. *)
Lemma linv_out enrolled l out out' evs n withdrawn hellos :
  linv enrolled l out evs n withdrawn hellos -> is_error (error_ l) = true -> linv enrolled l out' evs n withdrawn hellos.
Proof.
  intros [Ha Hr [L1 L2 L3 L4 L5 L6 L7 L8] Hp Hi] He. split; try done. split; try done; by rewrite He.
Qed.

Lemma listener_setError_ok enrolled l out evs n withdrawn hellos e :
  linv enrolled l out evs n withdrawn hellos ->
  exists l' evs', setError e l = Done (l', evs') /\ linv enrolled l' out (evs ++ evs') n withdrawn hellos /\
    is_error (error_ l') = is_error (error_ l) || is_error e /\ omap cb_of evs' = [] /\
    (is_error (error_ l') = false -> l' = l /\ evs' = []).
Proof.
  intros Hi. unfold setError. destruct (is_error (error_ l)) eqn:He; simpl.
  { eexists _, _. split; [reflexivity|]. by rewrite app_nil_r, He. }
  destruct (is_error e) eqn:Hee; simpl.
  - destruct (listener_handleError_ok enrolled l out out evs n withdrawn hellos e Hi He Hee) as (l' & evs' & -> & Hi' & He' & Hcb).
    eexists _, _. split; [reflexivity|]. by rewrite He', Hee.
  - eexists _, _. split; [reflexivity|]. by rewrite app_nil_r, He.
Qed.

Lemma find_listener_in t (ls : list (string * Z)) : t ∈ ls.*1 -> exists k, find_listener t ls = Some k.
Proof.
  intros Ht. apply list_elem_of_fmap in Ht as (p & -> & Hp). unfold find_listener.
  destruct (list_find_elem_of (fun q => q.1 = p.1) ls p Hp eq_refl) as [[i q] Hf]. rewrite Hf. by exists q.2.
Qed.

(** A transport accepted a connection. *)
Lemma accepted_ok enrolled l out i t c evs n withdrawn hellos :
  linv enrolled l out evs n withdrawn hellos -> is_error (error_ l) = false -> out !! i = Some (CbAccepted t) ->
  c ∉ omap conn_read evs ->
  exists l' k, callback_body (CbAccepted t) (mkData c (OtherPacket 0)) l = Done (l', [ConnRead c (CbHelloRead t c); TrAccept k (CbAccepted t)]) /\
    linv enrolled l' (delete i out ++ [CbHelloRead t c; CbAccepted t])
      (evs ++ [ConnRead c (CbHelloRead t c); TrAccept k (CbAccepted t)]) n withdrawn hellos.
Proof.
  intros [Ha Hr Hl Hp Hin] He Hout Hfresh. destruct Hl as [L1 L2 L3 L4 L5 L6 L7 L8].
  specialize (L2 He). specialize (L3 He). rewrite He in L6, L7, L8. pose proof (delete_Permutation _ _ _ Hout) as Hd.
  rewrite Hd in L2, L3. simpl in L2, L3.
  destruct (find_listener_in t (listeners_ l)) as (k & Hk). { rewrite <- L2. by constructor. }
  assert (c ∉ connectionsWaitingForHello_ l) as Hc.
  { intros Hc. apply Hfresh. rewrite L5. apply elem_of_app. right. apply elem_of_app. left. by apply elem_of_elements. }
  unfold callback_body. rewrite He. unfold onAccept. rewrite bind_done. cbv beta iota.
  unfold armListener. simpl. rewrite Hk. simpl. eexists _, k. split; [reflexivity|].
  split; rewrite ?omap_app; simpl; rewrite ?app_nil_r; try done.
  - by apply (accept_inv_same l).
  - by apply (request_inv_same l).
  - split; simpl; rewrite ?omap_app, ?He; simpl; rewrite ?app_nil_r; try done.
    + intros _. rewrite <- L2. solve_perm.
    + intros _. rewrite elements_union_singleton, <- L3 by done. solve_perm.
    + rewrite elements_union_singleton, L5 by done. solve_perm.
Qed.

(** The hello of a connection arrived: it is not waiting any more. *)
Lemma hello_listen_inv enrolled l out i t c h evs hellos :
  listen_inv enrolled l out evs hellos -> is_error (error_ l) = false -> out !! i = Some (CbHelloRead t c) ->
  listen_inv enrolled (l <| connectionsWaitingForHello_ ::= fun s => s ∖ {[c]} |>) (delete i out) evs (hellos ++ [(t, c, h)]).
Proof.
  intros [L1 L2 L3 L4 L5 L6 L7 L8] He Hout. specialize (L2 He). specialize (L3 He). rewrite He in L6, L7, L8.
  pose proof (delete_Permutation _ _ _ Hout) as Hd. rewrite Hd in L2, L3. simpl in L2, L3.
  assert (c ∈ connectionsWaitingForHello_ l) as Hc. { apply elem_of_elements. rewrite <- L3. by constructor. }
  assert (elements (connectionsWaitingForHello_ l) ≡ₚ c :: elements (connectionsWaitingForHello_ l ∖ {[c]})) as Hel.
  { rewrite <- elements_union_singleton by set_solver. by rewrite <- union_difference_singleton_L. }
  split; simpl; rewrite ?He; try done.
  - intros _. rewrite Hel in L3. by apply (Permutation_cons_inv (a:=c)).
  - etrans; [exact L5|]. rewrite Hel, !fmap_app. simpl. solve_perm.
Qed.

Lemma pipes_of_snoc hellos t c h :
  pipes_of (hellos ++ [(t, c, h)]) = pipes_of hellos ++
    match h with
    | SpontaneousConnection name => [mkNewPipe (Z.of_nat (length (omap spontaneous hellos))) name t c]
    | _ => [] end.
Proof.
  unfold pipes_of. rewrite omap_app. simpl. destruct h; simpl; rewrite ?app_nil_r; try done.
  rewrite imap_app. simpl. by rewrite Nat.add_0_r.
Qed.

Lemma spontaneous_le hellos : (length (omap spontaneous hellos) <= length hellos)%nat.
Proof. induction hellos as [|h hs IH]; [done|]. simpl. destruct (spontaneous h); simpl; unfold omap in *; lia. Qed.

(** The hello of a connection was read. *)
Lemma hello_ok enrolled l out i t c d evs n withdrawn hellos :
  linv enrolled l out evs n withdrawn hellos -> is_error (error_ l) = false -> out !! i = Some (CbHelloRead t c) ->
  Z.of_nat (length hellos) + 1 < 2 ^ 63 ->
  exists l' evs', callback_body (CbHelloRead t c) d l = Done (l', evs') /\ omap cb_of evs' = [] /\
    linv enrolled l' (delete i out) (evs ++ evs') n withdrawn (hellos ++ [(t, c, d_packet d)]).
Proof.
  intros [Ha Hr Hl Hp Hin] He Hout Hb. pose proof (spontaneous_le hellos) as Hle.
  pose proof (hello_listen_inv _ _ _ _ t c (d_packet d) _ _ Hl He Hout) as Hl0.
  unfold callback_body. rewrite He. cbv zeta.
  set (l0 := l <| connectionsWaitingForHello_ ::= fun s => s ∖ {[c]} |>) in *.
  assert (accept_inv l0 n (pipes_of hellos) (omap accept_call evs)) as Ha0 by by apply (accept_inv_same l).
  assert (request_inv l0 withdrawn hellos (omap request_call evs)) as Hr0 by by apply (request_inv_same l).
  destruct (d_packet d) as [name|id|k] eqn:Hd.
  - unfold onConnectionHelloRead. change (pipeCounter_ l0) with (pipeCounter_ l).
    rewrite Hp, u64_small by (unfold is_u64; lia). cbv zeta.
    set (p := mkNewPipe _ name t c). set (l1 := l0 <| pipeCounter_ := _ |>).
    destruct (trigger_ok l1 n (pipes_of hellos) (omap accept_call evs) p) as (l2 & evs2 & -> & Ha2 & (a & b & cc & ->) & Hq & Hs);
      [by apply (accept_inv_same l0) | done |].
    rewrite bind_done. cbv beta iota. eexists _, _. split; [reflexivity|]. split; [exact (silent_omap cb_of _ Hs (fun _ _ _ => eq_refl) (fun _ _ _ _ _ => eq_refl))|]. split.
    + rewrite pipes_of_snoc, omap_app. exact Ha2.
    + rewrite omap_app. change (omap request_call (NewPipeInit p :: evs2)) with (omap request_call evs2).
      rewrite Hq, app_nil_r. apply (request_inv_same l0); try done.
      destruct Hr0 as [R1 R2]. split; [done|]. rewrite omap_app. by apply sublist_inserts_r.
    + by apply (listen_inv_same _ l0 _ _ _ _ _ [p]).
    + simpl. rewrite omap_app, length_app. simpl. lia.
    + rewrite pipes_of_snoc, omap_app, Hin. change (omap pipe_inited (NewPipeInit p :: evs2)) with (p :: omap pipe_inited evs2).
      by rewrite (silent_omap _ evs2 Hs).
  - destruct (request_ok l0 withdrawn hellos (omap request_call evs) t c id Hr0) as (l2 & evs2 & -> & Hr2 & (b & ->) & Hq & Hs).
    eexists _, _. split; [reflexivity|]. split; [by apply silent_omap|]. split.
    + rewrite pipes_of_snoc, omap_app, Hq, !app_nil_r. by apply (accept_inv_same l0).
    + by rewrite omap_app.
    + by apply (listen_inv_same _ l0 _ _ _ _ _ []).
    + rewrite omap_app, length_app. simpl. rewrite Nat.add_0_r. exact Hp.
    + by rewrite pipes_of_snoc, omap_app, Hin, (silent_omap _ evs2 Hs).
  - eexists _, _. split; [reflexivity|]. split; [done|]. rewrite app_nil_r. split; try done.
    + by rewrite pipes_of_snoc, app_nil_r.
    + destruct Hr0 as [R1 R2]. split; [done|]. rewrite omap_app. by apply sublist_inserts_r.
    + rewrite omap_app, length_app. simpl. rewrite Nat.add_0_r. exact Hp.
    + by rewrite pipes_of_snoc, app_nil_r.
Qed.

(** What the environment of a listener promises: counters do not wrap, and a
    transport does not accept the same connection twice. *)
Definition levent_ok (w : LWorld Req) (ev : levent Req) : bool :=
  match ev with
  | EvAccept => bool_decide (Z.of_nat (S (lw_accepts w)) < 2 ^ 63)
  | EvRegister _ => bool_decide (nextConnectionRequestRegistrationId_ (lw_listener w) + 1 < 2 ^ 63)
  | EvDeliver i e d =>
      match lw_out w !! i with
      | Some (CbAccepted _) => is_error e || bool_decide (d_connection d ∉ omap conn_read (lw_trace w))
      | Some (CbHelloRead _ _) => bool_decide (Z.of_nat (length (lw_hellos w)) + 1 < 2 ^ 63)
      | None => false
      end
  | EvUnregister _ | EvClose => true
  end.

Definition lworld_ok (enrolled : bool) (w : LWorld Req) : Prop :=
  linv enrolled (lw_listener w) (lw_out w) (lw_trace w) (lw_accepts w) (lw_withdrawn w) (lw_hellos w).

Lemma deliver_ok enrolled w i e d :
  lworld_ok enrolled w -> levent_ok w (EvDeliver i e d) = true ->
  exists w', lstep w (EvDeliver i e d) = Done w' /\ lworld_ok enrolled w'.
Proof.
  intros Hw Hok. simpl in *. destruct (lw_out w !! i) as [k|] eqn:Hout; [|done].
  destruct (listener_setError_ok _ _ _ _ _ _ _ e Hw) as (l1 & evs1 & Hrun & Hi1 & He1 & Hcb & Hsame).
  unfold entryPointFromLoop. rewrite Hrun, bind_done. cbv beta iota.
  destruct (is_error (error_ l1)) eqn:He.
  - unfold callback_body. rewrite He. eexists. split; [reflexivity|]. unfold lworld_ok. simpl.
    rewrite app_nil_r, Hcb, app_nil_r.
    assert (hello_of k e d (lw_listener w) = []) as -> by (destruct k; simpl; [done | by rewrite <- He1]).
    rewrite app_nil_r. by apply (linv_out _ _ (lw_out w)).
  - destruct (Hsame eq_refl) as [-> ->]. symmetry in He1. apply orb_false_iff in He1 as [He0 Hee].
    destruct k as [t|t c].
    + rewrite Hee in Hok. apply bool_decide_eq_true in Hok.
      destruct (accepted_ok _ _ _ _ t (d_connection d) _ _ _ _ Hw He Hout Hok) as (l' & k & Hbody & Hi').
      assert (callback_body (CbAccepted t) d (lw_listener w) = callback_body (CbAccepted t) (mkData (d_connection d) (OtherPacket 0)) (lw_listener w)) as -> by done.
      rewrite Hbody. eexists. split; [reflexivity|]. unfold lworld_ok. simpl. by rewrite app_nil_r.
    + apply bool_decide_eq_true in Hok.
      destruct (hello_ok _ _ _ _ t c d _ _ _ _ Hw He Hout Hok) as (l' & evs' & -> & Hcb' & Hi').
      eexists. split; [reflexivity|]. unfold lworld_ok. simpl. rewrite Hcb', app_nil_r, He0, Hee. exact Hi'.
Qed.

Lemma lstep_ok enrolled w ev :
  lworld_ok enrolled w -> levent_ok w ev = true -> exists w', lstep w ev = Done w' /\ lworld_ok enrolled w'.
Proof.
  destruct ev as [| f | id | | i e d]; [| | | |apply deliver_ok]; unfold lworld_ok; simpl; intros Hw Hok.
  - apply bool_decide_eq_true in Hok. destruct Hw as [Ha Hr Hl Hp Hi].
    destruct (accept_ok _ _ _ _ Ha Hok) as (l' & evs' & -> & Ha' & (a & b & c & ->) & Hq & Hs).
    eexists. split; [reflexivity|]. simpl. rewrite (silent_omap cb_of evs' Hs), app_nil_r by done. split; try done.
    + by rewrite omap_app.
    + rewrite omap_app, Hq, app_nil_r. by apply (request_inv_same (lw_listener w)).
    + by apply (listen_inv_same _ (lw_listener w) _ _ _ _ _ []).
    + by rewrite omap_app, Hi, (silent_omap _ evs' Hs), app_nil_r.
  - apply bool_decide_eq_true in Hok. destruct Hw as [Ha Hr Hl Hp Hi].
    destruct (listener_register_ok f _ _ _ _ Hr Hok) as (l' & id & evs' & -> & Hr' & (a & b & ->) & Hq & Hs).
    eexists. split; [reflexivity|]. simpl. rewrite (silent_omap cb_of evs' Hs), app_nil_r by done. split; try done.
    + rewrite omap_app, Hq, app_nil_r. by apply (accept_inv_same (lw_listener w)).
    + by rewrite omap_app.
    + by apply (listen_inv_same _ (lw_listener w) _ _ _ _ _ []).
    + by rewrite omap_app, Hi, (silent_omap _ evs' Hs), app_nil_r.
  - destruct Hw as [Ha Hr Hl Hp Hi]. eexists. split; [reflexivity|]. simpl. rewrite !app_nil_r. split; try done.
    + by apply (accept_inv_same (lw_listener w)).
    + by apply unregister_ok.
    + destruct Hl as [L1 L2 L3 L4 L5 L6 L7 L8]. by split.
  - destruct (listener_setError_ok _ _ _ _ _ _ _ ListenerClosedError Hw) as (l1 & evs1 & Hrun & Hi1 & _ & Hcb & _).
    unfold closeFromLoop. rewrite Hrun. eexists. split; [reflexivity|]. simpl. by rewrite Hcb, app_nil_r.
Qed.

(** ** Reachable worlds *)

Definition init_world (contextClosed : bool) (l : ListenerImpl Req) : outcome (LWorld Req) :=
  '(l, calls) ← initFromLoop contextClosed l;
  Done (mkLWorld l (omap cb_of calls) calls 0 [] []).

Definition linit (transports : gmap string TransportContext) (urls : list string) (contextClosed : bool) : outcome (LWorld Req) :=
  l ← newListener transports urls; init_world contextClosed l.

Inductive lreach (transports : gmap string TransportContext) (urls : list string) (contextClosed : bool) : LWorld Req -> Prop :=
| lreach_init w : linit transports urls contextClosed = Done w -> lreach transports urls contextClosed w
| lreach_step w ev w' :
    lreach transports urls contextClosed w -> levent_ok w ev = true -> lstep w ev = Done w' ->
    lreach transports urls contextClosed w'.

(** A listener as its constructor leaves it. *)
Record new_listener l : Prop := {
  nl_keys : NoDup (listeners_ l).*1;
  nl_addresses : forall t, t ∈ (listeners_ l).*1 <-> is_Some (addresses_ l !! t);
  nl_rest : exists a b, l = mkListenerImpl kSuccess a b 0 0 newRearmable ∅ 0 ∅ 0;
}.

Lemma open_url_ok transports url l l' :
  open_url transports url l = Done l' -> new_listener l -> new_listener l'.
Proof.
  intros Ho [H1 H2 (a & b & ->)]. unfold open_url in Ho. inv_bind Ho. destruct a0 as [t addr]. inv_bind Ho.
  destruct (tc_listen a0 addr) as [k addr']. simpl in *. inversion Ho; subst; clear Ho. split; simpl in *.
  - case_decide; [done|]. rewrite fmap_app. simpl. apply NoDup_app. split_and!; [done| set_solver | apply NoDup_singleton].
  - intros t'. specialize (H2 t') as H2'. specialize (H2 t). destruct (b !! t) eqn:Hb; case_decide as Hd; try done.
    + exfalso. by apply Hd, H2.
    + apply H2 in Hd. by destruct Hd.
    + rewrite fmap_app, elem_of_app, H2', lookup_insert_is_Some. simpl. rewrite list_elem_of_singleton.
      destruct (decide (t = t')); naive_solver.
  - by eexists _, _.
Qed.

Lemma newListener_ok transports urls l : newListener transports urls = Done l -> new_listener l.
Proof.
  unfold newListener. assert (new_listener (mkListenerImpl kSuccess [] ∅ 0 0 newRearmable ∅ 0 ∅ 0)) as H0.
  { split; simpl; [by constructor | | by eexists _, _]. intros t. rewrite lookup_empty, is_Some_alt. set_solver. }
  revert H0. generalize (mkListenerImpl (Req:=Req) kSuccess [] ∅ 0 0 newRearmable ∅ 0 ∅ 0).
  induction urls as [|u urls IH]; intros l0 H0 Hf; simpl in Hf; [by inversion Hf; subst|].
  inv_bind Hf. apply (IH a); [|done]. by apply (open_url_ok transports u l0).
Qed.

Lemma arm_listeners_ok ts : forall l,
  (forall t, t ∈ ts -> t ∈ (listeners_ l).*1) ->
  exists ks, arm_listeners ts l = Done (l, (fun p => TrAccept p.2 (CbAccepted p.1)) <$> zip ts ks) /\ length ks = length ts.
Proof.
  induction ts as [|t ts IH]; intros l Hin; simpl; [by exists []|].
  destruct (find_listener_in t (listeners_ l)) as (k & Hk); [by apply Hin; constructor|].
  unfold armListener. rewrite Hk, bind_done. cbv beta iota. destruct (IH l) as (ks & -> & Hlen).
  { intros t' Ht. apply Hin. by constructor. }
  exists (k :: ks). simpl. by rewrite Hlen.
Qed.

Lemma init_world_ok contextClosed l :
  new_listener l -> exists w, init_world contextClosed l = Done w /\ lworld_ok (negb contextClosed) w.
Proof.
  intros [H1 _ (a & b & ->)]. unfold init_world, initFromLoop. destruct contextClosed; simpl in *.
  { eexists. split; [reflexivity|]. split; simpl; try done; split; try done; simpl.
    - exists 0%nat. split_and!; [lia | simpl; lia | done]. }
  destruct (arm_listeners_ok a.*1 (mkListenerImpl kSuccess a b 0 0 newRearmable ∅ 0 ∅ 0)) as (ks & -> & Hlen); [done|].
  rewrite bind_done. cbv beta iota. eexists. split; [reflexivity|].
  set (evs := (fun p => TrAccept p.2 (CbAccepted p.1)) <$> zip a.*1 ks).
  assert (forall X (f : call Req -> option X), (forall k t, f (TrAccept k (CbAccepted t)) = None) -> omap f evs = []) as Hno
    by (intros X f Hf; by apply calls_none).
  assert (omap cb_of evs = CbAccepted <$> a.*1) as Hcb.
  { unfold evs. rewrite (calls_some _ _ (fun p => CbAccepted p.1)) by done.
    rewrite <- (fst_zip a.*1 ks) at 2 by (by rewrite Hlen). by rewrite <- list_fmap_compose. }
  unfold lworld_ok. simpl. unfold omap in *. split; simpl; rewrite ?Hno by done; try done; split; simpl; try done.
  - intros _. rewrite Hcb. clear. induction (a.*1) as [|t ts IH]; [done|]. simpl. by constructor.
  - intros _. rewrite Hcb, elements_empty. clear. by induction (a.*1).
  - by rewrite elements_empty, !Hno.
  - by rewrite Hno.
  - by rewrite Hno.
Qed.

Lemma lreach_ok transports urls contextClosed w :
  lreach transports urls contextClosed w -> lworld_ok (negb contextClosed) w.
Proof.
  induction 1 as [w Hw | w ev w' _ IH Hok Hw].
  - unfold linit in Hw. destruct (newListener transports urls) as [l|] eqn:Hl; [|done].
    destruct (init_world_ok contextClosed l (newListener_ok _ _ _ Hl)) as (w0 & Hw0 & Hi).
    rewrite bind_done, Hw0 in Hw. by inversion Hw; subst.
  - destruct (lstep_ok _ _ _ IH Hok) as (w0 & Hw0 & Hi). rewrite Hw0 in Hw. by inversion Hw; subst.
Qed.
End World.

(** ** What a listener guarantees *)

Section Theorems.
Context {Req : Type}.

(** C27: In any reachable world no event makes the listener throw; the pipes opened
    are those of the spontaneous connections, in the order of their hellos; and
    the [k]-th call of [accept] gets the [k]-th of these pipes, or the error of the
    listener if this comes first, each exactly once and in order. *)
Theorem listener_accepts transports urls contextClosed (w : LWorld Req) :
  lreach transports urls contextClosed w ->
  (forall ev, levent_ok w ev = true -> exists w', lstep w ev = Done w') /\
  omap pipe_inited (lw_trace w) = pipes_of (lw_hellos w) /\
  accepts_matched (error_ (lw_listener w)) (lw_accepts w) (pipes_of (lw_hellos w)) (omap accept_call (lw_trace w)).
Proof.
  intros Hw. apply lreach_ok in Hw as Hi. split_and!.
  - intros ev Hok. destruct (lstep_ok _ _ _ Hi Hok) as (w' & Hs & _). by exists w'.
  - apply (lo_inits _ _ _ _ _ _ _ Hi).
  - apply (ai_matched _ _ _ _ (lo_accept _ _ _ _ _ _ _ Hi)).
Qed.

(** A request that a pipe registered is in exactly one place: called, still
    registered, or withdrawn by the pipe; none stays registered after an error;
    and a connection is given to a request only for a hello that names it. *)
Lemma listener_requests transports urls contextClosed (w : LWorld Req) :
  lreach transports urls contextClosed w ->
  (omap request_call (lw_trace w)).*1 ++ (map_to_list (connectionRequestRegistrations_ (lw_listener w))).*1 ++ lw_withdrawn w
    ≡ₚ seqZ 0 (nextConnectionRequestRegistrationId_ (lw_listener w)) /\
  (is_error (error_ (lw_listener w)) = true -> connectionRequestRegistrations_ (lw_listener w) = ∅) /\
  omap granted (omap request_call (lw_trace w)) `sublist_of` omap requested (lw_hellos w).
Proof. intros Hw. apply lreach_ok in Hw as [_ [[_ H1 H2] H3] _ _ _]. done. Qed.

(** C28: A listener keeps listening and forgets no connection.  While it has no
    error, exactly one [accept] is outstanding on each of its transports, and one
    read on each connection whose hello is awaited.  Every connection accepted has
    had its hello handled, awaits it, or was closed; after an error none awaits,
    every transport listener was closed once and the listener left its context,
    which it joined if it was open. *)
Theorem listener_connections transports urls contextClosed (w : LWorld Req) :
  lreach transports urls contextClosed w ->
  let l := lw_listener w in let failed := is_error (error_ l) in
  (failed = false ->
     omap accepting (lw_out w) ≡ₚ (listeners_ l).*1 /\
     omap reading (lw_out w) ≡ₚ elements (connectionsWaitingForHello_ l)) /\
  omap conn_read (lw_trace w) ≡ₚ
    ((lw_hellos w).*1).*2 ++ elements (connectionsWaitingForHello_ l) ++ omap conn_closed (lw_trace w) /\
  (failed = true -> connectionsWaitingForHello_ l = ∅) /\
  (contextClosed = false ->
     omap listener_closed (lw_trace w) = (if failed then (listeners_ l).*2 else []) /\
     omap life (lw_trace w) = true :: if failed then [false] else []).
Proof.
  intros Hw. apply lreach_ok in Hw as [_ _ [L1 L2 L3 L4 L5 L6 L7 L8] _ _]. cbv zeta. split_and!; [|exact L5|exact L4|].
  - intros He. split; [by apply L2 | by apply L3].
  - intros ->. split; [exact L8 | exact L7].
Qed.

End Theorems.

(** ** A run *)

Fixpoint lrun {Req} (evs : list (levent Req)) (w : LWorld Req) : outcome (LWorld Req) :=
  match evs with
  | [] => Done w
  | ev :: evs => if levent_ok w ev then w ← lstep w ev; lrun evs w else Throw ExAssert
  end.

Lemma lrun_reach {Req} transports urls contextClosed evs : forall (w w' : LWorld Req),
  lreach transports urls contextClosed w -> lrun evs w = Done w' -> lreach transports urls contextClosed w'.
Proof.
  induction evs as [|ev evs IH]; intros w w' Hw Hrun; simpl in Hrun; [by inversion Hrun; subst|].
  destruct (levent_ok w ev) eqn:Hok; [|done]. inv_bind Hrun. apply (IH a); [|done]. by eapply lreach_step.
Qed.

Definition demo_transports : gmap string TransportContext :=
  {["shm" := mkTransportContext (fun a => (1, a)); "uv" := mkTransportContext (fun a => (2, "127.0.0.1:5000"))]}.
Definition demo_urls : list string := ["shm://here"; "uv://127.0.0.1"].

Definition demo_start : LWorld nat :=
  match linit demo_transports demo_urls false with
  | Done w => w
  | Throw _ => mkLWorld (mkListenerImpl kSuccess [] ∅ 0 0 newRearmable ∅ 0 ∅ 0) [] [] 0 [] []
  end.

(** Two pipes open, the second before it is accepted; of three requests one gets
    its connection, one is withdrawn and one is called when the listener is closed,
    with a connection whose hello did not arrive. *)
Definition demo_events : list (levent nat) :=
  [EvAccept; EvRegister 7%nat; EvRegister 8%nat; EvRegister 9%nat;
   EvDeliver 0 kSuccess (mkData 10 (OtherPacket 0)); EvDeliver 0 kSuccess (mkData 11 (OtherPacket 0));
   EvDeliver 0 kSuccess (mkData 0 (SpontaneousConnection "a"));
   EvDeliver 0 kSuccess (mkData 12 (OtherPacket 0));
   EvDeliver 0 kSuccess (mkData 0 (RequestedConnection 1));
   EvUnregister 0;
   EvDeliver 1 kSuccess (mkData 0 (SpontaneousConnection "b"));
   EvDeliver 0 kSuccess (mkData 13 (OtherPacket 0));
   EvAccept; EvAccept; EvClose; EvAccept].

Definition demo_end : LWorld nat := match lrun demo_events demo_start with Done w => w | Throw _ => demo_start end.

Lemma demo_reach : lreach demo_transports demo_urls false demo_end.
Proof.
  apply (lrun_reach _ _ _ demo_events demo_start); [|by vm_compute].
  apply lreach_init. by vm_compute.
Qed.

Definition demo_accepts : list (AcceptCallback * (Error * option NewPipe)) :=
  [(mkAcceptCallback 0 0, (kSuccess, Some (mkNewPipe 0 "a" "shm" 10))); (mkAcceptCallback 1 1, (kSuccess, Some (mkNewPipe 1 "b" "shm" 12)));
   (mkAcceptCallback 2 2, (ListenerClosedError, None)); (mkAcceptCallback 3 3, (ListenerClosedError, None))].

Lemma listener_accepts_witness :
  omap accept_call (lw_trace demo_end) = demo_accepts /\
  accepts_matched ListenerClosedError 4 (pipes_of (lw_hellos demo_end)) demo_accepts.
Proof. split; [by vm_compute | apply (listener_accepts _ _ _ _ demo_reach)]. Defined.

Lemma listener_requests_witness :
  omap request_call (lw_trace demo_end) = [(1, (kSuccess, "uv", Some 11)); (2, (ListenerClosedError, "", None))] /\
  omap granted (omap request_call (lw_trace demo_end)) `sublist_of` omap requested (lw_hellos demo_end).
Proof. split; [by vm_compute | apply (listener_requests _ _ _ _ demo_reach)]. Defined.

Lemma listener_connections_witness :
  omap conn_closed (lw_trace demo_end) = [13] /\ omap conn_read (lw_trace demo_end) = [10; 11; 12; 13] /\
  omap life (lw_trace demo_end) = [true; false].
Proof.
  split; [by vm_compute|]. split; [by vm_compute|].
  destruct (listener_connections _ _ _ _ demo_reach) as (_ & _ & _ & Hlife). by apply Hlife.
Defined.
