(* ===== verification/ContextListener.v ===== *)
(** * A context and its listeners

    The listeners of [Listener] keep the interface that [Context] asks of them, so
    what is shown of contexts holds for contexts with these listeners; and a run
    with two of them. *)

From S2P Require Import Prelude Callback Enrollment Messages Select Context Listener.

#[local] Arguments init_world : simpl never.
#[local] Arguments lstep : simpl never.

(** A listener before its initialization, and after it in a world of its own. *)
Inductive LObject (Req : Type) :=
| LNew (l : ListenerImpl Req)
| LRunning (enrolled : bool) (w : LWorld Req).
Arguments LNew {Req}.
Arguments LRunning {Req}.

Section Instances.
Context {Req : Type}.
Implicit Types (w : LWorld Req) (o : LObject Req).

(** The calls of [enroll] and [unenroll] made from [w] to [w']. *)
Definition new_life w w' : list bool := omap life (drop (length (lw_trace w)) (lw_trace w')).

Definition lobject_init (contextClosed : bool) o : outcome (LObject Req * list bool) :=
  match o with
  | LNew l => w ← init_world contextClosed l; Done (LRunning (negb contextClosed) w, omap life (lw_trace w))
  | LRunning _ _ => Throw ExAssert
  end.

Definition lobject_event (ev : levent Req) o : outcome (LObject Req * list bool) :=
  match o with
  | LNew _ => Throw ExAssert
  | LRunning b w => w' ← lstep w ev; Done (LRunning b w', new_life w w')
  end.

#[export] Instance lobject_enrollee : Enrollee (LObject Req) := {|
  en_init := lobject_init;
  en_close := lobject_event EvClose;
  en_task o o' bs := match o with
    | LNew _ => False
    | LRunning _ w => exists ev, levent_ok w ev = true /\ lobject_event ev o = Done (o', bs)
    end;
  en_phase o := match o with
    | LNew _ => New
    | LRunning _ w => if is_error (Listener.error_ (lw_listener w)) then Gone else Live
    end;
  en_ok o := match o with LNew l => new_listener l | LRunning b w => lworld_ok b w end;
|}.

Lemma lstep_trace w ev w' : lstep w ev = Done w' -> exists evs, lw_trace w' = lw_trace w ++ evs.
Proof.
  assert (forall out n wd hs m w', lw_after w out n wd hs m = Done w' -> exists evs, lw_trace w' = lw_trace w ++ evs) as Ha.
  { intros out n wd hs m w1 Hm. unfold lw_after in Hm. inv_bind Hm. inversion Hm; subst. by eexists. }
  destruct ev as [| | | |i e d]; cbn [lstep]; try apply Ha.
  unfold lstep. destruct (lw_out w !! i); [apply Ha|]. intros [= <-]. exists []. by rewrite app_nil_r.
Qed.

(** A listener that is initialized enrolls and unenrolls itself as its errors say. *)
Lemma event_phase b w ev :
  lworld_ok b w -> levent_ok w ev = true ->
  exists w' bs, lobject_event ev (LRunning b w) = Done (LRunning b w', bs) /\ lworld_ok b w' /\
    phase_step (en_phase (LRunning b w)) bs (en_phase (LRunning b w')).
Proof.
  intros Hw Hok. destruct (lstep_ok _ _ _ Hw Hok) as (w' & Hs & Hw'). destruct (lstep_trace _ _ _ Hs) as (evs & Ht).
  simpl. rewrite Hs, bind_done. exists w', (new_life w w'). split_and!; try done.
  unfold new_life. rewrite Ht, drop_app_length.
  pose proof (li_life _ _ _ _ _ (lo_listen _ _ _ _ _ _ _ Hw)) as L1. pose proof (li_life _ _ _ _ _ (lo_listen _ _ _ _ _ _ _ Hw')) as L2.
  pose proof (li_enrolled _ _ _ _ _ (lo_listen _ _ _ _ _ _ _ Hw)) as E1. pose proof (li_enrolled _ _ _ _ _ (lo_listen _ _ _ _ _ _ _ Hw')) as E2.
  rewrite Ht, omap_app, L1 in L2. destruct b; simpl in L2.
  - injection L2 as L2. destruct (is_error (Listener.error_ (lw_listener w))), (is_error (Listener.error_ (lw_listener w')));
      simpl in L2; try done; rewrite ?L2; try constructor. injection L2 as ->. constructor.
  - rewrite E1, E2, L2 by done. constructor.
Qed.

#[export] Instance lobject_laws : EnrolleeLaws (LObject Req).
Proof.
  split.
  - intros [l|b w] Hok Hn; [|simpl in Hn; by destruct (is_error _)]. destruct (init_world_ok true l Hok) as (w & Hrun & Hw).
    change (en_init true (LNew l)) with (w ← init_world true l; Done (LRunning false w, omap life (lw_trace w))). rewrite Hrun.
    rewrite bind_done. eexists. rewrite (li_life _ _ _ _ _ (lo_listen _ _ _ _ _ _ _ Hw)). split; [reflexivity|]. split; [done|].
    simpl. by rewrite (li_enrolled _ _ _ _ _ (lo_listen _ _ _ _ _ _ _ Hw)).
  - intros [l|b w] Hok Hn; [|simpl in Hn; by destruct (is_error _)]. destruct (init_world_ok false l Hok) as (w & Hrun & Hw).
    change (en_init false (LNew l)) with (w ← init_world false l; Done (LRunning true w, omap life (lw_trace w))). rewrite Hrun.
    rewrite bind_done. eexists _, _. rewrite (li_life _ _ _ _ _ (lo_listen _ _ _ _ _ _ _ Hw)). split; [reflexivity|]. split; [done|].
    simpl. destruct (is_error _); constructor.
  - intros [l|b w] Hok Hn; [done|]. destruct (event_phase b w EvClose Hok eq_refl) as (w' & bs & Hs & Hw' & Hp).
    exists (LRunning b w'), bs. split_and!; try done.
    assert (is_error (Listener.error_ (lw_listener w')) = true) as He; [|simpl; by rewrite He].
    change (lobject_event EvClose (LRunning b w)) with (w' ← lstep w EvClose; Done (LRunning b w', new_life w w')) in Hs.
    inv_bind Hs. injection Hs as -> _. rename w' into a.
    change (lw_after w (lw_out w) (lw_accepts w) (lw_withdrawn w) (lw_hellos w) (setError ListenerClosedError (lw_listener w)) = Done a) in Ha.
    destruct (listener_setError_ok _ _ _ _ _ _ _ ListenerClosedError Hok) as (l1 & evs1 & Hrun & _ & He1 & _ & _).
    rewrite Hrun in Ha. unfold lw_after in Ha. rewrite bind_done in Ha. injection Ha as <-. simpl. by rewrite He1, orb_true_r.
  - intros [l|b w] o' bs Hok Hn Ht; [done|]. destruct Ht as (ev & He & Hs).
    destruct (event_phase b w ev Hok He) as (w' & bs' & Hs' & Hw' & Hp). rewrite Hs in Hs'. by injection Hs' as -> ->.
Qed.

#[export] Instance lobject_prompt : PromptEnrollee (LObject Req).
Proof. intros [l|b w] _; simpl; [done | by destruct (is_error _)]. Qed.
End Instances.

(** ** A run *)

#[local] Instance demo_viable : Registrable Select.TransportContext := fun c => negb (bool_decide (tc_domainDescriptor c = "none")).
#[local] Instance demo_channel_viable : Registrable ChannelContext := fun _ => true.

Definition demo_world : Type := CWorld (T:=Select.TransportContext) (Ch:=ChannelContext) (OL:=LObject nat) (OP:=Phase).

Definition cnext (w : demo_world) (ev : cevent) : demo_world := match cstep w ev with Done w' => w' | Throw _ => w end.

Lemma cnext_reach (w : demo_world) ev : creach w -> cevent_ok w ev -> creach (cnext w ev).
Proof.
  intros Hw Hok. destruct (cstep_ok w ev (creach_ok w Hw) Hok) as (w' & Hs & _). unfold cnext. rewrite Hs. by eapply creach_step.
Qed.

Definition shm_context : Select.TransportContext := Select.mkTransportContext "host1" (fun d => bool_decide (d = "host1")).
Definition uv_context : Select.TransportContext := Select.mkTransportContext "*" (fun _ => true).
Definition ibv_context : Select.TransportContext := Select.mkTransportContext "none" (fun _ => true).

Definition demo_new_listener : ListenerImpl nat :=
  match newListener demo_transports demo_urls with Done l => l | Throw _ => mkListenerImpl kSuccess [] ∅ 0 0 newRearmable ∅ 0 ∅ 0 end.

Definition w1 : demo_world := mkCWorld newContextImpl [] [] [].
Definition w2 : demo_world := cnext w1 (CvRegisterTransport 50 "uv" uv_context).
Definition w3 : demo_world := cnext w2 (CvRegisterTransport 80 "ibv" ibv_context).
Definition w4 : demo_world := cnext w3 (CvRegisterTransport 100 "shm" shm_context).
Definition w5 : demo_world := cnext w4 (CvListen 1 (LNew demo_new_listener)).
Definition w6 : demo_world := cnext w5 (CvConnect 2 New).
Definition w7 : demo_world := cnext w6 (CvInitListener 1).
Definition w8 : demo_world := cnext w7 (CvInitPipe 2).
Definition w9 : demo_world := cnext w8 CvClose.
Definition w10 : demo_world := cnext w9 CvJoin.

Lemma demo_new_ok : new_listener demo_new_listener.
Proof. by apply (newListener_ok demo_transports demo_urls). Qed.

Lemma w4_reach : creach w4.
Proof. do 3 (apply cnext_reach; [|done]). apply creach_init. Qed.

Lemma w8_reach : creach w8.
Proof.
  apply cnext_reach; [apply cnext_reach; [apply cnext_reach; [apply cnext_reach; [exact w4_reach|]|]|]|].
  - split_and!; [done | exact demo_new_ok | done].
  - by split_and!.
  - exists (LNew demo_new_listener). by split.
  - exists New. by split.
Qed.

Lemma w10_reach : creach w10.
Proof. apply cnext_reach; [apply cnext_reach; [exact w8_reach | done] | by vm_compute]. Qed.


Lemma context_selects_best_witness :
  (getOrderedTransports (cw_context w4)).*1 = ["shm"; "uv"] /\
  exists p x, (p, ("uv", x)) ∈ cw_transports w4 /\ st_name (mkSelectedTransport "uv" "addr" "*") = "uv" /\
    forall p' n' x', (p', (n', x')) ∈ cw_transports w4 ->
      viable {["uv" := "*"; "shm" := "host2"]} {["uv" := "addr"; "shm" := "there"]} (n', x') -> p' <= p.
Proof.
  split; [by vm_compute|].
  destruct (context_selects_best w4 {["uv" := "*"; "shm" := "host2"]} {["uv" := "addr"; "shm" := "there"]} w4_reach) as (_ & _ & Hs).
  change (selectTransport _ _ _) with (Done (mkSelectedTransport "uv" "addr" "*")) in Hs.
  destruct Hs as (p & x & Hin & _ & _ & _ & Hbest). by exists p, x.
Defined.
