(* ===== verification/PipeBase.v ===== *)
(** * What the two sides of a pipe share

    The calls a pipe makes to the objects around it, the callbacks those calls
    register, and the part of the pipe's state that the transitions of its read
    and write operations look at. *)

From S2P Require Import Prelude Messages Select.

(** [PipeImpl::State]. *)
Inductive PipeState :=
| INITIALIZING
| CLIENT_ABOUT_TO_SEND_HELLO_AND_BROCHURE
| SERVER_WAITING_FOR_BROCHURE
| CLIENT_WAITING_FOR_BROCHURE_ANSWER
| SERVER_WAITING_FOR_CONNECTIONS
| ESTABLISHED.
#[export] Instance PipeState_eq_dec : EqDecision PipeState.
Proof. solve_decision. Defined.

(** The structures exchanged by the handshake ([core/nop_types.h]). *)
Record Brochure := mkBrochure {
  b_transportDomainDescriptors : gmap string string;
  b_channelDeviceDescriptors : gmap string (gmap Device string);
}.
Record BrochureAnswer := mkBrochureAnswer {
  ba_transport : string;
  ba_address : string;
  ba_transportRegistrationIds : gmap Z Z;
  ba_transportDomainDescriptor : string;
  ba_channelRegistrationIds : gmap string (list Z);
  ba_channelDeviceDescriptors : gmap string (gmap Device string);
  ba_channelForDevicePair : gmap (Device * Device) string;
}.

(** [PipeImpl::ConnectionId]. *)
Definition DESCRIPTOR : Z := 0.
Definition DESCRIPTOR_REPLY : Z := 1.

(** Transport connections are opaque handles. *)
Definition conn : Type := Z.

(** The calls of the handshake. *)
Inductive setup_call :=
| WriteSpontaneousConnection (c : conn) (contextName : string)
| WriteRequestedConnection (c : conn) (registrationId : Z)
| WriteBrochure (c : conn) (b : Brochure)
| ReadBrochure (c : conn)
| WriteBrochureAnswer (c : conn) (a : BrochureAnswer)
| ReadBrochureAnswer (c : conn)
| OpenConnection (c : conn) (transport address : string)
| RegisterTransport (token connId : Z)
| RegisterChannel (token : Z) (channelName : string) (connId : nat)
| Unregister (token : Z)
| CreateChannel (channelName : string) (connections : list conn)
| CloseConnection (c : conn)
| CloseChannel (channelName : string)
| Enroll
| Unenroll.

(** Every call out of a pipe.  [it] is the [Iter] captured by the callback. *)
Inductive pcall :=
| UserReadDescriptor (fn : nat) (e : Error) (d : Descriptor)
| UserRead (fn : nat) (e : Error)
| UserWrite (fn : nat) (e : Error)
| ConnReadDescriptor (c : conn) (it : Z)
| ConnReadPayload (c : conn) (ptr len : Z) (it : Z)
| ChanRecv (channelName : string) (buffer : TensorBuffer) (len : Z) (it : Z)
| ConnWriteReply (c : conn) (r : DescriptorReply)
| ConnWriteDescriptor (c : conn) (d : Descriptor)
| ConnWritePayload (c : conn) (ptr len : Z) (it : Z)
| ConnReadReply (c : conn) (it : Z)
| ChanSend (channelName : string) (buffer : TensorBuffer) (len : Z) (it : Z)
| Setup (s : setup_call).

(** The callbacks a pipe hands out (wrapped by [callbackWrapper_]).
    [CbNothing] does nothing but pass on the error. *)
Inductive cb :=
| CbNothing
| CbDescriptor (it : Z)
| CbPayloadRead (it : Z)
| CbTensorRecv (it : Z)
| CbPayloadWritten (it : Z)
| CbReply (it : Z)
| CbTensorSent (it : Z)
| CbBrochure
| CbBrochureAnswer
| CbConnection (token connId : Z)
| CbChannel (token : Z) (channelName : string) (connId : nat).
#[export] Instance cb_eq_dec : EqDecision cb.
Proof. solve_decision. Defined.

Definition cb_of_setup (s : setup_call) : option cb :=
  match s with
  | WriteSpontaneousConnection _ _ | WriteRequestedConnection _ _ | WriteBrochure _ _
  | WriteBrochureAnswer _ _ => Some CbNothing
  | ReadBrochure _ => Some CbBrochure
  | ReadBrochureAnswer _ => Some CbBrochureAnswer
  | RegisterTransport token connId => Some (CbConnection token connId)
  | RegisterChannel token name connId => Some (CbChannel token name connId)
  | _ => None
  end.

Definition cb_of (c : pcall) : option cb :=
  match c with
  | UserReadDescriptor _ _ _ | UserRead _ _ | UserWrite _ _ => None
  | ConnReadDescriptor _ it => Some (CbDescriptor it)
  | ConnReadPayload _ _ _ it => Some (CbPayloadRead it)
  | ChanRecv _ _ _ it => Some (CbTensorRecv it)
  | ConnWriteReply _ _ | ConnWriteDescriptor _ _ => Some CbNothing
  | ConnWritePayload _ _ _ it => Some (CbPayloadWritten it)
  | ConnReadReply _ it => Some (CbReply it)
  | ChanSend _ _ _ it => Some (CbTensorSent it)
  | Setup s => cb_of_setup s
  end.

Definition cbs_of (calls : list pcall) : list cb := omap cb_of calls.

(** The part of the pipe the operations read. *)
Record PipeCtx := mkPipeCtx {
  px_state : PipeState;
  px_error : Error;
  px_descriptorConnection : conn;
  px_descriptorReplyConnection : option conn;
  px_channelForDevicePair : gmap (Device * Device) string;
  px_channels : gset string;
}.

Definition no_channel : exn := ExAssertMsg "Could not find suitable channel".

(** The look-up of the channel for a tensor. *)
Definition find_channel (ctx : PipeCtx) (localDevice remoteDevice : Device) : outcome string :=
  match px_channelForDevicePair ctx !! (localDevice, remoteDevice) with
  | None => Throw no_channel
  | Some name => if decide (name ∈ px_channels ctx) then Done name else Throw ExOutOfRange
  end.

(** The connection used for descriptor replies. *)
Definition reply_connection (ctx : PipeCtx) : outcome conn :=
  match px_descriptorReplyConnection ctx with Some c => Done c | None => Throw ExDangling end.

(** Once established, a pipe has all its connections and channels. *)
Record ctx_ok (ctx : PipeCtx) : Prop := {
  cx_reply : px_state ctx = ESTABLISHED -> is_Some (px_descriptorReplyConnection ctx);
  cx_channels : px_state ctx = ESTABLISHED ->
    forall k name, px_channelForDevicePair ctx !! k = Some name -> name ∈ px_channels ctx;
}.

Lemma find_channel_ok ctx a b (P : string -> Prop) :
  ctx_ok ctx -> px_state ctx = ESTABLISHED ->
  (forall name, px_channelForDevicePair ctx !! (a, b) = Some name -> P name) ->
  wp (find_channel ctx a b) (fun e => e = no_channel) P.
Proof.
  intros Hc He HP. unfold find_channel.
  destruct (px_channelForDevicePair ctx !! (a, b)) as [name|] eqn:Hn; [|done].
  rewrite decide_True by (by apply (cx_channels _ Hc He (a, b))). by apply HP.
Qed.

(** ** Counting callbacks *)

Definition occ {A} `{EqDecision A} (x : A) (l : list A) : Z := Z.of_nat (length (filter (fun y => y = x) l)).

Section Occ.
Context {A : Type} `{!EqDecision A}.
Implicit Types (x y : A) (l : list A).

Lemma occ_app x l1 l2 : occ x (l1 ++ l2) = occ x l1 + occ x l2.
Proof. unfold occ. rewrite filter_app, length_app. lia. Qed.

Lemma occ_cons x y l : occ x (y :: l) = (if decide (y = x) then 1 else 0) + occ x l.
Proof. unfold occ. rewrite filter_cons. destruct (decide (y = x)); simpl length; lia. Qed.

Lemma occ_nil x : occ x [] = 0.
Proof. done. Qed.

Lemma occ_nonneg x l : 0 <= occ x l.
Proof. unfold occ. lia. Qed.

Lemma occ_delete x i y l :
  l !! i = Some y -> occ x (delete i l) = occ x l - (if decide (y = x) then 1 else 0).
Proof.
  intros Hi. rewrite <- (take_drop_middle _ _ _ Hi) at 2. rewrite delete_take_drop, !occ_app, occ_cons. lia.
Qed.

Lemma occ_elem x l : x ∈ l -> 0 < occ x l.
Proof.
  intros Hx. unfold occ. assert (x ∈ filter (fun y => y = x) l) as Hf by (by apply list_elem_of_filter).
  destruct (filter _ l); [by apply not_elem_of_nil in Hf | simpl; lia].
Qed.
End Occ.

Lemma cbs_of_app l1 l2 : cbs_of (l1 ++ l2) = cbs_of l1 ++ cbs_of l2.
Proof. apply omap_app. Qed.
