(* ===== verification/OpsInvariants.v ===== *)
(** * Invariants common to queues of operations

    Two shapes of invariant that every user of the state machine has: a counter
    that separates the operations that have reached a state from those that
    have not ([thresh]), and a number of outstanding callbacks that each
    operation accounts for ([tally]). *)

From S2P Require Import Prelude OpsStateMachine.

Section Thresh.
Context {Subj Op : Type} `{Operation Op} `{OpsMachine Subj Op} `{!OpsMachineLaws Subj Op}.
Implicit Types (l : list Op) (o : Op).

(** The operations numbered below [n] are those in state [k] or later. *)
Definition thresh (k : nat) (n first : Z) (l : list Op) : Prop :=
  first <= n <= first + Z.of_nat (length l) /\
  forall i o, l !! i = Some o -> op_seq o < n <-> (k <= op_state o)%nat.

Lemma thresh_here k n first l i o :
  thresh k n first l -> numbered first l -> (k <= FINISHED)%nat -> l !! i = Some o ->
  (op_state o < k)%nat -> (k <= prev_state i l)%nat -> op_seq o = n.
Proof.
  intros (Hb & Ht) Hn Hk Ho Hlt Hp. pose proof Hn as (_ & _ & Hs). pose proof (Hs _ _ Ho) as Hseq.
  assert (n <= op_seq o) as Hge.
  { apply Z.nlt_ge. intros Hx. apply (Ht _ _ Ho) in Hx. lia. }
  destruct i as [|i]; [lia|]. simpl in Hp.
  destruct (lookup_lt_is_Some_2 l i) as [p Hi]; [apply lookup_lt_Some in Ho; lia|].
  rewrite Hi in Hp. apply (Ht _ _ Hi) in Hp. rewrite (Hs _ _ Hi) in Hp. lia.
Qed.

Lemma thresh_stay k n first l i o o' :
  thresh k n first l -> l !! i = Some o -> op_seq o' = op_seq o ->
  ((k <= op_state o)%nat <-> (k <= op_state o')%nat) -> thresh k n first (<[i := o']> l).
Proof.
  intros (Hb & Ht) Ho Hs Hk. split; [by rewrite length_insert|]. intros j q Hq.
  apply list_lookup_insert_Some in Hq as [(-> & <- & _)|[_ Hq]]; [|by apply (Ht j)].
  by rewrite Hs, <- Hk, (Ht _ _ Ho).
Qed.

Lemma thresh_up k n first l i o o' :
  thresh k n first l -> numbered first l -> l !! i = Some o -> op_seq o' = op_seq o -> op_seq o = n ->
  (k <= op_state o')%nat -> thresh k (n + 1) first (<[i := o']> l).
Proof.
  intros (Hb & Ht) Hn Ho Hs He Hk. pose proof (lookup_lt_Some _ _ _ Ho).
  pose proof Hn as (_ & _ & Hseq). pose proof (Hseq _ _ Ho).
  split; [rewrite length_insert; lia|]. intros j q Hq.
  apply list_lookup_insert_Some in Hq as [(-> & <- & _)|[Hne Hq]]; [split; [done | lia]|].
  rewrite <- (Ht _ _ Hq). rewrite (Hseq _ _ Hq). split; [|lia].
  assert (first + Z.of_nat j <> n) by lia. lia.
Qed.

Lemma thresh_pop k n first o l :
  thresh k n first (o :: l) -> op_seq o = first -> (k <= op_state o)%nat -> thresh k n (first + 1) l.
Proof.
  intros (Hb & Ht) Hs Hk. simpl in Hb. apply (Ht 0%nat o eq_refl) in Hk. split; [lia|].
  intros j q Hq. by apply (Ht (S j)).
Qed.

Lemma thresh_snoc k n first l o :
  thresh k n first l -> op_seq o = first + Z.of_nat (length l) -> (op_state o < k)%nat ->
  thresh k n first (l ++ [o]).
Proof.
  intros (Hb & Ht) Hs Hk. split; [rewrite length_app; simpl; lia|]. intros j q Hq.
  apply lookup_app_Some in Hq as [Hq|[_ Hq]]; [by apply (Ht j)|].
  apply list_lookup_singleton_Some in Hq as [_ <-]. lia.
Qed.

Lemma thresh_all k n first l :
  thresh k n first l -> numbered first l -> Forall (fun o => (k <= op_state o)%nat) l ->
  n = first + Z.of_nat (length l).
Proof.
  intros (Hb & Ht) (_ & _ & Hs) Hall. destruct (decide (n = first + Z.of_nat (length l))) as [|Hne]; [done|].
  destruct (lookup_lt_is_Some_2 l (Z.to_nat (n - first))) as [o Ho]; [lia|].
  pose proof (proj1 (Forall_lookup _ _) Hall _ _ Ho) as Hk. apply (Ht _ _ Ho) in Hk.
  rewrite (Hs _ _ Ho) in Hk. lia.
Qed.

(** Every operation satisfies [P] together with its predecessor's state. *)
Definition each (P : Op -> nat -> Prop) (l : list Op) : Prop :=
  forall i o, l !! i = Some o -> P o (prev_state i l).

Lemma each_insert P l i o o' :
  (forall q p p', P q p -> (p <= p')%nat -> P q p') ->
  each P l -> l !! i = Some o -> (op_state o <= op_state o')%nat -> P o' (prev_state i l) ->
  each P (<[i := o']> l).
Proof.
  intros Hmono HP Ho Hle Ho' j q Hq.
  apply list_lookup_insert_Some in Hq as [(-> & <- & _)|[Hne Hq]]; [by rewrite prev_state_insert|].
  apply (Hmono q (prev_state j l)); [by apply HP|]. destruct j as [|j]; [done|]. simpl.
  destruct (decide (i = j)) as [->|Hj].
  - rewrite list_lookup_insert_eq, Ho by (by eapply lookup_lt_Some). done.
  - by rewrite list_lookup_insert_ne.
Qed.

Lemma each_pop P o l : each P (o :: l) -> op_state o = FINISHED -> each P l.
Proof.
  intros HP Hf j q Hq. specialize (HP (S j) q Hq). destruct j as [|j]; [|done].
  simpl in *. by rewrite Hf in HP.
Qed.

Lemma prev_state_snoc l o i : (i <= length l)%nat -> prev_state i (l ++ [o]) = prev_state i l.
Proof. destruct i as [|i]; intros; simpl; [done|]. by rewrite lookup_app_l by lia. Qed.

Lemma each_snoc P l o : each P l -> P o (prev_state (length l) l) -> each P (l ++ [o]).
Proof.
  intros HP Ho j q Hq. apply lookup_app_Some in Hq as [Hq|[Hle Hq]].
  - rewrite prev_state_snoc; [by apply HP|]. apply lookup_lt_Some in Hq. lia.
  - apply list_lookup_singleton_Some in Hq as [Hj <-]. assert (j = length l) as -> by lia.
    by rewrite prev_state_snoc.
Qed.
End Thresh.

Section Tally.
Context {Subj Op : Type} `{Operation Op} `{OpsMachine Subj Op} `{!OpsMachineLaws Subj Op}.
Implicit Types (l : list Op) (o : Op) (f : Op -> Z).

(** What the operation numbered [it] accounts for. *)
Definition tally f (it : Z) (l : list Op) : Z :=
  foldr (fun o n => (if decide (op_seq o = it) then f o else 0) + n) 0 l.

Lemma tally_app f it l1 l2 : tally f it (l1 ++ l2) = tally f it l1 + tally f it l2.
Proof. induction l1 as [|o l1 IH]; simpl; [lia|]. rewrite IH. lia. Qed.

Lemma tally_cons0 f it o l : f o = 0 -> tally f it (o :: l) = tally f it l.
Proof. intros Hf. unfold tally. cbn [foldr]. rewrite Hf. by destruct (decide (op_seq o = it)). Qed.

Lemma tally_snoc0 f it o l : f o = 0 -> tally f it (l ++ [o]) = tally f it l.
Proof. intros Hf. rewrite tally_app, tally_cons0 by done. simpl. lia. Qed.

Lemma tally_insert f it l i o o' :
  l !! i = Some o -> op_seq o' = op_seq o ->
  tally f it (<[i := o']> l) = tally f it l + (if decide (op_seq o = it) then f o' - f o else 0).
Proof.
  intros Ho Hs. rewrite <- (take_drop_middle _ _ _ Ho) at 2.
  rewrite insert_take_drop by (by eapply lookup_lt_Some).
  rewrite !tally_app. simpl. rewrite Hs. destruct (decide _); lia.
Qed.

Lemma tally_zero f first it l :
  numbered first l -> it < first \/ first + Z.of_nat (length l) <= it -> tally f it l = 0.
Proof.
  revert first. induction l as [|o l IH]; intros first Hn Hit; [done|]. simpl.
  rewrite (IH (first + 1)); [|by eapply numbered_tail | simpl in Hit; lia].
  destruct Hn as (_ & _ & Hs). pose proof (Hs 0%nat o eq_refl) as Ho.
  simpl in Hit. rewrite decide_False by lia. done.
Qed.

Lemma tally_at f first l i o :
  numbered first l -> l !! i = Some o -> tally f (op_seq o) l = f o.
Proof.
  revert first i. induction l as [|q l IH]; intros first i Hn Ho; [done|].
  pose proof (numbered_tail _ _ _ Hn) as Hn'. pose proof Hn as (_ & _ & Hs).
  pose proof (Hs _ _ Ho) as Hseq. pose proof (Hs 0%nat q eq_refl) as Hq. simpl.
  destruct i as [|i]; simpl in Ho.
  - injection Ho as ->. rewrite decide_True by done. rewrite (tally_zero f (first + 1)); [lia | done | lia].
  - rewrite (IH _ _ Hn' Ho), decide_False by lia. lia.
Qed.

Lemma tally_pos f first it l :
  numbered first l -> 0 < tally f it l -> exists i o, l !! i = Some o /\ op_seq o = it /\ f o = tally f it l.
Proof.
  intros Hn Hp. assert (first <= it < first + Z.of_nat (length l)) as Hb.
  { destruct (decide (first <= it < first + Z.of_nat (length l))); [done|].
    rewrite (tally_zero f first) in Hp; [lia | done | lia]. }
  destruct (lookup_lt_is_Some_2 l (Z.to_nat (it - first))) as [o Ho]; [lia|].
  exists (Z.to_nat (it - first)), o. pose proof Hn as (_ & _ & Hs). pose proof (Hs _ _ Ho).
  split_and!; [done | lia|]. replace it with (op_seq o) by lia. by rewrite (tally_at f first l _ _ Hn Ho).
Qed.
End Tally.

Section Stability.
Context {Subj Op Ev : Type} `{Operation Op} `{OpsMachine Subj Op} `{!OpsMachineLaws Subj Op}.
Implicit Types (l : list Op) (o : Op) (tbl : list (@transition Subj Op Ev)).

(** Changing the fields of one operation, but not its state, can only make
    that operation advance. *)
Lemma stable_modify tbl l i o o' :
  stable_on tbl (fun _ => True) l -> l !! i = Some o -> op_seq o' = op_seq o -> op_state o' = op_state o ->
  stable_on tbl (fun k => k <> op_seq o) (<[i := o']> l).
Proof.
  intros Hst Ho Hs He j q Hq Hne.
  apply list_lookup_insert_Some in Hq as [(-> & <- & _)|[Hij Hq]]; [by rewrite Hs in Hne|].
  assert (prev_state j (<[i := o']> l) = prev_state j l) as ->; [|by apply Hst].
  destruct j as [|j]; [done|]. simpl. destruct (decide (i = j)) as [->|Hij'].
  - rewrite list_lookup_insert_eq, Ho by (by eapply lookup_lt_Some). done.
  - by rewrite list_lookup_insert_ne.
Qed.

Lemma row_disabled tbl o p k t :
  op_stable tbl o p -> tbl !! k = Some t -> op_state o = t_from t -> t_cond t o p = false.
Proof.
  intros Hst Hk Ho. pose proof (proj1 (Forall_lookup _ _) Hst k t Hk) as Hx. simpl in Hx.
  by rewrite Ho, Nat.eqb_refl in Hx.
Qed.

Lemma stable_snoc tbl l o :
  stable_on tbl (fun _ => True) l -> stable_on tbl (fun k => k <> op_seq o) (l ++ [o]).
Proof.
  intros Hst j q Hq Hne. apply lookup_app_Some in Hq as [Hq|[_ Hq]].
  - rewrite prev_state_snoc; [by apply Hst|]. apply lookup_lt_Some in Hq. lia.
  - by apply list_lookup_singleton_Some in Hq as [_ <-].
Qed.
End Stability.

(** Checks [table_ok] of a concrete table. *)
Ltac solve_table :=
  cbn [table_ok t_from t_to t_cond];
  repeat match goal with
  | |- _ /\ _ => split
  | |- True => exact I
  | |- Forall _ [] => constructor
  | |- Forall _ (_ :: _) => constructor
  | |- (_ < _)%nat => apply Nat.ltb_lt; reflexivity
  | |- (_ <= _)%nat => apply Nat.leb_le; reflexivity
  | |- _ <> _ => vm_compute; discriminate
  | |- _ = _ -> _ => let Hf := fresh in intros Hf ? ? ?;
      first [ exfalso; vm_compute in Hf; discriminate Hf
            | bool_hyps; apply Nat.leb_le; assumption ]
  end.
