(* ===== verification/PipeRead.v ===== *)
(** * The read side of a pipe

    The read operations of [core/pipe_impl.cc]: their transitions, the actions
    those perform, and the entry points and callbacks that drive them. *)

From S2P Require Import Prelude Messages Select PipeBase OpsStateMachine.
Import ReadOperation.

Inductive ConnectionState := AWAITING_DESCRIPTOR | AWAITING_PAYLOADS.
#[export] Instance ConnectionState_eq_dec : EqDecision ConnectionState.
Proof. solve_decision. Defined.

Record ReadSide := mkReadSide {
  readOps_ : list ReadOperation;
  nextMessageBeingRead_ : Z;
  nextReadDescriptorCallbackToCall_ : Z;
  nextReadCallbackToCall_ : Z;
  connectionState_ : ConnectionState;
  messageBeingReadFromConnection_ : Z;
  nextMessageGettingAllocation_ : option Z;
}.
#[export] Instance eta_ReadSide : Eta ReadSide := fun s =>
  mkReadSide (readOps_ s) (nextMessageBeingRead_ s) (nextReadDescriptorCallbackToCall_ s)
    (nextReadCallbackToCall_ s) (connectionState_ s) (messageBeingReadFromConnection_ s)
    (nextMessageGettingAllocation_ s).

Definition newReadSide : ReadSide := mkReadSide [] 0 0 0 AWAITING_DESCRIPTOR 0 None.

#[export] Instance read_operation : Operation ReadOperation := {
  op_seq := ro_sequenceNumber;
  op_state := ro_state;
  op_put_state n o := o <| ro_state := n |>;
  FINISHED := ReadOperation.FINISHED;
}.
#[export] Instance read_machine : OpsMachine ReadSide ReadOperation := {
  get_ops := readOps_;
  put_ops l s := s <| readOps_ := l |>;
}.
#[export] Instance read_machine_laws : OpsMachineLaws ReadSide ReadOperation.
Proof. split; try done. by intros []. Qed.

(** ** The actions *)

Section Actions.
Variable ctx : PipeCtx.

Definition read_action : Type := Z -> ReadSide -> outcome (ReadSide * list pcall).

Definition readDescriptorOfMessage : read_action := fun it s =>
  op ← deref it s;
  _ ← tp_check (bool_decide (connectionState_ s = AWAITING_DESCRIPTOR));
  _ ← tp_check (messageBeingReadFromConnection_ s =? ro_sequenceNumber op);
  Done (s <| connectionState_ := AWAITING_PAYLOADS |>,
        [ConnReadDescriptor (px_descriptorConnection ctx) it]).

(** A [std::function] that was reset to null must not be called. *)
Definition get_callback (o : option callback) : outcome callback :=
  match o with Some f => Done f | None => Throw ExDangling end.

Definition callReadDescriptorCallback : read_action := fun it s =>
  op ← deref it s;
  f ← get_callback (ro_readDescriptorCallback op);
  _ ← tp_check (cb_seq f =? nextReadDescriptorCallbackToCall_ s);
  s' ← update_op it (fun op => op <| ro_readDescriptorCallback := None |>)
         (s <| nextReadDescriptorCallbackToCall_ ::= fun n => u64 (n + 1) |>);
  Done (s', [UserReadDescriptor (cb_fn f) (px_error ctx) (ro_descriptor op)]).

Definition expectReadCall : read_action := fun it s =>
  _ ← deref it s;
  _ ← tp_check (bool_decide (nextMessageGettingAllocation_ s = None));
  Done (s <| nextMessageGettingAllocation_ := Some it |>, []).

(** The loop over the payloads: [read] on the descriptor connection. *)
Fixpoint read_payloads (it : Z) (ptrs : list Z) (descs : list DescPayload) : outcome (list pcall) :=
  match ptrs, descs with
  | [], _ => Done []
  | _ :: _, [] => Throw ExDangling
  | ptr :: ptrs, d :: descs =>
      r ← read_payloads it ptrs descs;
      Done (ConnReadPayload (px_descriptorConnection ctx) ptr (dp_length d) it :: r)
  end.

Definition readPayloadsOfMessage : read_action := fun it s =>
  op ← deref it s;
  _ ← tp_check (bool_decide (connectionState_ s = AWAITING_PAYLOADS));
  _ ← tp_check (messageBeingReadFromConnection_ s =? ro_sequenceNumber op);
  calls ← read_payloads it (a_payloads (ro_allocation op)) (d_payloads (ro_descriptor op));
  s' ← update_op it (fun op => op <| ro_numPayloadsBeingRead ::= fun n => u64 (n + Z.of_nat (length calls)) |>) s;
  Done (s' <| connectionState_ := AWAITING_DESCRIPTOR |>
           <| messageBeingReadFromConnection_ ::= fun n => u64 (n + 1) |>, calls).

Fixpoint recv_tensors (it : Z) (tensors : list TensorBuffer) (descs : list DescTensor)
    : outcome (list pcall) :=
  match descs, tensors with
  | [], _ => Done []
  | _ :: _, [] => Throw ExDangling
  | d :: descs, t :: tensors =>
      name ← find_channel ctx (tb_device t) (dt_sourceDevice d);
      r ← recv_tensors it tensors descs;
      Done (ChanRecv name t (dt_length d) it :: r)
  end.

Definition receiveTensorsOfMessage : read_action := fun it s =>
  op ← deref it s;
  _ ← tp_check (length (d_tensors (ro_descriptor op)) =? length (a_tensors (ro_allocation op)))%nat;
  calls ← recv_tensors it (a_tensors (ro_allocation op)) (d_tensors (ro_descriptor op));
  s' ← update_op it (fun op => op <| ro_numTensorsBeingReceived ::= fun n => u64 (n + Z.of_nat (length calls)) |>) s;
  Done (s', calls).

Definition writeDescriptorReplyOfMessage : read_action := fun it s =>
  op ← deref it s;
  _ ← tp_check (ro_hasMissingTargetDevices op);
  reply ← makeDescriptorReplyForMessage op;
  c ← reply_connection ctx;
  Done (s, [ConnWriteReply c reply]).

Definition callReadCallback : read_action := fun it s =>
  op ← deref it s;
  f ← get_callback (ro_readCallback op);
  _ ← tp_check (cb_seq f =? nextReadCallbackToCall_ s);
  s' ← update_op it (fun op => op <| ro_readCallback := None |>)
         (s <| nextReadCallbackToCall_ ::= fun n => u64 (n + 1) |>);
  Done (s', [UserRead (cb_fn f) (px_error ctx)]).

(** ** [advanceReadOperation] *)

Definition error : bool := is_error (px_error ctx).
Definition established : bool := bool_decide (px_state ctx = ESTABLISHED).

Definition advanceReadOperation : list (@transition ReadSide ReadOperation pcall) := [
    mkTransition UNINITIALIZED ASKING_FOR_ALLOCATION
      (fun op prev => error && (ASKING_FOR_ALLOCATION <=? prev)%nat)
      [callReadDescriptorCallback];
    mkTransition UNINITIALIZED READING_DESCRIPTOR
      (fun op prev => negb error && established && (READING_PAYLOADS_AND_RECEIVING_TENSORS <=? prev)%nat)
      [readDescriptorOfMessage];
    mkTransition READING_DESCRIPTOR ASKING_FOR_ALLOCATION
      (fun op prev => ro_doneReadingDescriptor op && (ASKING_FOR_ALLOCATION <=? prev)%nat)
      [callReadDescriptorCallback];
    mkTransition ASKING_FOR_ALLOCATION ASKING_FOR_ALLOCATION_FIRST_IN_LINE
      (fun op prev => ro_doneReadingDescriptor op && (READING_PAYLOADS_AND_RECEIVING_TENSORS <=? prev)%nat)
      [expectReadCall];
    mkTransition ASKING_FOR_ALLOCATION_FIRST_IN_LINE ReadOperation.FINISHED
      (fun op prev => error && ro_doneGettingAllocation op && (ReadOperation.FINISHED <=? prev)%nat)
      [callReadCallback];
    mkTransition ASKING_FOR_ALLOCATION_FIRST_IN_LINE READING_PAYLOADS_AND_RECEIVING_TENSORS
      (fun op prev => negb error && ro_doneGettingAllocation op && negb (ro_hasMissingTargetDevices op))
      [readPayloadsOfMessage; receiveTensorsOfMessage];
    mkTransition ASKING_FOR_ALLOCATION_FIRST_IN_LINE READING_PAYLOADS_AND_RECEIVING_TENSORS
      (fun op prev => negb error && ro_doneGettingAllocation op && ro_hasMissingTargetDevices op)
      [readPayloadsOfMessage; writeDescriptorReplyOfMessage; receiveTensorsOfMessage];
    mkTransition READING_PAYLOADS_AND_RECEIVING_TENSORS ReadOperation.FINISHED
      (fun op prev => (ro_numPayloadsBeingRead op =? 0) && (ro_numTensorsBeingReceived op =? 0) &&
                      (ReadOperation.FINISHED <=? prev)%nat)
      [callReadCallback]
  ].

(** ** Entry points and callbacks *)

Definition readDescriptorFromLoop (fn : nat) (s : ReadSide) : outcome (ReadSide * list pcall) :=
  let seq := nextMessageBeingRead_ s in
  let s := emplaceBack (newReadOperation seq) (s <| nextMessageBeingRead_ := u64 (seq + 1) |>) in
  s ← update_op seq (fun op => op <| ro_readDescriptorCallback := Some (mkCallback seq fn) |>) s;
  advanceOperation advanceReadOperation seq s.

Definition readFromLoop (allocation : Allocation) (fn : nat) (s : ReadSide)
    : outcome (ReadSide * list pcall) :=
  match nextMessageGettingAllocation_ s with
  | None => Throw ExAssert
  | Some it =>
      op ← deref it s;
      _ ← checkAllocationCompatibility (ro_descriptor op) allocation;
      s ← update_op it (fun op =>
            op <| ro_allocation := allocation |>
               <| ro_readCallback := Some (mkCallback (ro_sequenceNumber op) fn) |>
               <| ro_doneGettingAllocation := true |>)
            (s <| nextMessageGettingAllocation_ := None |>);
      advanceOperation advanceReadOperation it s
  end.

(** The callbacks, after [setError] was called with their error. *)
Definition onDescriptorRead (it : Z) (nopDescriptor : Descriptor) (s : ReadSide)
    : outcome (ReadSide * list pcall) :=
  s ← update_op it (fun op =>
        let op := op <| ro_doneReadingDescriptor := true |> in
        if error then op
        else op <| ro_descriptor := nopDescriptor |>
                <| ro_hasMissingTargetDevices ::= fun b =>
                     b || missing_target dt_targetDevice (d_tensors nopDescriptor) |>) s;
  advanceOperation advanceReadOperation it s.

Definition onPayloadRead (it : Z) (s : ReadSide) : outcome (ReadSide * list pcall) :=
  s ← update_op it (fun op => op <| ro_numPayloadsBeingRead ::= fun n => u64 (n - 1) |>) s;
  advanceOperation advanceReadOperation it s.

Definition onTensorReceived (it : Z) (s : ReadSide) : outcome (ReadSide * list pcall) :=
  s ← update_op it (fun op => op <| ro_numTensorsBeingReceived ::= fun n => u64 (n - 1) |>) s;
  advanceOperation advanceReadOperation it s.

Definition advanceAllReads (s : ReadSide) : outcome (ReadSide * list pcall) :=
  advanceAllOperations advanceReadOperation s.
End Actions.
