(* ===== verification/PipeReadInv.v ===== *)
(** * The invariant of the read side

    [rinv] relates the read operations to the callbacks that are outstanding
    and to everything the pipe has called so far.  Every row of
    [advanceReadOperation] keeps it; the user's [n]-th call of [readDescriptor]
    (and of [read]) passes the callback number [n]. *)

From S2P Require Import Prelude Messages Select PipeBase OpsStateMachine OpsInvariants PipeRead.

(** ** Projections of the history *)

(** What travels on the descriptor connection. *)
Inductive item := ItemDescriptor | ItemPayload (len : Z).

Definition frame (d : Descriptor) : list item :=
  ItemDescriptor :: ((fun p => ItemPayload (dp_length p)) <$> d_payloads d).

Definition read_item (c : pcall) : option item :=
  match c with
  | ConnReadDescriptor _ _ => Some ItemDescriptor
  | ConnReadPayload _ _ len _ => Some (ItemPayload len)
  | _ => None
  end.
Definition recv_item (c : pcall) : option Z :=
  match c with ChanRecv _ _ len _ => Some len | _ => None end.
Definition rd_call (c : pcall) : option (nat * Error * Descriptor) :=
  match c with UserReadDescriptor fn e d => Some (fn, e, d) | _ => None end.
Definition r_call (c : pcall) : option nat :=
  match c with UserRead fn _ => Some fn | _ => None end.

Definition read_items (h : list pcall) : list item := omap read_item h.
Definition recv_items (h : list pcall) : list Z := omap recv_item h.
Definition rd_calls (h : list pcall) : list (nat * Error * Descriptor) := omap rd_call h.
Definition r_calls (h : list pcall) : list nat := omap r_call h.
Definition descs (h : list pcall) : list Descriptor := snd <$> rd_calls h.

(** ** One operation *)

Record rop_ok (ctx : PipeCtx) (o : ReadOperation) (prev : nat) : Prop := {
  rk_issued : ro_state o = 1%nat \/ ro_doneReadingDescriptor o = true \/ (3 <= ro_state o)%nat ->
    (4 <= prev)%nat /\ px_state ctx = ESTABLISHED;
  rk_prev : (ro_state o <= prev)%nat;
  rk_done : ro_doneReadingDescriptor o = true -> (1 <= ro_state o)%nat;
  rk_undone : (3 <= ro_state o)%nat -> ro_doneReadingDescriptor o = true;
  rk_get : ro_doneGettingAllocation o = true -> (3 <= ro_state o)%nat;
  rk_got : (4 <= ro_state o)%nat -> ro_doneGettingAllocation o = true;
  rk_dcb : (ro_state o < 2)%nat ->
    ro_readDescriptorCallback o = Some (mkCallback (ro_sequenceNumber o) (Z.to_nat (ro_sequenceNumber o)));
  rk_rcb : ro_doneGettingAllocation o = true -> (ro_state o < 5)%nat ->
    ro_readCallback o = Some (mkCallback (ro_sequenceNumber o) (Z.to_nat (ro_sequenceNumber o)));
  rk_compat : ro_doneGettingAllocation o = true ->
    checkAllocationCompatibility (ro_descriptor o) (ro_allocation o) = Done tt;
  rk_missing : ro_hasMissingTargetDevices o = missing_target dt_targetDevice (d_tensors (ro_descriptor o));
  rk_size : Z.of_nat (length (d_payloads (ro_descriptor o))) < 2 ^ 64 /\
            Z.of_nat (length (d_tensors (ro_descriptor o))) < 2 ^ 64;
  rk_num : is_u64 (ro_numPayloadsBeingRead o) /\ is_u64 (ro_numTensorsBeingReceived o);
  rk_idle : ro_state o <> 4%nat -> ro_numPayloadsBeingRead o = 0 /\ ro_numTensorsBeingReceived o = 0;
  rk_clean : is_error (px_error ctx) = false -> (2 <= ro_state o)%nat -> ro_doneReadingDescriptor o = true;
  rk_empty : ro_doneReadingDescriptor o = false -> ro_descriptor o = emptyDescriptor;
}.

Lemma rop_ok_mono ctx o p p' : rop_ok ctx o p -> (p <= p')%nat -> rop_ok ctx o p'.
Proof.
  intros [] Hle. split; try done; [|lia]. intros Hi. destruct (rk_issued0 Hi). split; [lia | done].
Qed.

(** The callback of the descriptor read is outstanding. *)
Definition desc_pending (o : ReadOperation) : Z :=
  if (ro_state o =? 1)%nat && negb (ro_doneReadingDescriptor o) then 1 else 0.

(** A [read] call is expected for the operation. *)
Definition waiting (o : ReadOperation) : Prop :=
  ro_state o = 3%nat /\ ro_doneGettingAllocation o = false.

(** ** The whole side *)

Record rinv (ctx : PipeCtx) (pend : list cb) (hist : list pcall) (reads : Z) (first : Z) (s : ReadSide) : Prop := {
  ri_num : numbered first (readOps_ s);
  ri_next : nextMessageBeingRead_ s = first + Z.of_nat (length (readOps_ s));
  ri_ops : each (rop_ok ctx) (readOps_ s);
  ri_D : thresh 2 (nextReadDescriptorCallbackToCall_ s) first (readOps_ s);
  ri_R : thresh 5 (nextReadCallbackToCall_ s) first (readOps_ s);
  ri_M : is_error (px_error ctx) = false ->
    thresh 4 (messageBeingReadFromConnection_ s) first (readOps_ s) /\
    (forall i o, readOps_ s !! i = Some o -> ro_sequenceNumber o = messageBeingReadFromConnection_ s ->
       connectionState_ s = AWAITING_PAYLOADS <-> (1 <= ro_state o)%nat) /\
    (connectionState_ s = AWAITING_PAYLOADS ->
       messageBeingReadFromConnection_ s < first + Z.of_nat (length (readOps_ s)));
  ri_Mle : 0 <= messageBeingReadFromConnection_ s <= nextReadDescriptorCallbackToCall_ s;
  ri_G : first <= reads <= first + Z.of_nat (length (readOps_ s)) /\
    forall i o, readOps_ s !! i = Some o ->
      ro_sequenceNumber o < reads <-> ro_doneGettingAllocation o = true;
  ri_A : forall it, nextMessageGettingAllocation_ s = Some it <->
    exists i o, readOps_ s !! i = Some o /\ ro_sequenceNumber o = it /\ waiting o;
  ri_pd : forall it, occ (CbDescriptor it) pend = tally desc_pending it (readOps_ s);
  ri_pp : forall it, occ (CbPayloadRead it) pend = tally ro_numPayloadsBeingRead it (readOps_ s);
  ri_pt : forall it, occ (CbTensorRecv it) pend = tally ro_numTensorsBeingReceived it (readOps_ s);
  ri_h1 : (fun c => c.1.1) <$> rd_calls hist = seq 0 (Z.to_nat (nextReadDescriptorCallbackToCall_ s));
  ri_h2 : r_calls hist = seq 0 (Z.to_nat (nextReadCallbackToCall_ s));
  ri_h3 : forall i o, readOps_ s !! i = Some o -> (2 <= ro_state o)%nat ->
    exists e, rd_calls hist !! Z.to_nat (ro_sequenceNumber o) =
                Some (Z.to_nat (ro_sequenceNumber o), e, ro_descriptor o) /\
              (is_error e = false -> ro_doneReadingDescriptor o = true);
  ri_h4 : read_items hist =
    mjoin (frame <$> take (Z.to_nat (messageBeingReadFromConnection_ s)) (descs hist)) ++
    (if decide (connectionState_ s = AWAITING_PAYLOADS) then [ItemDescriptor] else []);
  ri_h5 : recv_items hist =
    mjoin ((fun d => dt_length <$> d_tensors d) <$>
             take (Z.to_nat (messageBeingReadFromConnection_ s)) (descs hist));
}.

Lemma rd_calls_app h h' : rd_calls (h ++ h') = rd_calls h ++ rd_calls h'.
Proof. apply omap_app. Qed.
Lemma r_calls_app h h' : r_calls (h ++ h') = r_calls h ++ r_calls h'.
Proof. apply omap_app. Qed.
Lemma read_items_app h h' : read_items (h ++ h') = read_items h ++ read_items h'.
Proof. apply omap_app. Qed.
Lemma recv_items_app h h' : recv_items (h ++ h') = recv_items h ++ recv_items h'.
Proof. apply omap_app. Qed.
Lemma descs_app h h' : descs (h ++ h') = descs h ++ descs h'.
Proof. unfold descs. by rewrite rd_calls_app, fmap_app. Qed.

Lemma rinv_bounds ctx pend hist reads first s :
  rinv ctx pend hist reads first s ->
  0 <= first /\ nextMessageBeingRead_ s < 2 ^ 63 /\
  first <= nextReadDescriptorCallbackToCall_ s <= nextMessageBeingRead_ s /\
  first <= nextReadCallbackToCall_ s <= nextMessageBeingRead_ s.
Proof.
  intros [(? & ? & _) ? _ [? _] [? _]]. lia.
Qed.

Lemma descs_length ctx pend hist reads first s :
  rinv ctx pend hist reads first s ->
  length (descs hist) = Z.to_nat (nextReadDescriptorCallbackToCall_ s).
Proof.
  intros Hi. unfold descs. rewrite length_fmap.
  rewrite <- (length_fmap (fun c : nat * Error * Descriptor => c.1.1)), (ri_h1 _ _ _ _ _ _ Hi). apply length_seq.
Qed.

(** Making calls that the read side does not see. *)
Definition unseen (c : pcall) : Prop :=
  rd_call c = None /\ r_call c = None /\ read_item c = None /\ recv_item c = None /\
  (forall it, cb_of c <> Some (CbDescriptor it) /\ cb_of c <> Some (CbPayloadRead it) /\
              cb_of c <> Some (CbTensorRecv it)).
