(* ===== verification/PipeReadRows.v ===== *)
(** * Every read transition keeps the invariant *)

From S2P Require Import Prelude Messages Select PipeBase OpsStateMachine OpsInvariants PipeRead PipeReadInv.

(** Proves [rinv] field by field, with the projections computed. *)
Ltac rinv_fields :=
  split; cbn [readOps_ nextMessageBeingRead_ nextReadDescriptorCallbackToCall_ nextReadCallbackToCall_
      connectionState_ messageBeingReadFromConnection_ nextMessageGettingAllocation_ field_update];
  rewrite ?cbs_of_app, ?rd_calls_app, ?r_calls_app, ?read_items_app, ?recv_items_app, ?descs_app;
  cbn [cbs_of omap list_omap cb_of rd_calls r_calls read_items recv_items read_item recv_item rd_call
       r_call descs fmap list_fmap snd];
  rewrite ?app_nil_r.

(** ** The calls made for the payloads and tensors of a message *)

Record payload_calls (it : Z) (ds : list DescPayload) (calls : list pcall) : Prop := {
  pc_len : length calls = length ds;
  pc_items : read_items calls = (fun p => ItemPayload (dp_length p)) <$> ds;
  pc_occ : forall x, occ x (cbs_of calls) = if decide (x = CbPayloadRead it) then Z.of_nat (length ds) else 0;
  pc_none : rd_calls calls = [] /\ r_calls calls = [] /\ recv_items calls = [];
}.

Lemma read_payloads_ok ctx it ptrs : forall ds,
  length ptrs = length ds -> exists calls, read_payloads ctx it ptrs ds = Done calls /\ payload_calls it ds calls.
Proof.
  induction ptrs as [|ptr ptrs IH]; intros [|d ds] Hl; try done.
  - exists []. split; [done|]. split; try done. intros x. by destruct (decide _).
  - simpl. destruct (IH ds) as (calls & -> & [P1 P2 P3 (P4 & P5 & P6)]); [simpl in Hl; lia|].
    rewrite bind_done. eexists. split; [done|]. split; simpl.
    + by rewrite P1.
    + f_equal. exact P2.
    + intros x. rewrite occ_cons. change (omap cb_of calls) with (cbs_of calls). rewrite P3.
      destruct (decide (x = CbPayloadRead it)) as [->|Hx]; [rewrite decide_True by done; lia|].
      rewrite decide_False by congruence. done.
    + done.
Qed.

Record tensor_calls (it : Z) (ds : list DescTensor) (calls : list pcall) : Prop := {
  tc_len : length calls = length ds;
  tc_items : recv_items calls = dt_length <$> ds;
  tc_occ : forall x, occ x (cbs_of calls) = if decide (x = CbTensorRecv it) then Z.of_nat (length ds) else 0;
  tc_none : rd_calls calls = [] /\ r_calls calls = [] /\ read_items calls = [];
}.

Lemma recv_tensors_ok ctx it ds : ctx_ok ctx -> px_state ctx = ESTABLISHED -> forall tensors,
  length tensors = length ds ->
  wp (recv_tensors ctx it tensors ds) (fun e => e = no_channel) (tensor_calls it ds).
Proof.
  intros Hctx Hest. induction ds as [|d ds IH]; intros [|t tensors] Hl; try done.
  - split; try done. intros x. by destruct (decide _).
  - simpl. apply wp_bind, find_channel_ok; [done..|]. intros name _. apply wp_bind.
    eapply wp_mono; [apply IH; simpl in Hl; lia|]. intros calls [P1 P2 P3 (P4 & P5 & P6)]. split; simpl.
    + by rewrite P1.
    + f_equal. exact P2.
    + intros x. rewrite occ_cons. change (omap cb_of calls) with (cbs_of calls). rewrite P3.
      destruct (decide (x = CbTensorRecv it)) as [->|Hx]; [rewrite decide_True by done; lia|].
      rewrite decide_False by congruence. done.
    + done.
Qed.

(** Calls nobody accounts for. *)
Definition silent (calls : list pcall) : Prop :=
  rd_calls calls = [] /\ r_calls calls = [] /\ recv_items calls = [] /\ read_items calls = [] /\
  forall it, occ (CbDescriptor it) (cbs_of calls) = 0 /\ occ (CbPayloadRead it) (cbs_of calls) = 0 /\
             occ (CbTensorRecv it) (cbs_of calls) = 0.

Section Rows.
Context (ctx : PipeCtx) (P : list cb) (H : list pcall) (G first : Z) (s : ReadSide).
Context (HI : rinv ctx P H G first s) (i : nat) (o : ReadOperation).
Context (Ho : readOps_ s !! i = Some o).

Abbreviation ops := (readOps_ s).
Abbreviation prev := (prev_state i ops).

Lemma op_deref : deref (ro_sequenceNumber o) s = Done o.
Proof. exact (deref_at (H := read_operation) first s i o (ri_num _ _ _ _ _ _ HI) Ho). Qed.

Lemma op_rok : rop_ok ctx o prev.
Proof. by apply (ri_ops _ _ _ _ _ _ HI). Qed.

Lemma op_seq_range : 0 <= ro_sequenceNumber o < 2 ^ 63 /\ first <= ro_sequenceNumber o.
Proof.
  destruct (seq_index (H := read_operation) _ _ _ _ (ri_num _ _ _ _ _ _ HI) Ho) as [_ ?]. simpl in *.
  destruct (rinv_bounds _ _ _ _ _ _ HI). lia.
Qed.

(** Replacing the operation by [o'] in a state that otherwise differs in the
    counters only: the parts of the invariant about single operations. *)
Lemma each_upd o' :
  (ro_state o <= ro_state o')%nat -> rop_ok ctx o' prev -> each (rop_ok ctx) (<[i := o']> ops).
Proof.
  intros. eapply each_insert; [exact (rop_ok_mono ctx) | apply HI | done | done | done].
Qed.

Lemma numbered_upd o' : ro_sequenceNumber o' = ro_sequenceNumber o -> numbered first (<[i := o']> ops).
Proof. intros. by eapply (numbered_insert (H := read_operation)); [apply HI | done |]. Qed.

Lemma stay_upd k n o' :
  thresh k n first ops -> ro_sequenceNumber o' = ro_sequenceNumber o ->
  ((k <= ro_state o)%nat <-> (k <= ro_state o')%nat) -> thresh k n first (<[i := o']> ops).
Proof. intros. by eapply (thresh_stay (H := read_operation)). Qed.

Lemma up_upd k n o' :
  thresh k n first ops -> ro_sequenceNumber o' = ro_sequenceNumber o -> ro_sequenceNumber o = n ->
  (k <= ro_state o')%nat -> thresh k (n + 1) first (<[i := o']> ops).
Proof. intros. eapply (thresh_up (H := read_operation)); [done | apply HI | done..]. Qed.

Lemma here k n :
  thresh k n first ops -> (k <= 5)%nat -> (ro_state o < k)%nat -> (k <= prev)%nat -> ro_sequenceNumber o = n.
Proof. intros Ht. intros Hk. exact (thresh_here (H := read_operation) k n first ops i o Ht (ri_num _ _ _ _ _ _ HI) Hk Ho). Qed.

Lemma G_upd o' :
  ro_sequenceNumber o' = ro_sequenceNumber o -> ro_doneGettingAllocation o' = ro_doneGettingAllocation o ->
  first <= G <= first + Z.of_nat (length (<[i := o']> ops)) /\
  forall j q, <[i := o']> ops !! j = Some q -> ro_sequenceNumber q < G <-> ro_doneGettingAllocation q = true.
Proof.
  intros Hs Hg. destruct (ri_G _ _ _ _ _ _ HI) as [Hb HG]. split; [by rewrite length_insert|].
  intros j q Hq. apply list_lookup_insert_Some in Hq as [(-> & <- & _)|[_ Hq]]; [|by apply (HG j)].
  rewrite Hs, Hg. by apply (HG j).
Qed.

Lemma A_upd o' :
  ro_sequenceNumber o' = ro_sequenceNumber o -> (waiting o' <-> waiting o) -> forall it,
  nextMessageGettingAllocation_ s = Some it <->
  exists j q, <[i := o']> ops !! j = Some q /\ ro_sequenceNumber q = it /\ waiting q.
Proof.
  intros Hs Hw it. rewrite (ri_A _ _ _ _ _ _ HI). split; intros (j & q & Hq & Hit & Hwq).
  - destruct (decide (j = i)) as [->|Hj].
    + rewrite Ho in Hq. injection Hq as <-. exists i, o'. rewrite Hs, Hw.
      by rewrite list_lookup_insert_eq by (by eapply lookup_lt_Some).
    + exists j, q. by rewrite list_lookup_insert_ne.
  - apply list_lookup_insert_Some in Hq as [(-> & <- & _)|[_ Hq]]; [|by exists j, q].
    exists j, o. by rewrite <- Hs, <- Hw.
Qed.

Lemma tally_upd (f : ReadOperation -> Z) o' it :
  ro_sequenceNumber o' = ro_sequenceNumber o -> f o' = f o -> tally f it (<[i := o']> ops) = tally f it ops.
Proof.
  intros Hs Hf. rewrite (tally_insert (H := read_operation) f it ops i o o' Ho Hs), Hf.
  destruct (decide _); lia.
Qed.

Lemma M_upd o' :
  ro_sequenceNumber o' = ro_sequenceNumber o ->
  ((1 <= ro_state o)%nat <-> (1 <= ro_state o')%nat) -> ((4 <= ro_state o)%nat <-> (4 <= ro_state o')%nat) ->
  is_error (px_error ctx) = false ->
  thresh 4 (messageBeingReadFromConnection_ s) first (<[i := o']> ops) /\
  (forall j q, <[i := o']> ops !! j = Some q -> ro_sequenceNumber q = messageBeingReadFromConnection_ s ->
     connectionState_ s = AWAITING_PAYLOADS <-> (1 <= ro_state q)%nat) /\
  (connectionState_ s = AWAITING_PAYLOADS ->
     messageBeingReadFromConnection_ s < first + Z.of_nat (length (<[i := o']> ops))).
Proof.
  intros Hs H1 H4 He. destruct (ri_M _ _ _ _ _ _ HI He) as (Ht & Hc & Hl).
  rewrite length_insert. split_and!; [by apply stay_upd | | done]. intros j q Hq Hm.
  apply list_lookup_insert_Some in Hq as [(-> & <- & _)|[_ Hq]]; [|by apply (Hc j)].
  rewrite <- H1. apply (Hc j o Ho). by rewrite <- Hs.
Qed.

Lemma h3_upd o' hist :
  ro_sequenceNumber o' = ro_sequenceNumber o -> ((2 <= ro_state o')%nat -> (2 <= ro_state o)%nat) ->
  ro_descriptor o' = ro_descriptor o -> ro_doneReadingDescriptor o' = ro_doneReadingDescriptor o ->
  rd_calls hist = rd_calls H ->
  forall j q, <[i := o']> ops !! j = Some q -> (2 <= ro_state q)%nat ->
  exists e, rd_calls hist !! Z.to_nat (ro_sequenceNumber q) =
    Some (Z.to_nat (ro_sequenceNumber q), e, ro_descriptor q) /\
    (is_error e = false -> ro_doneReadingDescriptor q = true).
Proof.
  intros Hs H2 Hd Hdone -> j q Hq Hst.
  apply list_lookup_insert_Some in Hq as [(-> & <- & _)|[_ Hq]]; [|by apply (ri_h3 _ _ _ _ _ _ HI j)].
  rewrite Hs, Hd, Hdone. apply (ri_h3 _ _ _ _ _ _ HI j o Ho). auto.
Qed.

Definition after (r : ReadSide * list pcall) (to : nat) : Prop :=
  exists o1, readOps_ r.1 = <[i := o1]> ops /\ ro_sequenceNumber o1 = ro_sequenceNumber o /\
    rinv ctx (P ++ cbs_of r.2) (H ++ r.2) G first
      (r.1 <| readOps_ := <[i := o1 <| ro_state := to |>]> ops |>).

Lemma update_here (f : ReadOperation -> ReadOperation) (s' : ReadSide) :
  readOps_ s' = ops ->
  update_op (ro_sequenceNumber o) f s' = Done (s' <| readOps_ := <[i := f o]> ops |>).
Proof.
  intros Hs. rewrite <- Hs.
  refine (update_at (H := read_operation) (Subj := ReadSide) first s' i o f _ _); simpl; rewrite Hs;
    [apply HI | done].
Qed.

(** [callReadDescriptorCallback]. *)
Lemma row_call_descriptor :
  (ro_state o < 2)%nat -> (2 <= prev)%nat ->
  (is_error (px_error ctx) = true /\ ro_state o = 0%nat \/ ro_doneReadingDescriptor o = true /\ ro_state o = 1%nat) ->
  wp (callReadDescriptorCallback ctx (ro_sequenceNumber o) s) (fun e => e = no_channel) (fun r => after r 2).
Proof.
  intros Hst Hp Hc. pose proof op_rok as Hrok. pose proof op_seq_range as [Hb Hf].
  pose proof (here 2 _ (ri_D _ _ _ _ _ _ HI) ltac:(lia) Hst Hp) as HD.
  pose proof (rinv_bounds _ _ _ _ _ _ HI) as (? & ? & ? & ?).
  unfold callReadDescriptorCallback. rewrite op_deref, bind_done, (rk_dcb _ _ _ Hrok Hst).
  cbn [get_callback]. rewrite bind_done. apply wp_bind. rewrite HD. simpl cb_seq. rewrite Z.eqb_refl.
  cbn [tp_check wp]. rewrite <- HD. rewrite update_here by done. cbn [mbind outcome_bind wp].
  set (o1 := o <| ro_readDescriptorCallback := None |>).
  exists o1. split; [done|]. split; [done|]. cbn [fst snd].
  set (o2 := o1 <| ro_state := 2%nat |>).
  assert (u64 (nextReadDescriptorCallbackToCall_ s + 1) = nextReadDescriptorCallbackToCall_ s + 1) as Hu
    by (apply u64_small; unfold is_u64; lia).
  pose proof (descs_length _ _ _ _ _ _ HI) as Hdl.
  assert (each (rop_ok ctx) (<[i := o2]> ops)) as Heach.
  { apply each_upd; [simpl; lia|]. destruct Hrok as [K1 K2 K3 K4 K5 K6 K7 K8 K9 K10 K11 K12 K13 K14 K15].
    assert (ro_doneGettingAllocation o = true -> False) as Hng by (intros Hg; specialize (K5 Hg); lia).
    split; simpl; try done; try lia; try (intros; exfalso; tauto).
    - intros [?|[?|?]]; [done | tauto | lia].
    - intros He _. destruct Hc as [[? ?]|[? ?]]; congruence. }
  rinv_fields; rewrite ?Hu.
  - by apply numbered_upd.
  - rewrite length_insert. apply HI.
  - done.
  - apply up_upd; [apply HI | done | done | simpl; lia].
  - apply stay_upd; [apply HI | done | simpl; lia].
  - intros He. apply M_upd; try done; simpl; [|lia]. destruct Hc as [[? ?]|[? ?]]; [congruence | lia].
  - pose proof (ri_Mle _ _ _ _ _ _ HI). lia.
  - by apply G_upd.
  - apply A_upd; [done|]. unfold waiting. simpl. lia.
  - intros it. rewrite tally_upd; [apply HI | done|]. unfold desc_pending. simpl.
    destruct Hc as [[? ->]|[-> ->]]; done.
  - intros it. rewrite tally_upd; [apply HI | done | done].
  - intros it. rewrite tally_upd; [apply HI | done | done].
  - rewrite fmap_app, (ri_h1 _ _ _ _ _ _ HI). simpl. rewrite HD.
    rewrite Z2Nat.inj_add, Nat.add_1_r, seq_S by lia. done.
  - apply HI.
  - intros j q Hq Hst2. apply list_lookup_insert_Some in Hq as [(-> & <- & _)|[_ Hq]].
    + simpl. exists (px_error ctx). split.
      * rewrite lookup_app_r; unfold descs in Hdl; rewrite length_fmap in Hdl; rewrite Hdl, HD; [|done].
        by rewrite Nat.sub_diag.
      * destruct Hc as [[-> _]|[? _]]; done.
    + destruct (ri_h3 _ _ _ _ _ _ HI j q Hq Hst2) as (e & He & Hx). exists e. split; [|done].
      by apply lookup_app_l_Some.
  - rewrite take_app_le; [apply HI|]. pose proof (ri_Mle _ _ _ _ _ _ HI). rewrite Hdl. lia.
  - rewrite take_app_le; [apply HI|]. pose proof (ri_Mle _ _ _ _ _ _ HI). rewrite Hdl. lia.
Qed.

(** [readDescriptorOfMessage]. *)
Lemma row_issue :
  ro_state o = 0%nat -> (4 <= prev)%nat -> is_error (px_error ctx) = false -> px_state ctx = ESTABLISHED ->
  wp (readDescriptorOfMessage ctx (ro_sequenceNumber o) s) (fun e => e = no_channel) (fun r => after r 1).
Proof.
  intros Hst Hp He Hest. pose proof op_rok as Hrok. pose proof (ri_M _ _ _ _ _ _ HI He) as (HM & Hconn & _).
  pose proof (here 4 _ HM ltac:(lia) ltac:(lia) Hp) as Hseq.
  assert (connectionState_ s = AWAITING_DESCRIPTOR) as Hcs.
  { destruct (connectionState_ s) eqn:Hcs; [done|]. exfalso.
    pose proof (proj1 (Hconn i o Ho Hseq) eq_refl). lia. }
  unfold readDescriptorOfMessage. rewrite op_deref, bind_done, Hcs, Hseq, Z.eqb_refl.
  rewrite <- Hseq. cbn [bool_decide decide_rel tp_check mbind outcome_bind wp].
  exists o. split; [by rewrite list_insert_id|]. split; [done|]. cbn [fst snd].
  set (o2 := o <| ro_state := 1%nat |>).
  assert (ro_doneReadingDescriptor o = false) as Hnd.
  { destruct (ro_doneReadingDescriptor o) eqn:Hd; [|done]. pose proof (rk_done _ _ _ Hrok Hd). lia. }
  assert (each (rop_ok ctx) (<[i := o2]> ops)) as Heach.
  { apply each_upd; [simpl; lia|]. destruct Hrok as [K1 K2 K3 K4 K5 K6 K7 K8 K9 K10 K11 K12 K13 K14 K15].
    assert (ro_doneGettingAllocation o = true -> False) as Hng by (intros Hg; specialize (K5 Hg); lia).
    split; simpl; try done; try lia; try (intros; exfalso; tauto); intros _; (apply K7 || apply K13); lia. }
  assert (length (<[i := o2]> ops) = length ops) as Hlen by apply length_insert.
  rinv_fields.
  - by apply numbered_upd.
  - rewrite Hlen. apply HI.
  - done.
  - apply stay_upd; [apply HI | done | simpl; lia].
  - apply stay_upd; [apply HI | done | simpl; lia].
  - intros _. split_and!.
    + apply stay_upd; [done | done | simpl; lia].
    + intros j q Hq Hm. split; [|done]. intros _.
      apply list_lookup_insert_Some in Hq as [(-> & <- & _)|[Hne Hq]]; [simpl; lia|].
      exfalso. apply Hne. pose proof (ri_num _ _ _ _ _ _ HI) as (_ & _ & Hs).
      pose proof (Hs _ _ Hq). pose proof (Hs _ _ Ho). simpl in *. lia.
    + intros _. rewrite Hlen. pose proof (ri_num _ _ _ _ _ _ HI) as (_ & _ & Hs).
      pose proof (Hs _ _ Ho). pose proof (lookup_lt_Some _ _ _ Ho). simpl in *. lia.
  - apply HI.
  - by apply G_upd.
  - apply A_upd; [done|]. unfold waiting. simpl. lia.
  - intros it. rewrite occ_app, occ_cons, occ_nil, (ri_pd _ _ _ _ _ _ HI).
    rewrite (tally_insert (H := read_operation) desc_pending it ops i o o2 Ho eq_refl).
    unfold desc_pending. simpl. rewrite Hst, Hnd. simpl.
    destruct (decide (ro_sequenceNumber o = it)) as [->|Hne].
    + by rewrite decide_True by done.
    + by rewrite decide_False by congruence.
  - intros it. rewrite occ_app, occ_cons, occ_nil, tally_upd, decide_False, !Z.add_0_r by done. apply HI.
  - intros it. rewrite occ_app, occ_cons, occ_nil, tally_upd, decide_False, !Z.add_0_r by done. apply HI.
  - apply HI.
  - apply HI.
  - intros j q Hq Hst2. apply list_lookup_insert_Some in Hq as [(-> & <- & _)|[_ Hq]]; [simpl in *; lia|].
    by apply (ri_h3 _ _ _ _ _ _ HI j).
  - rewrite (ri_h4 _ _ _ _ _ _ HI), Hcs, decide_False, app_nil_r by done. done.
  - apply HI.
Qed.

(** An issued operation has all its predecessors past their [read] call. *)
Lemma chain j q k p :
  ops !! j = Some q -> ops !! k = Some p -> (k < j)%nat ->
  ro_state q = 1%nat \/ ro_doneReadingDescriptor q = true \/ (3 <= ro_state q)%nat ->
  (4 <= ro_state p)%nat.
Proof.
  revert q. induction j as [|j IH]; intros q Hq Hp Hlt Hi; [lia|].
  destruct (ri_ops _ _ _ _ _ _ HI _ _ Hq) as [K1 _ _ _ _ _ _ _ _ _ _ _ _ _ _]. apply K1 in Hi as [Hi _].
  simpl in Hi. destruct (lookup_lt_is_Some_2 ops j) as [r Hr]; [apply lookup_lt_Some in Hq; lia|].
  rewrite Hr in Hi. simpl in Hi. destruct (decide (k = j)) as [->|Hne]; [by simplify_eq|].
  apply (IH r Hr Hp); [lia | lia].
Qed.

(** [expectReadCall]. *)
Lemma row_expect :
  ro_state o = 2%nat -> ro_doneReadingDescriptor o = true -> (4 <= prev)%nat ->
  wp (expectReadCall (ro_sequenceNumber o) s) (fun e => e = no_channel) (fun r => after r 3).
Proof.
  intros Hst Hdone Hp. pose proof op_rok as Hrok.
  assert (ro_doneGettingAllocation o = false) as Hng.
  { destruct (ro_doneGettingAllocation o) eqn:Hg; [|done]. pose proof (rk_get _ _ _ Hrok Hg). lia. }
  assert (forall j q, ops !! j = Some q -> waiting q -> False) as Hnw.
  { intros j q Hq [Hw _]. destruct (Nat.lt_trichotomy j i) as [Hlt|[->|Hlt]].
    - pose proof (chain i o j q Ho Hq Hlt ltac:(tauto)). lia.
    - simplify_eq. lia.
    - pose proof (chain j q i o Hq Ho Hlt ltac:(lia)). lia. }
  assert (nextMessageGettingAllocation_ s = None) as HA.
  { destruct (nextMessageGettingAllocation_ s) as [it|] eqn:HA; [|done]. exfalso.
    apply (ri_A _ _ _ _ _ _ HI) in HA as (j & q & Hq & _ & Hw). by apply (Hnw j q). }
  unfold expectReadCall. rewrite op_deref, bind_done, HA. cbn [tp_check bool_decide mbind outcome_bind wp].
  exists o. split; [by rewrite list_insert_id|]. split; [done|]. cbn [fst snd].
  set (o2 := o <| ro_state := 3%nat |>).
  assert (each (rop_ok ctx) (<[i := o2]> ops)) as Heach.
  { apply each_upd; [simpl; lia|]. destruct Hrok as [K1 K2 K3 K4 K5 K6 K7 K8 K9 K10 K11 K12 K13 K14 K15].
    split; simpl; try done; try lia; try (intros; congruence); intros _; tauto. }
  rinv_fields.
  - by apply numbered_upd.
  - rewrite length_insert. apply HI.
  - done.
  - apply stay_upd; [apply HI | done | simpl; lia].
  - apply stay_upd; [apply HI | done | simpl; lia].
  - apply M_upd; [done | simpl; lia | simpl; lia].
  - apply HI.
  - by apply G_upd.
  - intros it. split.
    + intros [= <-]. exists i, o2. rewrite list_lookup_insert_eq by (by eapply lookup_lt_Some). done.
    + intros (j & q & Hq & <- & Hw). apply list_lookup_insert_Some in Hq as [(-> & <- & _)|[_ Hq]]; [done|].
      exfalso. by apply (Hnw j q).
  - intros it. rewrite tally_upd; [apply HI | done|]. unfold desc_pending. simpl. by rewrite Hst, Hdone.
  - intros it. rewrite tally_upd; [apply HI | done | done].
  - intros it. rewrite tally_upd; [apply HI | done | done].
  - apply HI.
  - apply HI.
  - apply h3_upd; try done. simpl. lia.
  - apply HI.
  - apply HI.
Qed.

(** [callReadCallback]. *)
Lemma row_call_read :
  (is_error (px_error ctx) = true /\ ro_state o = 3%nat /\ ro_doneGettingAllocation o = true \/
   ro_state o = 4%nat /\ ro_numPayloadsBeingRead o = 0 /\ ro_numTensorsBeingReceived o = 0) ->
  (5 <= prev)%nat ->
  wp (callReadCallback ctx (ro_sequenceNumber o) s) (fun e => e = no_channel) (fun r => after r 5).
Proof.
  intros Hc Hp. pose proof op_rok as Hrok. pose proof (rinv_bounds _ _ _ _ _ _ HI) as (? & ? & ? & ?).
  assert (ro_doneGettingAllocation o = true) as Hg.
  { destruct Hc as [(_ & _ & ?)|(Hst & _)]; [done|]. apply (rk_got _ _ _ Hrok). lia. }
  pose proof (here 5 _ (ri_R _ _ _ _ _ _ HI) ltac:(lia) ltac:(lia) Hp) as HR.
  unfold callReadCallback. rewrite op_deref, bind_done, (rk_rcb _ _ _ Hrok Hg) by lia.
  cbn [get_callback]. rewrite bind_done. apply wp_bind. rewrite HR. simpl cb_seq. rewrite Z.eqb_refl.
  cbn [tp_check wp]. rewrite <- HR. rewrite update_here by done. cbn [mbind outcome_bind wp].
  set (o1 := o <| ro_readCallback := None |>).
  exists o1. split; [done|]. split; [done|]. cbn [fst snd].
  set (o2 := o1 <| ro_state := 5%nat |>).
  assert (u64 (nextReadCallbackToCall_ s + 1) = nextReadCallbackToCall_ s + 1) as Hu
    by (apply u64_small; unfold is_u64; lia).
  assert (ro_numPayloadsBeingRead o = 0 /\ ro_numTensorsBeingReceived o = 0) as Hz.
  { destruct Hc as [(_ & Hst & _)|(_ & ?)]; [|done]. apply (rk_idle _ _ _ Hrok). lia. }
  assert (each (rop_ok ctx) (<[i := o2]> ops)) as Heach.
  { apply each_upd; [simpl; lia|]. destruct Hrok as [K1 K2 K3 K4 K5 K6 K7 K8 K9 K10 K11 K12 K13 K14 K15].
    split; simpl; try done; try lia; intros; (apply K1 || apply K4); lia. }
  rinv_fields; rewrite ?Hu.
  - by apply numbered_upd.
  - rewrite length_insert. apply HI.
  - done.
  - apply stay_upd; [apply HI | done | simpl; lia].
  - apply up_upd; [apply HI | done | done | simpl; lia].
  - intros He. apply M_upd; try done; simpl; [lia|]. destruct Hc as [(? & _)|(-> & _)]; [congruence | lia].
  - apply HI.
  - by apply G_upd.
  - apply A_upd; [done|]. unfold waiting. simpl. rewrite Hg. split; intros [? ?]; done.
  - intros it. rewrite tally_upd; [apply HI | done|]. unfold desc_pending. simpl.
    destruct (Nat.eqb_spec (ro_state o) 1); [lia | done].
  - intros it. rewrite tally_upd; [apply HI | done | done].
  - intros it. rewrite tally_upd; [apply HI | done | done].
  - apply HI.
  - rewrite (ri_h2 _ _ _ _ _ _ HI). simpl. rewrite HR, Z2Nat.inj_add, Nat.add_1_r, seq_S by lia. done.
  - apply h3_upd; try done. simpl. lia.
  - apply HI.
  - apply HI.
Qed.

(** The state after the payloads and the tensors were asked for. *)
Definition o_reading (np nt : Z) : ReadOperation :=
  o <| ro_numPayloadsBeingRead := np |> <| ro_numTensorsBeingReceived := nt |>.

Definition s_reading (np nt : Z) : ReadSide :=
  mkReadSide (<[i := o_reading np nt]> ops) (nextMessageBeingRead_ s) (nextReadDescriptorCallbackToCall_ s)
    (nextReadCallbackToCall_ s) AWAITING_DESCRIPTOR (u64 (messageBeingReadFromConnection_ s + 1))
    (nextMessageGettingAllocation_ s).

Lemma reading_rinv pc rep rc :
  ro_state o = 3%nat -> ro_doneGettingAllocation o = true -> is_error (px_error ctx) = false ->
  payload_calls (ro_sequenceNumber o) (d_payloads (ro_descriptor o)) pc ->
  tensor_calls (ro_sequenceNumber o) (d_tensors (ro_descriptor o)) rc -> silent rep ->
  after (s_reading (Z.of_nat (length pc)) (Z.of_nat (length rc)), pc ++ rep ++ rc) 4.
Proof.
  intros Hst Hg He [Pl Pi Po (Pn1 & Pn2 & Pn3)] [Tl Ti To (Tn1 & Tn2 & Tn3)] (S1 & S2 & S3 & S4 & S5).
  pose proof op_rok as Hrok. pose proof (rinv_bounds _ _ _ _ _ _ HI) as (? & ? & ? & ?).
  pose proof (descs_length _ _ _ _ _ _ HI) as Hdl. pose proof op_seq_range as [Hb Hf].
  pose proof (rk_size _ _ _ Hrok) as [Hs1 Hs2].
  destruct (rk_idle _ _ _ Hrok ltac:(lia)) as [Hz1 Hz2].
  destruct (rk_issued _ _ _ Hrok ltac:(lia)) as [Hp Hest].
  pose proof (ri_M _ _ _ _ _ _ HI He) as (HM & Hconn & _).
  pose proof (here 4 _ HM ltac:(lia) ltac:(lia) Hp) as Hseq.
  assert (connectionState_ s = AWAITING_PAYLOADS) as Hcs by (apply (Hconn i o Ho Hseq); lia).
  assert (messageBeingReadFromConnection_ s < nextReadDescriptorCallbackToCall_ s) as HMD.
  { rewrite <- Hseq. pose proof (ri_D _ _ _ _ _ _ HI) as (_ & HD). apply (HD i o Ho). simpl. lia. }
  assert (u64 (messageBeingReadFromConnection_ s + 1) = messageBeingReadFromConnection_ s + 1) as Hu
    by (apply u64_small; unfold is_u64; lia).
  exists (o_reading (Z.of_nat (length pc)) (Z.of_nat (length rc))). split; [done|]. split; [done|]. cbn [fst snd].
  set (o2 := o_reading _ _ <| ro_state := 4%nat |>). unfold s_reading. rewrite Hu.
  assert (exists e, rd_calls H !! Z.to_nat (messageBeingReadFromConnection_ s) =
    Some (Z.to_nat (messageBeingReadFromConnection_ s), e, ro_descriptor o)) as (e & Hdesc).
  { destruct (ri_h3 _ _ _ _ _ _ HI i o Ho ltac:(lia)) as (e & Hx & _). exists e. by rewrite <- Hseq. }
  assert (take (Z.to_nat (messageBeingReadFromConnection_ s + 1)) (descs H) =
    take (Z.to_nat (messageBeingReadFromConnection_ s)) (descs H) ++ [ro_descriptor o]) as Htake.
  { rewrite Z2Nat.inj_add, Nat.add_1_r by lia. apply take_S_r. unfold descs.
    by rewrite list_lookup_fmap, Hdesc. }
  assert (each (rop_ok ctx) (<[i := o2]> ops)) as Heach.
  { apply each_upd; [simpl; lia|]. destruct Hrok as [K1 K2 K3 K4 K5 K6 K7 K8 K9 K10 K11 K12 K13 K14 K15].
    split; simpl; try done; try lia; try (intros; (apply K1 || apply K4); lia).
    - intros _ _. apply K8; [done | lia].
    - unfold is_u64. rewrite Pl, Tl. lia. }
  rinv_fields; rewrite ?omap_app; fold (cbs_of pc) (cbs_of rep) (cbs_of rc) (rd_calls pc) (rd_calls rep)
    (rd_calls rc) (r_calls pc) (r_calls rep) (r_calls rc) (read_items pc) (read_items rep) (read_items rc)
    (recv_items pc) (recv_items rep) (recv_items rc); unfold descs;
    rewrite ?Pn1, ?Pn2, ?Pn3, ?Tn1, ?Tn2, ?Tn3, ?S1, ?S2, ?S3, ?S4, ?app_nil_r.
  - by apply numbered_upd.
  - rewrite length_insert. apply HI.
  - done.
  - apply stay_upd; [apply HI | done | simpl; lia].
  - apply stay_upd; [apply HI | done | simpl; lia].
  - intros _. split_and!; [|intros j q Hq Hm; split; [done|] | done].
    + apply up_upd; [done | done | done | simpl; lia].
    + intros Hst2. exfalso.
      pose proof (up_upd 4 _ o2 HM eq_refl Hseq ltac:(simpl; lia)) as (_ & HM2).
      assert (q <> o2) as Hqo by (intros ->; simpl in Hm; lia).
      apply list_lookup_insert_Some in Hq as [(_ & <- & _)|[Hne Hq]]; [done|].
      destruct (ri_ops _ _ _ _ _ _ HI _ _ Hq) as [K1 K2 K3 _ _ _ _ _ _ _ _ _ _ K14 _].
      assert (j = S i) as ->.
      { pose proof (ri_num _ _ _ _ _ _ HI) as (_ & _ & Hs).
        pose proof (Hs _ _ Hq). pose proof (Hs _ _ Ho). simpl in *. lia. }
      simpl in K1. rewrite Ho in K1. simpl in K1, K2. rewrite Ho in K2. simpl in K2.
      destruct (decide (ro_state q = 2%nat)) as [Hq2|Hq2]; [|destruct K1; lia].
      specialize (K14 He ltac:(lia)). destruct K1; [tauto | lia].
  - lia.
  - by apply G_upd.
  - apply A_upd; [done|]. unfold waiting. simpl. rewrite Hg. split; intros [? ?]; done.
  - intros it. rewrite !occ_app, Po, To. rewrite !decide_False by done.
    destruct (S5 it) as (-> & _). rewrite tally_upd; [rewrite (ri_pd _ _ _ _ _ _ HI); lia | done|].
    unfold desc_pending. simpl. rewrite Hst. done.
  - intros it. rewrite !occ_app, Po, To, (ri_pp _ _ _ _ _ _ HI). destruct (S5 it) as (_ & -> & _).
    rewrite (tally_insert (H := read_operation) ro_numPayloadsBeingRead it ops i o o2 Ho eq_refl). simpl.
    rewrite Hz1, Pl.
    destruct (decide (ro_sequenceNumber o = it)) as [->|Hne]; [rewrite decide_True by done; lia|].
    rewrite decide_False by congruence. lia.
  - intros it. rewrite !occ_app, Po, To, (ri_pt _ _ _ _ _ _ HI). destruct (S5 it) as (_ & _ & ->).
    rewrite (tally_insert (H := read_operation) ro_numTensorsBeingReceived it ops i o o2 Ho eq_refl). simpl.
    rewrite Hz2, Tl.
    destruct (decide (ro_sequenceNumber o = it)) as [->|Hne]; [rewrite decide_True by done; lia|].
    rewrite decide_False by congruence. lia.
  - apply HI.
  - apply HI.
  - apply h3_upd; try done. simpl. lia.
  - unfold descs in Htake. rewrite (ri_h4 _ _ _ _ _ _ HI), Hcs, decide_True by done. rewrite Htake, fmap_app, join_app. simpl.
    rewrite Pi, app_nil_r, <- !app_assoc. done.
  - unfold descs in Htake. rewrite (ri_h5 _ _ _ _ _ _ HI), Htake, fmap_app, join_app. simpl. by rewrite Ti, app_nil_r.
Qed.

(** The first of the actions, and the last one. *)
Definition o_payloads (np : Z) : ReadOperation := o <| ro_numPayloadsBeingRead := np |>.

Definition s_payloads (np : Z) : ReadSide :=
  mkReadSide (<[i := o_payloads np]> ops) (nextMessageBeingRead_ s) (nextReadDescriptorCallbackToCall_ s)
    (nextReadCallbackToCall_ s) AWAITING_DESCRIPTOR (u64 (messageBeingReadFromConnection_ s + 1))
    (nextMessageGettingAllocation_ s).

Hypothesis Hst : ro_state o = 3%nat.
Hypothesis Hg : ro_doneGettingAllocation o = true.
Hypothesis He : is_error (px_error ctx) = false.

Lemma compat :
  length (a_payloads (ro_allocation o)) = length (d_payloads (ro_descriptor o)) /\
  length (a_tensors (ro_allocation o)) = length (d_tensors (ro_descriptor o)).
Proof.
  pose proof (rk_compat _ _ _ op_rok Hg) as Hc. apply checkAllocationCompatibility_spec in Hc. tauto.
Qed.

Lemma read_payloads_step :
  exists pc, readPayloadsOfMessage ctx (ro_sequenceNumber o) s = Done (s_payloads (Z.of_nat (length pc)), pc) /\
    payload_calls (ro_sequenceNumber o) (d_payloads (ro_descriptor o)) pc.
Proof.
  pose proof op_rok as Hrok. destruct (rk_issued _ _ _ Hrok ltac:(lia)) as [Hp _].
  pose proof (ri_M _ _ _ _ _ _ HI He) as (HM & Hconn & _).
  pose proof (here 4 _ HM ltac:(lia) ltac:(lia) Hp) as Hseq.
  assert (connectionState_ s = AWAITING_PAYLOADS) as Hcs by (apply (Hconn i o Ho Hseq); lia).
  destruct (read_payloads_ok ctx (ro_sequenceNumber o) (a_payloads (ro_allocation o)) (d_payloads (ro_descriptor o)))
    as (pc & Hpc & Hcalls); [apply compat|].
  exists pc. split; [|done]. unfold readPayloadsOfMessage.
  rewrite op_deref, bind_done, Hcs, bool_decide_eq_true_2 by done. cbn [tp_check]. rewrite bind_done.
  rewrite <- Hseq, Z.eqb_refl. cbn [tp_check]. rewrite bind_done, Hpc, bind_done, update_here, bind_done by done.
  destruct (rk_idle _ _ _ Hrok ltac:(lia)) as [Hz _]. pose proof (rk_size _ _ _ Hrok) as [Hs _].
  assert (o <| ro_numPayloadsBeingRead ::= fun n => u64 (n + Z.of_nat (length pc)) |> =
    o_payloads (Z.of_nat (length pc))) as ->; [|done].
  unfold o_payloads, field_update. rewrite Hz, Z.add_0_l, u64_small; [done|].
  unfold is_u64. rewrite (pc_len _ _ _ Hcalls). lia.
Qed.

Lemma recv_step np :
  ctx_ok ctx ->
  wp (receiveTensorsOfMessage ctx (ro_sequenceNumber o) (s_payloads np)) (fun e => e = no_channel) (fun r =>
    exists rc, r = (s_reading np (Z.of_nat (length rc)), rc) /\
      tensor_calls (ro_sequenceNumber o) (d_tensors (ro_descriptor o)) rc).
Proof.
  intros Hctx. pose proof op_rok as Hrok. destruct (rk_issued _ _ _ Hrok ltac:(lia)) as [_ Hest].
  assert (numbered first (readOps_ (s_payloads np))) as Hn by (by apply numbered_upd).
  assert (readOps_ (s_payloads np) !! i = Some (o_payloads np)) as Hi
    by (apply list_lookup_insert_eq; by eapply lookup_lt_Some).
  pose proof (deref_at (H := read_operation) (Subj := ReadSide) first (s_payloads np) i (o_payloads np) Hn Hi) as Hd.
  pose proof (fun f => update_at (H := read_operation) (Subj := ReadSide) first (s_payloads np) i (o_payloads np) f Hn Hi) as Hu.
  cbn [op_seq read_operation o_payloads field_update ro_sequenceNumber] in Hd, Hu.
  unfold receiveTensorsOfMessage. rewrite Hd, bind_done. cbn [ro_descriptor ro_allocation o_payloads field_update].
  rewrite tp_check_bind by (apply Nat.eqb_eq; symmetry; apply compat).
  apply wp_bind. eapply wp_mono; [apply recv_tensors_ok; [done | done | apply compat]|].
  intros rc Hrc. rewrite Hu, bind_done. exists rc. split; [|done].
  destruct (rk_idle _ _ _ Hrok ltac:(lia)) as [_ Hz]. pose proof (rk_size _ _ _ Hrok) as [_ Hs].
  assert (o_payloads np <| ro_numTensorsBeingReceived ::= fun n => u64 (n + Z.of_nat (length rc)) |> =
    o_reading np (Z.of_nat (length rc))) as ->.
  { unfold o_payloads, o_reading, field_update. cbn [ro_numTensorsBeingReceived].
    rewrite Hz, Z.add_0_l, u64_small; [done|]. unfold is_u64. rewrite (tc_len _ _ _ Hrc). lia. }
  unfold s_payloads, s_reading. cbn [get_ops put_ops read_machine readOps_].
  by rewrite list_insert_insert_eq.
Qed.

Lemma row_read :
  ctx_ok ctx ->
  wp (run_actions (ro_sequenceNumber o) [readPayloadsOfMessage ctx; receiveTensorsOfMessage ctx] s)
     (fun e => e = no_channel) (fun r => after r 4).
Proof.
  intros Hctx. destruct read_payloads_step as (pc & Hpc & Hcalls). cbn [run_actions]. rewrite Hpc, bind_done.
  cbn [fst snd]. apply wp_bind, wp_bind. eapply wp_mono; [by apply recv_step|].
  intros r (rc & -> & Hrc). cbn [mbind outcome_bind wp fst snd]. rewrite app_nil_r.
  apply (reading_rinv pc [] rc); try done.
Qed.

Lemma row_read_reply :
  ctx_ok ctx -> ro_hasMissingTargetDevices o = true ->
  wp (run_actions (ro_sequenceNumber o)
       [readPayloadsOfMessage ctx; writeDescriptorReplyOfMessage ctx; receiveTensorsOfMessage ctx] s)
     (fun e => e = no_channel) (fun r => after r 4).
Proof.
  intros Hctx Hm. destruct read_payloads_step as (pc & Hpc & Hcalls). cbn [run_actions]. rewrite Hpc, bind_done.
  cbn [fst snd]. apply wp_bind. pose proof op_rok as Hrok.
  destruct (rk_issued _ _ _ Hrok ltac:(lia)) as [_ Hest].
  destruct (cx_reply _ Hctx Hest) as [c Hc].
  destruct (reply_devices_done (d_tensors (ro_descriptor o)) (a_tensors (ro_allocation o))) as [l Hl]; [apply compat|].
  assert (writeDescriptorReplyOfMessage ctx (ro_sequenceNumber o) (s_payloads (Z.of_nat (length pc))) =
    Done (s_payloads (Z.of_nat (length pc)), [ConnWriteReply c (mkDescriptorReply l)])) as ->.
  { assert (readOps_ (s_payloads (Z.of_nat (length pc))) !! i = Some (o_payloads (Z.of_nat (length pc)))) as Hi
      by (apply list_lookup_insert_eq; by eapply lookup_lt_Some).
    pose proof (deref_at (H := read_operation) (Subj := ReadSide) first (s_payloads (Z.of_nat (length pc))) i _
      (numbered_upd (o_payloads (Z.of_nat (length pc))) eq_refl) Hi) as Hd.
    cbn [op_seq read_operation o_payloads field_update ro_sequenceNumber] in Hd.
    unfold writeDescriptorReplyOfMessage, makeDescriptorReplyForMessage, reply_connection.
    rewrite Hd, bind_done. cbn [ro_hasMissingTargetDevices ro_descriptor ro_allocation o_payloads field_update].
    rewrite Hm, Hl, Hc. done. }
  rewrite bind_done. apply wp_bind, wp_bind. cbn [fst snd]. eapply wp_mono; [by apply recv_step|].
  intros r (rc & -> & Hrc). cbn [mbind outcome_bind wp fst snd]. rewrite app_nil_r.
  apply (reading_rinv pc [ConnWriteReply c (mkDescriptorReply l)] rc); try done.
Qed.
End Rows.
