(* ===== verification/PipeReadSide.v ===== *)
(** * The read side keeps its invariant

    The transitions of the read operations satisfy the contract of the state
    machine, hence every entry point and callback of the read side ends in a
    settled state: the invariant holds and no operation can advance. *)

From S2P Require Import Prelude Messages Select PipeBase OpsStateMachine OpsInvariants PipeRead PipeReadInv.
From S2P Require Import PipeReadRows.

Definition read_inv (ctx : PipeCtx) (P : list cb) (H : list pcall) (G : Z) (tr : list pcall) (s : ReadSide) : Prop :=
  exists first, rinv ctx (P ++ cbs_of tr) (H ++ tr) G first s.

Lemma rinv_pop ctx P H G first s o l :
  rinv ctx P H G first s -> readOps_ s = o :: l -> ro_state o = 5%nat ->
  rinv ctx P H G (first + 1) (s <| readOps_ := l |>).
Proof.
  intros HI Hops Hst. destruct HI as [I1 I2 I3 I4 I5 I6 I7 [I8b I8] I9 I10 I11 I12 I13 I14 I15 I16 I17].
  rewrite Hops in *. pose proof (I3 0%nat o eq_refl) as Hrok. simpl in I2, I8b.
  assert (ro_sequenceNumber o = first) as Hseq by (destruct I1 as (_ & _ & Hs); pose proof (Hs 0%nat o eq_refl) as Hx; simpl in Hx; lia).
  assert (ro_doneGettingAllocation o = true) as Hg by (apply (rk_got _ _ _ Hrok); lia).
  destruct (rk_idle _ _ _ Hrok ltac:(lia)) as [Hz1 Hz2].
  assert (forall f : ReadOperation -> Z, f o = 0 -> forall it, tally f it (o :: l) = tally f it l) as Ht.
  { intros f Hf it. by apply (tally_cons0 (H := read_operation)). }
  rinv_fields.
  - by eapply (numbered_tail (H := read_operation)).
  - lia.
  - by apply (each_pop (H := read_operation) _ o l I3).
  - eapply (thresh_pop (H := read_operation)); [done | done | simpl; lia].
  - eapply (thresh_pop (H := read_operation)); [done | done | simpl; lia].
  - intros He. destruct (I6 He) as (A1 & A2 & A3). simpl in A3. split_and!.
    + eapply (thresh_pop (H := read_operation)); [done | done | simpl; lia].
    + intros j q Hq. by apply (A2 (S j)).
    + intros Hc. specialize (A3 Hc). lia.
  - done.
  - split; [|intros j q Hq; by apply (I8 (S j))].
    pose proof (proj2 (I8 0%nat o eq_refl) Hg). lia.
  - intros it. rewrite I9. split.
    + intros ([|j] & q & Hq & Hit & Hw); [|by exists j, q]. simpl in Hq. injection Hq as <-. destruct Hw; lia.
    + intros (j & q & Hq & Hw). by exists (S j), q.
  - intros it. rewrite I10, Ht; [done|]. unfold desc_pending. by rewrite Hst.
  - intros it. by rewrite I11, Ht.
  - intros it. by rewrite I12, Ht.
  - done.
  - done.
  - intros j q Hq. by apply (I15 (S j)).
  - done.
  - done.
Qed.

Lemma read_table_ok ctx : table_ok (advanceReadOperation ctx).
Proof. unfold advanceReadOperation. solve_table. Qed.

Lemma after_wp ctx P H G first s i o to (m : outcome (ReadSide * list pcall)) tr0 H0 :
  P = H0.1 ++ cbs_of tr0 -> H = H0.2 ++ tr0 ->
  wp m (fun e => e = no_channel) (fun r => after ctx P H G first s i o r to) ->
  wp m (fun e => e = no_channel) (fun r => exists o1, get_ops r.1 = <[i := o1]> (get_ops s) /\ op_seq o1 = op_seq o /\
    read_inv ctx H0.1 H0.2 G (tr0 ++ r.2) (put_ops (<[i := op_put_state to o1]> (get_ops s)) r.1)).
Proof.
  intros -> -> Hm. eapply wp_mono; [exact Hm|]. intros r (o1 & H1 & H2 & H3).
  exists o1. split; [done|]. split; [done|]. exists first. rewrite cbs_of_app, !app_assoc. exact H3.
Qed.

Lemma single_action (a : read_action) it s (Q : exn -> Prop) Post :
  wp (a it s) Q Post -> (forall r, Post r -> Post (r.1, r.2 ++ [])) -> wp (run_actions it [a] s) Q Post.
Proof.
  intros Hw Hp. cbn [run_actions]. apply wp_bind. eapply wp_mono; [exact Hw|].
  intros r Hr. cbn. by apply Hp.
Qed.

Lemma read_machine_ok ctx P H G :
  ctx_ok ctx -> machine_ok (advanceReadOperation ctx) (read_inv ctx P H G) (fun e => e = no_channel).
Proof.
  intros Hctx. split.
  - apply read_table_ok.
  - intros tr s [first HI]. exists first. apply HI.
  - intros t tr s i o Ht [first HI] Ho Hst Hc.
    pose proof (ri_ops _ _ _ _ _ _ HI i o Ho) as Hrok.
    eapply (after_wp ctx _ _ G first s i o (t_to t) _ tr (P, H)); [done | done|].
    assert (forall a, wp (a (ro_sequenceNumber o) s) (fun e => e = no_channel)
        (fun r => after ctx (P ++ cbs_of tr) (H ++ tr) G first s i o r (t_to t)) ->
      wp (run_actions (ro_sequenceNumber o) [a] s) (fun e => e = no_channel)
        (fun r => after ctx (P ++ cbs_of tr) (H ++ tr) G first s i o r (t_to t))) as Hone.
    { intros a Hw. apply single_action; [done|]. intros [s1 e1]. by rewrite app_nil_r. }
    unfold advanceReadOperation in Ht. rewrite !elem_of_cons in Ht.
    destruct Ht as [->|[->|[->|[->|[->|[->|[->|[->|Ht]]]]]]]]; [..|by apply not_elem_of_nil in Ht];
      cbn [t_from t_to t_cond t_actions] in *; simpl in Hst;
      unfold ReadOperation.UNINITIALIZED, ReadOperation.READING_DESCRIPTOR, ReadOperation.ASKING_FOR_ALLOCATION,
        ReadOperation.ASKING_FOR_ALLOCATION_FIRST_IN_LINE, ReadOperation.READING_PAYLOADS_AND_RECEIVING_TENSORS,
        ReadOperation.FINISHED, error, established in *; bool_hyps;
      repeat match goal with Hx : (_ <=? _)%nat = true |- _ => apply Nat.leb_le in Hx end.
    + apply Hone, row_call_descriptor; [done | done | lia | done | left; done].
    + apply Hone, row_issue; done.
    + apply Hone, row_call_descriptor; [done | done | lia | done | right; done].
    + apply Hone, row_expect; done.
    + apply Hone, row_call_read; [done | done | left; done | done].
    + by apply row_read.
    + by apply row_read_reply.
    + apply Hone, row_call_read; [done | done | right; done | done].
  - intros tr s o l [first HI] Hops Hf. exists (first + 1). by apply (rinv_pop _ _ _ _ _ _ o).
Qed.

(** ** Settled states *)

Definition read_ok (ctx : PipeCtx) (P : list cb) (H : list pcall) (G : Z) (s : ReadSide) : Prop :=
  (exists first, rinv ctx P H G first s) /\ no_finished (readOps_ s) /\
  stable_on (advanceReadOperation ctx) (fun _ => True) (readOps_ s).

Abbreviation read_wp m ctx P H G :=
  (wp m (fun e => e = no_channel) (fun r => read_ok ctx (P ++ cbs_of r.2) (H ++ r.2) G r.1)).

Lemma settled_read_ok ctx P H G evs s e :
  settled (advanceReadOperation ctx) (read_inv ctx P H G) evs s e -> read_ok ctx (P ++ cbs_of evs) (H ++ evs) G s.
Proof. intros [(f & (Hi & Hnf & _) & _) Hst]. by split_and!. Qed.

Lemma rinv_live ctx P H G first s :
  rinv ctx P H G first s -> no_finished (readOps_ s) -> live (read_inv ctx P H G) first [] s.
Proof.
  intros HI Hnf. split_and!; [|done|apply HI]. exists first. by rewrite !app_nil_r.
Qed.

Lemma advance_read ctx P H G first s i o :
  ctx_ok ctx -> rinv ctx P H G first s -> no_finished (readOps_ s) -> readOps_ s !! i = Some o ->
  stable_on (advanceReadOperation ctx) (fun k => k <> ro_sequenceNumber o) (readOps_ s) ->
  read_wp (advanceOperation (advanceReadOperation ctx) (ro_sequenceNumber o) s) ctx P H G.
Proof.
  intros Hctx HI Hnf Ho Hst.
  eapply wp_mono;
    [refine (advanceOperation_ok (H := read_operation) _ _ _ (read_machine_ok ctx P H G Hctx) first [] s i o _ Ho Hst);
     by apply rinv_live|].
  intros r Hr. simpl in Hr. by apply settled_read_ok in Hr.
Qed.

Lemma advance_all_reads ctx P H G first s :
  ctx_ok ctx -> rinv ctx P H G first s -> no_finished (readOps_ s) -> read_wp (advanceAllReads ctx s) ctx P H G.
Proof.
  intros Hctx HI Hnf.
  eapply wp_mono;
    [refine (advanceAllOperations_ok (H := read_operation) _ _ _ (read_machine_ok ctx P H G Hctx) first [] s _);
     by apply rinv_live|].
  intros r Hr. simpl in Hr. by apply settled_read_ok in Hr.
Qed.

(** ** [readDescriptorFromLoop] *)

Lemma rinv_emplace ctx P H G first s fn :
  rinv ctx P H G first s -> nextMessageBeingRead_ s + 1 < 2 ^ 63 -> fn = Z.to_nat (nextMessageBeingRead_ s) ->
  let o := newReadOperation (nextMessageBeingRead_ s)
             <| ro_readDescriptorCallback := Some (mkCallback (nextMessageBeingRead_ s) fn) |> in
  rinv ctx P H G first
    (mkReadSide (readOps_ s ++ [o]) (nextMessageBeingRead_ s + 1) (nextReadDescriptorCallbackToCall_ s)
      (nextReadCallbackToCall_ s) (connectionState_ s) (messageBeingReadFromConnection_ s)
      (nextMessageGettingAllocation_ s)).
Proof.
  intros HI Hb -> o. pose proof (ri_next _ _ _ _ _ _ HI) as Hnext.
  destruct HI as [I1 I2 I3 I4 I5 I6 I7 [I8b I8] I9 I10 I11 I12 I13 I14 I15 I16 I17].
  assert (numbered first (readOps_ s ++ [o])) as Hn
    by (apply (numbered_snoc (H := read_operation)); [done | done | lia]).
  assert (forall f : ReadOperation -> Z, f o = 0 -> forall it, tally f it (readOps_ s ++ [o]) = tally f it (readOps_ s)) as Ht.
  { intros f Hf it. by apply (tally_snoc0 (H := read_operation)). }
  assert (forall j q, (readOps_ s ++ [o]) !! j = Some q -> readOps_ s !! j = Some q \/ q = o) as Hin.
  { intros j q Hq. apply lookup_app_Some in Hq as [Hq|[_ Hq]]; [by left|].
    apply list_lookup_singleton_Some in Hq as [_ <-]. by right. }
  rinv_fields.
  - done.
  - rewrite length_app. simpl. lia.
  - apply (each_snoc (H := read_operation)); [done|]. split; simpl; unfold ReadOperation.UNINITIALIZED; try done; try lia.
  - apply (thresh_snoc (H := read_operation)); [done | done | by apply Nat.ltb_lt].
  - apply (thresh_snoc (H := read_operation)); [done | done | by apply Nat.ltb_lt].
  - intros He. destruct (I6 He) as (A1 & A2 & A3). split_and!.
    + apply (thresh_snoc (H := read_operation)); [done | done | by apply Nat.ltb_lt].
    + intros j q Hq. apply Hin in Hq as [Hq| ->]; [by apply (A2 j)|]. simpl. intros Hm.
      split; [intros Hc; specialize (A3 Hc); lia | intros Hx; by apply Nat.leb_le in Hx].
    + intros Hc. specialize (A3 Hc). rewrite length_app. simpl. lia.
  - done.
  - split; [rewrite length_app; simpl; lia|]. intros j q Hq. apply Hin in Hq as [Hq| ->]; [by apply (I8 j)|].
    simpl. split; [lia | done].
  - intros it. rewrite I9. split; intros (j & q & Hq & Hit & Hw).
    + exists j, q. split_and!; [by apply lookup_app_l_Some | done | done].
    + apply Hin in Hq as [Hq| ->]; [by exists j, q|]. by destruct Hw.
  - intros it. rewrite Ht; done.
  - intros it. rewrite Ht; done.
  - intros it. rewrite Ht; done.
  - done.
  - done.
  - intros j q Hq Hst. apply Hin in Hq as [Hq| ->]; [by apply (I15 j)|]. by apply Nat.leb_le in Hst.
  - done.
  - done.
Qed.

Lemma readDescriptorFromLoop_ok ctx P H G s :
  ctx_ok ctx -> read_ok ctx P H G s -> nextMessageBeingRead_ s + 1 < 2 ^ 63 ->
  read_wp (readDescriptorFromLoop ctx (Z.to_nat (nextMessageBeingRead_ s)) s) ctx P H G.
Proof.
  intros Hctx ([first HI] & Hnf & Hst) Hb. pose proof (rinv_bounds _ _ _ _ _ _ HI) as (? & ? & ? & ?).
  pose proof (rinv_emplace _ _ _ _ _ _ _ HI Hb eq_refl) as HI'. cbv zeta in HI'.
  set (n := nextMessageBeingRead_ s) in *.
  set (o := newReadOperation n <| ro_readDescriptorCallback := Some (mkCallback n (Z.to_nat n)) |>) in *.
  unfold readDescriptorFromLoop. fold n. rewrite u64_small by (unfold is_u64; lia).
  unfold emplaceBack. cbn [get_ops put_ops read_machine readOps_ field_update].
  match goal with |- context [update_op _ _ ?x] => set (s1 := x) end.
  assert (numbered first (readOps_ s1)) as Hn1.
  { pose proof (ri_num _ _ _ _ _ _ HI') as Hn. simpl in Hn |- *.
    replace (readOps_ s ++ [newReadOperation n]) with (<[length (readOps_ s) := newReadOperation n]> (readOps_ s ++ [o])).
    - eapply (numbered_insert (H := read_operation)); [done | by apply list_lookup_middle | done].
    - by rewrite insert_app_r_alt, Nat.sub_diag by lia. }
  assert (readOps_ s1 !! length (readOps_ s) = Some (newReadOperation n)) as Hl by (by apply list_lookup_middle).
  pose proof (update_at (H := read_operation) (Subj := ReadSide) first s1 _ (newReadOperation n)
    (fun op => op <| ro_readDescriptorCallback := Some (mkCallback n (Z.to_nat n)) |>) Hn1 Hl) as Hu.
  cbn [op_seq read_operation newReadOperation ro_sequenceNumber] in Hu. rewrite Hu, bind_done.
  cbn [get_ops put_ops read_machine readOps_ s1 field_update]. rewrite insert_app_r_alt, Nat.sub_diag by lia.
  change n with (ro_sequenceNumber o) at 2.
  apply (advance_read ctx P H G first _ (length (readOps_ s)) o); [done | exact HI' | | by apply list_lookup_middle |].
  - apply Forall_app. split; [done|]. constructor; [by apply Nat.ltb_lt | done].
  - by apply (stable_snoc (H := read_operation)).
Qed.

(** ** The callbacks *)

Definition charge (f : ReadOperation -> Z) (C : Z -> cb) (o o' : ReadOperation) (P P' : list cb) : Prop :=
  forall it, occ (C it) P' = occ (C it) P + (if decide (ro_sequenceNumber o = it) then f o' - f o else 0).

Lemma rinv_modify ctx P P' H G first s i o o' :
  rinv ctx P H G first s -> readOps_ s !! i = Some o ->
  ro_sequenceNumber o' = ro_sequenceNumber o -> ro_state o' = ro_state o ->
  ro_doneGettingAllocation o' = ro_doneGettingAllocation o -> rop_ok ctx o' (prev_state i (readOps_ s)) ->
  (ro_state o = 1%nat \/ ro_descriptor o' = ro_descriptor o /\ ro_doneReadingDescriptor o' = ro_doneReadingDescriptor o) ->
  charge desc_pending CbDescriptor o o' P P' -> charge ro_numPayloadsBeingRead CbPayloadRead o o' P P' ->
  charge ro_numTensorsBeingReceived CbTensorRecv o o' P P' ->
  rinv ctx P' H G first (s <| readOps_ := <[i := o']> (readOps_ s) |>).
Proof.
  intros HI Ho Hs Hst Hg Hrok Hd C1 C2 C3.
  pose proof (tally_insert (H := read_operation)) as Ht.
  rinv_fields.
  - by apply (numbered_upd ctx P H G first s HI i o).
  - rewrite length_insert. apply HI.
  - apply (each_upd ctx P H G first s HI i o); [done | lia | done].
  - apply (stay_upd first s i o); [done | apply HI | done | lia].
  - apply (stay_upd first s i o); [done | apply HI | done | lia].
  - apply (M_upd ctx P H G first s HI i o); [done | done | lia | lia].
  - apply HI.
  - by apply (G_upd ctx P H G first s HI i o).
  - apply (A_upd ctx P H G first s HI i o); [done | done|]. unfold waiting. by rewrite Hst, Hg.
  - intros it. rewrite (C1 it), (ri_pd _ _ _ _ _ _ HI), (Ht _ it (readOps_ s) i o o' Ho Hs). done.
  - intros it. rewrite (C2 it), (ri_pp _ _ _ _ _ _ HI), (Ht _ it (readOps_ s) i o o' Ho Hs). done.
  - intros it. rewrite (C3 it), (ri_pt _ _ _ _ _ _ HI), (Ht _ it (readOps_ s) i o o' Ho Hs). done.
  - apply HI.
  - apply HI.
  - destruct Hd as [Hd|[Hd1 Hd2]].
    + intros j q Hq Hst2. apply list_lookup_insert_Some in Hq as [(-> & <- & _)|[_ Hq]]; [lia|].
      by apply (ri_h3 _ _ _ _ _ _ HI j).
    + apply (h3_upd ctx P H G first s HI i o); try done. lia.
  - apply HI.
  - apply HI.
Qed.

(** The operation whose callback [C it] is outstanding. *)
Lemma pending_op (f : ReadOperation -> Z) (C : Z -> cb) P k it first l :
  P !! k = Some (C it) -> numbered first l -> (forall it, occ (C it) P = tally f it l) ->
  exists i o, l !! i = Some o /\ ro_sequenceNumber o = it /\ 0 < f o.
Proof.
  intros Hk Hn Ht. assert (0 < tally f it l) as Hp by (rewrite <- Ht; by eapply occ_elem, list_elem_of_lookup_2).
  destruct (tally_pos (H := read_operation) f first it l Hn Hp) as (i & o & Ho & Hs & Hf).
  exists i, o. split_and!; [done | done | by rewrite Hf].
Qed.

Lemma charge_delete f C o o' P k it :
  P !! k = Some (C it) -> ro_sequenceNumber o = it -> (forall a b, C a = C b -> a = b) -> f o' = f o - 1 ->
  charge f C o o' P (delete k P).
Proof.
  intros Hk Hs Hinj Hf it'. rewrite (occ_delete _ _ _ _ Hk).
  destruct (decide (ro_sequenceNumber o = it')) as [<-|Hne].
  - rewrite decide_True by (by rewrite Hs). lia.
  - rewrite decide_False; [lia|]. intros He. apply Hinj in He. congruence.
Qed.

Lemma charge_other f C o o' P k c :
  P !! k = Some c -> (forall it, c <> C it) -> f o' = f o -> charge f C o o' P (delete k P).
Proof.
  intros Hk Hne Hf it'. rewrite (occ_delete _ _ _ _ Hk), decide_False by done. rewrite Hf.
  destruct (decide _); lia.
Qed.

Lemma update_read ctx P H G first s i o f :
  rinv ctx P H G first s -> readOps_ s !! i = Some o ->
  update_op (ro_sequenceNumber o) f s = Done (s <| readOps_ := <[i := f o]> (readOps_ s) |>).
Proof. intros HI Ho. exact (update_here ctx P H G first s HI i o Ho f s eq_refl). Qed.

(** A callback that changes one operation and lets it advance. *)
Lemma modify_and_advance ctx P P' H G s first i o (f : ReadOperation -> ReadOperation) :
  ctx_ok ctx -> rinv ctx P H G first s -> no_finished (readOps_ s) ->
  stable_on (advanceReadOperation ctx) (fun _ => True) (readOps_ s) -> readOps_ s !! i = Some o ->
  ro_sequenceNumber (f o) = ro_sequenceNumber o -> ro_state (f o) = ro_state o ->
  rinv ctx P' H G first (s <| readOps_ := <[i := f o]> (readOps_ s) |>) ->
  read_wp (s ← update_op (ro_sequenceNumber o) f s;
           advanceOperation (advanceReadOperation ctx) (ro_sequenceNumber o) s) ctx P' H G.
Proof.
  intros Hctx HI Hnf Hst Ho Hs He HI'. rewrite (update_read ctx P H G first s i o f HI Ho), bind_done.
  rewrite <- Hs. apply (advance_read ctx P' H G first _ i (f o)); [done | done | | |].
  - apply Forall_insert; [done|]. change (ro_state (f o) < 5)%nat. rewrite He.
    exact (proj1 (Forall_lookup _ _) Hnf i o Ho).
  - apply list_lookup_insert_eq. by eapply lookup_lt_Some.
  - rewrite Hs. by apply (stable_modify (H := read_operation)).
Qed.

Lemma onDescriptorRead_ok ctx P H G s k it d :
  ctx_ok ctx -> read_ok ctx P H G s -> P !! k = Some (CbDescriptor it) ->
  Z.of_nat (length (d_payloads d)) < 2 ^ 64 -> Z.of_nat (length (d_tensors d)) < 2 ^ 64 ->
  read_wp (onDescriptorRead ctx it d s) ctx (delete k P) H G.
Proof.
  intros Hctx ([first HI] & Hnf & Hst) Hk Hs1 Hs2.
  destruct (pending_op desc_pending CbDescriptor P k it first (readOps_ s) Hk (ri_num _ _ _ _ _ _ HI) (ri_pd _ _ _ _ _ _ HI))
    as (i & o & Ho & <- & Hp).
  pose proof (ri_ops _ _ _ _ _ _ HI i o Ho) as Hrok.
  unfold desc_pending in Hp. destruct (Nat.eqb_spec (ro_state o) 1) as [H1|]; [|done].
  destruct (ro_doneReadingDescriptor o) eqn:Hdone; [done|]. clear Hp.
  pose proof (rk_empty _ _ _ Hrok Hdone) as Hemp. pose proof (rk_missing _ _ _ Hrok) as Hmiss.
  rewrite Hemp in Hmiss. simpl in Hmiss.
  unfold onDescriptorRead. eapply modify_and_advance; try done.
  { by destruct (error ctx). }
  { by destruct (error ctx). }
  assert (ro_doneGettingAllocation o = false) as Hng.
  { destruct (ro_doneGettingAllocation o) eqn:Hg; [|done]. pose proof (rk_get _ _ _ Hrok Hg). lia. }
  eapply rinv_modify; [done | done | by destruct (error ctx) | by destruct (error ctx) | by destruct (error ctx) | | by left | | |].
  - destruct Hrok as [K1 K2 K3 K4 K5 K6 K7 K8 K9 K10 K11 K12 K13 K14 K15].
    unfold error. destruct (is_error (px_error ctx)); split; simpl; try done; try lia; try tauto;
      try (intros; congruence).
    by rewrite Hmiss.
  - eapply charge_delete; [done | done | by intros ? ? [=]|].
    unfold desc_pending. rewrite H1, Hdone. unfold error. destruct (is_error (px_error ctx)); simpl; by rewrite H1.
  - eapply charge_other; [done | done|]. by destruct (error ctx).
  - eapply charge_other; [done | done|]. by destruct (error ctx).
Qed.

Lemma idle_state ctx o p : rop_ok ctx o p ->
  ro_numPayloadsBeingRead o <> 0 \/ ro_numTensorsBeingReceived o <> 0 -> ro_state o = 4%nat.
Proof. intros Hr Hn. destruct (decide (ro_state o = 4%nat)) as [|Hne]; [done|]. destruct (rk_idle _ _ _ Hr Hne). lia. Qed.

Lemma onPayloadRead_ok ctx P H G s k it :
  ctx_ok ctx -> read_ok ctx P H G s -> P !! k = Some (CbPayloadRead it) ->
  read_wp (onPayloadRead ctx it s) ctx (delete k P) H G.
Proof.
  intros Hctx ([first HI] & Hnf & Hst) Hk.
  destruct (pending_op ro_numPayloadsBeingRead CbPayloadRead P k it first (readOps_ s) Hk
    (ri_num _ _ _ _ _ _ HI) (ri_pp _ _ _ _ _ _ HI)) as (i & o & Ho & <- & Hp).
  pose proof (ri_ops _ _ _ _ _ _ HI i o Ho) as Hrok. pose proof (rk_num _ _ _ Hrok) as [[Ha Hb] Hc].
  pose proof (idle_state _ _ _ Hrok ltac:(lia)) as H4.
  assert (u64 (ro_numPayloadsBeingRead o - 1) = ro_numPayloadsBeingRead o - 1) as Hu
    by (apply u64_small; unfold is_u64; lia).
  unfold onPayloadRead. eapply modify_and_advance; try done.
  eapply rinv_modify; [done | done | done | done | done | | by right | | |].
  - destruct Hrok as [K1 K2 K3 K4 K5 K6 K7 K8 K9 K10 K11 K12 K13 K14 K15].
    split; simpl; try done; rewrite Hu; unfold is_u64 in *; lia.
  - eapply charge_other; [done | done | done].
  - eapply charge_delete; [done | done | by intros ? ? [=] | exact Hu].
  - eapply charge_other; [done | done | done].
Qed.

Lemma onTensorReceived_ok ctx P H G s k it :
  ctx_ok ctx -> read_ok ctx P H G s -> P !! k = Some (CbTensorRecv it) ->
  read_wp (onTensorReceived ctx it s) ctx (delete k P) H G.
Proof.
  intros Hctx ([first HI] & Hnf & Hst) Hk.
  destruct (pending_op ro_numTensorsBeingReceived CbTensorRecv P k it first (readOps_ s) Hk
    (ri_num _ _ _ _ _ _ HI) (ri_pt _ _ _ _ _ _ HI)) as (i & o & Ho & <- & Hp).
  pose proof (ri_ops _ _ _ _ _ _ HI i o Ho) as Hrok. pose proof (rk_num _ _ _ Hrok) as [Hc [Ha Hb]].
  pose proof (idle_state _ _ _ Hrok ltac:(lia)) as H4.
  assert (u64 (ro_numTensorsBeingReceived o - 1) = ro_numTensorsBeingReceived o - 1) as Hu
    by (apply u64_small; unfold is_u64; lia).
  unfold onTensorReceived. eapply modify_and_advance; try done.
  eapply rinv_modify; [done | done | done | done | done | | by right | | |].
  - destruct Hrok as [K1 K2 K3 K4 K5 K6 K7 K8 K9 K10 K11 K12 K13 K14 K15].
    split; simpl; try done; rewrite Hu; unfold is_u64 in *; lia.
  - eapply charge_other; [done | done | done].
  - eapply charge_other; [done | done | done].
  - eapply charge_delete; [done | done | by intros ? ? [=] | exact Hu].
Qed.

(** ** [readFromLoop] *)

(** The user may call [read] after a successful [readDescriptor] callback; the
    pipe is then expecting the call, for that message. *)
Lemma success_waiting ctx P H G s e d :
  read_ok ctx P H G s -> (Z.to_nat G, e, d) ∈ rd_calls H -> is_error e = false ->
  exists i o, readOps_ s !! i = Some o /\ ro_sequenceNumber o = G /\ waiting o /\ ro_descriptor o = d.
Proof.
  intros ([first HI] & Hnf & Hst) Hin He. pose proof (rinv_bounds _ _ _ _ _ _ HI) as (? & ? & ? & ?).
  pose proof (ri_G _ _ _ _ _ _ HI) as [Hb HG].
  apply list_elem_of_lookup in Hin as [k Hk].
  pose proof (f_equal (fun l => l !! k) (ri_h1 _ _ _ _ _ _ HI)) as Hk1. cbv beta in Hk1.
  rewrite list_lookup_fmap, Hk in Hk1. symmetry in Hk1. apply lookup_seq in Hk1 as [Hk1 Hlt]. simpl in Hk1.
  assert (k = Z.to_nat G) as -> by lia.
  pose proof (ri_next _ _ _ _ _ _ HI) as Hnext. pose proof (ri_num _ _ _ _ _ _ HI) as (_ & _ & Hs).
  destruct (lookup_lt_is_Some_2 (readOps_ s) (Z.to_nat (G - first))) as [o Ho]; [lia|].
  assert (ro_sequenceNumber o = G) as Hseq by (pose proof (Hs _ _ Ho) as Hx; simpl in Hx; lia).
  pose proof (ri_ops _ _ _ _ _ _ HI _ _ Ho) as Hrok.
  pose proof (ri_D _ _ _ _ _ _ HI) as (_ & HD). specialize (HD _ _ Ho). simpl in HD.
  assert (2 <= ro_state o)%nat as Hst2 by (apply HD; lia).
  destruct (ri_h3 _ _ _ _ _ _ HI _ _ Ho Hst2) as (e' & Hx & Hdone). rewrite Hseq, Hk in Hx.
  injection Hx as <- Hd. specialize (Hdone He).
  assert (ro_doneGettingAllocation o = false) as Hng.
  { destruct (ro_doneGettingAllocation o) eqn:Hg; [|done]. apply (HG _ _ Ho) in Hg. lia. }
  assert (ro_state o < 4)%nat as Hst4.
  { destruct (decide (4 <= ro_state o)%nat) as [Hx|]; [|lia]. apply (rk_got _ _ _ Hrok) in Hx. congruence. }
  destruct (rk_issued _ _ _ Hrok ltac:(tauto)) as [Hp _].
  exists (Z.to_nat (G - first)), o. split_and!; [done | done | | done]. split; [|done].
  destruct (decide (ro_state o = 2%nat)) as [Hx|]; [|lia]. exfalso.
  pose proof (Hst _ _ Ho I) as Hop. unfold op_stable, advanceReadOperation in Hop.
  do 3 apply Forall_cons in Hop as [_ Hop]. apply Forall_cons in Hop as [Hop _]. cbn [t_from t_cond] in Hop.
  apply andb_false_iff in Hop as [Hop|Hop]; [by apply Nat.eqb_neq in Hop|].
  rewrite Hdone in Hop. cbn [andb] in Hop. apply Nat.leb_gt in Hop.
  unfold ReadOperation.READING_PAYLOADS_AND_RECEIVING_TENSORS in Hop. lia.
Qed.

Lemma waiting_seq ctx P H G first s i o :
  rinv ctx P H G first s -> readOps_ s !! i = Some o -> waiting o -> ro_sequenceNumber o = G.
Proof.
  intros HI Ho [Hw1 Hw2]. pose proof (ri_G _ _ _ _ _ _ HI) as [Hb HG].
  pose proof (ri_num _ _ _ _ _ _ HI) as (_ & _ & Hs). pose proof (Hs _ _ Ho) as Hso. simpl in Hso.
  assert (G <= ro_sequenceNumber o) as Hge.
  { apply Z.nlt_ge. intros Hx. apply (HG _ _ Ho) in Hx. congruence. }
  destruct i as [|i]; [lia|].
  destruct (lookup_lt_is_Some_2 (readOps_ s) i) as [p Hp]; [apply lookup_lt_Some in Ho; lia|].
  pose proof (chain ctx P H G first s HI (S i) o i p Ho Hp ltac:(lia) ltac:(lia)) as H4.
  apply (rk_got _ _ _ (ri_ops _ _ _ _ _ _ HI _ _ Hp)), (HG _ _ Hp) in H4.
  pose proof (Hs _ _ Hp) as Hsp. simpl in Hsp. lia.
Qed.

Lemma readFromLoop_ok ctx P H G s e d allocation :
  ctx_ok ctx -> read_ok ctx P H G s -> (Z.to_nat G, e, d) ∈ rd_calls H -> is_error e = false ->
  checkAllocationCompatibility d allocation = Done tt ->
  read_wp (readFromLoop ctx allocation (Z.to_nat G) s) ctx P H (G + 1).
Proof.
  intros Hctx Hok Hin He Hc. pose proof (success_waiting _ _ _ _ _ _ _ Hok Hin He) as (i & o & Ho & Hseq & Hw & Hd).
  destruct Hok as ([first HI] & Hnf & Hst).
  pose proof (rinv_bounds _ _ _ _ _ _ HI) as (? & ? & ? & ?).
  pose proof (ri_ops _ _ _ _ _ _ HI _ _ Ho) as Hrok. pose proof Hw as [Hw1 Hw2].
  assert (nextMessageGettingAllocation_ s = Some G) as HA.
  { apply (ri_A _ _ _ _ _ _ HI). by exists i, o. }
  assert (deref G s = Done o) as Hderef
    by (rewrite <- Hseq; exact (op_deref ctx P H G first s HI i o Ho)).
  unfold readFromLoop. rewrite HA, Hderef, bind_done, Hd, Hc, bind_done.
  set (f := fun op : ReadOperation => op <| ro_allocation := allocation |>
                 <| ro_readCallback := Some (mkCallback (ro_sequenceNumber op) (Z.to_nat G)) |>
                 <| ro_doneGettingAllocation := true |>).
  set (s1 := s <| nextMessageGettingAllocation_ := None |>).
  assert (update_op G f s1 = Done (s1 <| readOps_ := <[i := f o]> (readOps_ s) |>)) as Hu.
  { rewrite <- Hseq. exact (update_here ctx P H G first s HI i o Ho f s1 eq_refl). }
  rewrite Hu, bind_done.
  set (s2 := s1 <| readOps_ := <[i := f o]> (readOps_ s) |>).
  assert (rinv ctx P H (G + 1) first s2) as HI2.
  { pose proof HI as [I1 I2 I3 I4 I5 I6 I7 [I8b I8] I9 I10 I11 I12 I13 I14 I15 I16 I17].
    pose proof (lookup_lt_Some _ _ _ Ho) as Hlt. destruct I1 as (_ & _ & Hs). pose proof (Hs _ _ Ho) as Hso. simpl in Hso.
    unfold s2, s1. rinv_fields; try done.
    - by apply (numbered_upd ctx P H G first s HI i o).
    - by rewrite length_insert.
    - apply (each_upd ctx P H G first s HI i o); [done | done|].
      destruct Hrok as [K1 K2 K3 K4 K5 K6 K7 K8 K9 K10 K11 K12 K13 K14 K15].
      split; simpl; try done; try lia; try (rewrite Hd; done).
      intros _ _. by rewrite Hseq.
    - by apply (stay_upd first s i o).
    - by apply (stay_upd first s i o).
    - by apply (M_upd ctx P H G first s HI i o).
    - split; [rewrite length_insert; lia|]. intros j q Hq.
      apply list_lookup_insert_Some in Hq as [(-> & <- & _)|[Hne Hq]]; [simpl; split; [done | lia]|].
      rewrite <- (I8 _ _ Hq). pose proof (Hs _ _ Hq) as Hsq. simpl in Hsq. split; [|lia].
      assert (j <> i) by done. lia.
    - intros it. split; [done|]. intros (j & q & Hq & _ & Hwq).
      apply list_lookup_insert_Some in Hq as [(-> & <- & _)|[Hne Hq]]; [by destruct Hwq|].
      pose proof (waiting_seq _ _ _ _ _ _ _ _ HI Hq Hwq) as Hx. pose proof (Hs _ _ Hq) as Hsq. simpl in Hsq.
      exfalso. apply Hne. lia.
    - intros it. rewrite (tally_upd s i o Ho); [done | done | done].
    - intros it. rewrite (tally_upd s i o Ho); [done | done | done].
    - intros it. rewrite (tally_upd s i o Ho); [done | done | done].
    - by apply (h3_upd ctx P H G first s HI i o). }
  assert (ro_sequenceNumber (f o) = G) as HfG by exact Hseq. rewrite <- HfG at 1.
  apply (advance_read ctx P H (G + 1) first s2 i (f o)); [done | done | | |].
  - apply Forall_insert; [done|]. change (ro_state o < 5)%nat. lia.
  - by apply list_lookup_insert_eq, lookup_lt_Some with o.
  - change (ro_sequenceNumber (f o)) with (ro_sequenceNumber o).
    by apply (stable_modify (H := read_operation)).
Qed.

(** ** Changing the context *)

(** The pipe's state reaches [ESTABLISHED] and its error is set, once each. *)
Definition ctx_later (ctx ctx' : PipeCtx) : Prop :=
  (px_state ctx = ESTABLISHED -> px_state ctx' = ESTABLISHED) /\
  (is_error (px_error ctx') = false -> is_error (px_error ctx) = false).

Lemma rinv_ctx ctx ctx' P H G first s :
  ctx_later ctx ctx' -> rinv ctx P H G first s -> rinv ctx' P H G first s.
Proof.
  intros [Hs He] HI. destruct HI as [I1 I2 I3 I4 I5 I6 I7 I8 I9 I10 I11 I12 I13 I14 I15 I16 I17].
  split; try done; [|intros Hx; by apply I6, He].
  intros i o Ho. destruct (I3 i o Ho) as [K1 K2 K3 K4 K5 K6 K7 K8 K9 K10 K11 K12 K13 K14 K15].
  split; try done; [|intros Hx; by apply K14, He]. intros Hi. destruct (K1 Hi). split; [done | by apply Hs].
Qed.

(** Other traffic of the pipe does not matter here. *)
Lemma rinv_frame ctx P P' H calls G first s :
  rinv ctx P H G first s -> rd_calls calls = [] -> r_calls calls = [] -> recv_items calls = [] -> read_items calls = [] ->
  (forall it, occ (CbDescriptor it) P' = occ (CbDescriptor it) P /\
     occ (CbPayloadRead it) P' = occ (CbPayloadRead it) P /\ occ (CbTensorRecv it) P' = occ (CbTensorRecv it) P) ->
  rinv ctx P' (H ++ calls) G first s.
Proof.
  intros HI E1 E2 E3 E4 HP. destruct HI as [I1 I2 I3 I4 I5 I6 I7 I8 I9 I10 I11 I12 I13 I14 I15 I16 I17].
  split; try done; rewrite ?descs_app; unfold descs;
    rewrite ?rd_calls_app, ?r_calls_app, ?read_items_app, ?recv_items_app, ?E1, ?E2, ?E3, ?E4; simpl; rewrite ?app_nil_r; try done.
  - intros it. by rewrite (proj1 (HP it)).
  - intros it. by rewrite (proj1 (proj2 (HP it))).
  - intros it. by rewrite (proj2 (proj2 (HP it))).
Qed.

(** ** Nothing is left behind *)

Definition no_read_callbacks (P : list cb) : Prop :=
  forall it, occ (CbDescriptor it) P = 0 /\ occ (CbPayloadRead it) P = 0 /\ occ (CbTensorRecv it) P = 0.

Lemma quiet_op ctx P H G first s i o :
  rinv ctx P H G first s -> no_read_callbacks P -> readOps_ s !! i = Some o ->
  desc_pending o = 0 /\ ro_numPayloadsBeingRead o = 0 /\ ro_numTensorsBeingReceived o = 0.
Proof.
  intros HI Hq Ho. destruct (Hq (ro_sequenceNumber o)) as (Q1 & Q2 & Q3).
  pose proof (ri_num _ _ _ _ _ _ HI) as Hn.
  rewrite (ri_pd _ _ _ _ _ _ HI) in Q1. rewrite (ri_pp _ _ _ _ _ _ HI) in Q2. rewrite (ri_pt _ _ _ _ _ _ HI) in Q3.
  pose proof (fun f => tally_at (H := read_operation) f first _ i o Hn Ho) as Ht.
  cbn [op_seq read_operation] in Ht. rewrite Ht in Q1, Q2, Q3. done.
Qed.

(** No operation that got its [read] call is left. *)
Lemma quiet_reads ctx P H G s :
  read_ok ctx P H G s -> no_read_callbacks P -> nextReadCallbackToCall_ s = G.
Proof.
  intros ([first HI] & Hnf & Hst) Hq. pose proof (ri_G _ _ _ _ _ _ HI) as [Hb HG].
  pose proof (ri_R _ _ _ _ _ _ HI) as [HRb HR].
  assert (G = first) as ->.
  { destruct (decide (G = first)) as [|Hne]; [done|]. exfalso.
    destruct (lookup_lt_is_Some_2 (readOps_ s) 0) as [o Ho]; [lia|].
    pose proof (ri_num _ _ _ _ _ _ HI) as (_ & _ & Hs). pose proof (Hs _ _ Ho) as Hso. simpl in Hso.
    assert (ro_doneGettingAllocation o = true) as Hg by (apply (HG _ _ Ho); lia).
    pose proof (ri_ops _ _ _ _ _ _ HI _ _ Ho) as Hrok. pose proof (rk_get _ _ _ Hrok Hg) as H3.
    pose proof (proj1 (Forall_lookup _ _) Hnf _ _ Ho) as H5. change (ro_state o < 5)%nat in H5.
    destruct (quiet_op _ _ _ _ _ _ _ _ HI Hq Ho) as (_ & Hz1 & Hz2).
    pose proof (Hst _ _ Ho I) as Hop. simpl in Hop.
    destruct (decide (ro_state o = 4%nat)) as [H4|H4].
    - pose proof (row_disabled (H := read_operation) _ o _ 7 _ Hop eq_refl H4) as Hx.
      cbn [t_cond] in Hx. by rewrite Hz1, Hz2 in Hx.
    - assert (ro_state o = 3%nat) as H3' by lia.
      pose proof (row_disabled (H := read_operation) _ o _ 4 _ Hop eq_refl H3') as Hx1.
      pose proof (row_disabled (H := read_operation) _ o _ 5 _ Hop eq_refl H3') as Hx2.
      pose proof (row_disabled (H := read_operation) _ o _ 6 _ Hop eq_refl H3') as Hx3.
      cbn [t_cond] in Hx1, Hx2, Hx3. rewrite Hg in Hx1, Hx2, Hx3.
      destruct (error ctx), (ro_hasMissingTargetDevices o); done. }
  destruct (decide (nextReadCallbackToCall_ s = first)) as [|Hne]; [done|]. exfalso.
  destruct (lookup_lt_is_Some_2 (readOps_ s) 0) as [o Ho]; [lia|].
  pose proof (ri_num _ _ _ _ _ _ HI) as (_ & _ & Hs). pose proof (Hs _ _ Ho) as Hso. simpl in Hso.
  pose proof (proj1 (Forall_lookup _ _) Hnf _ _ Ho) as H5. change (ro_state o < 5)%nat in H5.
  pose proof (proj1 (HR _ _ Ho) ltac:(simpl; lia)) as HR'. simpl in HR'. lia.
Qed.

(** After an error every [readDescriptor] callback is called. *)
Lemma quiet_descriptors_error ctx P H G s :
  read_ok ctx P H G s -> no_read_callbacks P -> is_error (px_error ctx) = true ->
  nextReadDescriptorCallbackToCall_ s = nextMessageBeingRead_ s.
Proof.
  intros ([first HI] & Hnf & Hst) Hq He. rewrite (ri_next _ _ _ _ _ _ HI).
  apply (thresh_all (H := read_operation) 2); [apply HI | apply HI|]. apply Forall_lookup. intros i.
  induction i as [|i IH]; intros o Ho; simpl.
  all: pose proof (Hst _ _ Ho I) as Hop; simpl in Hop;
    destruct (quiet_op _ _ _ _ _ _ _ _ HI Hq Ho) as (Hd & _); unfold desc_pending in Hd;
    destruct (decide (2 <= ro_state o)%nat) as [|Hlt]; [done|]; exfalso;
    destruct (decide (ro_state o = 0%nat)) as [H0|H0];
    [pose proof (row_disabled (H := read_operation) _ o _ 0 _ Hop eq_refl H0) as Hx
    |assert (ro_state o = 1%nat) as H1 by lia;
     pose proof (row_disabled (H := read_operation) _ o _ 2 _ Hop eq_refl H1) as Hx;
     rewrite H1 in Hd; destruct (ro_doneReadingDescriptor o) eqn:Hdone; [|done]];
    cbn [t_cond] in Hx; unfold error in Hx; rewrite ?He, ?Hdone in Hx; cbn [andb] in Hx; apply Nat.leb_gt in Hx;
    unfold ReadOperation.ASKING_FOR_ALLOCATION in Hx.
  - change (5 < 2)%nat in Hx. lia.
  - change (5 < 2)%nat in Hx. lia.
  - cbn [prev_state] in Hx. destruct (readOps_ s !! i) as [p|]; [|change (5 < 2)%nat in Hx; lia].
    pose proof (IH p eq_refl) as Hp. simpl in Hx, Hp. lia.
  - cbn [prev_state] in Hx. destruct (readOps_ s !! i) as [p|]; [|change (5 < 2)%nat in Hx; lia].
    pose proof (IH p eq_refl) as Hp. simpl in Hx, Hp. lia.
Qed.

(** Without an error, the pipe has announced the next message, if the user
    asked for it and it arrived. *)
Lemma quiet_descriptors ctx P H G s :
  read_ok ctx P H G s -> no_read_callbacks P -> is_error (px_error ctx) = false -> px_state ctx = ESTABLISHED ->
  nextReadDescriptorCallbackToCall_ s = Z.min (nextMessageBeingRead_ s) (G + 1).
Proof.
  intros Hok Hq He Hest. pose proof (quiet_reads _ _ _ _ _ Hok Hq) as HRG.
  destruct Hok as ([first HI] & Hnf & Hst).
  pose proof (ri_G _ _ _ _ _ _ HI) as [Hb HG]. pose proof (ri_R _ _ _ _ _ _ HI) as [HRb HR].
  pose proof (ri_D _ _ _ _ _ _ HI) as [HDb HD]. pose proof (ri_next _ _ _ _ _ _ HI) as Hnext.
  pose proof (ri_num _ _ _ _ _ _ HI) as (_ & _ & Hs).
  assert (G = first) as HGf.
  { destruct (decide (G = first)) as [|Hne]; [done|]. exfalso.
    destruct (lookup_lt_is_Some_2 (readOps_ s) 0) as [o Ho]; [lia|].
    pose proof (Hs _ _ Ho) as Hso. simpl in Hso.
    pose proof (proj1 (Forall_lookup _ _) Hnf _ _ Ho) as H5. change (ro_state o < 5)%nat in H5.
    pose proof (proj1 (HR _ _ Ho) ltac:(simpl; lia)) as HR'. simpl in HR'. lia. }
  destruct (decide (length (readOps_ s) = 0%nat)) as [Hl|Hl]; [lia|].
  destruct (lookup_lt_is_Some_2 (readOps_ s) 0) as [o Ho]; [lia|].
  pose proof (Hs _ _ Ho) as Hso. simpl in Hso. pose proof (Hst _ _ Ho I) as Hop. simpl in Hop.
  destruct (quiet_op _ _ _ _ _ _ _ _ HI Hq Ho) as (Hd & _). unfold desc_pending in Hd.
  assert (2 <= ro_state o)%nat as H2.
  { destruct (decide (2 <= ro_state o)%nat) as [|Hlt]; [done|]. exfalso.
    destruct (decide (ro_state o = 0%nat)) as [H0|H0].
    - pose proof (row_disabled (H := read_operation) _ o _ 1 _ Hop eq_refl H0) as Hx. cbn [t_cond] in Hx.
      unfold error, established in Hx. by rewrite He, Hest in Hx.
    - assert (ro_state o = 1%nat) as H1 by lia.
      pose proof (row_disabled (H := read_operation) _ o _ 2 _ Hop eq_refl H1) as Hx. cbn [t_cond] in Hx.
      rewrite H1 in Hd. destruct (ro_doneReadingDescriptor o); [by rewrite andb_true_l in Hx | done]. }
  assert (first < nextReadDescriptorCallbackToCall_ s) as Hlo by (pose proof (proj2 (HD _ _ Ho) H2); simpl in *; lia).
  assert (ro_state o < 4)%nat as H4.
  { destruct (decide (4 <= ro_state o)%nat) as [Hx|]; [|lia]. exfalso.
    apply (rk_got _ _ _ (ri_ops _ _ _ _ _ _ HI _ _ Ho)), (HG _ _ Ho) in Hx. lia. }
  assert (nextReadDescriptorCallbackToCall_ s <= first + 1) as Hhi; [|lia].
  apply Z.nlt_ge. intros Hx. destruct (lookup_lt_is_Some_2 (readOps_ s) 1) as [p Hp]; [lia|].
  pose proof (Hs _ _ Hp) as Hsp. simpl in Hsp.
  assert (2 <= ro_state p)%nat as Hp2 by (apply (HD _ _ Hp); simpl; lia).
  pose proof (ri_ops _ _ _ _ _ _ HI _ _ Hp) as Hrok. pose proof (rk_clean _ _ _ Hrok He Hp2) as Hdone.
  destruct (rk_issued _ _ _ Hrok ltac:(tauto)) as [Hprev _]. simpl in Hprev. rewrite Ho in Hprev. simpl in Hprev. lia.
Qed.

(** The [read] callbacks called do not outnumber the [read] calls. *)
Lemma read_ok_reads_le ctx P H G s : read_ok ctx P H G s -> nextReadCallbackToCall_ s <= G.
Proof.
  intros ([first HI] & Hnf & _). pose proof (ri_G _ _ _ _ _ _ HI) as [Hb HG].
  pose proof (ri_R _ _ _ _ _ _ HI) as [HRb HR]. pose proof (ri_num _ _ _ _ _ _ HI) as (_ & _ & Hs).
  destruct (decide (nextReadCallbackToCall_ s = first)) as [->|Hne]; [lia|]. exfalso.
  destruct (lookup_lt_is_Some_2 (readOps_ s) 0) as [o Ho]; [lia|].
  pose proof (Hs _ _ Ho) as Hso. simpl in Hso.
  pose proof (proj1 (Forall_lookup _ _) Hnf _ _ Ho) as H5. change (ro_state o < 5)%nat in H5.
  pose proof (proj1 (HR _ _ Ho) ltac:(simpl; lia)) as HR'. simpl in HR'. lia.
Qed.
