(* ===== verification/PipeWrite.v ===== *)
(** * The write side of a pipe

    The write operations of [core/pipe_impl.cc]: their transitions, the actions
    those perform, and the entry points and callbacks that drive them. *)

From S2P Require Import Prelude Messages Select PipeBase OpsStateMachine OpsInvariants PipeRead.
Import WriteOperation.

Record WriteSide := mkWriteSide {
  writeOps_ : list WriteOperation;
  nextMessageBeingWritten_ : Z;
  nextWriteCallbackToCall_ : Z;
}.
#[export] Instance eta_WriteSide : Eta WriteSide := fun s =>
  mkWriteSide (writeOps_ s) (nextMessageBeingWritten_ s) (nextWriteCallbackToCall_ s).

Definition newWriteSide : WriteSide := mkWriteSide [] 0 0.

#[export] Instance write_operation : Operation WriteOperation := {
  op_seq := wo_sequenceNumber;
  op_state := wo_state;
  op_put_state n o := o <| wo_state := n |>;
  FINISHED := WriteOperation.FINISHED;
}.
#[export] Instance write_machine : OpsMachine WriteSide WriteOperation := {
  get_ops := writeOps_;
  put_ops l s := s <| writeOps_ := l |>;
}.
#[export] Instance write_machine_laws : OpsMachineLaws WriteSide WriteOperation.
Proof. split; try done. by intros []. Qed.

Section Actions.
Variable ctx : PipeCtx.

Definition write_action : Type := Z -> WriteSide -> outcome (WriteSide * list pcall).

Definition callWriteCallback : write_action := fun it s =>
  op ← deref it s;
  f ← get_callback (wo_writeCallback op);
  _ ← tp_check (cb_seq f =? nextWriteCallbackToCall_ s);
  s' ← update_op it (fun op => op <| wo_writeCallback := None |>)
         (s <| nextWriteCallbackToCall_ ::= fun n => u64 (n + 1) |>);
  Done (s', [UserWrite (cb_fn f) (px_error ctx)]).

Definition writeDescriptorOfMessage : write_action := fun it s =>
  op ← deref it s;
  d ← makeDescriptorForMessage op;
  Done (s, [ConnWriteDescriptor (px_descriptorConnection ctx) d]).

(** The loop over the payloads. *)
Definition write_payloads (it : Z) (payloads : list MsgPayload) : list pcall :=
  (fun p => ConnWritePayload (px_descriptorConnection ctx) (mp_data p) (mp_length p) it) <$> payloads.

Definition writePayloadsOfMessage : write_action := fun it s =>
  op ← deref it s;
  let calls := write_payloads it (m_payloads (wo_message op)) in
  s' ← update_op it (fun op => op <| wo_numPayloadsBeingWritten ::= fun n => u64 (n + Z.of_nat (length calls)) |>) s;
  Done (s', calls).

Definition readDescriptorReplyOfMessage : write_action := fun it s =>
  op ← deref it s;
  _ ← tp_check (wo_hasMissingTargetDevices op);
  c ← reply_connection ctx;
  Done (s, [ConnReadReply c it]).

(** The loop over the tensors. *)
Fixpoint send_tensors (it : Z) (tensors : list MsgTensor) (sent : list WriteTensor) : outcome (list pcall) :=
  match tensors, sent with
  | [], _ => Done []
  | _ :: _, [] => Throw ExDangling
  | t :: tensors, w :: sent =>
      match wt_targetDevice w with
      | None => Throw ExAssert
      | Some remoteDevice =>
          name ← find_channel ctx (wt_sourceDevice w) remoteDevice;
          r ← send_tensors it tensors sent;
          Done (ChanSend name (mt_buffer t) (mt_length t) it :: r)
      end
  end.

Definition sendTensorsOfMessage : write_action := fun it s =>
  op ← deref it s;
  _ ← tp_check (length (m_tensors (wo_message op)) =? length (wo_tensors op))%nat;
  calls ← send_tensors it (m_tensors (wo_message op)) (wo_tensors op);
  s' ← update_op it (fun op => op <| wo_numTensorsBeingSent ::= fun n => u64 (n + Z.of_nat (length calls)) |>) s;
  Done (s', calls).

Definition advanceWriteOperation : list (@transition WriteSide WriteOperation pcall) := [
    mkTransition UNINITIALIZED WriteOperation.FINISHED
      (fun op prev => error ctx && (WriteOperation.FINISHED <=? prev)%nat)
      [callWriteCallback];
    mkTransition UNINITIALIZED WRITING_PAYLOADS_AND_SENDING_TENSORS
      (fun op prev => negb (error ctx) && established ctx && negb (wo_hasMissingTargetDevices op) &&
                      (WRITING_PAYLOADS_AND_SENDING_TENSORS <=? prev)%nat)
      [writeDescriptorOfMessage; writePayloadsOfMessage; sendTensorsOfMessage];
    mkTransition UNINITIALIZED WRITING_PAYLOADS_AND_READING_TARGET_DEVICES
      (fun op prev => negb (error ctx) && established ctx && wo_hasMissingTargetDevices op &&
                      (WRITING_PAYLOADS_AND_READING_TARGET_DEVICES <=? prev)%nat)
      [writeDescriptorOfMessage; writePayloadsOfMessage; readDescriptorReplyOfMessage];
    mkTransition WRITING_PAYLOADS_AND_READING_TARGET_DEVICES WriteOperation.FINISHED
      (fun op prev => error ctx && (wo_numPayloadsBeingWritten op =? 0) && wo_doneReadingDescriptorReply op &&
                      (WriteOperation.FINISHED <=? prev)%nat)
      [callWriteCallback];
    mkTransition WRITING_PAYLOADS_AND_READING_TARGET_DEVICES WRITING_PAYLOADS_AND_SENDING_TENSORS
      (fun op prev => negb (error ctx) && wo_doneReadingDescriptorReply op &&
                      (WRITING_PAYLOADS_AND_SENDING_TENSORS <=? prev)%nat)
      [sendTensorsOfMessage];
    mkTransition WRITING_PAYLOADS_AND_SENDING_TENSORS WriteOperation.FINISHED
      (fun op prev => (wo_numPayloadsBeingWritten op =? 0) && (wo_numTensorsBeingSent op =? 0) &&
                      (WriteOperation.FINISHED <=? prev)%nat)
      [callWriteCallback]
  ].

(** ** Entry points and callbacks *)

Definition writeFromLoop (message : Message) (fn : nat) (s : WriteSide) : outcome (WriteSide * list pcall) :=
  let seq := nextMessageBeingWritten_ s in
  let s := emplaceBack (newWriteOperation seq) (s <| nextMessageBeingWritten_ := u64 (seq + 1) |>) in
  s ← update_op seq (fun op =>
        op <| wo_tensors := write_tensor <$> m_tensors message |>
           <| wo_hasMissingTargetDevices := missing_target mt_targetDevice (m_tensors message) |>
           <| wo_message := message |>
           <| wo_writeCallback := Some (mkCallback seq fn) |>) s;
  advanceOperation advanceWriteOperation seq s.

Definition onPayloadWritten (it : Z) (s : WriteSide) : outcome (WriteSide * list pcall) :=
  s ← update_op it (fun op => op <| wo_numPayloadsBeingWritten ::= fun n => u64 (n - 1) |>) s;
  advanceOperation advanceWriteOperation it s.

Definition onTensorSent (it : Z) (s : WriteSide) : outcome (WriteSide * list pcall) :=
  s ← update_op it (fun op => op <| wo_numTensorsBeingSent ::= fun n => u64 (n - 1) |>) s;
  advanceOperation advanceWriteOperation it s.

Definition onDescriptorReplyRead (it : Z) (reply : DescriptorReply) (s : WriteSide)
    : outcome (WriteSide * list pcall) :=
  s ← update_op it (fun op => op <| wo_doneReadingDescriptorReply := true |>) s;
  s ← (if error ctx then Done s
       else
         op ← deref it s;
         op' ← parseDescriptorReplyOfMessage op reply;
         update_op it (fun _ => op') s);
  advanceOperation advanceWriteOperation it s.

Definition advanceAllWrites (s : WriteSide) : outcome (WriteSide * list pcall) :=
  advanceAllOperations advanceWriteOperation s.
End Actions.
