(* ===== verification/PipeWriteInv.v ===== *)
(** * The invariant of the write side, and that every transition keeps it *)

From S2P Require Import Prelude Messages Select PipeBase OpsStateMachine OpsInvariants PipeRead PipeReadInv.
From S2P Require Import PipeWrite.

(** ** Projections of the history *)

Definition write_item (c : pcall) : option item :=
  match c with
  | ConnWriteDescriptor _ _ => Some ItemDescriptor
  | ConnWritePayload _ _ len _ => Some (ItemPayload len)
  | _ => None
  end.
Definition wdesc (c : pcall) : option Descriptor :=
  match c with ConnWriteDescriptor _ d => Some d | _ => None end.
Definition send_item (c : pcall) : option Z :=
  match c with ChanSend _ _ len _ => Some len | _ => None end.
Definition w_call (c : pcall) : option nat :=
  match c with UserWrite fn _ => Some fn | _ => None end.
Definition reply_read (c : pcall) : option Z :=
  match c with ConnReadReply _ it => Some it | _ => None end.

Definition write_items (h : list pcall) : list item := omap write_item h.
Definition wdescs (h : list pcall) : list Descriptor := omap wdesc h.
Definition send_items (h : list pcall) : list Z := omap send_item h.
Definition w_calls (h : list pcall) : list nat := omap w_call h.

Lemma write_items_app h h' : write_items (h ++ h') = write_items h ++ write_items h'.
Proof. apply omap_app. Qed.
Lemma wdescs_app h h' : wdescs (h ++ h') = wdescs h ++ wdescs h'.
Proof. apply omap_app. Qed.
Lemma send_items_app h h' : send_items (h ++ h') = send_items h ++ send_items h'.
Proof. apply omap_app. Qed.
Lemma w_calls_app h h' : w_calls (h ++ h') = w_calls h ++ w_calls h'.
Proof. apply omap_app. Qed.

Definition tensor_lens (m : Message) : list Z := mt_length <$> m_tensors m.

(** ** One operation *)

Record wop_ok (ctx : PipeCtx) (o : WriteOperation) (prev : nat) : Prop := {
  wk_prev : (wo_state o <= prev)%nat;
  wk_est : (1 <= wo_state o < 3)%nat -> px_state ctx = ESTABLISHED;
  wk_cb : (wo_state o < 3)%nat ->
    wo_writeCallback o = Some (mkCallback (wo_sequenceNumber o) (Z.to_nat (wo_sequenceNumber o)));
  wk_len : length (wo_tensors o) = length (m_tensors (wo_message o));
  wk_fresh : wo_doneReadingDescriptorReply o = false -> wo_tensors o = write_tensor <$> m_tensors (wo_message o);
  wk_miss : wo_hasMissingTargetDevices o = missing_target mt_targetDevice (m_tensors (wo_message o));
  wk_targets : is_error (px_error ctx) = false ->
    wo_hasMissingTargetDevices o = false \/ wo_doneReadingDescriptorReply o = true ->
    Forall (fun w => is_Some (wt_targetDevice w)) (wo_tensors o);
  wk_done : wo_doneReadingDescriptorReply o = true -> (1 <= wo_state o)%nat;
  wk_num : is_u64 (wo_numPayloadsBeingWritten o) /\ is_u64 (wo_numTensorsBeingSent o);
  wk_idle_p : wo_state o = 0%nat \/ wo_state o = 3%nat -> wo_numPayloadsBeingWritten o = 0;
  wk_idle_t : wo_state o <> 2%nat -> wo_numTensorsBeingSent o = 0;
  wk_size : Z.of_nat (length (m_payloads (wo_message o))) < 2 ^ 64 /\
            Z.of_nat (length (m_tensors (wo_message o))) < 2 ^ 64;
}.

Lemma wop_ok_mono ctx o p p' : wop_ok ctx o p -> (p <= p')%nat -> wop_ok ctx o p'.
Proof. intros [] Hle. split; try done. lia. Qed.

Definition reply_pending (o : WriteOperation) : Z :=
  if (wo_state o =? 1)%nat && negb (wo_doneReadingDescriptorReply o) then 1 else 0.

(** [K] messages have been written to the connection, and the tensors of [K2]
    of them given to the channels. *)
Record winv (ctx : PipeCtx) (P : list cb) (H : list pcall) (msgs : list Message) (K K2 first : Z) (s : WriteSide)
    : Prop := {
  wi_num : numbered first (writeOps_ s);
  wi_next : nextMessageBeingWritten_ s = first + Z.of_nat (length (writeOps_ s));
  wi_ops : each (wop_ok ctx) (writeOps_ s);
  wi_W : thresh 3 (nextWriteCallbackToCall_ s) first (writeOps_ s);
  wi_len : Z.of_nat (length msgs) = nextMessageBeingWritten_ s;
  wi_msgs : forall i o, writeOps_ s !! i = Some o -> msgs !! Z.to_nat (wo_sequenceNumber o) = Some (wo_message o);
  wi_K : 0 <= K2 <= K /\ K <= nextMessageBeingWritten_ s;
  wi_K1t : is_error (px_error ctx) = false -> thresh 1 K first (writeOps_ s);
  wi_K2t : is_error (px_error ctx) = false -> thresh 2 K2 first (writeOps_ s);
  wi_pp : forall it, occ (CbPayloadWritten it) P = tally wo_numPayloadsBeingWritten it (writeOps_ s);
  wi_pt : forall it, occ (CbTensorSent it) P = tally wo_numTensorsBeingSent it (writeOps_ s);
  wi_pr : forall it, occ (CbReply it) P = tally reply_pending it (writeOps_ s);
  wi_h1 : w_calls H = seq 0 (Z.to_nat (nextWriteCallbackToCall_ s));
  wi_h2 : write_items H = mjoin ((fun m => frame (descriptor_of m)) <$> take (Z.to_nat K) msgs);
  wi_h3 : wdescs H = descriptor_of <$> take (Z.to_nat K) msgs;
  wi_h4 : send_items H = mjoin (tensor_lens <$> take (Z.to_nat K2) msgs);
}.

Lemma winv_bounds ctx P H msgs K K2 first s :
  winv ctx P H msgs K K2 first s ->
  0 <= first /\ nextMessageBeingWritten_ s < 2 ^ 63 /\ first <= nextWriteCallbackToCall_ s <= nextMessageBeingWritten_ s.
Proof. intros [(? & ? & _) ? _ [? _]]. lia. Qed.

(** Proves [winv] field by field, with the projections computed. *)
Ltac winv_fields :=
  split; cbn [writeOps_ nextMessageBeingWritten_ nextWriteCallbackToCall_ field_update];
  rewrite ?cbs_of_app, ?w_calls_app, ?write_items_app, ?wdescs_app, ?send_items_app;
  cbn [cbs_of omap list_omap cb_of w_calls write_items wdescs send_items w_call write_item wdesc send_item];
  rewrite ?app_nil_r.
