(* ===== verification/PipeWriteRows.v ===== *)
(** * Every write transition keeps the invariant *)

From S2P Require Import Prelude Messages Select PipeBase OpsStateMachine OpsInvariants PipeRead PipeReadInv.
From S2P Require Import PipeWrite PipeWriteInv.

(** ** The calls made for the payloads and tensors of a message *)

Lemma write_payloads_ok ctx it ps :
  let calls := write_payloads ctx it ps in
  length calls = length ps /\ write_items calls = (fun p => ItemPayload (dp_length p)) <$> (payload_descriptor <$> ps) /\
  (forall x, occ x (cbs_of calls) = if decide (x = CbPayloadWritten it) then Z.of_nat (length ps) else 0) /\
  w_calls calls = [] /\ wdescs calls = [] /\ send_items calls = [].
Proof.
  induction ps as [|p ps IH]; cbv zeta in *.
  - split_and!; try done. intros x. by destruct (decide _).
  - destruct IH as (I1 & I2 & I3 & I4 & I5 & I6). unfold write_payloads in *. rewrite !fmap_cons.
    split_and!; simpl; [by rewrite I1 | by f_equal | | done | done | done].
    intros x. rewrite occ_cons. unfold cbs_of in I3. rewrite I3.
    destruct (decide (x = CbPayloadWritten it)) as [->|Hx]; [rewrite decide_True by done; lia|].
    by rewrite decide_False by congruence.
Qed.

Record sent_calls (it : Z) (ts : list MsgTensor) (calls : list pcall) : Prop := {
  sc_len : length calls = length ts;
  sc_items : send_items calls = mt_length <$> ts;
  sc_occ : forall x, occ x (cbs_of calls) = if decide (x = CbTensorSent it) then Z.of_nat (length ts) else 0;
  sc_none : w_calls calls = [] /\ wdescs calls = [] /\ write_items calls = [];
}.

Lemma send_tensors_ok ctx it ts : ctx_ok ctx -> px_state ctx = ESTABLISHED -> forall ws,
  length ws = length ts -> Forall (fun w => is_Some (wt_targetDevice w)) ws ->
  wp (send_tensors ctx it ts ws) (fun e => e = no_channel) (sent_calls it ts).
Proof.
  intros Hctx Hest. induction ts as [|t ts IH]; intros [|w ws] Hl Hf; try done.
  - split; try done. intros x. by destruct (decide _).
  - apply Forall_cons in Hf as [[dev Hw] Hf]. simpl. rewrite Hw.
    apply wp_bind, find_channel_ok; [done..|]. intros name _. apply wp_bind.
    eapply wp_mono; [apply IH; [simpl in Hl; lia | done]|]. intros calls [P1 P2 P3 (P4 & P5 & P6)]. split; simpl.
    + by rewrite P1.
    + f_equal. exact P2.
    + intros x. rewrite occ_cons. change (omap cb_of calls) with (cbs_of calls). rewrite P3.
      destruct (decide (x = CbTensorSent it)) as [->|Hx]; [rewrite decide_True by done; lia|].
      rewrite decide_False by congruence. done.
    + done.
Qed.

Section Rows.
Context (ctx : PipeCtx) (P : list cb) (H : list pcall) (msgs : list Message) (K K2 first : Z) (s : WriteSide).
Context (HI : winv ctx P H msgs K K2 first s) (i : nat) (o : WriteOperation).
Context (Ho : writeOps_ s !! i = Some o).

Abbreviation ops := (writeOps_ s).
Abbreviation prev := (prev_state i ops).

Lemma w_deref : deref (wo_sequenceNumber o) s = Done o.
Proof. exact (deref_at (H := write_operation) first s i o (wi_num _ _ _ _ _ _ _ _ HI) Ho). Qed.

Lemma w_ok : wop_ok ctx o prev.
Proof. by apply (wi_ops _ _ _ _ _ _ _ _ HI). Qed.

Lemma w_range : first <= wo_sequenceNumber o < nextMessageBeingWritten_ s /\
  wo_sequenceNumber o = first + Z.of_nat i.
Proof.
  pose proof (wi_num _ _ _ _ _ _ _ _ HI) as (_ & _ & Hs). pose proof (Hs _ _ Ho) as Hx. simpl in Hx.
  rewrite (wi_next _ _ _ _ _ _ _ _ HI). pose proof (lookup_lt_Some _ _ _ Ho). lia.
Qed.

Lemma w_each o' : (wo_state o <= wo_state o')%nat -> wop_ok ctx o' prev -> each (wop_ok ctx) (<[i := o']> ops).
Proof.
  intros. eapply (each_insert (H := write_operation)); [exact (wop_ok_mono ctx) | apply HI | done | done | done].
Qed.

Lemma w_numbered o' : wo_sequenceNumber o' = wo_sequenceNumber o -> numbered first (<[i := o']> ops).
Proof. intros. by eapply (numbered_insert (H := write_operation)); [apply HI | done |]. Qed.

Lemma w_stay k n o' :
  thresh k n first ops -> wo_sequenceNumber o' = wo_sequenceNumber o ->
  ((k <= wo_state o)%nat <-> (k <= wo_state o')%nat) -> thresh k n first (<[i := o']> ops).
Proof. intros. by eapply (thresh_stay (H := write_operation)). Qed.

Lemma w_up k n o' :
  thresh k n first ops -> wo_sequenceNumber o' = wo_sequenceNumber o -> wo_sequenceNumber o = n ->
  (k <= wo_state o')%nat -> thresh k (n + 1) first (<[i := o']> ops).
Proof. intros. eapply (thresh_up (H := write_operation)); [done | apply HI | done..]. Qed.

Lemma w_here k n :
  thresh k n first ops -> (k <= 3)%nat -> (wo_state o < k)%nat -> (k <= prev)%nat -> wo_sequenceNumber o = n.
Proof.
  intros Ht Hk. exact (thresh_here (H := write_operation) k n first ops i o Ht (wi_num _ _ _ _ _ _ _ _ HI) Hk Ho).
Qed.

Lemma w_msgs o' :
  wo_sequenceNumber o' = wo_sequenceNumber o -> wo_message o' = wo_message o ->
  forall j q, <[i := o']> ops !! j = Some q -> msgs !! Z.to_nat (wo_sequenceNumber q) = Some (wo_message q).
Proof.
  intros Hs Hm j q Hq. apply list_lookup_insert_Some in Hq as [(-> & <- & _)|[_ Hq]].
  - rewrite Hs, Hm. by apply (wi_msgs _ _ _ _ _ _ _ _ HI j).
  - by apply (wi_msgs _ _ _ _ _ _ _ _ HI j).
Qed.

Lemma w_tally (f : WriteOperation -> Z) o' it :
  wo_sequenceNumber o' = wo_sequenceNumber o ->
  tally f it (<[i := o']> ops) = tally f it ops + (if decide (wo_sequenceNumber o = it) then f o' - f o else 0).
Proof. intros Hs. exact (tally_insert (H := write_operation) f it ops i o o' Ho Hs). Qed.

Lemma w_tally_same (f : WriteOperation -> Z) o' it :
  wo_sequenceNumber o' = wo_sequenceNumber o -> f o' = f o -> tally f it (<[i := o']> ops) = tally f it ops.
Proof. intros Hs Hf. rewrite (w_tally f o' it Hs), Hf. destruct (decide _); lia. Qed.

Lemma w_update (f : WriteOperation -> WriteOperation) (s' : WriteSide) (o0 : WriteOperation) :
  writeOps_ s' = <[i := o0]> ops -> wo_sequenceNumber o0 = wo_sequenceNumber o ->
  deref (wo_sequenceNumber o) s' = Done o0 /\
  update_op (wo_sequenceNumber o) f s' = Done (s' <| writeOps_ := <[i := f o0]> ops |>).
Proof.
  intros Hs Hq. assert (numbered first (get_ops s')) as Hn by (simpl; rewrite Hs; by apply w_numbered).
  assert (get_ops s' !! i = Some o0) as Hi
    by (simpl; rewrite Hs; apply list_lookup_insert_eq; by eapply lookup_lt_Some).
  rewrite <- Hq. split; [exact (deref_at (H := write_operation) first s' i o0 Hn Hi)|].
  pose proof (update_at (H := write_operation) first s' i o0 f Hn Hi) as Hu. simpl in Hu. rewrite Hu, Hs.
  by rewrite list_insert_insert_eq.
Qed.

Definition w_after (r : WriteSide * list pcall) (to : nat) : Prop :=
  exists o1, writeOps_ r.1 = <[i := o1]> ops /\ wo_sequenceNumber o1 = wo_sequenceNumber o /\
    exists K' K2', winv ctx (P ++ cbs_of r.2) (H ++ r.2) msgs K' K2' first
      (r.1 <| writeOps_ := <[i := o1 <| wo_state := to |>]> ops |>).

(** The message of the operation is the next one in the ghost list. *)
Lemma w_take n : wo_sequenceNumber o = n -> 0 <= n ->
  take (Z.to_nat (n + 1)) msgs = take (Z.to_nat n) msgs ++ [wo_message o].
Proof.
  intros Hs Hn. rewrite Z2Nat.inj_add, Nat.add_1_r by lia. apply take_S_r.
  rewrite <- Hs. by apply (wi_msgs _ _ _ _ _ _ _ _ HI i).
Qed.

(** [callWriteCallback]. *)
Lemma w_row_call :
  (wo_state o < 3)%nat -> (3 <= prev)%nat ->
  (is_error (px_error ctx) = true /\ wo_state o = 0%nat \/
   is_error (px_error ctx) = true /\ wo_state o = 1%nat /\ wo_numPayloadsBeingWritten o = 0 /\ wo_doneReadingDescriptorReply o = true \/
   wo_state o = 2%nat /\ wo_numPayloadsBeingWritten o = 0 /\ wo_numTensorsBeingSent o = 0) ->
  wp (callWriteCallback ctx (wo_sequenceNumber o) s) (fun e => e = no_channel) (fun r => w_after r 3).
Proof.
  intros Hst Hp Hc. pose proof w_ok as Hwok. pose proof (winv_bounds _ _ _ _ _ _ _ _ HI) as (? & ? & ?).
  pose proof (w_here 3 _ (wi_W _ _ _ _ _ _ _ _ HI) ltac:(lia) Hst Hp) as HW.
  pose proof w_range as [Hr _].
  unfold callWriteCallback. rewrite w_deref, bind_done, (wk_cb _ _ _ Hwok Hst). cbn [get_callback].
  rewrite bind_done. apply wp_bind. rewrite HW. simpl cb_seq. rewrite Z.eqb_refl. cbn [tp_check wp]. rewrite <- HW.
  set (s0 := s <| nextWriteCallbackToCall_ ::= fun n => u64 (n + 1) |>).
  destruct (w_update (fun op => op <| wo_writeCallback := None |>) s0 o) as [_ Hu];
    [by rewrite list_insert_id | done|].
  rewrite Hu. cbn [mbind outcome_bind wp].
  set (o1 := o <| wo_writeCallback := None |>).
  exists o1. split; [done|]. split; [done|]. exists K, K2. cbn [fst snd]. set (o2 := o1 <| wo_state := 3%nat |>).
  assert (u64 (nextWriteCallbackToCall_ s + 1) = nextWriteCallbackToCall_ s + 1) as Hu1
    by (apply u64_small; unfold is_u64; lia).
  assert (wo_numPayloadsBeingWritten o = 0 /\ wo_numTensorsBeingSent o = 0) as [Hz1 Hz2].
  { split; [destruct Hc as [(_ & Hx)|[(_ & _ & Hx & _)|(_ & Hx & _)]]; try done;
      apply (wk_idle_p _ _ _ Hwok); by left|].
    destruct Hc as [(_ & Hx)|[(_ & Hx & _)|(_ & _ & Hx)]]; try done; apply (wk_idle_t _ _ _ Hwok); lia. }
  assert (each (wop_ok ctx) (<[i := o2]> ops)) as Heach.
  { apply w_each; [simpl; lia|]. destruct Hwok as [K_1 K_2 K_3 K_4 K_5 K_6 K_7 K_8 K_9 K_10 K_11 K_12].
    split; simpl; try done; try lia. }
  unfold s0. winv_fields; rewrite ?Hu1.
  - by apply w_numbered.
  - rewrite length_insert. apply HI.
  - done.
  - apply w_up; [apply HI | done | done | simpl; lia].
  - apply HI.
  - by apply w_msgs.
  - apply HI.
  - intros He. apply w_stay; [by apply HI | done|]. simpl.
    destruct Hc as [[? _]|[[? _]|[-> _]]]; [congruence.. | lia].
  - intros He. apply w_stay; [by apply HI | done|]. simpl.
    destruct Hc as [[? _]|[[? _]|[-> _]]]; [congruence.. | lia].
  - intros it. rewrite w_tally_same; [apply HI | done | done].
  - intros it. rewrite w_tally_same; [apply HI | done | done].
  - intros it. rewrite w_tally_same; [apply HI | done |]. unfold reply_pending. simpl.
    destruct Hc as [(_ & ->)|[(_ & -> & _ & ->)|(-> & _)]]; done.
  - rewrite (wi_h1 _ _ _ _ _ _ _ _ HI). simpl. rewrite HW, Z2Nat.inj_add, Nat.add_1_r, seq_S by lia. done.
  - apply HI.
  - apply HI.
  - apply HI.
Qed.

(** ** The actions that write and send *)

Definition o_wr (np nt : Z) : WriteOperation :=
  o <| wo_numPayloadsBeingWritten := np |> <| wo_numTensorsBeingSent := nt |>.
Definition s_wr (np nt : Z) : WriteSide := s <| writeOps_ := <[i := o_wr np nt]> ops |>.

Lemma o_wr_id : o_wr (wo_numPayloadsBeingWritten o) (wo_numTensorsBeingSent o) = o.
Proof. unfold o_wr. by destruct o. Qed.

Lemma s_wr_id : s_wr (wo_numPayloadsBeingWritten o) (wo_numTensorsBeingSent o) = s.
Proof. unfold s_wr. rewrite o_wr_id, list_insert_id by done. by destruct s. Qed.

Lemma descriptor_step :
  writeDescriptorOfMessage ctx (wo_sequenceNumber o) s =
    Done (s, [ConnWriteDescriptor (px_descriptorConnection ctx) (descriptor_of (wo_message o))]).
Proof.
  unfold writeDescriptorOfMessage. rewrite w_deref, bind_done. unfold makeDescriptorForMessage.
  rewrite tp_check_bind by (apply Nat.eqb_eq; symmetry; apply (wk_len _ _ _ w_ok)). done.
Qed.

Lemma payloads_step :
  wo_numPayloadsBeingWritten o = 0 ->
  writePayloadsOfMessage ctx (wo_sequenceNumber o) s =
    Done (s_wr (Z.of_nat (length (m_payloads (wo_message o)))) (wo_numTensorsBeingSent o),
          write_payloads ctx (wo_sequenceNumber o) (m_payloads (wo_message o))).
Proof.
  intros Hz. unfold writePayloadsOfMessage. rewrite w_deref, bind_done. cbv zeta.
  destruct (write_payloads_ok ctx (wo_sequenceNumber o) (m_payloads (wo_message o))) as (-> & _).
  destruct (w_update (fun op => op <| wo_numPayloadsBeingWritten ::= fun n => u64 (n + Z.of_nat (length (m_payloads (wo_message o)))) |>) s o)
    as [_ ->]; [by rewrite list_insert_id | done|].
  rewrite bind_done. unfold s_wr.
  assert (o <| wo_numPayloadsBeingWritten ::= fun n => u64 (n + Z.of_nat (length (m_payloads (wo_message o)))) |> =
    o_wr (Z.of_nat (length (m_payloads (wo_message o)))) (wo_numTensorsBeingSent o)) as ->; [|done].
  pose proof (wk_size _ _ _ w_ok) as [Hs _].
  unfold o_wr, field_update. cbn [wo_numTensorsBeingSent]. rewrite Hz, Z.add_0_l, u64_small; [done|].
  unfold is_u64. lia.
Qed.

Lemma send_step np :
  ctx_ok ctx -> px_state ctx = ESTABLISHED -> is_error (px_error ctx) = false ->
  wo_hasMissingTargetDevices o = false \/ wo_doneReadingDescriptorReply o = true ->
  wp (sendTensorsOfMessage ctx (wo_sequenceNumber o) (s_wr np 0)) (fun e => e = no_channel) (fun r =>
    exists sc, r = (s_wr np (Z.of_nat (length sc)), sc) /\
      sent_calls (wo_sequenceNumber o) (m_tensors (wo_message o)) sc).
Proof.
  intros Hctx Hest He Htg. unfold sendTensorsOfMessage.
  destruct (w_update (fun op => op) (s_wr np 0) (o_wr np 0)) as [Hd _]; [done | done|].
  rewrite Hd, bind_done. cbn [wo_message wo_tensors o_wr field_update].
  rewrite tp_check_bind by (apply Nat.eqb_eq; symmetry; apply (wk_len _ _ _ w_ok)).
  apply wp_bind. eapply wp_mono.
  { apply send_tensors_ok; [done | done | apply (wk_len _ _ _ w_ok) | by apply (wk_targets _ _ _ w_ok)]. }
  intros sc Hsc.
  destruct (w_update (fun op => op <| wo_numTensorsBeingSent ::= fun n => u64 (n + Z.of_nat (length sc)) |>)
    (s_wr np 0) (o_wr np 0)) as [_ ->]; [done | done|].
  rewrite bind_done. exists sc. split; [|done].
  assert (o_wr np 0 <| wo_numTensorsBeingSent ::= fun n => u64 (n + Z.of_nat (length sc)) |> =
    o_wr np (Z.of_nat (length sc))) as ->; [|done].
  pose proof (wk_size _ _ _ w_ok) as [_ Hs].
  unfold o_wr, field_update. cbn [wo_numTensorsBeingSent]. rewrite Z.add_0_l, u64_small; [done|].
  unfold is_u64. rewrite (sc_len _ _ _ Hsc). lia.
Qed.

(** The invariant after the operation moved to [to] with new counts. *)
Lemma wr_rinv np nt to calls K' K2' :
  (wo_state o <= to <= prev)%nat -> (to < 3)%nat -> px_state ctx = ESTABLISHED ->
  is_u64 np -> is_u64 nt -> (to <> 2%nat -> nt = 0) -> (to = 0%nat -> np = 0) ->
  (0 <= K2' <= K' /\ K' <= nextMessageBeingWritten_ s) ->
  (is_error (px_error ctx) = false -> thresh 1 K' first (<[i := o_wr np nt <| wo_state := to |>]> ops)) ->
  (is_error (px_error ctx) = false -> thresh 2 K2' first (<[i := o_wr np nt <| wo_state := to |>]> ops)) ->
  (forall it, occ (CbPayloadWritten it) (cbs_of calls) = if decide (wo_sequenceNumber o = it) then np - wo_numPayloadsBeingWritten o else 0) ->
  (forall it, occ (CbTensorSent it) (cbs_of calls) = if decide (wo_sequenceNumber o = it) then nt - wo_numTensorsBeingSent o else 0) ->
  (forall it, occ (CbReply it) (cbs_of calls) = if decide (wo_sequenceNumber o = it)
     then reply_pending (o_wr np nt <| wo_state := to |>) - reply_pending o else 0) ->
  w_calls calls = [] ->
  write_items (H ++ calls) = mjoin ((fun m => frame (descriptor_of m)) <$> take (Z.to_nat K') msgs) ->
  wdescs (H ++ calls) = descriptor_of <$> take (Z.to_nat K') msgs ->
  send_items (H ++ calls) = mjoin (tensor_lens <$> take (Z.to_nat K2') msgs) ->
  w_after (s_wr np nt, calls) to.
Proof.
  intros Hto Hlt Hest Hnp Hnt Hz1 Hz2 HK HK1 HK2 C1 C2 C3 Hw Hi Hd Hs.
  exists (o_wr np nt). split; [done|]. split; [done|]. exists K', K2'. cbn [fst snd].
  set (o2 := o_wr np nt <| wo_state := to |>) in *.
  assert (each (wop_ok ctx) (<[i := o2]> ops)) as Heach.
  { apply w_each; [simpl; lia|]. destruct w_ok as [K_1 K_2 K_3 K_4 K_5 K_6 K_7 K_8 K_9 K_10 K_11 K_12].
    split; simpl; try done; try lia; intros.
    - apply K_3. lia.
    - specialize (K_8 ltac:(done)). lia. }
  split; cbn [writeOps_ nextMessageBeingWritten_ nextWriteCallbackToCall_ field_update s_wr];
    rewrite ?cbs_of_app, ?occ_app; try done.
  - by apply w_numbered.
  - rewrite length_insert. apply HI.
  - apply w_stay; [apply HI | done | simpl; lia].
  - apply HI.
  - by apply w_msgs.
  - intros it. rewrite occ_app, (wi_pp _ _ _ _ _ _ _ _ HI), C1, (w_tally _ o2) by done. done.
  - intros it. rewrite occ_app, (wi_pt _ _ _ _ _ _ _ _ HI), C2, (w_tally _ o2) by done. done.
  - intros it. rewrite occ_app, (wi_pr _ _ _ _ _ _ _ _ HI), C3, (w_tally _ o2) by done. done.
  - rewrite w_calls_app, Hw, app_nil_r. apply HI.
Qed.

Lemma decide_cb (C : Z -> cb) (a b : Z) (x y : Z) :
  (forall a b, C a = C b -> a = b) -> (if decide (C b = C a) then x else y) = (if decide (a = b) then x else y).
Proof.
  intros Hinj. destruct (decide (a = b)) as [->|Hne]; [by rewrite decide_True|].
  rewrite decide_False; [done|]. intros He. apply Hinj in He. congruence.
Qed.

(** The rows that write a message: descriptor, payloads, then its tensors
    or the request for the descriptor reply. *)
Lemma w_row_send :
  ctx_ok ctx -> wo_state o = 0%nat -> is_error (px_error ctx) = false -> px_state ctx = ESTABLISHED ->
  wo_hasMissingTargetDevices o = false -> (2 <= prev)%nat ->
  wp (run_actions (wo_sequenceNumber o) [writeDescriptorOfMessage ctx; writePayloadsOfMessage ctx; sendTensorsOfMessage ctx] s)
     (fun e => e = no_channel) (fun r => w_after r 2).
Proof.
  intros Hctx Hst He Hest Hm Hp. pose proof (wi_K1t _ _ _ _ _ _ _ _ HI He) as HT1.
  pose proof (wi_K2t _ _ _ _ _ _ _ _ HI He) as HT2. pose proof (winv_bounds _ _ _ _ _ _ _ _ HI) as (? & ? & ?).
  pose proof (w_here 1 _ HT1 ltac:(lia) ltac:(lia) ltac:(lia)) as HK1.
  pose proof (w_here 2 _ HT2 ltac:(lia) ltac:(lia) ltac:(lia)) as HK2.
  pose proof w_range as [Hr _]. pose proof (wk_idle_p _ _ _ w_ok ltac:(lia)) as Hz1.
  pose proof (wk_idle_t _ _ _ w_ok ltac:(lia)) as Hz2. pose proof (wk_size _ _ _ w_ok) as [Hs1 Hs2].
  pose proof (w_take K HK1 ltac:(lia)) as Ht1. pose proof (w_take K2 HK2 ltac:(lia)) as Ht2.
  destruct (write_payloads_ok ctx (wo_sequenceNumber o) (m_payloads (wo_message o))) as (W1 & W2 & W3 & W4 & W5 & W6).
  cbn [run_actions]. rewrite descriptor_step, bind_done. cbn [fst snd]. rewrite payloads_step, bind_done by done.
  cbn [fst snd]. rewrite Hz2. apply wp_bind, wp_bind, wp_bind.
  eapply wp_mono; [apply send_step; [done | done | done | by left]|].
  intros r (sc & -> & [S1 S2 S3 (S4 & S5 & S6)]). cbn [mbind outcome_bind wp fst snd]. rewrite app_nil_r.
  apply (wr_rinv _ _ _ _ (K + 1) (K2 + 1)); try done; try lia.
  - unfold is_u64. lia.
  - unfold is_u64. rewrite S1. lia.
  - intros _. apply w_up; [done | done | done | simpl; lia].
  - intros _. apply w_up; [done | done | done | simpl; lia].
  - intros it. simpl. rewrite occ_cons, decide_False, Z.add_0_l by done.
    change (occ (CbPayloadWritten it) (cbs_of (write_payloads ctx (wo_sequenceNumber o) (m_payloads (wo_message o)) ++ sc)) =
      (if decide (wo_sequenceNumber o = it) then Z.of_nat (length (m_payloads (wo_message o))) - wo_numPayloadsBeingWritten o else 0)).
    rewrite cbs_of_app, occ_app, W3, S3. rewrite (decide_cb CbPayloadWritten) by (intros ? ? [=]; done). simpl.
    destruct (decide _); lia.
  - intros it. simpl. rewrite occ_cons, decide_False, Z.add_0_l by done.
    change (occ (CbTensorSent it) (cbs_of (write_payloads ctx (wo_sequenceNumber o) (m_payloads (wo_message o)) ++ sc)) =
      (if decide (wo_sequenceNumber o = it) then Z.of_nat (length sc) - wo_numTensorsBeingSent o else 0)).
    rewrite cbs_of_app, occ_app, W3, S3. rewrite (decide_cb CbTensorSent) by (intros ? ? [=]; done). simpl. rewrite S1.
    destruct (decide _); lia.
  - intros it. simpl. rewrite occ_cons, decide_False, Z.add_0_l by done.
    change (occ (CbReply it) (cbs_of (write_payloads ctx (wo_sequenceNumber o) (m_payloads (wo_message o)) ++ sc)) =
      (if decide (wo_sequenceNumber o = it) then 0 - reply_pending o else 0)).
    rewrite cbs_of_app, occ_app, W3, S3. unfold reply_pending. rewrite Hst. simpl. by destruct (decide _).
  - unfold w_calls in *. simpl. by rewrite omap_app, W4, S4.
  - unfold write_items in *. rewrite omap_app. simpl. rewrite omap_app, W2, S6, app_nil_r, Ht1, fmap_app, join_app.
    simpl. rewrite app_nil_r. pose proof (wi_h2 _ _ _ _ _ _ _ _ HI) as Hh. unfold write_items in Hh. by rewrite Hh.
  - unfold wdescs in *. rewrite omap_app. simpl. rewrite omap_app, W5, S5, Ht1, fmap_app.
    pose proof (wi_h3 _ _ _ _ _ _ _ _ HI) as Hh. unfold wdescs in Hh. by rewrite Hh.
  - unfold send_items in *. rewrite omap_app. simpl. rewrite omap_app, W6, S2, Ht2, fmap_app, join_app.
    simpl. rewrite app_nil_r. pose proof (wi_h4 _ _ _ _ _ _ _ _ HI) as Hh. unfold send_items in Hh. by rewrite Hh.
Qed.

Lemma w_row_ask :
  ctx_ok ctx -> wo_state o = 0%nat -> is_error (px_error ctx) = false -> px_state ctx = ESTABLISHED ->
  wo_hasMissingTargetDevices o = true -> (1 <= prev)%nat ->
  wp (run_actions (wo_sequenceNumber o) [writeDescriptorOfMessage ctx; writePayloadsOfMessage ctx; readDescriptorReplyOfMessage ctx] s)
     (fun e => e = no_channel) (fun r => w_after r 1).
Proof.
  intros Hctx Hst He Hest Hm Hp. pose proof (wi_K1t _ _ _ _ _ _ _ _ HI He) as HT1.
  pose proof (wi_K2t _ _ _ _ _ _ _ _ HI He) as HT2. pose proof (winv_bounds _ _ _ _ _ _ _ _ HI) as (? & ? & ?).
  pose proof (w_here 1 _ HT1 ltac:(lia) ltac:(lia) ltac:(lia)) as HK1.
  pose proof w_range as [Hr _]. pose proof (wk_idle_p _ _ _ w_ok ltac:(lia)) as Hz1.
  pose proof (wk_idle_t _ _ _ w_ok ltac:(lia)) as Hz2. pose proof (wk_size _ _ _ w_ok) as [Hs1 Hs2].
  pose proof (w_take K HK1 ltac:(lia)) as Ht1. pose proof (wi_K _ _ _ _ _ _ _ _ HI) as [? ?].
  destruct (write_payloads_ok ctx (wo_sequenceNumber o) (m_payloads (wo_message o))) as (W1 & W2 & W3 & W4 & W5 & W6).
  destruct (cx_reply _ Hctx Hest) as [c Hc].
  assert (wo_doneReadingDescriptorReply o = false) as Hnd.
  { destruct (wo_doneReadingDescriptorReply o) eqn:Hd; [|done]. pose proof (wk_done _ _ _ w_ok Hd). lia. }
  cbn [run_actions]. rewrite descriptor_step, bind_done. cbn [fst snd]. rewrite payloads_step, bind_done by done.
  cbn [fst snd]. rewrite Hz2.
  assert (readDescriptorReplyOfMessage ctx (wo_sequenceNumber o) (s_wr (Z.of_nat (length (m_payloads (wo_message o)))) 0) =
    Done (s_wr (Z.of_nat (length (m_payloads (wo_message o)))) 0, [ConnReadReply c (wo_sequenceNumber o)])) as ->.
  { unfold readDescriptorReplyOfMessage, reply_connection.
    destruct (w_update (fun op => op) (s_wr (Z.of_nat (length (m_payloads (wo_message o)))) 0)
      (o_wr (Z.of_nat (length (m_payloads (wo_message o)))) 0)) as [Hd _]; [done | done|].
    rewrite Hd, bind_done. cbn [wo_hasMissingTargetDevices o_wr field_update]. by rewrite Hm, Hc. }
  cbn [mbind outcome_bind wp fst snd].
  apply (wr_rinv _ _ _ _ (K + 1) K2); try done; try lia.
  - unfold is_u64. lia.
  - intros _. apply w_up; [done | done | done | simpl; lia].
  - intros _. apply w_stay; [done | done | simpl; lia].
  - intros it. simpl. rewrite occ_cons, decide_False, Z.add_0_l by done.
    change (occ (CbPayloadWritten it) (cbs_of (write_payloads ctx (wo_sequenceNumber o) (m_payloads (wo_message o)) ++
      [ConnReadReply c (wo_sequenceNumber o)])) =
      (if decide (wo_sequenceNumber o = it) then Z.of_nat (length (m_payloads (wo_message o))) - wo_numPayloadsBeingWritten o else 0)).
    rewrite cbs_of_app, occ_app, W3, (decide_cb CbPayloadWritten) by (intros ? ? [=]; done). simpl.
    rewrite occ_cons, occ_nil. simpl. destruct (decide (wo_sequenceNumber o = it)); lia.
  - intros it. simpl. rewrite occ_cons, decide_False, Z.add_0_l by done.
    change (occ (CbTensorSent it) (cbs_of (write_payloads ctx (wo_sequenceNumber o) (m_payloads (wo_message o)) ++
      [ConnReadReply c (wo_sequenceNumber o)])) = (if decide (wo_sequenceNumber o = it) then 0 - wo_numTensorsBeingSent o else 0)).
    rewrite cbs_of_app, occ_app, W3. simpl.
    rewrite occ_cons, occ_nil. simpl. destruct (decide (wo_sequenceNumber o = it)); lia.
  - intros it. simpl. rewrite occ_cons, decide_False, Z.add_0_l by done.
    change (occ (CbReply it) (cbs_of (write_payloads ctx (wo_sequenceNumber o) (m_payloads (wo_message o)) ++
      [ConnReadReply c (wo_sequenceNumber o)])) =
      (if decide (wo_sequenceNumber o = it) then reply_pending (o_wr (Z.of_nat (length (m_payloads (wo_message o)))) 0 <| wo_state := 1%nat |>) - reply_pending o else 0)).
    rewrite cbs_of_app, occ_app, W3. unfold reply_pending. simpl. rewrite Hst, Hnd. simpl.
    rewrite occ_cons, occ_nil. rewrite (decide_ext (CbReply (wo_sequenceNumber o) = CbReply it) (wo_sequenceNumber o = it))
      by (split; [by intros [=] | by intros ->]). destruct (decide _); lia.
  - unfold w_calls in *. simpl. by rewrite omap_app, W4.
  - unfold write_items in *. rewrite omap_app. simpl. rewrite omap_app, W2, Ht1, fmap_app, join_app.
    simpl. rewrite !app_nil_r. pose proof (wi_h2 _ _ _ _ _ _ _ _ HI) as Hh. unfold write_items in Hh. by rewrite Hh.
  - unfold wdescs in *. rewrite omap_app. simpl. rewrite omap_app, W5, Ht1, fmap_app.
    pose proof (wi_h3 _ _ _ _ _ _ _ _ HI) as Hh. unfold wdescs in Hh. by rewrite Hh.
  - unfold send_items in *. rewrite omap_app. simpl. rewrite omap_app, W6. simpl. rewrite app_nil_r. apply HI.
Qed.

Lemma w_row_answered :
  ctx_ok ctx -> wo_state o = 1%nat -> is_error (px_error ctx) = false ->
  wo_doneReadingDescriptorReply o = true -> (2 <= prev)%nat ->
  wp (run_actions (wo_sequenceNumber o) [sendTensorsOfMessage ctx] s) (fun e => e = no_channel) (fun r => w_after r 2).
Proof.
  intros Hctx Hst He Hd Hp. pose proof (wi_K1t _ _ _ _ _ _ _ _ HI He) as HT1.
  pose proof (wi_K2t _ _ _ _ _ _ _ _ HI He) as HT2. pose proof (winv_bounds _ _ _ _ _ _ _ _ HI) as (? & ? & ?).
  pose proof (wk_est _ _ _ w_ok ltac:(lia)) as Hest.
  pose proof (w_here 2 _ HT2 ltac:(lia) ltac:(lia) ltac:(lia)) as HK2.
  pose proof (proj2 HT1 i o Ho) as HK1. simpl in HK1. pose proof (proj2 HK1 ltac:(lia)) as HK.
  pose proof w_range as [Hr _]. pose proof (wi_K _ _ _ _ _ _ _ _ HI) as [? ?].
  pose proof (wk_idle_t _ _ _ w_ok ltac:(lia)) as Hz2. pose proof (wk_size _ _ _ w_ok) as [Hs1 Hs2].
  pose proof (w_take K2 HK2 ltac:(lia)) as Ht2. pose proof (wk_num _ _ _ w_ok) as [Hn1 _].
  pose proof s_wr_id as Hsid. rewrite Hz2 in Hsid. cbn [run_actions]. rewrite <- Hsid at 1.
  apply wp_bind. eapply wp_mono; [apply send_step; [done | done | done | by right]|].
  intros r (sc & -> & [S1 S2 S3 (S4 & S5 & S6)]). cbn [mbind outcome_bind wp fst snd]. rewrite app_nil_r.
  apply (wr_rinv _ _ _ _ K (K2 + 1)); try done; try lia.
  - unfold is_u64. rewrite S1. lia.
  - intros _. apply w_stay; [done | done | simpl; lia].
  - intros _. apply w_up; [done | done | done | simpl; lia].
  - intros it. rewrite S3. simpl. destruct (decide _); lia.
  - intros it. rewrite S3, (decide_cb CbTensorSent) by (intros ? ? [=]; done). rewrite S1, Hz2.
    destruct (decide _); lia.
  - intros it. rewrite S3. unfold reply_pending. simpl. rewrite Hst, Hd. simpl. by destruct (decide _).
  - rewrite write_items_app, S6, app_nil_r. apply HI.
  - rewrite wdescs_app, S5, app_nil_r. apply HI.
  - rewrite send_items_app, S2, (wi_h4 _ _ _ _ _ _ _ _ HI), Ht2, fmap_app, join_app. simpl. by rewrite app_nil_r.
Qed.
End Rows.
