(* ===== verification/PipeWriteSide.v ===== *)
(** * The write side keeps its invariant *)

From S2P Require Import Prelude Messages Select PipeBase OpsStateMachine OpsInvariants PipeRead PipeReadInv.
From S2P Require Import PipeReadSide PipeWrite PipeWriteInv PipeWriteRows.

Definition write_inv (ctx : PipeCtx) (P : list cb) (H : list pcall) (msgs : list Message) (tr : list pcall)
    (s : WriteSide) : Prop :=
  exists K K2 first, winv ctx (P ++ cbs_of tr) (H ++ tr) msgs K K2 first s.

Lemma winv_pop ctx P H msgs K K2 first s o l :
  winv ctx P H msgs K K2 first s -> writeOps_ s = o :: l -> wo_state o = 3%nat ->
  winv ctx P H msgs K K2 (first + 1) (s <| writeOps_ := l |>).
Proof.
  intros HI Hops Hst. destruct HI as [I1 I2 I3 I4 I5 I6 I7 I8 I9 I10 I11 I12 I13 I14 I15 I16].
  rewrite Hops in *. pose proof (I3 0%nat o eq_refl) as Hwok. simpl in I2.
  assert (wo_sequenceNumber o = first) as Hseq
    by (destruct I1 as (_ & _ & Hs); pose proof (Hs 0%nat o eq_refl) as Hx; simpl in Hx; lia).
  pose proof (wk_idle_p _ _ _ Hwok ltac:(lia)) as Hz1. pose proof (wk_idle_t _ _ _ Hwok ltac:(lia)) as Hz2.
  winv_fields; try done.
  - by eapply (numbered_tail (H := write_operation)).
  - lia.
  - by apply (each_pop (H := write_operation) _ o l I3).
  - eapply (thresh_pop (H := write_operation)); [done | done | simpl; lia].
  - intros j q Hq. by apply (I6 (S j)).
  - intros He. eapply (thresh_pop (H := write_operation)); [by apply I8 | done | simpl; lia].
  - intros He. eapply (thresh_pop (H := write_operation)); [by apply I9 | done | simpl; lia].
  - intros it. by rewrite I10, (tally_cons0 (H := write_operation)).
  - intros it. by rewrite I11, (tally_cons0 (H := write_operation)).
  - intros it. rewrite I12, (tally_cons0 (H := write_operation)); [done|]. unfold reply_pending. by rewrite Hst.
Qed.

Lemma write_table_ok ctx : table_ok (advanceWriteOperation ctx).
Proof. unfold advanceWriteOperation. solve_table. Qed.

Lemma w_after_wp ctx P H msgs first s i o to (m : outcome (WriteSide * list pcall)) tr0 P0 H0 :
  P = P0 ++ cbs_of tr0 -> H = H0 ++ tr0 ->
  wp m (fun e => e = no_channel) (fun r => w_after ctx P H msgs first s i o r to) ->
  wp m (fun e => e = no_channel) (fun r => exists o1, get_ops r.1 = <[i := o1]> (get_ops s) /\ op_seq o1 = op_seq o /\
    write_inv ctx P0 H0 msgs (tr0 ++ r.2) (put_ops (<[i := op_put_state to o1]> (get_ops s)) r.1)).
Proof.
  intros -> -> Hm. eapply wp_mono; [exact Hm|]. intros r (o1 & H1 & H2 & K' & K2' & H3).
  exists o1. split; [done|]. split; [done|]. exists K', K2', first. rewrite cbs_of_app, !app_assoc. exact H3.
Qed.

Lemma single_write_action (a : write_action) it s (Q : exn -> Prop) Post :
  wp (a it s) Q Post -> (forall r, Post r -> Post (r.1, r.2 ++ [])) -> wp (run_actions it [a] s) Q Post.
Proof.
  intros Hw Hp. cbn [run_actions]. apply wp_bind. eapply wp_mono; [exact Hw|].
  intros r Hr. cbn. by apply Hp.
Qed.

Lemma write_machine_ok ctx P H msgs :
  ctx_ok ctx -> machine_ok (advanceWriteOperation ctx) (write_inv ctx P H msgs) (fun e => e = no_channel).
Proof.
  intros Hctx. split.
  - apply write_table_ok.
  - intros tr s (K & K2 & first & HI). exists first. apply HI.
  - intros t tr s i o Ht (K & K2 & first & HI) Ho Hst Hc.
    eapply (w_after_wp ctx _ _ msgs first s i o (t_to t) _ tr P H); [done | done|].
    assert (wp (callWriteCallback ctx (wo_sequenceNumber o) s) (fun e => e = no_channel)
        (fun r => w_after ctx (P ++ cbs_of tr) (H ++ tr) msgs first s i o r (t_to t)) ->
      wp (run_actions (wo_sequenceNumber o) [callWriteCallback ctx] s) (fun e => e = no_channel)
        (fun r => w_after ctx (P ++ cbs_of tr) (H ++ tr) msgs first s i o r (t_to t))) as Hone.
    { intros Hw. apply single_write_action; [done|]. intros [s1 e1]. by rewrite app_nil_r. }
    unfold advanceWriteOperation in Ht. rewrite !elem_of_cons in Ht.
    destruct Ht as [->|[->|[->|[->|[->|[->|Ht]]]]]]; [..|by apply not_elem_of_nil in Ht];
      cbn [t_from t_to t_cond t_actions] in *; simpl in Hst;
      unfold WriteOperation.UNINITIALIZED, WriteOperation.WRITING_PAYLOADS_AND_READING_TARGET_DEVICES,
        WriteOperation.WRITING_PAYLOADS_AND_SENDING_TENSORS, WriteOperation.FINISHED, error, established in *; bool_hyps;
      repeat match goal with Hx : (_ <=? _)%nat = true |- _ => apply Nat.leb_le in Hx end.
    + apply Hone, (w_row_call ctx _ _ msgs K K2 first s HI i o Ho); [lia | done | by left].
    + by apply (w_row_send ctx _ _ msgs K K2 first s HI i o Ho).
    + by apply (w_row_ask ctx _ _ msgs K K2 first s HI i o Ho).
    + apply Hone, (w_row_call ctx _ _ msgs K K2 first s HI i o Ho); [lia | done | right; by left].
    + by apply (w_row_answered ctx _ _ msgs K K2 first s HI i o Ho).
    + apply Hone, (w_row_call ctx _ _ msgs K K2 first s HI i o Ho); [lia | done | right; by right].
  - intros tr s o l (K & K2 & first & HI) Hops Hf. exists K, K2, (first + 1). by apply (winv_pop _ _ _ _ _ _ _ _ o).
Qed.

(** ** Settled states *)

Definition write_ok (ctx : PipeCtx) (P : list cb) (H : list pcall) (msgs : list Message) (s : WriteSide) : Prop :=
  (exists K K2 first, winv ctx P H msgs K K2 first s) /\ no_finished (writeOps_ s) /\
  stable_on (advanceWriteOperation ctx) (fun _ => True) (writeOps_ s).

Abbreviation write_wp m ctx P H msgs :=
  (wp m (fun e => e = no_channel) (fun r => write_ok ctx (P ++ cbs_of r.2) (H ++ r.2) msgs r.1)).

Lemma winv_live ctx P H msgs K K2 first s :
  winv ctx P H msgs K K2 first s -> no_finished (writeOps_ s) -> live (write_inv ctx P H msgs) first [] s.
Proof.
  intros HI Hnf. split_and!; [|done|apply HI]. exists K, K2, first. by rewrite !app_nil_r.
Qed.

Lemma advance_write ctx P H msgs K K2 first s i o :
  ctx_ok ctx -> winv ctx P H msgs K K2 first s -> no_finished (writeOps_ s) -> writeOps_ s !! i = Some o ->
  stable_on (advanceWriteOperation ctx) (fun k => k <> wo_sequenceNumber o) (writeOps_ s) ->
  write_wp (advanceOperation (advanceWriteOperation ctx) (wo_sequenceNumber o) s) ctx P H msgs.
Proof.
  intros Hctx HI Hnf Ho Hst.
  eapply wp_mono;
    [refine (advanceOperation_ok (H := write_operation) _ _ _ (write_machine_ok ctx P H msgs Hctx) first [] s i o _ Ho Hst);
     by apply (winv_live ctx P H msgs K K2)|].
  intros r ((f & (Hi & Hnf' & _) & _) & Hst'). by split_and!.
Qed.

Lemma advance_all_writes ctx P H msgs K K2 first s :
  ctx_ok ctx -> winv ctx P H msgs K K2 first s -> no_finished (writeOps_ s) ->
  write_wp (advanceAllWrites ctx s) ctx P H msgs.
Proof.
  intros Hctx HI Hnf.
  eapply wp_mono;
    [refine (advanceAllOperations_ok (H := write_operation) _ _ _ (write_machine_ok ctx P H msgs Hctx) first [] s _);
     by apply (winv_live ctx P H msgs K K2)|].
  intros r ((f & (Hi & Hnf' & _) & _) & Hst'). by split_and!.
Qed.

(** ** [writeFromLoop] *)

Definition message_small (m : Message) : Prop :=
  Z.of_nat (length (m_payloads m)) < 2 ^ 64 /\ Z.of_nat (length (m_tensors m)) < 2 ^ 64.

Lemma no_missing_targets l :
  missing_target mt_targetDevice l = false -> Forall (fun w => is_Some (wt_targetDevice w)) (write_tensor <$> l).
Proof.
  induction l as [|t l IH]; intros Hm; [done|]. unfold missing_target in Hm. simpl in Hm.
  apply orb_false_iff in Hm as [Ht Hm]. rewrite fmap_cons. constructor; [|by apply IH].
  simpl. by destruct (mt_targetDevice t).
Qed.

Definition fresh_write (n : Z) (m : Message) : WriteOperation :=
  mkWriteOperation n 0 false 0 0 (Some (mkCallback n (Z.to_nat n))) (missing_target mt_targetDevice (m_tensors m))
    m (write_tensor <$> m_tensors m).

Lemma winv_emplace ctx P H msgs K K2 first s m :
  winv ctx P H msgs K K2 first s -> nextMessageBeingWritten_ s + 1 < 2 ^ 63 -> message_small m ->
  winv ctx P H (msgs ++ [m]) K K2 first
    (mkWriteSide (writeOps_ s ++ [fresh_write (nextMessageBeingWritten_ s) m]) (nextMessageBeingWritten_ s + 1)
       (nextWriteCallbackToCall_ s)).
Proof.
  intros HI Hb [Hs1 Hs2]. destruct HI as [I1 I2 I3 I4 I5 I6 [I7 I7'] I8 I9 I10 I11 I12 I13 I14 I15 I16].
  set (o := fresh_write (nextMessageBeingWritten_ s) m).
  assert (forall j q, (writeOps_ s ++ [o]) !! j = Some q -> writeOps_ s !! j = Some q \/ q = o) as Hin.
  { intros j q Hq. apply lookup_app_Some in Hq as [Hq|[_ Hq]]; [by left|].
    apply list_lookup_singleton_Some in Hq as [_ <-]. by right. }
  assert (forall n, n <= nextMessageBeingWritten_ s -> take (Z.to_nat n) (msgs ++ [m]) = take (Z.to_nat n) msgs) as Htake.
  { intros n Hn. apply take_app_le. lia. }
  destruct I1 as (I1a & I1b & I1c).
  winv_fields; try done.
  - apply (numbered_snoc (H := write_operation)); [done | done | lia].
  - rewrite length_app. simpl. lia.
  - apply (each_snoc (H := write_operation)); [done|]. split; simpl; try done; try lia.
    + by rewrite length_fmap.
    + intros _ [Hm|Hm]; [by apply no_missing_targets | done].
  - apply (thresh_snoc (H := write_operation)); [done | done | simpl; lia].
  - rewrite length_app. simpl. lia.
  - intros j q Hq. apply Hin in Hq as [Hq| ->].
    + pose proof (I6 j q Hq). by apply lookup_app_l_Some.
    + simpl. rewrite lookup_app_r by lia. replace (Z.to_nat _ - _)%nat with 0%nat by lia. done.
  - split; [done | lia].
  - intros He. apply (thresh_snoc (H := write_operation)); [by apply I8 | done | simpl; lia].
  - intros He. apply (thresh_snoc (H := write_operation)); [by apply I9 | done | simpl; lia].
  - intros it. by rewrite I10, (tally_snoc0 (H := write_operation)).
  - intros it. by rewrite I11, (tally_snoc0 (H := write_operation)).
  - intros it. by rewrite I12, (tally_snoc0 (H := write_operation)).
  - by rewrite Htake.
  - by rewrite Htake.
  - rewrite Htake by lia. done.
Qed.

Lemma writeFromLoop_ok ctx P H msgs s m :
  ctx_ok ctx -> write_ok ctx P H msgs s -> nextMessageBeingWritten_ s + 1 < 2 ^ 63 -> message_small m ->
  write_wp (writeFromLoop ctx m (Z.to_nat (nextMessageBeingWritten_ s)) s) ctx P H (msgs ++ [m]).
Proof.
  intros Hctx ((K & K2 & first & HI) & Hnf & Hst) Hb Hm. pose proof (winv_bounds _ _ _ _ _ _ _ _ HI) as (? & ? & ?).
  pose proof (winv_emplace _ _ _ _ _ _ _ _ m HI Hb Hm) as HI'.
  set (n := nextMessageBeingWritten_ s) in *. set (o := fresh_write n m) in *.
  unfold writeFromLoop. fold n. rewrite u64_small by (unfold is_u64; lia).
  unfold emplaceBack. cbn [get_ops put_ops write_machine writeOps_ field_update].
  match goal with |- context [update_op _ ?f ?x] => set (s1 := x); set (f1 := f) end.
  assert (numbered first (writeOps_ s1)) as Hn1.
  { pose proof (wi_num _ _ _ _ _ _ _ _ HI') as Hn. simpl in Hn |- *.
    replace (writeOps_ s ++ [newWriteOperation n]) with (<[length (writeOps_ s) := newWriteOperation n]> (writeOps_ s ++ [o])).
    - eapply (numbered_insert (H := write_operation)); [done | by apply list_lookup_middle | done].
    - by rewrite insert_app_r_alt, Nat.sub_diag by lia. }
  assert (writeOps_ s1 !! length (writeOps_ s) = Some (newWriteOperation n)) as Hl by (by apply list_lookup_middle).
  pose proof (update_at (H := write_operation) first s1 _ (newWriteOperation n) f1 Hn1 Hl) as Hu.
  cbn [op_seq write_operation newWriteOperation wo_sequenceNumber] in Hu. rewrite Hu, bind_done.
  cbn [get_ops put_ops write_machine writeOps_ s1 field_update]. rewrite insert_app_r_alt, Nat.sub_diag by lia.
  change n with (wo_sequenceNumber o) at 2.
  apply (advance_write ctx P H (msgs ++ [m]) K K2 first _ (length (writeOps_ s)) o); [done | exact HI' | | by apply list_lookup_middle |].
  - apply Forall_app. split; [done|]. constructor; [by apply Nat.ltb_lt | done].
  - by apply (stable_snoc (H := write_operation)).
Qed.

(** ** The callbacks *)

Definition wcharge (f : WriteOperation -> Z) (C : Z -> cb) (o o' : WriteOperation) (P P' : list cb) : Prop :=
  forall it, occ (C it) P' = occ (C it) P + (if decide (wo_sequenceNumber o = it) then f o' - f o else 0).

Lemma wcharge_delete f C o o' P k it :
  P !! k = Some (C it) -> wo_sequenceNumber o = it -> (forall a b, C a = C b -> a = b) -> f o' = f o - 1 ->
  wcharge f C o o' P (delete k P).
Proof.
  intros Hk Hs Hinj Hf it'. rewrite (occ_delete _ _ _ _ Hk).
  destruct (decide (wo_sequenceNumber o = it')) as [<-|Hne].
  - rewrite decide_True by (by rewrite Hs). lia.
  - rewrite decide_False; [lia|]. intros He. apply Hinj in He. congruence.
Qed.

Lemma wcharge_other f C o o' P k c :
  P !! k = Some c -> (forall it, c <> C it) -> f o' = f o -> wcharge f C o o' P (delete k P).
Proof.
  intros Hk Hne Hf it'. rewrite (occ_delete _ _ _ _ Hk), decide_False by done. rewrite Hf.
  destruct (decide _); lia.
Qed.

Lemma winv_modify ctx P P' H msgs K K2 first s i o o' :
  winv ctx P H msgs K K2 first s -> writeOps_ s !! i = Some o ->
  wo_sequenceNumber o' = wo_sequenceNumber o -> wo_state o' = wo_state o -> wo_message o' = wo_message o ->
  wop_ok ctx o' (prev_state i (writeOps_ s)) ->
  wcharge wo_numPayloadsBeingWritten CbPayloadWritten o o' P P' ->
  wcharge wo_numTensorsBeingSent CbTensorSent o o' P P' -> wcharge reply_pending CbReply o o' P P' ->
  winv ctx P' H msgs K K2 first (s <| writeOps_ := <[i := o']> (writeOps_ s) |>).
Proof.
  intros HI Ho Hs Hst Hm Hwok C1 C2 C3.
  pose proof (w_tally s i o Ho) as Ht.
  split; cbn [writeOps_ nextMessageBeingWritten_ nextWriteCallbackToCall_ field_update]; try apply HI.
  - by apply (w_numbered ctx P H msgs K K2 first s HI i o).
  - rewrite length_insert. apply HI.
  - apply (w_each ctx P H msgs K K2 first s HI i o); [done | lia | done].
  - apply (w_stay first s i o Ho); [apply HI | done | lia].
  - by apply (w_msgs ctx P H msgs K K2 first s HI i o).
  - intros He. apply (w_stay first s i o Ho); [by apply HI | done | lia].
  - intros He. apply (w_stay first s i o Ho); [by apply HI | done | lia].
  - intros it. rewrite (C1 it), (wi_pp _ _ _ _ _ _ _ _ HI), (Ht _ o' it Hs). done.
  - intros it. rewrite (C2 it), (wi_pt _ _ _ _ _ _ _ _ HI), (Ht _ o' it Hs). done.
  - intros it. rewrite (C3 it), (wi_pr _ _ _ _ _ _ _ _ HI), (Ht _ o' it Hs). done.
Qed.

Lemma pending_wop (f : WriteOperation -> Z) (C : Z -> cb) P k it first l :
  P !! k = Some (C it) -> numbered first l -> (forall it, occ (C it) P = tally f it l) ->
  exists i o, l !! i = Some o /\ wo_sequenceNumber o = it /\ 0 < f o.
Proof.
  intros Hk Hn Ht. assert (0 < tally f it l) as Hp by (rewrite <- Ht; by eapply occ_elem, list_elem_of_lookup_2).
  destruct (tally_pos (H := write_operation) f first it l Hn Hp) as (i & o & Ho & Hs & Hf).
  exists i, o. split_and!; [done | done | by rewrite Hf].
Qed.

Lemma w_modify_and_advance ctx P' H msgs K K2 s first i o o' P :
  ctx_ok ctx -> winv ctx P H msgs K K2 first s -> no_finished (writeOps_ s) ->
  stable_on (advanceWriteOperation ctx) (fun _ => True) (writeOps_ s) -> writeOps_ s !! i = Some o ->
  wo_sequenceNumber o' = wo_sequenceNumber o -> wo_state o' = wo_state o ->
  winv ctx P' H msgs K K2 first (s <| writeOps_ := <[i := o']> (writeOps_ s) |>) ->
  write_wp (advanceOperation (advanceWriteOperation ctx) (wo_sequenceNumber o)
              (s <| writeOps_ := <[i := o']> (writeOps_ s) |>)) ctx P' H msgs.
Proof.
  intros Hctx HI Hnf Hst Ho Hs He HI'.
  rewrite <- Hs. apply (advance_write ctx P' H msgs K K2 first _ i o'); [done | done | | |].
  - apply Forall_insert; [done|]. change (wo_state o' < 3)%nat. rewrite He.
    exact (proj1 (Forall_lookup _ _) Hnf i o Ho).
  - apply list_lookup_insert_eq. by eapply lookup_lt_Some.
  - rewrite Hs. by apply (stable_modify (H := write_operation)).
Qed.

Lemma update_write ctx P H msgs K K2 first s i o f :
  winv ctx P H msgs K K2 first s -> writeOps_ s !! i = Some o ->
  update_op (wo_sequenceNumber o) f s = Done (s <| writeOps_ := <[i := f o]> (writeOps_ s) |>).
Proof.
  intros HI Ho. apply (w_update ctx P H msgs K K2 first s HI i o Ho f s o); [|done].
  symmetry. by apply list_insert_id.
Qed.

Lemma onPayloadWritten_ok ctx P H msgs s k it :
  ctx_ok ctx -> write_ok ctx P H msgs s -> P !! k = Some (CbPayloadWritten it) ->
  write_wp (onPayloadWritten ctx it s) ctx (delete k P) H msgs.
Proof.
  intros Hctx ((K & K2 & first & HI) & Hnf & Hst) Hk.
  destruct (pending_wop _ CbPayloadWritten P k it first (writeOps_ s) Hk (wi_num _ _ _ _ _ _ _ _ HI)
    (wi_pp _ _ _ _ _ _ _ _ HI)) as (i & o & Ho & <- & Hp).
  pose proof (wi_ops _ _ _ _ _ _ _ _ HI i o Ho) as Hwok. pose proof (wk_num _ _ _ Hwok) as [[Ha Hb] Hc].
  assert (u64 (wo_numPayloadsBeingWritten o - 1) = wo_numPayloadsBeingWritten o - 1) as Hu
    by (apply u64_small; unfold is_u64; lia).
  unfold onPayloadWritten. rewrite (update_write ctx P H msgs K K2 first s i o _ HI Ho), bind_done.
  eapply (w_modify_and_advance ctx (delete k P)); try done.
  eapply winv_modify; [done | done | done | done | done | | | |].
  - destruct Hwok as [K_1 K_2 K_3 K_4 K_5 K_6 K_7 K_8 K_9 K_10 K_11 K_12].
    split; simpl; try done; rewrite Hu; unfold is_u64 in *; lia.
  - eapply wcharge_delete; [done | done | by intros ? ? [=] | exact Hu].
  - eapply wcharge_other; [done | done | done].
  - eapply wcharge_other; [done | done | done].
Qed.

Lemma onTensorSent_ok ctx P H msgs s k it :
  ctx_ok ctx -> write_ok ctx P H msgs s -> P !! k = Some (CbTensorSent it) ->
  write_wp (onTensorSent ctx it s) ctx (delete k P) H msgs.
Proof.
  intros Hctx ((K & K2 & first & HI) & Hnf & Hst) Hk.
  destruct (pending_wop _ CbTensorSent P k it first (writeOps_ s) Hk (wi_num _ _ _ _ _ _ _ _ HI)
    (wi_pt _ _ _ _ _ _ _ _ HI)) as (i & o & Ho & <- & Hp).
  pose proof (wi_ops _ _ _ _ _ _ _ _ HI i o Ho) as Hwok. pose proof (wk_num _ _ _ Hwok) as [Hc [Ha Hb]].
  assert (u64 (wo_numTensorsBeingSent o - 1) = wo_numTensorsBeingSent o - 1) as Hu
    by (apply u64_small; unfold is_u64; lia).
  unfold onTensorSent. rewrite (update_write ctx P H msgs K K2 first s i o _ HI Ho), bind_done.
  eapply (w_modify_and_advance ctx (delete k P)); try done.
  eapply winv_modify; [done | done | done | done | done | | | |].
  - destruct Hwok as [K_1 K_2 K_3 K_4 K_5 K_6 K_7 K_8 K_9 K_10 K_11 K_12].
    split; simpl; try done; rewrite Hu; unfold is_u64 in *; try lia.
  - eapply wcharge_other; [done | done | done].
  - eapply wcharge_delete; [done | done | by intros ? ? [=] | exact Hu].
  - eapply wcharge_other; [done | done | done].
Qed.

(** ** The descriptor reply *)

Definition missing_count (ts : list MsgTensor) : nat :=
  length (filter (fun t => mt_targetDevice t = None) ts).

(** A reply with one device per tensor that lacks one completes the operation. *)
Lemma parse_targets_fills ts : forall pre l,
  length l = missing_count ts ->
  exists ws, parse_targets ts (write_tensor <$> ts) (length pre) (pre ++ l) = Done (length (pre ++ l), ws) /\
    length ws = length ts /\ Forall (fun w => is_Some (wt_targetDevice w)) ws.
Proof.
  induction ts as [|t ts IH]; intros pre l Hl.
  - unfold missing_count in Hl. simpl in Hl. apply nil_length_inv in Hl as ->. exists []. by rewrite app_nil_r.
  - rewrite fmap_cons. unfold missing_count in *. rewrite filter_cons in Hl. simpl.
    destruct (mt_targetDevice t) as [d|] eqn:Ht.
    + simpl in Hl. destruct (IH pre l Hl) as (ws & -> & Hlen & Hf). rewrite bind_done.
      eexists. split; [done|]. split; [simpl; by rewrite Hlen|]. constructor; [simpl; rewrite Ht; by eexists | done].
    + simpl in Hl. destruct l as [|d l]; [done|]. rewrite list_lookup_middle by done.
      replace (S (length pre)) with (length (pre ++ [d])) by (rewrite length_app; simpl; lia).
      replace (pre ++ d :: l) with ((pre ++ [d]) ++ l) by (by rewrite <- app_assoc).
      destruct (IH (pre ++ [d]) l) as (ws & -> & Hlen & Hf); [simpl in Hl; lia|]. rewrite bind_done.
      eexists. split; [done|]. split; [simpl; by rewrite Hlen|]. constructor; [by eexists | done].
Qed.

Definition reply_fits (r : DescriptorReply) (m : Message) : Prop :=
  length (r_targetDevices r) = missing_count (m_tensors m).

Lemma parse_reply_fits (o : WriteOperation) r :
  wo_tensors o = write_tensor <$> m_tensors (wo_message o) -> reply_fits r (wo_message o) ->
  exists ws, parseDescriptorReplyOfMessage o r = Done (o <| wo_tensors := ws |>) /\
    length ws = length (m_tensors (wo_message o)) /\ Forall (fun w => is_Some (wt_targetDevice w)) ws.
Proof.
  intros Ht Hr. unfold parseDescriptorReplyOfMessage. rewrite Ht.
  destruct (parse_targets_fills (m_tensors (wo_message o)) [] (r_targetDevices r) Hr) as (ws & Hp & Hlen & Hf).
  simpl in Hp. rewrite Hp, bind_done. cbn [fst snd]. rewrite tp_check_bind by apply Nat.eqb_refl. by exists ws.
Qed.

Lemma winv_answered ctx P H msgs K K2 first s k i o ws :
  winv ctx P H msgs K K2 first s -> writeOps_ s !! i = Some o -> wo_state o = 1%nat ->
  wo_doneReadingDescriptorReply o = false -> P !! k = Some (CbReply (wo_sequenceNumber o)) ->
  length ws = length (m_tensors (wo_message o)) ->
  (is_error (px_error ctx) = false -> Forall (fun w => is_Some (wt_targetDevice w)) ws) ->
  winv ctx (delete k P) H msgs K K2 first
    (s <| writeOps_ := <[i := o <| wo_doneReadingDescriptorReply := true |> <| wo_tensors := ws |>]> (writeOps_ s) |>).
Proof.
  intros HI Ho H1 Hd Hk Hlen Hf. pose proof (wi_ops _ _ _ _ _ _ _ _ HI i o Ho) as Hwok.
  eapply winv_modify; [done | done | done | done | done | | | |].
  - destruct Hwok as [K_1 K_2 K_3 K_4 K_5 K_6 K_7 K_8 K_9 K_10 K_11 K_12].
    split; simpl; try done; try lia. intros He _. by apply Hf.
  - eapply wcharge_other; [done | done | done].
  - eapply wcharge_other; [done | done | done].
  - eapply wcharge_delete; [done | done | by intros ? ? [=]|]. unfold reply_pending. simpl. by rewrite H1, Hd.
Qed.

Lemma reply_op ctx P H msgs s k it :
  write_ok ctx P H msgs s -> P !! k = Some (CbReply it) ->
  exists m, msgs !! Z.to_nat it = Some m.
Proof.
  intros ((K & K2 & first & HI) & _) Hk.
  destruct (pending_wop _ CbReply P k it first (writeOps_ s) Hk (wi_num _ _ _ _ _ _ _ _ HI)
    (wi_pr _ _ _ _ _ _ _ _ HI)) as (i & o & Ho & <- & Hp).
  exists (wo_message o). by apply (wi_msgs _ _ _ _ _ _ _ _ HI i).
Qed.

Lemma onDescriptorReplyRead_ok ctx P H msgs s k it r m :
  ctx_ok ctx -> write_ok ctx P H msgs s -> P !! k = Some (CbReply it) ->
  msgs !! Z.to_nat it = Some m -> (is_error (px_error ctx) = false -> reply_fits r m) ->
  write_wp (onDescriptorReplyRead ctx it r s) ctx (delete k P) H msgs.
Proof.
  intros Hctx ((K & K2 & first & HI) & Hnf & Hst) Hk Hm Hr.
  destruct (pending_wop _ CbReply P k it first (writeOps_ s) Hk (wi_num _ _ _ _ _ _ _ _ HI)
    (wi_pr _ _ _ _ _ _ _ _ HI)) as (i & o & Ho & <- & Hp).
  rewrite (wi_msgs _ _ _ _ _ _ _ _ HI i o Ho) in Hm. injection Hm as <-.
  pose proof (wi_ops _ _ _ _ _ _ _ _ HI i o Ho) as Hwok.
  unfold reply_pending in Hp. destruct (Nat.eqb_spec (wo_state o) 1) as [H1|]; [|done].
  destruct (wo_doneReadingDescriptorReply o) eqn:Hdone; [done|]. clear Hp.
  pose proof (wk_fresh _ _ _ Hwok Hdone) as Hfresh.
  unfold onDescriptorReplyRead. rewrite (update_write ctx P H msgs K K2 first s i o _ HI Ho), bind_done.
  set (o1 := o <| wo_doneReadingDescriptorReply := true |>).
  assert (forall ws, length ws = length (m_tensors (wo_message o)) ->
    (is_error (px_error ctx) = false -> Forall (fun w => is_Some (wt_targetDevice w)) ws) ->
    write_wp (advanceOperation (advanceWriteOperation ctx) (wo_sequenceNumber o)
      (s <| writeOps_ := <[i := o1 <| wo_tensors := ws |>]> (writeOps_ s) |>)) ctx (delete k P) H msgs) as Hfin.
  { intros ws Hlen Hf. eapply (w_modify_and_advance ctx (delete k P)); try done. by apply winv_answered. }
  unfold error. destruct (is_error (px_error ctx)) eqn:He.
  - rewrite bind_done. specialize (Hfin (wo_tensors o)).
    assert (o1 <| wo_tensors := wo_tensors o |> = o1) as Heq by (by destruct o). rewrite Heq in Hfin.
    apply Hfin; [apply Hwok | done].
  - destruct (w_update ctx P H msgs K K2 first s HI i o Ho (fun op => op)
      (s <| writeOps_ := <[i := o1]> (writeOps_ s) |>) o1) as [Hd _]; [done | done|].
    rewrite Hd, bind_done. destruct (parse_reply_fits o1 r) as (ws & Hpr & Hlen & Hf); [exact Hfresh | by apply Hr|].
    rewrite Hpr, bind_done.
    destruct (w_update ctx P H msgs K K2 first s HI i o Ho (fun _ => o1 <| wo_tensors := ws |>)
      (s <| writeOps_ := <[i := o1]> (writeOps_ s) |>) o1) as [_ Hu]; [done | done|].
    rewrite Hu, bind_done. by apply Hfin.
Qed.

(** ** Changing the context *)

Lemma winv_ctx ctx ctx' P H msgs K K2 first s :
  ctx_later ctx ctx' -> winv ctx P H msgs K K2 first s -> winv ctx' P H msgs K K2 first s.
Proof.
  intros [Hs He] HI. destruct HI as [I1 I2 I3 I4 I5 I6 I7 I8 I9 I10 I11 I12 I13 I14 I15 I16].
  split; try done.
  - intros i o Ho. destruct (I3 i o Ho) as [K_1 K_2 K_3 K_4 K_5 K_6 K_7 K_8 K_9 K_10 K_11 K_12].
    split; try done; [by intros Hi; apply Hs, K_2 | by intros Hx; apply K_7, He].
  - intros Hx. by apply I8, He.
  - intros Hx. by apply I9, He.
Qed.

Lemma winv_frame ctx P P' H calls msgs K K2 first s :
  winv ctx P H msgs K K2 first s -> w_calls calls = [] -> write_items calls = [] -> wdescs calls = [] ->
  send_items calls = [] ->
  (forall it, occ (CbPayloadWritten it) P' = occ (CbPayloadWritten it) P /\
     occ (CbTensorSent it) P' = occ (CbTensorSent it) P /\ occ (CbReply it) P' = occ (CbReply it) P) ->
  winv ctx P' (H ++ calls) msgs K K2 first s.
Proof.
  intros HI E1 E2 E3 E4 HP. destruct HI as [I1 I2 I3 I4 I5 I6 I7 I8 I9 I10 I11 I12 I13 I14 I15 I16].
  split; try done; rewrite ?w_calls_app, ?write_items_app, ?wdescs_app, ?send_items_app, ?E1, ?E2, ?E3, ?E4, ?app_nil_r;
    try done.
  - intros it. by rewrite (proj1 (HP it)).
  - intros it. by rewrite (proj1 (proj2 (HP it))).
  - intros it. by rewrite (proj2 (proj2 (HP it))).
Qed.

(** ** Nothing is left behind *)

Definition no_write_callbacks (P : list cb) : Prop :=
  forall it, occ (CbPayloadWritten it) P = 0 /\ occ (CbTensorSent it) P = 0 /\ occ (CbReply it) P = 0.

(** Once nothing is outstanding, every [write] was called back. *)
Lemma quiet_writes ctx P H msgs s :
  write_ok ctx P H msgs s -> no_write_callbacks P ->
  is_error (px_error ctx) = true \/ px_state ctx = ESTABLISHED ->
  nextWriteCallbackToCall_ s = nextMessageBeingWritten_ s.
Proof.
  intros ((K & K2 & first & HI) & Hnf & Hst) Hq Hs.
  destruct (writeOps_ s) as [|o l] eqn:Hl.
  { pose proof (winv_bounds _ _ _ _ _ _ _ _ HI). pose proof (wi_next _ _ _ _ _ _ _ _ HI) as Hn. rewrite Hl in Hn.
    simpl in Hn. lia. }
  exfalso. assert (writeOps_ s !! 0%nat = Some o) as Ho by (by rewrite Hl). rewrite <- Hl in *.
  destruct (Hq (wo_sequenceNumber o)) as (Q1 & Q2 & Q3). pose proof (wi_num _ _ _ _ _ _ _ _ HI) as Hn.
  pose proof (fun f => tally_at (H := write_operation) f first _ 0%nat o Hn Ho) as Ht. cbn [op_seq write_operation] in Ht.
  rewrite (wi_pp _ _ _ _ _ _ _ _ HI), Ht in Q1. rewrite (wi_pt _ _ _ _ _ _ _ _ HI), Ht in Q2.
  rewrite (wi_pr _ _ _ _ _ _ _ _ HI), Ht in Q3.
  pose proof (proj1 (Forall_lookup _ _) Hnf _ _ Ho) as H3. change (wo_state o < 3)%nat in H3.
  pose proof (Hst _ _ Ho I) as Hop. simpl in Hop.
  destruct (decide (wo_state o = 2%nat)) as [H2|].
  { pose proof (row_disabled (H := write_operation) _ o _ 5 _ Hop eq_refl H2) as Hx. cbn [t_cond] in Hx.
    by rewrite Q1, Q2 in Hx. }
  destruct (decide (wo_state o = 1%nat)) as [H1|].
  { pose proof (row_disabled (H := write_operation) _ o _ 3 _ Hop eq_refl H1) as Hx3.
    pose proof (row_disabled (H := write_operation) _ o _ 4 _ Hop eq_refl H1) as Hx4. cbn [t_cond] in Hx3, Hx4.
    unfold reply_pending in Q3. rewrite H1 in Q3. rewrite Q1 in Hx3.
    destruct (wo_doneReadingDescriptorReply o); [|done]. by destruct (error ctx). }
  assert (wo_state o = 0%nat) as H0 by lia.
  pose proof (row_disabled (H := write_operation) _ o _ 0 _ Hop eq_refl H0) as Hx0.
  pose proof (row_disabled (H := write_operation) _ o _ 1 _ Hop eq_refl H0) as Hx1.
  pose proof (row_disabled (H := write_operation) _ o _ 2 _ Hop eq_refl H0) as Hx2. cbn [t_cond] in Hx0, Hx1, Hx2.
  unfold error, established in *. destruct Hs as [Hs|Hs].
  - by rewrite Hs in Hx0.
  - rewrite Hs in Hx1, Hx2. by destruct (is_error (px_error ctx)), (wo_hasMissingTargetDevices o).
Qed.
