(* ===== verification/PipeKinds.v ===== *)
(** * Which side of a pipe makes which call

    The read operations only make the calls of reading, the write operations
    only those of writing, so that the two sides do not disturb each other. *)

From S2P Require Import Prelude Messages Select PipeBase OpsStateMachine PipeRead PipeReadInv PipeReadSide.
From S2P Require Import PipeWrite PipeWriteInv PipeWriteSide.

(** [emits K m]: all the calls [m] makes are of kind [K]. *)
Definition emits {S Ev} (K : Ev -> Prop) (m : outcome (S * list Ev)) : Prop :=
  forall r, m = Done r -> Forall K r.2.

Lemma emits_done {S Ev} (K : Ev -> Prop) (s : S) evs : Forall K evs -> emits K (Done (s, evs)).
Proof. intros Hf r Hr. by apply done_inj in Hr as <-. Qed.

Lemma emits_throw {S Ev} (K : Ev -> Prop) e : emits K (Throw e : outcome (S * list Ev)).
Proof. by intros r Hr. Qed.

Lemma emits_bind {A S Ev} (K : Ev -> Prop) (m : outcome A) (f : A -> outcome (S * list Ev)) :
  (forall a, m = Done a -> emits K (f a)) -> emits K (m ≫= f).
Proof. intros Hf r Hr. inv_bind Hr. by apply (Hf a Ha). Qed.

Lemma emits_seq {S Ev} (K : Ev -> Prop) (m : outcome (S * list Ev)) (f : S -> outcome (S * list Ev)) :
  emits K m -> (forall s, emits K (f s)) -> emits K (r ← m; r' ← f r.1; Done (r'.1, r.2 ++ r'.2)).
Proof.
  intros Hm Hf. apply emits_bind. intros a Ha. apply emits_bind. intros b Hb. apply emits_done, Forall_app.
  split; [by apply Hm | by apply (Hf a.1)].
Qed.

Section Emits.
Context {Subj Op Ev : Type} `{!Operation Op} `{!OpsMachine Subj Op} (K : Ev -> Prop).

Definition table_emits (tbl : list (@transition Subj Op Ev)) : Prop :=
  Forall (fun t => Forall (fun a => forall it s, emits K (a it s)) (t_actions t)) tbl.

Lemma run_actions_emits it l : Forall (fun a : op_action => forall it s, emits K (a it s)) l ->
  forall s : Subj, emits K (run_actions it l s).
Proof.
  induction 1 as [|a l Ha _ IH]; intros s; simpl; [by apply emits_done|]. by apply emits_seq.
Qed.

Lemma transitioner_emits tbl it prev : table_emits tbl -> forall s : Subj, emits K (transitioner tbl it prev s).
Proof.
  induction 1 as [|t tbl Ht _ IH]; intros s; simpl; [by apply emits_done|]. apply emits_seq; [|done].
  unfold attemptTransition. apply emits_bind. intros op _. destruct (_ && _); [|by apply emits_done].
  apply emits_bind. intros r Hr. apply emits_bind. intros s' _. apply emits_done.
  by apply (run_actions_emits it _ Ht s).
Qed.

Lemma advanceOne_emits tbl it (s : Subj) r :
  table_emits tbl -> advanceOneOperation tbl it s = Done r -> Forall K r.2.
Proof.
  intros Ht Hr. unfold advanceOneOperation in Hr. inv_bind Hr. inv_bind Hr. inv_bind Hr. inv_bind Hr.
  apply done_inj in Hr as <-. by eapply transitioner_emits.
Qed.

Lemma advanceOperation_emits tbl it (s : Subj) : table_emits tbl -> emits K (advanceOperation tbl it s).
Proof.
  intros Ht. unfold advanceOperation. apply emits_bind. intros op _. generalize (s64 (op_seq op)).
  generalize (S (length (get_ops s))). intros fuel. revert s.
  induction fuel as [|fuel IH]; intros s n; simpl; [apply emits_throw|].
  apply emits_bind. intros [o|] _; [|by apply emits_done]. destruct (_ =? _)%nat; [by apply emits_done|].
  apply emits_bind. intros [[adv s'] evs] H1. apply (advanceOne_emits _ _ _ _ Ht) in H1.
  destruct adv; [|by apply emits_done]. apply emits_bind. intros r Hr. apply emits_done, Forall_app.
  split; [done | by apply (IH s' (n + 1))].
Qed.

Lemma advanceAll_emits tbl (s : Subj) : table_emits tbl -> emits K (advanceAllOperations tbl s).
Proof.
  intros Ht. unfold advanceAllOperations. destruct (get_ops s) as [|o l]; [by apply emits_done|].
  generalize (s64 (op_seq o)). generalize (S (length (o :: l))). intros fuel. revert s.
  induction fuel as [|fuel IH]; intros s n; simpl; [apply emits_throw|].
  apply emits_bind. intros [q|] _; [|by apply emits_done].
  apply emits_bind. intros [[adv s'] evs] H1. apply (advanceOne_emits _ _ _ _ Ht) in H1.
  apply emits_bind. intros r Hr. apply emits_done, Forall_app. split; [done | by apply (IH s' (n + 1))].
Qed.
End Emits.

(** ** The two sides and the handshake *)

Inductive side := SideRead | SideWrite | SideSetup.
#[export] Instance side_eq_dec : EqDecision side.
Proof. solve_decision. Defined.

Definition side_of (c : pcall) : side :=
  match c with
  | UserReadDescriptor _ _ _ | UserRead _ _ | ConnReadDescriptor _ _ | ConnReadPayload _ _ _ _
  | ChanRecv _ _ _ _ | ConnWriteReply _ _ => SideRead
  | UserWrite _ _ | ConnWriteDescriptor _ _ | ConnWritePayload _ _ _ _ | ConnReadReply _ _
  | ChanSend _ _ _ _ => SideWrite
  | Setup _ => SideSetup
  end.

Definition side_of_cb (c : cb) : option side :=
  match c with
  | CbNothing => None
  | CbDescriptor _ | CbPayloadRead _ | CbTensorRecv _ => Some SideRead
  | CbPayloadWritten _ | CbReply _ | CbTensorSent _ => Some SideWrite
  | CbBrochure | CbBrochureAnswer | CbConnection _ _ | CbChannel _ _ _ => Some SideSetup
  end.

Definition all_of (k : side) (calls : list pcall) : Prop := Forall (fun c => side_of c = k) calls.

Lemma cb_side c b k : cb_of c = Some b -> side_of_cb b = Some k -> side_of c = k.
Proof.
  intros Hc Hb. destruct c as [| | | | | | | | | | |[]]; simpl in Hc; try done; injection Hc as <-; simpl in *; congruence.
Qed.

(** The callbacks of one side are not registered by the calls of another. *)
Lemma occ_other k k' calls x : all_of k calls -> side_of_cb x = Some k' -> k <> k' -> occ x (cbs_of calls) = 0.
Proof.
  intros Hk Hx Hne. induction Hk as [|c calls Hc _ IH]; [done|].
  unfold cbs_of in *. simpl. destruct (cb_of c) as [b|] eqn:Hb; [|done].
  rewrite occ_cons, decide_False; [done|]. intros ->. apply Hne. rewrite <- Hc. by apply (cb_side c x).
Qed.

(** What a pipe's [readOps_] may emit. *)
Lemma read_table_emits ctx : table_emits (fun c => side_of c = SideRead) (advanceReadOperation ctx).
Proof.
  assert (forall it ptrs ds r, read_payloads ctx it ptrs ds = Done r -> all_of SideRead r) as Hp.
  { intros it. induction ptrs as [|p ptrs IH]; intros ds r Hr; [apply done_inj in Hr as <-; constructor|].
    destruct ds as [|d ds]; [done|]. simpl in Hr. inv_bind Hr. apply done_inj in Hr as <-.
    constructor; [done | by eapply IH]. }
  assert (forall it ts ds r, recv_tensors ctx it ts ds = Done r -> all_of SideRead r) as Ht.
  { intros it ts ds. revert ts. induction ds as [|d ds IH]; intros ts r Hr;
      [destruct ts; apply done_inj in Hr as <-; constructor|].
    destruct ts as [|t ts]; [done|]. simpl in Hr. inv_bind Hr. inv_bind Hr. apply done_inj in Hr as <-.
    constructor; [done | by eapply IH]. }
  unfold advanceReadOperation. repeat (apply Forall_cons; split); try apply Forall_nil; try exact I; cbn [t_actions];
    repeat (apply Forall_cons; split); try apply Forall_nil; try exact I; intros it s;
    unfold callReadDescriptorCallback, readDescriptorOfMessage, expectReadCall, callReadCallback,
      readPayloadsOfMessage, receiveTensorsOfMessage, writeDescriptorReplyOfMessage;
    repeat (apply emits_bind; intros ? ?); apply emits_done; repeat constructor.
  all: first [by eapply Hp | by eapply Ht].
Qed.

Lemma write_table_emits ctx : table_emits (fun c => side_of c = SideWrite) (advanceWriteOperation ctx).
Proof.
  assert (forall it ts, all_of SideWrite (write_payloads ctx it ts)) as Hp.
  { intros it ts. apply Forall_fmap, Forall_forall. by intros. }
  assert (forall it ts ws r, send_tensors ctx it ts ws = Done r -> all_of SideWrite r) as Ht.
  { intros it. induction ts as [|t ts IH]; intros ws r Hr; [apply done_inj in Hr as <-; constructor|].
    destruct ws as [|w ws]; [done|]. simpl in Hr. destruct (wt_targetDevice w); [|done].
    inv_bind Hr. inv_bind Hr. apply done_inj in Hr as <-. constructor; [done | by eapply IH]. }
  unfold advanceWriteOperation. repeat (apply Forall_cons; split); try apply Forall_nil; try exact I; cbn [t_actions];
    repeat (apply Forall_cons; split); try apply Forall_nil; try exact I; intros it s;
    unfold callWriteCallback, writeDescriptorOfMessage, writePayloadsOfMessage, readDescriptorReplyOfMessage,
      sendTensorsOfMessage;
    repeat (apply emits_bind; intros ? ?); apply emits_done; repeat constructor.
  all: first [by apply Hp | by eapply Ht].
Qed.

Lemma advance_all_reads_emits ctx s : emits (fun c => side_of c = SideRead) (advanceAllReads ctx s).
Proof. apply advanceAll_emits, read_table_emits. Qed.
Lemma advance_all_writes_emits ctx s : emits (fun c => side_of c = SideWrite) (advanceAllWrites ctx s).
Proof. apply advanceAll_emits, write_table_emits. Qed.

(** The entry points and callbacks end with a run of the state machine. *)
Ltac emits_by_advance :=
  repeat first [apply advanceOperation_emits | apply emits_bind; intros ? ?]; auto using read_table_emits, write_table_emits.

Lemma readDescriptorFromLoop_emits ctx fn s : emits (fun c => side_of c = SideRead) (readDescriptorFromLoop ctx fn s).
Proof. unfold readDescriptorFromLoop. emits_by_advance. Qed.
Lemma readFromLoop_emits ctx a fn s : emits (fun c => side_of c = SideRead) (readFromLoop ctx a fn s).
Proof. unfold readFromLoop. destruct (nextMessageGettingAllocation_ s); [emits_by_advance | apply emits_throw]. Qed.
Lemma onDescriptorRead_emits ctx it d s : emits (fun c => side_of c = SideRead) (onDescriptorRead ctx it d s).
Proof. unfold onDescriptorRead. emits_by_advance. Qed.
Lemma onPayloadRead_emits ctx it s : emits (fun c => side_of c = SideRead) (onPayloadRead ctx it s).
Proof. unfold onPayloadRead. emits_by_advance. Qed.
Lemma onTensorReceived_emits ctx it s : emits (fun c => side_of c = SideRead) (onTensorReceived ctx it s).
Proof. unfold onTensorReceived. emits_by_advance. Qed.
Lemma writeFromLoop_emits ctx m fn s : emits (fun c => side_of c = SideWrite) (writeFromLoop ctx m fn s).
Proof. unfold writeFromLoop. emits_by_advance. Qed.
Lemma onPayloadWritten_emits ctx it s : emits (fun c => side_of c = SideWrite) (onPayloadWritten ctx it s).
Proof. unfold onPayloadWritten. emits_by_advance. Qed.
Lemma onTensorSent_emits ctx it s : emits (fun c => side_of c = SideWrite) (onTensorSent ctx it s).
Proof. unfold onTensorSent. emits_by_advance. Qed.
Lemma onDescriptorReplyRead_emits ctx it r s :
  emits (fun c => side_of c = SideWrite) (onDescriptorReplyRead ctx it r s).
Proof. unfold onDescriptorReplyRead. emits_by_advance. Qed.

(** ** Frames *)

Lemma omap_other {B} k calls (f : pcall -> option B) :
  all_of k calls -> (forall c, side_of c = k -> f c = None) -> omap f calls = [].
Proof. intros Hk Hf. induction Hk as [|c l Hc _ IH]; [done|]. simpl. by rewrite Hf. Qed.

(** The read side does not see the calls of the others, nor their callbacks. *)
Lemma rinv_other ctx P H G first s k calls :
  rinv ctx P H G first s -> all_of k calls -> k <> SideRead -> rinv ctx (P ++ cbs_of calls) (H ++ calls) G first s.
Proof.
  intros HI Hk Hne. assert (forall x, side_of_cb x = Some SideRead -> occ x (P ++ cbs_of calls) = occ x P) as Ho.
  { intros x Hx. rewrite occ_app, (occ_other k SideRead calls x) by done. lia. }
  apply (rinv_frame ctx P); try done; try (intros it; split_and!; by apply Ho); apply (omap_other k calls _ Hk);
    intros [] Hc; simpl in *; congruence.
Qed.

Lemma winv_other ctx P H msgs K K2 first s k calls :
  winv ctx P H msgs K K2 first s -> all_of k calls -> k <> SideWrite ->
  winv ctx (P ++ cbs_of calls) (H ++ calls) msgs K K2 first s.
Proof.
  intros HI Hk Hne. assert (forall x, side_of_cb x = Some SideWrite -> occ x (P ++ cbs_of calls) = occ x P) as Ho.
  { intros x Hx. rewrite occ_app, (occ_other k SideWrite calls x) by done. lia. }
  apply (winv_frame ctx P); try done; try (intros it; split_and!; by apply Ho); apply (omap_other k calls _ Hk);
    intros [] Hc; simpl in *; congruence.
Qed.

Lemma rinv_delete ctx P H G first s k x :
  rinv ctx P H G first s -> P !! k = Some x -> side_of_cb x <> Some SideRead -> rinv ctx (delete k P) H G first s.
Proof.
  intros HI Hk Hx. rewrite <- (app_nil_r H). apply (rinv_frame ctx P); try done.
  intros it. split_and!; rewrite (occ_delete _ _ _ _ Hk), decide_False by (by intros ->); lia.
Qed.

Lemma winv_delete ctx P H msgs K K2 first s k x :
  winv ctx P H msgs K K2 first s -> P !! k = Some x -> side_of_cb x <> Some SideWrite ->
  winv ctx (delete k P) H msgs K K2 first s.
Proof.
  intros HI Hk Hx. rewrite <- (app_nil_r H). apply (winv_frame ctx P); try done.
  intros it. split_and!; rewrite (occ_delete _ _ _ _ Hk), decide_False by (by intros ->); lia.
Qed.
