(* ===== verification/Pipe.v ===== *)
(** * The pipe

    [core/pipe_impl.cc]: the handshake by which a pipe gets its connections and
    channels, the handling of errors, and the dispatch of callbacks to the read
    and write sides.  What the pipe asks of its context is a [ContextView]; the
    identifiers the listener hands out and the connections the transports open
    are arguments. *)

From S2P Require Import Prelude Messages Select PipeBase OpsStateMachine PipeRead PipeWrite.

(** [context_]: its name, and its transports and channels by priority. *)
Record ContextView := mkContextView {
  cv_name : string;
  cv_transports : TOrderedTransports;
  cv_channels : TOrderedChannels;
}.

Fixpoint assoc {A} (name : string) (l : list (string * A)) : outcome A :=
  match l with
  | [] => Throw ExInvalidArgument
  | (n, a) :: l => if decide (n = name) then Done a else assoc name l
  end.
Definition getTransport (v : ContextView) (transport : string) : outcome TransportContext :=
  assoc transport (cv_transports v).
Definition getChannel (v : ContextView) (channel : string) : outcome ChannelContext :=
  assoc channel (cv_channels v).

Record PipeImpl := mkPipeImpl {
  state_ : PipeState;
  error_ : Error;
  transport_ : string;
  descriptorConnection_ : conn;
  descriptorReplyConnection_ : option conn;
  channels_ : gset string;
  channelForDevicePair_ : gmap (Device * Device) string;
  registrationIds_ : gmap Z Z;
  channelRegistrationIds_ : gmap string (list Z);
  channelReceivedConnections_ : gmap string (list (option conn));
  reads_ : ReadSide;
  writes_ : WriteSide;
}.
#[export] Instance eta_PipeImpl : Eta PipeImpl := fun p =>
  mkPipeImpl (state_ p) (error_ p) (transport_ p) (descriptorConnection_ p) (descriptorReplyConnection_ p)
    (channels_ p) (channelForDevicePair_ p) (registrationIds_ p) (channelRegistrationIds_ p)
    (channelReceivedConnections_ p) (reads_ p) (writes_ p).

(** The constructors: of an outgoing pipe, and of one accepted by a listener. *)
Definition newPipe (state : PipeState) (transport : string) (connection : conn) : PipeImpl :=
  mkPipeImpl state kSuccess transport connection None ∅ ∅ ∅ ∅ ∅ newReadSide newWriteSide.
Definition newClientPipe : string -> conn -> PipeImpl := newPipe CLIENT_ABOUT_TO_SEND_HELLO_AND_BROCHURE.
Definition newServerPipe : string -> conn -> PipeImpl := newPipe SERVER_WAITING_FOR_BROCHURE.

(** What the operations see of the pipe. *)
Definition ctx_of (p : PipeImpl) : PipeCtx :=
  mkPipeCtx (state_ p) (error_ p) (descriptorConnection_ p) (descriptorReplyConnection_ p)
    (channelForDevicePair_ p) (channels_ p).

Definition pipe_result : Type := outcome (PipeImpl * list pcall).

Definition on_reads (f : PipeCtx -> ReadSide -> outcome (ReadSide * list pcall)) (p : PipeImpl) : pipe_result :=
  r ← f (ctx_of p) (reads_ p); Done (p <| reads_ := r.1 |>, r.2).
Definition on_writes (f : PipeCtx -> WriteSide -> outcome (WriteSide * list pcall)) (p : PipeImpl) : pipe_result :=
  r ← f (ctx_of p) (writes_ p); Done (p <| writes_ := r.1 |>, r.2).

(** Runs [f] and appends its calls. *)
Definition andThen (m : pipe_result) (f : PipeImpl -> pipe_result) : pipe_result :=
  r1 ← m; r2 ← f r1.1; Done (r2.1, r1.2 ++ r2.2).

(** [readOps_.advanceAllOperations(); writeOps_.advanceAllOperations();] *)
Definition advanceBoth (p : PipeImpl) : pipe_result :=
  andThen (on_reads advanceAllReads p) (on_writes advanceAllWrites).

(** ** Error handling *)

Definition handleError (p : PipeImpl) : pipe_result :=
  let closing :=
    [Setup (CloseConnection (descriptorConnection_ p))] ++
    (match descriptorReplyConnection_ p with Some c => [Setup (CloseConnection c)] | None => [] end) ++
    ((fun name => Setup (CloseChannel name)) <$> elements (channels_ p)) ++
    ((fun r => Setup (Unregister r.2)) <$> map_to_list (registrationIds_ p)) ++
    (r ← map_to_list (channelRegistrationIds_ p); token ← r.2; [Setup (Unregister token)]) in
  let p := p <| registrationIds_ := ∅ |> <| channelRegistrationIds_ := ∅ |>
             <| channelReceivedConnections_ := ∅ |> in
  andThen (andThen (Done (p, closing)) advanceBoth) (fun p => Done (p, [Setup Unenroll])).

Definition setError (error : Error) (p : PipeImpl) : pipe_result :=
  if is_error (error_ p) || negb (is_error error) then Done (p, [])
  else handleError (p <| error_ := error |>).

Definition closeFromLoop : PipeImpl -> pipe_result := setError PipeClosedError.

(** ** Initialization *)

Definition initFromLoop (v : ContextView) (context_closed : bool) (p : PipeImpl) : PipeImpl * list pcall :=
  if context_closed then (p <| error_ := PipeClosedError |>, [])
  else
    match state_ p with
    | CLIENT_ABOUT_TO_SEND_HELLO_AND_BROCHURE =>
        (p <| state_ := CLIENT_WAITING_FOR_BROCHURE_ANSWER |>,
         [Setup Enroll;
          Setup (WriteSpontaneousConnection (descriptorConnection_ p) (cv_name v));
          Setup (WriteBrochure (descriptorConnection_ p)
                   (mkBrochure (brochure_transports (cv_transports v)) (brochure_channels (cv_channels v))));
          Setup (ReadBrochureAnswer (descriptorConnection_ p))])
    | SERVER_WAITING_FOR_BROCHURE => (p, [Setup Enroll; Setup (ReadBrochure (descriptorConnection_ p))])
    | _ => (p, [Setup Enroll])
    end.

(** ** The handshake, server side *)

Definition pendingRegistrations (p : PipeImpl) : bool :=
  if negb (bool_decide (registrationIds_ p = ∅)) then true
  else if negb (bool_decide (channelRegistrationIds_ p = ∅)) then true
  else false.

(** [tok n]: the identifier returned by the [n]-th registration. *)
Definition registerTransport (connId token : Z) (p : PipeImpl) : pipe_result :=
  _ ← tp_check (bool_decide (registrationIds_ p !! connId = None));
  Done (p <| registrationIds_ ::= <[connId := token]> |>, [Setup (RegisterTransport token connId)]).

Definition registerChannel (v : ContextView) (channelName : string) (tok : nat -> Z) (n : nat) (p : PipeImpl)
    : outcome (PipeImpl * list Z * list pcall) :=
  channelContext ← getChannel v channelName;
  let numConnectionsNeeded := cc_numConnectionsNeeded channelContext in
  let ids := tok <$> seq n numConnectionsNeeded in
  let received := resize numConnectionsNeeded None (default [] (channelReceivedConnections_ p !! channelName)) in
  Done (p <| channelRegistrationIds_ ::= <[channelName := ids]> |>
          <| channelReceivedConnections_ ::= <[channelName := received]> |>,
        ids, imap (fun connId token => Setup (RegisterChannel token channelName connId)) ids).

(** The loop over [descriptorsMap]. *)
Fixpoint register_channels (v : ContextView) (names : list string) (tok : nat -> Z) (n : nat) (p : PipeImpl)
    : outcome (PipeImpl * gmap string (list Z) * list pcall) :=
  match names with
  | [] => Done (p, ∅, [])
  | channelName :: names =>
      '(p, ids, calls) ← registerChannel v channelName tok n p;
      '(p, idsMap, calls') ← register_channels v names tok (n + length ids) p;
      Done (p, <[channelName := ids]> idsMap, calls ++ calls')
  end.

(** The registration of the descriptor connection, when the transport changes. *)
Definition switch_transport (name : string) (tok : nat -> Z) (p : PipeImpl)
    : outcome (PipeImpl * gmap Z Z * nat * list pcall) :=
  if decide (name = transport_ p) then Done (p, ∅, 0%nat, [])
  else
    '(p, calls) ← registerTransport DESCRIPTOR (tok 0%nat) (p <| transport_ := name |>);
    Done (p, {[DESCRIPTOR := tok 0%nat]}, 1%nat, calls).

Definition establish (p : PipeImpl) : pipe_result := advanceBoth (p <| state_ := ESTABLISHED |>).

Definition onReadWhileServerWaitingForBrochure (v : ContextView) (addresses : gmap string string) (tok : nat -> Z)
    (nopBrochure : Brochure) (p : PipeImpl) : pipe_result :=
  _ ← tp_check (bool_decide (state_ p = SERVER_WAITING_FOR_BROCHURE));
  transport ← selectTransport (cv_transports v) (b_transportDomainDescriptors nopBrochure) addresses;
  '(p, ids1, n, calls1) ← switch_transport (st_name transport) tok p;
  '(p, calls2) ← registerTransport DESCRIPTOR_REPLY (tok n) p;
  let selectedChannels := selectChannels (cv_channels v) (b_channelDeviceDescriptors nopBrochure) in
  let p := p <| channelForDevicePair_ := sc_channelForDevicePair selectedChannels |> in
  '(p, channelIds, calls3) ←
     register_channels v (map_to_list (sc_descriptorsMap selectedChannels)).*1 tok (S n) p;
  let nopBrochureAnswer :=
    mkBrochureAnswer (st_name transport) (st_address transport) (<[DESCRIPTOR_REPLY := tok n]> ids1)
      (st_domainDescriptor transport) channelIds (sc_descriptorsMap selectedChannels)
      (sc_channelForDevicePair selectedChannels) in
  let calls := calls1 ++ calls2 ++ calls3 ++
               [Setup (WriteBrochureAnswer (descriptorConnection_ p) nopBrochureAnswer)] in
  andThen (Done (p, calls)) (fun p =>
    if pendingRegistrations p then Done (p <| state_ := SERVER_WAITING_FOR_CONNECTIONS |>, []) else establish p).

Definition establish_if_ready (p : PipeImpl) : pipe_result :=
  if pendingRegistrations p then Done (p, []) else establish p.

Definition onAcceptWhileServerWaitingForConnection (connId : Z) (receivedTransport : string)
    (receivedConnection : conn) (p : PipeImpl) : pipe_result :=
  _ ← tp_check (bool_decide (state_ p = SERVER_WAITING_FOR_CONNECTIONS));
  match registrationIds_ p !! connId with
  | None => Throw ExAssert
  | Some token =>
      let p := p <| registrationIds_ ::= delete connId |> in
      _ ← tp_check (bool_decide (transport_ p = receivedTransport));
      p ← (if connId =? DESCRIPTOR then Done (p <| descriptorConnection_ := receivedConnection |>)
           else if connId =? DESCRIPTOR_REPLY then Done (p <| descriptorReplyConnection_ := Some receivedConnection |>)
           else Throw (ExAssertMsg "Unrecognized connection identifier"));
      andThen (Done (p, [Setup (Unregister token)])) establish_if_ready
  end.

Fixpoint all_received (l : list (option conn)) : option (list conn) :=
  match l with
  | [] => Some []
  | None :: _ => None
  | Some c :: l => cs ← all_received l; Some (c :: cs)
  end.

Definition onAcceptWhileServerWaitingForChannel (v : ContextView) (channelName : string) (connId : nat)
    (receivedTransport : string) (receivedConnection : conn) (p : PipeImpl) : pipe_result :=
  _ ← tp_check (bool_decide (state_ p = SERVER_WAITING_FOR_CONNECTIONS));
  _ ← tp_check (bool_decide (transport_ p = receivedTransport));
  match channelRegistrationIds_ p !! channelName, channelReceivedConnections_ p !! channelName with
  | Some ids, Some received =>
      match ids !! connId, received !! connId with
      | Some token, Some _ =>
          let received := <[connId := Some receivedConnection]> received in
          let p := p <| channelReceivedConnections_ ::= <[channelName := received]> |> in
          match all_received received with
          | None => Done (p, [Setup (Unregister token)])
          | Some connections =>
              _ ← getChannel v channelName;
              let p := p <| channelRegistrationIds_ ::= delete channelName |>
                         <| channelReceivedConnections_ ::= delete channelName |> in
              _ ← tp_check (bool_decide (channelName ∉ channels_ p));
              andThen (Done (p <| channels_ ::= fun c => {[channelName]} ∪ c |>,
                             [Setup (Unregister token); Setup (CreateChannel channelName connections)]))
                      establish_if_ready
          end
      | _, _ => Throw ExDangling
      end
  | None, _ => Throw ExAssert
  | Some _, None => Throw ExDangling
  end.

(** ** The handshake, client side *)

Definition inconsistent : exn := ExAssertMsg "Inconsistent channel selection".

(** Opens a connection and tells the listener which request it answers. *)
Definition openConnection (transport address : string) (c : conn) (token : Z) : list pcall :=
  [Setup (OpenConnection c transport address); Setup (WriteRequestedConnection c token)].

(** The body of the loop over the channels; [conns n] is the [n]-th connection
    opened. *)
Definition open_channel (v : ContextView) (transport address : string) (ids : gmap string (list Z))
    (conns : nat -> conn) (n : nat) (channelName : string) : outcome (nat * list pcall) :=
  channelContext ← getChannel v channelName;
  match ids !! channelName with
  | None => Throw ExOutOfRange
  | Some registrationIds =>
      let numConnectionsNeeded := cc_numConnectionsNeeded channelContext in
      _ ← tp_check (numConnectionsNeeded =? length registrationIds)%nat;
      let connections := conns <$> seq n numConnectionsNeeded in
      Done ((n + numConnectionsNeeded)%nat,
            mjoin (zip_with (openConnection transport address) connections registrationIds) ++
            [Setup (CreateChannel channelName connections)])
  end.

Fixpoint open_channels (v : ContextView) (transport address : string) (ids : gmap string (list Z))
    (conns : nat -> conn) (n : nat) (names : list string) (p : PipeImpl) : pipe_result :=
  match names with
  | [] => Done (p, [])
  | channelName :: names =>
      '(n, calls) ← open_channel v transport address ids conns n channelName;
      andThen (Done (p <| channels_ ::= fun c => {[channelName]} ∪ c |>, calls))
              (open_channels v transport address ids conns n names)
  end.

Definition onReadWhileClientWaitingForBrochureAnswer (v : ContextView) (conns : nat -> conn)
    (nopBrochureAnswer : BrochureAnswer) (p : PipeImpl) : pipe_result :=
  _ ← tp_check (bool_decide (state_ p = CLIENT_WAITING_FOR_BROCHURE_ANSWER));
  let transport := ba_transport nopBrochureAnswer in
  let address := ba_address nopBrochureAnswer in
  transportContext ← getTransport v transport;
  _ ← tp_check (tc_canCommunicateWithRemote transportContext (ba_transportDomainDescriptor nopBrochureAnswer));
  '(p, calls1) ←
     (if decide (transport = transport_ p) then Done (p, [])
      else match ba_transportRegistrationIds nopBrochureAnswer !! DESCRIPTOR with
           | None => Throw ExAssert
           | Some token =>
               Done (p <| transport_ := transport |> <| descriptorConnection_ := conns 0%nat |>,
                     openConnection transport address (conns 0%nat) token)
           end);
  match ba_transportRegistrationIds nopBrochureAnswer !! DESCRIPTOR_REPLY with
  | None => Throw ExAssert
  | Some token =>
      let p := p <| descriptorReplyConnection_ := Some (conns 1%nat) |> in
      let calls2 := openConnection transport address (conns 1%nat) token in
      let selectedChannels := selectChannels (cv_channels v) (ba_channelDeviceDescriptors nopBrochureAnswer) in
      let p := p <| channelForDevicePair_ := sc_channelForDevicePair selectedChannels |> in
      if channels_consistent (ba_channelForDevicePair nopBrochureAnswer) (channelForDevicePair_ p) then
        andThen (andThen (Done (p, calls1 ++ calls2))
          (open_channels v transport address (ba_channelRegistrationIds nopBrochureAnswer) conns 2
             (map_to_list (sc_descriptorsMap selectedChannels)).*1))
          establish
      else Throw inconsistent
  end.

(** ** The callbacks *)

(** What a callback is given when it is called. *)
Inductive delivery :=
| DNothing
| DDescriptor (d : Descriptor)
| DReply (r : DescriptorReply)
| DBrochure (b : Brochure) (addresses : gmap string string) (tok : nat -> Z)
| DAnswer (a : BrochureAnswer) (conns : nat -> conn)
| DConnection (transport : string) (c : conn).

(** [if (!impl.error_) ...] *)
Definition unless_error (f : PipeImpl -> pipe_result) (p : PipeImpl) : pipe_result :=
  if is_error (error_ p) then Done (p, []) else f p.

(** The body of each callback ([DNothing] stands for absent data). *)
Definition callback_body (v : ContextView) (c : cb) (d : delivery) (p : PipeImpl) : pipe_result :=
  match c, d with
  | CbNothing, _ => Done (p, [])
  | CbDescriptor it, DDescriptor desc => on_reads (fun ctx => onDescriptorRead ctx it desc) p
  | CbDescriptor it, _ => on_reads (fun ctx => onDescriptorRead ctx it emptyDescriptor) p
  | CbPayloadRead it, _ => on_reads (fun ctx => onPayloadRead ctx it) p
  | CbTensorRecv it, _ => on_reads (fun ctx => onTensorReceived ctx it) p
  | CbPayloadWritten it, _ => on_writes (fun ctx => onPayloadWritten ctx it) p
  | CbTensorSent it, _ => on_writes (fun ctx => onTensorSent ctx it) p
  | CbReply it, DReply r => on_writes (fun ctx => onDescriptorReplyRead ctx it r) p
  | CbReply it, _ => on_writes (fun ctx => onDescriptorReplyRead ctx it (mkDescriptorReply [])) p
  | CbBrochure, DBrochure b addresses tok =>
      unless_error (onReadWhileServerWaitingForBrochure v addresses tok b) p
  | CbBrochureAnswer, DAnswer a conns => unless_error (onReadWhileClientWaitingForBrochureAnswer v conns a) p
  | CbConnection _ connId, DConnection transport c =>
      unless_error (onAcceptWhileServerWaitingForConnection connId transport c) p
  | CbChannel _ name connId, DConnection transport c =>
      unless_error (onAcceptWhileServerWaitingForChannel v name connId transport c) p
  | _, _ => Done (p, [])
  end.

(** [CallbackWrapper::entryPointFromLoop]: the error first, then the callback
    regardless of it. *)
Definition entryPointFromLoop (v : ContextView) (c : cb) (e : Error) (d : delivery) (p : PipeImpl) : pipe_result :=
  andThen (setError e p) (callback_body v c d).
