(* ===== verification/PipeInv.v ===== *)
(** * The invariant of the pipe

    [setup_ok] is the part of the invariant about the handshake: which
    connections and channels the pipe has in each state and which callbacks it
    is waiting for.  [pipe_ok] adds the invariants of the two sides. *)

From S2P Require Import Prelude Messages Select PipeBase OpsStateMachine PipeRead PipeReadInv PipeReadSide.
From S2P Require Import PipeWrite PipeWriteInv PipeWriteSide PipeKinds Pipe.

(** ** The selected channels belong to the context *)

Lemma selected_descs l remote n d : NoDup l.*1 ->
  sc_descriptorsMap (selectChannels l remote) !! n = Some d <->
  exists c k, (n, c) ∈ l /\ d = cc_deviceDescriptors c /\ sc_channelForDevicePair (selectChannels l remote) !! k = Some n.
Proof.
  intros Hd. unfold selectChannels. rewrite select_loop_descs; [|done | by intros; apply lookup_empty].
  simpl. rewrite lookup_empty. split.
  - intros [?|(c & k & H1 & H2 & _ & H3)]; [done|]. exists c, k. split_and!; [done..|]. by rewrite select_loop_pairs.
  - intros (c & k & H1 & H2 & H3). right. exists c, k. split_and!; [done | done | apply lookup_empty|].
    rewrite select_loop_pairs in H3. exact H3.
Qed.

Lemma selected_pairs l remote k n : NoDup l.*1 ->
  sc_channelForDevicePair (selectChannels l remote) !! k = Some n ->
  is_Some (sc_descriptorsMap (selectChannels l remote) !! n).
Proof.
  intros Hd Hp. assert (exists c, (n, c) ∈ l) as [c Hin].
  { unfold selectChannels in Hp. rewrite select_loop_pairs in Hp. simpl in Hp. rewrite lookup_empty in Hp.
    rewrite first_channel_name in Hp. apply first_name_elem in Hp as (c & Hin & _). by exists c. }
  eexists. apply selected_descs; [done|]. by exists c, k.
Qed.

Lemma assoc_elem {A} n (a : A) l : NoDup l.*1 -> (n, a) ∈ l -> assoc n l = Done a.
Proof.
  induction l as [|[m b] l IH]; [set_solver|]. rewrite fmap_cons, NoDup_cons. simpl. intros [Hm Hd] Hin.
  destruct (decide (m = n)) as [->|Hne].
  - apply elem_of_cons in Hin as [[= ->]|Hin]; [done|]. exfalso. apply Hm, list_elem_of_fmap. by exists (n, a).
  - apply elem_of_cons in Hin as [[= ->]|Hin]; [done | by apply IH].
Qed.

(** A channel of the view that the selection mentions. *)
Lemma selected_known v remote n : NoDup (cv_channels v).*1 ->
  n ∈ (map_to_list (sc_descriptorsMap (selectChannels (cv_channels v) remote))).*1 ->
  exists c, getChannel v n = Done c.
Proof.
  intros Hd Hn. apply list_elem_of_fmap in Hn as ([n' d] & -> & Hn). apply elem_of_map_to_list in Hn.
  apply selected_descs in Hn as (c & k & Hin & _); [|done]. exists c. by apply assoc_elem.
Qed.

(** ** The handshake *)

Definition handshake_state (s : PipeState) : Prop :=
  s = CLIENT_WAITING_FOR_BROCHURE_ANSWER \/ s = SERVER_WAITING_FOR_BROCHURE \/
  s = SERVER_WAITING_FOR_CONNECTIONS \/ s = ESTABLISHED.

(** The registration that channel connection [connId] of [name] waits for. *)
Definition slot (p : PipeImpl) (name : string) (connId : nat) : option Z :=
  match channelRegistrationIds_ p !! name, channelReceivedConnections_ p !! name with
  | Some ids, Some received =>
      match ids !! connId, received !! connId with Some tok, Some None => Some tok | _, _ => None end
  | _, _ => None
  end.

Definition no_registrations (p : PipeImpl) : Prop :=
  registrationIds_ p = ∅ /\ channelRegistrationIds_ p = ∅ /\ channelReceivedConnections_ p = ∅.

Definition waiting_for (p : PipeImpl) (s : PipeState) : Z := if decide (state_ p = s) then 1 else 0.

(** [so_alive]: as long as there is no error. *)
Record setup_core (v : ContextView) (P : list cb) (p : PipeImpl) : Prop := {
  so_established : state_ p = ESTABLISHED ->
    is_Some (descriptorReplyConnection_ p) /\
    forall k name, channelForDevicePair_ p !! k = Some name -> name ∈ channels_ p;
  so_waiting : is_error (error_ p) = false -> state_ p = SERVER_WAITING_FOR_CONNECTIONS ->
    (is_Some (descriptorReplyConnection_ p) \/ is_Some (registrationIds_ p !! DESCRIPTOR_REPLY)) /\
    forall k name, channelForDevicePair_ p !! k = Some name ->
      name ∈ channels_ p \/ is_Some (channelRegistrationIds_ p !! name);
  so_regs : is_error (error_ p) = true \/ state_ p <> SERVER_WAITING_FOR_CONNECTIONS -> no_registrations p;
  so_fresh : state_ p = CLIENT_WAITING_FOR_BROCHURE_ANSWER \/ state_ p = SERVER_WAITING_FOR_BROCHURE ->
    channels_ p = ∅;
  so_disjoint : forall name, name ∈ channels_ p -> channelRegistrationIds_ p !! name = None;
  so_recv : forall name ids, channelRegistrationIds_ p !! name = Some ids ->
    exists received c, channelReceivedConnections_ p !! name = Some received /\ length received = length ids /\
      getChannel v name = Done c /\ length ids = cc_numConnectionsNeeded c /\
      (Forall is_Some received -> ids = []);
  so_none : forall name, channelRegistrationIds_ p !! name = None -> channelReceivedConnections_ p !! name = None;
  so_connids : forall id tok, registrationIds_ p !! id = Some tok -> id = DESCRIPTOR \/ id = DESCRIPTOR_REPLY;
  so_state : is_error (error_ p) = false -> handshake_state (state_ p);
  so_pconn : is_error (error_ p) = false -> forall tok id,
    occ (CbConnection tok id) P = if decide (registrationIds_ p !! id = Some tok) then 1 else 0;
  so_pchan : is_error (error_ p) = false -> forall tok name id,
    occ (CbChannel tok name id) P = if decide (slot p name id = Some tok) then 1 else 0;
  so_pbro : is_error (error_ p) = false -> occ CbBrochure P = waiting_for p SERVER_WAITING_FOR_BROCHURE;
  so_pans : is_error (error_ p) = false -> occ CbBrochureAnswer P = waiting_for p CLIENT_WAITING_FOR_BROCHURE_ANSWER;
}.

Definition setup_ok (v : ContextView) (P : list cb) (p : PipeImpl) : Prop :=
  setup_core v P p /\
  (is_error (error_ p) = false -> state_ p = SERVER_WAITING_FOR_CONNECTIONS -> pendingRegistrations p = true).

Definition pipe_ok (v : ContextView) (P : list cb) (H : list pcall) (G : Z) (msgs : list Message) (p : PipeImpl) : Prop :=
  setup_ok v P p /\ read_ok (ctx_of p) P H G (reads_ p) /\ write_ok (ctx_of p) P H msgs (writes_ p).

(** The same, but operations may be able to advance. *)
Definition pipe_live (v : ContextView) (P : list cb) (H : list pcall) (G : Z) (msgs : list Message) (p : PipeImpl) : Prop :=
  setup_ok v P p /\
  ((exists first, rinv (ctx_of p) P H G first (reads_ p)) /\ no_finished (readOps_ (reads_ p))) /\
  ((exists K K2 first, winv (ctx_of p) P H msgs K K2 first (writes_ p)) /\ no_finished (writeOps_ (writes_ p))).

Lemma pipe_ok_live v P H G msgs p : pipe_ok v P H G msgs p -> pipe_live v P H G msgs p.
Proof. intros (Hs & (Hr & Hrf & _) & (Hw & Hwf & _)). by split_and!. Qed.

Lemma setup_ctx v P p : setup_ok v P p -> ctx_ok (ctx_of p).
Proof. intros [Hs _]. split; simpl; intros He; by destruct (so_established _ _ _ Hs He). Qed.

(** The setup does not depend on the callbacks of the two sides. *)
Lemma setup_frame v P P' p :
  setup_ok v P p -> (forall x, side_of_cb x = Some SideSetup -> occ x P' = occ x P) -> setup_ok v P' p.
Proof.
  intros [[S1 S2 S3 S4 S5 S6 S7 S8 S9 S10 S11 S12 S13] Hp] Ho. split; [|done].
  split; try done; intros; rewrite Ho by done; auto.
Qed.

(** After an error the callbacks of the handshake do nothing. *)
Lemma setup_frame_error v P P' p : setup_ok v P p -> is_error (error_ p) = true -> setup_ok v P' p.
Proof.
  intros [[S1 S2 S3 S4 S5 S6 S7 S8 S9 S10 S11 S12 S13] Hp] He. split; [|done]. split; try done; congruence.
Qed.

Definition same_setup (p p' : PipeImpl) : Prop := exists r w, p' = p <| reads_ := r |> <| writes_ := w |>.

Lemma setup_same v P p p' : same_setup p p' -> setup_ok v P p -> setup_ok v P p'.
Proof.
  intros (r & w & ->) [[S1 S2 S3 S4 S5 S6 S7 S8 S9 S10 S11 S12 S13] Hp]. by split; [split|].
Qed.

Lemma setup_calls v P p k calls : setup_ok v P p -> all_of k calls -> k <> SideSetup -> setup_ok v (P ++ cbs_of calls) p.
Proof.
  intros Hs Hk Hne. eapply setup_frame; [done|]. intros x Hx. rewrite occ_app, (occ_other k SideSetup calls x) by done.
  lia.
Qed.

Lemma setup_delete v P p k x :
  setup_ok v P p -> P !! k = Some x -> side_of_cb x <> Some SideSetup -> setup_ok v (delete k P) p.
Proof.
  intros Hs Hk Hx. eapply setup_frame; [done|]. intros y Hy. rewrite (occ_delete _ _ _ _ Hk), decide_False by congruence.
  lia.
Qed.

(** ** Composing results *)

(** [exn]s a pipe can throw. *)
Definition expected_exn (e : exn) : Prop := e = no_channel \/ e = no_viable_transport.

Definition pipe_wp (m : pipe_result) (v : ContextView) (P : list cb) (H : list pcall) (G : Z) (msgs : list Message)
    (Post : PipeImpl -> list pcall -> Prop) : Prop :=
  wp m expected_exn (fun r => pipe_ok v (P ++ cbs_of r.2) (H ++ r.2) G msgs r.1 /\ Post r.1 r.2).

Lemma andThen_wp m f Q (Post : PipeImpl * list pcall -> Prop) :
  wp m Q (fun r1 => wp (f r1.1) Q (fun r2 => Post (r2.1, r1.2 ++ r2.2))) -> wp (andThen m f) Q Post.
Proof.
  intros Hw. unfold andThen. apply wp_bind. eapply wp_mono; [exact Hw|]. intros r1 Hr. simpl.
  apply wp_bind. eapply wp_mono; [exact Hr|]. done.
Qed.

Lemma wp_exn {A} (m : outcome A) (Q Q' : exn -> Prop) P : wp m Q P -> (forall e, Q e -> Q' e) -> wp m Q' P.
Proof. destruct m; simpl; auto. Qed.

Lemma wp_and_emits {S Ev} (K : Ev -> Prop) (m : outcome (S * list Ev)) Q P :
  wp m Q P -> emits K m -> wp m Q (fun r => P r /\ Forall K r.2).
Proof. intros Hw He. destruct m as [r|e]; simpl in *; [|done]. split; [done | by apply He]. Qed.

(** One side runs; the other one and the setup stay as they are. *)
Lemma reads_run v P H G msgs p f :
  setup_ok v P p ->
  (exists K K2 first, winv (ctx_of p) P H msgs K K2 first (writes_ p)) /\ no_finished (writeOps_ (writes_ p)) ->
  read_wp (f (ctx_of p) (reads_ p)) (ctx_of p) P H G ->
  emits (fun c => side_of c = SideRead) (f (ctx_of p) (reads_ p)) ->
  wp (on_reads f p) expected_exn (fun r =>
    exists s, r.1 = p <| reads_ := s |> /\ all_of SideRead r.2 /\ setup_ok v (P ++ cbs_of r.2) r.1 /\
      read_ok (ctx_of p) (P ++ cbs_of r.2) (H ++ r.2) G s /\
      (exists K K2 first, winv (ctx_of p) (P ++ cbs_of r.2) (H ++ r.2) msgs K K2 first (writes_ p)) /\
      no_finished (writeOps_ (writes_ p))).
Proof.
  intros Hs [(K & K2 & first & Hw) Hwf] Hr He. unfold on_reads. apply wp_bind.
  eapply wp_exn; [eapply wp_mono; [by apply wp_and_emits|] | by left].
  intros r [Hrok Hk]. simpl. exists r.1. split_and!; try done.
  - eapply setup_same; [|by eapply setup_calls]. exists r.1, (writes_ p). by destruct p.
  - exists K, K2, first. by eapply winv_other.
Qed.

Lemma writes_run v P H G msgs p f :
  setup_ok v P p ->
  (exists first, rinv (ctx_of p) P H G first (reads_ p)) /\ no_finished (readOps_ (reads_ p)) ->
  write_wp (f (ctx_of p) (writes_ p)) (ctx_of p) P H msgs ->
  emits (fun c => side_of c = SideWrite) (f (ctx_of p) (writes_ p)) ->
  wp (on_writes f p) expected_exn (fun r =>
    exists s, r.1 = p <| writes_ := s |> /\ all_of SideWrite r.2 /\ setup_ok v (P ++ cbs_of r.2) r.1 /\
      write_ok (ctx_of p) (P ++ cbs_of r.2) (H ++ r.2) msgs s /\
      (exists first, rinv (ctx_of p) (P ++ cbs_of r.2) (H ++ r.2) G first (reads_ p)) /\
      no_finished (readOps_ (reads_ p))).
Proof.
  intros Hs [(first & Hr) Hrf] Hw He. unfold on_writes. apply wp_bind.
  eapply wp_exn; [eapply wp_mono; [by apply wp_and_emits|] | by left].
  intros r [Hwok Hk]. simpl. exists r.1. split_and!; try done.
  - eapply setup_same; [|by eapply setup_calls]. exists (reads_ p), r.1. by destruct p.
  - exists first. by eapply rinv_other.
Qed.
