(* ===== verification/PipeSteps.v ===== *)
(** * The pipe keeps its invariant *)

From S2P Require Import Prelude Messages Select PipeBase OpsStateMachine PipeRead PipeReadInv PipeReadSide.
From S2P Require Import PipeWrite PipeWriteInv PipeWriteSide PipeKinds Pipe PipeInv.

(** ** Running one side, or both *)

Lemma on_reads_ok v P H G msgs p f :
  setup_ok v P p -> write_ok (ctx_of p) P H msgs (writes_ p) ->
  read_wp (f (ctx_of p) (reads_ p)) (ctx_of p) P H G ->
  emits (fun c => side_of c = SideRead) (f (ctx_of p) (reads_ p)) ->
  pipe_wp (on_reads f p) v P H G msgs (fun p' _ => same_setup p p').
Proof.
  intros Hs (Hw & Hwf & Hst) Hr He. eapply wp_mono; [by apply (reads_run v P H G msgs)|].
  intros r (s & -> & Hk & Hs' & Hr' & Hw' & _). split; [by split_and!|]. exists s, (writes_ p). by destruct p.
Qed.

Lemma on_writes_ok v P H G msgs p f :
  setup_ok v P p -> read_ok (ctx_of p) P H G (reads_ p) ->
  write_wp (f (ctx_of p) (writes_ p)) (ctx_of p) P H msgs ->
  emits (fun c => side_of c = SideWrite) (f (ctx_of p) (writes_ p)) ->
  pipe_wp (on_writes f p) v P H G msgs (fun p' _ => same_setup p p').
Proof.
  intros Hs (Hr & Hrf & Hst) Hw He. eapply wp_mono; [by apply (writes_run v P H G msgs)|].
  intros r (s & -> & Hk & Hs' & Hw' & Hr' & _). split; [by split_and!|]. exists (reads_ p), s. by destruct p.
Qed.

Lemma advanceBoth_ok v P H G msgs p :
  pipe_live v P H G msgs p -> pipe_wp (advanceBoth p) v P H G msgs (fun p' _ => same_setup p p').
Proof.
  intros (Hs & [(first & Hr) Hrf] & Hw). pose proof (setup_ctx _ _ _ Hs) as Hctx.
  unfold advanceBoth. apply andThen_wp. eapply wp_mono.
  { apply (reads_run v P H G msgs); [done | done | | apply advance_all_reads_emits]. by eapply advance_all_reads. }
  intros [p1 c1] (s & Hp1 & Hk & Hs1 & Hr1 & [(K & K2 & fw & Hw1) Hwf]). cbn [fst snd] in *. subst p1.
  eapply wp_mono.
  { apply (writes_run v (P ++ cbs_of c1) (H ++ c1) G msgs); [done | | | apply advance_all_writes_emits].
    - by destruct Hr1 as (? & ? & _).
    - by eapply (advance_all_writes _ _ _ _ K K2). }
  intros [p2 c2] (s2 & Hp2 & Hk2 & Hs2 & Hw2 & Hr2 & Hrf2). cbn [fst snd] in *. subst p2.
  rewrite cbs_of_app, !app_assoc. split; [|exists s, s2; by destruct p].
  split_and!; try done. by destruct Hr1 as (_ & _ & ?).
Qed.

(** ** Errors *)

Lemma all_setup (l : list pcall) : (forall c, c ∈ l -> exists s, c = Setup s) -> all_of SideSetup l.
Proof. intros Hl. apply Forall_forall. intros c Hc. by destruct (Hl c Hc) as [s ->]. Qed.

Definition silent (l : list pcall) : Prop := all_of SideSetup l /\ cbs_of l = [].

Lemma silent_app l l' : silent l -> silent l' -> silent (l ++ l').
Proof. intros [H1 H2] [H3 H4]. split; [by apply Forall_app | by rewrite cbs_of_app, H2, H4]. Qed.

Lemma silent_fmap {A} (f : A -> setup_call) l : (forall a, cb_of_setup (f a) = None) -> silent ((fun a => Setup (f a)) <$> l).
Proof.
  intros Hf. induction l as [|a l [IH1 IH2]]; [by split; [constructor|]|]. split; [by constructor|].
  unfold cbs_of in *. rewrite fmap_cons. simpl. by rewrite Hf.
Qed.

Lemma silent_one s : cb_of_setup s = None -> silent [Setup s].
Proof. intros Hs. split; [by constructor|]. unfold cbs_of. simpl. by rewrite Hs. Qed.

(** Calls of the handshake that leave no callback change nothing. *)
Lemma live_silent v P H G msgs p l : pipe_live v P H G msgs p -> silent l -> pipe_live v P (H ++ l) G msgs p.
Proof.
  intros (Hs & [(first & Hr) Hrf] & [(K & K2 & fw & Hw) Hwf]) [Hk Hc]. split_and!; try done.
  - exists first. pose proof (rinv_other _ _ _ _ _ _ _ _ Hr Hk ltac:(done)) as Hx. by rewrite Hc, app_nil_r in Hx.
  - exists K, K2, fw. pose proof (winv_other _ _ _ _ _ _ _ _ _ _ Hw Hk ltac:(done)) as Hx.
    by rewrite Hc, app_nil_r in Hx.
Qed.

Lemma ok_silent v P H G msgs p l : pipe_ok v P H G msgs p -> silent l -> pipe_ok v P (H ++ l) G msgs p.
Proof.
  intros Hok Hl. pose proof (live_silent _ _ _ _ _ _ _ (pipe_ok_live _ _ _ _ _ _ Hok) Hl) as (Hs & [? ?] & [? ?]).
  destruct Hok as (_ & (_ & _ & ?) & (_ & _ & ?)). by split_and!.
Qed.

Lemma live_ctx v P H G msgs p p' :
  pipe_live v P H G msgs p -> ctx_later (ctx_of p) (ctx_of p') -> reads_ p' = reads_ p -> writes_ p' = writes_ p ->
  setup_ok v P p' -> pipe_live v P H G msgs p'.
Proof.
  intros (Hs & [(first & Hr) Hrf] & [(K & K2 & fw & Hw) Hwf]) Hl E1 E2 Hs'. unfold pipe_live. rewrite E1, E2.
  split_and!; try done.
  - exists first. by eapply rinv_ctx.
  - exists K, K2, fw. by eapply winv_ctx.
Qed.

Lemma handleError_ok v P H G msgs p e :
  pipe_ok v P H G msgs p -> is_error (error_ p) = false -> is_error e = true ->
  pipe_wp (handleError (p <| error_ := e |>)) v P H G msgs (fun p' _ => is_error (error_ p') = true).
Proof.
  intros Hok Hne He. unfold handleError.
  match goal with |- context [Done (?p1, ?l)] => set (calls := l); set (p' := p1) end.
  assert (silent calls) as Hsil.
  { unfold calls. repeat apply silent_app.
    - by apply silent_one.
    - destruct (descriptorReplyConnection_ _); [by apply silent_one | by split; [constructor|]].
    - by apply (silent_fmap CloseChannel).
    - by apply (silent_fmap (fun r : Z * Z => Unregister r.2)).
    - generalize (map_to_list (channelRegistrationIds_ (p <| error_ := e |>))). intros l.
      induction l as [|[n ids] l IH]; [by split; [constructor|]|]. simpl. apply silent_app; [|done].
      clear. induction ids as [|i ids [IH1 IH2]]; [by split; [constructor|]|]. split; [by constructor | done]. }
  assert (pipe_live v P (H ++ calls) G msgs p') as Hlive.
  { apply live_silent; [|done]. eapply (live_ctx v P); [by apply pipe_ok_live | | done | done |].
    - split; simpl; [done|]. by rewrite He.
    - destruct Hok as ([[S1 S2 S3 S4 S5 S6 S7 S8 S9 S10 S11 S12 S13] Hp] & _). split; [split|]; try done; simpl; congruence. }
  clearbody calls. apply andThen_wp, andThen_wp. cbn [wp fst snd]. eapply wp_mono; [by apply (advanceBoth_ok v P (H ++ calls) G msgs)|].
  intros [p2 c2] [Hok2 (r & w & Hp2)]. cbn [wp fst snd] in *.
  rewrite !cbs_of_app. destruct Hsil as [_ ->]. simpl. rewrite app_nil_r.
  rewrite !app_assoc. split; [by apply ok_silent, silent_one|]. by rewrite Hp2.
Qed.

Lemma setError_ok v P H G msgs p e :
  pipe_ok v P H G msgs p ->
  pipe_wp (setError e p) v P H G msgs (fun p' calls =>
    (is_error e = true -> is_error (error_ p') = true) /\
    (is_error (error_ p') = false -> p' = p /\ calls = [])).
Proof.
  intros Hok. unfold setError. destruct (is_error (error_ p)) eqn:Hp; [|destruct (is_error e) eqn:He]; cbn [negb orb].
  - split; [by rewrite !app_nil_r | done].
  - eapply wp_mono; [by apply handleError_ok|]. intros r [Hr Hpost]. split; [done|]. split; congruence.
  - split; [by rewrite !app_nil_r | done].
Qed.

(** ** Changing the setup *)

(** The rows of the two tables depend only on the error and on whether the pipe
    is established. *)
Lemma read_stable_ctx ctx ctx' l :
  is_error (px_error ctx') = is_error (px_error ctx) -> (px_state ctx' = ESTABLISHED <-> px_state ctx = ESTABLISHED) ->
  stable_on (advanceReadOperation ctx) (fun _ => True) l -> stable_on (advanceReadOperation ctx') (fun _ => True) l.
Proof.
  intros He Hs Hst. assert (error ctx' = error ctx /\ established ctx' = established ctx) as [E1 E2].
  { unfold error, established. split; [done | by apply bool_decide_ext]. }
  intros i o Ho Hk. specialize (Hst i o Ho Hk). revert Hst. unfold op_stable, advanceReadOperation.
  rewrite !Forall_cons. cbn [t_from t_cond]. by rewrite E1, E2.
Qed.

Lemma write_stable_ctx ctx ctx' l :
  is_error (px_error ctx') = is_error (px_error ctx) -> (px_state ctx' = ESTABLISHED <-> px_state ctx = ESTABLISHED) ->
  stable_on (advanceWriteOperation ctx) (fun _ => True) l -> stable_on (advanceWriteOperation ctx') (fun _ => True) l.
Proof.
  intros He Hs Hst. assert (error ctx' = error ctx /\ established ctx' = established ctx) as [E1 E2].
  { unfold error, established. split; [done | by apply bool_decide_ext]. }
  intros i o Ho Hk. specialize (Hst i o Ho Hk). revert Hst. unfold op_stable, advanceWriteOperation.
  rewrite !Forall_cons. cbn [t_from t_cond]. by rewrite E1, E2.
Qed.

Section Handshake.
Context (v : ContextView) (P : list cb) (H : list pcall) (G : Z) (msgs : list Message) (p : PipeImpl).
Context (Hok : pipe_ok v P H G msgs p) (k : nat) (x : cb) (Hk : P !! k = Some x).
Context (Hx : side_of_cb x = Some SideSetup).

Abbreviation P' calls := (delete k P ++ cbs_of calls).

Lemma setup_live p1 c1 :
  all_of SideSetup c1 -> reads_ p1 = reads_ p -> writes_ p1 = writes_ p -> ctx_later (ctx_of p) (ctx_of p1) ->
  setup_ok v (P' c1) p1 -> pipe_live v (P' c1) (H ++ c1) G msgs p1.
Proof.
  intros Hc E1 E2 Hl Hs. destruct Hok as (_ & ([first Hr] & Hrf & _) & ((K & K2 & fw & Hw) & Hwf & _)).
  unfold pipe_live. rewrite E1, E2. split_and!; try done.
  - exists first. eapply rinv_ctx; [done|]. eapply rinv_other; [|done | done].
    eapply rinv_delete; [done | done | by rewrite Hx].
  - exists K, K2, fw. eapply winv_ctx; [done|]. eapply winv_other; [|done | done].
    eapply winv_delete; [done | done | by rewrite Hx].
Qed.

Lemma setup_stay p1 c1 :
  all_of SideSetup c1 -> reads_ p1 = reads_ p -> writes_ p1 = writes_ p -> error_ p1 = error_ p ->
  (state_ p1 = ESTABLISHED <-> state_ p = ESTABLISHED) ->
  setup_ok v (P' c1) p1 -> pipe_ok v (P' c1) (H ++ c1) G msgs p1.
Proof.
  intros Hc E1 E2 E3 E4 Hs.
  destruct (setup_live p1 c1) as (_ & [? ?] & [? ?]); try done.
  { split; simpl; [by rewrite E4 | by rewrite E3]. }
  destruct Hok as (_ & (_ & _ & Hst1) & (_ & _ & Hst2)).
  split; [done|]. split; (split; [done | split; [done|]]).
  - rewrite E1. eapply read_stable_ctx; [..|exact Hst1]; simpl; [by rewrite E3 | done].
  - rewrite E2. eapply write_stable_ctx; [..|exact Hst2]; simpl; [by rewrite E3 | done].
Qed.

Lemma establish_ok p1 c1 :
  all_of SideSetup c1 -> reads_ p1 = reads_ p -> writes_ p1 = writes_ p -> error_ p1 = error_ p ->
  setup_ok v (P' c1) (p1 <| state_ := ESTABLISHED |>) ->
  wp (andThen (Done (p1, c1)) establish) expected_exn
     (fun r => pipe_ok v (delete k P ++ cbs_of r.2) (H ++ r.2) G msgs r.1).
Proof.
  intros Hc E1 E2 E3 Hs. apply andThen_wp. cbn [wp fst snd]. unfold establish.
  eapply wp_mono; [apply (advanceBoth_ok v (P' c1) (H ++ c1) G msgs)|].
  - apply setup_live; try done. split; simpl; [done | by rewrite E3].
  - intros [p2 c2] [Hp2 _]. cbn [fst snd] in *. by rewrite cbs_of_app, !app_assoc.
Qed.

(** Nothing left to wait for. *)
Lemma ready_established Pd p1 :
  setup_core v Pd p1 -> is_error (error_ p1) = false -> state_ p1 = SERVER_WAITING_FOR_CONNECTIONS ->
  pendingRegistrations p1 = false -> setup_ok v Pd (p1 <| state_ := ESTABLISHED |>).
Proof.
  intros [S1 S2 S3 S4 S5 S6 S7 S8 S9 S10 S11 S12 S13] He Hst Hp. unfold pendingRegistrations in Hp.
  case_bool_decide as R1; [|done]. case_bool_decide as R2; [|done]. cbn [negb] in Hp.
  assert (channelReceivedConnections_ p1 = ∅) as R3.
  { apply map_empty. intros name. apply S7. by rewrite R2, lookup_empty. }
  destruct (S2 He Hst) as [A1 A2]. split; [|done]. split; cbn [state_ error_ field_update]; try done.
  - intros _. split.
    + destruct A1 as [?|A1]; [done|]. rewrite R1, lookup_empty in A1. by destruct A1.
    + intros k0 name Hn. destruct (A2 _ _ Hn) as [?|A3]; [done|]. rewrite R2, lookup_empty in A3. by destruct A3.
  - by intros [?|?].
  - intros _. by right; right; right.
  - intros _. rewrite S12 by done. unfold waiting_for. simpl. by rewrite Hst.
  - intros _. rewrite S13 by done. unfold waiting_for. simpl. by rewrite Hst.
Qed.

Lemma establish_if_ready_ok p1 c1 :
  all_of SideSetup c1 -> reads_ p1 = reads_ p -> writes_ p1 = writes_ p -> error_ p1 = error_ p ->
  is_error (error_ p) = false -> state_ p <> ESTABLISHED ->
  state_ p1 = SERVER_WAITING_FOR_CONNECTIONS -> setup_core v (P' c1) p1 ->
  wp (andThen (Done (p1, c1)) establish_if_ready) expected_exn
     (fun r => pipe_ok v (delete k P ++ cbs_of r.2) (H ++ r.2) G msgs r.1).
Proof.
  intros Hc E1 E2 E3 He Hne Hst Hs. destruct (pendingRegistrations p1) eqn:Hp.
  - unfold andThen, establish_if_ready. rewrite bind_done. cbn [fst snd]. rewrite Hp, bind_done. cbn [wp fst snd].
    rewrite app_nil_r. apply setup_stay; try done. rewrite Hst. split; [done | by intros ?%Hne].
  - assert (andThen (Done (p1, c1)) establish_if_ready = andThen (Done (p1, c1)) establish) as ->.
    { unfold andThen, establish_if_ready. rewrite !bind_done. cbn [fst snd]. by rewrite Hp. }
    apply establish_ok; try done. apply ready_established; [done | by rewrite E3 | done | done].
Qed.
End Handshake.
