(* ===== verification/PipeHandshake.v ===== *)
(** * The handshake keeps the invariant of the pipe

    Each callback of the handshake, run without an error: the checks of the code
    pass and the pipe ends in a settled state. *)

From S2P Require Import Prelude Messages Select PipeBase OpsStateMachine PipeRead PipeReadInv PipeReadSide.
From S2P Require Import PipeWrite PipeWriteInv PipeWriteSide PipeKinds Pipe PipeInv PipeSteps.

Lemma occ_decide_pos (b : bool) (P : list cb) x (Q : Prop) `{Decision Q} k :
  P !! k = Some x -> occ x P = (if decide Q then 1 else 0) -> Q.
Proof.
  intros Hk Ho. pose proof (occ_elem x P (list_elem_of_lookup_2 _ _ _ Hk)). destruct (decide Q); [done | lia].
Qed.

Lemma occ_remove (P : list cb) k x y n :
  P !! k = Some x -> occ y P = n -> occ y (delete k P) = n - (if decide (x = y) then 1 else 0).
Proof. intros Hk <-. by apply occ_delete. Qed.

(** ** A connection was received *)

Section Connection.
Context (v : ContextView) (P : list cb) (H : list pcall) (G : Z) (msgs : list Message) (p : PipeImpl).
Context (Hok : pipe_ok v P H G msgs p) (k : nat) (He : is_error (error_ p) = false).

Lemma registered_state : ~ no_registrations p -> state_ p = SERVER_WAITING_FOR_CONNECTIONS.
Proof.
  intros Hn. destruct Hok as ([Hs _] & _). destruct (decide (state_ p = SERVER_WAITING_FOR_CONNECTIONS)) as [|Hx]; [done|].
  exfalso. apply Hn, (so_regs _ _ _ Hs). by right.
Qed.

Lemma onConnection_ok tok connId transport c :
  P !! k = Some (CbConnection tok connId) -> transport = transport_ p ->
  wp (onAcceptWhileServerWaitingForConnection connId transport c p) expected_exn
    (fun r => pipe_ok v (delete k P ++ cbs_of r.2) (H ++ r.2) G msgs r.1).
Proof.
  intros Hk ->. pose proof Hok as ([Hs Hpend] & _).
  destruct Hs as [S1 S2 S3 S4 S5 S6 S7 S8 S9 S10 S11 S12 S13].
  assert (registrationIds_ p !! connId = Some tok) as Hreg
    by (by eapply (occ_decide_pos true); [|apply S10]).
  assert (state_ p = SERVER_WAITING_FOR_CONNECTIONS) as Hst.
  { apply registered_state. intros (Hr & _). by rewrite Hr, lookup_empty in Hreg. }
  pose proof (S8 _ _ Hreg) as Hid. destruct (S2 He Hst) as [A1 A2].
  unfold onAcceptWhileServerWaitingForConnection. rewrite tp_check_bind by (by apply bool_decide_eq_true).
  rewrite Hreg. cbn [transport_ field_update]. rewrite tp_check_bind by (by apply bool_decide_eq_true).
  assert (forall p1, p1 = p <| registrationIds_ ::= delete connId |> <| descriptorConnection_ := descriptorConnection_ p1 |>
       <| descriptorReplyConnection_ := descriptorReplyConnection_ p1 |> ->
     (is_Some (descriptorReplyConnection_ p1) \/ connId = DESCRIPTOR /\ descriptorReplyConnection_ p1 = descriptorReplyConnection_ p) ->
     wp (andThen (Done (p1, [Setup (Unregister tok)])) establish_if_ready) expected_exn
       (fun r => pipe_ok v (delete k P ++ cbs_of r.2) (H ++ r.2) G msgs r.1)) as Hfin.
  { intros p1 Hp1 Hreply.
    assert (slot p1 = slot p) as Hslot by (by rewrite Hp1).
    apply (establish_if_ready_ok v P H G msgs p Hok k _ Hk); try done; try (by rewrite Hp1).
    - by constructor.
    - by rewrite Hst.
    - rewrite app_nil_r. split; rewrite ?Hslot; rewrite Hp1; cbn [state_ error_ transport_ descriptorConnection_
        descriptorReplyConnection_ channels_ channelForDevicePair_ registrationIds_ channelRegistrationIds_
        channelReceivedConnections_ field_update]; try done.
      + by rewrite Hst.
      + intros _ _. split; [|done]. destruct Hreply as [Hr|[-> Hr]]; [by left|]. rewrite Hr.
        destruct A1 as [A1|A1]; [by left | right]. by rewrite lookup_delete_ne.
      + rewrite He, Hst. intros [?|?]; done.
      + intros id t Ht. apply lookup_delete_Some in Ht as [_ Ht]. by eapply S8.
      + intros _ t id. rewrite (occ_remove _ _ _ _ _ Hk (S10 He t id)).
        destruct (decide (connId = id)) as [<-|Hne].
        * rewrite lookup_delete_eq, Hreg. repeat case_decide; try lia; congruence.
        * rewrite lookup_delete_ne by done. repeat case_decide; try lia; congruence.
      + intros _ t name id. rewrite (occ_remove _ _ _ _ _ Hk (S11 He t name id)). repeat case_decide; try lia; congruence.
      + intros _. rewrite (occ_remove _ _ _ _ _ Hk (S12 He)). unfold waiting_for. simpl. repeat case_decide; try lia; congruence.
      + intros _. rewrite (occ_remove _ _ _ _ _ Hk (S13 He)). unfold waiting_for. simpl. repeat case_decide; try lia; congruence. }
  destruct Hid as [-> | ->].
  - change (DESCRIPTOR =? DESCRIPTOR) with true. cbv iota. rewrite bind_done.
    apply Hfin; [by destruct p|]. right. by split.
  - change (DESCRIPTOR_REPLY =? DESCRIPTOR) with false. change (DESCRIPTOR_REPLY =? DESCRIPTOR_REPLY) with true.
    cbv iota. rewrite bind_done. apply Hfin; [by destruct p|]. left. by eexists.
Qed.
End Connection.

(** ** A connection for a channel was received *)

Lemma all_received_some l : is_Some (all_received l) <-> Forall is_Some l.
Proof.
  induction l as [|[c|] l IH]; simpl.
  - split; [by constructor | by eexists].
  - rewrite Forall_cons, <- IH. destruct (all_received l); simpl; [by split; [split|]; eauto|].
    split; [by intros [] | by intros [_ []]].
  - rewrite Forall_cons. split; [by intros [] | by intros [[] _]].
Qed.

(** The registrations of the other channels are as before. *)
Lemma slot_other p p' name name' id :
  channelRegistrationIds_ p' !! name' = channelRegistrationIds_ p !! name' ->
  channelReceivedConnections_ p' !! name' = channelReceivedConnections_ p !! name' ->
  name <> name' -> slot p' name' id = slot p name' id.
Proof. intros H1 H2 _. unfold slot. by rewrite H1, H2. Qed.

Section Channel.
Context (v : ContextView) (P : list cb) (H : list pcall) (G : Z) (msgs : list Message) (p : PipeImpl).
Context (Hok : pipe_ok v P H G msgs p) (k : nat) (He : is_error (error_ p) = false).
Context (tok : Z) (name : string) (connId : nat) (Hk : P !! k = Some (CbChannel tok name connId)).
Context (ids : list Z) (received : list (option conn)) (c : conn).
Context (Hids : channelRegistrationIds_ p !! name = Some ids).
Context (Hrec : channelReceivedConnections_ p !! name = Some received).
Context (Htok : ids !! connId = Some tok) (Hslot : received !! connId = Some None).
Context (Hst : state_ p = SERVER_WAITING_FOR_CONNECTIONS).

Abbreviation received' := (<[connId := Some c]> received).

(** The callback counts after this one was removed. *)
Lemma channel_counts (p' : PipeImpl) :
  registrationIds_ p' = registrationIds_ p -> state_ p' = state_ p ->
  (forall name' id t, slot p' name' id = Some t <-> slot p name' id = Some t /\ ~ (name' = name /\ id = connId)) ->
  (forall t id, occ (CbConnection t id) (delete k P) = if decide (registrationIds_ p' !! id = Some t) then 1 else 0) /\
  (forall t name' id, occ (CbChannel t name' id) (delete k P) = if decide (slot p' name' id = Some t) then 1 else 0) /\
  occ CbBrochure (delete k P) = waiting_for p' SERVER_WAITING_FOR_BROCHURE /\
  occ CbBrochureAnswer (delete k P) = waiting_for p' CLIENT_WAITING_FOR_BROCHURE_ANSWER.
Proof.
  intros E1 E2 Hs. destruct Hok as ([Hcore _] & _).
  assert (slot p name connId = Some tok) as Hsl by (unfold slot; by rewrite Hids, Hrec, Htok, Hslot).
  split_and!.
  - intros t id. rewrite (occ_remove _ _ _ _ _ Hk (so_pconn _ _ _ Hcore He t id)), E1. repeat case_decide; try lia; congruence.
  - intros t name' id. rewrite (occ_remove _ _ _ _ _ Hk (so_pchan _ _ _ Hcore He t name' id)).
    destruct (decide (name' = name /\ id = connId)) as [[-> ->]|Hne].
    + rewrite (decide_False (P := slot p' name connId = Some t)) by (rewrite Hs; tauto).
      rewrite Hsl. repeat case_decide; try lia; congruence.
    + rewrite (decide_False (P := CbChannel _ _ _ = _)) by (intros [= -> -> ->]; by apply Hne).
      rewrite (decide_ext (slot p' name' id = Some t) (slot p name' id = Some t)) by (rewrite Hs; tauto). lia.
  - rewrite (occ_remove _ _ _ _ _ Hk (so_pbro _ _ _ Hcore He)). unfold waiting_for. rewrite E2.
    repeat case_decide; try lia; congruence.
  - rewrite (occ_remove _ _ _ _ _ Hk (so_pans _ _ _ Hcore He)). unfold waiting_for. rewrite E2.
    repeat case_decide; try lia; congruence.
Qed.

Lemma channel_partial :
  all_received received' = None ->
  setup_ok v (delete k P) (p <| channelReceivedConnections_ ::= <[name := received']> |>).
Proof.
  intros Hall. pose proof Hok as ([Hcore Hpend] & _). set (p' := p <| channelReceivedConnections_ ::= _ |>).
  assert (forall name' id t, slot p' name' id = Some t <-> slot p name' id = Some t /\ ~ (name' = name /\ id = connId)) as Hs.
  { intros name' id t. unfold slot. cbn [p' channelRegistrationIds_ channelReceivedConnections_ field_update].
    destruct (decide (name' = name)) as [->|Hne].
    - rewrite Hids, Hrec, lookup_insert_eq. destruct (decide (id = connId)) as [->|Hni].
      + rewrite list_lookup_insert_eq by (by eapply lookup_lt_Some). rewrite Htok. split; [done | tauto].
      + rewrite list_lookup_insert_ne by done. split; [by intros ?; split; [|intros []] | tauto].
    - rewrite lookup_insert_ne by done. split; [by intros ?; split; [|intros []] | tauto]. }
  destruct (channel_counts p') as (C1 & C2 & C3 & C4); [done | done | done|].
  destruct Hcore as [S1 S2 S3 S4 S5 S6 S7 S8 S9 S10 S11 S12 S13].
  split; [|done]. split; cbn [p' state_ error_ descriptorReplyConnection_ channels_ channelForDevicePair_
      registrationIds_ channelRegistrationIds_ channelReceivedConnections_ field_update]; try done.
  - rewrite He, Hst. by intros [?|?].
  - intros n i Hi. destruct (decide (n = name)) as [->|Hne].
    + destruct (S6 _ _ Hi) as (rec & cc & R1 & R2 & R3 & R4 & R5). rewrite Hrec in R1. injection R1 as <-.
      exists received', cc. rewrite lookup_insert_eq, length_insert. split_and!; try done.
      intros Hf. apply all_received_some in Hf. by rewrite Hall in Hf; destruct Hf.
    + rewrite lookup_insert_ne by done. by apply S6.
  - intros n Hn. rewrite lookup_insert_ne; [by apply S7|]. intros ->. congruence.
Qed.

Lemma channel_complete :
  Forall is_Some received' ->
  setup_core v (delete k P)
    (p <| channelReceivedConnections_ ::= <[name := received']> |> <| channelRegistrationIds_ ::= delete name |>
       <| channelReceivedConnections_ ::= delete name |> <| channels_ ::= fun c => {[name]} ∪ c |>).
Proof.
  intros Hall. pose proof Hok as ([Hcore Hpend] & _). match goal with |- setup_core _ _ ?x => set (p' := x) end.
  assert (forall name' id t, slot p' name' id = Some t <-> slot p name' id = Some t /\ ~ (name' = name /\ id = connId)) as Hs.
  { intros name' id t. unfold slot. cbn [p' channelRegistrationIds_ channelReceivedConnections_ field_update].
    destruct (decide (name' = name)) as [->|Hne].
    - rewrite lookup_delete_eq, Hids, Hrec. split; [done|]. intros [Hx Hn]. exfalso.
      destruct (ids !! id); [|done]. destruct (received !! id) as [[r|]|] eqn:Hr; [done | | done].
      assert (id <> connId) as Hni by (intros ->; by apply Hn).
      rewrite Forall_lookup in Hall. specialize (Hall id None). rewrite list_lookup_insert_ne in Hall by done.
      destruct (Hall Hr); done.
    - rewrite !lookup_delete_ne, lookup_insert_ne by done. split; [by intros ?; split; [|intros []] | tauto]. }
  destruct (channel_counts p') as (C1 & C2 & C3 & C4); [done | done | done|].
  destruct Hcore as [S1 S2 S3 S4 S5 S6 S7 S8 S9 S10 S11 S12 S13].
  split; cbn [p' state_ error_ descriptorReplyConnection_ channels_ channelForDevicePair_
      registrationIds_ channelRegistrationIds_ channelReceivedConnections_ field_update]; try done.
  - rewrite Hst. done.
  - intros _ _. destruct (S2 He Hst) as [A1 A2]. split; [done|]. intros k0 n Hn.
    destruct (decide (n = name)) as [->|Hne]; [left; set_solver|].
    rewrite lookup_delete_ne by done. destruct (A2 _ _ Hn); [left; set_solver | by right].
  - rewrite He, Hst. by intros [?|?].
  - rewrite Hst. by intros [?|?].
  - intros n Hn. destruct (decide (n = name)) as [->|Hne]; [apply lookup_delete_eq|].
    rewrite lookup_delete_ne by done. apply S5. set_solver.
  - intros n i Hi. apply lookup_delete_Some in Hi as [Hne Hi]. rewrite lookup_delete_ne, lookup_insert_ne by done.
    by apply S6.
  - intros n Hn. destruct (decide (n = name)) as [->|Hne]; [apply lookup_delete_eq|].
    rewrite lookup_delete_ne in Hn by done. rewrite lookup_delete_ne, lookup_insert_ne by done. by apply S7.
Qed.
End Channel.

Lemma onChannel_ok v P H G msgs p k tok name connId transport c :
  pipe_ok v P H G msgs p -> is_error (error_ p) = false -> P !! k = Some (CbChannel tok name connId) ->
  transport = transport_ p ->
  wp (onAcceptWhileServerWaitingForChannel v name connId transport c p) expected_exn
    (fun r => pipe_ok v (delete k P ++ cbs_of r.2) (H ++ r.2) G msgs r.1).
Proof.
  intros Hok He Hk ->. pose proof Hok as ([Hs Hpend] & _).
  assert (slot p name connId = Some tok) as Hslot
    by (by eapply (occ_decide_pos true); [|apply (so_pchan _ _ _ Hs)]).
  unfold slot in Hslot. destruct (channelRegistrationIds_ p !! name) as [ids|] eqn:Hids; [|done].
  destruct (channelReceivedConnections_ p !! name) as [received|] eqn:Hrec; [|done].
  destruct (ids !! connId) as [tok'|] eqn:Htok; [|done].
  destruct (received !! connId) as [[r|]|] eqn:Hr; [done | | done]. injection Hslot as ->.
  assert (state_ p = SERVER_WAITING_FOR_CONNECTIONS) as Hst.
  { eapply registered_state; [done|]. intros (_ & Hn & _). by rewrite Hn, lookup_empty in Hids. }
  unfold onAcceptWhileServerWaitingForChannel. rewrite !tp_check_bind by (by apply bool_decide_eq_true).
  rewrite Hids, Hrec, Htok, Hr.
  destruct (so_recv _ _ _ Hs _ _ Hids) as (rec & cc & R1 & R2 & R3 & R4 & R5).
  destruct (all_received (<[connId := Some c]> received)) as [cs|] eqn:Hall.
  - rewrite R3, bind_done. rewrite tp_check_bind.
    2: { apply bool_decide_eq_true. cbn [channels_ field_update]. intros Hin.
         apply (so_disjoint _ _ _ Hs) in Hin. congruence. }
    eapply establish_if_ready_ok; try done.
    + by repeat constructor.
    + by rewrite Hst.
    + rewrite app_nil_r. eapply channel_complete; try done. apply all_received_some. by eexists.
  - apply (setup_stay v P H G msgs p Hok k _ Hk); try done.
    + by constructor.
    + rewrite app_nil_r. by eapply channel_partial.
Qed.
