(* ===== verification/PipeServer.v ===== *)
(** * The handshake, server side: the brochure and its answer *)

From S2P Require Import Prelude Messages Select PipeBase OpsStateMachine PipeRead PipeReadInv PipeReadSide.
From S2P Require Import PipeWrite PipeWriteInv PipeWriteSide PipeKinds Pipe PipeInv PipeSteps PipeHandshake.

(** ** Registrations *)

Lemma occ_registrations t nm id name ids : forall off,
  occ (CbChannel t nm id) (cbs_of (imap (fun i token => Setup (RegisterChannel token name (off + i))) ids)) =
  if decide (nm = name /\ (off <= id)%nat /\ ids !! (id - off)%nat = Some t) then 1 else 0.
Proof.
  induction ids as [|x ids IH]; intros off.
  - simpl. rewrite decide_False; [done|]. by intros (_ & _ & ?).
  - cbn [imap]. unfold cbs_of. simpl. rewrite occ_cons.
    rewrite (imap_ext _ (fun i token => Setup (RegisterChannel token name (S off + i)))); [|intros; simpl; do 2 f_equal; lia].
    fold (cbs_of (imap (fun i token => Setup (RegisterChannel token name (S off + i))) ids)). rewrite IH, Nat.add_0_r.
    destruct (decide (nm = name)) as [->|Hn].
    2: { repeat case_decide; naive_solver. }
    destruct (decide (id = off)) as [->|Hi].
    + rewrite Nat.sub_diag. simpl. rewrite (decide_False (P := _ /\ (S off <= off)%nat /\ _)) by lia.
      rewrite Z.add_0_r. apply decide_ext.
      split; [intros [= ->]; split_and!; [done | lia | done] | by intros (_ & _ & [= ->])].
    + rewrite (decide_False (P := CbChannel _ _ _ = _)) by congruence. rewrite Z.add_0_l.
      destruct (decide (S off <= id)%nat).
      * replace (id - off)%nat with (S (id - S off)) by lia. simpl. apply decide_ext. intuition lia.
      * repeat case_decide; intuition lia.
Qed.

Lemma occ_registrations_other x name ids :
  (forall t nm id, x <> CbChannel t nm id) ->
  occ x (cbs_of (imap (fun i token => Setup (RegisterChannel token name i)) ids)) = 0.
Proof.
  intros Hx. unfold cbs_of. generalize 0%nat. revert x Hx. intros x Hx n.
  assert (forall l : list pcall, (forall c, c ∈ l -> exists t nm id, cb_of c = Some (CbChannel t nm id)) -> occ x (omap cb_of l) = 0) as Hl.
  { induction l as [|c l IH]; intros Hc; [done|].
    change (omap cb_of (c :: l)) with (match cb_of c with Some b => b :: omap cb_of l | None => omap cb_of l end).
    destruct (Hc c ltac:(left)) as (t & nm & id & ->).
    rewrite occ_cons, decide_False by (intros <-; by eapply Hx). rewrite IH; [done|]. intros. apply Hc. by right. }
  apply Hl. intros c Hc. apply list_elem_of_lookup in Hc as [i Hi]. rewrite list_lookup_imap in Hi.
  destruct (ids !! i) as [t|]; [|done]. injection Hi as <-. by exists t, name, i.
Qed.

Definition only_channels (p p' : PipeImpl) : Prop :=
  p' = p <| channelRegistrationIds_ := channelRegistrationIds_ p' |>
         <| channelReceivedConnections_ := channelReceivedConnections_ p' |>.

(** What the loop over the selected channels does. *)
Record channels_registered (v : ContextView) (names : list string) (p p' : PipeImpl) (m : gmap string (list Z))
    (calls : list pcall) : Prop := {
  cr_only : only_channels p p';
  cr_out : forall name, name ∉ names ->
    channelRegistrationIds_ p' !! name = channelRegistrationIds_ p !! name /\
    channelReceivedConnections_ p' !! name = channelReceivedConnections_ p !! name /\ m !! name = None;
  cr_in : forall name, name ∈ names -> exists c ids,
    getChannel v name = Done c /\ length ids = cc_numConnectionsNeeded c /\ m !! name = Some ids /\
    channelRegistrationIds_ p' !! name = Some ids /\
    channelReceivedConnections_ p' !! name = Some (replicate (length ids) None);
  cr_setup : all_of SideSetup calls;
  cr_occ : forall t nm id, occ (CbChannel t nm id) (cbs_of calls) =
    if decide (nm ∈ names /\ slot p' nm id = Some t) then 1 else 0;
  cr_other : forall x, (forall t nm id, x <> CbChannel t nm id) -> occ x (cbs_of calls) = 0;
}.

Lemma slot_fresh p name ids id t :
  channelRegistrationIds_ p !! name = Some ids -> channelReceivedConnections_ p !! name = Some (replicate (length ids) None) ->
  slot p name id = Some t <-> ids !! id = Some t.
Proof.
  intros H1 H2. unfold slot. rewrite H1, H2. destruct (ids !! id) as [t'|] eqn:Hi; [|done].
  rewrite lookup_replicate_2 by (by eapply lookup_lt_Some). done.
Qed.

Lemma register_channels_ok v names : forall tok n p,
  NoDup names -> (forall name, name ∈ names -> exists c, getChannel v name = Done c) ->
  (forall name, name ∈ names -> channelReceivedConnections_ p !! name = None) ->
  exists p' m calls, register_channels v names tok n p = Done (p', m, calls) /\ channels_registered v names p p' m calls.
Proof.
  induction names as [|name names IH]; intros tok n p Hd Hc Hr.
  - exists p, ∅, []. split; [done|]. split; try done; [by destruct p | by intros ? ?%elem_of_nil | by constructor].
  - apply NoDup_cons in Hd as [Hn Hd]. destruct (Hc name ltac:(left)) as [c Hgc].
    cbn [register_channels]. unfold registerChannel. rewrite Hgc, bind_done.
    rewrite (Hr name ltac:(left)). cbn [default]. rewrite resize_nil.
    set (ids := tok <$> seq n (cc_numConnectionsNeeded c)).
    assert (length ids = cc_numConnectionsNeeded c) as Hlen by (unfold ids; by rewrite length_fmap, length_seq).
    match goal with |- context [Done (?x, ids, _)] => set (p1 := x) end. rewrite bind_done. cbv beta iota.
    destruct (IH tok (n + length ids)%nat p1) as (p' & m & calls & Heq & R); [done | | |].
    { intros nm Hnm. apply Hc. by right. }
    { intros nm Hnm. cbn [p1 channelReceivedConnections_ field_update]. rewrite lookup_insert_ne by (by intros ->).
      apply Hr. by right. }
    rewrite Heq, bind_done. destruct R as [R1 R2 R3 R4 R5 R6].
    destruct (R2 name Hn) as (E1 & E2 & E3). cbn [p1 channelRegistrationIds_ channelReceivedConnections_ field_update] in E1, E2.
    rewrite lookup_insert_eq in E1. rewrite lookup_insert_eq, <- Hlen in E2.
    do 3 eexists. split; [done|]. split.
    + unfold only_channels in *. rewrite R1. by destruct p.
    + intros nm Hnm. apply not_elem_of_cons in Hnm as [Hne Hnm]. destruct (R2 nm Hnm) as (F1 & F2 & F3).
      cbn [p1 channelRegistrationIds_ channelReceivedConnections_ field_update] in F1, F2.
      rewrite lookup_insert_ne in F1 by done. rewrite lookup_insert_ne in F2 by done. by rewrite lookup_insert_ne by done.
    + intros nm Hnm. apply elem_of_cons in Hnm as [->|Hnm].
      * exists c, ids. split_and!; try done. apply lookup_insert_eq.
      * destruct (R3 nm Hnm) as (c' & ids' & ?). exists c', ids'. rewrite lookup_insert_ne by (by intros ->). done.
    + apply Forall_app. split; [|done]. apply Forall_forall. intros x Hx. apply list_elem_of_lookup in Hx as [i Hi].
      rewrite list_lookup_imap in Hi. destruct (ids !! i); [|done]. by injection Hi as <-.
    + intros t nm id. pose proof (occ_registrations t nm id name ids 0) as Hreg. cbn [Nat.add] in Hreg.
      rewrite cbs_of_app, occ_app, R5, Hreg, Nat.sub_0_r.
      pose proof (slot_fresh p' name ids id t E1 E2) as Hsl.
      destruct (decide (nm = name)) as [->|Hne].
      * rewrite (decide_False (P := name ∈ names /\ _)) by tauto. rewrite Z.add_0_r. apply decide_ext. rewrite Hsl.
        split; [intros (_ & _ & ?); split; [left | done] | intros [_ ?]; split_and!; [done | lia | done]].
      * rewrite (decide_False (P := nm = name /\ _)) by tauto. rewrite Z.add_0_l. apply decide_ext.
        rewrite elem_of_cons. tauto.
    + intros x Hx. by rewrite cbs_of_app, occ_app, R6, occ_registrations_other.
Qed.

(** ** The handler of the brochure *)

Lemma switch_transport_ok name tok p : registrationIds_ p = ∅ ->
  exists ids1 n calls1,
    switch_transport name tok p = Done (p <| transport_ := name |> <| registrationIds_ := ids1 |>, ids1, n, calls1) /\
    (forall id t, ids1 !! id = Some t -> id = DESCRIPTOR) /\
    (is_Some (ids1 !! DESCRIPTOR) <-> name <> transport_ p) /\ all_of SideSetup calls1 /\
    (forall t id, occ (CbConnection t id) (cbs_of calls1) = if decide (ids1 !! id = Some t) then 1 else 0) /\
    (forall x, (forall t id, x <> CbConnection t id) -> occ x (cbs_of calls1) = 0).
Proof.
  intros Hr. unfold switch_transport. destruct (decide (name = transport_ p)) as [->|Hne].
  - exists ∅, 0%nat, []. split_and!; try done.
    + assert (p <| transport_ := transport_ p |> <| registrationIds_ := ∅ |> = p) as ->; [|done].
      rewrite <- Hr. by destruct p.
    + split; [|done]. rewrite lookup_empty. by intros [].
    + by constructor.
  - unfold registerTransport. cbn [registrationIds_ field_update]. rewrite Hr, lookup_empty, tp_check_bind by done.
    rewrite bind_done. exists {[DESCRIPTOR := tok 0%nat]}, 1%nat. eexists.
    split_and!; [unfold field_update; simpl; by rewrite Hr | | | by constructor | |].
    + intros id t Ht. by apply lookup_singleton_Some in Ht as [<- _].
    + split; [done|]. intros _. rewrite lookup_singleton_eq. by eexists.
    + intros t id. unfold cbs_of. simpl. rewrite occ_cons, occ_nil, Z.add_0_r. apply decide_ext.
      rewrite lookup_singleton_Some. naive_solver.
    + intros x Hx. unfold cbs_of. simpl. rewrite occ_cons, decide_False by (intros <-; by eapply Hx). done.
Qed.

(** The server's state and answer after a brochure. *)
Record server_answered (v : ContextView) (addresses : gmap string string) (b : Brochure) (p p' : PipeImpl)
    (a : BrochureAnswer) (calls : list pcall) (t : SelectedTransport) (ids1 : gmap Z Z) (token : Z) : Prop := {
  sa_transport : selectTransport (cv_transports v) (b_transportDomainDescriptors b) addresses = Done t;
  sa_ids : forall id t, ids1 !! id = Some t -> id = DESCRIPTOR;
  sa_switch : is_Some (ids1 !! DESCRIPTOR) <-> st_name t <> transport_ p;
  sa_channels : channels_registered v
    (map_to_list (sc_descriptorsMap (selectChannels (cv_channels v) (b_channelDeviceDescriptors b)))).*1
    (p <| transport_ := st_name t |> <| registrationIds_ := <[DESCRIPTOR_REPLY := token]> ids1 |>
       <| channelForDevicePair_ :=
            sc_channelForDevicePair (selectChannels (cv_channels v) (b_channelDeviceDescriptors b)) |>)
    p' (ba_channelRegistrationIds a) calls;
  sa_answer : a = mkBrochureAnswer (st_name t) (st_address t) (<[DESCRIPTOR_REPLY := token]> ids1)
    (st_domainDescriptor t) (ba_channelRegistrationIds a)
    (sc_descriptorsMap (selectChannels (cv_channels v) (b_channelDeviceDescriptors b)))
    (sc_channelForDevicePair (selectChannels (cv_channels v) (b_channelDeviceDescriptors b)));
}.

Lemma server_brochure_runs v addresses tok b p :
  NoDup (cv_channels v).*1 -> state_ p = SERVER_WAITING_FOR_BROCHURE -> no_registrations p ->
  onReadWhileServerWaitingForBrochure v addresses tok b p = Throw no_viable_transport \/
  exists p' a calls1 token calls3 t ids1,
    onReadWhileServerWaitingForBrochure v addresses tok b p =
      Done (p' <| state_ := SERVER_WAITING_FOR_CONNECTIONS |>,
            calls1 ++ [Setup (RegisterTransport token DESCRIPTOR_REPLY)] ++ calls3 ++
            [Setup (WriteBrochureAnswer (descriptorConnection_ p) a)]) /\
    server_answered v addresses b p p' a calls3 t ids1 token /\ all_of SideSetup calls1 /\
    (forall t id, occ (CbConnection t id) (cbs_of calls1) = if decide (ids1 !! id = Some t) then 1 else 0) /\
    (forall x, (forall t id, x <> CbConnection t id) -> occ x (cbs_of calls1) = 0).
Proof.
  intros Hd Hst (Hr1 & Hr2 & Hr3). unfold onReadWhileServerWaitingForBrochure.
  rewrite tp_check_bind by (by apply bool_decide_eq_true).
  pose proof (selectTransport_throws (cv_transports v) (b_transportDomainDescriptors b) addresses) as Hsel.
  destruct (selectTransport (cv_transports v) (b_transportDomainDescriptors b) addresses) as [t|e] eqn:Ht; [right|by left; rewrite <- Hsel].
  rewrite bind_done.
  destruct (switch_transport_ok (st_name t) tok p Hr1) as (ids1 & n & calls1 & Hsw & I1 & I2 & I3 & I4 & I5).
  rewrite Hsw, bind_done. unfold registerTransport. cbn [registrationIds_ field_update].
  assert (ids1 !! DESCRIPTOR_REPLY = None) as Hnone.
  { destruct (ids1 !! DESCRIPTOR_REPLY) as [x|] eqn:Hx; [|done]. by apply I1 in Hx. }
  rewrite Hnone, tp_check_bind by done. rewrite bind_done. cbv beta iota zeta.
  match goal with |- context [register_channels v ?names tok (S n) ?q] =>
    destruct (register_channels_ok v names tok (S n) q) as (p' & m & calls3 & Heq & R) end.
  { apply NoDup_fst_map_to_list. }
  { intros name Hname. by eapply selected_known. }
  { intros name _. cbn [channelReceivedConnections_ field_update]. by rewrite Hr3, lookup_empty. }
  rewrite Heq, bind_done. cbv beta iota.
  assert (registrationIds_ p' = <[DESCRIPTOR_REPLY := tok n]> ids1 /\ descriptorConnection_ p' = descriptorConnection_ p)
    as [Hreg Hconn] by (rewrite (cr_only _ _ _ _ _ _ R); done).
  assert (pendingRegistrations p' = true) as Hpend.
  { unfold pendingRegistrations. rewrite Hreg, bool_decide_eq_false_2; [done|]. apply insert_non_empty. }
  eexists p', _, calls1, (tok n), calls3, t, ids1. split_and!.
  - unfold andThen. rewrite bind_done. cbn [fst snd]. rewrite Hpend, bind_done. cbn [fst snd]. rewrite app_nil_r, Hconn.
    reflexivity.
  - split; [done | done | done | exact R | done].
  - done.
  - done.
  - done.
Qed.

Lemma server_counts calls1 token calls3 conn a x :
  occ x (cbs_of (calls1 ++ [Setup (RegisterTransport token DESCRIPTOR_REPLY)] ++ calls3 ++ [Setup (WriteBrochureAnswer conn a)])) =
  occ x (cbs_of calls1) + (if decide (CbConnection token DESCRIPTOR_REPLY = x) then 1 else 0) + occ x (cbs_of calls3) +
  (if decide (CbNothing = x) then 1 else 0).
Proof.
  rewrite !cbs_of_app, !occ_app. unfold cbs_of at 2 4. simpl. rewrite !occ_cons, occ_nil. lia.
Qed.

Lemma onBrochure_ok v P H G msgs p k addresses tok b :
  NoDup (cv_channels v).*1 -> pipe_ok v P H G msgs p -> is_error (error_ p) = false -> P !! k = Some CbBrochure ->
  wp (onReadWhileServerWaitingForBrochure v addresses tok b p) expected_exn
    (fun r => pipe_ok v (delete k P ++ cbs_of r.2) (H ++ r.2) G msgs r.1).
Proof.
  intros Hd Hok He Hk. pose proof Hok as ([Hs _] & _).
  assert (state_ p = SERVER_WAITING_FOR_BROCHURE) as Hst
    by (by eapply (occ_decide_pos true); [|apply (so_pbro _ _ _ Hs)]).
  assert (no_registrations p) as Hno by (apply (so_regs _ _ _ Hs); right; by rewrite Hst).
  destruct (server_brochure_runs v addresses tok b p Hd Hst Hno)
    as [->|(p' & a & calls1 & token & calls3 & t & ids1 & -> & HA & A1 & A2 & A3)]; [by right|].
  destruct HA as [T1 T2 T3 [R1 R2 R3 R4 R5 R6] T5]. set (names := (map_to_list _).*1) in *.
  destruct Hno as (N1 & N2 & N3). destruct Hs as [S1 S2 S3 S4 S5 S6 S7 S8 S9 S10 S11 S12 S13].
  cbn [wp fst snd]. unfold only_channels in R1.
  assert (forall x, side_of_cb x = Some SideSetup -> x <> CbBrochure -> occ x (delete k P) = 0) as Hzero.
  { intros x Hx Hne. rewrite (occ_remove P k CbBrochure x _ Hk eq_refl), decide_False by congruence.
    destruct x; try done; rewrite ?S10, ?S11, ?S13 by done.
    - unfold waiting_for. by rewrite Hst.
    - by rewrite N1, lookup_empty.
    - unfold slot. by rewrite N2, lookup_empty. }
  assert (occ CbBrochure (delete k P) = 0) as Hbro.
  { rewrite (occ_remove P k CbBrochure CbBrochure _ Hk (S12 He)). unfold waiting_for. rewrite Hst. by rewrite !decide_True. }
  assert (registrationIds_ p' = <[DESCRIPTOR_REPLY := token]> ids1 /\ channels_ p' = channels_ p /\
    error_ p' = error_ p /\ channelForDevicePair_ p' = sc_channelForDevicePair (selectChannels (cv_channels v) (b_channelDeviceDescriptors b)) /\
    reads_ p' = reads_ p /\ writes_ p' = writes_ p)
    as (Q1 & Q2 & Q3 & Q4 & Q5 & Q6) by (rewrite R1; done).
  apply (setup_stay v P H G msgs p Hok k _ Hk eq_refl); try done.
  { apply Forall_app. split; [done|]. apply Forall_cons. split; [done|]. apply Forall_app. split; [done | by constructor]. }
  { cbn [state_ field_update]. by rewrite Hst. }
  assert (channels_ p = ∅) as Hch by (apply S4; by right).
  split.
  2: { intros _ _. unfold pendingRegistrations. cbn [registrationIds_ field_update]. rewrite Q1, bool_decide_eq_false_2; [done|].
       apply insert_non_empty. }
  split; cbn [state_ error_ descriptorReplyConnection_ channels_ channelForDevicePair_ registrationIds_
    channelRegistrationIds_ channelReceivedConnections_ field_update]; rewrite ?Q1, ?Q2, ?Q3, ?Q4, ?Hch; try done.
  - intros _ _. split; [right; by rewrite lookup_insert_eq; eexists|]. intros kk name Hn. right.
    apply selected_pairs in Hn as [d Hn]; [|done].
    destruct (R3 name) as (c & ids & _ & _ & _ & Hids & _); [|by rewrite Hids; eexists].
    apply list_elem_of_fmap. exists (name, d). split; [done | by apply elem_of_map_to_list].
  - rewrite He. by intros [?|?].
  - intros name ids Hn. destruct (decide (name ∈ names)) as [Hin|Hin].
    + destruct (R3 name Hin) as (c & ids' & B1 & B2 & B3 & B4 & B5). rewrite Hn in B4. injection B4 as <-.
      exists (replicate (length ids) None), c. split_and!; try done; [by rewrite length_replicate|].
      intros Hf. destruct ids; [done|]. simpl in Hf. apply Forall_cons in Hf as [[] _]; done.
    + destruct (R2 name Hin) as (B1 & _). rewrite B1 in Hn. cbn [channelRegistrationIds_ field_update] in Hn.
      by rewrite N2, lookup_empty in Hn.
  - intros name Hn. destruct (decide (name ∈ names)) as [Hin|Hin].
    + destruct (R3 name Hin) as (c & ids' & B1 & B2 & B3 & B4 & B5). congruence.
    + destruct (R2 name Hin) as (_ & B1 & _). rewrite B1. cbn [channelReceivedConnections_ field_update].
      by rewrite N3, lookup_empty.
  - intros id t' Ht. destruct (decide (id = DESCRIPTOR_REPLY)) as [->|Hne]; [by right|].
    rewrite lookup_insert_ne in Ht by done. left. by eapply T2.
  - intros _. right; right; by left.
  - intros _ t' id. rewrite occ_app, server_counts, Hzero, A2, R6 by done.
    destruct (decide (id = DESCRIPTOR_REPLY)) as [->|Hne].
    + rewrite lookup_insert_eq. assert (ids1 !! DESCRIPTOR_REPLY = None) as ->.
      { destruct (ids1 !! DESCRIPTOR_REPLY) as [y|] eqn:Hy; [|done]. by apply T2 in Hy. }
      repeat case_decide; try lia; congruence.
    + rewrite lookup_insert_ne by done. repeat case_decide; try lia; congruence.
  - intros _ t' name id. rewrite occ_app, server_counts, Hzero, A3, R5 by done.
    change (slot (p' <| state_ := SERVER_WAITING_FOR_CONNECTIONS |>) name id) with (slot p' name id).
    destruct (decide (name ∈ names)) as [Hin|Hin].
    + rewrite (decide_ext (name ∈ names /\ slot p' name id = Some t') (slot p' name id = Some t')) by tauto.
      repeat case_decide; try lia; congruence.
    + assert (slot p' name id = None) as ->.
      { destruct (R2 name Hin) as (B1 & _). cbn [channelRegistrationIds_ field_update] in B1. unfold slot.
        by rewrite B1, N2, lookup_empty. }
      repeat case_decide; try lia; try tauto; congruence.
  - intros _. rewrite occ_app, server_counts, Hbro, A3, R6 by done. done.
  - intros _. rewrite occ_app, server_counts, Hzero, A3, R6 by done. done.
Qed.
