(* ===== verification/PipeClient.v ===== *)
(** * The handshake, client side: the answer to the brochure *)

From S2P Require Import Prelude Messages Select PipeBase OpsStateMachine PipeRead PipeReadInv PipeReadSide.
From S2P Require Import PipeWrite PipeWriteInv PipeWriteSide PipeKinds Pipe PipeInv PipeSteps PipeHandshake.
From S2P Require Import PipeServer.

(** ** Opening connections *)

(** Calls whose callbacks, if any, do nothing. *)
Definition passive (calls : list pcall) : Prop :=
  all_of SideSetup calls /\ Forall (fun c => cb_of c = None \/ cb_of c = Some CbNothing) calls.

Lemma passive_app l l' : passive l -> passive l' -> passive (l ++ l').
Proof. intros [] []. split; by apply Forall_app. Qed.

Lemma passive_occ l x : passive l -> x <> CbNothing -> occ x (cbs_of l) = 0.
Proof.
  intros [_ Hl] Hx. induction Hl as [|c l Hc _ IH]; [done|]. unfold cbs_of in *. simpl.
  destruct Hc as [-> | ->]; [done|]. by rewrite occ_cons, decide_False.
Qed.

Lemma passive_open transport address c token : passive (openConnection transport address c token).
Proof. split; repeat constructor; by auto. Qed.

Definition channel_answered (v : ContextView) (ids : gmap string (list Z)) (name : string) : Prop :=
  exists c l, getChannel v name = Done c /\ ids !! name = Some l /\ length l = cc_numConnectionsNeeded c.

Lemma open_channel_ok v transport address ids conns n name :
  channel_answered v ids name ->
  exists n' calls, open_channel v transport address ids conns n name = Done (n', calls) /\ passive calls.
Proof.
  intros (c & l & Hc & Hl & Hlen). unfold open_channel. rewrite Hc, bind_done, Hl.
  rewrite tp_check_bind by (by apply Nat.eqb_eq). do 2 eexists. split; [done|].
  apply passive_app; [|split; repeat constructor; by auto].
  generalize (conns <$> seq n (cc_numConnectionsNeeded c)). clear. intros cs.
  revert l. induction cs as [|c cs IH]; intros [|t l]; try (by split; constructor).
  simpl. apply (passive_app (openConnection transport address c t)); [apply passive_open | apply IH].
Qed.

Lemma open_channels_ok v transport address ids conns names : forall n p,
  (forall name, name ∈ names -> channel_answered v ids name) ->
  exists p' calls, open_channels v transport address ids conns n names p = Done (p', calls) /\ passive calls /\
    p' = p <| channels_ := channels_ p' |> /\ channels_ p' = list_to_set names ∪ channels_ p.
Proof.
  induction names as [|name names IH]; intros n p Ha.
  - exists p, []. split_and!; [done | by split; constructor | by destruct p | set_solver].
  - destruct (open_channel_ok v transport address ids conns n name) as (n' & calls & Heq & Hp); [apply Ha; by left|].
    cbn [open_channels]. rewrite Heq, bind_done. cbv beta iota.
    destruct (IH n' (p <| channels_ ::= fun c => {[name]} ∪ c |>)) as (p' & calls' & Heq' & Hp' & H1 & H2);
      [intros; apply Ha; by right|].
    unfold andThen. rewrite bind_done. cbn [fst snd]. rewrite Heq', bind_done. do 2 eexists. split; [done|]. cbn [fst snd].
    split_and!; [by apply passive_app | rewrite H1; by destruct p |].
    rewrite H2. cbn [channels_ field_update list_to_set]. set_solver.
Qed.

(** ** The handler of the answer *)

Definition answer_selection (v : ContextView) (a : BrochureAnswer) : SelectedChannels :=
  selectChannels (cv_channels v) (ba_channelDeviceDescriptors a).

(** What the code expects of an answer (and otherwise throws). *)
Record answer_ok (v : ContextView) (transport : string) (a : BrochureAnswer) : Prop := {
  an_transport : exists t, getTransport v (ba_transport a) = Done t /\
    tc_canCommunicateWithRemote t (ba_transportDomainDescriptor a) = true;
  an_descriptor : ba_transport a <> transport -> is_Some (ba_transportRegistrationIds a !! DESCRIPTOR);
  an_reply : is_Some (ba_transportRegistrationIds a !! DESCRIPTOR_REPLY);
  an_consistent : channels_consistent (ba_channelForDevicePair a)
    (sc_channelForDevicePair (answer_selection v a)) = true;
  an_channels : forall name, is_Some (sc_descriptorsMap (answer_selection v a) !! name) ->
    channel_answered v (ba_channelRegistrationIds a) name;
}.

(** The pipe just before it is established. *)
Lemma client_answer_runs v conns a p :
  state_ p = CLIENT_WAITING_FOR_BROCHURE_ANSWER -> answer_ok v (transport_ p) a ->
  exists p1 calls, onReadWhileClientWaitingForBrochureAnswer v conns a p = andThen (Done (p1, calls)) establish /\
    passive calls /\
    p1 = p <| transport_ := transport_ p1 |> <| descriptorConnection_ := descriptorConnection_ p1 |>
           <| descriptorReplyConnection_ := Some (conns 1%nat) |> <| channels_ := channels_ p1 |>
           <| channelForDevicePair_ := sc_channelForDevicePair (answer_selection v a) |> /\
    transport_ p1 = ba_transport a /\
    channels_ p1 = list_to_set (map_to_list (sc_descriptorsMap (answer_selection v a))).*1 ∪ channels_ p.
Proof.
  intros Hst [(t & Ht & Hcan) Hdesc [token Htok] Hcons Hchan].
  unfold onReadWhileClientWaitingForBrochureAnswer. rewrite tp_check_bind by (by apply bool_decide_eq_true).
  rewrite Ht, bind_done, tp_check_bind by done.
  match goal with |- context [_ ≫= ?K] => set (k := K) end.
  assert (exists pc, (if decide (ba_transport a = transport_ p) then Done (p, [])
      else match ba_transportRegistrationIds a !! DESCRIPTOR with
           | None => Throw ExAssert
           | Some token => Done (p <| transport_ := ba_transport a |> <| descriptorConnection_ := conns 0%nat |>,
               openConnection (ba_transport a) (ba_address a) (conns 0%nat) token)
           end) = Done pc /\ passive pc.2 /\
      pc.1 = p <| transport_ := ba_transport a |> <| descriptorConnection_ := descriptorConnection_ pc.1 |>)
    as ([p0 calls1] & -> & Hpas1 & Hp0).
  { destruct (decide (ba_transport a = transport_ p)) as [Heq|Hne].
    - exists (p, []). split_and!; [done | by split; constructor | rewrite Heq; by destruct p].
    - destruct (Hdesc Hne) as [tk ->]. eexists. split_and!; [done | apply passive_open | by destruct p]. }
  rewrite bind_done. cbn [fst snd] in *. unfold k. clear k. rewrite Htok. cbv zeta. fold (answer_selection v a).
  cbn [channelForDevicePair_ field_update]. rewrite Hcons.
  match goal with |- context [open_channels v _ _ _ _ _ ?names] =>
    destruct (open_channels_ok v (ba_transport a) (ba_address a) (ba_channelRegistrationIds a) conns names 2
      (p0 <| descriptorReplyConnection_ := Some (conns 1%nat) |>
          <| channelForDevicePair_ := sc_channelForDevicePair (answer_selection v a) |>)) as (p1 & calls3 & Heq & Hpas3 & E1 & E2) end.
  { intros name Hn. apply Hchan. apply list_elem_of_fmap in Hn as ([n d] & -> & Hn).
    apply elem_of_map_to_list in Hn. by eexists. }
  exists p1. eexists. split_and!.
  - unfold andThen at 2. rewrite bind_done. cbn [fst snd]. rewrite Heq, bind_done. cbn [fst snd]. reflexivity.
  - apply passive_app; [apply passive_app; [done | apply passive_open] | done].
  - rewrite E1, Hp0. by destruct p.
  - rewrite E1. cbn [transport_ field_update]. by rewrite Hp0.
  - rewrite E2. cbn [channels_ field_update]. by rewrite Hp0.
Qed.

Lemma onAnswer_ok v P H G msgs p k conns a :
  NoDup (cv_channels v).*1 -> pipe_ok v P H G msgs p -> is_error (error_ p) = false -> P !! k = Some CbBrochureAnswer ->
  answer_ok v (transport_ p) a ->
  wp (onReadWhileClientWaitingForBrochureAnswer v conns a p) expected_exn
    (fun r => pipe_ok v (delete k P ++ cbs_of r.2) (H ++ r.2) G msgs r.1).
Proof.
  intros Hd Hok He Hk Ha. pose proof Hok as ([Hs _] & _).
  assert (state_ p = CLIENT_WAITING_FOR_BROCHURE_ANSWER) as Hst
    by (by eapply (occ_decide_pos true); [|apply (so_pans _ _ _ Hs)]).
  assert (no_registrations p) as (N1 & N2 & N3) by (apply (so_regs _ _ _ Hs); right; by rewrite Hst).
  destruct (client_answer_runs v conns a p Hst Ha) as (p1 & calls & -> & Hpas & Hp1 & _ & Hch).
  assert (registrationIds_ p1 = ∅ /\ channelRegistrationIds_ p1 = ∅ /\ channelReceivedConnections_ p1 = ∅ /\
    error_ p1 = error_ p /\ reads_ p1 = reads_ p /\ writes_ p1 = writes_ p /\
    descriptorReplyConnection_ p1 = Some (conns 1%nat) /\
    channelForDevicePair_ p1 = sc_channelForDevicePair (answer_selection v a))
    as (Q1 & Q2 & Q3 & Q4 & Q5 & Q6 & Q7 & Q8) by (rewrite Hp1; done).
  clear Hp1. destruct Hs as [S1 S2 S3 S4 S5 S6 S7 S8 S9 S10 S11 S12 S13].
  apply (establish_ok v P H G msgs p Hok k _ Hk eq_refl); try done; [apply Hpas|].
  assert (forall x, x <> CbNothing -> occ x (delete k P ++ cbs_of calls) = occ x P - (if decide (CbBrochureAnswer = x) then 1 else 0)) as Hocc.
  { intros x Hx. rewrite occ_app, (passive_occ calls x) by done. rewrite (occ_remove P k _ x _ Hk eq_refl). lia. }
  split; [|done]. split; cbn [state_ error_ descriptorReplyConnection_ channels_ channelForDevicePair_ registrationIds_
    channelRegistrationIds_ channelReceivedConnections_ field_update]; rewrite ?Q1, ?Q2, ?Q3, ?Q4, ?Q7, ?Q8; try done.
  - intros _. split; [by eexists|]. intros kk name Hn. rewrite Hch. apply elem_of_union_l, elem_of_list_to_set.
    apply selected_pairs in Hn as [d Hn]; [|done].
    apply list_elem_of_fmap. exists (name, d). split; [done | by apply elem_of_map_to_list].
  - by intros [?|?].
  - intros _. by right; right; right.
  - intros _ t id. rewrite Hocc, S10, N1 by done. by rewrite lookup_empty.
  - intros _ t name id. rewrite Hocc, S11 by done. unfold slot.
    cbn [channelRegistrationIds_ field_update]. by rewrite N2, Q2, lookup_empty.
  - intros _. rewrite Hocc, S12 by done. unfold waiting_for. cbn [state_ field_update]. by rewrite Hst.
  - intros _. rewrite Hocc, S13 by done. unfold waiting_for. cbn [state_ field_update]. by rewrite Hst.
Qed.
