(* ===== verification/PipeWorld.v ===== *)
(** * A pipe and everything around it

    The user, the transports, the channels and the listener act in any order:
    the user calls the pipe, and any outstanding callback may be called next,
    with or without an error.  The theorems hold in every reachable world. *)

From S2P Require Import Prelude Messages Select PipeBase OpsStateMachine OpsInvariants PipeRead PipeReadInv.
From S2P Require Import PipeReadSide.
From S2P Require Import PipeWrite PipeWriteInv PipeWriteSide PipeKinds Pipe PipeInv PipeSteps PipeHandshake.
From S2P Require Import PipeServer PipeClient.

(** [w_hist]: the calls the pipe made; [w_msgs]: the messages it was given;
    [w_reads]: the number of [read] calls. *)
Record PipeWorld := mkPipeWorld {
  w_pipe : PipeImpl;
  w_pending : list cb;
  w_hist : list pcall;
  w_msgs : list Message;
  w_reads : Z;
}.

Inductive pipe_event :=
| EvReadDescriptor
| EvRead (allocation : Allocation)
| EvWrite (message : Message)
| EvClose
| EvFire (i : nat) (e : Error) (d : delivery).

Definition after_step (m : pipe_result) (pending : list cb) (msgs : list Message) (reads : Z) (w : PipeWorld)
    : outcome PipeWorld :=
  r ← m; Done (mkPipeWorld r.1 (pending ++ cbs_of r.2) (w_hist w ++ r.2) msgs reads).

(** The user's [n]-th callback of each kind is number [n]. *)
Definition pipe_step (v : ContextView) (w : PipeWorld) (ev : pipe_event) : outcome PipeWorld :=
  match ev with
  | EvReadDescriptor =>
      after_step (on_reads (fun ctx s => readDescriptorFromLoop ctx (Z.to_nat (nextMessageBeingRead_ s)) s) (w_pipe w))
        (w_pending w) (w_msgs w) (w_reads w) w
  | EvRead allocation =>
      after_step (on_reads (fun ctx => readFromLoop ctx allocation (Z.to_nat (w_reads w))) (w_pipe w))
        (w_pending w) (w_msgs w) (w_reads w + 1) w
  | EvWrite message =>
      after_step (on_writes (fun ctx s => writeFromLoop ctx message (Z.to_nat (nextMessageBeingWritten_ s)) s) (w_pipe w))
        (w_pending w) (w_msgs w ++ [message]) (w_reads w) w
  | EvClose => after_step (closeFromLoop (w_pipe w)) (w_pending w) (w_msgs w) (w_reads w) w
  | EvFire i e d =>
      match w_pending w !! i with
      | None => Done w
      | Some c =>
          after_step (entryPointFromLoop v c e d (w_pipe w)) (delete i (w_pending w)) (w_msgs w) (w_reads w) w
      end
  end.

(** Sizes fit in memory. *)
Definition delivery_small (d : delivery) : Prop :=
  match d with
  | DDescriptor desc => Z.of_nat (length (d_payloads desc)) < 2 ^ 64 /\ Z.of_nat (length (d_tensors desc)) < 2 ^ 64
  | _ => True
  end.

(** What a callback may deliver when there is no error: the peer follows the
    protocol. *)
Definition delivery_ok (v : ContextView) (p : PipeImpl) (msgs : list Message) (c : cb) (d : delivery) : Prop :=
  match c, d with
  | CbNothing, _ | CbPayloadRead _, _ | CbTensorRecv _, _ | CbPayloadWritten _, _ | CbTensorSent _, _ => True
  | CbDescriptor _, DDescriptor _ => True
  | CbReply it, DReply r => forall m, msgs !! Z.to_nat it = Some m -> reply_fits r m
  | CbBrochure, DBrochure _ _ _ => True
  | CbBrochureAnswer, DAnswer a _ => answer_ok v (transport_ p) a
  | CbConnection _ _, DConnection transport _ | CbChannel _ _ _, DConnection transport _ => transport = transport_ p
  | _, _ => False
  end.

(** What the user and the environment may do. *)
Definition event_ok (v : ContextView) (w : PipeWorld) (ev : pipe_event) : Prop :=
  match ev with
  | EvReadDescriptor => nextMessageBeingRead_ (reads_ (w_pipe w)) + 1 < 2 ^ 63
  | EvRead allocation => exists e d,
      (Z.to_nat (w_reads w), e, d) ∈ rd_calls (w_hist w) /\ is_error e = false /\
      checkAllocationCompatibility d allocation = Done tt
  | EvWrite m => nextMessageBeingWritten_ (writes_ (w_pipe w)) + 1 < 2 ^ 63 /\ message_small m
  | EvClose => True
  | EvFire i e d => delivery_small d /\ exists c, w_pending w !! i = Some c /\
      (is_error e = false -> is_error (error_ (w_pipe w)) = false -> delivery_ok v (w_pipe w) (w_msgs w) c d)
  end.

(** A new pipe, initialized in its context. *)
Definition init_world (v : ContextView) (context_closed : bool) (p : PipeImpl) : PipeWorld :=
  let r := initFromLoop v context_closed p in mkPipeWorld r.1 (cbs_of r.2) r.2 [] 0.

Inductive pipe_reach (v : ContextView) : PipeWorld -> Prop :=
| reach_client closed transport c : pipe_reach v (init_world v closed (newClientPipe transport c))
| reach_server closed transport c : pipe_reach v (init_world v closed (newServerPipe transport c))
| reach_event w ev w' : pipe_reach v w -> event_ok v w ev -> pipe_step v w ev = Done w' -> pipe_reach v w'.

(** ** The invariant *)

Definition world_ok (v : ContextView) (w : PipeWorld) : Prop :=
  pipe_ok v (w_pending w) (w_hist w) (w_reads w) (w_msgs w) (w_pipe w).

Lemma new_sides_ok ctx P calls :
  all_of SideSetup calls -> P = cbs_of calls -> read_ok ctx P calls 0 newReadSide /\ write_ok ctx P calls [] newWriteSide.
Proof.
  intros Hc ->. assert (rinv ctx [] [] 0 0 newReadSide) as Hr.
  { split; try done. intros it. split; [done|]. intros (i & o & Hi & _). done. }
  assert (winv ctx [] [] [] 0 0 0 newWriteSide) as Hw by (by split).
  split; (split; [|split; [by apply Forall_nil | by intros i o Hi]]).
  - exists 0. by apply (rinv_other ctx [] [] 0 0 newReadSide SideSetup calls).
  - exists 0, 0, 0. by apply (winv_other ctx [] [] [] 0 0 0 newWriteSide SideSetup calls).
Qed.

Lemma init_ok v closed p :
  (exists t c, p = newClientPipe t c \/ p = newServerPipe t c) -> world_ok v (init_world v closed p).
Proof.
  intros (t & c & Hp). unfold world_ok, init_world. set (r := initFromLoop v closed p).
  assert (all_of SideSetup r.2 /\ reads_ r.1 = newReadSide /\ writes_ r.1 = newWriteSide) as (Hc & Hr & Hw).
  { unfold r. destruct Hp as [-> | ->], closed; split_and!; try done; by repeat constructor. }
  destruct (new_sides_ok (ctx_of r.1) (cbs_of r.2) r.2 Hc eq_refl) as [H1 H2].
  cbn [w_pipe w_pending w_hist w_reads w_msgs]. split; [|by rewrite Hr, Hw].
  subst r. clear -Hp. destruct Hp as [-> | ->], closed; (split; [split|]); try done; simpl; try (by intros [?|?]);
    try (intros _; try by (right; right; left)); try done; intros;
    rewrite ?lookup_empty in *; try done; unfold slot; rewrite ?lookup_empty; try done.
  - by left.
  - by right; left.
Qed.

(** A callback that does nothing is dropped. *)
Lemma pipe_ok_drop v P H G msgs p k x :
  pipe_ok v P H G msgs p -> P !! k = Some x ->
  side_of_cb x = None \/ side_of_cb x = Some SideSetup /\ is_error (error_ p) = true ->
  pipe_ok v (delete k P ++ cbs_of []) (H ++ []) G msgs p.
Proof.
  intros (Hs & ([first Hr] & Hr2) & ((K & K2 & fw & Hw) & Hw2)) Hk Hx. unfold cbs_of. simpl. rewrite !app_nil_r.
  assert (side_of_cb x <> Some SideRead /\ side_of_cb x <> Some SideWrite) as [X1 X2].
  { destruct Hx as [-> | [-> _]]; done. }
  split; [|split].
  - destruct Hx as [Hx|[_ He]]; [|by eapply setup_frame_error]. eapply setup_delete; [done | done | by rewrite Hx].
  - split; [|done]. exists first. by eapply rinv_delete.
  - split; [|done]. exists K, K2, fw. by eapply winv_delete.
Qed.

Lemma read_cb_ok v P H G msgs p k x f :
  pipe_ok v P H G msgs p -> P !! k = Some x -> side_of_cb x = Some SideRead ->
  read_wp (f (ctx_of p) (reads_ p)) (ctx_of p) (delete k P) H G ->
  emits (fun c => side_of c = SideRead) (f (ctx_of p) (reads_ p)) ->
  wp (on_reads f p) expected_exn (fun r => pipe_ok v (delete k P ++ cbs_of r.2) (H ++ r.2) G msgs r.1).
Proof.
  intros (Hs & Hr & ((K & K2 & fw & Hw) & Hw2)) Hk Hx Hf He.
  eapply wp_mono; [apply (on_reads_ok v (delete k P) H G msgs)|]; try done.
  - eapply setup_delete; [done | done | by rewrite Hx].
  - split; [|done]. exists K, K2, fw. eapply winv_delete; [done | done | by rewrite Hx].
  - by intros r [Hok _].
Qed.

Lemma write_cb_ok v P H G msgs p k x f :
  pipe_ok v P H G msgs p -> P !! k = Some x -> side_of_cb x = Some SideWrite ->
  write_wp (f (ctx_of p) (writes_ p)) (ctx_of p) (delete k P) H msgs ->
  emits (fun c => side_of c = SideWrite) (f (ctx_of p) (writes_ p)) ->
  wp (on_writes f p) expected_exn (fun r => pipe_ok v (delete k P ++ cbs_of r.2) (H ++ r.2) G msgs r.1).
Proof.
  intros (Hs & ([first Hr] & Hr2) & Hw) Hk Hx Hf He.
  eapply wp_mono; [apply (on_writes_ok v (delete k P) H G msgs)|]; try done.
  - eapply setup_delete; [done | done | by rewrite Hx].
  - split; [|done]. exists first. eapply rinv_delete; [done | done | by rewrite Hx].
  - by intros r [Hok _].
Qed.

Lemma callback_body_ok v P H G msgs p k c d :
  NoDup (cv_channels v).*1 -> pipe_ok v P H G msgs p -> P !! k = Some c -> delivery_small d ->
  (is_error (error_ p) = false -> delivery_ok v p msgs c d) ->
  wp (callback_body v c d p) expected_exn (fun r => pipe_ok v (delete k P ++ cbs_of r.2) (H ++ r.2) G msgs r.1).
Proof.
  intros Hnd Hok Hk Hd Hdel. pose proof Hok as (Hs & Hr & Hw). pose proof (setup_ctx _ _ _ Hs) as Hctx.
  destruct (side_of_cb c) as [[]|] eqn:Hside.
  - destruct c as [|it|it|it|it|it|it| | |tk id|tk nm id]; try done; unfold callback_body.
    + assert (forall desc, Z.of_nat (length (d_payloads desc)) < 2 ^ 64 -> Z.of_nat (length (d_tensors desc)) < 2 ^ 64 ->
        wp (on_reads (fun ctx => onDescriptorRead ctx it desc) p) expected_exn
          (fun r => pipe_ok v (delete k P ++ cbs_of r.2) (H ++ r.2) G msgs r.1)) as Hrun.
      { intros desc H1 H2. eapply read_cb_ok; [done | done | done | by apply onDescriptorRead_ok | apply onDescriptorRead_emits]. }
      destruct d; apply Hrun; try done; apply Hd.
    + eapply read_cb_ok; [done | done | done | by apply onPayloadRead_ok | apply onPayloadRead_emits].
    + eapply read_cb_ok; [done | done | done | by apply onTensorReceived_ok | apply onTensorReceived_emits].
  - destruct c as [|it|it|it|it|it|it| | |tk id|tk nm id]; try done; unfold callback_body.
    + eapply write_cb_ok; [done | done | done | by apply onPayloadWritten_ok | apply onPayloadWritten_emits].
    + destruct (reply_op _ _ _ _ _ _ _ Hw Hk) as [m Hm].
      assert (forall r, (is_error (error_ p) = false -> reply_fits r m) ->
        wp (on_writes (fun ctx => onDescriptorReplyRead ctx it r) p) expected_exn
          (fun r => pipe_ok v (delete k P ++ cbs_of r.2) (H ++ r.2) G msgs r.1)) as Hrun.
      { intros r Hf. eapply write_cb_ok; [done | done | done | by eapply onDescriptorReplyRead_ok | apply onDescriptorReplyRead_emits]. }
      destruct d; apply Hrun; intros He; specialize (Hdel He); simpl in Hdel; try done. by apply Hdel.
    + eapply write_cb_ok; [done | done | done | by apply onTensorSent_ok | apply onTensorSent_emits].
  - destruct (is_error (error_ p)) eqn:He.
    + assert (callback_body v c d p = Done (p, [])) as ->.
      { destruct c; try done; destruct d; try done; unfold callback_body, unless_error; by rewrite He. }
      cbn [wp fst snd]. eapply pipe_ok_drop; [done | done | by right].
    + specialize (Hdel eq_refl). destruct c as [|it|it|it|it|it|it| | |tk id|tk nm id]; try done; destruct d; try done;
        unfold callback_body, unless_error; rewrite He.
      * by apply onBrochure_ok.
      * by apply onAnswer_ok.
      * by eapply onConnection_ok.
      * by eapply onChannel_ok.
  - destruct c; try done. unfold callback_body. cbn [wp fst snd]. eapply pipe_ok_drop; [done | done | by left].
Qed.

Lemma entryPoint_ok v P H G msgs p k c e d :
  NoDup (cv_channels v).*1 -> pipe_ok v P H G msgs p -> P !! k = Some c -> delivery_small d ->
  (is_error e = false -> is_error (error_ p) = false -> delivery_ok v p msgs c d) ->
  wp (entryPointFromLoop v c e d p) expected_exn
    (fun r => pipe_ok v (delete k P ++ cbs_of r.2) (H ++ r.2) G msgs r.1).
Proof.
  intros Hnd Hok Hk Hd Hdel. unfold entryPointFromLoop. apply andThen_wp.
  eapply wp_mono; [by apply (setError_ok v P H G msgs p e)|].
  intros [p1 c1] (Hok1 & Herr & Hsame). cbn [fst snd] in *.
  assert (k < length P)%nat as Hlt by (by eapply lookup_lt_Some).
  eapply wp_mono; [apply (callback_body_ok v (P ++ cbs_of c1) (H ++ c1) G msgs p1 k c d); try done|].
  - by apply lookup_app_l_Some.
  - intros He. destruct (Hsame He) as [-> ->]. apply Hdel; [|done]. destruct (is_error e); [|done]. by rewrite Herr in He.
  - intros [p2 c2] Hok2. cbn [fst snd] in *. rewrite cbs_of_app, !app_assoc.
    assert (delete k (P ++ cbs_of c1) = delete k P ++ cbs_of c1) as Hdl.
    { rewrite !delete_take_drop, take_app_le, drop_app_le by lia. by rewrite app_assoc. }
    by rewrite Hdl in Hok2.
Qed.

(** Every event keeps the invariant. *)
Lemma pipe_step_ok v w ev :
  NoDup (cv_channels v).*1 -> world_ok v w -> event_ok v w ev ->
  wp (pipe_step v w ev) expected_exn (world_ok v).
Proof.
  intros Hnd Hok Hev. unfold world_ok in Hok. pose proof Hok as (Hs & Hr & Hw).
  pose proof (setup_ctx _ _ _ Hs) as Hctx.
  destruct ev as [|a|m| |i e d]; unfold pipe_step.
  - apply wp_bind. eapply wp_mono; [apply (on_reads_ok v (w_pending w) (w_hist w) (w_reads w) (w_msgs w));
      [done | done | by apply readDescriptorFromLoop_ok | apply readDescriptorFromLoop_emits]|].
    by intros r [Hr' _].
  - destruct Hev as (e & d & Hin & He & Hc). apply wp_bind.
    eapply wp_mono; [apply (on_reads_ok v (w_pending w) (w_hist w) (w_reads w + 1) (w_msgs w) (w_pipe w)); [done | done | | apply readFromLoop_emits]|].
    + by eapply readFromLoop_ok.
    + by intros r [Hr' _].
  - destruct Hev as [Hb Hm]. apply wp_bind.
    eapply wp_mono; [apply (on_writes_ok v (w_pending w) (w_hist w) (w_reads w) (w_msgs w ++ [m]));
      [done | done | by apply writeFromLoop_ok | apply writeFromLoop_emits]|].
    by intros r [Hr' _].
  - apply wp_bind. eapply wp_mono; [by apply setError_ok|]. by intros r [Hr' _].
  - destruct Hev as (Hd & c & Hk & Hdel). rewrite Hk. apply wp_bind.
    eapply wp_mono; [by apply (entryPoint_ok v (w_pending w) (w_hist w) (w_reads w) (w_msgs w))|]. done.
Qed.

Lemma reach_ok v w : NoDup (cv_channels v).*1 -> pipe_reach v w -> world_ok v w.
Proof.
  intros Hnd Hw. induction Hw as [closed t c|closed t c|w ev w' _ IH Hev Hstep].
  - apply init_ok. exists t, c. by left.
  - apply init_ok. exists t, c. by right.
  - pose proof (pipe_step_ok v w ev Hnd IH Hev) as Hx. by rewrite Hstep in Hx.
Qed.
