(* ===== verification/PipeTheorems.v ===== *)
(** * What a pipe guarantees *)

From S2P Require Import Prelude Messages Select PipeBase OpsStateMachine OpsInvariants PipeRead PipeReadInv.
From S2P Require Import PipeReadSide.
From S2P Require Import PipeWrite PipeWriteInv PipeWriteSide PipeKinds Pipe PipeInv PipeSteps PipeHandshake.
From S2P Require Import PipeServer PipeClient PipeWorld.

(** ** Nothing is left to wait for *)

Definition all_quiet (P : list cb) : Prop := Forall (fun c => c = CbNothing) P.

Lemma quiet_occ P x : all_quiet P -> x <> CbNothing -> occ x P = 0.
Proof.
  intros Hq Hx. induction Hq as [|c P -> _ IH]; [done|]. by rewrite occ_cons, decide_False.
Qed.

Lemma quiet_sides P : all_quiet P -> no_read_callbacks P /\ no_write_callbacks P.
Proof. intros Hq. split; intros it; split_and!; by apply quiet_occ. Qed.

(** Every channel uses at least one connection. *)
Definition channels_connected (v : ContextView) : Prop :=
  Forall (fun c => (0 < cc_numConnectionsNeeded c.2)%nat) (cv_channels v).

Lemma assoc_in {A} n (a : A) l : assoc n l = Done a -> (n, a) ∈ l.
Proof.
  induction l as [|[m b] l IH]; [done|]. simpl. destruct (decide (m = n)) as [->|]; [intros [= ->]; left | right; auto].
Qed.

Lemma quiet_established v P H G msgs p :
  pipe_ok v P H G msgs p -> channels_connected v -> all_quiet P -> is_error (error_ p) = false ->
  state_ p = ESTABLISHED.
Proof.
  intros ([Hs Hp] & _) Hconn Hq He. destruct (so_state _ _ _ Hs He) as [Hst|[Hst|[Hst|Hst]]]; [..|done]; exfalso.
  - pose proof (so_pans _ _ _ Hs He) as Ho. unfold waiting_for in Ho. rewrite Hst, (quiet_occ P) in Ho by done. done.
  - pose proof (so_pbro _ _ _ Hs He) as Ho. unfold waiting_for in Ho. rewrite Hst, (quiet_occ P) in Ho by done. done.
  - specialize (Hp He Hst). unfold pendingRegistrations in Hp. case_bool_decide as R1; cbn [negb] in Hp.
    + case_bool_decide as R2; cbn [negb] in Hp; [done|]. apply map_choose in R2 as (name & ids & Hids).
      destruct (so_recv _ _ _ Hs _ _ Hids) as (received & c & B1 & B2 & B3 & B4 & B5).
      assert (ids <> []) as Hne.
      { intros ->. apply assoc_in in B3. unfold channels_connected in Hconn. rewrite Forall_forall in Hconn.
        specialize (Hconn _ B3). simpl in *. lia. }
      assert (~ Forall is_Some received) as Hnf by tauto.
      apply not_Forall_Exists in Hnf; [|apply _]. apply Exists_exists in Hnf as (r & Hin & Hr).
      destruct r as [r|]; [by destruct Hr; eexists|]. apply list_elem_of_lookup in Hin as [i Hi].
      destruct (lookup_lt_is_Some_2 ids i) as [tok Htok]; [rewrite <- B2; by eapply lookup_lt_Some|].
      pose proof (so_pchan _ _ _ Hs He tok name i) as Ho. rewrite quiet_occ in Ho by done.
      unfold slot in Ho. rewrite Hids, B1, Htok, Hi in Ho. by rewrite decide_True in Ho.
    + apply map_choose in R1 as (id & tok & Hid). pose proof (so_pconn _ _ _ Hs He tok id) as Ho.
      rewrite quiet_occ in Ho by done. by rewrite decide_True in Ho.
Qed.

(** ** The connection *)

Lemma pipe_wire_format_writes v w :
  NoDup (cv_channels v).*1 -> pipe_reach v w ->
  exists K : nat, (K <= length (w_msgs w))%nat /\
    wdescs (w_hist w) = descriptor_of <$> take K (w_msgs w) /\
    write_items (w_hist w) = mjoin ((fun m => frame (descriptor_of m)) <$> take K (w_msgs w)).
Proof.
  intros Hnd Hw. pose proof (reach_ok v w Hnd Hw) as (_ & _ & ((K & K2 & fw & Hi) & _)).
  pose proof (wi_len _ _ _ _ _ _ _ _ Hi) as Hlen. pose proof (wi_K _ _ _ _ _ _ _ _ Hi) as HK.
  exists (Z.to_nat K). split_and!; [lia | apply Hi | apply Hi].
Qed.

Lemma pipe_wire_format_reads v w :
  NoDup (cv_channels v).*1 -> pipe_reach v w ->
  exists (M : nat) (half : bool), (M <= length (descs (w_hist w)))%nat /\
    read_items (w_hist w) = mjoin (frame <$> take M (descs (w_hist w))) ++ (if half then [ItemDescriptor] else []).
Proof.
  intros Hnd Hw. pose proof (reach_ok v w Hnd Hw) as (_ & ((first & Hr) & _) & _).
  exists (Z.to_nat (messageBeingReadFromConnection_ (reads_ (w_pipe w)))),
    (bool_decide (connectionState_ (reads_ (w_pipe w)) = AWAITING_PAYLOADS)). split.
  - rewrite (descs_length _ _ _ _ _ _ Hr). pose proof (ri_Mle _ _ _ _ _ _ Hr). lia.
  - rewrite (ri_h4 _ _ _ _ _ _ Hr) at 1. f_equal. by case_bool_decide; case_decide.
Qed.

(** ** The theorems *)

(** C1: in every reachable world, no check of the pipe fails, no callback is
    missing, no operation or connection that no longer exists is used: an entry
    point or callback of the pipe can only throw because no channel (or no
    transport) connects the two ends, which is the user's configuration. *)
Theorem pipe_no_throw v w ev :
  NoDup (cv_channels v).*1 -> pipe_reach v w -> event_ok v w ev ->
  match pipe_step v w ev with Done _ => True | Throw e => e = no_channel \/ e = no_viable_transport end.
Proof.
  intros Hnd Hw Hev. pose proof (pipe_step_ok v w ev Hnd (reach_ok v w Hnd Hw) Hev) as Hx.
  by destruct (pipe_step v w ev).
Qed.

(** C3: the callbacks of [readDescriptor], of [read] and of [write] are each
    called at most once, in the order of the calls, and never before the call. *)
Theorem pipe_callbacks_in_order v w :
  NoDup (cv_channels v).*1 -> pipe_reach v w ->
  exists D R W : nat,
    (fun c => c.1.1) <$> rd_calls (w_hist w) = seq 0 D /\ r_calls (w_hist w) = seq 0 R /\
    w_calls (w_hist w) = seq 0 W /\ (D <= Z.to_nat (nextMessageBeingRead_ (reads_ (w_pipe w))))%nat /\
    (R <= Z.to_nat (w_reads w))%nat /\ (W <= length (w_msgs w))%nat.
Proof.
  intros Hnd Hw. pose proof (reach_ok v w Hnd Hw) as (_ & Hr & ((K & K2 & fw & Hi) & _)).
  pose proof (winv_bounds _ _ _ _ _ _ _ _ Hi) as Hb. pose proof (wi_len _ _ _ _ _ _ _ _ Hi) as Hlen.
  pose proof (read_ok_reads_le _ _ _ _ _ Hr) as Hle. destruct Hr as ((first & Hri) & _).
  pose proof (rinv_bounds _ _ _ _ _ _ Hri) as Hrb.
  exists (Z.to_nat (nextReadDescriptorCallbackToCall_ (reads_ (w_pipe w)))),
    (Z.to_nat (nextReadCallbackToCall_ (reads_ (w_pipe w)))), (Z.to_nat (nextWriteCallbackToCall_ (writes_ (w_pipe w)))).
  split_and!; [apply Hri | apply Hri | apply Hi | lia | lia | lia].
Qed.


(** C2: nothing is forgotten.  When no callback is outstanding (all the objects
    around the pipe are idle), the handshake is over or has failed, every [write]
    and every [read] was called back, and so was every [readDescriptor] if there
    was an error; without an error, the pipe has announced the one message that
    comes after those for which [read] was called. *)
Theorem pipe_quiescent v w :
  NoDup (cv_channels v).*1 -> channels_connected v -> pipe_reach v w -> all_quiet (w_pending w) ->
  w_calls (w_hist w) = seq 0 (length (w_msgs w)) /\
  r_calls (w_hist w) = seq 0 (Z.to_nat (w_reads w)) /\
  let asked := nextMessageBeingRead_ (reads_ (w_pipe w)) in
  if is_error (error_ (w_pipe w)) then
    (fun c => c.1.1) <$> rd_calls (w_hist w) = seq 0 (Z.to_nat asked)
  else
    state_ (w_pipe w) = ESTABLISHED /\
    (fun c => c.1.1) <$> rd_calls (w_hist w) = seq 0 (Z.to_nat (Z.min asked (w_reads w + 1))).
Proof.
  intros Hnd Hconn Hw Hq. pose proof (reach_ok v w Hnd Hw) as Hok. pose proof Hok as (Hs & Hr & Hwr).
  destruct (quiet_sides _ Hq) as [Q1 Q2].
  assert (is_error (error_ (w_pipe w)) = true \/ state_ (w_pipe w) = ESTABLISHED) as Hdone.
  { destruct (is_error (error_ (w_pipe w))) eqn:He; [by left | right]. by eapply quiet_established. }
  pose proof (quiet_writes _ _ _ _ _ Hwr Q2 Hdone) as HW. pose proof (quiet_reads _ _ _ _ _ Hr Q1) as HR.
  pose proof Hr as ((first & Hri) & _). pose proof Hwr as ((K & K2 & fw & Hi) & _).
  split_and!.
  - rewrite (wi_h1 _ _ _ _ _ _ _ _ Hi), HW, <- (wi_len _ _ _ _ _ _ _ _ Hi). by rewrite Nat2Z.id.
  - by rewrite (ri_h2 _ _ _ _ _ _ Hri), HR.
  - cbv zeta. destruct (is_error (error_ (w_pipe w))) eqn:He.
    + rewrite (ri_h1 _ _ _ _ _ _ Hri). by rewrite (quiet_descriptors_error _ _ _ _ _ Hr Q1 He).
    + destruct Hdone as [?|Hst]; [done|]. split; [done|].
      rewrite (ri_h1 _ _ _ _ _ _ Hri). by rewrite (quiet_descriptors _ _ _ _ _ Hr Q1 He Hst).
Qed.

(** An established pipe has its connection for descriptor replies and a
    channel object for every pair of devices it selected one for, and it waits
    for no more connections; a pipe with an error holds no registration. *)
Lemma pipe_established_complete v w :
  NoDup (cv_channels v).*1 -> pipe_reach v w ->
  (state_ (w_pipe w) = ESTABLISHED ->
    is_Some (descriptorReplyConnection_ (w_pipe w)) /\
    (forall k name, channelForDevicePair_ (w_pipe w) !! k = Some name -> name ∈ channels_ (w_pipe w))) /\
  (is_error (error_ (w_pipe w)) = true \/ state_ (w_pipe w) = ESTABLISHED -> pendingRegistrations (w_pipe w) = false).
Proof.
  intros Hnd Hw. pose proof (reach_ok v w Hnd Hw) as ([Hs _] & _). split; [apply Hs|].
  intros Hx. assert (no_registrations (w_pipe w)) as (N1 & N2 & _).
  { apply (so_regs _ _ _ Hs). destruct Hx as [?|Hst]; [by left | right; by rewrite Hst]. }
  unfold pendingRegistrations. by rewrite N1, N2.
Qed.
