(* ===== verification/PipePair.v ===== *)
(** * The two ends of a pipe

    The handshake between a client and a server, and the agreement of their
    framing of the descriptor connection. *)

From S2P Require Import Prelude Messages Select PipeBase OpsStateMachine PipeRead PipeReadInv PipeReadSide.
From S2P Require Import PipeWrite PipeWriteInv PipeWriteSide PipeKinds Pipe PipeInv PipeSteps PipeHandshake.
From S2P Require Import PipeServer PipeClient PipeWorld PipeTheorems.

(** ** The handshake *)

(** The contexts of the two ends implement the same transports and channels. *)
Record contexts_match (vc vs : ContextView) : Prop := {
  cm_channels : compatible (cv_channels vc) (cv_channels vs);
  cm_connections : forall n c s, (n, c) ∈ cv_channels vc -> (n, s) ∈ cv_channels vs ->
    cc_numConnectionsNeeded c = cc_numConnectionsNeeded s;
  cm_transports : NoDup (cv_transports vc).*1;
  cm_reach : forall n c s, (n, c) ∈ cv_transports vc -> (n, s) ∈ cv_transports vs ->
    tc_canCommunicateWithRemote s (tc_domainDescriptor c) = true ->
    tc_canCommunicateWithRemote c (tc_domainDescriptor s) = true;
}.

(** The brochure of a client. *)
Definition brochure_of (v : ContextView) : Brochure :=
  mkBrochure (brochure_transports (cv_transports v)) (brochure_channels (cv_channels v)).

Lemma brochure_transports_in l n d :
  brochure_transports l !! n = Some d -> exists c, (n, c) ∈ l /\ d = tc_domainDescriptor c.
Proof.
  induction l as [|[m c'] l IH]; simpl; [by rewrite lookup_empty|].
  destruct (decide (n = m)) as [->|Hne].
  - rewrite lookup_insert_eq. intros [= <-]. exists c'. split; [left|done].
  - rewrite lookup_insert_ne by done. intros Hx. destruct (IH Hx) as (c & Hin & ->). exists c. split; [by right|done].
Qed.

Lemma selected_transport vs b addresses t :
  selectTransport (cv_transports vs) b addresses = Done t ->
  exists s d, (st_name t, s) ∈ cv_transports vs /\ b !! st_name t = Some d /\
    tc_canCommunicateWithRemote s d = true /\ st_domainDescriptor t = tc_domainDescriptor s.
Proof.
  induction (cv_transports vs) as [|[n c] l IH]; [done|]. cbn [selectTransport]. intros Ht.
  assert (selectTransport l b addresses = Done t -> exists s d, (st_name t, s) ∈ (n, c) :: l /\ b !! st_name t = Some d /\
    tc_canCommunicateWithRemote s d = true /\ st_domainDescriptor t = tc_domainDescriptor s) as Hrec.
  { intros Hx. destruct (IH Hx) as (s & d & Hin & Hrest). exists s, d. split; [by right | done]. }
  destruct (addresses !! n) as [addr|]; [|by apply Hrec]. destruct (b !! n) as [d|] eqn:Hd; [|by apply Hrec].
  destruct (tc_canCommunicateWithRemote c d) eqn:Hc; [|by apply Hrec]. injection Ht as <-.
  exists c, d. split_and!; [left | done | done | done].
Qed.

(** The answer of a server to the brochure of a matching client is what that
    client expects. *)
Lemma server_answer_ok vc vs addresses sp p' a calls t ids1 token :
  contexts_match vc vs -> server_answered vs addresses (brochure_of vc) sp p' a calls t ids1 token ->
  answer_ok vc (transport_ sp) a.
Proof.
  intros [Hc Hn Ht Hr] [T1 T2 T3 [R1 R2 R3 R4 R5 R6] ->]. cbn [ba_channelRegistrationIds brochure_of
    b_transportDomainDescriptors b_channelDeviceDescriptors] in *.
  fold (server_sel (cv_channels vc) (cv_channels vs)) in *.
  split; cbn [ba_transport ba_transportDomainDescriptor ba_transportRegistrationIds ba_channelForDevicePair
    ba_channelRegistrationIds]; unfold answer_selection; cbn [ba_channelDeviceDescriptors];
    try fold (client_sel (cv_channels vc) (cv_channels vs)).
  - apply selected_transport in T1 as (s & d & Hin & Hd & Hcan & ->).
    apply brochure_transports_in in Hd as (c & Hcin & ->). exists c. split; [by apply assoc_elem | by eapply Hr].
  - intros Hne. apply T3 in Hne as [x Hx]. exists x. by rewrite lookup_insert_ne.
  - rewrite lookup_insert_eq. by eexists.
  - by apply agreement.
  - intros name Hname. apply (agreement_names _ _ Hc) in Hname as [d Hd].
    destruct (R3 name) as (s & ids & B1 & B2 & B3 & _).
    { apply list_elem_of_fmap. exists (name, d). split; [done | by apply elem_of_map_to_list]. }
    apply assoc_in in B1.
    assert (exists c, (name, c) ∈ cv_channels vc) as [c Hcin].
    { assert (is_Some (sc_descriptorsMap (client_sel (cv_channels vc) (cv_channels vs)) !! name)) as [d' Hd']
        by (apply (agreement_names _ _ Hc); by eexists).
      apply selected_descs in Hd' as (c & _ & Hcin & _); [by exists c | apply Hc]. }
    exists c, ids. split_and!; [apply assoc_elem; [apply Hc | done] | done|].
    by rewrite (Hn name c s).
Qed.


(** ** Framing *)

(** C6: the two ends frame the descriptor connection alike.  If the descriptors
    that the reader's user got are the ones the writer sent, in order (which is
    what a reliable connection gives), then the pieces the reader asked its
    connection for are, one by one, the first pieces the writer put on its own,
    or also the descriptor that comes next: a payload is never read as a
    descriptor, nor with another length. *)
Theorem framing_agrees vw vr ww wr n :
  NoDup (cv_channels vw).*1 -> NoDup (cv_channels vr).*1 -> pipe_reach vw ww -> pipe_reach vr wr ->
  descs (w_hist wr) = take n (wdescs (w_hist ww)) ->
  exists rest, write_items (w_hist ww) ++ [ItemDescriptor] = read_items (w_hist wr) ++ rest.
Proof.
  intros Hnw Hnr Hw Hr Hd. destruct (pipe_wire_format_writes vw ww Hnw Hw) as (K & HK & Hwd & Hwi).
  destruct (pipe_wire_format_reads vr wr Hnr Hr) as (M & half & HM & Hri).
  assert (take M (descs (w_hist wr)) = take M (descriptor_of <$> take K (w_msgs ww))) as Htake.
  { rewrite Hd, Hwd. rewrite Hd, Hwd, length_take in HM. rewrite take_take. f_equal. lia. }
  assert (write_items (w_hist ww) = mjoin (frame <$> take M (descs (w_hist wr))) ++
    mjoin (frame <$> drop M (descriptor_of <$> take K (w_msgs ww)))) as ->.
  { rewrite Htake, <- join_app, <- fmap_app, take_drop, Hwi. by rewrite <- list_fmap_compose. }
  rewrite Hri, <- app_assoc. destruct half; [|by eexists; rewrite (app_nil_r (mjoin _))].
  destruct (drop M (descriptor_of <$> take K (w_msgs ww))) as [|d l]; [exists []; by rewrite app_nil_r|].
  exists (((fun p => ItemPayload (dp_length p)) <$> d_payloads d) ++ mjoin (frame <$> l) ++ [ItemDescriptor]).
  rewrite fmap_cons. simpl. by rewrite <- !app_assoc.
Qed.
