(* ===== verification/PipeDemo.v ===== *)
(** * Runs of a pipe

    An executable version of the conditions on events, and two concrete runs, of
    a server and of a client, on which the theorems are instantiated. *)

From S2P Require Import Prelude Messages Select PipeBase OpsStateMachine OpsInvariants PipeRead PipeReadInv.
From S2P Require Import PipeReadSide.
From S2P Require Import PipeWrite PipeWriteInv PipeWriteSide PipeKinds Pipe PipeInv PipeSteps PipeHandshake.
From S2P Require Import PipeServer PipeClient PipeWorld PipeTheorems PipePair.

Definition channel_answeredb (v : ContextView) (ids : gmap string (list Z)) (name : string) : bool :=
  match getChannel v name, ids !! name with
  | Done c, Some l => (length l =? cc_numConnectionsNeeded c)%nat
  | _, _ => false
  end.

Definition answer_okb (v : ContextView) (transport : string) (a : BrochureAnswer) : bool :=
  match getTransport v (ba_transport a) with
  | Done t => tc_canCommunicateWithRemote t (ba_transportDomainDescriptor a)
  | Throw _ => false
  end &&
  (bool_decide (ba_transport a = transport) || bool_decide (is_Some (ba_transportRegistrationIds a !! DESCRIPTOR))) &&
  bool_decide (is_Some (ba_transportRegistrationIds a !! DESCRIPTOR_REPLY)) &&
  channels_consistent (ba_channelForDevicePair a) (sc_channelForDevicePair (answer_selection v a)) &&
  forallb (fun kv => channel_answeredb v (ba_channelRegistrationIds a) kv.1)
    (map_to_list (sc_descriptorsMap (answer_selection v a))).

Lemma answer_okb_ok v transport a : answer_okb v transport a = true -> answer_ok v transport a.
Proof.
  unfold answer_okb. intros [[[[Ht Hd]%andb_true_iff Hr]%andb_true_iff Hc]%andb_true_iff Hch]%andb_true_iff.
  split; try done.
  - destruct (getTransport v (ba_transport a)) as [t|]; [by exists t | done].
  - intros Hne. apply orb_true_iff in Hd as [Hd|Hd]; by apply bool_decide_eq_true in Hd.
  - by apply bool_decide_eq_true in Hr.
  - intros name [d Hn]. rewrite forallb_forall in Hch. specialize (Hch (name, d)).
    assert (channel_answeredb v (ba_channelRegistrationIds a) name = true) as Hx
      by (by apply Hch, list_elem_of_In, elem_of_map_to_list).
    unfold channel_answeredb in Hx. destruct (getChannel v name) as [c|] eqn:Hg; [|done].
    destruct (ba_channelRegistrationIds a !! name) as [l|] eqn:Hl; [|done]. apply Nat.eqb_eq in Hx. by exists c, l.
Qed.

Definition delivery_okb (v : ContextView) (p : PipeImpl) (msgs : list Message) (c : cb) (d : delivery) : bool :=
  match c, d with
  | CbNothing, _ | CbPayloadRead _, _ | CbTensorRecv _, _ | CbPayloadWritten _, _ | CbTensorSent _, _ => true
  | CbDescriptor _, DDescriptor _ => true
  | CbReply it, DReply r =>
      match msgs !! Z.to_nat it with
      | Some m => (length (r_targetDevices r) =? missing_count (m_tensors m))%nat
      | None => true
      end
  | CbBrochure, DBrochure _ _ _ => true
  | CbBrochureAnswer, DAnswer a _ => answer_okb v (transport_ p) a
  | CbConnection _ _, DConnection transport _ | CbChannel _ _ _, DConnection transport _ =>
      bool_decide (transport = transport_ p)
  | _, _ => false
  end.

Definition event_okb (v : ContextView) (w : PipeWorld) (ev : pipe_event) : bool :=
  match ev with
  | EvReadDescriptor => nextMessageBeingRead_ (reads_ (w_pipe w)) + 1 <? 2 ^ 63
  | EvRead allocation =>
      match rd_calls (w_hist w) !! Z.to_nat (w_reads w) with
      | Some (n, e, d) => (n =? Z.to_nat (w_reads w))%nat && negb (is_error e) &&
          match checkAllocationCompatibility d allocation with Done _ => true | Throw _ => false end
      | None => false
      end
  | EvWrite m => (nextMessageBeingWritten_ (writes_ (w_pipe w)) + 1 <? 2 ^ 63) &&
      (Z.of_nat (length (m_payloads m)) <? 2 ^ 64) && (Z.of_nat (length (m_tensors m)) <? 2 ^ 64)
  | EvClose => true
  | EvFire i e d =>
      match d with
      | DDescriptor desc => (Z.of_nat (length (d_payloads desc)) <? 2 ^ 64) && (Z.of_nat (length (d_tensors desc)) <? 2 ^ 64)
      | _ => true
      end &&
      match w_pending w !! i with
      | Some c => is_error e || is_error (error_ (w_pipe w)) || delivery_okb v (w_pipe w) (w_msgs w) c d
      | None => false
      end
  end.

Lemma delivery_okb_ok v p msgs c d : delivery_okb v p msgs c d = true -> delivery_ok v p msgs c d.
Proof.
  destruct c, d; simpl; try done.
  - intros Hx m Hm. rewrite Hm in Hx. by apply Nat.eqb_eq in Hx.
  - apply answer_okb_ok.
  - by intros ?%bool_decide_eq_true.
  - by intros ?%bool_decide_eq_true.
Qed.

Lemma event_okb_ok v w ev : event_okb v w ev = true -> event_ok v w ev.
Proof.
  destruct ev as [|a|m| |i e d]; simpl.
  - by intros ?%Z.ltb_lt.
  - destruct (rd_calls (w_hist w) !! Z.to_nat (w_reads w)) as [[[n e] d]|] eqn:Hrd; [|done].
    intros Hx. apply andb_true_iff in Hx as [[Hn He]%andb_true_iff Hc]. apply Nat.eqb_eq in Hn as ->.
    apply negb_true_iff in He. exists e, d. split_and!; [by eapply list_elem_of_lookup_2 | done|].
    by destruct (checkAllocationCompatibility d a) as [[]|].
  - intros [[?%Z.ltb_lt ?%Z.ltb_lt]%andb_true_iff ?%Z.ltb_lt]%andb_true_iff. by split; [|split].
  - done.
  - intros [Hd Hx]%andb_true_iff. split.
    + destruct d; try done. apply andb_true_iff in Hd as [?%Z.ltb_lt ?%Z.ltb_lt]. by split.
    + destruct (w_pending w !! i) as [c|]; [|done]. exists c. split; [done|]. intros He He'.
      rewrite He, He' in Hx. by apply delivery_okb_ok.
Qed.

(** Runs a list of events, if they are allowed. *)
Fixpoint run_events (v : ContextView) (w : PipeWorld) (evs : list pipe_event) : option PipeWorld :=
  match evs with
  | [] => Some w
  | ev :: evs =>
      if event_okb v w ev then
        match pipe_step v w ev with Done w' => run_events v w' evs | Throw _ => None end
      else None
  end.

Lemma run_reach v evs : forall w w', pipe_reach v w -> run_events v w evs = Some w' -> pipe_reach v w'.
Proof.
  induction evs as [|ev evs IH]; intros w w' Hw Hrun; [by injection Hrun as <-|]. simpl in Hrun.
  destruct (event_okb v w ev) eqn:Hev; [|done]. destruct (pipe_step v w ev) as [w1|] eqn:Hstep; [|done].
  eapply IH; [|done]. eapply reach_event; [done | by apply event_okb_ok | done].
Qed.

(** ** A client that sends a message, and a server that receives one *)

Open Scope string_scope.
Definition demo_transports : TOrderedTransports :=
  [("shm", mkTransportContext "boot1" (fun d => bool_decide (d = "boot1")));
   ("uv", mkTransportContext "any" (fun _ => true))].
Definition client_view : ContextView := mkContextView "client" demo_transports demo_client.
Definition server_view : ContextView := mkContextView "server" demo_transports demo_server.
Definition demo_addresses : gmap string string := {["shm" := "/tmp/a"; "uv" := "127.0.0.1"]}.

Definition demo_message : Message :=
  mkMessage "hello" [mkMsgPayload 1000 8 "p"] [mkMsgTensor (mkTensorBuffer demo_cpu 2000) 16 None "t"].
Definition demo_allocation : Allocation := mkAllocation [3000] [mkTensorBuffer demo_cpu 4000].
Definition demo_tok (n : nat) : Z := 100 + Z.of_nat n.
Definition demo_conns (n : nat) : conn := 10 + Z.of_nat n.

Definition demo_answer : BrochureAnswer :=
  mkBrochureAnswer "shm" "/tmp/a" {[DESCRIPTOR := 100; DESCRIPTOR_REPLY := 101]} "boot1" {["basic" := [102]]}
    {["basic" := {[demo_cpu := "any"]}]} {[(demo_cpu, demo_cpu) := "basic"]}.

Definition server_start : PipeWorld := init_world server_view false (newServerPipe "uv" 1).
Definition server_script : list pipe_event :=
  [EvFire 0 kSuccess (DBrochure (brochure_of client_view) demo_addresses demo_tok);
   EvReadDescriptor;
   EvFire 1 kSuccess (DConnection "shm" 8);
   EvFire 0 kSuccess (DConnection "shm" 7);
   EvFire 0 kSuccess (DConnection "shm" 9);
   EvFire 1 kSuccess (DDescriptor (descriptor_of demo_message));
   EvRead demo_allocation;
   EvFire 1 kSuccess DNothing].
Definition server_world : option PipeWorld := run_events server_view server_start server_script.

Definition client_start : PipeWorld := init_world client_view false (newClientPipe "uv" 1).
Definition client_script : list pipe_event :=
  [EvWrite demo_message;
   EvFire 2 kSuccess (DAnswer demo_answer demo_conns);
   EvWrite demo_message].
Definition client_world : option PipeWorld := run_events client_view client_start client_script.
Close Scope string_scope.

Definition server_quiet : option PipeWorld :=
  run_events server_view server_start
    (server_script ++ [EvFire 2 kSuccess DNothing; EvFire 0 kSuccess DNothing; EvFire 0 kSuccess DNothing]).

(** The world a successful run ends in. *)
Definition final (w : PipeWorld) (o : option PipeWorld) : PipeWorld := default w o.

Lemma final_reach v w evs : pipe_reach v w -> is_Some (run_events v w evs) -> pipe_reach v (final w (run_events v w evs)).
Proof. intros Hw [w' Hw']. rewrite Hw'. by eapply run_reach. Qed.

Ltac compute_some := apply (bool_decide_unpack _); vm_compute; exact I.

Lemma server_start_reach : pipe_reach server_view server_start.
Proof. apply reach_server. Qed.
Lemma server_reach : pipe_reach server_view (final server_start server_world).
Proof. apply final_reach; [apply server_start_reach | compute_some]. Qed.
Lemma server_quiet_reach : pipe_reach server_view (final server_start server_quiet).
Proof. apply final_reach; [apply server_start_reach | compute_some]. Qed.
Lemma client_reach : pipe_reach client_view (final client_start client_world).
Proof. apply final_reach; [apply reach_client | compute_some]. Qed.

Lemma demo_nodup : NoDup (cv_channels client_view).*1 /\ NoDup (cv_channels server_view).*1.
Proof. split; compute_some. Qed.

Lemma demo_match : contexts_match client_view server_view.
Proof.
  split.
  - apply demo_compatible.
  - intros n c s H1 H2. apply list_elem_of_In in H1, H2. simpl in H1, H2.
    destruct H1 as [H1|[H1|[H1|[]]]], H2 as [H2|[H2|[]]]; simplify_eq; done.
  - compute_some.
  - intros n c s H1 H2. apply list_elem_of_In in H1, H2. simpl in H1, H2.
    destruct H1 as [H1|[H1|[]]], H2 as [H2|[H2|[]]]; simplify_eq; done.
Qed.

(** ** The theorems on these runs *)

Lemma pipe_no_throw_witness :
  event_ok server_view (final server_start server_world) (EvFire 2 kSuccess DNothing) /\
  match pipe_step server_view (final server_start server_world) (EvFire 2 kSuccess DNothing) with
  | Done _ => True
  | Throw e => e = no_channel \/ e = no_viable_transport
  end.
Proof.
  assert (event_ok server_view (final server_start server_world) (EvFire 2 kSuccess DNothing)) as He
    by (apply event_okb_ok; vm_compute; reflexivity).
  split; [exact He|].
  exact (pipe_no_throw server_view (final server_start server_world) (EvFire 2 kSuccess DNothing)
    (proj2 demo_nodup) server_reach He).
Defined.

Lemma pipe_callbacks_in_order_witness :
  exists D R W : nat,
    (fun c => c.1.1) <$> rd_calls (w_hist (final server_start server_quiet)) = seq 0 D /\
    r_calls (w_hist (final server_start server_quiet)) = seq 0 R /\
    w_calls (w_hist (final server_start server_quiet)) = seq 0 W /\
    (D <= Z.to_nat (nextMessageBeingRead_ (reads_ (w_pipe (final server_start server_quiet)))))%nat /\
    (R <= Z.to_nat (w_reads (final server_start server_quiet)))%nat /\
    (W <= length (w_msgs (final server_start server_quiet)))%nat.
Proof. exact (pipe_callbacks_in_order server_view (final server_start server_quiet) (proj2 demo_nodup) server_quiet_reach). Defined.


Lemma pipe_quiescent_witness :
  r_calls (w_hist (final server_start server_quiet)) = seq 0 (Z.to_nat (w_reads (final server_start server_quiet))).
Proof.
  refine (proj1 (proj2 (pipe_quiescent server_view (final server_start server_quiet) (proj2 demo_nodup) _ server_quiet_reach _))).
  - repeat constructor; simpl; lia.
  - apply (bool_decide_unpack _). vm_compute. exact I.
Defined.

Lemma pipe_established_complete_witness :
  is_Some (descriptorReplyConnection_ (w_pipe (final server_start server_quiet))) /\
  pendingRegistrations (w_pipe (final server_start server_quiet)) = false.
Proof.
  assert (state_ (w_pipe (final server_start server_quiet)) = ESTABLISHED) as Hst by (vm_compute; reflexivity).
  destruct (pipe_established_complete server_view (final server_start server_quiet) (proj2 demo_nodup) server_quiet_reach)
    as [H1 H2].
  split; [exact (proj1 (H1 Hst)) | exact (H2 (or_intror Hst))].
Defined.


Lemma framing_agrees_witness :
  exists rest, write_items (w_hist (final client_start client_world)) ++ [ItemDescriptor] =
    read_items (w_hist (final server_start server_world)) ++ rest.
Proof.
  apply (framing_agrees client_view server_view (final client_start client_world) (final server_start server_world) 1
    (proj1 demo_nodup) (proj2 demo_nodup) client_reach server_reach).
  vm_compute. reflexivity.
Defined.
